(* ===== verification/_CoqProject ===== *)
-Q . S2P
Prelude.v
Db.v
RustStr.v
Wallet.v
ShareKeys.v
Settlement.v
Accounts.v
Providers.v
ApiKeys.v
Fixtures.v
WalletFacts.v
ProRata.v
ShareKeysFacts.v
Backfill.v
SettlementFacts.v
AccountsFacts.v
Onchain.v
OnchainFacts.v
Availability.v
Referrals.v
Sessions.v
LedgerSystem.v
AppendOnly.v
Merkle.v
Anchoring.v
AnchoringFacts.v
F64.v
Registry.v
RegistryFacts.v
Scheduler.v
SchedulerFacts.v
Pins.v
PinsFacts.v
Auth.v
AuthFacts.v
Noise.v
NoiseFacts.v
PinWire.v
PinWireFacts.v
PinHandlers.v
PinHandlersFacts.v
PinNode.v
PinNodeFacts.v
PinUsage.v
PinUsageFacts.v
Catalog.v
ChatPrepare.v
Chat.v
ChatFixtures.v
Gateway.v
ChatDispatch.v
ChatRuns.v
ChatBudget.v
ProviderHealth.v
ProviderHealthFacts.v
Market.v
MarketFacts.v
Solana.v
SolanaFacts.v
Http.v
AccountHandlers.v
AdminHandlers.v
Solvency.v
Server.v
ServerFacts.v
ServerFixtures.v
ServerMoney.v
ServerChain.v
Anthropic.v
AnthropicFacts.v
AnthropicRuns.v
AnthropicRequests.v
RelayWire.v
RelayClient.v
RelayStreams.v
RelaySupply.v
Responses.v
ResponsesFacts.v
Completions.v
ProviderAdmin.v
