(* ===== verification/Prelude.v ===== *)
(** * The Teale gateway: a verification library

    Teale is a network on which devices serve model inference to each other
    for credits.  The Rust workspace has a gateway ([gateway/]), a node agent
    ([node/]), shared message types ([protocol/]), a command line ([cli/]) and
    a load generator ([stress/]); a relay server and the desktop and mobile
    clients are written in other languages.

    The gateway owns the money: the SQLite database of [gateway/src/db.rs] and
    the functions of [gateway/src/ledger.rs] that read and write it.  Around
    that ledger it
    - serves HTTP requests to it, behind a bearer check ([auth.rs], [main.rs],
      [handlers/]), and asks a Solana node whether payments arrived
      ([solana.rs]);
    - publishes hashes of the rows on the chain ([anchoring.rs]);
    - keeps a table of connected devices and requests in flight
      ([registry.rs]) and picks the device that serves a request
      ([scheduler.rs]);
    - learns of the devices from a relay, and reaches them over it
      ([relay_client.rs], [protocol/src/relay.rs], [protocol/src/cluster.rs]);
    - runs chat requests on the devices ([handlers/chat.rs], with prices from
      [catalog.rs]), translates those of other dialects to them
      ([handlers/messages.rs], [responses.rs], [completions.rs]), or hands them
      to centralized providers ([providers/], [router.rs],
      [handlers/centralized.rs], [handlers/admin_providers.rs]), and settles
      them;
    - coordinates private networks ([pins.rs], [handlers/pins.rs]), whose
      devices keep signed netmaps, talk over Noise sessions and report usage
      ([node/src/pin/]).
    This library models these parts and proves what makes each of them correct,
    alone and composed.

    ** How the code is modelled

    The database is one record, [Db.Db], with a finite map or a list of rows
    per table.  A function of [ledger.rs] becomes a function on that record
    that returns the new database next to its answer, and a [result] where
    the code returns [Result]; a transaction that fails commits nothing, which
    is [Db.commit].  The lock around the connection makes every call atomic,
    so a run of the gateway is a sequence of calls ([LedgerSystem.apply_op]).
    - Handlers.  An HTTP handler is a computation over the store that answers,
      fails with a [GatewayError] or panics ([Http.Http]); changes it made
      before it failed stay.  Where it awaits the network, other requests may
      run: the store changes there by an arbitrary function ([Http.awaits]).
    - Chat requests are processes.  Their phases are the points at which the
      code awaits or lets another request in; a step takes what the world
      answers.  [Gateway] interleaves many of them.  A request of the Messages
      endpoint is such a process with the translation around it
      ([Anthropic.Turn]).
    - The relay client is a state, the tables of [RelayHandle] next to the
      registry, with a step per method of the handle, frame of the relay, end
      of a connection and turn of the discover task ([RelayClient.relay_step]).
      What has been sent is the list of messages that reached a live
      connection.
    - Integers.  [i64] values are [Z]; arithmetic that Rust does is wrapped to
      64 bits ([i64_add], [i64_sub], [i64_mul], [i64_div] truncating towards
      zero), arithmetic that SQL does inside a statement is not (SQLite has no
      wrap-around; past 64 bits it turns to floating point).  The theorems
      on the 70/25/5 split assume that a hundred times the credits in
      circulation fit an [i64] ([SettlementFacts.circulation_bounded]), since
      the code multiplies by 70, 25 and 95 before it divides.  [i128] sums of
      token balances wrap too; the theorems on the chain ask that the amounts
      the node reports are [u64], as Solana's are.
    - Time and randomness.  [unix_now], [Instant] and the [uuid] identifiers
      are arguments of each operation; nothing is assumed about them.
    - Crates and services are parameters: SHA-256 and hex ([Merkle.Crates]),
      JSON text and Ed25519 ([PinWire.WireCrates]), the Noise primitives
      ([Noise.NoiseCrates]), base64 ([RelayWire.Base64]), the bounded channel of
      Tokio ([RelayClient.Mpsc]), the Solana node ([Solana.SolanaNode]), the mail
      service, the providers.  What is assumed of them is a class of laws of
      its own ([CrateLaws], [WireLaws], [NoiseLaws], [Base64Laws], [MpscLaws],
      [JsonLines]) with an instance, so that no theorem is vacuous; a theorem
      that would need collision resistance names the collision instead.
    - [f64] is IEEE 754 binary64 on the Standard Library's [SpecFloat]; the
      power function and the random number of the scheduler are parameters.
    - JSON is a datatype ([PinWire.Json]); numbers in it are integers.
    - The registry lives in memory.  [Instant] is a number of nanoseconds and
      [u32] counters wrap; a method that takes locks runs as one step.
    - Strings are UTF-8 byte sequences.  [to_lowercase] converts the ASCII
      letters only, which is what the code does on ASCII text ([is_ascii]).
    - Panics.  [normalize_account_user_id] can panic; it returns [option], and
      so does the one operation that calls it before writing.
    - A [SELECT] without [ORDER BY] visits rows in the order of the finite map;
      no theorem depends on that order.
    Recursion is over lists a query or a message contains, or, in the loops of
    the chat handler and of base58, over counters the code has; the fuel of
    [carry_bytes] is the number of bytes of a [u32].  Every operation is total,
    and the one process that could run on, a chat request, is proved to end
    ([ChatRuns.chat_terminates]).

    ** The files

    - [Prelude]: results and their notation, [i64] arithmetic, sums over maps,
      the hint database [ledger].
    - [Db]: the tables of [db.rs], the SQL statements with their constraints,
      and the credits they hold ([supply], [solvent]).
    - [RustStr]: the string methods the gateway calls.
    - The ledger: [Wallet], [WalletFacts] (devices, login, bonuses, minting,
      views); [ShareKeys], [ProRata], [ShareKeysFacts], [Backfill] (pre-funded
      bearer keys, largest-remainder spending, refunds, startup passes);
      [Settlement], [SettlementFacts]; [Accounts], [AccountsFacts] (ids,
      recipients, transfers, linking, sweep); [Onchain], [OnchainFacts]
      (deposits and the withdrawal state machine); [Availability] (the drip);
      [Referrals]; [Sessions] (e-mail codes and sessions); [ApiKeys]
      ([api_keys.rs]); [Providers] ([providers/registry.rs]); [Fixtures], a
      small concrete database; [LedgerSystem], all operations as one machine;
      [AppendOnly].
    - Anchoring: [Merkle] (row encoding, hash chain, tree, proofs);
      [Anchoring], [AnchoringFacts] (tables and operations, interleaved with
      the ledger; [prepare_anchor] and [inclusion_proof] lock twice, so their
      halves are separate steps).
    - Devices: [F64] (doubles); [Registry], [RegistryFacts]
      ([registry.rs] with the message types it stores); [Scheduler],
      [SchedulerFacts].
    - Private networks: [Pins], [PinsFacts] (storage); [PinWire],
      [PinWireFacts] (signed netmaps of [protocol/src/pin.rs]); [PinHandlers],
      [PinHandlersFacts] (the endpoints); [PinNode], [PinNodeFacts]
      ([manager.rs] of the node); [PinUsage], [PinUsageFacts]
      ([usage.rs]); [Noise], [NoiseFacts] ([noise.rs]).
    - Chat: [Catalog] (models and prices); [ChatPrepare] and [Chat] (the two
      halves of [handlers/chat.rs]); [ChatFixtures]; [Gateway], [ChatDispatch],
      [ChatRuns], [ChatBudget] (theorems).
    - The Messages endpoint: [Anthropic] ([handlers/messages.rs]: the
      translation of requests, the accumulation of chunks, the events made of
      them, the runs); [AnthropicFacts] (a client that reads the events),
      [AnthropicRuns], [AnthropicRequests] (theorems).
    - The other dialects: [Responses] ([handlers/responses.rs], with the bytes of
      a stream and their frames), [ResponsesFacts];
      [Completions] ([handlers/completions.rs]).
    - The relay: [RelayWire] (its messages and the cluster messages inside
      them); [RelayClient] ([relay_client.rs]); [RelayStreams] (what sessions
      receive, with a concrete channel to run them on), [RelaySupply] (which
      machines serve).
    - Centralized providers: [ProviderHealth], [ProviderHealthFacts]; [Market],
      [MarketFacts]; [ProviderAdmin] ([handlers/admin_providers.rs]).
    - The money server: [Auth], [AuthFacts] (errors, bearer check, rate
      limits); [Solana], [SolanaFacts]; [Http] (handlers as computations, error
      texts); [AccountHandlers], [AdminHandlers], [Solvency] (the handlers);
      [Server] (the routes); [ServerFacts], [ServerFixtures], [ServerMoney],
      [ServerChain] (theorems).

    ** What is proved

    - The ledger as a system ([LedgerSystem]).  [LedgerSafe cap f] is the
      interface each operation discharges: it keeps the database solvent and
      well-formed and moves the books by between 0 and [cap], while the credits
      in circulation are bounded; [LedgerSafeAlways] drops that bound, which
      only settlements need.  From it: in every database that operations and
      genesis resets reach nobody is overdrawn and all credits were deposited,
      issued since the last reset or left with the providers by it, and
      operations that issue nothing conserve exactly.  Rows of the ledger stay
      in place until a reset ([AppendOnly]).
    - The money server.  [server_refines_plan]: a request changes the store by
      a prefix of its plan, a list of ledger operations for the authenticated
      caller.  Three consequences: only holders and operators lower a wallet
      ([only_holders_spend]); credits are issued by operators and to newcomers
      only, and written off by an operator's reset only
      ([requests_issue_little]); and in every interleaving of requests
      each deposit and each finished withdrawal is backed by a settled
      transaction that a node vouched for ([chain_backs_the_books]).  The
      verification of transactions is sound for that reading, and the base58
      decoder is inverse to an encoder.
    - Settlement.  Conservation for all payers, the exact amounts each wallet
      gains and loses (70/25/5 on the fleet, 95/5 with a provider), pool
      spending for share keys, the credit limit of API keys.
    - Share keys.  The apportionment is exact, fair to one credit, and gives the
      credits left over by largest remainder; minting,
      funding, revoking and expiry move exactly the right amounts; refunds
      happen once; the startup backfill is complete and idempotent.
    - Accounts.  A transfer or sweep changes two wallets by its amount and no
      other; canonical ids are canonical.
    - On-chain.  A withdrawal takes its credits once, whatever the order of
      request, completion and rejection; a deposit signature counts once.
    - Drip, referrals, codes, sessions, API keys and login: payments happen
      once, counters and lifetimes are respected; a bearer is accepted only as
      the credential stored for it.
    - Anchoring.  The encoding of a row reads back; a proof that verifies is
      about an anchored row and a chain tip is about one history, up to a
      collision that is exhibited; confirmed anchors partition a prefix of the
      ledger and every row of it has a proof that verifies, until a genesis
      reset; an anchor is confirmed only with its memo on the chain, from the authority.
    - Registry.  The counters never exceed the open sessions and a fresh heavy
      hold refuses everybody but its owner; they agree with the open sessions,
      and heavy ones share an owner, as long as no admission finds a hold older
      than its time to live, which it drops with sessions that may still be
      open; the model index lists the public devices exactly.
    - Scheduler.  [pick] implements the declarative choice: some device exactly
      when one is dispatchable, least loaded, loaded if possible, near the best
      score; [saturated] is characterised.
    - Chat.  The requests together refine the registry with its sessions, in
      runs without such late holds; a request is billed at most once, and only
      when a session of it completed, a stream never repeats output, every
      request ends; the device chosen can serve the request and the error says
      why none could; a prepared request fits model and budget; the cascade of a
      virtual model is bounded.
    - The Messages endpoint.  The events of a stream are accepted by a client
      of the protocol, which is written here as a reader of its own, and it
      ends up with the message of the buffered answer ([stream_assembles]); a
      turn is billed at most once ([messages_billed_once]); what a well-typed
      request translates to deserializes, and an answer sent back as history
      translates to a message with the same text and calls.
    - The Responses endpoint.  The events of a stream are those of the chunks the
      chat handler wrote, however the network cuts its bytes
      ([responses_stream_exact]); an answer sent back as input means the same
      text and calls.  A legacy completion asks for one message and answers with
      its text.
    - The relay.  The tier a device got from the discover gate survives
      everything else, composed with both endpoints: prompts only go to listed
      machines ([only_listed_machines_serve]).  A request reads what was sent to
      its session, in order, once, complete while its queue had room, with at
      most one end ([session_stream]); the end of a connection ends everything
      in flight, and is told to a session whose queue has room
      ([disconnect_ends_everything]).
    - Centralized providers.  Only providers that satisfy the preferences are
      contacted and the one that answered is settled, no other; candidates are
      ordered as asked; the snapshot and the health statistics agree with their
      sources; a created provider is listed, a disabled one is offered for no
      model, and only operators change either.
    - Private networks.  The netmap generation versions the membership; who is
      no admin changes of other devices at most the name and whether they serve,
      who has no role nothing of them; the ledger is never written; a signature
      binds one netmap; a device lets in only members of netmaps that were
      verified and fresh when it took them in; usage is counted exactly once; a
      Noise session refines a window over the counters received and two ends
      agree on keys.
    - Divergences.  Some theorems state behaviour that differs from what the
      code or its comments intend, mostly on a concrete run.  Among them: a device
      links itself to any account and empties it; a transfer between strangers
      is credited to whoever names it; a deposit follows a device that is linked
      elsewhere meanwhile; [send] and provider settlement ignore the limit of an
      API key; a failing node reads as an empty treasury; the migration an empty
      wallet stops; the panic in id normalization; a withdrawal posted twice;
      anchors that outlive a reset; light sessions an expired hold forgets;
      peers of a netmap that grew stale in memory, who may still connect;
      roles that outlive their network; a stream that is not billed when the
      client leaves after the last chunk; preferences dropped by one malformed
      field; a netmap key pinned before its signature is checked; tool calls
      whose pieces come without a name or an index; a full session queue that
      loses text from an answer that is then billed as complete; a session
      registered after the connection that opened it ended; tool calls a
      streamed response drops; providers that cannot be changed once created.

    ** What is not modelled

    [backfill_funded_share_key_contributions], which reconstructs pools for
    databases older than this code, is modelled on its own and is not a step of
    the ledger machine (see [Backfill]).  [reset_genesis] is a step of the ledger
    and of the money server, but not of the anchoring machine, whose proofs do
    not survive it ([AnchoringFacts.reset_strands_anchors]); in
    [chain_backs_the_books] it runs when no other request waits.  The timer
    loops, metrics, log lines, the websocket of the relay, HTTP clients and pages
    are I/O around these functions.  The money server leaves out the routes that hold no wallets:
    chat, networks, anchors and the administration of providers have models of
    their own; groups have none.  The tables of groups and the
    stored health rows are outside the record, and so is the owner column of
    pins except for the foreign key that [reset_genesis] trips over.

    Not modelled, though they are code of the gateway, the node or the tools with
    a behaviour of its own: groups; the collection of models ([collect.rs]) and
    the probes; the model swap, the priority gate, the privacy
    filter and the STUN parser of the node ([swap.rs], [pin/gate.rs],
    [privacy_filter.rs], [pin/endpoints.rs]); the supervisor of the node, which
    starts processes; the GGUF parser of the command line.  Of the cluster
    messages the writer is modelled for the request a gateway sends only.  The
    relay client reads JSON numbers as integers and payloads as objects, and
    leaves out the slice of the node id in the log line of [registerAck], which
    panics inside a character. *)

From Stdlib Require Export ZArith Lia.
From stdpp Require Export base numbers pretty strings gmap fin_maps list.

Open Scope Z_scope.

(** ** Results: Rust's [Result<T, E>] *)

Inductive result (E A : Type) : Type :=
| Ok (a : A)
| Err (e : E).
Arguments Ok {E A} a.
Arguments Err {E A} e.

Definition is_ok {E A} (r : result E A) : bool :=
  match r with Ok _ => true | Err _ => false end.

(** [Result::map_err], the conversion the [?] operator inserts. *)
Definition map_err {E F A} (f : E -> F) (r : result E A) : result F A :=
  match r with Ok a => Ok a | Err e => Err (f e) end.

(** [Result::ok] and [Option::ok_or]. *)
Definition ok {E A} (r : result E A) : option A :=
  match r with Ok a => Some a | Err _ => None end.
Definition ok_or {E A} (e : E) (o : option A) : result E A :=
  match o with Some a => Ok a | None => Err e end.

Declare Scope result_scope.
Delimit Scope result_scope with result.
Notation "'let?' x := c 'in' k" :=
  (match c with Ok x => k | Err e => Err e end)
  (at level 10, x pattern, c at level 100, k at level 200) : result_scope.
Notation "'guard?' b 'else' e 'in' k" :=
  (if b then k else Err e)
  (at level 10, b at level 100, e at level 9, k at level 200) : result_scope.
Open Scope result_scope.

(** A [for] loop whose body may leave the function with an error. *)
Fixpoint fold_res {E A S : Type} (body : A -> S -> result E S) (l : list A) (s : S)
    : result E S :=
  match l with
  | [] => Ok s
  | a :: l => let? s := body a s in fold_res body l s
  end.

Lemma fold_res_app {E A S} (body : A -> S -> result E S) l1 l2 s :
  fold_res body (l1 ++ l2) s = let? s := fold_res body l1 s in fold_res body l2 s.
Proof. revert s. induction l1 as [|a l1 IH]; intros s; simpl; [done|]. destruct (body a s); [apply IH|done]. Qed.

(** What every successful iteration keeps, the loop keeps. *)
Lemma fold_res_ind {E A S : Type} (body : A -> S -> result E S) (P : S -> Prop) l s s' :
  (forall a s s', a ∈ l -> body a s = Ok s' -> P s -> P s') ->
  fold_res body l s = Ok s' -> P s -> P s'.
Proof.
  revert s. induction l as [|a l IH]; simpl; intros s Hb H Hs; [congruence|].
  destruct (body a s) as [s1|] eqn:E1; [|done].
  eapply IH; [|exact H|].
  - intros. eapply Hb; [by right | done | done].
  - eapply Hb; [by left | done | done].
Qed.

(** ** Machine integers

    Rust's [i64] arithmetic wraps around in a release build; the gateway's
    [Cargo.toml] sets no [overflow-checks]. *)

Definition i64_min : Z := - 2 ^ 63.
Definition i64_max : Z := 2 ^ 63 - 1.
Definition in_i64 (z : Z) : Prop := i64_min <= z <= i64_max.
Definition wrap64 (z : Z) : Z := (z + 2 ^ 63) mod 2 ^ 64 - 2 ^ 63.

Definition i64_add (a b : Z) : Z := wrap64 (a + b).
Definition i64_sub (a b : Z) : Z := wrap64 (a - b).
Definition i64_mul (a b : Z) : Z := wrap64 (a * b).
Definition i64_neg (a : Z) : Z := wrap64 (- a).
(** Division truncates toward zero; the divisors in this code are positive. *)
Definition i64_div (a b : Z) : Z := Z.quot a b.
(** [i64::checked_mul] and [i64::saturating_sub]. *)
Definition i64_checked_mul (a b : Z) : option Z :=
  if (i64_min <=? a * b) && (a * b <=? i64_max) then Some (a * b) else None.
Definition i64_saturating_sub (a b : Z) : Z := Z.max i64_min (Z.min i64_max (a - b)).

Lemma wrap64_id z : in_i64 z -> wrap64 z = z.
Proof.
  unfold in_i64, wrap64, i64_min, i64_max. intros H.
  rewrite Z.mod_small by lia. lia.
Qed.

Lemma wrap64_range z : in_i64 (wrap64 z).
Proof.
  unfold in_i64, wrap64, i64_min, i64_max.
  pose proof (Z.mod_pos_bound (z + 2 ^ 63) (2 ^ 64) ltac:(lia)). lia.
Qed.

Lemma i64_add_id a b : in_i64 (a + b) -> i64_add a b = a + b.
Proof. apply wrap64_id. Qed.
Lemma i64_sub_id a b : in_i64 (a - b) -> i64_sub a b = a - b.
Proof. apply wrap64_id. Qed.
Lemma i64_mul_id a b : in_i64 (a * b) -> i64_mul a b = a * b.
Proof. apply wrap64_id. Qed.
Lemma i64_neg_id a : in_i64 (- a) -> i64_neg a = - a.
Proof. apply wrap64_id. Qed.

(** Proves a side condition [in_i64 e]. *)
Ltac range := unfold in_i64, i64_min, i64_max in *; lia.

(** ** Sums over lists and over the rows of a table *)

Definition zsum (l : list Z) : Z := foldr Z.add 0 l.

Lemma zsum_cons x l : zsum (x :: l) = x + zsum l.
Proof. done. Qed.

Lemma zsum_app l k : zsum (l ++ k) = zsum l + zsum k.
Proof. induction l as [|x l IH]; simpl; lia. Qed.

Lemma zsum_nonneg l : Forall (fun x => 0 <= x) l -> 0 <= zsum l.
Proof. induction 1; simpl; lia. Qed.

Lemma zsum_replicate (n : nat) x : zsum (replicate n x) = Z.of_nat n * x.
Proof. induction n as [|n IH]; simpl; lia. Qed.

#[export] Instance zsum_Permutation : Proper ((≡ₚ) ==> (=)) zsum.
Proof. induction 1; simpl; lia. Qed.

(** A sum of non-negative [i64]s that fits does not wrap on the way. *)
Lemma foldl_i64_add a l :
  Forall (fun x => 0 <= x) l -> 0 <= a -> a + zsum l <= i64_max ->
  foldl i64_add a l = a + zsum l.
Proof.
  revert a. induction l as [|x l IH]; simpl; intros a Hl Ha Hb; [lia|].
  inversion Hl as [|? ? Hx Hl']; subst. pose proof (zsum_nonneg l Hl').
  rewrite i64_add_id by range. rewrite IH by (done || lia). lia.
Qed.

(** [SELECT COALESCE(SUM(f), 0) FROM m]; a [WHERE] clause is a case
    distinction inside [f]. *)
Definition map_sum {K V : Type} `{Countable K} (f : V -> Z) (m : gmap K V) : Z :=
  map_fold (fun _ v acc => f v + acc) 0 m.

(** [INSERT OR IGNORE INTO m (k, ...) VALUES (...)]. *)
Definition insert_or_ignore {K V : Type} `{Countable K} (k : K) (v : V) (m : gmap K V) : gmap K V :=
  match m !! k with Some _ => m | None => <[k := v]> m end.

Section Tables.
Context {K V : Type} `{Countable K}.
Implicit Types (m : gmap K V) (k : K) (v : V) (f : V -> Z) (g : V -> V).

Lemma map_sum_empty f : map_sum f (∅ : gmap K V) = 0.
Proof. apply map_fold_empty. Qed.

Lemma map_sum_insert_new f k v m :
  m !! k = None -> map_sum f (<[k := v]> m) = map_sum f m + f v.
Proof.
  intros Hk. unfold map_sum. rewrite map_fold_insert_L; [lia | | done].
  intros. lia.
Qed.

Lemma map_sum_delete f k v m :
  m !! k = Some v -> map_sum f (delete k m) = map_sum f m - f v.
Proof.
  intros Hk. unfold map_sum. erewrite (map_fold_delete_L _ _ k v m); [lia | | done].
  intros. lia.
Qed.

Lemma map_sum_insert f k v m :
  map_sum f (<[k := v]> m) = map_sum f m + f v - default 0 (f <$> m !! k).
Proof.
  destruct (m !! k) as [w|] eqn:Hk; simpl.
  - rewrite <-insert_delete_eq, map_sum_insert_new by apply lookup_delete_eq.
    rewrite (map_sum_delete _ _ w) by done. lia.
  - rewrite map_sum_insert_new by done. lia.
Qed.

Lemma map_sum_alter f g k m :
  map_sum f (alter g k m) =
  map_sum f m + default 0 ((fun v => f (g v) - f v) <$> m !! k).
Proof.
  destruct (m !! k) as [w|] eqn:Hk; simpl.
  - replace (alter g k m) with (<[k := g w]> m).
    + rewrite map_sum_insert, Hk. simpl. lia.
    + apply map_eq. intros i. destruct (decide (k = i)) as [->|Hne].
      * by rewrite lookup_insert_eq, lookup_alter_eq, Hk.
      * by rewrite lookup_insert_ne, lookup_alter_ne.
  - rewrite alter_id; [lia|]. intros v Hv. congruence.
Qed.

(** An [UPDATE] that adds [d] to the column, or leaves it alone. *)
Lemma map_sum_alter_add f g k m d :
  (forall v, f (g v) = f v + d) -> is_Some (m !! k) ->
  map_sum f (alter g k m) = map_sum f m + d.
Proof. intros Hg [w Hw]. rewrite map_sum_alter, Hw. simpl. rewrite Hg. lia. Qed.

Lemma map_sum_alter_same f g k m :
  (forall v, f (g v) = f v) -> map_sum f (alter g k m) = map_sum f m.
Proof.
  intros Hg. rewrite map_sum_alter. destruct (m !! k); simpl; rewrite ?Hg; lia.
Qed.

Lemma map_sum_insert_or_ignore f k v m :
  f v = 0 -> map_sum f (insert_or_ignore k v m) = map_sum f m.
Proof.
  intros Hv. unfold insert_or_ignore. destruct (m !! k) eqn:Hk; [done|].
  rewrite map_sum_insert_new by done. lia.
Qed.

Lemma map_sum_ext f f' m :
  (forall k v, m !! k = Some v -> f v = f' v) -> map_sum f m = map_sum f' m.
Proof.
  induction m as [|k v m Hk IH] using map_ind; intros Hf; [by rewrite !map_sum_empty|].
  rewrite !map_sum_insert_new by done.
  rewrite (Hf k v) by apply lookup_insert_eq.
  rewrite IH; [done|]. intros i w Hi. apply (Hf i).
  rewrite lookup_insert_ne by congruence. done.
Qed.

Lemma map_sum_zero f m : (forall k v, m !! k = Some v -> f v = 0) -> map_sum f m = 0.
Proof.
  induction m as [|k v m Hk IH] using map_ind; intros Hf; [by rewrite map_sum_empty|].
  rewrite map_sum_insert_new, (Hf k v) by (done || apply lookup_insert_eq).
  rewrite IH; [done|]. intros i w Hi. apply (Hf i). rewrite lookup_insert_ne by congruence. done.
Qed.

Lemma map_sum_nonneg f m :
  map_Forall (fun _ v => 0 <= f v) m -> 0 <= map_sum f m.
Proof.
  induction m as [|k v m Hk IH] using map_ind; intros Hf; [by rewrite map_sum_empty|].
  rewrite map_sum_insert_new by done.
  apply map_Forall_insert in Hf as [Hv Hm]; [|done]. specialize (IH Hm). lia.
Qed.

Lemma map_sum_elem_le f m k v :
  map_Forall (fun _ v => 0 <= f v) m -> m !! k = Some v -> f v <= map_sum f m.
Proof.
  intros Hf Hk. pose proof (map_sum_delete f k v m Hk) as E.
  assert (0 <= map_sum f (delete k m)); [|lia].
  apply map_sum_nonneg. by apply map_Forall_delete.
Qed.

Lemma map_sum_to_list f m : map_sum f m = zsum (f <$> (map_to_list m).*2).
Proof.
  induction m as [|k v m Hk IH] using map_ind; [by rewrite map_sum_empty, map_to_list_empty|].
  rewrite map_sum_insert_new, IH, map_to_list_insert by done. rewrite !fmap_cons. simpl. lia.
Qed.

Lemma map_sum_fmap f g m : map_sum f (g <$> m) = map_sum (fun v => f (g v)) m.
Proof.
  rewrite !map_sum_to_list, map_to_list_fmap, <-!list_fmap_compose. done.
Qed.

Lemma insert_or_ignore_is_Some k v m : is_Some (insert_or_ignore k v m !! k).
Proof.
  unfold insert_or_ignore. destruct (m !! k) eqn:Hk; [by eauto|].
  rewrite lookup_insert_eq. eauto.
Qed.

Lemma insert_or_ignore_lookup_ne k j v m :
  k <> j -> insert_or_ignore k v m !! j = m !! j.
Proof.
  intros Hne. unfold insert_or_ignore. destruct (m !! k); [done|].
  by rewrite lookup_insert_ne.
Qed.

Lemma insert_or_ignore_lookup_eq k v m :
  insert_or_ignore k v m !! k = Some (default v (m !! k)).
Proof.
  unfold insert_or_ignore. destruct (m !! k) eqn:Hk; [done|].
  by rewrite lookup_insert_eq.
Qed.

Lemma insert_or_ignore_mono k j v m :
  is_Some (m !! j) -> is_Some (insert_or_ignore k v m !! j).
Proof.
  intros Hj. destruct (decide (k = j)) as [->|]; [apply insert_or_ignore_is_Some|].
  by rewrite insert_or_ignore_lookup_ne.
Qed.

Lemma map_Forall_insert_or_ignore (P : K -> V -> Prop) k v m :
  P k v -> map_Forall P m -> map_Forall P (insert_or_ignore k v m).
Proof.
  intros Hv Hm. unfold insert_or_ignore. destruct (m !! k); [done|].
  by apply map_Forall_insert_2.
Qed.

Lemma map_Forall_alter (P : K -> V -> Prop) g k m :
  (forall v, m !! k = Some v -> P k v -> P k (g v)) ->
  map_Forall P m -> map_Forall P (alter g k m).
Proof.
  intros Hg Hm i v Hi. destruct (decide (k = i)) as [->|Hne].
  - rewrite lookup_alter_eq in Hi. apply fmap_Some in Hi as (w & Hw & ->).
    apply Hg; [done | by apply Hm].
  - rewrite lookup_alter_ne in Hi by done. by apply Hm.
Qed.

Lemma alter_is_Some g k j m : is_Some (alter g k m !! j) <-> is_Some (m !! j).
Proof.
  destruct (decide (k = j)) as [->|Hne].
  - rewrite lookup_alter_eq. apply fmap_is_Some.
  - by rewrite lookup_alter_ne.
Qed.

End Tables.

(** The library's hint database: rows that exist, and side conditions. *)
Create HintDb ledger.
#[export] Hint Resolve insert_or_ignore_is_Some insert_or_ignore_mono : ledger.

(** Splits a hypothesis [H : op ... = Ok ...] along the operation's guards and
    intermediate statements. *)
Ltac inv_ok H :=
  repeat match type of H with
  | Err _ = Ok _ => discriminate H
  | Ok _ = Err _ => discriminate H
  | Ok _ = Ok _ => injection H as H
  | context [match ?x with _ => _ end] =>
      lazymatch x with
      | context [match _ with _ => _ end] => fail
      | _ => destruct x eqn:?
      end
  end.
