(* ===== verification/Db.v ===== *)
(** * The gateway's SQLite database

    The schema of [gateway/src/db.rs] as a Rocq record: one field per table,
    a finite map from the primary key to the remaining columns where the table
    has a text key, a list of rows (oldest first) with its [AUTOINCREMENT]
    counter for the append-only ledgers.  The statements the ledger issues are
    functions on that record: an [UPDATE ... WHERE key = ?] is [alter], an
    [INSERT OR IGNORE] is [insert_or_ignore], and an [INSERT] checks the
    table's primary key, [UNIQUE], [CHECK] and [FOREIGN KEY] constraints
    ([foreign_keys = ON] in [db::open]) and fails the way SQLite does.
    The file closes with the money the database holds ([supply]) and the
    lemmas that say what each statement does to it. *)

From S2P Require Import Prelude.

(** ** Rows *)

Record DeviceRow : Type := mkDeviceRow {
  dev_username : option string;
  dev_first_seen : Z;
  dev_last_seen : Z
}.

Record TokenRow : Type := mkTokenRow {
  tok_device_id : string;
  tok_expires_at : Z
}.

Record LedgerRow : Type := mkLedgerRow {
  led_id : Z;
  led_device_id : string;
  led_type : string;
  led_amount : Z;
  led_timestamp : Z;
  led_ref_request_id : option string;
  led_note : option string
}.

Record BalanceRow : Type := mkBalanceRow {
  bal_balance : Z;
  bal_total_earned : Z;
  bal_total_spent : Z
}.

Record MintPoolRow : Type := mkMintPoolRow {
  mp_total_minted : Z;
  mp_remaining : Z
}.

Record ShareKeyRow : Type := mkShareKeyRow {
  sk_token : string;
  sk_issuer_device_id : string;
  sk_label : option string;
  sk_expires_at : Z;
  sk_budget_credits : Z;
  sk_consumed_credits : Z;
  sk_created_at : Z;
  sk_revoked_at : option Z;
  sk_funded : Z;
  sk_funding_id : option string;
  sk_refunds_settled_at : option Z
}.

Record ContributionRow : Type := mkContributionRow {
  skc_key_id : string;
  skc_funder_device_id : string;
  skc_funded_credits : Z;
  skc_remaining_credits : Z;
  skc_created_at : Z;
  skc_refunded_at : option Z;
  skc_refund_reason : option string
}.

Record AccountWalletRow : Type := mkAccountWalletRow {
  aw_display_name : option string;
  aw_phone : option string;
  aw_email : option string;
  aw_github_username : option string;
  aw_balance_credits : Z;
  aw_usdc_cents : Z;
  aw_created_at : Z;
  aw_updated_at : Z;
  aw_solana_address : option string;
  aw_solana_enabled : Z;
  aw_deposited_usdc_cents_total : Z;
  aw_withdrawn_usdc_cents_total : Z
}.

Record AccountDeviceRow : Type := mkAccountDeviceRow {
  ad_account_user_id : string;
  ad_device_name : option string;
  ad_platform : option string;
  ad_linked_at : Z;
  ad_last_seen : Z
}.

Record AccountLedgerRow : Type := mkAccountLedgerRow {
  al_id : Z;
  al_account_user_id : string;
  al_asset : string;
  al_amount : Z;
  al_type : string;
  al_timestamp : Z;
  al_device_id : option string;
  al_note : option string;
  al_api_key_id : option string
}.

Record AvailabilityRow : Type := mkAvailabilityRow {
  avs_model_id : option string;
  avs_started_at : Z;
  avs_last_accrued_at : Z;
  avs_accrued_credits : Z
}.

Record ApiKeyRow : Type := mkApiKeyRow {
  ak_account_user_id : string;
  ak_key_hash : string;
  ak_prefix : string;
  ak_name : option string;
  ak_role : string;
  ak_credit_limit : option Z;
  ak_usage_credits : Z;
  ak_disabled : Z;
  ak_created_at : Z;
  ak_last_used_at : option Z
}.

Record ProviderRow : Type := mkProviderRow {
  prv_slug : string;
  prv_display_name : string;
  prv_base_url : string;
  prv_wire_format : string;
  prv_auth_header_name : string;
  prv_auth_secret_ref : string;
  prv_status : string;
  prv_data_collection : string;
  prv_zdr : Z;
  prv_quantization : option string;
  prv_created_at : Z;
  prv_updated_at : Z
}.

Record ProviderWalletRow : Type := mkProviderWalletRow {
  pw_balance_credits : Z;
  pw_total_earned : Z;
  pw_total_paid_out : Z;
  pw_usdc_cents : Z;
  pw_payout_threshold : Z;
  pw_payout_destination : option string;
  pw_updated_at : Z
}.

Record ProviderLedgerRow : Type := mkProviderLedgerRow {
  pl_id : Z;
  pl_provider_id : string;
  pl_type : string;
  pl_amount : Z;
  pl_timestamp : Z;
  pl_ref_request_id : option string;
  pl_model_id : option string;
  pl_note : option string
}.

Record DepositRow : Type := mkDepositRow {
  dep_account_user_id : string;
  dep_tx_signature : string;
  dep_solana_address : string;
  dep_source_address : option string;
  dep_amount_usdc_cents : Z;
  dep_amount_credits : Z;
  dep_created_at : Z
}.

Record WithdrawalRow : Type := mkWithdrawalRow {
  wd_request_id : string;
  wd_account_user_id : string;
  wd_destination_address : string;
  wd_amount_usdc_cents : Z;
  wd_amount_credits : Z;
  wd_status : string;
  wd_tx_signature : option string;
  wd_created_at : Z;
  wd_completed_at : option Z
}.

Record ReferralCodeRow : Type := mkReferralCodeRow {
  rc_owner_kind : string;
  rc_owner_device_id : option string;
  rc_owner_account_user_id : option string;
  rc_created_at : Z
}.

Record ReferralClaimRow : Type := mkReferralClaimRow {
  rcl_code : string;
  rcl_referrer_kind : string;
  rcl_referrer_id : string;
  rcl_referred_kind : string;
  rcl_referred_device_id : option string;
  rcl_referred_account_user_id : option string;
  rcl_referrer_bonus_credits : Z;
  rcl_referred_bonus_credits : Z;
  rcl_created_at : Z
}.

Record EmailCodeRow : Type := mkEmailCodeRow {
  aec_email : string;
  aec_code_hash : string;
  aec_created_at : Z;
  aec_expires_at : Z;
  aec_attempts : Z;
  aec_consumed_at : option Z;
  aec_link_token_hash : option string
}.

Record AccountSessionRow : Type := mkAccountSessionRow {
  ase_account_user_id : string;
  ase_token_hash : string;
  ase_created_at : Z;
  ase_expires_at : Z;
  ase_last_seen_at : Z;
  ase_device_id : option string;
  ase_device_name : option string;
  ase_revoked_at : option Z
}.

(** ** The database *)

Record Db : Type := mkDb {
  devices : gmap string DeviceRow;
  tokens : gmap string TokenRow;
  challenges : gmap (string * string) Z;
  ledger : list LedgerRow;
  ledger_seq : Z;
  balances : gmap string BalanceRow;
  mint_pool : option MintPoolRow;
  share_keys : gmap string ShareKeyRow;
  share_key_contributions : gmap string ContributionRow;
  account_wallets : gmap string AccountWalletRow;
  account_devices : gmap string AccountDeviceRow;
  account_ledger : list AccountLedgerRow;
  account_ledger_seq : Z;
  availability_sessions : gmap string AvailabilityRow;
  api_keys : gmap string ApiKeyRow;
  providers : gmap string ProviderRow;
  provider_wallets : gmap string ProviderWalletRow;
  provider_ledger : list ProviderLedgerRow;
  provider_ledger_seq : Z;
  account_onchain_deposits : gmap string DepositRow;
  account_withdrawals : gmap string WithdrawalRow;
  referral_codes : gmap string ReferralCodeRow;
  referral_claims : gmap string ReferralClaimRow;
  account_email_codes : gmap string EmailCodeRow;
  account_sessions : gmap string AccountSessionRow;
  pin_owners : gmap string string
}.

Definition set_devices (x : gmap string DeviceRow) (db : Db) : Db :=
    mkDb x (tokens db) (challenges db) (ledger db) (ledger_seq db) (balances db) (mint_pool db)
    (share_keys db) (share_key_contributions db) (account_wallets db) (account_devices db)
    (account_ledger db) (account_ledger_seq db) (availability_sessions db) (api_keys db)
    (providers db) (provider_wallets db) (provider_ledger db) (provider_ledger_seq db)
    (account_onchain_deposits db) (account_withdrawals db) (referral_codes db) (referral_claims
    db) (account_email_codes db) (account_sessions db) (pin_owners db).
Definition set_tokens (x : gmap string TokenRow) (db : Db) : Db :=
    mkDb (devices db) x (challenges db) (ledger db) (ledger_seq db) (balances db) (mint_pool db)
    (share_keys db) (share_key_contributions db) (account_wallets db) (account_devices db)
    (account_ledger db) (account_ledger_seq db) (availability_sessions db) (api_keys db)
    (providers db) (provider_wallets db) (provider_ledger db) (provider_ledger_seq db)
    (account_onchain_deposits db) (account_withdrawals db) (referral_codes db) (referral_claims
    db) (account_email_codes db) (account_sessions db) (pin_owners db).
Definition set_challenges (x : gmap (string * string) Z) (db : Db) : Db :=
    mkDb (devices db) (tokens db) x (ledger db) (ledger_seq db) (balances db) (mint_pool db)
    (share_keys db) (share_key_contributions db) (account_wallets db) (account_devices db)
    (account_ledger db) (account_ledger_seq db) (availability_sessions db) (api_keys db)
    (providers db) (provider_wallets db) (provider_ledger db) (provider_ledger_seq db)
    (account_onchain_deposits db) (account_withdrawals db) (referral_codes db) (referral_claims
    db) (account_email_codes db) (account_sessions db) (pin_owners db).
Definition set_ledger (x : list LedgerRow) (db : Db) : Db :=
    mkDb (devices db) (tokens db) (challenges db) x (ledger_seq db) (balances db) (mint_pool db)
    (share_keys db) (share_key_contributions db) (account_wallets db) (account_devices db)
    (account_ledger db) (account_ledger_seq db) (availability_sessions db) (api_keys db)
    (providers db) (provider_wallets db) (provider_ledger db) (provider_ledger_seq db)
    (account_onchain_deposits db) (account_withdrawals db) (referral_codes db) (referral_claims
    db) (account_email_codes db) (account_sessions db) (pin_owners db).
Definition set_ledger_seq (x : Z) (db : Db) : Db :=
    mkDb (devices db) (tokens db) (challenges db) (ledger db) x (balances db) (mint_pool db)
    (share_keys db) (share_key_contributions db) (account_wallets db) (account_devices db)
    (account_ledger db) (account_ledger_seq db) (availability_sessions db) (api_keys db)
    (providers db) (provider_wallets db) (provider_ledger db) (provider_ledger_seq db)
    (account_onchain_deposits db) (account_withdrawals db) (referral_codes db) (referral_claims
    db) (account_email_codes db) (account_sessions db) (pin_owners db).
Definition set_balances (x : gmap string BalanceRow) (db : Db) : Db :=
    mkDb (devices db) (tokens db) (challenges db) (ledger db) (ledger_seq db) x (mint_pool db)
    (share_keys db) (share_key_contributions db) (account_wallets db) (account_devices db)
    (account_ledger db) (account_ledger_seq db) (availability_sessions db) (api_keys db)
    (providers db) (provider_wallets db) (provider_ledger db) (provider_ledger_seq db)
    (account_onchain_deposits db) (account_withdrawals db) (referral_codes db) (referral_claims
    db) (account_email_codes db) (account_sessions db) (pin_owners db).
Definition set_mint_pool (x : option MintPoolRow) (db : Db) : Db :=
    mkDb (devices db) (tokens db) (challenges db) (ledger db) (ledger_seq db) (balances db) x
    (share_keys db) (share_key_contributions db) (account_wallets db) (account_devices db)
    (account_ledger db) (account_ledger_seq db) (availability_sessions db) (api_keys db)
    (providers db) (provider_wallets db) (provider_ledger db) (provider_ledger_seq db)
    (account_onchain_deposits db) (account_withdrawals db) (referral_codes db) (referral_claims
    db) (account_email_codes db) (account_sessions db) (pin_owners db).
Definition set_share_keys (x : gmap string ShareKeyRow) (db : Db) : Db :=
    mkDb (devices db) (tokens db) (challenges db) (ledger db) (ledger_seq db) (balances db)
    (mint_pool db) x (share_key_contributions db) (account_wallets db) (account_devices db)
    (account_ledger db) (account_ledger_seq db) (availability_sessions db) (api_keys db)
    (providers db) (provider_wallets db) (provider_ledger db) (provider_ledger_seq db)
    (account_onchain_deposits db) (account_withdrawals db) (referral_codes db) (referral_claims
    db) (account_email_codes db) (account_sessions db) (pin_owners db).
Definition set_share_key_contributions (x : gmap string ContributionRow) (db : Db) : Db :=
    mkDb (devices db) (tokens db) (challenges db) (ledger db) (ledger_seq db) (balances db)
    (mint_pool db) (share_keys db) x (account_wallets db) (account_devices db) (account_ledger
    db) (account_ledger_seq db) (availability_sessions db) (api_keys db) (providers db)
    (provider_wallets db) (provider_ledger db) (provider_ledger_seq db)
    (account_onchain_deposits db) (account_withdrawals db) (referral_codes db) (referral_claims
    db) (account_email_codes db) (account_sessions db) (pin_owners db).
Definition set_account_wallets (x : gmap string AccountWalletRow) (db : Db) : Db :=
    mkDb (devices db) (tokens db) (challenges db) (ledger db) (ledger_seq db) (balances db)
    (mint_pool db) (share_keys db) (share_key_contributions db) x (account_devices db)
    (account_ledger db) (account_ledger_seq db) (availability_sessions db) (api_keys db)
    (providers db) (provider_wallets db) (provider_ledger db) (provider_ledger_seq db)
    (account_onchain_deposits db) (account_withdrawals db) (referral_codes db) (referral_claims
    db) (account_email_codes db) (account_sessions db) (pin_owners db).
Definition set_account_devices (x : gmap string AccountDeviceRow) (db : Db) : Db :=
    mkDb (devices db) (tokens db) (challenges db) (ledger db) (ledger_seq db) (balances db)
    (mint_pool db) (share_keys db) (share_key_contributions db) (account_wallets db) x
    (account_ledger db) (account_ledger_seq db) (availability_sessions db) (api_keys db)
    (providers db) (provider_wallets db) (provider_ledger db) (provider_ledger_seq db)
    (account_onchain_deposits db) (account_withdrawals db) (referral_codes db) (referral_claims
    db) (account_email_codes db) (account_sessions db) (pin_owners db).
Definition set_account_ledger (x : list AccountLedgerRow) (db : Db) : Db :=
    mkDb (devices db) (tokens db) (challenges db) (ledger db) (ledger_seq db) (balances db)
    (mint_pool db) (share_keys db) (share_key_contributions db) (account_wallets db)
    (account_devices db) x (account_ledger_seq db) (availability_sessions db) (api_keys db)
    (providers db) (provider_wallets db) (provider_ledger db) (provider_ledger_seq db)
    (account_onchain_deposits db) (account_withdrawals db) (referral_codes db) (referral_claims
    db) (account_email_codes db) (account_sessions db) (pin_owners db).
Definition set_account_ledger_seq (x : Z) (db : Db) : Db :=
    mkDb (devices db) (tokens db) (challenges db) (ledger db) (ledger_seq db) (balances db)
    (mint_pool db) (share_keys db) (share_key_contributions db) (account_wallets db)
    (account_devices db) (account_ledger db) x (availability_sessions db) (api_keys db)
    (providers db) (provider_wallets db) (provider_ledger db) (provider_ledger_seq db)
    (account_onchain_deposits db) (account_withdrawals db) (referral_codes db) (referral_claims
    db) (account_email_codes db) (account_sessions db) (pin_owners db).
Definition set_availability_sessions (x : gmap string AvailabilityRow) (db : Db) : Db :=
    mkDb (devices db) (tokens db) (challenges db) (ledger db) (ledger_seq db) (balances db)
    (mint_pool db) (share_keys db) (share_key_contributions db) (account_wallets db)
    (account_devices db) (account_ledger db) (account_ledger_seq db) x (api_keys db) (providers
    db) (provider_wallets db) (provider_ledger db) (provider_ledger_seq db)
    (account_onchain_deposits db) (account_withdrawals db) (referral_codes db) (referral_claims
    db) (account_email_codes db) (account_sessions db) (pin_owners db).
Definition set_api_keys (x : gmap string ApiKeyRow) (db : Db) : Db :=
    mkDb (devices db) (tokens db) (challenges db) (ledger db) (ledger_seq db) (balances db)
    (mint_pool db) (share_keys db) (share_key_contributions db) (account_wallets db)
    (account_devices db) (account_ledger db) (account_ledger_seq db) (availability_sessions db)
    x (providers db) (provider_wallets db) (provider_ledger db) (provider_ledger_seq db)
    (account_onchain_deposits db) (account_withdrawals db) (referral_codes db) (referral_claims
    db) (account_email_codes db) (account_sessions db) (pin_owners db).
Definition set_providers (x : gmap string ProviderRow) (db : Db) : Db :=
    mkDb (devices db) (tokens db) (challenges db) (ledger db) (ledger_seq db) (balances db)
    (mint_pool db) (share_keys db) (share_key_contributions db) (account_wallets db)
    (account_devices db) (account_ledger db) (account_ledger_seq db) (availability_sessions db)
    (api_keys db) x (provider_wallets db) (provider_ledger db) (provider_ledger_seq db)
    (account_onchain_deposits db) (account_withdrawals db) (referral_codes db) (referral_claims
    db) (account_email_codes db) (account_sessions db) (pin_owners db).
Definition set_provider_wallets (x : gmap string ProviderWalletRow) (db : Db) : Db :=
    mkDb (devices db) (tokens db) (challenges db) (ledger db) (ledger_seq db) (balances db)
    (mint_pool db) (share_keys db) (share_key_contributions db) (account_wallets db)
    (account_devices db) (account_ledger db) (account_ledger_seq db) (availability_sessions db)
    (api_keys db) (providers db) x (provider_ledger db) (provider_ledger_seq db)
    (account_onchain_deposits db) (account_withdrawals db) (referral_codes db) (referral_claims
    db) (account_email_codes db) (account_sessions db) (pin_owners db).
Definition set_provider_ledger (x : list ProviderLedgerRow) (db : Db) : Db :=
    mkDb (devices db) (tokens db) (challenges db) (ledger db) (ledger_seq db) (balances db)
    (mint_pool db) (share_keys db) (share_key_contributions db) (account_wallets db)
    (account_devices db) (account_ledger db) (account_ledger_seq db) (availability_sessions db)
    (api_keys db) (providers db) (provider_wallets db) x (provider_ledger_seq db)
    (account_onchain_deposits db) (account_withdrawals db) (referral_codes db) (referral_claims
    db) (account_email_codes db) (account_sessions db) (pin_owners db).
Definition set_provider_ledger_seq (x : Z) (db : Db) : Db :=
    mkDb (devices db) (tokens db) (challenges db) (ledger db) (ledger_seq db) (balances db)
    (mint_pool db) (share_keys db) (share_key_contributions db) (account_wallets db)
    (account_devices db) (account_ledger db) (account_ledger_seq db) (availability_sessions db)
    (api_keys db) (providers db) (provider_wallets db) (provider_ledger db) x
    (account_onchain_deposits db) (account_withdrawals db) (referral_codes db) (referral_claims
    db) (account_email_codes db) (account_sessions db) (pin_owners db).
Definition set_account_onchain_deposits (x : gmap string DepositRow) (db : Db) : Db :=
    mkDb (devices db) (tokens db) (challenges db) (ledger db) (ledger_seq db) (balances db)
    (mint_pool db) (share_keys db) (share_key_contributions db) (account_wallets db)
    (account_devices db) (account_ledger db) (account_ledger_seq db) (availability_sessions db)
    (api_keys db) (providers db) (provider_wallets db) (provider_ledger db) (provider_ledger_seq
    db) x (account_withdrawals db) (referral_codes db) (referral_claims db) (account_email_codes
    db) (account_sessions db) (pin_owners db).
Definition set_account_withdrawals (x : gmap string WithdrawalRow) (db : Db) : Db :=
    mkDb (devices db) (tokens db) (challenges db) (ledger db) (ledger_seq db) (balances db)
    (mint_pool db) (share_keys db) (share_key_contributions db) (account_wallets db)
    (account_devices db) (account_ledger db) (account_ledger_seq db) (availability_sessions db)
    (api_keys db) (providers db) (provider_wallets db) (provider_ledger db) (provider_ledger_seq
    db) (account_onchain_deposits db) x (referral_codes db) (referral_claims db)
    (account_email_codes db) (account_sessions db) (pin_owners db).
Definition set_referral_codes (x : gmap string ReferralCodeRow) (db : Db) : Db :=
    mkDb (devices db) (tokens db) (challenges db) (ledger db) (ledger_seq db) (balances db)
    (mint_pool db) (share_keys db) (share_key_contributions db) (account_wallets db)
    (account_devices db) (account_ledger db) (account_ledger_seq db) (availability_sessions db)
    (api_keys db) (providers db) (provider_wallets db) (provider_ledger db) (provider_ledger_seq
    db) (account_onchain_deposits db) (account_withdrawals db) x (referral_claims db)
    (account_email_codes db) (account_sessions db) (pin_owners db).
Definition set_referral_claims (x : gmap string ReferralClaimRow) (db : Db) : Db :=
    mkDb (devices db) (tokens db) (challenges db) (ledger db) (ledger_seq db) (balances db)
    (mint_pool db) (share_keys db) (share_key_contributions db) (account_wallets db)
    (account_devices db) (account_ledger db) (account_ledger_seq db) (availability_sessions db)
    (api_keys db) (providers db) (provider_wallets db) (provider_ledger db) (provider_ledger_seq
    db) (account_onchain_deposits db) (account_withdrawals db) (referral_codes db) x
    (account_email_codes db) (account_sessions db) (pin_owners db).
Definition set_account_email_codes (x : gmap string EmailCodeRow) (db : Db) : Db :=
    mkDb (devices db) (tokens db) (challenges db) (ledger db) (ledger_seq db) (balances db)
    (mint_pool db) (share_keys db) (share_key_contributions db) (account_wallets db)
    (account_devices db) (account_ledger db) (account_ledger_seq db) (availability_sessions db)
    (api_keys db) (providers db) (provider_wallets db) (provider_ledger db) (provider_ledger_seq
    db) (account_onchain_deposits db) (account_withdrawals db) (referral_codes db)
    (referral_claims db) x (account_sessions db) (pin_owners db).
Definition set_account_sessions (x : gmap string AccountSessionRow) (db : Db) : Db :=
    mkDb (devices db) (tokens db) (challenges db) (ledger db) (ledger_seq db) (balances db)
    (mint_pool db) (share_keys db) (share_key_contributions db) (account_wallets db)
    (account_devices db) (account_ledger db) (account_ledger_seq db) (availability_sessions db)
    (api_keys db) (providers db) (provider_wallets db) (provider_ledger db) (provider_ledger_seq
    db) (account_onchain_deposits db) (account_withdrawals db) (referral_codes db)
    (referral_claims db) (account_email_codes db) x (pin_owners db).
Definition set_pin_owners (x : gmap string string) (db : Db) : Db :=
    mkDb (devices db) (tokens db) (challenges db) (ledger db) (ledger_seq db) (balances db)
    (mint_pool db) (share_keys db) (share_key_contributions db) (account_wallets db)
    (account_devices db) (account_ledger db) (account_ledger_seq db) (availability_sessions db)
    (api_keys db) (providers db) (provider_wallets db) (provider_ledger db) (provider_ledger_seq
    db) (account_onchain_deposits db) (account_withdrawals db) (referral_codes db)
    (referral_claims db) (account_email_codes db) (account_sessions db) x.

(** ** Errors and queries *)

(** What [rusqlite] reports. *)
Inductive SqlError : Type :=
| QueryReturnedNoRows
| ForeignKeyViolation
| UniqueViolation
| CheckViolation.

(** [anyhow::Error]: a database error, or a message from [bail!]. *)
Inductive anyhow : Type :=
| Sql (e : SqlError)
| Bail (msg : string).

(** [query_row]: the row, or [QueryReturnedNoRows]. *)
Definition query_row {A} (o : option A) : result SqlError A := ok_or QueryReturnedNoRows o.

Definition has {K V : Type} `{Countable K} (k : K) (m : gmap K V) : bool :=
  match m !! k with Some _ => true | None => false end.

(** [SELECT ... FROM m WHERE p]: SQLite gives no order without [ORDER BY]. *)
Definition select_where {K V : Type} `{Countable K} (p : K -> V -> bool) (m : gmap K V)
    : list (K * V) :=
  filter (fun '(k, v) => p k v = true) (map_to_list m).
Definition select_one {K V : Type} `{Countable K} (p : K -> V -> bool) (m : gmap K V)
    : option (K * V) := head (select_where p m).

Definition some_eqb (o : option string) (s : string) : bool := bool_decide (o = Some s).

(** A [UNIQUE] column: no other row than [k]'s holds [x].  SQL [NULL]s never
    collide. *)
Definition unique_for {K V : Type} `{Countable K}
    (col : V -> option string) (k : K) (x : option string) (m : gmap K V) : bool :=
  match x with
  | None => true
  | Some x => bool_decide (map_Forall (fun j v => j = k \/ col v <> Some x) m)
  end.

(** An optional reference into a table. *)
Definition fk_opt {V : Type} (o : option string) (m : gmap string V) : bool :=
  match o with None => true | Some k => has k m end.

(** ** Statements on device wallets *)

(** [INSERT OR IGNORE INTO devices (device_id, first_seen, last_seen)]. *)
Definition ensure_device (now : Z) (d : string) (db : Db) : Db :=
  set_devices (insert_or_ignore d (mkDeviceRow None now now) (devices db)) db.

(** [INSERT OR IGNORE INTO balances (device_id)]: all columns default to 0. *)
Definition ensure_balance (d : string) (db : Db) : Db :=
  set_balances (insert_or_ignore d (mkBalanceRow 0 0 0) (balances db)) db.

Definition update_balance (f : BalanceRow -> BalanceRow) (d : string) (db : Db) : Db :=
  set_balances (alter f d (balances db)) db.

(** [SET balance = balance + ?]. *)
Definition bal_add (x : Z) (r : BalanceRow) : BalanceRow :=
  mkBalanceRow (bal_balance r + x) (bal_total_earned r) (bal_total_spent r).
(** [SET balance = balance + ?, total_earned = total_earned + ?]. *)
Definition bal_earn (x : Z) (r : BalanceRow) : BalanceRow :=
  mkBalanceRow (bal_balance r + x) (bal_total_earned r + x) (bal_total_spent r).
(** [SET balance = balance - ?, total_spent = total_spent + ?]. *)
Definition bal_spend (x : Z) (r : BalanceRow) : BalanceRow :=
  mkBalanceRow (bal_balance r - x) (bal_total_earned r) (bal_total_spent r + x).
(** [SET total_spent = total_spent + ?]. *)
Definition bal_count_spent (x : Z) (r : BalanceRow) : BalanceRow :=
  mkBalanceRow (bal_balance r) (bal_total_earned r) (bal_total_spent r + x).

(** [SELECT balance FROM balances WHERE device_id = ?], with [unwrap_or(0)]. *)
Definition balance_of (d : string) (db : Db) : Z :=
  default 0 (bal_balance <$> balances db !! d).

(** [INSERT INTO ledger (device_id, type, amount, timestamp, ref_request_id, note)]. *)
Definition insert_ledger (d ty : string) (amount ts : Z) (ref : option string) (note : string)
    (db : Db) : Db :=
  let id := ledger_seq db + 1 in
  set_ledger_seq id
    (set_ledger (ledger db ++ [mkLedgerRow id d ty amount ts ref (Some note)]) db).

(** [UPDATE mint_pool SET remaining = MAX(0, remaining - ?) WHERE id = 1]. *)
Definition debit_mint_pool_clamped (x : Z) (db : Db) : Db :=
  set_mint_pool ((fun p => mkMintPoolRow (mp_total_minted p) (Z.max 0 (mp_remaining p - x)))
    <$> mint_pool db) db.

(** ** Statements on account wallets *)

Definition update_account (f : AccountWalletRow -> AccountWalletRow) (a : string) (db : Db) : Db :=
  set_account_wallets (alter f a (account_wallets db)) db.

(** [SET balance_credits = balance_credits + ?, usdc_cents = usdc_cents + ?,
    deposited_usdc_cents_total = ... + ?, withdrawn_usdc_cents_total = ... + ?,
    updated_at = ?]; the statements that name fewer columns add 0 to the others. *)
Definition aw_post (credits usdc deposited withdrawn now : Z) (r : AccountWalletRow)
    : AccountWalletRow :=
  mkAccountWalletRow (aw_display_name r) (aw_phone r) (aw_email r) (aw_github_username r)
    (aw_balance_credits r + credits) (aw_usdc_cents r + usdc) (aw_created_at r) now
    (aw_solana_address r) (aw_solana_enabled r)
    (aw_deposited_usdc_cents_total r + deposited) (aw_withdrawn_usdc_cents_total r + withdrawn).

Definition account_balance_of (a : string) (db : Db) : Z :=
  default 0 (aw_balance_credits <$> account_wallets db !! a).

(** [INSERT INTO account_ledger (...)]: references the wallet and the API key. *)
Definition insert_account_ledger (a asset : string) (amount : Z) (ty : string) (ts : Z)
    (device : option string) (note : string) (api_key : option string) (db : Db)
    : result SqlError Db :=
  guard? has a (account_wallets db) && fk_opt api_key (api_keys db) else ForeignKeyViolation in
  let id := account_ledger_seq db + 1 in
  Ok (set_account_ledger_seq id
    (set_account_ledger
      (account_ledger db ++ [mkAccountLedgerRow id a asset amount ty ts device (Some note) api_key])
      db)).

(** ** Statements on share keys and their contributions *)

Definition update_share_key (f : ShareKeyRow -> ShareKeyRow) (k : string) (db : Db) : Db :=
  set_share_keys (alter f k (share_keys db)) db.

Definition sk_with (budget consumed : Z) (revoked : option Z) (funded : Z)
    (funding : option string) (settled : option Z) (r : ShareKeyRow) : ShareKeyRow :=
  mkShareKeyRow (sk_token r) (sk_issuer_device_id r) (sk_label r) (sk_expires_at r)
    budget consumed (sk_created_at r) revoked funded funding settled.
Definition sk_set_revoked (t : Z) (r : ShareKeyRow) : ShareKeyRow :=
  sk_with (sk_budget_credits r) (sk_consumed_credits r) (Some t) (sk_funded r) (sk_funding_id r)
    (sk_refunds_settled_at r) r.
Definition sk_set_settled (t : Z) (r : ShareKeyRow) : ShareKeyRow :=
  sk_with (sk_budget_credits r) (sk_consumed_credits r) (sk_revoked_at r) (sk_funded r)
    (sk_funding_id r) (Some t) r.
Definition sk_add_consumed (x : Z) (r : ShareKeyRow) : ShareKeyRow :=
  sk_with (sk_budget_credits r) (sk_consumed_credits r + x) (sk_revoked_at r) (sk_funded r)
    (sk_funding_id r) (sk_refunds_settled_at r) r.
Definition sk_set_funded (r : ShareKeyRow) : ShareKeyRow :=
  sk_with (sk_budget_credits r) (sk_consumed_credits r) (sk_revoked_at r) 1
    (sk_funding_id r) (sk_refunds_settled_at r) r.
Definition sk_set_funding_id (id : string) (r : ShareKeyRow) : ShareKeyRow :=
  sk_with (sk_budget_credits r) (sk_consumed_credits r) (sk_revoked_at r) (sk_funded r)
    (Some id) (sk_refunds_settled_at r) r.
Definition sk_set_budget (b : Z) (r : ShareKeyRow) : ShareKeyRow :=
  sk_with b (sk_consumed_credits r) (sk_revoked_at r) (sk_funded r)
    (sk_funding_id r) (sk_refunds_settled_at r) r.

(** [INSERT INTO share_keys (...)]. *)
Definition insert_share_key (k : string) (r : ShareKeyRow) (db : Db) : result SqlError Db :=
  guard? negb (has k (share_keys db)) else UniqueViolation in
  guard? unique_for (fun r => Some (sk_token r)) k (Some (sk_token r)) (share_keys db)
    else UniqueViolation in
  guard? unique_for sk_funding_id k (sk_funding_id r) (share_keys db) else UniqueViolation in
  guard? 0 <? sk_budget_credits r else CheckViolation in
  guard? has (sk_issuer_device_id r) (devices db) else ForeignKeyViolation in
  Ok (set_share_keys (<[k := r]> (share_keys db)) db).

(** [UPDATE share_keys SET budget_credits = ...]: the [CHECK] must hold of the
    updated row. *)
Definition update_share_key_checked (f : ShareKeyRow -> ShareKeyRow) (k : string) (db : Db)
    : result SqlError Db :=
  match share_keys db !! k with
  | None => Ok db
  | Some r =>
      guard? 0 <? sk_budget_credits (f r) else CheckViolation in
      guard? unique_for sk_funding_id k (sk_funding_id (f r)) (share_keys db)
        else UniqueViolation in
      Ok (update_share_key f k db)
  end.

(** [INSERT INTO share_key_contributions (...)]. *)
Definition insert_contribution (c : string) (r : ContributionRow) (db : Db) : result SqlError Db :=
  guard? negb (has c (share_key_contributions db)) else UniqueViolation in
  guard? (0 <? skc_funded_credits r) && (0 <=? skc_remaining_credits r) else CheckViolation in
  guard? has (skc_key_id r) (share_keys db) && has (skc_funder_device_id r) (devices db)
    else ForeignKeyViolation in
  Ok (set_share_key_contributions (<[c := r]> (share_key_contributions db)) db).

Definition update_contribution (f : ContributionRow -> ContributionRow) (c : string) (db : Db)
    : Db :=
  set_share_key_contributions (alter f c (share_key_contributions db)) db.
Definition skc_set_remaining (x : Z) (r : ContributionRow) : ContributionRow :=
  mkContributionRow (skc_key_id r) (skc_funder_device_id r) (skc_funded_credits r) x
    (skc_created_at r) (skc_refunded_at r) (skc_refund_reason r).
Definition skc_set_refunded (t : Z) (reason : string) (r : ContributionRow) : ContributionRow :=
  mkContributionRow (skc_key_id r) (skc_funder_device_id r) (skc_funded_credits r) 0
    (skc_created_at r) (Some t) (Some reason).

(** ** Statements on provider wallets *)

(** [INSERT OR IGNORE INTO provider_wallets (provider_id, updated_at)]: a
    missing provider is a foreign-key error, which [OR IGNORE] does not hide. *)
Definition ensure_provider_wallet (now : Z) (p : string) (db : Db) : result SqlError Db :=
  match provider_wallets db !! p with
  | Some _ => Ok db
  | None =>
      guard? has p (providers db) else ForeignKeyViolation in
      Ok (set_provider_wallets
            (<[p := mkProviderWalletRow 0 0 0 0 0 None now]> (provider_wallets db)) db)
  end.

Definition update_provider (f : ProviderWalletRow -> ProviderWalletRow) (p : string) (db : Db)
    : Db :=
  set_provider_wallets (alter f p (provider_wallets db)) db.
Definition pw_post (credits earned paid now : Z) (r : ProviderWalletRow) : ProviderWalletRow :=
  mkProviderWalletRow (pw_balance_credits r + credits) (pw_total_earned r + earned)
    (pw_total_paid_out r + paid) (pw_usdc_cents r) (pw_payout_threshold r)
    (pw_payout_destination r) now.

Definition provider_balance_of (p : string) (db : Db) : Z :=
  default 0 (pw_balance_credits <$> provider_wallets db !! p).

Definition insert_provider_ledger (p ty : string) (amount ts : Z) (ref model : option string)
    (note : string) (db : Db) : result SqlError Db :=
  guard? has p (providers db) else ForeignKeyViolation in
  let id := provider_ledger_seq db + 1 in
  Ok (set_provider_ledger_seq id
    (set_provider_ledger
      (provider_ledger db ++ [mkProviderLedgerRow id p ty amount ts ref model (Some note)]) db)).

(** ** API keys *)

(** [UPDATE api_keys SET usage_credits = usage_credits + ?, last_used_at = ?]. *)
Definition api_key_use (x now : Z) (k : string) (db : Db) : Db :=
  set_api_keys (alter (fun r =>
    mkApiKeyRow (ak_account_user_id r) (ak_key_hash r) (ak_prefix r) (ak_name r) (ak_role r)
      (ak_credit_limit r) (ak_usage_credits r + x) (ak_disabled r) (ak_created_at r) (Some now))
    k (api_keys db)) db.

(** ** A fresh database *)

Definition empty_db : Db :=
  mkDb ∅ ∅ ∅ [] 0 ∅ None ∅ ∅ ∅ ∅ [] 0 ∅ ∅ ∅ ∅ [] 0 ∅ ∅ ∅ ∅ ∅ ∅ ∅.

Definition INITIAL_MINT_POOL : Z := 1000000000.

(** [db::seed_mint_pool]. *)
Definition seed_mint_pool (db : Db) : Db :=
  match mint_pool db with
  | Some _ => db
  | None => set_mint_pool (Some (mkMintPoolRow INITIAL_MINT_POOL INITIAL_MINT_POOL)) db
  end.

(** The database after a transaction: what it commits, the old one on error. *)
Definition commit {E A : Type} (r : result E (A * Db)) (db : Db) : Db :=
  match r with Ok (_, db') => db' | Err _ => db end.
Definition commit_unit {E : Type} (r : result E Db) (db : Db) : Db :=
  match r with Ok db' => db' | Err _ => db end.

(** ** The money in the database *)

Definition device_credits (db : Db) : Z := map_sum bal_balance (balances db).
Definition account_credits (db : Db) : Z := map_sum aw_balance_credits (account_wallets db).
Definition provider_credits (db : Db) : Z := map_sum pw_balance_credits (provider_wallets db).
Definition pool_credits (db : Db) : Z :=
  map_sum skc_remaining_credits (share_key_contributions db).

(** Every credit that some wallet or share-key pool holds. *)
Definition supply (db : Db) : Z :=
  device_credits db + account_credits db + provider_credits db + pool_credits db.

(** No wallet is overdrawn. *)
Record solvent (db : Db) : Prop := mk_solvent {
  solvent_devices : map_Forall (fun _ r => 0 <= bal_balance r) (balances db);
  solvent_accounts : map_Forall (fun _ r => 0 <= aw_balance_credits r) (account_wallets db);
  solvent_providers : map_Forall (fun _ r => 0 <= pw_balance_credits r) (provider_wallets db);
  solvent_pools :
    map_Forall (fun _ r => 0 <= skc_remaining_credits r) (share_key_contributions db)
}.

#[export] Instance solvent_dec db : Decision (solvent db).
Proof.
  refine (cast_if (decide (map_Forall (fun _ r => 0 <= bal_balance r) (balances db) /\
    map_Forall (fun _ r => 0 <= aw_balance_credits r) (account_wallets db) /\
    map_Forall (fun _ r => 0 <= pw_balance_credits r) (provider_wallets db) /\
    map_Forall (fun _ r => 0 <= skc_remaining_credits r) (share_key_contributions db)))).
  - abstract (destruct_and!; by split).
  - abstract (intros []; tauto).
Defined.

(** Two databases that hold the same money: the four tables agree. *)
Record same_money (db db' : Db) : Prop := mk_same_money {
  same_balances : balances db' = balances db;
  same_accounts : account_wallets db' = account_wallets db;
  same_providers : provider_wallets db' = provider_wallets db;
  same_pools : share_key_contributions db' = share_key_contributions db
}.

#[export] Instance same_money_equiv : Equivalence same_money.
Proof.
  split.
  - intros db. done.
  - intros db1 db2 [H1 H2 H3 H4]. done.
  - intros db1 db2 db3 [] []. split; congruence.
Qed.

#[export] Instance supply_same_money : Proper (same_money ==> (=)) supply.
Proof.
  intros db db' []. unfold supply, device_credits, account_credits, provider_credits, pool_credits.
  congruence.
Qed.

#[export] Instance solvent_same_money : Proper (same_money ==> iff) solvent.
Proof.
  assert (forall db db', same_money db db' -> solvent db -> solvent db') as Himp.
  { intros db db' [H1 H2 H3 H4] []. split; rewrite ?H1, ?H2, ?H3, ?H4; done. }
  intros db db' H. split; apply Himp; [done | by symmetry].
Qed.

Lemma same_money_supply db db' : same_money db db' -> supply db' = supply db.
Proof. intros H. symmetry. by apply supply_same_money. Qed.

Lemma same_money_solvent db db' : same_money db db' -> solvent db -> solvent db'.
Proof. intros H. by apply solvent_same_money. Qed.

Lemma same_money_refl db db' :
  balances db' = balances db -> account_wallets db' = account_wallets db ->
  provider_wallets db' = provider_wallets db ->
  share_key_contributions db' = share_key_contributions db -> same_money db db'.
Proof. done. Qed.

Lemma supply_nonneg db : solvent db -> 0 <= supply db.
Proof.
  intros [H1 H2 H3 H4]. unfold supply, device_credits, account_credits, provider_credits, pool_credits.
  pose proof (map_sum_nonneg _ _ H1). pose proof (map_sum_nonneg _ _ H2).
  pose proof (map_sum_nonneg _ _ H3). pose proof (map_sum_nonneg _ _ H4). lia.
Qed.

(** ** What the statements do to the money *)

Lemma has_true {K V} `{Countable K} (k : K) (m : gmap K V) : has k m = true <-> is_Some (m !! k).
Proof.
  unfold has. destruct (m !! k); split; [by eauto | done | done | intros [x Hx]; done].
Qed.

Lemma select_where_spec {K V} `{Countable K} (p : K -> V -> bool) (m : gmap K V) k v :
  (k, v) ∈ select_where p m <-> m !! k = Some v /\ p k v = true.
Proof.
  unfold select_where. rewrite list_elem_of_filter, elem_of_map_to_list. tauto.
Qed.

Lemma select_one_Some {K V} `{Countable K} (p : K -> V -> bool) (m : gmap K V) k v :
  select_one p m = Some (k, v) -> m !! k = Some v /\ p k v = true.
Proof.
  unfold select_one. intros Hh. apply select_where_spec.
  destruct (select_where p m); simplify_eq/=. apply list_elem_of_here.
Qed.

Lemma select_one_None {K V} `{Countable K} (p : K -> V -> bool) (m : gmap K V) :
  select_one p m = None -> map_Forall (fun k v => p k v = false) m.
Proof.
  unfold select_one. intros Hh k v Hk. destruct (p k v) eqn:Hp; [|done].
  assert ((k, v) ∈ select_where p m) as Hin by by apply select_where_spec.
  destruct (select_where p m); [by apply not_elem_of_nil in Hin | done].
Qed.

(** A condition that only one row satisfies selects that row. *)
Lemma select_one_unique {K V} `{Countable K} (p : K -> V -> bool) (m : gmap K V) k v :
  m !! k = Some v -> p k v = true -> (forall j w, m !! j = Some w -> p j w = true -> j = k) ->
  select_one p m = Some (k, v).
Proof.
  intros Hk Hp Hu. destruct (select_one p m) as [[j w]|] eqn:E.
  - apply select_one_Some in E as [Hj Hw]. assert (j = k) as -> by eauto. congruence.
  - pose proof (select_one_None _ _ E k v Hk) as Hn. simpl in Hn. congruence.
Qed.

Lemma balance_of_row d db r : balances db !! d = Some r -> balance_of d db = bal_balance r.
Proof. intros H. unfold balance_of. by rewrite H. Qed.

Lemma balance_of_ensure d d' db : balance_of d (ensure_balance d' db) = balance_of d db.
Proof.
  unfold balance_of, ensure_balance. simpl. destruct (decide (d' = d)) as [->|Hne].
  - rewrite insert_or_ignore_lookup_eq. destruct (balances db !! d); done.
  - by rewrite insert_or_ignore_lookup_ne.
Qed.

Lemma supply_ensure_balance d db : supply (ensure_balance d db) = supply db.
Proof.
  unfold supply, device_credits. simpl. by rewrite map_sum_insert_or_ignore.
Qed.

Lemma supply_update_balance f d db x :
  (forall r, bal_balance (f r) = bal_balance r + x) -> is_Some (balances db !! d) ->
  supply (update_balance f d db) = supply db + x.
Proof.
  intros Hf Hd. unfold supply, device_credits. simpl.
  rewrite (map_sum_alter_add _ _ _ _ x) by done.
  unfold account_credits, provider_credits, pool_credits. simpl. lia.
Qed.

Lemma supply_update_account f a db x :
  (forall r, aw_balance_credits (f r) = aw_balance_credits r + x) ->
  is_Some (account_wallets db !! a) ->
  supply (update_account f a db) = supply db + x.
Proof.
  intros Hf Ha. unfold supply, account_credits. simpl.
  rewrite (map_sum_alter_add _ _ _ _ x) by done.
  unfold device_credits, provider_credits, pool_credits. simpl. lia.
Qed.

Lemma supply_update_provider f p db x :
  (forall r, pw_balance_credits (f r) = pw_balance_credits r + x) ->
  is_Some (provider_wallets db !! p) ->
  supply (update_provider f p db) = supply db + x.
Proof.
  intros Hf Hp. unfold supply, provider_credits. simpl.
  rewrite (map_sum_alter_add _ _ _ _ x) by done.
  unfold device_credits, account_credits, pool_credits. simpl. lia.
Qed.

Lemma solvent_ensure_balance d db : solvent db -> solvent (ensure_balance d db).
Proof. intros []. split; simpl; auto using map_Forall_insert_or_ignore, Z.le_refl. Qed.

Lemma solvent_update_balance f d db :
  (forall r, balances db !! d = Some r -> 0 <= bal_balance r -> 0 <= bal_balance (f r)) ->
  solvent db -> solvent (update_balance f d db).
Proof. intros Hf []. split; simpl; auto using map_Forall_alter. Qed.

Lemma solvent_update_account f a db :
  (forall r, account_wallets db !! a = Some r ->
     0 <= aw_balance_credits r -> 0 <= aw_balance_credits (f r)) ->
  solvent db -> solvent (update_account f a db).
Proof. intros Hf []. split; simpl; auto using map_Forall_alter. Qed.

Lemma solvent_update_provider f p db :
  (forall r, provider_wallets db !! p = Some r ->
     0 <= pw_balance_credits r -> 0 <= pw_balance_credits (f r)) ->
  solvent db -> solvent (update_provider f p db).
Proof. intros Hf []. split; simpl; auto using map_Forall_alter. Qed.

(** Inversion of the fallible inserts. *)
Lemma insert_account_ledger_Ok a asset amount ty ts dv note key db db' :
  insert_account_ledger a asset amount ty ts dv note key db = Ok db' ->
  is_Some (account_wallets db !! a) /\ same_money db db' /\
  db' = set_account_ledger_seq (account_ledger_seq db + 1)
    (set_account_ledger (account_ledger db ++
      [mkAccountLedgerRow (account_ledger_seq db + 1) a asset amount ty ts dv (Some note) key]) db).
Proof.
  unfold insert_account_ledger. destruct (has a _ && _) eqn:Hb; [|done].
  intros [= <-]. apply andb_true_iff in Hb as [Ha _]. by rewrite has_true in Ha.
Qed.

Lemma insert_contribution_Ok c r db db' :
  insert_contribution c r db = Ok db' ->
  share_key_contributions db !! c = None /\ 0 <= skc_remaining_credits r /\
  0 < skc_funded_credits r /\ is_Some (share_keys db !! skc_key_id r) /\
  db' = set_share_key_contributions (<[c := r]> (share_key_contributions db)) db.
Proof.
  unfold insert_contribution, has. intros H.
  destruct (share_key_contributions db !! c) eqn:Hc; [done|]. simpl in H.
  destruct ((0 <? _) && _) eqn:Hb; [|done].
  apply andb_true_iff in Hb as [Hb1%Z.ltb_lt Hb2%Z.leb_le].
  destruct (share_keys db !! _) eqn:Hk; [|done]. destruct (devices db !! _); [|done].
  injection H as <-. repeat split_and!; [done | lia | lia | by eauto | done].
Qed.

Lemma supply_insert_contribution c r db db' :
  insert_contribution c r db = Ok db' -> supply db' = supply db + skc_remaining_credits r.
Proof.
  intros (Hc & _ & _ & _ & ->)%insert_contribution_Ok.
  unfold supply, pool_credits. simpl. rewrite map_sum_insert_new by done.
  unfold device_credits, account_credits, provider_credits. simpl. lia.
Qed.

Lemma solvent_insert_contribution c r db db' :
  insert_contribution c r db = Ok db' -> solvent db -> solvent db'.
Proof.
  intros (Hc & Hr & _ & _ & ->)%insert_contribution_Ok []. split; simpl; auto.
  by apply map_Forall_insert_2.
Qed.

Lemma ensure_provider_wallet_Ok now p db db' :
  ensure_provider_wallet now p db = Ok db' ->
  is_Some (provider_wallets db' !! p) /\ supply db' = supply db /\ (solvent db -> solvent db') /\
  balances db' = balances db /\ account_wallets db' = account_wallets db /\
  forall q, provider_balance_of q db' = provider_balance_of q db.
Proof.
  unfold ensure_provider_wallet, provider_balance_of.
  destruct (provider_wallets db !! p) as [r|] eqn:Hp; [intros [= <-]; rewrite Hp; by eauto|].
  destruct (has _ _); [|done]. intros [= <-]. simpl. rewrite lookup_insert_eq.
  split_and!; eauto.
  - unfold supply, provider_credits. simpl. rewrite map_sum_insert_new by done.
    simpl. unfold device_credits, account_credits, pool_credits. simpl. lia.
  - intros []. split; simpl; auto. apply map_Forall_insert_2; simpl; [lia|done].
  - intros q. destruct (decide (p = q)) as [<-|Hne]; [by rewrite lookup_insert_eq, Hp|].
    by rewrite lookup_insert_ne.
Qed.

Lemma provider_balance_update f x p q db :
  (forall r, pw_balance_credits (f r) = pw_balance_credits r + x) ->
  is_Some (provider_wallets db !! p) ->
  provider_balance_of q (update_provider f p db) =
  provider_balance_of q db + (if decide (p = q) then x else 0).
Proof.
  intros Hf [r Hr]. unfold provider_balance_of, update_provider. simpl.
  destruct (decide (p = q)) as [<-|Hne].
  - rewrite lookup_alter_eq, Hr. simpl. apply Hf.
  - rewrite lookup_alter_ne by done. lia.
Qed.

Lemma insert_provider_ledger_Ok p ty amount ts ref model note db db' :
  insert_provider_ledger p ty amount ts ref model note db = Ok db' -> same_money db db'.
Proof. unfold insert_provider_ledger. destruct (has _ _); [|done]. by intros [= <-]. Qed.

Lemma insert_share_key_Ok k r db db' :
  insert_share_key k r db = Ok db' ->
  share_keys db !! k = None /\ 0 < sk_budget_credits r /\ same_money db db' /\
  db' = set_share_keys (<[k := r]> (share_keys db)) db.
Proof.
  unfold insert_share_key, has. intros H. destruct (share_keys db !! k); [done|]. cbn [negb] in H.
  destruct (unique_for _ _ _ _); [|done]. destruct (unique_for _ _ _ _); [|done].
  destruct (Z.ltb_spec 0 (sk_budget_credits r)); [|done].
  destruct (devices db !! _); [|done]. by injection H as <-.
Qed.

(** The token of a new key is not another key's token. *)
Lemma insert_share_key_fresh k r db db' :
  insert_share_key k r db = Ok db' ->
  forall j s, share_keys db !! j = Some s -> sk_token s <> sk_token r.
Proof.
  unfold insert_share_key, unique_for. intros H j s Hs. destruct (has k (share_keys db)) eqn:Hk; [done|].
  cbn [negb] in H. destruct (bool_decide _) eqn:Hu in H; [|done].
  apply bool_decide_eq_true in Hu. destruct (Hu j s Hs) as [->|Hne]; [|congruence].
  unfold has in Hk. by rewrite Hs in Hk.
Qed.

Lemma update_share_key_checked_Ok f k db db' :
  update_share_key_checked f k db = Ok db' ->
  same_money db db' /\ db' = update_share_key f k db.
Proof.
  unfold update_share_key_checked. destruct (share_keys db !! k) as [r|] eqn:Hk.
  - destruct (_ <? _); [|done]. destruct (unique_for _ _ _ _); [|done]. by intros [= <-].
  - intros [= <-]. split; [done|]. unfold update_share_key.
    rewrite alter_id; [by destruct db|]. intros. congruence.
Qed.

(** Statements that leave the four money tables alone. *)
Lemma supply_insert_ledger d ty amount ts ref note db :
  supply (insert_ledger d ty amount ts ref note db) = supply db.
Proof. done. Qed.
Lemma supply_debit_mint_pool x db : supply (debit_mint_pool_clamped x db) = supply db.
Proof. done. Qed.
Lemma supply_ensure_device now d db : supply (ensure_device now d db) = supply db.
Proof. done. Qed.
Lemma supply_update_share_key f k db : supply (update_share_key f k db) = supply db.
Proof. done. Qed.
Lemma supply_api_key_use x now k db : supply (api_key_use x now k db) = supply db.
Proof. done. Qed.

Lemma solvent_insert_ledger d ty amount ts ref note db :
  solvent db -> solvent (insert_ledger d ty amount ts ref note db).
Proof. by intros []. Qed.
Lemma solvent_debit_mint_pool x db : solvent db -> solvent (debit_mint_pool_clamped x db).
Proof. by intros []. Qed.
Lemma solvent_ensure_device now d db : solvent db -> solvent (ensure_device now d db).
Proof. by intros []. Qed.
Lemma solvent_update_share_key f k db : solvent db -> solvent (update_share_key f k db).
Proof. by intros []. Qed.
Lemma solvent_api_key_use x now k db : solvent db -> solvent (api_key_use x now k db).
Proof. by intros []. Qed.

(** A credit of [x >= 0] keeps a database solvent. *)
Lemma solvent_earn x d db : 0 <= x -> solvent db -> solvent (update_balance (bal_earn x) d db).
Proof. intros Hx. apply solvent_update_balance. simpl. lia. Qed.
Lemma solvent_add x d db : 0 <= x -> solvent db -> solvent (update_balance (bal_add x) d db).
Proof. intros Hx. apply solvent_update_balance. simpl. lia. Qed.
Lemma solvent_count_spent x d db :
  solvent db -> solvent (update_balance (bal_count_spent x) d db).
Proof. apply solvent_update_balance. simpl. lia. Qed.
Lemma solvent_aw_post x u dep wd now a db :
  0 <= x -> solvent db -> solvent (update_account (aw_post x u dep wd now) a db).
Proof. intros Hx. apply solvent_update_account. simpl. lia. Qed.

(** A debit that the wallet covers. *)
Lemma solvent_spend x d db :
  x <= balance_of d db -> solvent db -> solvent (update_balance (bal_spend x) d db).
Proof.
  intros Hx. apply solvent_update_balance. intros r Hr _.
  rewrite (balance_of_row _ _ _ Hr) in Hx. simpl. lia.
Qed.
Lemma solvent_sub x d db :
  x <= balance_of d db -> solvent db -> solvent (update_balance (bal_add (- x)) d db).
Proof.
  intros Hx. apply solvent_update_balance. intros r Hr _.
  rewrite (balance_of_row _ _ _ Hr) in Hx. simpl. lia.
Qed.
Lemma solvent_aw_debit x u dep wd now a db :
  x <= account_balance_of a db -> solvent db ->
  solvent (update_account (aw_post (- x) u dep wd now) a db).
Proof.
  intros Hx. apply solvent_update_account. intros r Hr _.
  unfold account_balance_of in Hx. rewrite Hr in Hx. simpl in *. lia.
Qed.

(** Row existence after the statements that can create or update a row. *)
Lemma ensure_balance_row d db : is_Some (balances (ensure_balance d db) !! d).
Proof. apply insert_or_ignore_is_Some. Qed.
Lemma ensure_balance_row_mono d d' db :
  is_Some (balances db !! d') -> is_Some (balances (ensure_balance d db) !! d').
Proof. apply insert_or_ignore_mono. Qed.
Lemma update_balance_row f d d' db :
  is_Some (balances db !! d') -> is_Some (balances (update_balance f d db) !! d').
Proof. simpl. by rewrite alter_is_Some. Qed.
Lemma update_account_row f a a' db :
  is_Some (account_wallets db !! a') -> is_Some (account_wallets (update_account f a db) !! a').
Proof. simpl. by rewrite alter_is_Some. Qed.

(** What an update of one wallet does to every wallet's balance. *)
Lemma balance_of_update f x d d' db :
  (forall r, bal_balance (f r) = bal_balance r + x) -> is_Some (balances db !! d) ->
  balance_of d' (update_balance f d db) = balance_of d' db + (if decide (d = d') then x else 0).
Proof.
  intros Hf [r Hr]. unfold balance_of. simpl. destruct (decide (d = d')) as [<-|Hne].
  - rewrite lookup_alter_eq, Hr. simpl. auto.
  - rewrite lookup_alter_ne by done. lia.
Qed.

Lemma balance_of_update_add x d d' db :
  is_Some (balances db !! d) ->
  balance_of d' (update_balance (bal_add x) d db) =
  balance_of d' db + (if decide (d = d') then x else 0).
Proof. by apply balance_of_update. Qed.

Lemma account_balance_of_update f x a a' db :
  (forall r, aw_balance_credits (f r) = aw_balance_credits r + x) ->
  is_Some (account_wallets db !! a) ->
  account_balance_of a' (update_account f a db) =
  account_balance_of a' db + (if decide (a = a') then x else 0).
Proof.
  intros Hf [r Hr]. unfold account_balance_of. simpl. destruct (decide (a = a')) as [<-|Hne].
  - rewrite lookup_alter_eq, Hr. simpl. auto.
  - rewrite lookup_alter_ne by done. lia.
Qed.

(** No single wallet holds more than the whole supply. *)
Lemma balance_le_supply d db : solvent db -> 0 <= balance_of d db <= supply db.
Proof.
  intros Hs. pose proof Hs as [H1 H2 H3 H4]. unfold supply, device_credits, account_credits,
    provider_credits, pool_credits, balance_of.
  pose proof (map_sum_nonneg _ _ H1). pose proof (map_sum_nonneg _ _ H2).
  pose proof (map_sum_nonneg _ _ H3). pose proof (map_sum_nonneg _ _ H4).
  destruct (balances db !! d) as [r|] eqn:Hr; simpl; [|lia].
  pose proof (map_sum_elem_le _ _ _ _ H1 Hr). apply H1 in Hr. simpl in *. lia.
Qed.

Lemma account_balance_le_supply a db : solvent db -> 0 <= account_balance_of a db <= supply db.
Proof.
  intros Hs. pose proof Hs as [H1 H2 H3 H4]. unfold supply, device_credits, account_credits,
    provider_credits, pool_credits, account_balance_of.
  pose proof (map_sum_nonneg _ _ H1). pose proof (map_sum_nonneg _ _ H2).
  pose proof (map_sum_nonneg _ _ H3). pose proof (map_sum_nonneg _ _ H4).
  destruct (account_wallets db !! a) as [r|] eqn:Hr; simpl; [|lia].
  pose proof (map_sum_elem_le _ _ _ _ H2 Hr). apply H2 in Hr. simpl in *. lia.
Qed.

Create Rewrite HintDb supply.
#[export] Hint Rewrite supply_ensure_balance supply_insert_ledger supply_debit_mint_pool
  supply_ensure_device supply_update_share_key supply_api_key_use : supply.
#[export] Hint Resolve ensure_balance_row ensure_balance_row_mono update_balance_row
  update_account_row same_money_refl : ledger.
#[export] Hint Resolve solvent_ensure_balance solvent_insert_ledger solvent_debit_mint_pool
  solvent_ensure_device solvent_update_share_key solvent_api_key_use solvent_earn solvent_add
  solvent_count_spent solvent_aw_post : ledger.
#[export] Hint Extern 5 (_ <= _) => lia : ledger.
