(* ===== verification/RustStr.v ===== *)
(** * Rust strings

    The [str] methods the gateway uses, on strings as UTF-8 byte sequences
    ([String.string], one [ascii] per byte).  [trim] removes the characters
    with the Unicode [White_Space] property; the case conversions act on the
    ASCII letters and leave every other byte alone, which is what
    [to_ascii_uppercase] does and what [to_lowercase] does on ASCII text. *)

From S2P Require Import Prelude.
From Stdlib Require Ascii String.

Open Scope string_scope.
Open Scope Z_scope.

Definition code (c : Ascii.ascii) : nat := Ascii.nat_of_ascii c.
Definition bytes (s : string) : list Ascii.ascii := String.list_ascii_of_string s.
Definition of_bytes (l : list Ascii.ascii) : string := String.string_of_list_ascii l.

(** ** Trimming *)

(** UTF-8 encodings of the [White_Space] characters: U+0009..U+000D, U+0020,
    U+0085, U+00A0, U+1680, U+2000..U+200A, U+2028, U+2029, U+202F, U+205F and
    U+3000. *)
Definition white_space : list (list Ascii.ascii) :=
  (map Ascii.ascii_of_nat <$>
    [[9]; [10]; [11]; [12]; [13]; [32]; [194; 133]; [194; 160]; [225; 154; 128];
     [226; 128; 128]; [226; 128; 129]; [226; 128; 130]; [226; 128; 131]; [226; 128; 132];
     [226; 128; 133]; [226; 128; 134]; [226; 128; 135]; [226; 128; 136]; [226; 128; 137];
     [226; 128; 138]; [226; 128; 168]; [226; 128; 169]; [226; 128; 175]; [226; 129; 159];
     [227; 128; 128]])%nat.

Fixpoint drop_prefix (p l : list Ascii.ascii) : option (list Ascii.ascii) :=
  match p, l with
  | [], _ => Some l
  | a :: p, b :: l => if Ascii.eqb a b then drop_prefix p l else None
  | _ :: _, [] => None
  end.

Fixpoint drop_any (ps : list (list Ascii.ascii)) (l : list Ascii.ascii) : option (list Ascii.ascii) :=
  match ps with
  | [] => None
  | p :: ps => match drop_prefix p l with Some l' => Some l' | None => drop_any ps l end
  end.

(** Strips leading members of [ps]; one byte at least goes each round, so the
    length of the text is enough fuel. *)
Fixpoint strip_all (fuel : nat) (ps : list (list Ascii.ascii)) (l : list Ascii.ascii) : list Ascii.ascii :=
  match fuel with
  | O => l
  | S fuel => match drop_any ps l with Some l' => strip_all fuel ps l' | None => l end
  end.

Definition trim_start_bytes (l : list Ascii.ascii) : list Ascii.ascii := strip_all (length l) white_space l.
Definition trim_end_bytes (l : list Ascii.ascii) : list Ascii.ascii :=
  rev (strip_all (length l) (@rev Ascii.ascii <$> white_space) (rev l)).
Definition trim (s : string) : string := of_bytes (trim_end_bytes (trim_start_bytes (bytes s))).

Definition is_empty (s : string) : bool := bool_decide (s = "").

(** ** Characters *)

Definition in_range (lo hi : nat) (c : Ascii.ascii) : bool :=
  (Nat.leb lo (code c) && Nat.leb (code c) hi)%bool.
Definition is_ascii_digit (c : Ascii.ascii) : bool := in_range 48 57 c.
Definition is_ascii_hexdigit (c : Ascii.ascii) : bool :=
  is_ascii_digit c || in_range 65 70 c || in_range 97 102 c.
Definition lower (c : Ascii.ascii) : Ascii.ascii :=
  if in_range 65 90 c then Ascii.ascii_of_nat (code c + 32)%nat else c.
Definition upper (c : Ascii.ascii) : Ascii.ascii :=
  if in_range 97 122 c then Ascii.ascii_of_nat (code c - 32)%nat else c.

Definition map_str (f : Ascii.ascii -> Ascii.ascii) (s : string) : string := of_bytes (f <$> bytes s).
Definition to_lowercase : string -> string := map_str lower.

(** [str::is_ascii]: the texts on which [to_lowercase] is [str::to_lowercase]. *)
Definition is_ascii (s : string) : bool := forallb (in_range 0 127) (bytes s).
Definition to_ascii_uppercase : string -> string := map_str upper.
Definition filter_str (p : Ascii.ascii -> bool) (s : string) : string :=
  of_bytes (List.filter p (bytes s)).
Definition contains (c : Ascii.ascii) (s : string) : bool := existsb (Ascii.eqb c) (bytes s).
Definition any_char (p : Ascii.ascii -> bool) (s : string) : bool := existsb p (bytes s).
Definition strip_prefix (p s : string) : option string := of_bytes <$> drop_prefix (bytes p) (bytes s).
Definition starts_with (p s : string) : bool :=
  match strip_prefix p s with Some _ => true | None => false end.
Fixpoint trim_start_matches_bytes (c : Ascii.ascii) (l : list Ascii.ascii) : list Ascii.ascii :=
  match l with
  | b :: l' => if Ascii.eqb c b then trim_start_matches_bytes c l' else l
  | [] => []
  end.
Definition trim_start_matches (c : Ascii.ascii) (s : string) : string :=
  of_bytes (trim_start_matches_bytes c (bytes s)).

(** [str::is_char_boundary]: index 0, the length, or a byte that does not
    continue a character. *)
Definition is_char_boundary (i : nat) (l : list Ascii.ascii) : bool :=
  Nat.eqb i 0 || Nat.eqb i (length l) ||
  match l !! i with Some c => negb (in_range 128 191 c) | None => false end.

(** [&s[..i]] and [&s[i..]]: [None] is the panic at a position that is not a
    character boundary. *)
Definition split_at (i : nat) (s : string) : option (string * string) :=
  if is_char_boundary i (bytes s)
  then Some (of_bytes (take i (bytes s)), of_bytes (drop i (bytes s))) else None.

(** [format!("{}", n)]. *)
Definition show_z (n : Z) : string := pretty n.

(** [normalized_optional_string] of [ledger.rs]. *)
Definition normalized_optional_string (value : option string) : option string :=
  match value with
  | None => None
  | Some raw => let trimmed := trim raw in
                if is_empty trimmed then None else Some trimmed
  end.

(** ** Lemmas *)

Lemma bytes_of_bytes l : bytes (of_bytes l) = l.
Proof. apply String.list_ascii_of_string_of_list_ascii. Qed.

Lemma of_bytes_bytes s : of_bytes (bytes s) = s.
Proof. apply String.string_of_list_ascii_of_string. Qed.

Lemma drop_prefix_length p l l' :
  drop_prefix p l = Some l' -> (length l' = length l - length p)%nat /\ (length p <= length l)%nat.
Proof.
  revert l. induction p as [|a p IH]; intros [|b l] H; simplify_eq/=; [lia | lia|].
  destruct (Ascii.eqb a b); [|done]. apply IH in H. lia.
Qed.

Lemma drop_any_length ps l l' :
  Forall (fun p => 0 < length p)%nat ps -> drop_any ps l = Some l' -> (length l' < length l)%nat.
Proof.
  induction 1 as [|p ps Hp _ IH]; [done|]. simpl. destruct (drop_prefix p l) eqn:E; [|done].
  intros [= <-]. apply drop_prefix_length in E. lia.
Qed.

Lemma strip_all_done fuel ps l :
  Forall (fun p => 0 < length p)%nat ps -> (length l <= fuel)%nat ->
  drop_any ps (strip_all fuel ps l) = None.
Proof.
  intros Hps. revert l. induction fuel as [|fuel IH]; intros l Hl; simpl.
  - destruct (drop_any ps l) eqn:E; [|done]. apply drop_any_length in E; [lia|done].
  - destruct (drop_any ps l) as [l'|] eqn:E; [|done]. apply IH.
    apply drop_any_length in E; [lia|done].
Qed.

Lemma strip_all_fix fuel ps l : drop_any ps l = None -> strip_all fuel ps l = l.
Proof. destruct fuel; simpl; [done|]. by intros ->. Qed.

Lemma white_space_nonempty : Forall (fun p => 0 < length p)%nat white_space.
Proof. unfold white_space. repeat constructor; simpl; lia. Qed.

Lemma white_space_rev_nonempty : Forall (fun p => 0 < length p)%nat (@rev Ascii.ascii <$> white_space).
Proof.
  pose proof white_space_nonempty as Hw. rewrite Forall_forall in Hw.
  apply Forall_fmap, Forall_forall. intros p Hp. simpl. rewrite length_rev. by apply Hw.
Qed.

(** Facts about all 256 bytes, by computation. *)
Ltac by_bytes := let c := fresh "c" in intros c; destruct c as [[] [] [] [] [] [] [] []]; vm_compute; reflexivity.

Lemma upper_lower c : upper (lower c) = upper c. Proof. revert c. by_bytes. Qed.
Lemma upper_upper c : upper (upper c) = upper c. Proof. revert c. by_bytes. Qed.
Lemma lower_lower c : lower (lower c) = lower c. Proof. revert c. by_bytes. Qed.
Lemma lower_upper c : lower (upper c) = lower c. Proof. revert c. by_bytes. Qed.
Lemma hexdigit_lower c : is_ascii_hexdigit (lower c) = is_ascii_hexdigit c.
Proof. revert c. by_bytes. Qed.
Lemma hexdigit_upper c : is_ascii_hexdigit (upper c) = is_ascii_hexdigit c.
Proof. revert c. by_bytes. Qed.
Lemma continuation_lower c : in_range 128 191 (lower c) = in_range 128 191 c.
Proof. revert c. by_bytes. Qed.

(** A byte map that leaves the bytes of the [White_Space] encodings alone, in
    both directions: the two case conversions are. *)
Definition keeps_space (f : Ascii.ascii -> Ascii.ascii) : bool :=
  forallb (fun w => forallb (fun n => Bool.eqb (Ascii.eqb w (f (Ascii.ascii_of_nat n)))
                                       (Ascii.eqb w (Ascii.ascii_of_nat n))) (seq 0 256))
    (concat white_space).

Lemma keeps_space_spec f w c :
  keeps_space f = true -> In w (concat white_space) -> Ascii.eqb w (f c) = Ascii.eqb w c.
Proof.
  intros H Hw. unfold keeps_space in H. rewrite forallb_forall in H. specialize (H w Hw).
  rewrite forallb_forall in H. specialize (H (code c)).
  unfold code in H. rewrite Ascii.ascii_nat_embedding in H. apply Bool.eqb_prop, H.
  apply in_seq. pose proof (Ascii.nat_ascii_bounded c). lia.
Qed.

Lemma rev_fmap {A B} (f : A -> B) (l : list A) : rev (f <$> l) = f <$> rev l.
Proof. symmetry. apply map_rev. Qed.

Section Mapped.
Context (f : Ascii.ascii -> Ascii.ascii) (Hf : keeps_space f = true).

Lemma drop_prefix_fmap p l :
  (forall w, In w p -> In w (concat white_space)) ->
  drop_prefix p (f <$> l) = fmap (M := list) f <$> drop_prefix p l.
Proof.
  revert l. induction p as [|a p IH]; intros [|b l] Hp; try done. simpl.
  rewrite (keeps_space_spec f a b Hf) by (apply Hp; by left).
  destruct (Ascii.eqb a b); [|done]. apply IH. intros w Hw. apply Hp. by right.
Qed.

Lemma drop_any_fmap ps l :
  (forall p w, In p ps -> In w p -> In w (concat white_space)) ->
  drop_any ps (f <$> l) = fmap (M := list) f <$> drop_any ps l.
Proof.
  induction ps as [|p ps IH]; intros Hps; [done|]. cbn [drop_any].
  rewrite drop_prefix_fmap by (intros w; apply (Hps p w); by left).
  destruct (drop_prefix p l); [done|]. apply IH. intros q w Hq. apply Hps. by right.
Qed.

Lemma strip_all_fmap fuel ps l :
  (forall p w, In p ps -> In w p -> In w (concat white_space)) ->
  strip_all fuel ps (f <$> l) = f <$> strip_all fuel ps l.
Proof.
  intros Hps. revert l. induction fuel as [|fuel IH]; intros l; [done|]. cbn [strip_all].
  rewrite drop_any_fmap by done. destruct (drop_any ps l); [apply IH | done].
Qed.

Lemma trim_map_str s : trim (map_str f s) = map_str f (trim s).
Proof.
  unfold trim, map_str, trim_end_bytes, trim_start_bytes. rewrite !bytes_of_bytes. f_equal.
  assert (forall p w, In p white_space -> In w p -> In w (concat white_space)) as Hw.
  { intros p w Hp Hin. apply in_concat. eauto. }
  rewrite length_fmap, strip_all_fmap by done. rewrite length_fmap, rev_fmap, strip_all_fmap; [by rewrite rev_fmap|].
  intros p w Hp Hin. apply in_map_iff in Hp as (q & <- & Hq). apply (Hw q); [done|]. by apply in_rev.
Qed.
End Mapped.

Lemma trim_to_lowercase s : trim (to_lowercase s) = to_lowercase (trim s).
Proof. apply trim_map_str. by vm_compute. Qed.
Lemma trim_to_ascii_uppercase s : trim (to_ascii_uppercase s) = to_ascii_uppercase (trim s).
Proof. apply trim_map_str. by vm_compute. Qed.

(** Trimming twice is trimming once. *)
Open Scope list_scope.
Lemma drop_prefix_app p l k l' :
  drop_prefix p l = Some l' -> drop_prefix p (l ++ k) = Some (l' ++ k).
Proof.
  revert l. induction p as [|a p IH]; intros [|b l] H; simplify_eq/=; try done.
  destruct (Ascii.eqb a b); [|done]. by apply IH.
Qed.

Lemma drop_any_app ps l k : drop_any ps (l ++ k) = None -> drop_any ps l = None.
Proof.
  induction ps as [|p ps IH]; [done|]. simpl. destruct (drop_prefix p l) as [l'|] eqn:E.
  - by rewrite (drop_prefix_app _ _ k _ E).
  - destruct (drop_prefix p (l ++ k)); [done|]. apply IH.
Qed.

Lemma drop_prefix_suffix p l l' : drop_prefix p l = Some l' -> l = p ++ l'.
Proof.
  revert l. induction p as [|a p IH]; intros [|b l] H; simplify_eq/=; try done.
  destruct (Ascii.eqb_spec a b); [|done]. subst. f_equal. by apply IH.
Qed.

Lemma strip_all_suffix fuel ps l : exists k, l = k ++ strip_all fuel ps l.
Proof.
  revert l. induction fuel as [|fuel IH]; intros l; [by exists []|]. simpl.
  destruct (drop_any ps l) as [l'|] eqn:E; [|by exists []].
  assert (exists p, l = p ++ l') as [p ->].
  { clear IH. induction ps as [|p ps IH]; [done|]. simpl in E.
    destruct (drop_prefix p l) eqn:Ep; [|auto]. injection E as ->.
    exists p. by apply drop_prefix_suffix. }
  destruct (IH l') as [k Hk]. exists (p ++ k). by rewrite <-(assoc_L (++)), <-Hk.
Qed.

Lemma trim_idempotent s : trim (trim s) = trim s.
Proof.
  unfold trim. rewrite bytes_of_bytes. f_equal.
  set (l := trim_start_bytes (bytes s)). set (e := trim_end_bytes l).
  assert (drop_any white_space l = None) as Hl
    by (apply strip_all_done; [apply white_space_nonempty | done]).
  assert (drop_any (@rev Ascii.ascii <$> white_space) (rev e) = None) as He.
  { unfold e, trim_end_bytes. rewrite rev_involutive.
    apply strip_all_done; [apply white_space_rev_nonempty|]. by rewrite length_rev. }
  assert (exists k, l = e ++ k) as [k Hk].
  { destruct (strip_all_suffix (length l) (@rev Ascii.ascii <$> white_space) (rev l)) as [k Hk].
    exists (rev k). unfold e, trim_end_bytes. rewrite <-rev_app_distr, <-Hk. by rewrite rev_involutive. }
  assert (drop_any white_space e = None) as Hse by (apply (drop_any_app _ _ k); by rewrite <-Hk).
  unfold trim_start_bytes. rewrite (strip_all_fix _ _ e Hse).
  unfold trim_end_bytes. rewrite strip_all_fix by done. apply rev_involutive.
Qed.
