(* ===== verification/Wallet.v ===== *)
(** * Device wallets

    [gateway/src/ledger.rs]: the ledger's constants and principals, device
    registration, the challenge/token login of a device, the bonuses and
    operator mints that put credits into circulation, [reset_genesis], and the
    read-only views of a device wallet.  Every function takes the clock
    ([unix_now]) as an argument; a function that opens a transaction returns
    the committed database, or an error, in which case the transaction is
    dropped and the database is unchanged. *)

From S2P Require Import Prelude Db RustStr.
From stdpp Require Import sorting.

Open Scope string_scope.
Open Scope Z_scope.

(** ** Constants *)

Definition WELCOME_BONUS_CREDITS : Z := 100000.
Definition CHALLENGE_TTL_SECONDS : Z := 300.
Definition TOKEN_TTL_SECONDS : Z := 86400.
Definition CREDITS_PER_USDC : Z := 1000000.
Definition CREDITS_PER_USDC_CENT : Z := i64_div CREDITS_PER_USDC 100.
Definition REFERRAL_BONUS_CREDITS : Z := 1000000.

Definition OPS : string := "__ops__".

(** [LedgerType] and the text it is stored as. *)
Inductive LedgerType : Type :=
| Bonus | DirectEarn | AvailabilityEarn | AvailabilityDrip | AvailabilitySession
| Spent | OpsFee | ShareKeyFund | ShareKeyRefund | AdminMint | ProviderEarn | ProviderPayout.

Definition as_str (t : LedgerType) : string :=
  match t with
  | Bonus => "BONUS"
  | DirectEarn => "DIRECT_EARN"
  | AvailabilityEarn => "AVAILABILITY_EARN"
  | AvailabilityDrip => "AVAILABILITY_DRIP"
  | AvailabilitySession => "AVAILABILITY_SESSION"
  | Spent => "SPENT"
  | OpsFee => "OPS_FEE"
  | ShareKeyFund => "SHARE_KEY_FUND"
  | ShareKeyRefund => "SHARE_KEY_REFUND"
  | AdminMint => "ADMIN_MINT"
  | ProviderEarn => "PROVIDER_EARN"
  | ProviderPayout => "PROVIDER_PAYOUT"
  end.

#[export] Instance LedgerType_eq_dec : EqDecision LedgerType.
Proof. solve_decision. Defined.

(** [ConsumerPrincipal]: who pays. *)
Inductive ConsumerPrincipal : Type :=
| Device (device_id : string)
| Share (issuer_device_id key_id : string)
| Account (account_user_id : string) (api_key_id : option string).

Definition ledger_actor_id (c : ConsumerPrincipal) : string :=
  match c with Device d => d | Share i _ => i | Account a _ => a end.
Definition paying_device_id (c : ConsumerPrincipal) : option string :=
  match c with Device d => Some d | Share i _ => Some i | Account _ _ => None end.
Definition debug_label (c : ConsumerPrincipal) : string :=
  match c with
  | Device d => "device:" +:+ d
  | Share i k => "share:" +:+ k +:+ "@" +:+ i
  | Account a (Some k) => "account:" +:+ a +:+ " via key:" +:+ k
  | Account a None => "account:" +:+ a
  end.

(** ** Registration and login *)

(** [upsert_device]: true for a device seen for the first time. *)
Definition upsert_device (now : Z) (device_id : string) (db : Db) : bool * Db :=
  match devices db !! device_id with
  | None =>
      (true, ensure_balance device_id
               (set_devices (<[device_id := mkDeviceRow None now now]> (devices db)) db))
  | Some _ =>
      (false, set_devices
                (alter (fun r => mkDeviceRow (dev_username r) (dev_first_seen r) now)
                   device_id (devices db)) db)
  end.

Definition set_username (device_id username : string) (db : Db) : Db :=
  set_devices (alter (fun r => mkDeviceRow (Some username) (dev_first_seen r) (dev_last_seen r))
    device_id (devices db)) db.

(** [INSERT OR REPLACE INTO challenges]. *)
Definition create_challenge (now : Z) (device_id nonce : string) (db : Db) : Z * Db :=
  let expires := i64_add now CHALLENGE_TTL_SECONDS in
  (expires, set_challenges (<[(device_id, nonce) := expires]> (challenges db)) db).

Definition consume_challenge (now : Z) (device_id nonce : string) (db : Db) : bool * Db :=
  let expires := challenges db !! (device_id, nonce) in
  let ok := match expires with Some t => now <? t | None => false end in
  (ok, if ok then set_challenges (delete (device_id, nonce) (challenges db)) db else db).

Definition issue_token (now : Z) (device_id token : string) (db : Db)
    : result anyhow (Z * Db) :=
  let expires := i64_add now TOKEN_TTL_SECONDS in
  guard? negb (has token (tokens db)) else (Sql UniqueViolation) in
  guard? has device_id (devices db) else (Sql ForeignKeyViolation) in
  Ok (expires, set_tokens (<[token := mkTokenRow device_id expires]> (tokens db)) db).

Definition resolve_token (now : Z) (token : string) (db : Db) : option string :=
  match tokens db !! token with
  | Some r => if now <? tok_expires_at r then Some (tok_device_id r) else None
  | None => None
  end.

(** ** Credits entering circulation *)

Definition record_bonus (now : Z) (device_id : string) (amount : Z) (db : Db)
    : result anyhow (Z * Db) :=
  let db := debit_mint_pool_clamped amount db in
  let db := insert_ledger device_id "BONUS" amount now None "Welcome to Teale" db in
  let db := update_balance (bal_earn amount) device_id db in
  let? r := map_err Sql (query_row (balances db !! device_id)) in
  Ok (bal_balance r, db).

Definition credit_device_wallet_tx (device_id : string) (amount_credits : Z)
    (ledger_type note : string) (now : Z) (db : Db) : Db :=
  let db := ensure_device now device_id db in
  let db := ensure_balance device_id db in
  let db := debit_mint_pool_clamped amount_credits db in
  let db := insert_ledger device_id ledger_type amount_credits now None note db in
  update_balance (bal_earn amount_credits) device_id db.

Definition credit_account_wallet_tx (account_user_id : string) (amount_credits : Z)
    (ledger_type : string) (device_id : option string) (note : string) (now : Z) (db : Db)
    : result anyhow Db :=
  let db := debit_mint_pool_clamped amount_credits db in
  let db := update_account (aw_post amount_credits 0 0 0 now) account_user_id db in
  map_err Sql (insert_account_ledger account_user_id "credits" amount_credits ledger_type now
                 device_id note None db).

Definition record_account_bonus (now : Z) (account_user_id : string) (amount_credits : Z)
    (device_id : option string) (note : string) (db : Db) : result anyhow (Z * Db) :=
  let? db := credit_account_wallet_tx account_user_id amount_credits "BONUS" device_id note now db in
  let? r := map_err Sql (query_row (account_wallets db !! account_user_id)) in
  Ok (aw_balance_credits r, db).

Definition admin_mint (now : Z) (device_id : string) (amount : Z) (note : string) (db : Db)
    : result anyhow (Z * Db) :=
  guard? negb (amount <=? 0) else (Bail "amount must be > 0") in
  let db := ensure_device now device_id db in
  let db := ensure_balance device_id db in
  let db := debit_mint_pool_clamped amount db in
  let db := insert_ledger device_id (as_str AdminMint) amount now None note db in
  let db := update_balance (bal_earn amount) device_id db in
  let? r := map_err Sql (query_row (balances db !! device_id)) in
  Ok (bal_balance r, db).

(** ** Genesis reset *)

Record GenesisResetReport : Type := mkGenesisResetReport {
  devices_cleared : nat;
  account_wallets_cleared : nat;
  device_ledger_rows_cleared : nat;
  account_ledger_rows_cleared : nat;
  share_keys_cleared : nat;
  withdrawals_cleared : nat;
  deposits_cleared : nat;
  referral_codes_cleared : nat;
  referral_claims_cleared : nat;
  mint_pool_reset_to : Z
}.

(** The deletes run children first, so no foreign key stops them except the
    one from [pins] to its owner's wallet, which does not cascade; deleting
    the wallets cascades to [api_keys]. *)
Definition reset_genesis (db : Db) : result anyhow (GenesisResetReport * Db) :=
  let report := mkGenesisResetReport (size (devices db)) (size (account_wallets db))
    (length (ledger db)) (length (account_ledger db)) (size (share_keys db))
    (size (account_withdrawals db)) (size (account_onchain_deposits db))
    (size (referral_codes db)) (size (referral_claims db)) INITIAL_MINT_POOL in
  let db1 := set_tokens ∅ (set_challenges ∅ (set_referral_claims ∅ (set_referral_codes ∅
    (set_account_withdrawals ∅ (set_account_onchain_deposits ∅ (set_account_ledger []
    (set_account_devices ∅ db))))))) in
  guard? bool_decide (map_Forall (fun _ owner => account_wallets db1 !! owner = None)
                        (pin_owners db1)) else (Sql ForeignKeyViolation) in
  let db2 := set_account_wallets ∅ (set_api_keys ∅ db1) in
  let db3 := set_share_key_contributions ∅ (set_share_keys ∅ (set_availability_sessions ∅
    (set_ledger [] (set_balances ∅ (set_devices ∅ db2))))) in
  let db4 := set_mint_pool ((fun _ => mkMintPoolRow INITIAL_MINT_POOL INITIAL_MINT_POOL)
    <$> mint_pool db3) db3 in
  Ok (report, set_ledger_seq 0 (set_account_ledger_seq 0 db4)).

(** ** Views *)

Record BalanceSnapshot : Type := mkBalanceSnapshot {
  snap_device_id : string;
  snap_balance_credits : Z;
  snap_total_earned_credits : Z;
  snap_total_spent_credits : Z;
  snap_usdc_cents : Z
}.

Definition get_balance (device_id : string) (db : Db) : BalanceSnapshot :=
  match balances db !! device_id with
  | Some r => mkBalanceSnapshot device_id (bal_balance r) (bal_total_earned r) (bal_total_spent r) 0
  | None => mkBalanceSnapshot device_id 0 0 0 0
  end.

(** SQL [LIMIT]: a negative bound means no bound. *)
Definition sql_limit {A} (n : Z) (l : list A) : list A :=
  if n <? 0 then l else take (Z.to_nat n) l.

Definition newest_first (a b : LedgerRow) : Prop := led_timestamp b <= led_timestamp a.
#[export] Instance newest_first_dec a b : Decision (newest_first a b).
Proof. unfold newest_first. apply _. Defined.

Definition list_transactions_with_options (device_id : string) (limit : Z)
    (include_availability : bool) (db : Db) : list LedgerRow :=
  sql_limit limit (merge_sort newest_first
    (filter (fun r => led_device_id r = device_id /\
       (include_availability = true \/ led_type r <> "AVAILABILITY_DRIP")) (ledger db))).
Definition list_transactions (device_id : string) (limit : Z) (db : Db) : list LedgerRow :=
  list_transactions_with_options device_id limit true db.
Definition list_transactions_without_availability (device_id : string) (limit : Z) (db : Db)
    : list LedgerRow :=
  list_transactions_with_options device_id limit false db.

Definition mint_pool_snapshot (db : Db) : result anyhow MintPoolRow :=
  map_err Sql (query_row (mint_pool db)).

Record SolvencyLiabilities : Type := mkSolvencyLiabilities {
  sl_device_credits : Z;
  sl_account_credits : Z;
  sl_pending_withdrawal_usdc_cents : Z
}.

(** [SUM(balance) ... WHERE device_id != '__ops__'], and the pending
    withdrawals. *)
Definition solvency_liabilities (db : Db) : SolvencyLiabilities :=
  mkSolvencyLiabilities
    (map_sum bal_balance (filter (fun '(d, _) => d <> OPS) (balances db)))
    (map_sum aw_balance_credits (account_wallets db))
    (map_sum (fun w => if bool_decide (wd_status w = "pending") then wd_amount_usdc_cents w else 0)
       (account_withdrawals db)).

Record NetworkLedgerTotals : Type := mkNetworkLedgerTotals {
  total_credits_earned : Z;
  total_credits_spent : Z;
  total_usdc_distributed_cents : Z
}.

Definition network_ledger_totals (db : Db) : NetworkLedgerTotals :=
  mkNetworkLedgerTotals (map_sum bal_total_earned (balances db))
    (map_sum bal_total_spent (balances db)) (map_sum aw_usdc_cents (account_wallets db)).

(** ** Lemmas *)

Lemma supply_credit_device_wallet d x ty note now db :
  supply (credit_device_wallet_tx d x ty note now db) = supply db + x.
Proof.
  unfold credit_device_wallet_tx.
  rewrite (supply_update_balance _ _ _ x); [by autorewrite with supply | done |].
  apply ensure_balance_row.
Qed.

Lemma solvent_credit_device_wallet d x ty note now db :
  0 <= x -> solvent db -> solvent (credit_device_wallet_tx d x ty note now db).
Proof. unfold credit_device_wallet_tx. auto 10 with ledger. Qed.

Lemma credit_account_wallet_Ok a x ty dv note now db db' :
  credit_account_wallet_tx a x ty dv note now db = Ok db' ->
  is_Some (account_wallets db !! a) /\ supply db' = supply db + x /\
  (0 <= x -> solvent db -> solvent db') /\
  account_balance_of a db' = account_balance_of a db + x.
Proof.
  unfold credit_account_wallet_tx, map_err. intros H.
  destruct (insert_account_ledger _ _ _ _ _ _ _ _ _) as [db1|] eqn:E; [|done].
  injection H as <-. apply insert_account_ledger_Ok in E as (Ha & Hm & Hdb).
  assert (is_Some (account_wallets db !! a)) as [r Hr].
  { revert Ha. simpl. by rewrite alter_is_Some. }
  split; [by eauto|]. split; [|split].
  - rewrite (same_money_supply _ _ Hm).
    rewrite (supply_update_account _ _ _ x); [done | done | by eauto].
  - intros. apply (same_money_solvent _ _ Hm). auto with ledger.
  - subst db1. unfold account_balance_of. simpl. by rewrite lookup_alter_eq, Hr.
Qed.

Lemma record_bonus_Ok now d x db bal db' :
  record_bonus now d x db = Ok (bal, db') ->
  supply db' = supply db + x /\ (0 <= x -> solvent db -> solvent db') /\
  bal = balance_of d db + x /\ balance_of d db' = bal.
Proof.
  unfold record_bonus, query_row, ok_or, map_err. simpl. rewrite lookup_alter_eq.
  destruct (balances db !! d) as [r|] eqn:Hr; [|done]. simpl. intros [= <- <-].
  split; [|split; [auto with ledger|]].
  - by rewrite (supply_update_balance _ _ _ x) by (simpl; eauto).
  - unfold balance_of. simpl. by rewrite lookup_alter_eq, Hr.
Qed.

(** A device without a wallet row gets no bonus: the final [SELECT] fails and
    the transaction is dropped. *)
Lemma record_bonus_no_row now d x db :
  balances db !! d = None -> record_bonus now d x db = Err (Sql QueryReturnedNoRows).
Proof.
  intros Hd. unfold record_bonus, query_row, ok_or, map_err. simpl.
  by rewrite lookup_alter_eq, Hd.
Qed.

Lemma admin_mint_Ok now d x note db bal db' :
  admin_mint now d x note db = Ok (bal, db') ->
  0 < x /\ supply db' = supply db + x /\ (solvent db -> solvent db') /\
  bal = balance_of d db + x /\ balance_of d db' = bal.
Proof.
  unfold admin_mint. destruct (Z.leb_spec x 0) as [|Hx]; [done|]. simpl.
  rewrite lookup_alter_eq, insert_or_ignore_lookup_eq. simpl. intros [= <- <-].
  split; [done|]. split; [|split].
  - rewrite (supply_update_balance _ _ _ x); [by autorewrite with supply | done |].
    apply ensure_balance_row.
  - auto 10 with ledger.
  - unfold balance_of. simpl. rewrite lookup_alter_eq, insert_or_ignore_lookup_eq. simpl.
    destruct (balances db !! d); done.
Qed.

(** The mint pool never goes below zero and never grows. *)
Lemma debit_mint_pool_bounds x db p :
  mint_pool db = Some p -> 0 <= x -> 0 <= mp_remaining p ->
  exists p', mint_pool (debit_mint_pool_clamped x db) = Some p' /\
    0 <= mp_remaining p' <= mp_remaining p /\ mp_total_minted p' = mp_total_minted p /\
    mp_remaining p - mp_remaining p' <= x.
Proof. intros Hp Hx Hr. simpl. rewrite Hp. eexists. split; [done|]. simpl. lia. Qed.

Lemma map_sum_filter_split {V} (f : V -> Z) (d : string) (m : gmap string V) :
  map_sum f (filter (fun '(k, _) => k <> d) m) + default 0 (f <$> m !! d) = map_sum f m.
Proof.
  replace (filter (fun '(k, _) => k <> d) m) with (delete d m).
  - destruct (m !! d) as [v|] eqn:Hd; simpl.
    + rewrite (map_sum_delete _ _ v) by done. lia.
    + rewrite delete_id by done. lia.
  - apply map_eq. intros i. apply option_eq. intros v.
    rewrite lookup_delete_Some, map_lookup_filter_Some. split; intros [? ?]; split; congruence.
Qed.
