(* ===== verification/ShareKeys.v ===== *)
(** * Share keys

    [gateway/src/ledger.rs], "Share keys": temporary bearer tokens with a
    pre-funded pool.  A key's pool is the sum of its contributions
    ([share_key_contributions]); minting and funding move credits from a
    device wallet into the pool, spending reduces the contributions pro rata
    (largest remainder first), and revoking or expiry returns each funder's
    unspent rest.  Identifiers that the code draws from [uuid::Uuid::new_v4]
    are arguments. *)

From S2P Require Import Prelude Db RustStr Wallet.
From stdpp Require Import sorting.
From Stdlib Require String.

Open Scope string_scope.
Open Scope Z_scope.

Definition SHARE_KEY_MIN_EXPIRES_IN : Z := 60.
Definition SHARE_KEY_MAX_EXPIRES_IN : Z := 30 * 86400.
Definition SHARE_KEY_MIN_BUDGET : Z := 1.
Definition SHARE_KEY_MAX_BUDGET : Z := 50000000.
Definition SHARE_KEY_MAX_ACTIVE_PER_ISSUER : Z := 50.
Definition SHARE_KEY_MAX_LABEL_LEN : Z := 64.

(** ** Contributions *)

Definition insert_share_key_contribution_tx (contribution_id key_id funder_device_id : string)
    (funded_credits remaining_credits created_at : Z) (refunded_at : option Z)
    (refund_reason : option string) (db : Db) : result anyhow Db :=
  map_err Sql (insert_contribution contribution_id
    (mkContributionRow key_id funder_device_id funded_credits (Z.max remaining_credits 0)
       created_at refunded_at refund_reason) db).

Definition sum_share_key_contributions_tx (key_id : string) (db : Db) : Z :=
  map_sum (fun r => if bool_decide (skc_key_id r = key_id) then skc_remaining_credits r else 0)
    (share_key_contributions db).

Definition ensure_share_key_funding_id_tx (new_id key_id : string) (existing : option string)
    (db : Db) : result anyhow (string * Db) :=
  match existing with
  | Some id => Ok (id, db)
  | None =>
      let? db := map_err Sql (update_share_key_checked (sk_set_funding_id new_id) key_id db) in
      Ok (new_id, db)
  end.

(** [ORDER BY created_at ASC, contribution_id ASC]. *)
Definition older (a b : string * ContributionRow) : Prop :=
  skc_created_at a.2 < skc_created_at b.2 \/
  (skc_created_at a.2 = skc_created_at b.2 /\ String.leb a.1 b.1 = true).
#[export] Instance older_dec a b : Decision (older a b).
Proof. unfold older. apply _. Defined.

(** The body of the refund loop, for one contribution. *)
Definition refund_one (key_id : string) (settled_at : Z) (reason : string)
    (c : string * ContributionRow) (acc : nat * Z * Db) : nat * Z * Db :=
  let '(refunded_rows, refunded_credits, db) := acc in
  let '(contribution_id, row) := c in
  let funder_device_id := skc_funder_device_id row in
  let remaining_credits := skc_remaining_credits row in
  let db := ensure_balance funder_device_id db in
  let '(refunded_rows, refunded_credits, db) :=
    if 0 <? remaining_credits then
      let db := update_balance (bal_add remaining_credits) funder_device_id db in
      let db := insert_ledger funder_device_id (as_str ShareKeyRefund) remaining_credits
        settled_at None ("share_key:" +:+ key_id +:+ " refunded (" +:+ reason +:+ ")") db in
      (S refunded_rows, i64_add refunded_credits remaining_credits, db)
    else (refunded_rows, refunded_credits, db) in
  (refunded_rows, refunded_credits,
   update_contribution (skc_set_refunded settled_at reason) contribution_id db).

Definition refund_share_key_contributions_tx (key_id : string) (settled_at : Z) (reason : string)
    (db : Db) : nat * Z * Db :=
  let rows := merge_sort older (select_where (fun _ r =>
    bool_decide (skc_key_id r = key_id) && bool_decide (skc_refunded_at r = None))
    (share_key_contributions db)) in
  foldl (fun acc c => refund_one key_id settled_at reason c acc) (0%nat, 0, db) rows.

(** ** Pro-rata spending *)

(** A row of [reductions]: contribution id, credits taken, division remainder,
    creation time. *)
Record Reduction : Type := mkReduction {
  red_id : string;
  red_take : Z;
  red_remainder : Z;
  red_created_at : Z
}.

(** Products are [i128] in the code, so they do not overflow. *)
Definition reduction_of (spend total_remaining : Z) (c : string * ContributionRow) : Reduction :=
  let numerator := spend * skc_remaining_credits c.2 in
  mkReduction c.1 (Z.quot numerator total_remaining) (Z.rem numerator total_remaining)
    (skc_created_at c.2).

(** [order.sort_by(...)]: largest remainder first, then oldest, then smallest id. *)
Definition ranks_before (a b : nat * Reduction) : Prop :=
  red_remainder b.2 < red_remainder a.2 \/
  (red_remainder a.2 = red_remainder b.2 /\
    (red_created_at a.2 < red_created_at b.2 \/
     (red_created_at a.2 = red_created_at b.2 /\ String.leb (red_id a.2) (red_id b.2) = true))).
#[export] Instance ranks_before_dec a b : Decision (ranks_before a b).
Proof. unfold ranks_before. apply _. Defined.

Definition bump (r : Reduction) : Reduction :=
  mkReduction (red_id r) (i64_add (red_take r) 1) (red_remainder r) (red_created_at r).

(** [for (idx, ..) in order { if leftover == 0 { break } reductions[idx].1 += 1; leftover -= 1 }]. *)
Fixpoint hand_out (order : list nat) (leftover : Z) (reductions : list Reduction)
    : list Reduction :=
  match order with
  | [] => reductions
  | idx :: order =>
      if leftover =? 0 then reductions
      else hand_out order (leftover - 1) (alter bump idx reductions)
  end.

Definition pro_rata_reductions (spend : Z) (contributions : list (string * ContributionRow))
    : list Reduction :=
  let total_remaining := foldl i64_add 0 ((fun c => skc_remaining_credits c.2) <$> contributions) in
  let spend := Z.min spend total_remaining in
  let reductions := reduction_of spend total_remaining <$> contributions in
  let floored_total := foldl i64_add 0 (red_take <$> reductions) in
  let leftover := i64_sub spend floored_total in
  if 0 <? leftover
  then hand_out (fst <$> merge_sort ranks_before (imap pair reductions)) leftover reductions
  else reductions.

Definition spendable_contributions (key_id : string) (db : Db) : list (string * ContributionRow) :=
  merge_sort older (select_where (fun _ r =>
    bool_decide (skc_key_id r = key_id) && (0 <? skc_remaining_credits r))
    (share_key_contributions db)).

Definition take_reduction (c : string * ContributionRow) (r : Reduction) (db : Db) : Db :=
  update_contribution
    (skc_set_remaining (Z.max (i64_sub (skc_remaining_credits c.2) (red_take r)) 0)) c.1 db.

Definition apply_pro_rata_share_key_spend_tx (key_id : string) (spend : Z) (db : Db) : Db :=
  if spend <=? 0 then db
  else
    let contributions := spendable_contributions key_id db in
    let total_remaining := foldl i64_add 0 ((fun c => skc_remaining_credits c.2) <$> contributions) in
    match contributions with
    | [] => db
    | _ =>
        if total_remaining <=? 0 then db
        else foldl (fun db cr => take_reduction cr.1 cr.2 db) db
               (zip contributions (pro_rata_reductions spend contributions))
    end.

(** ** Minting *)

Record ShareKeyMinted : Type := mkShareKeyMinted {
  minted_key_id : string;
  minted_funding_id : string;
  minted_token : string;
  minted_label : option string;
  minted_budget_credits : Z;
  minted_expires_at : Z;
  minted_created_at : Z
}.

(** [str::chars().count()]. *)
Definition char_count (s : string) : Z :=
  Z.of_nat (length (List.filter (fun c => negb (in_range 128 191 c)) (bytes s))).

Definition active_share_keys (now : Z) (issuer : string) (db : Db) : Z :=
  Z.of_nat (length (select_where (fun _ r =>
    bool_decide (sk_issuer_device_id r = issuer) && bool_decide (sk_revoked_at r = None) &&
    (now <? sk_expires_at r)) (share_keys db))).

(** The identifiers a call to [mint_share_key] draws. *)
Record MintIds : Type := mkMintIds {
  mi_key_id : string;
  mi_funding_id : string;
  mi_token : string;
  mi_contribution_id : string
}.

Definition mint_share_key (ids : MintIds) (now : Z) (issuer_device_id : string)
    (label : option string) (expires_in_seconds budget_credits : Z) (db : Db)
    : result anyhow (ShareKeyMinted * Db) :=
  guard? (SHARE_KEY_MIN_EXPIRES_IN <=? expires_in_seconds) &&
         (expires_in_seconds <=? SHARE_KEY_MAX_EXPIRES_IN)
    else (Bail ("expiresInSeconds must be between " +:+ show_z SHARE_KEY_MIN_EXPIRES_IN +:+ " and " +:+
                show_z SHARE_KEY_MAX_EXPIRES_IN)) in
  guard? (SHARE_KEY_MIN_BUDGET <=? budget_credits) && (budget_credits <=? SHARE_KEY_MAX_BUDGET)
    else (Bail ("budgetCredits must be between " +:+ show_z SHARE_KEY_MIN_BUDGET +:+ " and " +:+
                show_z SHARE_KEY_MAX_BUDGET)) in
  let normalized_label := normalized_optional_string label in
  guard? match normalized_label with
         | Some l => char_count l <=? SHARE_KEY_MAX_LABEL_LEN
         | None => true
         end else (Bail ("label must be ≤ " +:+ show_z SHARE_KEY_MAX_LABEL_LEN +:+ " chars")) in
  guard? active_share_keys now issuer_device_id db <? SHARE_KEY_MAX_ACTIVE_PER_ISSUER
    else (Bail ("too many active share keys (" +:+ show_z SHARE_KEY_MAX_ACTIVE_PER_ISSUER +:+ " max)")) in
  let db := ensure_balance issuer_device_id db in
  let? row := map_err Sql (query_row (balances db !! issuer_device_id)) in
  guard? budget_credits <=? bal_balance row else (Bail ("insufficient wallet balance: have " +:+ show_z (bal_balance row) +:+ ", need " +:+
                         show_z budget_credits)) in
  let key_id := mi_key_id ids in
  let expires_at := i64_add now expires_in_seconds in
  let? db := map_err Sql (insert_share_key key_id
    (mkShareKeyRow (mi_token ids) issuer_device_id normalized_label expires_at budget_credits 0 now
       None 1 (Some (mi_funding_id ids)) None) db) in
  let db := update_balance (bal_add (- budget_credits)) issuer_device_id db in
  let db := insert_ledger issuer_device_id (as_str ShareKeyFund) (i64_neg budget_credits) now None
    ("share_key:" +:+ key_id +:+ " funded") db in
  let? db := insert_share_key_contribution_tx (mi_contribution_id ids) key_id issuer_device_id
    budget_credits budget_credits now None None db in
  Ok (mkShareKeyMinted key_id (mi_funding_id ids) (mi_token ids) normalized_label budget_credits
        expires_at now, db).

(** ** Bearer resolution *)

Inductive ShareKeyRejection : Type := RejExpired | RejRevoked | RejExhausted.

Record ResolvedShareKey : Type := mkResolvedShareKey {
  rsk_key_id : string;
  rsk_issuer_device_id : string;
  rsk_budget_credits : Z;
  rsk_consumed_credits : Z;
  rsk_expires_at : Z
}.

Definition rsk_remaining (r : ResolvedShareKey) : Z :=
  Z.max (i64_sub (rsk_budget_credits r) (rsk_consumed_credits r)) 0.

Definition resolve_share_key (now : Z) (token : string) (db : Db)
    : result ShareKeyRejection (option ResolvedShareKey) :=
  match select_one (fun _ r => bool_decide (sk_token r = token)) (share_keys db) with
  | None => Ok None
  | Some (key_id, r) =>
      guard? bool_decide (sk_revoked_at r = None) else RejRevoked in
      guard? now <? sk_expires_at r else RejExpired in
      guard? sk_consumed_credits r <? sk_budget_credits r else RejExhausted in
      Ok (Some (mkResolvedShareKey key_id (sk_issuer_device_id r) (sk_budget_credits r)
                  (sk_consumed_credits r) (sk_expires_at r)))
  end.

(** ** Third-party funding *)

Inductive FundShareKeyError : Type :=
| FundNotFound
| FundRevoked
| FundExpired
| FundNotMigrated
| FundInsufficientBalance (balance required : Z).

Record ShareKeyFundingReceipt : Type := mkShareKeyFundingReceipt {
  fr_funding_id : string;
  fr_key_id : string;
  fr_funded_credits : Z;
  fr_budget_credits : Z;
  fr_consumed_credits : Z;
  fr_remaining_credits : Z;
  fr_sender_balance_credits : Z;
  fr_expires_at : Z
}.

Definition transfer_to_share_key (contribution_id : string) (now : Z)
    (sender_device_id funding_id : string) (amount_credits : Z) (db : Db)
    : result FundShareKeyError (ShareKeyFundingReceipt * Db) :=
  guard? negb (amount_credits <=? 0) else (FundInsufficientBalance 0 (Z.max amount_credits 1)) in
  let? (key_id, target) := ok_or FundNotFound
    (select_one (fun _ r => some_eqb (sk_funding_id r) funding_id) (share_keys db)) in
  guard? bool_decide (sk_revoked_at target = None) else FundRevoked in
  guard? now <? sk_expires_at target else FundExpired in
  guard? sk_funded target =? 1 else FundNotMigrated in
  let db := ensure_device now sender_device_id db in
  let db := ensure_balance sender_device_id db in
  let sender_balance := balance_of sender_device_id db in
  guard? amount_credits <=? sender_balance
    else (FundInsufficientBalance sender_balance amount_credits) in
  let db := update_balance (bal_add (- amount_credits)) sender_device_id db in
  let? db := map_err (fun _ => FundNotFound) (update_share_key_checked
    (fun r => sk_set_budget (sk_budget_credits r + amount_credits) r) key_id db) in
  let? db := map_err (fun _ => FundNotFound) (insert_share_key_contribution_tx contribution_id
    key_id sender_device_id amount_credits amount_credits now None None db) in
  let db := insert_ledger sender_device_id (as_str ShareKeyFund) (i64_neg amount_credits) now None
    ("share_key:" +:+ key_id +:+ " funded") db in
  Ok (mkShareKeyFundingReceipt funding_id key_id amount_credits
        (i64_add (sk_budget_credits target) amount_credits) (sk_consumed_credits target)
        (sum_share_key_contributions_tx key_id db) (i64_sub sender_balance amount_credits)
        (sk_expires_at target), db).

(** ** Revocation and expiry *)

Definition revoke_share_key (now : Z) (issuer_device_id key_id : string) (db : Db) : bool * Db :=
  match share_keys db !! key_id with
  | Some r =>
      if bool_decide (sk_issuer_device_id r = issuer_device_id) &&
         bool_decide (sk_revoked_at r = None)
      then
        let db := update_share_key (sk_set_revoked now) key_id db in
        let db :=
          if (sk_funded r =? 1) && bool_decide (sk_refunds_settled_at r = None) then
            let db := (refund_share_key_contributions_tx key_id now "revoked" db).2 in
            update_share_key (sk_set_settled now) key_id db
          else db in
        (true, db)
      else (false, db)
  | None => (false, db)
  end.

Record ExpiredShareKeyRefundReport : Type := mkExpiredReport {
  keys_closed : nat;
  contributions_refunded : nat;
  credits_refunded : Z
}.

Definition close_expired_key (now : Z) (key_id : string)
    (acc : ExpiredShareKeyRefundReport * Db) : ExpiredShareKeyRefundReport * Db :=
  let '(report, db) := acc in
  let '(rows, credits, db) := refund_share_key_contributions_tx key_id now "expired" db in
  (mkExpiredReport (S (keys_closed report)) (contributions_refunded report + rows)
     (i64_add (credits_refunded report) credits),
   update_share_key (sk_set_settled now) key_id db).

Definition expired_unsettled (now : Z) (r : ShareKeyRow) : bool :=
  (sk_funded r =? 1) && bool_decide (sk_revoked_at r = None) && (sk_expires_at r <=? now) &&
  bool_decide (sk_refunds_settled_at r = None).

Definition refund_expired_share_keys (now : Z) (db : Db) : ExpiredShareKeyRefundReport * Db :=
  let keys := fst <$> select_where (fun _ r => expired_unsettled now r) (share_keys db) in
  foldl (fun acc k => close_expired_key now k acc) (mkExpiredReport 0 0 0, db) keys.

(** ** Startup passes *)

Record ShareKeyContributionBackfillReport : Type := mkBackfillReport {
  keys_backfilled : nat;
  funding_ids_backfilled : nat;
  contributions_backfilled : nat
}.

(** [new_funding_id] and [new_contribution_id] name the identifiers drawn for
    each key. *)
Definition backfill_one (new_funding_id new_contribution_id : string -> string) (now : Z)
    (row : string * ShareKeyRow * nat) (acc : ShareKeyContributionBackfillReport * Db)
    : result anyhow (ShareKeyContributionBackfillReport * Db) :=
  let '(key_id, r, contribution_count) := row in
  let '(report, db) := acc in
  let? (report, db) :=
    match sk_funding_id r with
    | None =>
        let? (_, db) := ensure_share_key_funding_id_tx (new_funding_id key_id) key_id None db in
        Ok (mkBackfillReport (keys_backfilled report) (S (funding_ids_backfilled report))
              (contributions_backfilled report), db)
    | Some _ => Ok (report, db)
    end in
  if Nat.ltb 0 contribution_count then Ok (report, db)
  else
    let remaining := Z.max (i64_sub (sk_budget_credits r) (sk_consumed_credits r)) 0 in
    let issuer := sk_issuer_device_id r in
    let insert := insert_share_key_contribution_tx (new_contribution_id key_id) key_id issuer
      (Z.max (sk_budget_credits r) 1) in
    let? db :=
      match sk_revoked_at r with
      | Some revoked_at =>
          insert 0 revoked_at (Some (default revoked_at (sk_refunds_settled_at r)))
            (Some "legacy_revoked") db
      | None =>
          if (sk_expires_at r <=? now) && bool_decide (sk_refunds_settled_at r <> None)
          then insert 0 (sk_expires_at r) (sk_refunds_settled_at r)
                 (Some "legacy_expired_refunded") db
          else insert remaining now None None db
      end in
    Ok (mkBackfillReport (S (keys_backfilled report)) (funding_ids_backfilled report)
          (S (contributions_backfilled report)), db).

Definition contribution_count (key_id : string) (db : Db) : nat :=
  length (select_where (fun _ r => bool_decide (skc_key_id r = key_id))
            (share_key_contributions db)).

Definition backfill_funded_share_key_contributions
    (new_funding_id new_contribution_id : string -> string) (now : Z) (db : Db)
    : result anyhow (ShareKeyContributionBackfillReport * Db) :=
  let rows := (fun '(k, r) => (k, r, contribution_count k db)) <$>
    select_where (fun _ r => sk_funded r =? 1) (share_keys db) in
  fold_res (backfill_one new_funding_id new_contribution_id now) rows (mkBackfillReport 0 0 0, db).

Record ShareKeyMigrationReport : Type := mkMigrationReport {
  funded_fully : nat;
  funded_partially : nat;
  skipped_revoked : nat;
  total_debited_credits : Z;
  total_shrunk_credits : Z
}.

Definition migrate_one (new_funding_id new_contribution_id : string -> string) (now : Z)
    (row : string * ShareKeyRow) (acc : ShareKeyMigrationReport * Db)
    : result anyhow (ShareKeyMigrationReport * Db) :=
  let '(key_id, r) := row in
  let '(rep, db) := acc in
  let issuer := sk_issuer_device_id r in
  let budget := sk_budget_credits r in
  let consumed := sk_consumed_credits r in
  let insert := insert_share_key_contribution_tx (new_contribution_id key_id) key_id issuer in
  let? (_, db) := ensure_share_key_funding_id_tx (new_funding_id key_id) key_id (sk_funding_id r)
    db in
  if bool_decide (sk_revoked_at r <> None) || (sk_expires_at r <=? now) then
    let dead_at := default now (sk_revoked_at r) in
    let db := update_share_key (fun r => sk_set_settled dead_at (sk_set_funded r)) key_id db in
    let? db := insert (Z.max budget 1) 0 (default (sk_expires_at r) (sk_revoked_at r))
      (Some dead_at)
      (Some (if bool_decide (sk_revoked_at r <> None) then "legacy_revoked"
             else "legacy_expired")) db in
    Ok (mkMigrationReport (funded_fully rep) (funded_partially rep) (S (skipped_revoked rep))
          (total_debited_credits rep) (total_shrunk_credits rep), db)
  else
    let owed := Z.max (i64_sub budget consumed) 0 in
    if owed =? 0 then
      let db := update_share_key sk_set_funded key_id db in
      let? db := insert (Z.max budget 1) 0 now None None db in
      Ok (mkMigrationReport (S (funded_fully rep)) (funded_partially rep) (skipped_revoked rep)
            (total_debited_credits rep) (total_shrunk_credits rep), db)
    else
      let db := ensure_balance issuer db in
      let? brow := map_err Sql (query_row (balances db !! issuer)) in
      let debit := Z.min owed (Z.max (bal_balance brow) 0) in
      let new_budget := i64_add consumed debit in
      let db :=
        if 0 <? debit then
          let db := update_balance (bal_add (- debit)) issuer db in
          insert_ledger issuer (as_str ShareKeyFund) (i64_neg debit) now None
            ("share_key:" +:+ key_id +:+ " retroactive funding") db
        else db in
      if new_budget <? budget then
        let? db := map_err Sql (update_share_key_checked
          (fun r => sk_set_funded (sk_set_budget new_budget r)) key_id db) in
        let? db := insert (Z.max debit 1) debit now None None db in
        Ok (mkMigrationReport (funded_fully rep) (S (funded_partially rep)) (skipped_revoked rep)
              (i64_add (total_debited_credits rep) debit)
              (i64_add (total_shrunk_credits rep) (i64_sub budget new_budget)), db)
      else
        let db := update_share_key sk_set_funded key_id db in
        let? db := insert (Z.max debit 1) debit now None None db in
        Ok (mkMigrationReport (S (funded_fully rep)) (funded_partially rep) (skipped_revoked rep)
              (i64_add (total_debited_credits rep) debit) (total_shrunk_credits rep), db).

Definition migrate_unfunded_share_keys (new_funding_id new_contribution_id : string -> string)
    (now : Z) (db : Db) : result anyhow (ShareKeyMigrationReport * Db) :=
  fold_res (migrate_one new_funding_id new_contribution_id now)
    (select_where (fun _ r => sk_funded r =? 0) (share_keys db))
    (mkMigrationReport 0 0 0 0 0, db).

(** ** Views *)

Record ShareKeyPublic : Type := mkShareKeyPublic {
  pub_key_id : string;
  pub_funding_id : string;
  pub_label : option string;
  pub_budget_credits : Z;
  pub_consumed_credits : Z;
  pub_remaining_credits : Z;
  pub_expires_at : Z;
  pub_created_at : Z;
  pub_revoked_at : option Z
}.

Definition newest_key_first (a b : string * ShareKeyRow) : Prop :=
  sk_created_at b.2 <= sk_created_at a.2.
#[export] Instance newest_key_first_dec a b : Decision (newest_key_first a b).
Proof. unfold newest_key_first. apply _. Defined.

(** A row whose [funding_id] is [NULL] fails to convert and is skipped. *)
Definition list_share_keys (issuer_device_id : string) (db : Db) : list ShareKeyPublic :=
  omap (fun '(key_id, r) =>
    funding_id ← sk_funding_id r;
    Some (mkShareKeyPublic key_id funding_id (sk_label r) (sk_budget_credits r)
      (sk_consumed_credits r)
      (if sk_funded r =? 1 then sum_share_key_contributions_tx key_id db
       else sk_budget_credits r - sk_consumed_credits r)
      (sk_expires_at r) (sk_created_at r) (sk_revoked_at r)))
  (merge_sort newest_key_first
     (select_where (fun _ r => bool_decide (sk_issuer_device_id r = issuer_device_id))
        (share_keys db))).

Record ShareKeyPreview : Type := mkShareKeyPreview {
  pv_label : option string;
  pv_budget_credits : Z;
  pv_consumed_credits : Z;
  pv_expires_at : Z;
  pv_issuer_display_name : option string
}.

Definition username_of (device_id : string) (db : Db) : option string :=
  r ← devices db !! device_id; dev_username r.

Definition preview_share_key (token : string) (db : Db) : option ShareKeyPreview :=
  match select_one (fun _ r => bool_decide (sk_token r = token)) (share_keys db) with
  | Some (_, r) =>
      if bool_decide (sk_revoked_at r = None) then
        Some (mkShareKeyPreview (sk_label r) (sk_budget_credits r) (sk_consumed_credits r)
                (sk_expires_at r) (username_of (sk_issuer_device_id r) db))
      else None
  | None => None
  end.

Record ShareKeyFundingPreview : Type := mkShareKeyFundingPreview {
  fpv_funding_id : string;
  fpv_label : option string;
  fpv_issuer_display_name : option string;
  fpv_budget_credits : Z;
  fpv_consumed_credits : Z;
  fpv_remaining_credits : Z;
  fpv_expires_at : Z
}.

Definition preview_share_key_funding (now : Z) (funding_id : string) (db : Db)
    : option ShareKeyFundingPreview :=
  match select_one (fun _ r => some_eqb (sk_funding_id r) funding_id) (share_keys db) with
  | Some (key_id, r) =>
      if bool_decide (sk_revoked_at r <> None) || (sk_expires_at r <=? now) ||
         negb (sk_funded r =? 1)
      then None
      else Some (mkShareKeyFundingPreview funding_id (sk_label r)
                   (username_of (sk_issuer_device_id r) db) (sk_budget_credits r)
                   (sk_consumed_credits r) (sum_share_key_contributions_tx key_id db)
                   (sk_expires_at r))
  | None => None
  end.
