(* ===== verification/Settlement.v ===== *)
(** * Settlement

    [gateway/src/ledger.rs]: what happens to the money after a completed
    inference request.  [settle_request] debits the consumer (a device wallet,
    a share-key pool or, through [settle_request_account], an account wallet)
    and splits the payable amount 70/25/5 between the serving device, the
    other available devices and the operator; [settle_provider_request] pays
    a centralized provider 95/5; [record_provider_payout] debits a provider.
    The code repeats the debit and the distribution in each function; here
    they are the shared definitions [debit_device_side], [distribute] and
    [pay_ops]. *)

From S2P Require Import Prelude Db RustStr Wallet ShareKeys.

Open Scope string_scope.
Open Scope Z_scope.

(** ** The payable amount *)

(** [SELECT funded FROM share_keys], for share-key consumers only. *)
Definition share_funded (consumer : ConsumerPrincipal) (db : Db) : option Z :=
  match consumer with
  | Share _ key_id => sk_funded <$> share_keys db !! key_id
  | _ => None
  end.

(** What a device or share-key consumer can pay of [cost]. *)
Definition effective_device_cost (cost : Z) (d : string) (db : Db) : Z :=
  Z.min cost (Z.max (balance_of d db) 0).
Definition effective_share_cost (cost : Z) (issuer key_id : string) (funded : option Z) (db : Db)
    : Z :=
  if bool_decide (funded = Some 1) then
    Z.min cost (Z.max (sum_share_key_contributions_tx key_id db) 0)
  else
    let key_remaining :=
      default 0 ((fun r => sk_budget_credits r - sk_consumed_credits r) <$>
                 share_keys db !! key_id) in
    Z.min (Z.min cost (Z.max (balance_of issuer db) 0)) (Z.max key_remaining 0).

(** ** Shared statements *)

(** The consumer side of a device or share-key spend, once [effective_cost] is
    known to be positive. *)
Definition debit_device_side (consumer : ConsumerPrincipal) (funded : option Z)
    (paying : string) (effective_cost : Z) (db : Db) : Db :=
  match consumer with
  | Share _ key_id =>
      let db := update_share_key (sk_add_consumed effective_cost) key_id db in
      if bool_decide (funded = Some 1) then
        let db := apply_pro_rata_share_key_spend_tx key_id effective_cost db in
        update_balance (bal_count_spent effective_cost) paying db
      else update_balance (bal_spend effective_cost) paying db
  | _ => update_balance (bal_spend effective_cost) paying db
  end.

(** [INSERT OR IGNORE INTO balances]; [INSERT INTO ledger]; [UPDATE balances]. *)
Definition earn (d ty : string) (amount now : Z) (request_id note : string) (db : Db) : Db :=
  update_balance (bal_earn amount) d
    (insert_ledger d ty amount now (Some request_id) note (ensure_balance d db)).

Definition pay_ops (amount now : Z) (request_id note : string) (db : Db) : Db :=
  if 0 <? amount then earn OPS "OPS_FEE" amount now request_id note db else db.

Record Split : Type := mkSplit {
  direct_earn : Z;
  per_peer : Z;
  ops_total : Z
}.

(** 70/25/5, the availability share divided evenly, leftovers to the operator. *)
Definition fleet_split (effective_cost : Z) (n_recipients : nat) : Split :=
  let direct := i64_div (i64_mul effective_cost 70) 100 in
  let pool_share := i64_div (i64_mul effective_cost 25) 100 in
  let ops_fee := i64_sub (i64_sub effective_cost direct) pool_share in
  let n := Z.of_nat n_recipients in
  let per_peer := if Nat.eqb n_recipients 0 then 0 else i64_div pool_share n in
  let availability_used := i64_mul per_peer n in
  let pool_leftover := i64_sub pool_share availability_used in
  mkSplit direct per_peer (i64_add ops_fee pool_leftover).

(** Earnings: the serving device, every availability recipient, the operator. *)
Definition distribute (sp : Split) (provider : option string) (recipients : list string)
    (now : Z) (request_id note : string) (db : Db) : Db :=
  let db :=
    match provider with
    | Some p => if 0 <? direct_earn sp
                then earn p "DIRECT_EARN" (direct_earn sp) now request_id note db else db
    | None => db
    end in
  let db :=
    if 0 <? per_peer sp
    then foldl (fun db peer => earn peer "AVAILABILITY_EARN" (per_peer sp) now request_id note db)
           db recipients
    else db in
  pay_ops (ops_total sp) now request_id note db.

Definition with_shortfall (note_base : string) (shortfall : Z) : string :=
  if 0 <? shortfall then note_base +:+ " shortfall=" +:+ show_z shortfall else note_base.

(** ** Account-rooted spend *)

Definition settle_request_account (now : Z) (account_user_id : string)
    (api_key_id provider_device_id : option string) (online_device_ids : list string) (cost : Z)
    (request_id model : string) (db : Db) : result anyhow Db :=
  let effective_cost := Z.min cost (Z.max (account_balance_of account_user_id db) 0) in
  let effective_cost :=
    match api_key_id with
    | Some key_id =>
        match api_keys db !! key_id with
        | Some k =>
            match ak_credit_limit k with
            | Some limit => Z.min effective_cost (Z.max (i64_sub limit (ak_usage_credits k)) 0)
            | None => effective_cost
            end
        | None => effective_cost
        end
    | None => effective_cost
    end in
  let shortfall := i64_sub cost effective_cost in
  let recipients := filter (fun d => Some d <> provider_device_id) online_device_ids in
  let sp := fleet_split effective_cost (length recipients) in
  let note_base :=
    match api_key_id with
    | Some k => "api_key:" +:+ k +:+ " model=" +:+ model
    | None => "model=" +:+ model
    end in
  let note := with_shortfall note_base shortfall in
  let? db := map_err Sql (insert_account_ledger account_user_id "credits" (i64_neg effective_cost)
    "SPENT" now None note api_key_id db) in
  let db :=
    if 0 <? effective_cost then
      let db := update_account (aw_post (- effective_cost) 0 0 0 now) account_user_id db in
      match api_key_id with Some k => api_key_use effective_cost now k db | None => db end
    else db in
  Ok (distribute sp provider_device_id recipients now request_id note db).

(** ** Settlement on the distributed fleet *)

Definition settle_request (now : Z) (consumer : ConsumerPrincipal)
    (provider_device_id : option string) (online_device_ids : list string) (cost : Z)
    (request_id model : string) (db : Db) : result anyhow Db :=
  if cost <=? 0 then Ok db
  else
    match consumer with
    | Account account_user_id api_key_id =>
        settle_request_account now account_user_id api_key_id provider_device_id
          online_device_ids cost request_id model db
    | Device paying | Share paying _ =>
        let db := ensure_balance paying db in
        let funded := share_funded consumer db in
        let effective_cost :=
          match consumer with
          | Share issuer key_id => effective_share_cost cost issuer key_id funded db
          | _ => effective_device_cost cost paying db
          end in
        let shortfall := i64_sub cost effective_cost in
        let recipients :=
          filter (fun d => Some d <> provider_device_id /\ d <> paying) online_device_ids in
        let sp := fleet_split effective_cost (length recipients) in
        let note_base :=
          match consumer with
          | Share _ key_id => "share_key:" +:+ key_id +:+ " model=" +:+ model
          | _ => "model=" +:+ model
          end in
        let note := with_shortfall note_base shortfall in
        let db := insert_ledger paying "SPENT" (i64_neg effective_cost) now (Some request_id) note db in
        let db :=
          if 0 <? effective_cost
          then debit_device_side consumer funded paying effective_cost db else db in
        Ok (distribute sp provider_device_id recipients now request_id note db)
    end.

(** ** Settlement with a centralized provider *)

Definition settle_provider_request (now : Z) (consumer : ConsumerPrincipal) (provider_id : string)
    (cost : Z) (request_id model : string) (db : Db) : result anyhow Db :=
  if cost <=? 0 then Ok db
  else
    let db := match paying_device_id consumer with
              | Some d => ensure_balance d db
              | None => db
              end in
    let funded := share_funded consumer db in
    let effective_cost :=
      match consumer with
      | Device d => effective_device_cost cost d db
      | Account a _ => Z.min cost (Z.max (account_balance_of a db) 0)
      | Share issuer key_id => effective_share_cost cost issuer key_id funded db
      end in
    let shortfall := i64_sub cost effective_cost in
    let provider_earn := i64_div (i64_mul effective_cost 95) 100 in
    let ops_fee := i64_sub effective_cost provider_earn in
    let note_base :=
      match consumer with
      | Device _ => "provider=" +:+ provider_id +:+ " model=" +:+ model
      | Account a _ => "account=" +:+ a +:+ " provider=" +:+ provider_id +:+ " model=" +:+ model
      | Share _ k => "share_key:" +:+ k +:+ " provider=" +:+ provider_id +:+ " model=" +:+ model
      end in
    let note := with_shortfall note_base shortfall in
    let? db :=
      match consumer with
      | Device d | Share d _ =>
          Ok (insert_ledger d "SPENT" (i64_neg effective_cost) now (Some request_id) note db)
      | Account a api_key_id =>
          map_err Sql (insert_account_ledger a "credits" (i64_neg effective_cost)
            "INFERENCE_SPENT" now None note api_key_id db)
      end in
    let db :=
      if 0 <? effective_cost then
        match consumer with
        | Device d | Share d _ => debit_device_side consumer funded d effective_cost db
        | Account a api_key_id =>
            let db := update_account (aw_post (- effective_cost) 0 0 0 now) a db in
            match api_key_id with Some k => api_key_use effective_cost now k db | None => db end
        end
      else db in
    let? db :=
      if 0 <? provider_earn then
        let? db := map_err Sql (ensure_provider_wallet now provider_id db) in
        let? db := map_err Sql (insert_provider_ledger provider_id "PROVIDER_EARN" provider_earn now
          (Some request_id) (Some model) note db) in
        Ok (update_provider (pw_post provider_earn provider_earn 0 now) provider_id db)
      else Ok db in
    Ok (pay_ops ops_fee now request_id note db).

(** ** Provider payouts *)

Definition record_provider_payout (now : Z) (provider_id : string) (amount : Z)
    (destination : option string) (db : Db) : result anyhow Db :=
  guard? negb (amount <=? 0) else (Bail "payout amount must be positive") in
  let bal := provider_balance_of provider_id db in
  guard? amount <=? bal
    else (Bail ("payout exceeds provider balance: requested=" +:+ show_z amount +:+
                " available=" +:+ show_z bal)) in
  let note := match destination with Some d => "dest=" +:+ d | None => "" end in
  let? db := map_err Sql (insert_provider_ledger provider_id "PROVIDER_PAYOUT" (i64_neg amount) now
    None None note db) in
  Ok (update_provider (pw_post (- amount) 0 amount now) provider_id db).

Record ProviderWalletView : Type := mkProviderWalletView {
  pwv_provider_id : string;
  pwv_balance_credits : Z;
  pwv_total_earned : Z;
  pwv_total_paid_out : Z
}.

Definition get_provider_wallet (provider_id : string) (db : Db) : option ProviderWalletView :=
  (fun r => mkProviderWalletView provider_id (pw_balance_credits r) (pw_total_earned r)
              (pw_total_paid_out r)) <$> provider_wallets db !! provider_id.

(** ** API-key views *)

(** [api_key_remaining_limit]. *)
Definition api_key_remaining_limit (key_id : string) (db : Db) : option Z :=
  r ← api_keys db !! key_id;
  limit ← ak_credit_limit r;
  Some (Z.max (i64_sub limit (ak_usage_credits r)) 0).

Record CreditsSnapshot : Type := mkCreditsSnapshot {
  cs_account_user_id : string;
  cs_balance_credits : Z;
  cs_total_usage_credits : Z;
  cs_deposited_usdc_cents_total : Z;
  cs_withdrawn_usdc_cents_total : Z
}.

(** [credits_snapshot]. *)
Definition credits_snapshot (account_user_id : string) (db : Db) : result anyhow CreditsSnapshot :=
  let? w := ok_or (Bail "account not found") (account_wallets db !! account_user_id) in
  let total_usage := zsum ((fun r => - al_amount r) <$>
    filter (fun r => al_account_user_id r = account_user_id /\ al_type r = "SPENT" /\
                     al_asset r = "credits") (account_ledger db)) in
  Ok (mkCreditsSnapshot account_user_id (aw_balance_credits w) total_usage
        (aw_deposited_usdc_cents_total w) (aw_withdrawn_usdc_cents_total w)).
