(* ===== verification/Accounts.v ===== *)
(** * Account wallets

    [gateway/src/ledger.rs]: human accounts and the devices linked to them.
    Canonical account ids, the recipient language of a transfer (device id,
    account id, e-mail, phone, GitHub name), transfers out of a device wallet
    and out of an account wallet, the sweep of a linked device into its
    account, removal of a device, and the account views. *)

From Stdlib Require Import Ascii.
From stdpp Require Import sorting.
From S2P Require Import Prelude Db RustStr Wallet.
From Stdlib Require String.

Open Scope string_scope.
Open Scope Z_scope.

(** ** Credits and USDC cents *)

Definition credits_from_usdc_cents (usdc_cents : Z) : result anyhow Z :=
  ok_or (Bail "usdc cents overflow while converting to credits")
    (i64_checked_mul usdc_cents CREDITS_PER_USDC_CENT).

Definition redeemable_usdc_cents (deposited_usdc_cents_total withdrawn_usdc_cents_total : Z) : Z :=
  Z.max (i64_sub deposited_usdc_cents_total withdrawn_usdc_cents_total) 0.

Definition withdrawable_credits
    (balance_credits deposited_usdc_cents_total withdrawn_usdc_cents_total : Z) : Z :=
  let redeemable_credits :=
    match credits_from_usdc_cents
            (redeemable_usdc_cents deposited_usdc_cents_total withdrawn_usdc_cents_total) with
    | Ok c => c
    | Err _ => i64_max
    end in
  Z.max (Z.min balance_credits redeemable_credits) 0.

(** ** Transfer recipients *)

Inductive TransferError : Type :=
| UnsupportedAsset
| InvalidAmount
| MissingRecipient
| RecipientAccountNotFound
| RecipientDeviceNotFound
| AmbiguousRecipient
| SameWallet
| AccountNotLinked
| InsufficientBalance (balance required : Z)
| TransferOther (e : anyhow).

Inductive ResolvedTransferTarget : Type :=
| ToDevice (device_id : string)
| ToAccount (account_user_id : string) (display_name phone email github_username : option string).

Record TransferRecipientSummary : Type := mkTransferRecipientSummary {
  trs_kind : string;
  trs_id : string;
  trs_display_name : option string;
  trs_device_id : option string;
  trs_account_user_id : option string;
  trs_phone : option string;
  trs_email : option string;
  trs_github_username : option string
}.

Definition target_summary (t : ResolvedTransferTarget) : TransferRecipientSummary :=
  match t with
  | ToDevice d => mkTransferRecipientSummary "device" d None (Some d) None None None None
  | ToAccount a name phone email github =>
      mkTransferRecipientSummary "account" a name None (Some a) phone email github
  end.

Inductive TransferLookup : Type :=
| LookupDevice (device_id : string)
| LookupAccount (account_user_id : string)
| LookupEmail (email : string)
| LookupPhoneDigits (digits : string)
| LookupGithub (username : string).

Definition looks_like_device_id (value : string) : bool :=
  Nat.eqb (length (bytes value)) 64 && forallb is_ascii_hexdigit (bytes value).

Definition non_empty (s : string) : option string := if is_empty s then None else Some s.

Definition normalize_email (value : string) : option string := non_empty (to_lowercase (trim value)).

Definition normalize_github_username (value : string) : option string :=
  non_empty (to_lowercase (trim_start_matches "@"%char (trim value))).

Definition normalize_phone_digits (value : string) : option string :=
  non_empty (filter_str is_ascii_digit value).

Definition normalize_phone_value (value : string) : option string :=
  let trimmed := trim value in
  if is_empty trimmed then None
  else
    let digits := filter_str is_ascii_digit trimmed in
    if is_empty digits then None
    else if starts_with "+" trimmed then Some ("+" +:+ digits) else Some digits.

Definition is_phone_punctuation (c : Ascii.ascii) : bool :=
  existsb (Ascii.eqb c) ["("%char; ")"%char; " "%char; "-"%char; "."%char].

Definition parse_transfer_lookup (raw : string) : result TransferError TransferLookup :=
  let trimmed := trim raw in
  if is_empty trimmed then Err MissingRecipient
  else match strip_prefix "device:" trimmed with
  | Some rest => Ok (LookupDevice (trim rest))
  | None =>
  match strip_prefix "account:" trimmed with
  | Some rest => Ok (LookupAccount (trim rest))
  | None =>
  match strip_prefix "email:" trimmed with
  | Some rest => let? email := ok_or MissingRecipient (normalize_email rest) in Ok (LookupEmail email)
  | None =>
  match strip_prefix "phone:" trimmed with
  | Some rest =>
      let? digits := ok_or MissingRecipient (normalize_phone_digits rest) in
      Ok (LookupPhoneDigits digits)
  | None =>
  match strip_prefix "github:" trimmed with
  | Some rest =>
      let? github := ok_or MissingRecipient (normalize_github_username rest) in
      Ok (LookupGithub github)
  | None =>
      let as_github :=
        let? github := ok_or MissingRecipient (normalize_github_username trimmed) in
        Ok (LookupGithub github) in
      if looks_like_device_id trimmed then Ok (LookupDevice trimmed)
      else if contains "@"%char trimmed then
        let? email := ok_or MissingRecipient (normalize_email trimmed) in Ok (LookupEmail email)
      else match normalize_phone_digits trimmed with
      | Some digits =>
          if starts_with "+" trimmed || any_char is_phone_punctuation trimmed
          then Ok (LookupPhoneDigits digits) else as_github
      | None => as_github
      end
  end end end end end.

Definition account_target (a : string) (r : AccountWalletRow) : ResolvedTransferTarget :=
  ToAccount a (aw_display_name r) (aw_phone r) (aw_email r) (aw_github_username r).

(** The rows of [SELECT ... FROM account_wallets WHERE p]: exactly one must match. *)
Definition load_account_target_from_query (p : AccountWalletRow -> bool) (db : Db)
    : result TransferError ResolvedTransferTarget :=
  match select_where (fun _ r => p r) (account_wallets db) with
  | [] => Err RecipientAccountNotFound
  | [(a, r)] => Ok (account_target a r)
  | _ => Err AmbiguousRecipient
  end.

(** The nested [REPLACE(...)] of the phone lookup removes these characters. *)
Definition sql_phone_digits (phone : option string) : string :=
  filter_str (fun c => negb (existsb (Ascii.eqb c)
    ["+"%char; " "%char; "-"%char; "("%char; ")"%char; "."%char])) (default "" phone).

Definition resolve_transfer_target_tx (raw_recipient : string) (db : Db)
    : result TransferError ResolvedTransferTarget :=
  let by_lookup :=
    let? lookup := parse_transfer_lookup raw_recipient in
    match lookup with
    | LookupDevice d => if has d (devices db) then Ok (ToDevice d) else Err RecipientDeviceNotFound
    | LookupAccount a =>
        match account_wallets db !! a with
        | Some r => Ok (account_target a r)
        | None => Err RecipientAccountNotFound
        end
    | LookupEmail email =>
        load_account_target_from_query (fun r => some_eqb (to_lowercase <$> aw_email r) email) db
    | LookupPhoneDigits digits =>
        load_account_target_from_query
          (fun r => bool_decide (sql_phone_digits (aw_phone r) = digits)) db
    | LookupGithub username =>
        load_account_target_from_query
          (fun r => some_eqb (to_lowercase <$> aw_github_username r) username) db
    end in
  let trimmed := trim raw_recipient in
  if negb (is_empty trimmed) && negb (contains "@"%char trimmed) &&
     negb (starts_with "+" trimmed) && negb (contains ":"%char trimmed)
  then
    if has trimmed (devices db) then Ok (ToDevice trimmed)
    else match account_wallets db !! trimmed with
    | Some r => Ok (account_target trimmed r)
    | None => by_lookup
    end
  else by_lookup.

(** ** Notes *)

(** [memo.and_then(|value| ...)]: a memo that is not blank. *)
Definition effective_memo (memo : option string) : option string := normalized_optional_string memo.

Definition format_sender_note (recipient : ResolvedTransferTarget) (memo : option string) : string :=
  let target :=
    match recipient with
    | ToDevice d => "device " +:+ d
    | ToAccount a _ phone email github =>
        match phone, email, github with
        | Some p, _, _ => p
        | None, Some e, _ => e
        | None, None, Some g => g
        | None, None, None => "account " +:+ a
        end
    end in
  match effective_memo memo with
  | Some m => "transfer to " +:+ target +:+ ": " +:+ m
  | None => "transfer to " +:+ target
  end.

Definition format_recipient_note (sender_label : string) (memo : option string) : string :=
  match effective_memo memo with
  | Some m => "transfer from " +:+ sender_label +:+ ": " +:+ m
  | None => "transfer from " +:+ sender_label
  end.

(** ** Canonical account ids *)

Definition is_uuid (v : string) : bool :=
  Nat.eqb (length (bytes v)) 36 &&
  forallb (fun ic => if existsb (Nat.eqb ic.1) [8; 13; 18; 23]%nat
                     then Ascii.eqb ic.2 "-"%char else is_ascii_hexdigit ic.2)
    (imap pair (bytes v)).

(** [None] is the panic of [v[..6]] when byte 6 is inside a character. *)
Definition normalize_account_user_id (value : string) : option string :=
  let v := trim value in
  if is_uuid v then Some (to_ascii_uppercase v)
  else if Nat.ltb 6 (length (bytes v)) then
    match split_at 6 v with
    | None => None
    | Some (head, tail) =>
        if bool_decide (to_lowercase head = "email:") then Some ("email:" +:+ to_lowercase tail)
        else Some v
    end
  else Some v.

Definition account_wallet_exists (account_user_id : string) (db : Db) : option bool :=
  (fun a => has a (account_wallets db)) <$> normalize_account_user_id account_user_id.

(** ** Linking *)

Record AccountLinkMetadata : Type := mkAccountLinkMetadata {
  lm_device_name : option string;
  lm_platform : option string;
  lm_display_name : option string;
  lm_phone : option string;
  lm_email : option string;
  lm_github_username : option string
}.

(** SQL [COALESCE(a, b)]. *)
Definition coalesce {A} (a b : option A) : option A := match a with Some _ => a | None => b end.

(** [INSERT INTO account_wallets ... ON CONFLICT(account_user_id) DO UPDATE]. *)
Definition upsert_account_wallet (now : Z) (a : string) (name phone email github : option string)
    (db : Db) : Db :=
  set_account_wallets
    (match account_wallets db !! a with
     | None => <[a := mkAccountWalletRow name phone email github 0 0 now now None 0 0 0]>
                 (account_wallets db)
     | Some r => <[a := mkAccountWalletRow (coalesce name (aw_display_name r))
                     (coalesce phone (aw_phone r)) (coalesce email (aw_email r))
                     (coalesce github (aw_github_username r)) (aw_balance_credits r)
                     (aw_usdc_cents r) (aw_created_at r) now (aw_solana_address r)
                     (aw_solana_enabled r) (aw_deposited_usdc_cents_total r)
                     (aw_withdrawn_usdc_cents_total r)]> (account_wallets db)
     end) db.

Definition upsert_account_device (now : Z) (d a : string) (name platform : option string) (db : Db)
    : Db :=
  set_account_devices
    (match account_devices db !! d with
     | None => <[d := mkAccountDeviceRow a name platform now now]> (account_devices db)
     | Some r => <[d := mkAccountDeviceRow a (coalesce name (ad_device_name r))
                     (coalesce platform (ad_platform r)) now now]> (account_devices db)
     end) db.

(** [None] is the panic of [normalize_account_user_id]. *)
Definition link_device_to_account (now : Z) (device_id account_user_id : string)
    (metadata : AccountLinkMetadata) (db : Db) : option Db :=
  a ← normalize_account_user_id account_user_id;
  let normalized_phone := lm_phone metadata ≫= normalize_phone_value in
  let normalized_email := lm_email metadata ≫= normalize_email in
  let normalized_github := lm_github_username metadata ≫= normalize_github_username in
  let db := ensure_device now device_id db in
  let db := ensure_balance device_id db in
  let db := upsert_account_wallet now a (lm_display_name metadata) normalized_phone
              normalized_email normalized_github db in
  let db := set_devices (alter (fun r => mkDeviceRow (dev_username r) (dev_first_seen r) now)
              device_id (devices db)) db in
  Some (upsert_account_device now device_id a (lm_device_name metadata) (lm_platform metadata) db).

(** ** Transfers *)

Record TransferReceipt : Type := mkTransferReceipt {
  tr_asset : string;
  tr_amount : Z;
  tr_memo : option string;
  tr_sender_kind : string;
  tr_sender_id : string;
  tr_sender_balance_credits : Z;
  tr_recipient : TransferRecipientSummary
}.

(** The recipient's half of a transfer, the same statements in both functions. *)
Definition credit_recipient (now amount_credits : Z) (recipient : ResolvedTransferTarget)
    (actor_device_id : option string) (note : string) (db : Db) : result TransferError Db :=
  match recipient with
  | ToDevice d =>
      let db := ensure_balance d db in
      let db := update_balance (bal_add amount_credits) d db in
      Ok (insert_ledger d "TRANSFER_IN" amount_credits now None note db)
  | ToAccount a _ _ _ _ =>
      let db := update_account (aw_post amount_credits 0 0 0 now) a db in
      map_err (fun e => TransferOther (Sql e)) (insert_account_ledger a "credits" amount_credits
        "TRANSFER_IN" now actor_device_id note None db)
  end.

Definition is_device_target (d : string) (t : ResolvedTransferTarget) : bool :=
  match t with ToDevice d' => bool_decide (d' = d) | ToAccount _ _ _ _ _ => false end.
Definition is_account_target (a : string) (t : ResolvedTransferTarget) : bool :=
  match t with ToAccount a' _ _ _ _ => bool_decide (a' = a) | ToDevice _ => false end.

Definition transfer_from_device_wallet (now : Z) (sender_device_id raw_recipient : string)
    (amount_credits : Z) (memo : option string) (db : Db)
    : result TransferError (TransferReceipt * Db) :=
  guard? negb (amount_credits <=? 0) else InvalidAmount in
  let db := ensure_balance sender_device_id db in
  let sender_balance := balance_of sender_device_id db in
  guard? amount_credits <=? sender_balance
    else (InsufficientBalance sender_balance amount_credits) in
  let? recipient := resolve_transfer_target_tx raw_recipient db in
  guard? negb (is_device_target sender_device_id recipient) else SameWallet in
  let db := update_balance (bal_add (- amount_credits)) sender_device_id db in
  let db := insert_ledger sender_device_id "TRANSFER_OUT" (i64_neg amount_credits) now None
    (format_sender_note recipient memo) db in
  let? db := credit_recipient now amount_credits recipient (Some sender_device_id)
    (format_recipient_note sender_device_id memo) db in
  Ok (mkTransferReceipt "credits" amount_credits (effective_memo memo) "device" sender_device_id
        (i64_sub sender_balance amount_credits) (target_summary recipient), db).

Definition account_user_id_for_device (device_id : string) (db : Db) : option string :=
  ad_account_user_id <$> account_devices db !! device_id.
Definition account_balance_credits (account_user_id : string) (db : Db) : Z :=
  account_balance_of account_user_id db.

Definition transfer_from_account_wallet_for_account (now : Z)
    (account_user_id raw_recipient : string) (amount_credits : Z) (memo : option string)
    (actor_device_id : option string) (db : Db) : result TransferError (TransferReceipt * Db) :=
  guard? negb (amount_credits <=? 0) else InvalidAmount in
  guard? has account_user_id (account_wallets db) else AccountNotLinked in
  let sender_balance := account_balance_of account_user_id db in
  guard? amount_credits <=? sender_balance
    else (InsufficientBalance sender_balance amount_credits) in
  let? recipient := resolve_transfer_target_tx raw_recipient db in
  guard? negb (is_account_target account_user_id recipient) else SameWallet in
  let db := update_account (aw_post (- amount_credits) 0 0 0 now) account_user_id db in
  let? db := map_err (fun e => TransferOther (Sql e)) (insert_account_ledger account_user_id
    "credits" (i64_neg amount_credits) "TRANSFER_OUT" now actor_device_id
    (format_sender_note recipient memo) None db) in
  let sender_label := "account " +:+ account_user_id in
  let? db := credit_recipient now amount_credits recipient actor_device_id
    (format_recipient_note sender_label memo) db in
  Ok (mkTransferReceipt "credits" amount_credits (effective_memo memo) "account" account_user_id
        (i64_sub sender_balance amount_credits) (target_summary recipient), db).

Definition transfer_from_account_wallet (now : Z) (requester_device_id raw_recipient : string)
    (amount_credits : Z) (memo : option string) (db : Db)
    : result TransferError (TransferReceipt * Db) :=
  let? a := ok_or AccountNotLinked (account_user_id_for_device requester_device_id db) in
  transfer_from_account_wallet_for_account now a raw_recipient amount_credits memo
    (Some requester_device_id) db.

(** ** Views *)

Record AccountDeviceSnapshot : Type := mkAccountDeviceSnapshot {
  ads_device_id : string;
  ads_device_name : option string;
  ads_platform : option string;
  ads_linked_at : Z;
  ads_last_seen : Z;
  ads_wallet_balance_credits : Z;
  ads_wallet_usdc_cents : Z
}.

Record AccountOnchainSnapshot : Type := mkAccountOnchainSnapshot {
  aos_account_user_id : string;
  aos_balance_credits : Z;
  aos_usdc_cents : Z;
  aos_solana_address : option string;
  aos_solana_enabled : bool;
  aos_deposited_usdc_cents_total : Z;
  aos_withdrawn_usdc_cents_total : Z;
  aos_redeemable_usdc_cents : Z;
  aos_withdrawable_credits : Z
}.

Record AccountWalletSnapshot : Type := mkAccountWalletSnapshot {
  aws_onchain : AccountOnchainSnapshot;
  aws_display_name : option string;
  aws_phone : option string;
  aws_email : option string;
  aws_github_username : option string;
  aws_devices : list AccountDeviceSnapshot;
  aws_transactions : list AccountLedgerRow
}.

(** [ORDER BY timestamp DESC, id DESC]. *)
Definition account_newest_first (a b : AccountLedgerRow) : Prop :=
  al_timestamp b < al_timestamp a \/ (al_timestamp a = al_timestamp b /\ al_id b <= al_id a).
#[export] Instance account_newest_first_dec a b : Decision (account_newest_first a b).
Proof. unfold account_newest_first. apply _. Defined.

Definition list_account_transactions_locked (account_user_id : string) (limit : Z) (db : Db)
    : list AccountLedgerRow :=
  sql_limit limit (merge_sort account_newest_first
    (filter (fun r => al_account_user_id r = account_user_id) (account_ledger db))).

(** [ORDER BY last_seen DESC, device_id ASC]. *)
Definition recently_seen (a b : string * AccountDeviceRow) : Prop :=
  ad_last_seen b.2 < ad_last_seen a.2 \/
  (ad_last_seen a.2 = ad_last_seen b.2 /\ String.leb a.1 b.1 = true).
#[export] Instance recently_seen_dec a b : Decision (recently_seen a b).
Proof. unfold recently_seen. apply _. Defined.

Definition linked_devices (account_user_id : string) (db : Db) : list (string * AccountDeviceRow) :=
  merge_sort recently_seen (select_where (fun _ r =>
    bool_decide (ad_account_user_id r = account_user_id)) (account_devices db)).

Definition account_device_ids (account_user_id : string) (db : Db) : list string :=
  fst <$> linked_devices account_user_id db.

Definition onchain_snapshot_from_state (account_user_id : string) (r : AccountWalletRow)
    : AccountOnchainSnapshot :=
  mkAccountOnchainSnapshot account_user_id (aw_balance_credits r) (aw_usdc_cents r)
    (aw_solana_address r) (negb (aw_solana_enabled r =? 0)) (aw_deposited_usdc_cents_total r)
    (aw_withdrawn_usdc_cents_total r)
    (redeemable_usdc_cents (aw_deposited_usdc_cents_total r) (aw_withdrawn_usdc_cents_total r))
    (withdrawable_credits (aw_balance_credits r) (aw_deposited_usdc_cents_total r)
       (aw_withdrawn_usdc_cents_total r)).

Definition load_account_wallet_state_locked (account_user_id : string) (db : Db)
    : result anyhow AccountWalletRow :=
  map_err Sql (query_row (account_wallets db !! account_user_id)).

Definition account_summary (account_user_id : string) (db : Db)
    : result anyhow AccountWalletSnapshot :=
  let? state := load_account_wallet_state_locked account_user_id db in
  let devices := (fun '(d, r) => mkAccountDeviceSnapshot d (ad_device_name r) (ad_platform r)
      (ad_linked_at r) (ad_last_seen r) (balance_of d db) 0) <$> linked_devices account_user_id db in
  Ok (mkAccountWalletSnapshot (onchain_snapshot_from_state account_user_id state)
        (aw_display_name state) (aw_phone state) (aw_email state) (aw_github_username state)
        devices (list_account_transactions_locked account_user_id 100 db)).

Definition account_summary_for_device (device_id : string) (db : Db)
    : result anyhow AccountWalletSnapshot :=
  let? a := ok_or (Bail "device is not linked to an account")
              (account_user_id_for_device device_id db) in
  account_summary a db.

(** ** Sweep and removal *)

(** The account shared by the requester and the target device. *)
Definition common_account (requester_device_id target_device_id : string) (db : Db)
    : result anyhow string :=
  let? a := ok_or (Bail "requesting device is not linked to an account")
              (account_user_id_for_device requester_device_id db) in
  guard? some_eqb (account_user_id_for_device target_device_id db) a
    else (Bail "target device is not linked to this account") in
  Ok a.

(** The USDC column of the query is the constant 0, so the USDC branch of the
    code never runs.  The summary is read after the commit, so its error leaves
    the sweep in place: the answer is a result inside the committed outcome. *)
Definition sweep_device_to_account (now : Z) (requester_device_id target_device_id : string)
    (db : Db) : result anyhow (Z * result anyhow AccountWalletSnapshot * Db) :=
  let? a := common_account requester_device_id target_device_id db in
  let db := ensure_balance target_device_id db in
  let? row := map_err Sql (query_row (balances db !! target_device_id)) in
  let balance_credits := bal_balance row in
  let? db :=
    if 0 <? balance_credits then
      let db := insert_ledger target_device_id "ACCOUNT_SWEEP_OUT" (i64_neg balance_credits) now None
        ("swept to account " +:+ a) db in
      let db := update_balance (bal_spend balance_credits) target_device_id db in
      let db := update_account (aw_post balance_credits 0 0 0 now) a db in
      map_err Sql (insert_account_ledger a "credits" balance_credits "SWEEP_IN" now
        (Some target_device_id) ("swept from device " +:+ target_device_id) None db)
    else Ok db in
  Ok (balance_credits, account_summary a db, db).

Definition remove_device_from_account (requester_device_id target_device_id : string) (db : Db)
    : result anyhow (result anyhow AccountWalletSnapshot * Db) :=
  guard? negb (bool_decide (requester_device_id = target_device_id))
    else (Bail "current device cannot remove itself from this account") in
  let? a := common_account requester_device_id target_device_id db in
  let db := set_account_devices (delete target_device_id (account_devices db)) db in
  Ok (account_summary a db, db).
