(* ===== verification/Providers.v ===== *)
(** * Centralized providers

    [gateway/src/providers/registry.rs]: the administrative statements on the
    [providers] table, to which provider wallets and the provider ledger
    refer.  The in-memory snapshot of the registry, the model rows and the
    health statistics are not part of this file. *)

From S2P Require Import Prelude Db RustStr.

Open Scope string_scope.
Open Scope Z_scope.

Inductive ProviderStatus : Type := Active | Disabled | Probation.

Definition provider_status_as_str (s : ProviderStatus) : string :=
  match s with Active => "active" | Disabled => "disabled" | Probation => "probation" end.
Definition provider_status_parse (s : string) : option ProviderStatus :=
  if bool_decide (s = "active") then Some Active
  else if bool_decide (s = "disabled") then Some Disabled
  else if bool_decide (s = "probation") then Some Probation
  else None.

Inductive ProviderWireFormat : Type := Openai | Anthropic.

Definition wire_format_as_str (f : ProviderWireFormat) : string :=
  match f with Openai => "openai" | Anthropic => "anthropic" end.
Definition wire_format_parse (s : string) : ProviderWireFormat :=
  if bool_decide (s = "anthropic") then Anthropic else Openai.

(** [INSERT INTO providers ... ON CONFLICT(provider_id) DO UPDATE]: a new row is
    active; an update keeps the status and the creation time.  The slug is
    [UNIQUE] and [data_collection] is checked. *)
Definition upsert_provider (now : Z) (provider_id slug display_name base_url : string)
    (wire_format : ProviderWireFormat) (auth_header_name auth_secret_ref data_collection : string)
    (zdr : bool) (quantization : option string) (db : Db) : result anyhow Db :=
  guard? bool_decide (data_collection = "allow" \/ data_collection = "deny")
    else (Sql CheckViolation) in
  guard? unique_for (fun r => Some (prv_slug r)) provider_id (Some slug) (providers db)
    else (Sql UniqueViolation) in
  let '(status, created_at) :=
    match providers db !! provider_id with
    | Some r => (prv_status r, prv_created_at r)
    | None => ("active", now)
    end in
  Ok (set_providers (<[provider_id := mkProviderRow slug display_name base_url
        (wire_format_as_str wire_format) auth_header_name auth_secret_ref status data_collection
        (if zdr then 1 else 0) quantization created_at now]> (providers db)) db).

(** Setting the status of a provider that is not there changes nothing and is
    no error. *)
Definition set_status (now : Z) (provider_id : string) (status : ProviderStatus) (db : Db) : Db :=
  set_providers (alter (fun r => mkProviderRow (prv_slug r) (prv_display_name r) (prv_base_url r)
    (prv_wire_format r) (prv_auth_header_name r) (prv_auth_secret_ref r)
    (provider_status_as_str status) (prv_data_collection r) (prv_zdr r) (prv_quantization r)
    (prv_created_at r) now) provider_id (providers db)) db.
