(* ===== verification/ApiKeys.v ===== *)
(** * API keys

    [gateway/src/api_keys.rs]: programmatic keys that spend from an account
    wallet.  Tokens are stored hashed; SHA-256 (the [sha2] crate) is the
    parameter [hash_token] of the section, the random part of a token and the
    key id are arguments.  The file closes with the life cycle of a key. *)

From stdpp Require Import sorting.
From Stdlib Require String.
From S2P Require Import Prelude Db RustStr.

Open Scope string_scope.
Open Scope Z_scope.

Definition LIVE_PREFIX : string := "tk_live_".
Definition PROVISIONING_PREFIX : string := "tk_prov_".
Definition PREFIX_DISPLAY_LEN : nat := 8.

Inductive ApiKeyRole : Type := Live | Provisioning.

Definition role_as_str (r : ApiKeyRole) : string :=
  match r with Live => "live" | Provisioning => "provisioning" end.
Definition role_parse (s : string) : option ApiKeyRole :=
  if bool_decide (s = "live") then Some Live
  else if bool_decide (s = "provisioning") then Some Provisioning
  else None.
Definition token_prefix (r : ApiKeyRole) : string :=
  match r with Live => LIVE_PREFIX | Provisioning => PROVISIONING_PREFIX end.

Record ApiKeyPublic : Type := mkApiKeyPublic {
  akp_key_id : string;
  akp_account_user_id : string;
  akp_prefix : string;
  akp_name : option string;
  akp_role : ApiKeyRole;
  akp_credit_limit : option Z;
  akp_usage_credits : Z;
  akp_disabled : bool;
  akp_created_at : Z;
  akp_last_used_at : option Z
}.

Record ApiKeyMinted : Type := mkApiKeyMinted {
  akm_public : ApiKeyPublic;
  akm_token : string
}.

Record ResolvedApiKey : Type := mkResolvedApiKey {
  rak_key_id : string;
  rak_account_user_id : string;
  rak_role : ApiKeyRole;
  rak_credit_limit : option Z;
  rak_usage_credits : Z;
  rak_disabled : bool
}.

Definition remaining_credit_limit (k : ResolvedApiKey) : option Z :=
  (fun limit => Z.max (i64_sub limit (rak_usage_credits k)) 0) <$> rak_credit_limit k.

Inductive ApiKeyError : Type :=
| KeyNotFound
| InvalidName
| InvalidCreditLimit
| ProvisioningRequired
| KeyDb (e : SqlError)
| KeyOther (e : anyhow).

(** [secret] is the hex encoding of the random bytes. *)
Definition random_token (secret : string) (role : ApiKeyRole) : string :=
  token_prefix role +:+ secret.

(** Tokens are ASCII, so the slice never falls inside a character. *)
Definition display_prefix (token : string) : string :=
  let len := length (bytes token) in
  let role_prefix_len :=
    if starts_with PROVISIONING_PREFIX token then length (bytes PROVISIONING_PREFIX)
    else if starts_with LIVE_PREFIX token then length (bytes LIVE_PREFIX) else 0%nat in
  let n := (role_prefix_len + Nat.min PREFIX_DISPLAY_LEN (len - role_prefix_len))%nat in
  of_bytes (take (Nat.min n len) (bytes token)).

Definition looks_like_api_key (token : string) : bool :=
  starts_with LIVE_PREFIX token || starts_with PROVISIONING_PREFIX token.

Record CreateApiKeyParams : Type := mkCreateApiKeyParams {
  ckp_name : option string;
  ckp_role : option ApiKeyRole;
  ckp_credit_limit : option Z
}.

(** An absent field of the request is [None], an explicit null is [Some None]. *)
Record UpdateApiKeyParams : Type := mkUpdateApiKeyParams {
  ukp_name : option (option string);
  ukp_credit_limit : option (option Z);
  ukp_disabled : option bool
}.

Definition negative_limit (l : option Z) : bool :=
  match l with Some limit => limit <? 0 | None => false end.
Definition too_long (s : string) : bool := Nat.ltb 128 (length (bytes s)).

(** [INSERT INTO api_keys (...)]: the role always satisfies the [CHECK]. *)
Definition insert_api_key (key_id : string) (r : ApiKeyRow) (db : Db) : result SqlError Db :=
  guard? negb (has key_id (api_keys db)) else UniqueViolation in
  guard? unique_for (fun r => Some (ak_key_hash r)) key_id (Some (ak_key_hash r)) (api_keys db)
    else UniqueViolation in
  guard? has (ak_account_user_id r) (account_wallets db) else ForeignKeyViolation in
  Ok (set_api_keys (<[key_id := r]> (api_keys db)) db).

Definition update_key (f : ApiKeyRow -> ApiKeyRow) (key_id : string) (db : Db) : Db :=
  set_api_keys (alter f key_id (api_keys db)) db.
Definition ak_set (name : option string) (limit : option Z) (disabled : Z) (used : option Z)
    (r : ApiKeyRow) : ApiKeyRow :=
  mkApiKeyRow (ak_account_user_id r) (ak_key_hash r) (ak_prefix r) name (ak_role r) limit
    (ak_usage_credits r) disabled (ak_created_at r) used.

(** The public view; an unreadable role shows as live. *)
Definition public_key (key_id : string) (r : ApiKeyRow) : ApiKeyPublic :=
  mkApiKeyPublic key_id (ak_account_user_id r) (ak_prefix r) (ak_name r)
    (default Live (role_parse (ak_role r))) (ak_credit_limit r) (ak_usage_credits r)
    (negb (ak_disabled r =? 0)) (ak_created_at r) (ak_last_used_at r).

(** [WHERE key_id = ? AND account_user_id = ?]. *)
Definition owned_key (account_user_id key_id : string) (db : Db) : option ApiKeyRow :=
  r ← api_keys db !! key_id;
  if bool_decide (ak_account_user_id r = account_user_id) then Some r else None.

(** [ORDER BY created_at DESC, key_id ASC]. *)
Definition api_key_newest_first (a b : string * ApiKeyRow) : Prop :=
  ak_created_at b.2 < ak_created_at a.2 \/
  (ak_created_at a.2 = ak_created_at b.2 /\ String.leb a.1 b.1 = true).
#[export] Instance api_key_newest_first_dec a b : Decision (api_key_newest_first a b).
Proof. unfold api_key_newest_first. apply _. Defined.

Definition list_api_keys (account_user_id : string) (db : Db) : list ApiKeyPublic :=
  (fun '(k, r) => public_key k r) <$> merge_sort api_key_newest_first (select_where (fun _ r =>
    bool_decide (ak_account_user_id r = account_user_id)) (api_keys db)).

Definition get_api_key (account_user_id key_id : string) (db : Db) : result ApiKeyError ApiKeyPublic :=
  let? r := ok_or KeyNotFound (owned_key account_user_id key_id db) in
  Ok (public_key key_id r).

Definition update_api_key (account_user_id key_id : string) (params : UpdateApiKeyParams) (db : Db)
    : result ApiKeyError (ApiKeyPublic * Db) :=
  guard? negb (negative_limit (default None (ukp_credit_limit params))) else InvalidCreditLimit in
  guard? match ukp_name params with
         | Some (Some n) => negb (is_empty (trim n) || too_long n)
         | _ => true
         end else InvalidName in
  let? _ := ok_or KeyNotFound (owned_key account_user_id key_id db) in
  let db := match ukp_name params with
            | Some change => update_key (fun r => ak_set (trim <$> change) (ak_credit_limit r)
                (ak_disabled r) (ak_last_used_at r) r) key_id db
            | None => db
            end in
  let db := match ukp_credit_limit params with
            | Some change => update_key (fun r => ak_set (ak_name r) change (ak_disabled r)
                (ak_last_used_at r) r) key_id db
            | None => db
            end in
  let db := match ukp_disabled params with
            | Some d => update_key (fun r => ak_set (ak_name r) (ak_credit_limit r)
                (if d then 1 else 0) (ak_last_used_at r) r) key_id db
            | None => db
            end in
  let? public := get_api_key account_user_id key_id db in
  Ok (public, db).

(** The row stays for the history of the ledger; a deleted key is disabled. *)
Definition delete_api_key (account_user_id key_id : string) (db : Db) : result ApiKeyError Db :=
  let? _ := ok_or KeyNotFound (owned_key account_user_id key_id db) in
  Ok (update_key (fun r => ak_set (ak_name r) (ak_credit_limit r) 1 (ak_last_used_at r) r) key_id db).

Definition touch_last_used (now : Z) (key_id : string) (db : Db) : Db :=
  update_key (fun r => ak_set (ak_name r) (ak_credit_limit r) (ak_disabled r) (Some now) r) key_id db.

Section Hashed.
Context (hash_token : string -> string).

Definition create_api_key (key_id secret : string) (now : Z) (account_user_id : string)
    (params : CreateApiKeyParams) (db : Db) : result ApiKeyError (ApiKeyMinted * Db) :=
  let role := default Live (ckp_role params) in
  guard? negb (negative_limit (ckp_credit_limit params)) else InvalidCreditLimit in
  let name := normalized_optional_string (ckp_name params) in
  guard? match name with Some n => negb (too_long n) | None => true end else InvalidName in
  let token := random_token secret role in
  let prefix := display_prefix token in
  let? db := map_err KeyDb (insert_api_key key_id (mkApiKeyRow account_user_id (hash_token token)
    prefix name (role_as_str role) (ckp_credit_limit params) 0 0 now None) db) in
  Ok (mkApiKeyMinted (mkApiKeyPublic key_id account_user_id prefix name role
        (ckp_credit_limit params) 0 false now None) token, db).

Definition resolve_api_key (token : string) (db : Db) : option ResolvedApiKey :=
  if negb (looks_like_api_key token) then None
  else
    '(key_id, r) ← select_one (fun _ r => bool_decide (ak_key_hash r = hash_token token)) (api_keys db);
    role ← role_parse (ak_role r);
    Some (mkResolvedApiKey key_id (ak_account_user_id r) role (ak_credit_limit r)
            (ak_usage_credits r) (negb (ak_disabled r =? 0))).

(** ** Lemmas *)

(** No two keys have the same hash. *)
Definition key_hashes_unique (db : Db) : Prop :=
  forall i j r s, api_keys db !! i = Some r -> api_keys db !! j = Some s ->
  ak_key_hash r = ak_key_hash s -> i = j.

Lemma role_parse_as_str r : role_parse (role_as_str r) = Some r.
Proof. by destruct r. Qed.

Lemma random_token_recognized secret role : looks_like_api_key (random_token secret role) = true.
Proof. by destruct role. Qed.

Lemma resolve_lookup token key_id r role db :
  key_hashes_unique db -> looks_like_api_key token = true -> api_keys db !! key_id = Some r ->
  ak_key_hash r = hash_token token -> role_parse (ak_role r) = Some role ->
  resolve_api_key token db = Some (mkResolvedApiKey key_id (ak_account_user_id r) role
    (ak_credit_limit r) (ak_usage_credits r) (negb (ak_disabled r =? 0))).
Proof.
  intros Hu Hl Hk Hh Hr. unfold resolve_api_key. rewrite Hl. cbn [negb].
  rewrite (select_one_unique _ _ key_id r); [|done|by rewrite Hh, bool_decide_true|].
  - simpl. by rewrite Hr.
  - intros j w Hj Hw. apply bool_decide_eq_true in Hw. apply (Hu j key_id w r); congruence.
Qed.

Lemma resolve_other token db db' :
  key_hashes_unique db' ->
  (forall k r, ak_key_hash r = hash_token token -> api_keys db' !! k = Some r <-> api_keys db !! k = Some r) ->
  resolve_api_key token db' = resolve_api_key token db.
Proof.
  intros Hu Hsame. unfold resolve_api_key. destruct (negb _); [done|].
  set (p := fun (_ : string) r => bool_decide (ak_key_hash r = hash_token token)).
  assert (select_one p (api_keys db') = select_one p (api_keys db)) as ->; [|done].
  destruct (select_one p (api_keys db)) as [[k r]|] eqn:E.
  - apply select_one_Some in E as [Hk Hp]. apply bool_decide_eq_true in Hp as Hh.
    apply select_one_unique; [by apply Hsame|done|]. intros j w Hj Hw. apply bool_decide_eq_true in Hw.
    apply (Hu j k w r); [done|by apply Hsame|congruence].
  - destruct (select_one p (api_keys db')) as [[k r]|] eqn:E'; [|done]. exfalso.
    apply select_one_Some in E' as [Hk Hp]. apply bool_decide_eq_true in Hp as Hh.
    apply Hsame in Hk; [|done]. pose proof (select_one_None _ _ E k r Hk) as Hn.
    cbv beta in Hn. by rewrite Hp in Hn.
Qed.

Lemma insert_api_key_Ok key_id r db db' :
  insert_api_key key_id r db = Ok db' ->
  api_keys db !! key_id = None /\ is_Some (account_wallets db !! ak_account_user_id r) /\
  db' = set_api_keys (<[key_id := r]> (api_keys db)) db /\
  (key_hashes_unique db -> key_hashes_unique db').
Proof.
  unfold insert_api_key. destruct (has key_id _) eqn:Hk; [done|]. cbn [negb].
  destruct (unique_for _ _ _ _) eqn:Hu; [|done].
  destruct (has (ak_account_user_id r) _) eqn:Ha; [|done]. intros [= <-].
  apply has_true in Ha. unfold unique_for in Hu. apply bool_decide_eq_true in Hu.
  split_and!; [unfold has in Hk; by destruct (api_keys db !! key_id) | done | done |].
  intros Hwf i j r1 r2. simpl.
  assert (forall k w, api_keys db !! k = Some w -> ak_key_hash w = ak_key_hash r -> k = key_id) as Hnew.
  { intros k w Hw Hh. destruct (Hu k w Hw) as [->|Hne]; [done|]. by rewrite Hh in Hne. }
  destruct (decide (i = key_id)) as [->|Hi], (decide (j = key_id)) as [->|Hj];
    rewrite ?lookup_insert_eq, ?lookup_insert_ne by done; try done.
  - intros [= <-] H2 Hh. by apply Hnew in H2.
  - intros H1 [= <-] Hh. by apply Hnew in H1.
  - apply Hwf.
Qed.

(** Updates of a key that keep its hash. *)
Lemma update_key_hashes f key_id db :
  (forall r, ak_key_hash (f r) = ak_key_hash r) -> key_hashes_unique db ->
  key_hashes_unique (update_key f key_id db).
Proof.
  intros Hf Hu i j r s Hr Hs Hh.
  assert (forall k w, api_keys (update_key f key_id db) !! k = Some w ->
    exists w0, api_keys db !! k = Some w0 /\ ak_key_hash w = ak_key_hash w0) as Hback.
  { intros k w Hw. simpl in Hw. destruct (decide (key_id = k)) as [<-|Hne].
    - rewrite lookup_alter_eq in Hw. destruct (api_keys db !! key_id) as [w0|]; [|done].
      injection Hw as <-. eauto.
    - rewrite lookup_alter_ne in Hw by done. eauto. }
  destruct (Hback i r Hr) as (r0 & H1 & E1), (Hback j s Hs) as (s0 & H2 & E2).
  apply (Hu i j r0 s0); congruence.
Qed.

(** ** Claims *)

(** the life of an API key: a key is created only for an existing account;
    its token then resolves to that key, account and role with the whole
    limit left, and the tokens of the other keys resolve as before; another
    account can neither change nor delete it; once its owner deletes it, its
    token resolves to a disabled key, and it keeps its usage. *)
Theorem api_key_lifecycle key_id secret now a params db m db' :
  key_hashes_unique db -> in_i64 (default 0 (ckp_credit_limit params)) ->
  create_api_key key_id secret now a params db = Ok (m, db') ->
  let limit := ckp_credit_limit params in
  let role := default Live (ckp_role params) in
  let key disabled := mkResolvedApiKey key_id a role limit 0 disabled in
  is_Some (account_wallets db !! a) /\ key_hashes_unique db' /\ same_money db db' /\
  resolve_api_key (akm_token m) db' = Some (key false) /\ remaining_credit_limit (key false) = limit /\
  (forall t, hash_token t <> hash_token (akm_token m) -> resolve_api_key t db' = resolve_api_key t db) /\
  (forall b, b <> a -> delete_api_key b key_id db' = Err KeyNotFound /\
     forall change p db'', update_api_key b key_id change db' <> Ok (p, db'')) /\
  exists db'', delete_api_key a key_id db' = Ok db'' /\
    resolve_api_key (akm_token m) db'' = Some (key true).
Proof.
  intros Hu Hrange H. cbv zeta. unfold create_api_key in H.
  destruct (negative_limit _) eqn:Hneg; [done|]. cbn [negb] in H.
  destruct (match normalized_optional_string _ with Some n => _ | None => _ end); [|done].
  destruct (insert_api_key _ _ _) as [db1|] eqn:E; [|done]. injection H as <- <-. cbn [akm_token].
  set (role := default Live (ckp_role params)) in *.
  apply insert_api_key_Ok in E as (Hfresh & Ha & -> & Hu'). specialize (Hu' Hu). set (db1 := set_api_keys _ db) in *.
  set (r := mkApiKeyRow _ _ _ _ _ _ _ _ _ _) in *.
  assert (api_keys db1 !! key_id = Some r) as Hr by apply lookup_insert_eq.
  assert (forall b, b <> a -> owned_key b key_id db1 = None) as Hown.
  { intros b Hb. unfold owned_key. rewrite Hr. simpl. by rewrite bool_decide_false. }
  split; [done|]. split; [done|]. split; [done|]. split.
  { by rewrite (resolve_lookup _ key_id r role) by (done || apply random_token_recognized || apply role_parse_as_str). }
  split.
  { unfold remaining_credit_limit. simpl. destruct (ckp_credit_limit params) as [l|]; [|done]. simpl in *.
    apply Z.ltb_ge in Hneg. rewrite i64_sub_id by (rewrite Z.sub_0_r; done). f_equal. lia. }
  split.
  { intros t Ht. apply resolve_other; [done|]. intros k w Hw. simpl.
    destruct (decide (k = key_id)) as [->|Hk]; [|by rewrite lookup_insert_ne].
    rewrite lookup_insert_eq, Hfresh. split; [|done]. intros [= <-]. by destruct Ht. }
  split.
  { intros b Hb. unfold delete_api_key, update_api_key. rewrite (Hown b Hb). split; [done|].
    intros change p db2. destruct (negb (negative_limit _)); [|done].
    by destruct (match ukp_name change with Some (Some n) => _ | _ => _ end). }
  unfold delete_api_key, owned_key. rewrite Hr. simpl. rewrite bool_decide_true by done.
  eexists. split; [reflexivity|]. set (f := fun r => ak_set _ _ 1 _ r).
  erewrite (resolve_lookup _ key_id (f r) role); [done| by apply update_key_hashes
    | apply random_token_recognized | simpl; by rewrite lookup_alter_eq, lookup_insert_eq | done
    | apply role_parse_as_str].
Qed.
End Hashed.

(** An account and nothing else; the identity stands for the hash. *)
Definition one_account : Db :=
  set_account_wallets {["ann" := mkAccountWalletRow None None None None 0 0 1 1 None 0 0 0]} empty_db.

Lemma api_key_lifecycle_witness :
  exists m db', create_api_key id "key" "c0ffee" 7 "ann" (mkCreateApiKeyParams None None (Some 500)) one_account
    = Ok (m, db') /\
  resolve_api_key id "tk_live_c0ffee" db' = Some (mkResolvedApiKey "key" "ann" Live (Some 500) 0 false).
Proof.
  destruct (create_api_key id "key" "c0ffee" 7 "ann" (mkCreateApiKeyParams None None (Some 500)) one_account)
    as [[m db']|] eqn:E; [|vm_compute in E; discriminate E].
  exists m, db'. split; [reflexivity|].
  assert (akm_token m = "tk_live_c0ffee") as <- by (vm_compute in E; injection E as <- _; reflexivity).
  eapply (api_key_lifecycle id "key" "c0ffee" 7 "ann" (mkCreateApiKeyParams None None (Some 500)) one_account).
  - intros i j r s Hr. vm_compute in Hr. discriminate Hr.
  - split; vm_compute; congruence.
  - exact E.
Defined.
