(* ===== verification/Fixtures.v ===== *)
(** * A small concrete ledger

    Three devices, one account with a linked device and an API key, one
    centralized provider, one share key with two funders and one older key
    that is not yet funded: the state on which the theorems of the component
    files are instantiated.  It is built by running the operations themselves
    on a fresh database; only the account's Solana address is set by hand. *)

From S2P Require Import Prelude Db RustStr Wallet ShareKeys Settlement Accounts Providers ApiKeys.

Open Scope string_scope.
Open Scope Z_scope.

(** Runs a closed computation that must succeed. *)
Ltac run_ok r :=
  let E := fresh "Erun" in destruct r as [[? ?]|?] eqn:E; [|vm_compute in E; discriminate E].
Ltac run_ok1 r :=
  let E := fresh "Erun" in destruct r as [?|?] eqn:E; [|vm_compute in E; discriminate E].
(** Decides a closed decidable proposition. *)
Ltac decided := apply (bool_decide_unpack _); vm_compute; exact I.

Definition genesis : Db := seed_mint_pool empty_db.

Definition no_metadata : AccountLinkMetadata := mkAccountLinkMetadata None None None None None None.

Definition demo_devices : Db :=
  let db := (upsert_device 10 "alice" genesis).2 in
  let db := (upsert_device 11 "bob" db).2 in
  let db := (upsert_device 12 "carol" db).2 in
  let db := commit (admin_mint 20 "alice" 1000000 "seed" db) db in
  commit (admin_mint 21 "bob" 5000 "seed" db) db.

Definition ann : string := "email:ann@example.org".

Definition demo_account : Db :=
  let db := default demo_devices (link_device_to_account 30 "alice" ann
    (mkAccountLinkMetadata None None None (Some "+1 (555) 010") (Some "Ann@Example.org") None)
    demo_devices) in
  let db := commit (record_account_bonus 31 ann 400000 None "seed" db) db in
  let db := update_account (fun r => mkAccountWalletRow (aw_display_name r) (aw_phone r) (aw_email r)
    (aw_github_username r) (aw_balance_credits r) (aw_usdc_cents r) (aw_created_at r)
    (aw_updated_at r) (Some "SoLaNa") 1 (aw_deposited_usdc_cents_total r)
    (aw_withdrawn_usdc_cents_total r)) ann db in
  let db := commit (create_api_key id "key" "secret" 32 ann
    (mkCreateApiKeyParams None None (Some 1000)) db) db in
  commit_unit (upsert_provider 33 "acme" "acme" "Acme" "https://acme.example" Openai "Authorization"
    "ACME_KEY" "deny" true None db) db.

Definition demo : Db :=
  let db := commit (mint_share_key (mkMintIds "sk" "fund" "tok" "c1") 40 "alice" None 3600 900
    demo_account) demo_account in
  commit (transfer_to_share_key "c2" 41 "bob" "fund" 101 db) db.

(** Keys from before pools existed: [issuer] minted one with 700 credits. *)
Definition demo_legacy (issuer : string) : Db :=
  set_share_keys (<["old" := mkShareKeyRow "tok2" issuer None 5000 700 0 5 None 0 None None]>
    (share_keys demo)) demo.

Lemma demo_solvent : solvent demo.
Proof. decided. Defined.

Lemma demo_supply : supply demo = 1405000.
Proof. vm_compute. reflexivity. Qed.
