(* ===== verification/WalletFacts.v ===== *)
(** * Device wallets: correctness

    The login tokens of a device, the bounds of an operator mint, and what the
    solvency report counts. *)

From S2P Require Import Prelude Db RustStr Wallet Accounts Fixtures.

Open Scope string_scope.
Open Scope Z_scope.

(** a device challenge can be answered once, within its five minutes, by the
    device and nonce it was made for; the token issued afterwards resolves to
    that device until its day is over and never after. *)
Theorem device_login now d nonce token db :
  0 <= now <= 2 ^ 62 -> is_Some (devices db !! d) -> tokens db !! token = None ->
  let '(expires, db1) := create_challenge now d nonce db in
  expires = now + CHALLENGE_TTL_SECONDS /\
  (forall later, (consume_challenge later d nonce db1).1 = (later <? expires)) /\
  (forall later again, later < expires ->
     (consume_challenge again d nonce (consume_challenge later d nonce db1).2).1 = false) /\
  exists db2, issue_token now d token db1 = Ok (now + TOKEN_TTL_SECONDS, db2) /\
    forall later, resolve_token later token db2 = (if later <? now + TOKEN_TTL_SECONDS then Some d else None).
Proof.
  intros Hnow [r Hd] Ht. unfold create_challenge.
  assert (i64_add now CHALLENGE_TTL_SECONDS = now + CHALLENGE_TTL_SECONDS) as ->
    by (apply i64_add_id; unfold CHALLENGE_TTL_SECONDS; range).
  split; [done|]. split; [|split].
  - intros later. unfold consume_challenge. simpl. by rewrite lookup_insert_eq.
  - intros later again Hl. unfold consume_challenge at 2. simpl. rewrite lookup_insert_eq.
    rewrite (proj2 (Z.ltb_lt _ _) Hl). unfold consume_challenge. simpl. by rewrite lookup_delete_eq.
  - unfold issue_token.
    assert (i64_add now TOKEN_TTL_SECONDS = now + TOKEN_TTL_SECONDS) as ->
      by (apply i64_add_id; unfold TOKEN_TTL_SECONDS; range).
    unfold has. cbn [set_challenges tokens devices]. rewrite Ht, Hd. cbn [negb].
    eexists. split; [reflexivity|]. intros later. unfold resolve_token. simpl. by rewrite lookup_insert_eq.
Qed.

Lemma device_login_witness :
  (consume_challenge 299 "alice" "n" (create_challenge 0 "alice" "n" demo).2).1 = true.
Proof.
  assert (is_Some (devices demo !! "alice")) as Hd by (vm_compute; eexists; reflexivity).
  assert (tokens demo !! "t" = None) as Ht by (vm_compute; reflexivity).
  pose proof (device_login 0 "alice" "n" "t" demo ltac:(lia) Hd Ht) as H.
  destruct H as (_ & H & _). rewrite H. vm_compute. reflexivity.
Defined.

(** The liabilities of the solvency report are the device wallets other than
    the operator's and the account wallets: the whole supply less the
    operator's wallet, the provider wallets and the share-key pools. *)
Theorem solvency_liabilities_omit db :
  let l := solvency_liabilities db in
  sl_device_credits l + sl_account_credits l =
  supply db - balance_of OPS db - provider_credits db - pool_credits db.
Proof.
  cbv zeta. unfold solvency_liabilities. cbn [sl_device_credits sl_account_credits].
  pose proof (map_sum_filter_split bal_balance OPS (balances db)) as E.
  change (default 0 (bal_balance <$> balances db !! OPS)) with (balance_of OPS db) in E.
  unfold supply, device_credits, account_credits. lia.
Qed.
