(* ===== verification/ProRata.v ===== *)
(** * Pro-rata spending of a share-key pool

    The largest-remainder apportionment of
    [apply_pro_rata_share_key_spend_tx]: the reductions add up to the spend to
    the credit, no contribution is overdrawn, and each is within one credit of
    its exact share.  The last part lifts this to the database: the pool of
    the key loses exactly the spend and nothing else changes. *)

From S2P Require Import Prelude Db RustStr Wallet ShareKeys Fixtures.
From stdpp Require Import sorting.
From Stdlib Require String.

Open Scope Z_scope.

Definition remaining_of (c : string * ContributionRow) : Z := skc_remaining_credits c.2.

(** ** Handing out the leftover *)

Lemma hand_out_lookup order (n : nat) reds i :
  NoDup order ->
  hand_out order (Z.of_nat n) reds !! i =
  if decide (i ∈ take n order) then bump <$> reds !! i else reds !! i.
Proof.
  revert n reds. induction order as [|j order IH]; intros n reds Hnd; cbn [hand_out].
  - rewrite take_nil, decide_False by apply not_elem_of_nil. done.
  - inversion Hnd as [|? ? Hj Hnd']; subst. destruct n as [|n]; cbn [take].
    + by rewrite decide_False by apply not_elem_of_nil.
    + rewrite (proj2 (Z.eqb_neq _ _)) by lia.
      replace (Z.of_nat (S n) - 1) with (Z.of_nat n) by lia.
      rewrite (IH n) by done. destruct (decide (j = i)) as [->|Hne].
      * rewrite list_lookup_alter_eq, decide_False; [by rewrite decide_True by set_solver|].
        intros (k & Hk & _)%elem_of_take. by apply Hj, (list_elem_of_lookup_2 _ k).
      * rewrite list_lookup_alter_ne by done.
        destruct (decide (i ∈ take n order)) as [Hin|Hin];
          [by rewrite decide_True by (by right) |].
        rewrite decide_False; [done|]. by intros [?|?]%elem_of_cons.
Qed.

Lemma zsum_alter_bump reds i r :
  reds !! i = Some r -> in_i64 (red_take r + 1) ->
  zsum (red_take <$> alter bump i reds) = zsum (red_take <$> reds) + 1.
Proof.
  revert i. induction reds as [|x reds IH]; intros [|i] Hi Hr; simplify_eq/=.
  - rewrite i64_add_id by done. lia.
  - specialize (IH _ Hi Hr). change (list_alter bump i reds) with (alter bump i reds). lia.
Qed.

Lemma zsum_hand_out order (n : nat) reds :
  NoDup order -> (n <= length order)%nat ->
  (forall i, i ∈ take n order -> exists r, reds !! i = Some r /\ in_i64 (red_take r + 1)) ->
  zsum (red_take <$> hand_out order (Z.of_nat n) reds) = zsum (red_take <$> reds) + Z.of_nat n.
Proof.
  revert n reds. induction order as [|j order IH]; intros n reds Hnd Hn Hr; simpl.
  - simpl in Hn. replace n with 0%nat by lia. lia.
  - inversion Hnd as [|? ? Hj Hnd']; subst. destruct n as [|n]; simpl; [lia|].
    replace (Z.of_nat (S n) - 1) with (Z.of_nat n) by lia.
    destruct (Hr j) as (r & Hjr & Hrange); [by left|].
    rewrite IH; [| done | simpl in Hn; lia |].
    + rewrite (zsum_alter_bump _ _ r) by done. lia.
    + intros i Hi. destruct (Hr i) as (ri & Hri & ?); [by right|]. exists ri.
      rewrite list_lookup_alter_ne; [done|]. intros ->.
      apply elem_of_take in Hi as (k & Hk & _). by apply Hj, (list_elem_of_lookup_2 _ k).
Qed.

Lemma length_hand_out order L reds : length (hand_out order L reds) = length reds.
Proof.
  revert L reds. induction order as [|j order IH]; intros L reds; simpl; [done|].
  destruct (L =? 0); [done|]. by rewrite IH, length_alter.
Qed.

(** ** The ranking *)

#[local] Instance ranks_before_total : Total ranks_before.
Proof.
  intros a b. unfold ranks_before.
  destruct (Z.lt_trichotomy (red_remainder a.2) (red_remainder b.2)) as [?|[Hr|?]]; [by auto| |by auto].
  destruct (Z.lt_trichotomy (red_created_at a.2) (red_created_at b.2)) as [?|[Hc|?]];
    [by auto 6| |by auto 6].
  destruct (String.leb_total (red_id a.2) (red_id b.2)); [left | right]; right; split;
    (lia || (right; split; (lia || done))).
Qed.

Lemma ranks_before_trans : Transitive ranks_before.
Proof.
  intros a b c. unfold ranks_before.
  intros [?|(? & [?|[? H1]])] [?|(? & [?|[? H2]])]; try (left; lia); try (right; split; lia).
  right. split; [lia|]. right. split; [lia|]. apply Is_true_true.
  apply Is_true_true in H1, H2. exact (transitivity (R := String.le) H1 H2).
Qed.

Lemma Sorted_weaken {A} (R R' : relation A) l :
  (forall a b, R a b -> R' a b) -> Sorted R l -> Sorted R' l.
Proof.
  intros HR. induction 1 as [|a l Hs IH Hd]; constructor; [done|].
  inversion Hd; constructor; auto.
Qed.

(** In a list sorted by decreasing key, a prefix no longer than the number of
    positive keys has only positive keys. *)
Lemma sorted_prefix_positive {A} (key : A -> Z) l (n : nat) :
  StronglySorted (fun a b => key b <= key a) l ->
  (n <= length (filter (fun a => (0 < key a)%Z) l))%nat ->
  Forall (fun a => 0 < key a) (take n l).
Proof.
  intros Hs. revert n. induction Hs as [|a l Hs IH Ha]; intros n Hn.
  { rewrite take_nil. constructor. }
  destruct n as [|n]; [constructor|]. simpl.
  destruct (decide (0 < key a)) as [Hpos|Hpos].
  - constructor; [done|]. apply IH. rewrite filter_cons_True in Hn by done. simpl in Hn. lia.
  - rewrite filter_cons_False in Hn by done.
    replace (filter (fun a => 0 < key a) l) with (@nil A) in Hn; [simpl in Hn; lia|].
    symmetry. clear -Ha Hpos. induction l as [|b l IH]; [done|].
    inversion Ha; subst. rewrite filter_cons_False by lia. by apply IH.
Qed.

(** ** The arithmetic of the shares *)

Section Shares.
Variables (s T : Z).
Hypothesis (Hs : 0 <= s) (HT : 0 < T).

Lemma reduction_of_spec c :
  0 < remaining_of c ->
  red_take (reduction_of s T c) = s * remaining_of c / T /\
  red_remainder (reduction_of s T c) = (s * remaining_of c) mod T.
Proof.
  unfold remaining_of. intros Hc. simpl. split.
  - apply Z.quot_div_nonneg; nia.
  - apply Z.rem_mod_nonneg; nia.
Qed.

Lemma shares_sum cs :
  Forall (fun c => 0 < remaining_of c) cs ->
  zsum (red_take <$> (reduction_of s T <$> cs)) * T +
  zsum (red_remainder <$> (reduction_of s T <$> cs)) = s * zsum (remaining_of <$> cs).
Proof.
  induction 1 as [|c cs Hc _ IH]; [simpl; lia|].
  rewrite !fmap_cons, !zsum_cons.
  destruct (reduction_of_spec c Hc) as [-> ->].
  pose proof (Z_div_mod_eq_full (s * remaining_of c) T). lia.
Qed.

Lemma remainders_bound cs :
  Forall (fun c => 0 < remaining_of c) cs ->
  let reds := reduction_of s T <$> cs in
  0 <= zsum (red_remainder <$> reds) <=
  (T - 1) * Z.of_nat (length (filter (fun r => 0 < red_remainder r) reds)).
Proof.
  induction 1 as [|c cs Hc _ IH]; [simpl; lia|]. cbv zeta in *.
  rewrite !fmap_cons, !zsum_cons.
  destruct (reduction_of_spec c Hc) as [_ Hr].
  pose proof (Z.mod_pos_bound (s * remaining_of c) T HT) as Hm. rewrite <-Hr in Hm.
  destruct (decide (0 < red_remainder (reduction_of s T c))) as [Hp|Hp].
  - rewrite filter_cons_True by done. simpl length. lia.
  - rewrite filter_cons_False by done. lia.
Qed.

End Shares.

Lemma length_filter_snd {A} (P : A -> Prop) `{!forall x, Decision (P x)} (l : list (nat * A)) :
  length (filter (fun p => P p.2) l) = length (filter P l.*2).
Proof.
  induction l as [|x l IH]; [done|]. rewrite fmap_cons, !filter_cons.
  destruct (decide (P x.2)); simpl; by rewrite IH.
Qed.

Lemma snd_imap_pair {A} (l : list A) : (imap pair l).*2 = l.
Proof.
  rewrite fmap_imap, (imap_ext _ (const id)) by done. by rewrite imap_const, list_fmap_id.
Qed.

Lemma fst_imap_pair {A} (l : list A) : (imap pair l).*1 = seq 0 (length l).
Proof.
  rewrite fmap_imap, <-(list_fmap_id (seq 0 (length l))), <-(imap_seq_0 l id).
  by apply imap_ext.
Qed.

(** ** The apportionment is exact *)

Section Exact.
Variables (s : Z) (cs : list (string * ContributionRow)).
Hypothesis (Hpos : Forall (fun c => 0 < remaining_of c) cs).
Let T : Z := zsum (remaining_of <$> cs).
Hypothesis (Hs : 0 < s <= T) (HT : T <= i64_max).
Let base : list Reduction := reduction_of s T <$> cs.
Let order : list nat := fst <$> merge_sort ranks_before (imap pair base).
Let leftover : Z := s - zsum (red_take <$> base).

Lemma cs_pos c : c ∈ cs -> 0 < remaining_of c.
Proof. pose proof Hpos as H. rewrite Forall_forall in H. apply H. Qed.

Lemma base_take_bounds c : c ∈ cs -> 0 <= red_take (reduction_of s T c) <= remaining_of c.
Proof.
  intros Hc. pose proof (cs_pos c Hc) as Hc0.
  destruct (reduction_of_spec s T ltac:(lia) ltac:(lia) c Hc0) as [-> _]. split.
  - apply Z.div_pos; nia.
  - apply Z.div_le_upper_bound; nia.
Qed.

Lemma remaining_le_total c : c ∈ cs -> remaining_of c <= T.
Proof.
  unfold T. clear Hs HT base order leftover T. induction cs as [|d l IH]; [by intros ?%not_elem_of_nil|].
  inversion Hpos as [|? ? Hd Hl]; subst. rewrite fmap_cons, zsum_cons.
  assert (0 <= zsum (remaining_of <$> l)).
  { apply zsum_nonneg, Forall_fmap. apply (Forall_impl _ _ _ Hl). simpl. lia. }
  intros [->|Hin]%elem_of_cons; [lia|]. specialize (IH Hl Hin). lia.
Qed.

Lemma leftover_spec :
  leftover * T = zsum (red_remainder <$> base) /\ 0 <= leftover /\
  (Z.to_nat leftover <= length (filter (fun r => (0 < red_remainder r)%Z) base))%nat.
Proof.
  pose proof (shares_sum s T ltac:(lia) ltac:(lia) cs Hpos) as Hsum.
  pose proof (remainders_bound s T ltac:(lia) ltac:(lia) cs Hpos) as Hb. cbv zeta in Hb.
  fold base T in Hsum, Hb. unfold leftover.
  set (P := length _) in *. split; [lia|]. split; [nia|].
  enough (s - zsum (red_take <$> base) <= Z.of_nat P) by lia. nia.
Qed.

Lemma order_perm : order ≡ₚ seq 0 (length base).
Proof. unfold order. rewrite merge_sort_Permutation, fst_imap_pair. done. Qed.

Lemma order_NoDup : NoDup order.
Proof. rewrite order_perm. apply NoDup_seq. Qed.

(** Only contributions with a positive remainder get an extra credit. *)
Lemma bumped_positive i r :
  i ∈ take (Z.to_nat leftover) order -> base !! i = Some r -> 0 < red_remainder r.
Proof.
  intros Hi Hr. unfold order in Hi. rewrite <-fmap_take in Hi.
  apply list_elem_of_fmap in Hi as ([j r'] & -> & Hj). simpl in Hr.
  assert (Forall (fun p : nat * Reduction => 0 < red_remainder p.2)
            (take (Z.to_nat leftover) (merge_sort ranks_before (imap pair base)))) as HF.
  { apply (sorted_prefix_positive (fun p : nat * Reduction => red_remainder p.2)).
    - apply Sorted_StronglySorted; [intros a b c; simpl; lia|].
      eapply Sorted_weaken; [|apply (Sorted_merge_sort _)].
      unfold ranks_before. intros a b. lia.
    - etrans; [apply leftover_spec|]. rewrite merge_sort_Permutation.
      rewrite <-(snd_imap_pair base) at 1. by rewrite <-length_filter_snd. }
  rewrite Forall_forall in HF. specialize (HF _ Hj). simpl in HF.
  apply elem_of_take in Hj as (k & Hk & _). apply list_elem_of_lookup_2 in Hk.
  rewrite merge_sort_Permutation in Hk. apply elem_of_lookup_imap in Hk as (i & x & [= -> ->] & Hx).
  by simplify_eq.
Qed.

(** A positive remainder leaves room for the extra credit. *)
Lemma bumped_below c :
  c ∈ cs -> 0 < red_remainder (reduction_of s T c) ->
  red_take (reduction_of s T c) < remaining_of c.
Proof.
  intros Hc. pose proof (cs_pos c Hc) as Hc0.
  destruct (reduction_of_spec s T ltac:(lia) ltac:(lia) c Hc0) as [-> ->].
  intros Hr. pose proof (Z_div_mod_eq_full (s * remaining_of c) T). nia.
Qed.

Lemma zsum_base_bounds : 0 <= zsum (red_take <$> base) <= s.
Proof.
  destruct leftover_spec as (_ & Hl & _). unfold leftover in Hl. split; [|lia].
  apply zsum_nonneg, Forall_fmap, Forall_fmap, Forall_forall.
  intros c Hc. apply base_take_bounds in Hc. simpl in *. lia.
Qed.

Lemma pro_rata_eq :
  pro_rata_reductions s cs = hand_out order (Z.of_nat (Z.to_nat leftover)) base.
Proof.
  destruct leftover_spec as (_ & Hl & _). pose proof zsum_base_bounds as Hb.
  unfold pro_rata_reductions.
  assert (Forall (fun x => 0 <= x) (remaining_of <$> cs)) as Hnn.
  { apply Forall_fmap. apply (Forall_impl _ _ _ Hpos). simpl. lia. }
  change (fun c => skc_remaining_credits c.2) with remaining_of.
  rewrite foldl_i64_add by (done || lia). rewrite Z.add_0_l. fold T.
  rewrite Z.min_l by lia. fold base.
  rewrite foldl_i64_add, Z.add_0_l; [| | lia | lia].
  - rewrite i64_sub_id by range. fold leftover. rewrite Z2Nat.id by done.
    destruct (Z.ltb_spec 0 leftover) as [|Hle]; [done|].
    replace leftover with 0 by lia. unfold order. by destruct (merge_sort _ _).*1.
  - apply Forall_fmap, Forall_fmap, Forall_forall.
    intros c Hc. apply base_take_bounds in Hc. simpl in *. lia.
Qed.

Lemma pro_rata_exact_sum : zsum (red_take <$> pro_rata_reductions s cs) = s.
Proof.
  destruct leftover_spec as (_ & Hl & Hcount). rewrite pro_rata_eq, zsum_hand_out.
  - rewrite Z2Nat.id by done. unfold leftover. lia.
  - apply order_NoDup.
  - rewrite (Permutation_length order_perm), length_seq. etrans; [exact Hcount|].
    apply length_filter.
  - intros i Hi. assert (i ∈ order) as Hi'.
    { apply elem_of_take in Hi as (k & Hk & _). by apply (list_elem_of_lookup_2 _ k). }
    rewrite order_perm in Hi'. apply elem_of_seq in Hi' as [_ Hi'].
    destruct (lookup_lt_is_Some_2 base i Hi') as [r Hr]. exists r. split; [done|].
    pose proof (bumped_positive i r Hi Hr) as Hrem.
    unfold base in Hr. apply list_lookup_fmap_Some in Hr as (c & -> & Hc).
    apply list_elem_of_lookup_2 in Hc.
    pose proof (bumped_below c Hc Hrem). pose proof (remaining_le_total c Hc).
    pose proof (base_take_bounds c Hc). range.
Qed.

(** Contribution by contribution: between zero and what is left of it, and at
    most one credit above its exact share rounded down. *)
Lemma pro_rata_each i c r :
  cs !! i = Some c -> pro_rata_reductions s cs !! i = Some r ->
  0 <= red_take r <= remaining_of c /\
  s * remaining_of c / T <= red_take r <= s * remaining_of c / T + 1.
Proof.
  intros Hc. rewrite pro_rata_eq, (hand_out_lookup _ _ _ _ order_NoDup).
  assert (base !! i = Some (reduction_of s T c)) as Hb.
  { unfold base. apply list_lookup_fmap_Some. eauto. }
  pose proof (list_elem_of_lookup_2 _ _ _ Hc) as Hin.
  pose proof (base_take_bounds c Hin) as Hbb. pose proof (remaining_le_total c Hin).
  pose proof (cs_pos c Hin) as Hcpos.
  destruct (reduction_of_spec s T ltac:(lia) ltac:(lia) c Hcpos) as [Htake _].
  destruct (decide _) as [Hd|Hd]; rewrite Hb; simpl; intros [= <-]; [|lia].
  pose proof (bumped_below c Hin (bumped_positive i _ Hd Hb)) as Hlt.
  simpl red_take in *. rewrite i64_add_id by range. lia.
Qed.

(** The identifiers go with the contributions. *)
Lemma pro_rata_ids i c r :
  cs !! i = Some c -> pro_rata_reductions s cs !! i = Some r -> red_id r = c.1.
Proof.
  intros Hc. rewrite pro_rata_eq, (hand_out_lookup _ _ _ _ order_NoDup).
  assert (base !! i = Some (reduction_of s T c)) as ->.
  { unfold base. apply list_lookup_fmap_Some. eauto. }
  case_decide; simpl; by intros [= <-].
Qed.

(** Exactly the first [leftover] contributions of the ranking give one credit
    more than their share rounded down. *)
Lemma pro_rata_takes i c r :
  cs !! i = Some c -> pro_rata_reductions s cs !! i = Some r ->
  if decide (i ∈ take (Z.to_nat leftover) order)
  then red_take r = s * remaining_of c / T + 1 /\ 0 < (s * remaining_of c) mod T
  else red_take r = s * remaining_of c / T.
Proof.
  intros Hc. rewrite pro_rata_eq, (hand_out_lookup _ _ _ _ order_NoDup).
  assert (base !! i = Some (reduction_of s T c)) as Hb.
  { unfold base. apply list_lookup_fmap_Some. eauto. }
  pose proof (list_elem_of_lookup_2 _ _ _ Hc) as Hin.
  pose proof (base_take_bounds c Hin). pose proof (remaining_le_total c Hin).
  pose proof (cs_pos c Hin) as Hcpos.
  destruct (reduction_of_spec s T ltac:(lia) ltac:(lia) c Hcpos) as [Htake Hrem].
  destruct (decide _) as [Hd|Hd]; rewrite Hb; simpl; intros [= <-]; [|done].
  pose proof (bumped_positive i _ Hd Hb) as Hp.
  pose proof (bumped_below c Hin Hp). simpl red_take in *. split; [|lia].
  rewrite i64_add_id by range. lia.
Qed.

Lemma elem_of_order n i :
  i ∈ take n order -> exists r, base !! i = Some r /\
    (i, r) ∈ take n (merge_sort ranks_before (imap pair base)).
Proof.
  unfold order. rewrite <-fmap_take. intros ([j r] & -> & Hj)%list_elem_of_fmap.
  exists r. split; [|done]. apply elem_of_take in Hj as (k & Hk & _).
  apply list_elem_of_lookup_2 in Hk. rewrite merge_sort_Permutation in Hk.
  apply elem_of_lookup_imap in Hk as (i & x & [= -> ->] & Hx). done.
Qed.

(** Who is served is ranked before who is not. *)
Lemma served_ranks_first i j r t :
  base !! i = Some r -> base !! j = Some t ->
  i ∈ take (Z.to_nat leftover) order -> j ∉ take (Z.to_nat leftover) order ->
  ranks_before (i, r) (j, t).
Proof.
  set (sorted := merge_sort ranks_before (imap pair base)). set (n := Z.to_nat leftover).
  intros Hi Hj Hin Hout.
  apply elem_of_order in Hin as (r' & Hr' & Hin). rewrite Hi in Hr'. injection Hr' as <-.
  assert ((j, t) ∈ drop n sorted) as Hjd.
  { assert ((j, t) ∈ sorted) as Hs'.
    { unfold sorted. rewrite merge_sort_Permutation. apply elem_of_lookup_imap. eauto. }
    rewrite <-(take_drop n sorted) in Hs'. apply elem_of_app in Hs' as [Hs'|]; [|done].
    exfalso. apply Hout. unfold order. rewrite <-fmap_take.
    by apply (list_elem_of_fmap_2 fst) in Hs'. }
  assert (StronglySorted ranks_before sorted) as Hss.
  { apply Sorted_StronglySorted; [apply ranks_before_trans | apply (Sorted_merge_sort _)]. }
  rewrite <-(take_drop n sorted) in Hss.
  exact (StronglySorted_app_1_elem_of ranks_before _ _ (i, r) (j, t) Hss Hin Hjd).
Qed.

Lemma length_pro_rata : length (pro_rata_reductions s cs) = length cs.
Proof. rewrite pro_rata_eq, length_hand_out. unfold base. by rewrite length_fmap. Qed.

End Exact.

(** ** On the database *)

Lemma zsum_filter {A} (P : A -> Prop) `{!forall x, Decision (P x)} (f : A -> Z) (l : list A) :
  zsum (f <$> filter P l) = zsum ((fun x => if decide (P x) then f x else 0) <$> l).
Proof.
  induction l as [|x l IH]; [done|]. rewrite filter_cons, !fmap_cons, zsum_cons.
  destruct (decide (P x)); rewrite ?fmap_cons, ?zsum_cons; lia.
Qed.

Lemma NoDup_filter_fst {K V} (P : K * V -> Prop) `{!forall x, Decision (P x)} (l : list (K * V)) :
  NoDup l.*1 -> NoDup (filter P l).*1.
Proof.
  induction l as [|x l IH]; [done|]. rewrite fmap_cons, filter_cons. intros [Hx Hl]%NoDup_cons.
  destruct (decide (P x)); [|by auto]. rewrite fmap_cons. apply NoDup_cons. split; [|by auto].
  intros ([k v] & Hk & [_ Hin]%list_elem_of_filter)%list_elem_of_fmap. apply Hx.
  rewrite Hk. by apply list_elem_of_fmap_2.
Qed.

Section Database.
Variables (key_id : string).
Implicit Types (db : Db).

Lemma spendable_spec db c :
  c ∈ spendable_contributions key_id db <->
  share_key_contributions db !! c.1 = Some c.2 /\ skc_key_id c.2 = key_id /\ 0 < remaining_of c.
Proof.
  unfold spendable_contributions. rewrite merge_sort_Permutation. destruct c as [i r].
  rewrite select_where_spec, andb_true_iff, bool_decide_eq_true, Z.ltb_lt. done.
Qed.

Lemma spendable_NoDup db : NoDup (spendable_contributions key_id db).*1.
Proof.
  unfold spendable_contributions. rewrite merge_sort_Permutation.
  unfold select_where.
  apply NoDup_filter_fst, NoDup_fst_map_to_list.
Qed.

Lemma spendable_sum db :
  map_Forall (fun _ r => 0 <= skc_remaining_credits r) (share_key_contributions db) ->
  zsum (remaining_of <$> spendable_contributions key_id db) =
  sum_share_key_contributions_tx key_id db.
Proof.
  intros Hnn. unfold spendable_contributions. rewrite merge_sort_Permutation.
  unfold sum_share_key_contributions_tx, select_where.
  rewrite zsum_filter, map_sum_to_list, <-list_fmap_compose. f_equal.
  apply list_fmap_ext. intros i [c r] Hi. simpl.
  apply list_elem_of_lookup_2, elem_of_map_to_list, Hnn in Hi. simpl in Hi.
  unfold remaining_of. simpl. repeat case_decide || case_bool_decide; simpl in *;
    destruct (Z.ltb_spec 0 (skc_remaining_credits r)); simpl in *; try done; lia.
Qed.

(** What remains after taking the reductions, read off any column sum that
    moves with [remaining_credits] at rate [d] on the rows concerned. *)
Lemma take_reductions_sum (f : ContributionRow -> Z) (d : Z) crs db :
  NoDup (crs.*1).*1 ->
  Forall (fun cr : string * ContributionRow * Reduction =>
    share_key_contributions db !! cr.1.1 = Some cr.1.2 /\
    0 <= red_take cr.2 <= remaining_of cr.1 /\ remaining_of cr.1 <= i64_max /\
    forall x, f (skc_set_remaining x cr.1.2) = f cr.1.2 + d * (x - remaining_of cr.1)) crs ->
  map_sum f (share_key_contributions
    (foldl (fun db cr => take_reduction cr.1 cr.2 db) db crs)) =
  map_sum f (share_key_contributions db) - d * zsum ((fun cr => red_take cr.2) <$> crs).
Proof.
  revert db. induction crs as [|[c r] crs IH]; intros db Hnd HF; [simpl; lia|].
  inversion Hnd as [|? ? Hnotin Hnd']; subst. inversion HF as [|? ? (Hrow & Htake & Hmax & Hf) HF']; subst.
  rewrite fmap_cons, zsum_cons. cbn [foldl fst snd] in *. rewrite IH; [|done|].
  - unfold take_reduction, update_contribution. cbn [share_key_contributions set_share_key_contributions].
    rewrite map_sum_alter, Hrow. cbn [fmap option_fmap option_map default].
    rewrite Hf, i64_sub_id by (unfold remaining_of in *; range).
    unfold remaining_of in *. cbn [fst snd from_option id]. lia.
  - apply Forall_forall. intros cr Hin. rewrite Forall_forall in HF'. specialize (HF' cr Hin).
    destruct HF' as (Hrow' & Hrest). split; [|done]. simpl. rewrite lookup_alter_ne; [done|].
    intros E. apply Hnotin. rewrite E. by apply list_elem_of_fmap_2, list_elem_of_fmap_2.
Qed.

(** The rows a database has besides the contributions do not move. *)
Lemma take_reductions_frame crs db :
  exists m, foldl (fun db cr => take_reduction cr.1 cr.2 db) db crs =
            set_share_key_contributions m db.
Proof.
  revert db. induction crs as [|cr crs IH]; intros db; simpl.
  - exists (share_key_contributions db). by destruct db.
  - destruct (IH (take_reduction cr.1 cr.2 db)) as [m ->]. by exists m.
Qed.

Lemma take_reductions_solvent crs db :
  solvent db -> solvent (foldl (fun db cr => take_reduction cr.1 cr.2 db) db crs).
Proof.
  revert db. induction crs as [|cr crs IH]; intros db Hdb; simpl; [done|]. apply IH.
  destruct Hdb. split; simpl; auto. apply map_Forall_alter; [|done]. simpl. lia.
Qed.

Lemma apply_pro_rata_frame s db :
  exists m, apply_pro_rata_share_key_spend_tx key_id s db = set_share_key_contributions m db.
Proof.
  unfold apply_pro_rata_share_key_spend_tx.
  assert (exists m, db = set_share_key_contributions m db) as Hid.
  { exists (share_key_contributions db). by destruct db. }
  destruct (s <=? 0); [done|]. destruct (spendable_contributions key_id db); [done|].
  destruct (_ <=? 0); [done|]. apply take_reductions_frame.
Qed.

Lemma apply_pro_rata_solvent s db :
  solvent db -> solvent (apply_pro_rata_share_key_spend_tx key_id s db).
Proof.
  intros Hdb. unfold apply_pro_rata_share_key_spend_tx. destruct (s <=? 0); [done|].
  destruct (spendable_contributions key_id db); [done|].
  destruct (_ <=? 0); [done|]. by apply take_reductions_solvent.
Qed.

Lemma apply_pro_rata_column (f : ContributionRow -> Z) (d s : Z) db :
  solvent db -> 0 < s <= sum_share_key_contributions_tx key_id db ->
  sum_share_key_contributions_tx key_id db <= i64_max ->
  (forall r x, skc_key_id r = key_id ->
     f (skc_set_remaining x r) = f r + d * (x - skc_remaining_credits r)) ->
  map_sum f (share_key_contributions (apply_pro_rata_share_key_spend_tx key_id s db)) =
  map_sum f (share_key_contributions db) - d * s.
Proof.
  intros Hsol Hs Hmax Hf.
  pose proof (spendable_sum db (solvent_pools _ Hsol)) as HT. rewrite <-HT in Hs, Hmax.
  pose proof (spendable_NoDup db) as Hnd. pose proof (spendable_spec db) as Hspec.
  unfold apply_pro_rata_share_key_spend_tx.
  destruct (Z.leb_spec s 0); [lia|].
  set (cs := spendable_contributions key_id db) in *.
  assert (Forall (fun c => 0 < remaining_of c) cs) as Hpos.
  { apply Forall_forall. intros c Hc. by apply Hspec in Hc as (_ & _ & ?). }
  change (fun c => skc_remaining_credits c.2) with remaining_of.
  rewrite foldl_i64_add; [| apply Forall_fmap, (Forall_impl _ _ _ Hpos); simpl; lia | lia | lia].
  rewrite Z.add_0_l. destruct (Z.leb_spec (zsum (remaining_of <$> cs)) 0); [lia|].
  replace (match cs with [] => db | _ :: _ => foldl (fun db cr => take_reduction cr.1 cr.2 db) db
    (zip cs (pro_rata_reductions s cs)) end) with
    (foldl (fun db cr => take_reduction cr.1 cr.2 db) db (zip cs (pro_rata_reductions s cs)))
    by by destruct cs.
  pose proof (length_pro_rata s cs Hpos Hs Hmax) as Hlen.
  rewrite (take_reductions_sum f d).
  - replace ((fun cr : string * ContributionRow * Reduction => red_take cr.2) <$>
      zip cs (pro_rata_reductions s cs)) with (red_take <$> (zip cs (pro_rata_reductions s cs)).*2)
      by by rewrite <-list_fmap_compose.
    rewrite snd_zip, (pro_rata_exact_sum s cs) by (done || lia). done.
  - rewrite fst_zip by lia. done.
  - apply Forall_forall. intros [c r] Hin. apply list_elem_of_lookup in Hin as [i Hi].
    apply lookup_zip_with_Some in Hi as (c' & r' & [= -> ->] & Hc & Hr).
    destruct (pro_rata_each s cs Hpos Hs Hmax i c' r' Hc Hr) as [Hb _].
    pose proof (list_elem_of_lookup_2 _ _ _ Hc) as Hcin.
    pose proof (remaining_le_total cs Hpos c' Hcin).
    apply Hspec in Hcin as (Hrow & Hkey & _). simpl.
    repeat split_and!; [done | lia | lia | lia |]. intros x. by rewrite Hf.
Qed.

End Database.

(** ** Claims *)

(** C11: the largest-remainder apportionment of a spend over the contributions of
    a key is exact: the credits taken add up to the spend, each reduction is
    for its own contribution and takes no more than is left of it, and takes
    the proportional share rounded down, or one credit more, the latter only
    when the share is not whole, so that it is the share rounded up.  The extra credits
    go by rank: whoever gets one has a larger remainder than whoever does not,
    or the same remainder and an older contribution, or the same age and the
    smaller identifier. *)
Theorem pro_rata_apportionment spend cs :
  Forall (fun c => 0 < remaining_of c) cs ->
  0 < spend <= zsum (remaining_of <$> cs) -> zsum (remaining_of <$> cs) <= i64_max ->
  let rs := pro_rata_reductions spend cs in
  let total := zsum (remaining_of <$> cs) in
  let share := fun c => spend * remaining_of c / total in
  let remainder := fun c => (spend * remaining_of c) mod total in
  length rs = length cs /\ zsum (red_take <$> rs) = spend /\
  (forall i c r, cs !! i = Some c -> rs !! i = Some r ->
    red_id r = c.1 /\ 0 <= red_take r <= remaining_of c /\
    (red_take r = share c \/ (red_take r = share c + 1 /\ 0 < remainder c))) /\
  forall i c r j d t,
    cs !! i = Some c -> rs !! i = Some r -> cs !! j = Some d -> rs !! j = Some t ->
    red_take r = share c + 1 -> red_take t = share d ->
    remainder d < remainder c \/
    (remainder c = remainder d /\
      (skc_created_at c.2 < skc_created_at d.2 \/
       (skc_created_at c.2 = skc_created_at d.2 /\ String.leb c.1 d.1 = true))).
Proof.
  intros Hpos Hs HT. cbv zeta. split; [by apply length_pro_rata|].
  split; [by apply pro_rata_exact_sum|]. split.
  - intros i c r Hc Hr. split; [by eapply pro_rata_ids|].
    split; [by eapply (pro_rata_each spend cs Hpos Hs HT)|].
    pose proof (pro_rata_takes spend cs Hpos Hs HT i c r Hc Hr) as Ht.
    case_decide; tauto.
  - intros i c r j d t Hc Hr Hd Ht Hmore Hless.
    pose proof (pro_rata_takes spend cs Hpos Hs HT i c r Hc Hr) as Hti. cbv beta in *.
    case_decide as Hi; [|lia].
    pose proof (pro_rata_takes spend cs Hpos Hs HT j d t Hd Ht) as Htj.
    case_decide as Hj; [lia|].
    apply (served_ranks_first spend cs i j
      (reduction_of spend (zsum (remaining_of <$> cs)) c)
      (reduction_of spend (zsum (remaining_of <$> cs)) d)) in Hj;
      [| by rewrite list_lookup_fmap, ?Hc | by rewrite list_lookup_fmap, ?Hd | exact Hi].
    assert (forall e k, cs !! k = Some e ->
      red_remainder (reduction_of spend (zsum (remaining_of <$> cs)) e) =
      (spend * remaining_of e) mod zsum (remaining_of <$> cs)) as Hrem.
    { intros e k He%list_elem_of_lookup_2. apply reduction_of_spec; [lia | lia |].
      exact (cs_pos cs Hpos e He). }
    unfold ranks_before in Hj. cbn [fst snd] in Hj. by rewrite (Hrem c i Hc), (Hrem d j Hd) in Hj.
Qed.

Lemma pro_rata_apportionment_witness :
  let cs := spendable_contributions "sk" demo in
  length cs = 2%nat /\ zsum (red_take <$> pro_rata_reductions 7 cs) = 7.
Proof.
  split; [vm_compute; reflexivity|].
  apply (pro_rata_apportionment 7 (spendable_contributions "sk" demo)).
  - decided.
  - split; vm_compute; congruence.
  - vm_compute. congruence.
Defined.

(** spending from a funded key takes exactly the spend out of that key's
    pool and nothing out of any other key's pool, and leaves every other table
    alone. *)
Theorem share_key_spend_exact key spend db :
  solvent db -> 0 < spend <= sum_share_key_contributions_tx key db ->
  sum_share_key_contributions_tx key db <= i64_max ->
  let db' := apply_pro_rata_share_key_spend_tx key spend db in
  sum_share_key_contributions_tx key db' = sum_share_key_contributions_tx key db - spend /\
  (forall key', key' <> key ->
     sum_share_key_contributions_tx key' db' = sum_share_key_contributions_tx key' db) /\
  db' = set_share_key_contributions (share_key_contributions db') db /\ solvent db'.
Proof.
  intros Hsol Hs Hmax. cbv zeta. split_and!.
  - unfold sum_share_key_contributions_tx at 1. rewrite (apply_pro_rata_column key _ 1); try done.
    + unfold sum_share_key_contributions_tx. lia.
    + intros r x Hk. simpl. rewrite bool_decide_true by done. lia.
  - intros key' Hne. unfold sum_share_key_contributions_tx at 1.
    rewrite (apply_pro_rata_column key _ 0); try done.
    + unfold sum_share_key_contributions_tx. lia.
    + intros r x Hk. simpl. rewrite bool_decide_false by congruence. lia.
  - destruct (apply_pro_rata_frame key spend db) as [m Hm]. by rewrite Hm.
  - by apply apply_pro_rata_solvent.
Qed.

Lemma share_key_spend_exact_witness :
  sum_share_key_contributions_tx "sk" (apply_pro_rata_share_key_spend_tx "sk" 7 demo) =
  sum_share_key_contributions_tx "sk" demo - 7.
Proof.
  apply (share_key_spend_exact "sk" 7 demo).
  - exact demo_solvent.
  - split; vm_compute; congruence.
  - vm_compute. congruence.
Defined.
