(* ===== verification/ShareKeysFacts.v ===== *)
(** * Share keys: correctness

    Every share-key operation conserves credits ([supply]) and keeps every
    wallet non-negative ([solvent]); revoking or expiring a key returns to
    each funder exactly what is left of its own contributions; the bearer
    checks follow the key's state. *)

From S2P Require Import Prelude Db RustStr Wallet ShareKeys Fixtures ProRata.
From stdpp Require Import sorting.

Open Scope string_scope.
Open Scope Z_scope.

(** ** Refunding a list of contributions *)

(** What one contribution of the refund loop does. *)
Definition refund_effect (t : Z) (reason : string) (L : list (string * ContributionRow))
    (db db' : Db) : Prop :=
  (forall d, balance_of d db' = balance_of d db +
     zsum ((fun c => if decide (skc_funder_device_id c.2 = d) then remaining_of c else 0) <$> L)) /\
  supply db' = supply db /\ (solvent db -> solvent db') /\
  share_keys db' = share_keys db /\ account_wallets db' = account_wallets db /\
  provider_wallets db' = provider_wallets db /\
  (forall i, share_key_contributions db' !! i =
     if decide (i ∈ L.*1) then skc_set_refunded t reason <$> share_key_contributions db !! i
     else share_key_contributions db !! i).

Lemma refund_effect_nil t reason db : refund_effect t reason [] db db.
Proof.
  split; [intros; simpl; lia|]. do 5 (split; [done|]). intros i.
  by rewrite decide_False by apply not_elem_of_nil.
Qed.

Lemma refund_effect_cons t reason c L db db1 db2 :
  refund_effect t reason [c] db db1 -> refund_effect t reason L db1 db2 ->
  c.1 ∉ L.*1 -> refund_effect t reason (c :: L) db db2.
Proof.
  intros (A1 & A2 & A3 & A4 & A5 & A6 & A7) (B1 & B2 & B3 & B4 & B5 & B6 & B7) Hc.
  split_and!; try congruence; try tauto.
  - intros d. rewrite B1, A1, !fmap_cons, !zsum_cons. simpl. lia.
  - intros i. rewrite B7, A7, !fmap_cons. simpl.
    destruct (decide (i ∈ L.*1)) as [Hi|Hi].
    + rewrite (decide_True (P := i ∈ c.1 :: L.*1)) by (by right).
      rewrite decide_False; [done|]. intros [->|?%not_elem_of_nil]%elem_of_cons; done.
    + destruct (decide (i = c.1)) as [->|Hne].
      * by rewrite !decide_True by (by left).
      * rewrite !decide_False; [done | |]; intros [?|?]%elem_of_cons; try done.
        by apply not_elem_of_nil in H.
Qed.

Lemma pool_update_refunded t reason c r db :
  share_key_contributions db !! c = Some r ->
  supply (update_contribution (skc_set_refunded t reason) c db) =
  supply db - skc_remaining_credits r.
Proof.
  intros Hr. unfold supply, pool_credits. simpl. rewrite map_sum_alter, Hr. simpl.
  unfold device_credits, account_credits, provider_credits. simpl. lia.
Qed.

Lemma solvent_update_refunded t reason c db :
  solvent db -> solvent (update_contribution (skc_set_refunded t reason) c db).
Proof. intros []. split; simpl; auto. apply map_Forall_alter; simpl; [lia|done]. Qed.

Lemma refund_one_effect key t reason c rows credits db :
  share_key_contributions db !! c.1 = Some c.2 -> 0 <= remaining_of c ->
  refund_effect t reason [c] db (refund_one key t reason c (rows, credits, db)).2.
Proof.
  destruct c as [c r]. unfold remaining_of. simpl. intros Hr Hnn.
  set (d := skc_funder_device_id r). set (x := skc_remaining_credits r) in *.
  assert (forall db0, share_key_contributions db0 = share_key_contributions db -> forall i,
    share_key_contributions (update_contribution (skc_set_refunded t reason) c db0) !! i =
    if decide (i ∈ [c]) then skc_set_refunded t reason <$> share_key_contributions db !! i
    else share_key_contributions db !! i) as Hlk.
  { intros db0 E i. simpl. rewrite E. destruct (decide (i = c)) as [->|Hne].
    - by rewrite lookup_alter_eq, decide_True by (by left).
    - rewrite lookup_alter_ne, decide_False; [done | | done].
      by intros [?|?%not_elem_of_nil]%elem_of_cons. }
  destruct (Z.ltb_spec 0 x) as [Hx|Hx]; simpl; split_and!; try done; try (by apply Hlk).
  - intros d'. unfold balance_of. simpl.
    change (balance_of d' (update_balance (bal_add x) d (ensure_balance d db)) =
      balance_of d' db + ((if decide (d = d') then x else 0) + 0)).
    rewrite balance_of_update_add by apply ensure_balance_row.
    rewrite balance_of_ensure. lia.
  - rewrite (pool_update_refunded _ _ _ r) by done.
    autorewrite with supply. rewrite (supply_update_balance _ _ _ x); [| done | apply ensure_balance_row].
    autorewrite with supply. fold x. lia.
  - intros Hs. apply solvent_update_refunded. auto 6 with ledger.
  - intros d'. change (balance_of d' (ensure_balance d db) =
      balance_of d' db + ((if decide (d = d') then x else 0) + 0)).
    rewrite balance_of_ensure. destruct (decide _); lia.
  - rewrite (pool_update_refunded _ _ _ r) by done. autorewrite with supply. fold x. lia.
  - intros Hs. apply solvent_update_refunded. auto with ledger.
Qed.

Lemma refund_loop key t reason L rows credits db :
  NoDup L.*1 ->
  Forall (fun c => share_key_contributions db !! c.1 = Some c.2 /\ 0 <= remaining_of c) L ->
  refund_effect t reason L db
    (foldl (fun acc c => refund_one key t reason c acc) (rows, credits, db) L).2.
Proof.
  revert rows credits db. induction L as [|c L IH]; intros rows credits db Hnd HF.
  { apply refund_effect_nil. }
  inversion Hnd as [|? ? Hc Hnd']; subst. inversion HF as [|? ? [Hr Hnn] HF']; subst.
  cbn [foldl]. pose proof (refund_one_effect key t reason c rows credits db Hr Hnn) as H1.
  destruct (refund_one key t reason c (rows, credits, db)) as [[rows1 credits1] db1].
  cbn [snd] in H1. apply (refund_effect_cons _ _ _ _ _ db1); [done | | done]. apply IH; [done|].
  destruct H1 as (_ & _ & _ & _ & _ & _ & Hlk). apply Forall_forall. intros c' Hc'.
  rewrite Forall_forall in HF'. destruct (HF' c' Hc') as [Hr' ?]. split; [|done].
  rewrite Hlk, decide_False; [done|].
  intros [E|?%not_elem_of_nil]%elem_of_cons; [|done]. apply Hc. rewrite <-E.
  by apply list_elem_of_fmap_2.
Qed.

(** ** Refunding a key *)

Definition unrefunded (key_id : string) (db : Db) : list (string * ContributionRow) :=
  merge_sort older (select_where (fun _ r =>
    bool_decide (skc_key_id r = key_id) && bool_decide (skc_refunded_at r = None))
    (share_key_contributions db)).

Lemma unrefunded_spec key db c :
  c ∈ unrefunded key db <-> share_key_contributions db !! c.1 = Some c.2 /\
    skc_key_id c.2 = key /\ skc_refunded_at c.2 = None.
Proof.
  unfold unrefunded. rewrite merge_sort_Permutation. destruct c as [i r].
  by rewrite select_where_spec, andb_true_iff, !bool_decide_eq_true.
Qed.

Lemma refund_share_key_effect key t reason db :
  solvent db ->
  refund_effect t reason (unrefunded key db) db
    (refund_share_key_contributions_tx key t reason db).2.
Proof.
  intros Hs. apply refund_loop.
  - unfold unrefunded. rewrite merge_sort_Permutation. apply NoDup_filter_fst, NoDup_fst_map_to_list.
  - apply Forall_forall. intros c Hc. apply unrefunded_spec in Hc as (Hr & _ & _). split; [done|].
    apply (solvent_pools _ Hs) in Hr. done.
Qed.

(** The credits of the key that can still be refunded, per funder. *)
Definition refundable (key_id funder : string) (db : Db) : Z :=
  map_sum (fun r => if decide (skc_key_id r = key_id /\ skc_refunded_at r = None /\
                               skc_funder_device_id r = funder)
                    then skc_remaining_credits r else 0) (share_key_contributions db).

Lemma unrefunded_sum key d db :
  zsum ((fun c => if decide (skc_funder_device_id c.2 = d) then remaining_of c else 0) <$>
    unrefunded key db) = refundable key d db.
Proof.
  unfold unrefunded, refundable. rewrite merge_sort_Permutation.
  unfold select_where. rewrite zsum_filter, map_sum_to_list, <-list_fmap_compose. f_equal.
  apply list_fmap_ext. intros i [c r] _. simpl. unfold remaining_of. simpl.
  repeat case_decide; repeat case_bool_decide; simpl in *; try done; exfalso; tauto.
Qed.

(** A pool whose refunded contributions are empty: the rest of the pool is
    what is refundable. *)
Definition refunds_final (db : Db) : Prop :=
  map_Forall (fun _ r => skc_refunded_at r <> None -> skc_remaining_credits r = 0)
    (share_key_contributions db).

Lemma refund_empties_pool key t reason db :
  solvent db -> refunds_final db ->
  sum_share_key_contributions_tx key (refund_share_key_contributions_tx key t reason db).2 = 0.
Proof.
  intros Hs Hfin. destruct (refund_share_key_effect key t reason db Hs) as (_ & _ & _ & _ & _ & _ & Hlk).
  set (db' := (refund_share_key_contributions_tx key t reason db).2) in *.
  unfold sum_share_key_contributions_tx.
  apply map_sum_zero. intros i r Hi. rewrite Hlk in Hi. case_bool_decide as Hk; [|done].
  destruct (decide (i ∈ (unrefunded key db).*1)) as [Hin|Hin].
  - apply fmap_Some in Hi as (r0 & _ & ->). done.
  - pose proof (Hfin i r Hi) as Hr. simpl in Hr. apply Hr. intros Hnone. apply Hin.
    apply (list_elem_of_fmap_2' fst _ (i, r)); [|done]. by apply unrefunded_spec.
Qed.

(** ** Minting and funding *)

Lemma insert_share_key_contribution_Ok cid key d funded rem t ra rr db db' :
  insert_share_key_contribution_tx cid key d funded rem t ra rr db = Ok db' ->
  supply db' = supply db + Z.max rem 0 /\ (solvent db -> solvent db') /\
  share_key_contributions db !! cid = None /\ 0 < funded /\
  db' = set_share_key_contributions (<[cid := mkContributionRow key d funded (Z.max rem 0) t ra rr]>
    (share_key_contributions db)) db.
Proof.
  unfold insert_share_key_contribution_tx, map_err. intros H.
  destruct (insert_contribution _ _ _) as [db1|] eqn:E; [|done]. injection H as <-.
  pose proof (supply_insert_contribution _ _ _ _ E). pose proof (solvent_insert_contribution _ _ _ _ E).
  apply insert_contribution_Ok in E as (? & ? & ? & ? & ->). done.
Qed.

Lemma mint_share_key_Ok ids now issuer label ttl budget db m db' :
  mint_share_key ids now issuer label ttl budget db = Ok (m, db') ->
  SHARE_KEY_MIN_BUDGET <= budget <= SHARE_KEY_MAX_BUDGET /\ budget <= balance_of issuer db /\
  supply db' = supply db /\ (solvent db -> solvent db') /\
  (forall d, balance_of d db' = balance_of d db - (if decide (issuer = d) then budget else 0)) /\
  share_keys db !! mi_key_id ids = None /\
  share_key_contributions db' = <[mi_contribution_id ids :=
    mkContributionRow (mi_key_id ids) issuer budget budget now None None]>
    (share_key_contributions db) /\
  share_key_contributions db !! mi_contribution_id ids = None /\
  share_keys db' = <[mi_key_id ids := mkShareKeyRow (mi_token ids) issuer
    (normalized_optional_string label) (i64_add now ttl) budget 0 now None 1
    (Some (mi_funding_id ids)) None]> (share_keys db) /\
  (forall j r, share_keys db !! j = Some r -> sk_token r <> mi_token ids) /\
  minted_token m = mi_token ids /\ minted_expires_at m = i64_add now ttl.
Proof.
  unfold mint_share_key. intros H.
  destruct ((SHARE_KEY_MIN_EXPIRES_IN <=? ttl) && _); [|done].
  destruct ((SHARE_KEY_MIN_BUDGET <=? budget) && _) eqn:Hb; [|done].
  apply andb_true_iff in Hb as [Hb1%Z.leb_le Hb2%Z.leb_le].
  destruct (match normalized_optional_string label with Some _ => _ | None => _ end); [|done].
  destruct (active_share_keys now issuer db <? _); [|done]. cbv zeta in H.
  set (db0 := ensure_balance issuer db) in *.
  destruct (balances db0 !! issuer) as [row|] eqn:Hrow; [|done]. cbn [map_err query_row ok_or] in H.
  destruct (Z.leb_spec budget (bal_balance row)) as [Hle|]; [|done].
  rewrite <-(balance_of_row _ _ _ Hrow) in Hle. unfold db0 in Hle. rewrite balance_of_ensure in Hle.
  destruct (insert_share_key _ _ _) as [db1|] eqn:E1; [|done]. cbn [map_err] in H.
  pose proof (insert_share_key_fresh _ _ _ _ E1) as Hfresh.
  apply insert_share_key_Ok in E1 as (Hk & _ & _ & ->).
  destruct (insert_share_key_contribution_tx _ _ _ _ _ _ _ _ _) as [db2|] eqn:E2; [|done].
  injection H as <- <-. apply insert_share_key_contribution_Ok in E2 as (Hsup & Hsol & Hc & _ & ->).
  assert (0 <= budget) by (unfold SHARE_KEY_MIN_BUDGET in *; lia).
  simpl in Hc, Hk. rewrite Z.max_l in * by lia.
  split; [lia|]. split; [lia|]. split; [|split; [|split]].
  - rewrite Hsup. autorewrite with supply.
    rewrite (supply_update_balance _ _ _ (- budget)); [| done | exists row; exact Hrow].
    unfold db0. change (supply (ensure_balance issuer db) + - budget + budget = supply db).
    rewrite supply_ensure_balance. lia.
  - intros Hs. apply Hsol, solvent_insert_ledger, solvent_sub.
    + change (budget <= balance_of issuer (ensure_balance issuer db)). by rewrite balance_of_ensure.
    + apply (same_money_solvent db0); [done|]. unfold db0. auto with ledger.
  - intros d. change (balance_of d (update_balance (bal_add (- budget)) issuer db0) =
      balance_of d db - (if decide (issuer = d) then budget else 0)).
    rewrite balance_of_update_add by (exists row; exact Hrow).
    unfold db0. rewrite balance_of_ensure. destruct (decide _); lia.
  - simpl. done.
Qed.

Lemma sum_insert_contribution key cid r (m : gmap string ContributionRow) :
  m !! cid = None -> skc_key_id r = key ->
  map_sum (fun r => if bool_decide (skc_key_id r = key) then skc_remaining_credits r else 0)
    (<[cid := r]> m) =
  map_sum (fun r => if bool_decide (skc_key_id r = key) then skc_remaining_credits r else 0) m +
  skc_remaining_credits r.
Proof. intros Hc Hk. rewrite map_sum_insert_new by done. by rewrite bool_decide_true. Qed.

Lemma transfer_to_share_key_Ok cid now sender fid amount db rcpt db' :
  transfer_to_share_key cid now sender fid amount db = Ok (rcpt, db') ->
  exists key r, share_keys db !! key = Some r /\ sk_funding_id r = Some fid /\
  sk_revoked_at r = None /\ now < sk_expires_at r /\ sk_funded r = 1 /\ fr_key_id rcpt = key /\
  0 < amount <= balance_of sender db /\ supply db' = supply db /\ (solvent db -> solvent db') /\
  (forall d, balance_of d db' = balance_of d db - (if decide (sender = d) then amount else 0)) /\
  share_keys db' = alter (fun r => sk_set_budget (sk_budget_credits r + amount) r) key
    (share_keys db) /\
  share_key_contributions db !! cid = None /\
  share_key_contributions db' = <[cid := mkContributionRow key sender amount amount now None None]>
    (share_key_contributions db) /\
  fr_remaining_credits rcpt = sum_share_key_contributions_tx key db'.
Proof.
  unfold transfer_to_share_key. intros H.
  destruct (Z.leb_spec amount 0) as [|Hpos]; [done|]. cbn [negb] in H.
  destruct (select_one _ _) as [[key r]|] eqn:Hsel; [|done]. cbn [ok_or] in H.
  apply select_one_Some in Hsel as [Hk Hf]. unfold some_eqb in Hf.
  apply bool_decide_eq_true in Hf.
  case_bool_decide as Hrev; [|done]. destruct (Z.ltb_spec now (sk_expires_at r)) as [Hexp|]; [|done].
  destruct (Z.eqb_spec (sk_funded r) 1) as [Hfund|]; [|done]. cbv zeta in H.
  set (db0 := ensure_balance sender (ensure_device now sender db)) in *.
  destruct (Z.leb_spec amount (balance_of sender db0)) as [Hle|]; [|done].
  assert (forall d, balance_of d db0 = balance_of d db) as Hbal.
  { intros d. etrans; [apply balance_of_ensure | done]. }
  destruct (update_share_key_checked _ _ _) as [db1|] eqn:E1; [|done]. cbn [map_err] in H.
  apply update_share_key_checked_Ok in E1 as (_ & ->).
  destruct (insert_share_key_contribution_tx _ _ _ _ _ _ _ _ _) as [db2|] eqn:E2; [|done].
  cbn [map_err] in H.
  apply insert_share_key_contribution_Ok in E2 as (Hsup & Hsol & Hc & _ & ->).
  rewrite Z.max_l in * by lia. injection H as <- <-.
  exists key, r. rewrite Hbal in Hle. do 6 (split; [done|]). split; [lia|].
  split; [|split; [|split]].
  - etrans; [exact Hsup|]. autorewrite with supply.
    rewrite (supply_update_balance _ _ _ (- amount)); [| done | apply ensure_balance_row].
    unfold db0. autorewrite with supply. lia.
  - intros Hs. apply solvent_insert_ledger, Hsol, solvent_update_share_key, solvent_sub.
    + by rewrite Hbal.
    + unfold db0. auto with ledger.
  - intros d. change (balance_of d (update_balance (bal_add (- amount)) sender db0) =
      balance_of d db - (if decide (sender = d) then amount else 0)).
    rewrite balance_of_update_add by apply ensure_balance_row. rewrite Hbal.
    destruct (decide _); lia.
  - done.
Qed.

(** ** Revocation and expiry *)

Lemma revoke_share_key_true now issuer key db db' :
  solvent db -> revoke_share_key now issuer key db = (true, db') ->
  exists r, share_keys db !! key = Some r /\ sk_issuer_device_id r = issuer /\
  sk_revoked_at r = None /\ supply db' = supply db /\ solvent db' /\
  (sk_funded r = 1 -> sk_refunds_settled_at r = None ->
     (forall d, balance_of d db' = balance_of d db + refundable key d db) /\
     (refunds_final db -> sum_share_key_contributions_tx key db' = 0)) /\
  share_keys db' = alter (fun r => if (sk_funded r =? 1) && bool_decide (sk_refunds_settled_at r = None)
    then sk_set_settled now (sk_set_revoked now r) else sk_set_revoked now r) key (share_keys db).
Proof.
  intros Hs. unfold revoke_share_key. destruct (share_keys db !! key) as [r|] eqn:Hr; [|done].
  case_bool_decide as Hi; [|done]. case_bool_decide as Hrev; [|done]. cbn [andb].
  intros [= <-]. exists r. do 3 (split; [done|]).
  set (db0 := update_share_key (sk_set_revoked now) key db).
  assert (solvent db0) as Hs0 by (unfold db0; auto with ledger).
  destruct ((sk_funded r =? 1) && bool_decide (sk_refunds_settled_at r = None)) eqn:Hb.
  - pose proof (refund_share_key_effect key now "revoked" db0 Hs0) as
      (Hbal & Hsup & Hsol & Hsk & _).
    split; [rewrite supply_update_share_key, Hsup; done|].
    split; [auto with ledger|]. split.
    + intros _ _. split.
      * intros d. etrans; [apply (Hbal d)|]. by rewrite unrefunded_sum.
      * intros Hfin. apply (refund_empties_pool key now "revoked" db0); done.
    + simpl. rewrite Hsk. unfold db0. simpl. apply map_eq. intros i.
      destruct (decide (key = i)) as [<-|Hne].
      * rewrite !lookup_alter_eq, Hr. simpl. by rewrite Hb.
      * by rewrite !lookup_alter_ne by done.
  - split; [done|]. split; [done|]. split.
    + intros Hf Hset. rewrite Hf, Hset in Hb. done.
    + unfold db0. simpl. apply map_eq. intros i. destruct (decide (key = i)) as [<-|Hne].
      * rewrite !lookup_alter_eq, Hr. simpl. by rewrite Hb.
      * by rewrite !lookup_alter_ne by done.
Qed.

Lemma revoke_share_key_false now issuer key db db' :
  revoke_share_key now issuer key db = (false, db') -> db' = db.
Proof.
  unfold revoke_share_key. destruct (share_keys db !! key); [|by intros [=]].
  destruct (_ && _); [done|]. by intros [=].
Qed.

Lemma close_loop_conserves now ks rep db :
  solvent db ->
  let db' := (foldl (fun acc k => close_expired_key now k acc) (rep, db) ks).2 in
  supply db' = supply db /\ solvent db'.
Proof.
  revert rep db. induction ks as [|k ks IH]; intros rep db Hs; [done|]. cbn [foldl].
  unfold close_expired_key at 2 4.
  pose proof (refund_share_key_effect k now "expired" db Hs) as (_ & Hsup & Hsol & _).
  destruct (refund_share_key_contributions_tx k now "expired" db) as [[rows credits] db1].
  cbn [snd] in *. destruct (IH (mkExpiredReport (S (keys_closed rep))
      (contributions_refunded rep + rows) (i64_add (credits_refunded rep) credits))
      (update_share_key (sk_set_settled now) k db1) ltac:(auto with ledger)) as [H1 H2].
  split; [|exact H2]. etrans; [exact H1|]. by rewrite supply_update_share_key.
Qed.

Lemma refund_expired_conserves now db :
  solvent db ->
  supply (refund_expired_share_keys now db).2 = supply db /\
  solvent (refund_expired_share_keys now db).2.
Proof. apply close_loop_conserves. Qed.

(** ** The startup passes *)

Lemma ensure_share_key_funding_id_Ok nid key o db fid db' :
  ensure_share_key_funding_id_tx nid key o db = Ok (fid, db') -> same_money db db'.
Proof.
  unfold ensure_share_key_funding_id_tx. destruct o; [by intros [= _ <-]|].
  destruct (update_share_key_checked _ _ _) as [db1|] eqn:E; [|done]. cbn [map_err].
  intros [= _ <-]. by apply update_share_key_checked_Ok in E as [? _].
Qed.

Lemma migrate_one_conserves nf nc now row rep db rep' db' :
  migrate_one nf nc now row (rep, db) = Ok (rep', db') ->
  supply db' = supply db /\ (solvent db -> solvent db').
Proof.
  destruct row as [key r]. unfold migrate_one. intros H.
  destruct (ensure_share_key_funding_id_tx _ _ _ _) as [[fid db0]|] eqn:E0; [|done].
  apply ensure_share_key_funding_id_Ok in E0.
  pose proof (same_money_supply _ _ E0) as Hsup0. pose proof (same_money_solvent _ _ E0) as Hsol0.
  destruct (bool_decide (sk_revoked_at r <> None) || _).
  { destruct (insert_share_key_contribution_tx _ _ _ _ _ _ _ _ _) as [db1|] eqn:E1; [|done].
    injection H as _ <-. apply insert_share_key_contribution_Ok in E1 as (Hsup & Hsol & _).
    rewrite supply_update_share_key in Hsup. split; [simpl in Hsup; lia | auto with ledger]. }
  set (owed := Z.max (i64_sub _ _) 0) in *. destruct (owed =? 0).
  { destruct (insert_share_key_contribution_tx _ _ _ _ _ _ _ _ _) as [db1|] eqn:E1; [|done].
    injection H as _ <-. apply insert_share_key_contribution_Ok in E1 as (Hsup & Hsol & _).
    rewrite supply_update_share_key in Hsup. split; [simpl in Hsup; lia | auto with ledger]. }
  cbv zeta in H. set (d := sk_issuer_device_id r) in *.
  destruct (balances (ensure_balance d db0) !! d) as [brow|] eqn:Hrow; [|done].
  cbn [map_err query_row ok_or] in H.
  set (debit := Z.min owed _) in *.
  assert (0 <= debit /\ debit <= Z.max (balance_of d db0) 0) as [Hd0 Hd1].
  { assert (balance_of d db0 = bal_balance brow) as ->.
    { rewrite <-(balance_of_row _ _ _ Hrow). by rewrite balance_of_ensure. }
    unfold debit, owed. lia. }
  match type of H with context [if 0 <? debit then ?a else ?b] =>
    set (db2 := if 0 <? debit then a else b) in * end.
  assert (supply db2 = supply db - debit /\ (solvent db -> solvent db2)) as [Hsup2 Hsol2].
  { unfold db2. destruct (Z.ltb_spec 0 debit).
    - autorewrite with supply. rewrite (supply_update_balance _ _ _ (- debit));
        [| done | apply ensure_balance_row]. autorewrite with supply. split; [lia|].
      intros Hs. apply solvent_insert_ledger, solvent_sub; [|auto with ledger].
      rewrite balance_of_ensure. lia.
    - autorewrite with supply. split; [lia | auto with ledger]. }
  clearbody db2. destruct (i64_add _ debit <? _).
  - destruct (update_share_key_checked _ _ _) as [db3|] eqn:E3; [|done]. cbn [map_err] in H.
    apply update_share_key_checked_Ok in E3 as (Hm & _).
    destruct (insert_share_key_contribution_tx _ _ _ _ _ _ _ _ _) as [db4|] eqn:E4; [|done].
    injection H as _ <-. apply insert_share_key_contribution_Ok in E4 as (Hsup & Hsol & _).
    rewrite (same_money_supply _ _ Hm) in Hsup. split; [lia|].
    intros. apply Hsol, (same_money_solvent _ _ Hm). auto.
  - destruct (insert_share_key_contribution_tx _ _ _ _ _ _ _ _ _) as [db4|] eqn:E4; [|done].
    injection H as _ <-. apply insert_share_key_contribution_Ok in E4 as (Hsup & Hsol & _).
    rewrite supply_update_share_key in Hsup. split; [lia | auto with ledger].
Qed.

Lemma migrate_conserves nf nc now db rep db' :
  migrate_unfunded_share_keys nf nc now db = Ok (rep, db') ->
  supply db' = supply db /\ (solvent db -> solvent db').
Proof.
  unfold migrate_unfunded_share_keys. intros H.
  apply (fold_res_ind _ (fun acc => supply acc.2 = supply db /\ (solvent db -> solvent acc.2)))
    in H; [done| |done].
  intros row [rep1 db1] [rep2 db2] _ Hstep [H1 H2]. apply migrate_one_conserves in Hstep as [H3 H4].
  simpl in *. split; [lia | auto].
Qed.

(** ** The expiry pass, key by key *)

(** Refunding a key as one update of the contribution table. *)
Lemma refund_contributions_fmap key t reason db :
  solvent db ->
  share_key_contributions (refund_share_key_contributions_tx key t reason db).2 =
  (fun r => if decide (skc_key_id r = key /\ skc_refunded_at r = None)
            then skc_set_refunded t reason r else r) <$> share_key_contributions db.
Proof.
  intros Hs. destruct (refund_share_key_effect key t reason db Hs) as (_ & _ & _ & _ & _ & _ & Hlk).
  apply map_eq. intros i. rewrite Hlk, lookup_fmap.
  destruct (share_key_contributions db !! i) as [r|] eqn:Hr; [|by case_decide]. cbn [fmap option_fmap option_map].
  case_decide as Hin; case_decide as Hp; try done.
  - exfalso. apply Hp. apply list_elem_of_fmap in Hin as ([j r'] & -> & Hj).
    apply unrefunded_spec in Hj as (Hj & ? & ?). simpl in *. assert (r' = r) as -> by congruence. done.
  - exfalso. apply Hin. apply (list_elem_of_fmap_2' fst _ (i, r)); [|done]. by apply unrefunded_spec.
Qed.

Lemma refundable_other key key' t reason d db :
  solvent db -> key' <> key ->
  refundable key' d (refund_share_key_contributions_tx key t reason db).2 = refundable key' d db.
Proof.
  intros Hs Hne. unfold refundable. rewrite refund_contributions_fmap, map_sum_fmap by done.
  apply map_sum_ext. intros i r Hr. destruct (decide (skc_key_id r = key /\ _)) as [[Hk Hn]|]; [|done].
  simpl. rewrite !decide_False; [done| |]; intros (? & ? & ?); congruence.
Qed.

Lemma refundable_update_share_key f k key d db :
  refundable key d (update_share_key f k db) = refundable key d db.
Proof. done. Qed.

Lemma close_loop_effect now ks rep db :
  solvent db -> NoDup ks ->
  let db' := (foldl (fun acc k => close_expired_key now k acc) (rep, db) ks).2 in
  (forall d, balance_of d db' = balance_of d db + zsum ((fun k => refundable k d db) <$> ks)) /\
  (forall k, share_keys db' !! k = (if decide (k ∈ ks) then sk_set_settled now <$> share_keys db !! k
                                    else share_keys db !! k)) /\
  keys_closed (foldl (fun acc k => close_expired_key now k acc) (rep, db) ks).1 =
    (keys_closed rep + length ks)%nat.
Proof.
  revert rep db. induction ks as [|k ks IH]; intros rep db Hs Hnd.
  { cbn [foldl snd fst length]. split; [intros; simpl; lia|]. split; [|lia]. intros k.
    by rewrite decide_False by apply not_elem_of_nil. }
  inversion Hnd as [|? ? Hk Hnd']; subst. cbn [foldl].
  pose proof (refund_share_key_effect k now "expired" db Hs) as (Hbal & _ & Hsol & Hsk & _).
  assert (forall k' d, k' <> k -> refundable k' d (refund_share_key_contributions_tx k now "expired" db).2
    = refundable k' d db) as Hoth by (intros; by apply refundable_other).
  unfold close_expired_key at 2 4 6.
  destruct (refund_share_key_contributions_tx k now "expired" db) as [[rows credits] db1].
  cbn [snd] in *.
  set (rep1 := mkExpiredReport _ _ _). set (db2 := update_share_key (sk_set_settled now) k db1).
  destruct (IH rep1 db2 ltac:(unfold db2; auto with ledger) Hnd') as (IB & IS & IC). cbv zeta in *.
  split_and!.
  - intros d. rewrite IB, fmap_cons, zsum_cons.
    change (balance_of d db2) with (balance_of d db1). rewrite Hbal, unrefunded_sum.
    assert (((fun k0 => refundable k0 d db2) <$> ks) = ((fun k0 => refundable k0 d db) <$> ks)) as ->; [|lia].
    apply list_fmap_ext. intros i k' Hi. unfold db2. rewrite refundable_update_share_key.
    apply Hoth. intros ->. apply Hk. by apply (list_elem_of_lookup_2 _ i).
  - intros k'. rewrite IS. unfold db2. simpl. rewrite Hsk.
    destruct (decide (k = k')) as [<-|Hne].
    + rewrite (decide_False (P := k ∈ ks)) by done. rewrite lookup_alter_eq.
      by rewrite decide_True by (by left).
    + rewrite lookup_alter_ne by done. destruct (decide (k' ∈ ks)) as [Hin|Hin].
      * by rewrite decide_True by (by right).
      * rewrite decide_False; [done|]. intros [?|?]%elem_of_cons; done.
  - rewrite IC. unfold rep1. cbn [keys_closed length]. lia.
Qed.

Lemma expired_keys_NoDup now db :
  NoDup (fst <$> select_where (fun _ r => expired_unsettled now r) (share_keys db)).
Proof. apply NoDup_filter_fst, NoDup_fst_map_to_list. Qed.

Lemma expired_keys_spec now db k :
  k ∈ (fst <$> select_where (fun _ r => expired_unsettled now r) (share_keys db)) <->
  exists r, share_keys db !! k = Some r /\ expired_unsettled now r = true.
Proof.
  rewrite list_elem_of_fmap. split.
  - intros ([k' r] & -> & Hin). apply select_where_spec in Hin as [? ?]. eauto.
  - intros (r & Hr & He). exists (k, r). split; [done|]. by apply select_where_spec.
Qed.

(** ** Claims *)

(** a successful mint moves exactly the budget from the issuer's wallet into
    the new key's pool, changes no other device wallet, conserves credits, and
    the minted token then resolves to the new key with the whole budget left,
    until the key expires. *)
Theorem mint_share_key_moves_budget ids now issuer label ttl budget db m db' :
  mint_share_key ids now issuer label ttl budget db = Ok (m, db') ->
  supply db' = supply db /\ (solvent db -> solvent db') /\
  (forall d, balance_of d db' = balance_of d db - (if decide (issuer = d) then budget else 0)) /\
  sum_share_key_contributions_tx (mi_key_id ids) db' =
    sum_share_key_contributions_tx (mi_key_id ids) db + budget /\
  forall later, later < minted_expires_at m ->
    resolve_share_key later (minted_token m) db' =
    Ok (Some (mkResolvedShareKey (mi_key_id ids) issuer budget 0 (minted_expires_at m))).
Proof.
  intros (Hb & _ & Hsup & Hsol & Hbal & Hk & Hc & Hcn & Hsk & Hfresh & Htok & Hexp)%mint_share_key_Ok.
  do 3 (split; [done|]). split.
  - unfold sum_share_key_contributions_tx. rewrite Hc, sum_insert_contribution by done. done.
  - intros later Hl. unfold resolve_share_key. rewrite Hsk, Htok.
    rewrite (select_one_unique _ _ (mi_key_id ids) (mkShareKeyRow (mi_token ids) issuer
      (normalized_optional_string label) (i64_add now ttl) budget 0 now None 1
      (Some (mi_funding_id ids)) None)).
    + cbn [sk_revoked_at sk_expires_at sk_consumed_credits sk_budget_credits sk_issuer_device_id].
      rewrite bool_decide_true by done. rewrite Hexp in Hl |- *. rewrite (proj2 (Z.ltb_lt _ _) Hl).
      unfold SHARE_KEY_MIN_BUDGET in Hb. by rewrite (proj2 (Z.ltb_lt 0 budget)) by lia.
    + by rewrite lookup_insert_eq.
    + simpl. by rewrite bool_decide_true.
    + intros j w. rewrite lookup_insert. case_decide as Hj; [done|]. intros Hw Hp.
      apply bool_decide_eq_true in Hp. by destruct (Hfresh j w Hw).
Qed.

Lemma mint_share_key_moves_budget_witness :
  exists m db', mint_share_key (mkMintIds "k2" "f2" "t2" "c9") 50 "alice" None 60 500 demo = Ok (m, db') /\
  supply db' = supply demo.
Proof.
  run_ok (mint_share_key (mkMintIds "k2" "f2" "t2" "c9") 50 "alice" None 60 500 demo).
  eexists _, _. split; [reflexivity|].
  apply (mint_share_key_moves_budget _ _ _ _ _ _ _ _ _ Erun).
Defined.

(** a successful third-party funding moves exactly the amount from the
    sender's wallet into the pool of the key with that funding id, which is
    live and funded, raises the key's budget by the same amount and conserves
    credits; the receipt reports the pool that results. *)
Theorem transfer_to_share_key_moves_amount cid now sender fid amount db rcpt db' :
  transfer_to_share_key cid now sender fid amount db = Ok (rcpt, db') ->
  exists key r r', share_keys db !! key = Some r /\ sk_funding_id r = Some fid /\
  sk_revoked_at r = None /\ now < sk_expires_at r /\ sk_funded r = 1 /\
  0 < amount <= balance_of sender db /\
  share_keys db' !! key = Some r' /\ sk_budget_credits r' = sk_budget_credits r + amount /\
  (forall d, balance_of d db' = balance_of d db - (if decide (sender = d) then amount else 0)) /\
  sum_share_key_contributions_tx key db' = sum_share_key_contributions_tx key db + amount /\
  fr_remaining_credits rcpt = sum_share_key_contributions_tx key db' /\
  supply db' = supply db /\ (solvent db -> solvent db').
Proof.
  intros (key & r & Hr & Hf & Hrev & Hexp & Hfd & _ & Ha & Hsup & Hsol & Hbal & Hsk & Hcn & Hc &
    Hrem)%transfer_to_share_key_Ok.
  exists key, r, (sk_set_budget (sk_budget_credits r + amount) r).
  do 6 (split; [done|]). split; [by rewrite Hsk, lookup_alter_eq, Hr|]. split; [done|].
  split; [done|]. split; [|done].
  unfold sum_share_key_contributions_tx. rewrite Hc, sum_insert_contribution by done. done.
Qed.

Lemma transfer_to_share_key_moves_amount_witness :
  exists rcpt db', transfer_to_share_key "c3" 60 "bob" "fund" 50 demo = Ok (rcpt, db') /\
  exists key r r', share_keys demo !! key = Some r /\ sk_funding_id r = Some "fund" /\
  sk_revoked_at r = None /\ 60 < sk_expires_at r /\ sk_funded r = 1 /\
  0 < 50 <= balance_of "bob" demo /\
  share_keys db' !! key = Some r' /\ sk_budget_credits r' = sk_budget_credits r + 50 /\
  (forall d, balance_of d db' = balance_of d demo - (if decide ("bob" = d) then 50 else 0)) /\
  sum_share_key_contributions_tx key db' = sum_share_key_contributions_tx key demo + 50 /\
  fr_remaining_credits rcpt = sum_share_key_contributions_tx key db' /\
  supply db' = supply demo /\ (solvent demo -> solvent db').
Proof.
  run_ok (transfer_to_share_key "c3" 60 "bob" "fund" 50 demo). eexists _, _. split; [reflexivity|].
  exact (transfer_to_share_key_moves_amount _ _ _ _ _ _ _ _ Erun).
Defined.

(** revoking a funded, unsettled key returns to every device exactly what is
    left of its own contributions, empties the pool, conserves credits, makes
    the bearer token unusable, and a second revocation changes nothing. *)
Theorem revoke_share_key_refunds now issuer key db db' r :
  solvent db -> refunds_final db -> share_keys db !! key = Some r ->
  sk_funded r = 1 -> sk_refunds_settled_at r = None ->
  revoke_share_key now issuer key db = (true, db') ->
  (forall d, balance_of d db' = balance_of d db + refundable key d db) /\
  sum_share_key_contributions_tx key db' = 0 /\ supply db' = supply db /\ solvent db' /\
  (exists r', share_keys db' !! key = Some r' /\ sk_revoked_at r' = Some now) /\
  forall now' issuer', revoke_share_key now' issuer' key db' = (false, db').
Proof.
  intros Hs Hfin Hr Hfd Hset H. apply revoke_share_key_true in H as
    (r0 & Hr0 & Hi & Hrev & Hsup & Hsol & Href & Hsk); [|done].
  assert (r0 = r) as -> by congruence. destruct (Href Hfd Hset) as [Hbal Hpool].
  assert (share_keys db' !! key = Some (sk_set_settled now (sk_set_revoked now r))) as Hr'.
  { rewrite Hsk, lookup_alter_eq, Hr. cbn [fmap option_fmap option_map].
    by rewrite Hfd, Z.eqb_refl, bool_decide_true. }
  split; [done|]. split; [auto|]. split; [done|]. split; [done|]. split.
  - exists (sk_set_settled now (sk_set_revoked now r)). done.
  - intros now' issuer'. unfold revoke_share_key. rewrite Hr'. simpl.
    by rewrite andb_false_r.
Qed.

Lemma revoke_share_key_refunds_witness :
  exists db', revoke_share_key 70 "alice" "sk" demo = (true, db') /\
  sum_share_key_contributions_tx "sk" db' = 0.
Proof.
  destruct (revoke_share_key 70 "alice" "sk" demo) as [b db'] eqn:E.
  assert (b = true) as -> by (apply (f_equal fst) in E; vm_compute in E; congruence).
  exists db'. split; [reflexivity|].
  destruct (share_keys demo !! "sk") as [r|] eqn:Hr; [|vm_compute in Hr; discriminate Hr].
  eapply (revoke_share_key_refunds 70 "alice" "sk" demo db' r);
    [exact demo_solvent | decided | exact Hr | | | exact E];
    vm_compute in Hr; injection Hr as <-; reflexivity.
Defined.

(** the expiry pass returns to every device exactly what is left of its
    contributions to all the expired keys, conserves credits, closes each of
    those keys once, and leaves no expired key open, so that running it again
    closes nothing. *)
Theorem refund_expired_share_keys_closes now db :
  solvent db ->
  let keys := fst <$> select_where (fun _ r => expired_unsettled now r) (share_keys db) in
  let db' := (refund_expired_share_keys now db).2 in
  supply db' = supply db /\ solvent db' /\
  (forall d, balance_of d db' = balance_of d db + zsum ((fun k => refundable k d db) <$> keys)) /\
  keys_closed (refund_expired_share_keys now db).1 = length keys /\
  keys_closed (refund_expired_share_keys now db').1 = 0%nat.
Proof.
  intros Hs. cbv zeta. destruct (refund_expired_conserves now db Hs) as [Hsup Hsol].
  split; [done|]. split; [done|].
  destruct (close_loop_effect now _ (mkExpiredReport 0 0 0) db Hs (expired_keys_NoDup now db))
    as (Hbal & Hsk & Hn). cbv zeta in *.
  split; [exact Hbal|]. split; [exact Hn|].
  assert (forall k r, share_keys (refund_expired_share_keys now db).2 !! k = Some r ->
    expired_unsettled now r = false) as Hnone.
  { intros k r. unfold refund_expired_share_keys. rewrite Hsk. case_decide as Hin.
    - intros (r0 & _ & ->)%fmap_Some. unfold expired_unsettled. simpl. by rewrite !andb_false_r.
    - intros Hr. destruct (expired_unsettled now r) eqn:He; [|done]. exfalso. apply Hin.
      apply expired_keys_spec. eauto. }
  unfold refund_expired_share_keys at 1. set (db2 := (refund_expired_share_keys now db).2) in *.
  destruct (select_where (fun _ r => expired_unsettled now r) (share_keys db2)) as [|[k r] l] eqn:E; [done|].
  exfalso. assert ((k, r) ∈ (k, r) :: l) as Hin by by left. rewrite <-E in Hin.
  apply select_where_spec in Hin as [Hr He]. rewrite (Hnone k r Hr) in He. done.
Qed.

Lemma refund_expired_share_keys_closes_witness :
  keys_closed (refund_expired_share_keys 99999 demo).1 = 1%nat /\
  balance_of "bob" (refund_expired_share_keys 99999 demo).2 = 5000.
Proof.
  destruct (refund_expired_share_keys_closes 99999 demo demo_solvent) as (_ & _ & Hb & Hn & _).
  rewrite Hn, Hb. split; vm_compute; reflexivity.
Defined.

(** The startup migration of unfunded share keys conserves credits and never
    overdraws a wallet, whatever identifiers it draws. *)
Theorem migrate_unfunded_share_keys_conserves nf nc now db rep db' :
  solvent db -> migrate_unfunded_share_keys nf nc now db = Ok (rep, db') ->
  supply db' = supply db /\ solvent db'.
Proof. intros Hs H. destruct (migrate_conserves _ _ _ _ _ _ H). auto. Qed.

Lemma migrate_unfunded_share_keys_conserves_witness :
  exists rep db', migrate_unfunded_share_keys (fun k => k +:+ "f") (fun k => k +:+ "c") 100
    (demo_legacy "bob") = Ok (rep, db') /\ supply db' = supply (demo_legacy "bob").
Proof.
  run_ok (migrate_unfunded_share_keys (fun k => k +:+ "f") (fun k => k +:+ "c") 100 (demo_legacy "bob")).
  eexists _, _. split; [reflexivity|].
  refine (proj1 (migrate_unfunded_share_keys_conserves _ _ _ _ _ _ _ Erun)). decided.
Defined.

(** A live, unspent legacy key whose issuer has no credits stops the whole
    startup migration: its budget would shrink to zero, which the table's
    [CHECK] forbids, so the transaction fails and no key is migrated. *)
Theorem migration_stops_on_empty_wallet :
  migrate_unfunded_share_keys (fun k => k +:+ "f") (fun k => k +:+ "c") 100 (demo_legacy "carol") =
  Err (Sql CheckViolation).
Proof. vm_compute. reflexivity. Qed.
