(* ===== verification/Backfill.v ===== *)
(** * The startup backfill of share-key pools

    [db::open] runs [ledger::backfill_funded_share_key_contributions] at every
    start: it gives each funded key that predates contributions a funding id
    and one contribution that stands for its pool.  Proved here: a run that
    succeeds leaves every funded key backed, touches no wallet and no recorded
    contribution, and the next start finds nothing to do. *)

From S2P Require Import Prelude Db RustStr Wallet ShareKeys Fixtures ProRata ShareKeysFacts.

Open Scope string_scope.
Open Scope Z_scope.

(** Some contribution belongs to key [k]. *)
Definition contributed (k : string) (db : Db) : Prop :=
  exists c row, share_key_contributions db !! c = Some row /\ skc_key_id row = k.

(** Every funded key can receive funding and has a recorded pool. *)
Definition pools_backed (db : Db) : Prop :=
  map_Forall (fun k r => sk_funded r = 1 -> is_Some (sk_funding_id r) /\ contributed k db) (share_keys db).

Lemma contribution_count_pos k db : contributed k db -> (0 < contribution_count k db)%nat.
Proof.
  intros (c & row & Hc & Hk). unfold contribution_count.
  assert ((c, row) ∈ select_where (fun _ r => bool_decide (skc_key_id r = k)) (share_key_contributions db))
    as Hin by (apply select_where_spec; by rewrite bool_decide_true).
  destruct (select_where _ _); [by apply not_elem_of_nil in Hin | simpl; lia].
Qed.

Lemma contribution_count_contributed k db : (0 < contribution_count k db)%nat -> contributed k db.
Proof.
  unfold contribution_count. destruct (select_where _ _) as [|[c row] l] eqn:E; [simpl; lia|]. intros _.
  assert ((c, row) ∈ select_where (fun _ r => bool_decide (skc_key_id r = k)) (share_key_contributions db))
    as Hin by (rewrite E; apply list_elem_of_here).
  apply select_where_spec in Hin as [Hc Hk]. apply bool_decide_eq_true in Hk. by exists c, row.
Qed.

(** What the pass may do between two databases: new contributions, funding ids. *)
Record backfilled (db db' : Db) : Prop := mk_backfilled {
  bf_contributions : share_key_contributions db ⊆ share_key_contributions db';
  bf_balances : balances db' = balances db;
  bf_accounts : account_wallets db' = account_wallets db;
  bf_providers : provider_wallets db' = provider_wallets db;
  bf_keys : forall k, sk_funded <$> share_keys db' !! k = sk_funded <$> share_keys db !! k;
  bf_funding : forall k r r', share_keys db !! k = Some r -> share_keys db' !! k = Some r' ->
    is_Some (sk_funding_id r) -> is_Some (sk_funding_id r')
}.

#[export] Instance backfilled_preorder : PreOrder backfilled.
Proof.
  split; [intros db; split; try done; congruence|].
  intros db1 db2 db3 [A1 A2 A3 A4 A5 A6] [B1 B2 B3 B4 B5 B6].
  split; [by etrans|congruence..|intros; etrans; [apply B5|apply A5]|].
  intros k r r' Hr Hr' Hf. pose proof (A5 k) as E. rewrite Hr in E.
  destruct (share_keys db2 !! k) as [r2|] eqn:H2; [|done]. eauto.
Qed.

Lemma backfilled_contributed k db db' : backfilled db db' -> contributed k db -> contributed k db'.
Proof. intros [Hc _ _ _ _ _] (c & row & H & Hk). exists c, row. split; [by eapply lookup_weaken|done]. Qed.

Lemma backfilled_funding_id nid k o db fid db' :
  ensure_share_key_funding_id_tx nid k o db = Ok (fid, db') -> backfilled db db' /\
  (o = None -> forall r', share_keys db' !! k = Some r' -> is_Some (sk_funding_id r')).
Proof.
  unfold ensure_share_key_funding_id_tx. destruct o; [by intros [= _ <-]|].
  destruct (update_share_key_checked _ _ _) as [db1|] eqn:E; [|done]. intros [= _ <-].
  apply update_share_key_checked_Ok in E as [_ ->]. split.
  - split; try done; simpl.
    + intros j. destruct (decide (k = j)) as [<-|Hne]; [|by rewrite lookup_alter_ne].
      rewrite lookup_alter_eq. by destruct (share_keys db !! k).
    + intros j r r'. destruct (decide (k = j)) as [<-|Hne]; [|rewrite lookup_alter_ne by done; congruence].
      rewrite lookup_alter_eq. intros -> [= <-] _. simpl. by eexists.
  - intros _ r'. simpl. rewrite lookup_alter_eq. destruct (share_keys db !! k); [|done].
    intros [= <-]. simpl. by eexists.
Qed.

Lemma backfilled_contribution cid k d x y t ra rr db db' :
  insert_share_key_contribution_tx cid k d x y t ra rr db = Ok db' ->
  backfilled db db' /\ contributed k db' /\ share_keys db' = share_keys db.
Proof.
  intros (_ & _ & Hc & _ & ->)%insert_share_key_contribution_Ok. split_and!; [|eexists cid, _; simpl; by rewrite lookup_insert_eq|done].
  split; try done; simpl; [by apply insert_subseteq|congruence].
Qed.

Lemma backfill_one_Ok nf nc now k r n rep db rep' db' :
  share_keys db !! k = Some r -> backfill_one nf nc now (k, r, n) (rep, db) = Ok (rep', db') ->
  backfilled db db' /\ (forall r', share_keys db' !! k = Some r' -> is_Some (sk_funding_id r')) /\
  (n = 0%nat -> contributed k db').
Proof.
  intros Hr H. unfold backfill_one in H.
  match type of H with (match ?c with Ok _ => _ | Err _ => _ end) = _ => destruct c as [[rep1 db1]|] eqn:E1; [|done] end.
  assert (backfilled db db1 /\ forall r', share_keys db1 !! k = Some r' -> is_Some (sk_funding_id r')) as [B1 F1].
  { destruct (sk_funding_id r) as [fid|] eqn:Ef.
    - injection E1 as _ <-. split; [done|]. intros r' Hr'. assert (r' = r) as -> by congruence. by rewrite Ef.
    - destruct (ensure_share_key_funding_id_tx _ _ _ _) as [[fid db2]|] eqn:E2; [|done]. injection E1 as _ <-.
      apply backfilled_funding_id in E2 as [? Hf]. auto. }
  destruct (Nat.ltb_spec 0 n); [injection H as _ <-; split_and!; [done|done|lia]|].
  cbv zeta in H.
  match type of H with (match ?c with Ok _ => _ | Err _ => _ end) = _ => destruct c as [db2|] eqn:E2; [|done] end.
  injection H as _ <-.
  assert (backfilled db1 db2 /\ contributed k db2 /\ share_keys db2 = share_keys db1) as (B2 & C2 & S2).
  { destruct (sk_revoked_at r); [by apply backfilled_contribution in E2|].
    destruct (_ && _); by apply backfilled_contribution in E2. }
  split_and!; [by etrans|by rewrite S2|done].
Qed.

Lemma funding_id_frame nid k o db fid db' :
  ensure_share_key_funding_id_tx nid k o db = Ok (fid, db') ->
  forall j, j <> k -> share_keys db' !! j = share_keys db !! j.
Proof.
  unfold ensure_share_key_funding_id_tx. destruct o; [by intros [= _ <-]|].
  destruct (update_share_key_checked _ _ _) as [db1|] eqn:E; [|done]. intros [= _ <-] j Hj.
  apply update_share_key_checked_Ok in E as [_ ->]. simpl. by rewrite lookup_alter_ne.
Qed.

Lemma backfill_one_frame nf nc now k r n rep db rep' db' :
  backfill_one nf nc now (k, r, n) (rep, db) = Ok (rep', db') ->
  forall j, j <> k -> share_keys db' !! j = share_keys db !! j.
Proof.
  intros H j Hj. unfold backfill_one in H.
  match type of H with (match ?c with Ok _ => _ | Err _ => _ end) = _ => destruct c as [[rep1 db1]|] eqn:E1; [|done] end.
  assert (share_keys db1 !! j = share_keys db !! j) as <-.
  { destruct (sk_funding_id r); [by injection E1 as _ <-|].
    destruct (ensure_share_key_funding_id_tx _ _ _ _) as [[fid db2]|] eqn:E2; [|done]. injection E1 as _ <-.
    by eapply funding_id_frame. }
  destruct (Nat.ltb 0 n); [by injection H as _ <-|]. cbv zeta in H.
  match type of H with (match ?c with Ok _ => _ | Err _ => _ end) = _ => destruct c as [db2|] eqn:E2; [|done] end.
  injection H as _ <-. f_equal.
  destruct (sk_revoked_at r); [by apply backfilled_contribution in E2 as (_ & _ & ->)|].
  destruct (_ && _); by apply backfilled_contribution in E2 as (_ & _ & ->).
Qed.

Lemma backfill_loop nf nc now rows rep db rep' db' :
  NoDup (rows.*1.*1) -> Forall (fun row => share_keys db !! row.1.1 = Some row.1.2) rows ->
  fold_res (backfill_one nf nc now) rows (rep, db) = Ok (rep', db') ->
  backfilled db db' /\ Forall (fun row =>
    (forall r', share_keys db' !! row.1.1 = Some r' -> is_Some (sk_funding_id r')) /\
    (row.2 = 0%nat -> contributed row.1.1 db')) rows /\
  forall k, k ∉ rows.*1.*1 -> share_keys db' !! k = share_keys db !! k.
Proof.
  revert rep db. induction rows as [|[[k r] n] rows IH]; intros rep db Hnd Hrows H.
  { injection H as _ <-. split_and!; [done|constructor|done]. }
  rewrite !fmap_cons in Hnd. apply NoDup_cons in Hnd as [Hk Hnd].
  apply Forall_cons in Hrows as [Hr Hrows]. cbn [fst snd] in Hr, Hk.
  cbn [fold_res] in H.
  destruct (backfill_one nf nc now (k, r, n) (rep, db)) as [[rep1 db1]|] eqn:E; [|done].
  assert (forall j, j <> k -> share_keys db1 !! j = share_keys db !! j) as Hother by by eapply backfill_one_frame.
  apply backfill_one_Ok in E as (B1 & F1 & C1); [|done].
  apply IH in H as (B2 & Hall & Hrest); [|done|].
  - split; [by etrans|]. split; [constructor; [|done]|].
    + simpl. split; [|intros Hn; eapply backfilled_contributed; eauto].
      intros r' Hr'. rewrite Hrest in Hr' by done. eauto.
    + intros j Hj. rewrite !fmap_cons in Hj. apply not_elem_of_cons in Hj as [Hj1 Hj2]. rewrite Hrest by done. by apply Hother.
  - apply Forall_forall. intros [[j s] m] Hin. simpl. rewrite Hother.
    + rewrite Forall_forall in Hrows. by apply (Hrows (j, s, m)).
    + intros ->. apply Hk. rewrite !list_elem_of_fmap. exists (k, s). split; [done|].
      rewrite list_elem_of_fmap. by exists (k, s, m).
Qed.

Lemma backfill_rows db :
  let rows := (fun '(k, r) => (k, r, contribution_count k db)) <$>
    select_where (fun _ r => sk_funded r =? 1) (share_keys db) in
  NoDup (rows.*1.*1) /\ Forall (fun row => share_keys db !! row.1.1 = Some row.1.2) rows.
Proof.
  simpl. split.
  - rewrite <-!list_fmap_compose.
    erewrite list_fmap_ext; [|intros _ [k r] _; instantiate (1 := fst); reflexivity].
    apply NoDup_fmap_fst; [|unfold select_where; apply NoDup_filter, NoDup_map_to_list].
    intros k r1 r2 [H1 _]%select_where_spec [H2 _]%select_where_spec. congruence.
  - apply Forall_fmap, Forall_forall. intros [k r] Hin. by apply select_where_spec in Hin as [? _].
Qed.

(** A database whose funded keys are all backed gives the pass nothing to do. *)
Lemma backfill_backed nf nc now db :
  pools_backed db -> backfill_funded_share_key_contributions nf nc now db = Ok (mkBackfillReport 0 0 0, db).
Proof.
  intros Hb. unfold backfill_funded_share_key_contributions.
  assert (forall l : list (string * ShareKeyRow),
    Forall (fun kr => is_Some (sk_funding_id kr.2) /\ contributed kr.1 db) l ->
    fold_res (backfill_one nf nc now) ((fun '(k, r) => (k, r, contribution_count k db)) <$> l)
      (mkBackfillReport 0 0 0, db) = Ok (mkBackfillReport 0 0 0, db)) as Hl.
  { induction 1 as [|[k r] l [[fid Hf] Hc%contribution_count_pos] _ IH]; [done|].
    rewrite fmap_cons. cbn [fold_res]. unfold backfill_one at 1. simpl in Hf, Hc. rewrite Hf.
    apply Nat.ltb_lt in Hc. rewrite Hc. exact IH. }
  apply Hl, Forall_forall. intros [k r] Hin. apply select_where_spec in Hin as [Hk Hfun].
  apply (Hb k r Hk). by apply Z.eqb_eq.
Qed.

Lemma backfill_backs nf nc now db rep db' :
  backfill_funded_share_key_contributions nf nc now db = Ok (rep, db') -> backfilled db db' /\ pools_backed db'.
Proof.
  intros H. destruct (backfill_rows db) as [Hnd Hrows].
  apply backfill_loop in H as (B & Hall & _); [|done|done]. split; [done|].
  intros k r' Hr' Hfun. pose proof (bf_keys _ _ B k) as Hk. rewrite Hr' in Hk.
  destruct (share_keys db !! k) as [r|] eqn:Hr; [|done]. injection Hk as Hk.
  rewrite Forall_fmap, Forall_forall in Hall. destruct (Hall (k, r)) as [Hf Hc].
  { apply select_where_spec. split; [done|]. apply Z.eqb_eq. congruence. }
  split; [by apply Hf|]. simpl in Hc. destruct (contribution_count k db) as [|n] eqn:En; [by apply Hc|].
  eapply backfilled_contributed; [done|]. apply contribution_count_contributed. lia.
Qed.

(** the startup backfill is complete and idempotent: after a run that
    succeeds every funded key has a funding id and a recorded contribution; no
    wallet and no contribution that was there before has changed; and a later
    run, at any time and with any fresh identifiers, reports nothing to do and
    leaves the database as it is. *)
Theorem backfill_complete_and_idempotent nf nc now db rep db' :
  backfill_funded_share_key_contributions nf nc now db = Ok (rep, db') ->
  pools_backed db' /\
  share_key_contributions db ⊆ share_key_contributions db' /\
  balances db' = balances db /\ account_wallets db' = account_wallets db /\
  provider_wallets db' = provider_wallets db /\
  (forall nf' nc' later,
    backfill_funded_share_key_contributions nf' nc' later db' = Ok (mkBackfillReport 0 0 0, db')).
Proof.
  intros [[? ? ? ? _ _] Hb]%backfill_backs. split_and!; try done. intros. by apply backfill_backed.
Qed.

(** A key funded before pools were recorded: 700 credits of which 200 are spent. *)
Definition unrecorded : Db :=
  set_share_keys (<["old" := mkShareKeyRow "tok2" "bob" None 5000 700 200 5 None 1 None None]>
    (share_keys demo)) demo.

Definition recorded : Db :=
  match backfill_funded_share_key_contributions (fun _ => "f9") (fun _ => "c9") 60 unrecorded with
  | Ok (_, db) => db
  | Err _ => unrecorded
  end.

Lemma backfill_complete_and_idempotent_witness :
  backfill_funded_share_key_contributions (fun _ => "f9") (fun _ => "c9") 60 unrecorded =
    Ok (mkBackfillReport 1 1 1, recorded) /\
  skc_remaining_credits <$> share_key_contributions recorded !! "c9" = Some 500 /\
  backfill_funded_share_key_contributions (fun _ => "f8") (fun _ => "c8") 70 recorded =
    Ok (mkBackfillReport 0 0 0, recorded).
Proof.
  split; [vm_compute; reflexivity|]. split; [vm_compute; reflexivity|].
  eapply (backfill_complete_and_idempotent (fun _ => "f9") (fun _ => "c9") 60 unrecorded (mkBackfillReport 1 1 1)).
  vm_compute. reflexivity.
Defined.
