(* ===== verification/SettlementFacts.v ===== *)
(** * Settlement: correctness

    A settled request moves exactly the payable amount: what leaves the
    consumer's wallet (or pool) arrives at the earners, to the credit, and no
    wallet goes below zero.  The bound [circulation_bounded] (a hundredth of
    the [i64] range in circulation, about 92 billion USD) is what keeps the
    code's [effective_cost * 70] and [* 95] from wrapping around. *)

From S2P Require Import Prelude Db RustStr Wallet ShareKeys ProRata Settlement Accounts Fixtures.

Open Scope string_scope.
Open Scope Z_scope.

(** [lia] on constant divisions. *)
Ltac div_lia := Z.to_euclidean_division_equations; lia.

Definition circulation_bounded (db : Db) : Prop := 100 * supply db <= i64_max.

(** ** The split *)

Lemma fleet_split_exact eff n :
  0 <= eff -> 100 * eff <= i64_max ->
  let sp := fleet_split eff n in
  direct_earn sp + per_peer sp * Z.of_nat n + ops_total sp = eff /\
  0 <= direct_earn sp /\ 0 <= per_peer sp /\ 0 <= ops_total sp /\
  direct_earn sp = eff * 70 / 100 /\
  per_peer sp = (if Nat.eqb n 0 then 0 else eff * 25 / 100 / Z.of_nat n) /\
  eff * 5 / 100 <= ops_total sp.
Proof.
  intros H0 H1. unfold fleet_split. cbv zeta. cbn [direct_earn per_peer ops_total].
  rewrite !i64_mul_id by range. unfold i64_div.
  rewrite (Z.quot_div_nonneg (eff * 70)), (Z.quot_div_nonneg (eff * 25)) by lia.
  set (dir := eff * 70 / 100). set (pool := eff * 25 / 100).
  assert (0 <= dir /\ 100 * dir <= eff * 70) as [? ?] by (unfold dir; div_lia).
  assert (0 <= pool /\ 100 * pool <= eff * 25) as [? ?] by (unfold pool; div_lia).
  assert (eff * 5 / 100 <= eff - dir - pool) by (unfold dir, pool; div_lia).
  rewrite (i64_sub_id eff dir), (i64_sub_id _ pool) by range.
  destruct (Nat.eqb_spec n 0) as [->|Hn].
  - rewrite Z.mul_0_r, i64_mul_id, i64_sub_id, i64_add_id by range. lia.
  - rewrite Z.quot_div_nonneg by lia.
    assert (0 <= pool / Z.of_nat n /\ pool / Z.of_nat n * Z.of_nat n <= pool) as [? ?].
    { split; [apply Z.div_pos; lia|]. pose proof (Z_div_mod_eq_full pool (Z.of_nat n)).
      pose proof (Z.mod_pos_bound pool (Z.of_nat n)). lia. }
    assert (0 <= pool / Z.of_nat n * Z.of_nat n) by nia.
    rewrite i64_mul_id, i64_sub_id, i64_add_id by range. lia.
Qed.

(** ** Earning *)

Lemma supply_earn d ty x now rid note db : supply (earn d ty x now rid note db) = supply db + x.
Proof.
  unfold earn. rewrite (supply_update_balance _ _ _ x); [| done | apply ensure_balance_row].
  by autorewrite with supply.
Qed.

Lemma solvent_earn_stmts d ty x now rid note db :
  0 <= x -> solvent db -> solvent (earn d ty x now rid note db).
Proof. unfold earn. auto 6 with ledger. Qed.

Lemma balance_of_earn d ty x now rid note db d' :
  balance_of d' (earn d ty x now rid note db) =
  balance_of d' db + (if decide (d = d') then x else 0).
Proof.
  unfold earn, balance_of. simpl. destruct (decide (d = d')) as [<-|Hne].
  - rewrite lookup_alter_eq, insert_or_ignore_lookup_eq. simpl.
    destruct (balances db !! d); done.
  - rewrite lookup_alter_ne, insert_or_ignore_lookup_ne by done. lia.
Qed.

Lemma supply_pay_ops x now rid note db :
  0 <= x -> supply (pay_ops x now rid note db) = supply db + x.
Proof.
  intros Hx. unfold pay_ops. destruct (Z.ltb_spec 0 x); [apply supply_earn | lia].
Qed.

Lemma solvent_pay_ops x now rid note db : solvent db -> solvent (pay_ops x now rid note db).
Proof.
  intros Hs. unfold pay_ops. destruct (Z.ltb_spec 0 x); [|done].
  apply solvent_earn_stmts; [lia|done].
Qed.

Lemma peers_loop ty x now rid note peers db :
  0 <= x ->
  let db' := foldl (fun db peer => earn peer ty x now rid note db) db peers in
  supply db' = supply db + x * Z.of_nat (length peers) /\ (solvent db -> solvent db').
Proof.
  intros Hx. revert db. induction peers as [|p peers IH]; intros db; [simpl; split; [lia|done]|].
  cbn [foldl length]. destruct (IH (earn p ty x now rid note db)) as [H1 H2]. split.
  - etrans; [exact H1|]. rewrite supply_earn. lia.
  - intros Hs. apply H2, solvent_earn_stmts; done.
Qed.

(** The serving device's share, when a device served the request. *)
Definition paid_direct (sp : Split) (provider : option string) : Z :=
  match provider with Some _ => direct_earn sp | None => 0 end.

Lemma distribute_money sp provider recipients now rid note db :
  0 <= direct_earn sp -> 0 <= per_peer sp -> 0 <= ops_total sp ->
  let db' := distribute sp provider recipients now rid note db in
  supply db' = supply db + paid_direct sp provider +
    per_peer sp * Z.of_nat (length recipients) + ops_total sp /\
  (solvent db -> solvent db').
Proof.
  intros Hd Hp Ho. unfold distribute. cbv zeta. rewrite supply_pay_ops by done.
  match goal with |- context [if 0 <? per_peer sp then foldl _ ?d _ else _] => set (db1 := d) end.
  assert (supply db1 = supply db + paid_direct sp provider /\
          (solvent db -> solvent db1)) as [H1 H2].
  { unfold db1. destruct provider; simpl paid_direct; [|split; [lia|done]].
    destruct (Z.ltb_spec 0 (direct_earn sp)); [|split; [lia|done]].
    rewrite supply_earn. split; [done|]. by apply solvent_earn_stmts. }
  destruct (Z.ltb_spec 0 (per_peer sp)).
  - destruct (peers_loop "AVAILABILITY_EARN" (per_peer sp) now rid note recipients db1 Hp) as [H3 H4].
    cbv zeta in H3. rewrite H3. split; [lia|]. intros. apply solvent_pay_ops. auto.
  - split; [nia|]. intros. apply solvent_pay_ops. auto.
Qed.

(** ** The consumer side *)

Lemma supply_spend x d db :
  is_Some (balances db !! d) -> supply (update_balance (bal_spend x) d db) = supply db - x.
Proof. intros Hd. rewrite (supply_update_balance _ _ _ (- x)); [lia | simpl; lia | done]. Qed.

Lemma supply_count_spent x d db : supply (update_balance (bal_count_spent x) d db) = supply db.
Proof. unfold supply, device_credits. simpl. by rewrite map_sum_alter_same. Qed.

Lemma apply_pro_rata_money key x db :
  solvent db -> 0 < x <= sum_share_key_contributions_tx key db ->
  sum_share_key_contributions_tx key db <= i64_max ->
  supply (apply_pro_rata_share_key_spend_tx key x db) = supply db - x /\
  sum_share_key_contributions_tx key (apply_pro_rata_share_key_spend_tx key x db) =
    sum_share_key_contributions_tx key db - x.
Proof.
  intros Hs Hx Hmax. destruct (apply_pro_rata_frame key x db) as [m Hm].
  pose proof (apply_pro_rata_column key skc_remaining_credits 1 x db Hs Hx Hmax) as H1.
  specialize (H1 ltac:(intros; simpl; lia)).
  pose proof (apply_pro_rata_column key (fun r =>
    if bool_decide (skc_key_id r = key) then skc_remaining_credits r else 0) 1 x db Hs Hx Hmax) as H2.
  specialize (H2 ltac:(intros r y Hk; simpl; rewrite bool_decide_true by done; lia)).
  split; [|unfold sum_share_key_contributions_tx at 1; rewrite H2;
    unfold sum_share_key_contributions_tx; lia].
  rewrite Hm in H1 |- *. unfold supply, pool_credits. rewrite H1. cbn [share_key_contributions].
  unfold device_credits, account_credits, provider_credits. simpl. lia.
Qed.

Lemma pool_sum_le_supply key db :
  solvent db -> 0 <= sum_share_key_contributions_tx key db <= supply db.
Proof.
  intros Hs. pose proof Hs as [H1 H2 H3 H4].
  assert (0 <= sum_share_key_contributions_tx key db <= pool_credits db) as Hp.
  { unfold sum_share_key_contributions_tx, pool_credits. rewrite !map_sum_to_list.
    assert (Forall (fun x : string * ContributionRow => 0 <= skc_remaining_credits x.2)
      (map_to_list (share_key_contributions db))) as HF.
    { apply Forall_forall. intros [i r] Hin. apply elem_of_map_to_list, H4 in Hin. done. }
    induction HF as [|[i r] l Hr _ IH]; [done|]. rewrite !fmap_cons, !zsum_cons. simpl in *.
    case_bool_decide; lia. }
  unfold supply. pose proof (map_sum_nonneg _ _ H1). pose proof (map_sum_nonneg _ _ H2).
  pose proof (map_sum_nonneg _ _ H3). unfold device_credits, account_credits, provider_credits. lia.
Qed.

(** The payable amount of a device-rooted consumer. *)
Definition device_side_cost (consumer : ConsumerPrincipal) (cost : Z) (db : Db) : Z :=
  match consumer with
  | Device d => effective_device_cost cost d db
  | Share issuer key => effective_share_cost cost issuer key (share_funded consumer db) db
  | Account _ _ => 0
  end.

Lemma device_side_cost_bounds consumer cost db :
  solvent db -> 0 <= cost -> 0 <= device_side_cost consumer cost db <= Z.min cost (supply db).
Proof.
  intros Hs Hc. pose proof (supply_nonneg _ Hs). destruct consumer as [d|issuer key|]; simpl; [| |lia].
  - unfold effective_device_cost. pose proof (balance_le_supply d db Hs). lia.
  - unfold effective_share_cost. pose proof (balance_le_supply issuer db Hs).
    pose proof (pool_sum_le_supply key db Hs). case_bool_decide; lia.
Qed.

Lemma debit_device_side_money consumer paying cost db :
  paying_device_id consumer = Some paying -> solvent db -> supply db <= i64_max ->
  is_Some (balances db !! paying) -> 0 < device_side_cost consumer cost db ->
  let x := device_side_cost consumer cost db in
  let db' := debit_device_side consumer (share_funded consumer db) paying x db in
  supply db' = supply db - x /\ solvent db'.
Proof.
  intros Hp Hs Hmax Hrow Hpos. cbv zeta.
  destruct consumer as [d|issuer key|]; simplify_eq/=.
  - rewrite supply_spend by done. split; [done|]. apply solvent_spend; [|done].
    unfold effective_device_cost in *. lia.
  - unfold effective_share_cost in *. case_bool_decide as Hf.
    + set (x := Z.min _ _) in *.
      pose proof (pool_sum_le_supply key db Hs) as Hsum.
      set (db1 := update_share_key (sk_add_consumed x) key db).
      destruct (apply_pro_rata_money key x db1) as [H1 _]; [by apply solvent_update_share_key | | |].
      * change (0 < x <= sum_share_key_contributions_tx key db). lia.
      * change (sum_share_key_contributions_tx key db <= i64_max). lia.
      * rewrite supply_count_spent, H1. split; [done|].
        apply solvent_count_spent, apply_pro_rata_solvent. by apply solvent_update_share_key.
    + set (x := Z.min _ _) in *. rewrite supply_spend by done. split; [done|].
      apply solvent_spend; [change (x <= balance_of paying db); lia|]. auto with ledger.
Qed.

(** ** Whole settlements *)

Lemma settle_device_side now consumer paying provider online cost rid model db db' :
  paying_device_id consumer = Some paying -> 0 < cost ->
  settle_request now consumer provider online cost rid model db = Ok db' ->
  let db0 := ensure_balance paying db in
  let x := device_side_cost consumer cost db0 in
  let recipients := filter (fun d => Some d <> provider /\ d <> paying) online in
  exists note, db' = distribute (fleet_split x (length recipients)) provider recipients now rid note
    (let db1 := insert_ledger paying "SPENT" (i64_neg x) now (Some rid) note db0 in
     if 0 <? x then debit_device_side consumer (share_funded consumer db0) paying x db1 else db1).
Proof.
  intros Hp Hcost. unfold settle_request. rewrite (proj2 (Z.leb_gt cost 0)) by done.
  destruct consumer as [d|issuer key|]; simplify_eq/=; intros [= <-]; eexists; reflexivity.
Qed.

Lemma settle_device_side_money now consumer paying provider online cost rid model db db' :
  paying_device_id consumer = Some paying -> 0 < cost -> solvent db -> circulation_bounded db ->
  settle_request now consumer provider online cost rid model db = Ok db' ->
  let x := device_side_cost consumer cost (ensure_balance paying db) in
  supply db' = supply db - (match provider with Some _ => 0 | None => x * 70 / 100 end) /\
  solvent db'.
Proof.
  intros Hp Hcost Hs Hb H. unfold circulation_bounded in Hb.
  apply (settle_device_side _ _ paying) in H; [|done|done]. cbv zeta in *. destruct H as [note ->].
  set (db0 := ensure_balance paying db) in *. set (x := device_side_cost consumer cost db0).
  set (rs := filter _ online).
  assert (solvent db0) as Hs0 by (unfold db0; auto with ledger).
  assert (supply db0 = supply db) as Hsup0 by apply supply_ensure_balance.
  pose proof (device_side_cost_bounds consumer cost db0 Hs0 ltac:(lia)) as Hx. fold x in Hx.
  destruct (fleet_split_exact x (length rs)) as (Hsum & H1 & H2 & H3 & H4 & _); [lia | lia |].
  set (db1 := insert_ledger _ _ _ _ _ _ _). cbv zeta.
  match goal with |- context [distribute _ _ _ _ _ _ ?d] => set (db2 := d) end.
  assert (supply db2 = supply db - x /\ solvent db2) as [Hsup2 Hs2].
  { unfold db2. destruct (Z.ltb_spec 0 x) as [Hpos|Hneg]; [|split; [simpl; unfold db1; autorewrite with supply; lia|unfold db1; auto with ledger]].
    destruct (debit_device_side_money consumer paying cost db1) as [E1 E2]; try done.
    - unfold db1. auto with ledger.
    - change (supply db0 <= i64_max). lia.
    - apply ensure_balance_row.
    - split; [|exact E2]. etrans; [exact E1|]. change (supply db0 - x = supply db - x). lia. }
  destruct (distribute_money (fleet_split x (length rs)) provider rs now rid note db2 H1 H2 H3) as [E1 E2].
  cbv zeta in E1. split; [|auto]. rewrite E1. unfold paid_direct.
  destruct provider; lia.
Qed.

(** The account path pays from the account wallet, capped by the key's limit. *)
Definition account_cost (cost : Z) (a : string) (api_key : option string) (db : Db) : Z :=
  let eff := Z.min cost (Z.max (account_balance_of a db) 0) in
  match api_key ≫= (fun k => api_key_remaining_limit k db) with
  | Some limit => Z.min eff limit
  | None => eff
  end.

Lemma account_debit_money a x key now db :
  is_Some (account_wallets db !! a) -> x <= account_balance_of a db -> solvent db ->
  let db' := match key with
             | Some k => api_key_use x now k (update_account (aw_post (- x) 0 0 0 now) a db)
             | None => update_account (aw_post (- x) 0 0 0 now) a db end in
  supply db' = supply db - x /\ solvent db'.
Proof.
  intros Ha Hx Hs. cbv zeta.
  assert (supply (update_account (aw_post (- x) 0 0 0 now) a db) = supply db - x) as E.
  { rewrite (supply_update_account _ _ _ (- x)); [lia | done | done]. }
  assert (solvent (update_account (aw_post (- x) 0 0 0 now) a db)) by by apply solvent_aw_debit.
  destruct key; [|done]. rewrite supply_api_key_use. split; [done|]. by apply solvent_api_key_use.
Qed.

Lemma settle_account_side now a key provider online cost rid model db db' :
  settle_request_account now a key provider online cost rid model db = Ok db' ->
  let x := account_cost cost a key db in
  let recipients := filter (fun d => Some d <> provider) online in
  exists note db1, is_Some (account_wallets db !! a) /\ same_money db db1 /\
  api_keys db1 = api_keys db /\
  db' = distribute (fleet_split x (length recipients)) provider recipients now rid note
    (if 0 <? x then
       match key with
       | Some k => api_key_use x now k (update_account (aw_post (- x) 0 0 0 now) a db1)
       | None => update_account (aw_post (- x) 0 0 0 now) a db1 end
     else db1).
Proof.
  unfold settle_request_account. intros H. cbv zeta in *.
  destruct (insert_account_ledger _ _ _ _ _ _ _ _ _) as [db1|] eqn:E; [|done].
  apply insert_account_ledger_Ok in E as (Ha & Hm & Hdb1). simpl in H. injection H as <-.
  assert (account_cost cost a key db =
    match key with
    | Some key_id =>
        match api_keys db !! key_id with
        | Some k =>
            match ak_credit_limit k with
            | Some limit => Z.min (Z.min cost (Z.max (account_balance_of a db) 0))
                              (Z.max (i64_sub limit (ak_usage_credits k)) 0)
            | None => Z.min cost (Z.max (account_balance_of a db) 0)
            end
        | None => Z.min cost (Z.max (account_balance_of a db) 0)
        end
    | None => Z.min cost (Z.max (account_balance_of a db) 0)
    end) as ->.
  { unfold account_cost. destruct key as [k|]; [|done]. simpl. unfold api_key_remaining_limit.
    destruct (api_keys db !! k) as [r|]; [|done]. simpl. by destruct (ak_credit_limit r). }
  eexists _, db1. do 2 (split; [done|]). split; [by rewrite Hdb1|]. reflexivity.
Qed.

Lemma account_cost_bounds cost a key db :
  solvent db -> 0 <= cost ->
  0 <= account_cost cost a key db <= Z.min cost (account_balance_of a db).
Proof.
  intros Hs Hc. pose proof (account_balance_le_supply a db Hs). unfold account_cost.
  destruct key as [k|]; simpl; [|lia]. unfold api_key_remaining_limit.
  destruct (api_keys db !! k) as [r|]; simpl; [|lia]. destruct (ak_credit_limit r); simpl; lia.
Qed.

Lemma settle_account_money now a key provider online cost rid model db db' :
  0 < cost -> solvent db -> circulation_bounded db ->
  settle_request_account now a key provider online cost rid model db = Ok db' ->
  supply db' = supply db -
    (match provider with Some _ => 0 | None => account_cost cost a key db * 70 / 100 end) /\
  solvent db'.
Proof.
  intros Hcost Hs Hb H. unfold circulation_bounded in Hb.
  apply settle_account_side in H. cbv zeta in H. destruct H as (note & db1 & Ha & Hm & _ & ->).
  set (x := account_cost cost a key db) in *. set (rs := filter _ online).
  pose proof (account_cost_bounds cost a key db Hs ltac:(lia)) as Hx. fold x in Hx.
  pose proof (account_balance_le_supply a db Hs).
  destruct (fleet_split_exact x (length rs)) as (Hsum & H1 & H2 & H3 & H4 & _); [lia | lia |].
  match goal with |- context [distribute _ _ _ _ _ _ ?d] => set (db2 := d) end.
  assert (supply db2 = supply db - x /\ solvent db2) as [Hsup2 Hs2].
  { pose proof (same_money_supply _ _ Hm) as E1. pose proof (same_money_solvent _ _ Hm Hs) as Hs1.
    unfold db2. destruct (Z.ltb_spec 0 x); [|split; [lia|done]].
    destruct (account_debit_money a x key now db1) as [E2 E3]; [| |done|].
    - by rewrite (same_accounts _ _ Hm).
    - unfold account_balance_of. rewrite (same_accounts _ _ Hm). fold (account_balance_of a db). lia.
    - cbv zeta in *. split; [|exact E3]. etrans; [exact E2|]. lia. }
  destruct (distribute_money (fleet_split x (length rs)) provider rs now rid note db2 H1 H2 H3) as [E1 E2].
  cbv zeta in E1. split; [|auto]. rewrite E1. unfold paid_direct. destruct provider; lia.
Qed.

(** ** Provider settlement *)

Definition provider_side_cost (consumer : ConsumerPrincipal) (cost : Z) (db : Db) : Z :=
  match consumer with
  | Account a _ => Z.min cost (Z.max (account_balance_of a db) 0)
  | _ => device_side_cost consumer cost db
  end.

Definition ensure_payer (consumer : ConsumerPrincipal) (db : Db) : Db :=
  match paying_device_id consumer with Some d => ensure_balance d db | None => db end.

Lemma ensure_payer_money consumer db :
  supply (ensure_payer consumer db) = supply db /\ (solvent db -> solvent (ensure_payer consumer db)).
Proof.
  unfold ensure_payer. destruct (paying_device_id consumer); [|done].
  rewrite supply_ensure_balance. split; [done|]. apply solvent_ensure_balance.
Qed.

(** The 95/5 split is exact. *)
Lemma provider_split_exact eff :
  0 <= eff -> 100 * eff <= i64_max ->
  let earn := i64_div (i64_mul eff 95) 100 in
  earn = eff * 95 / 100 /\ 0 <= earn /\ 0 <= i64_sub eff earn /\ earn + i64_sub eff earn = eff.
Proof.
  intros H0 H1. cbv zeta. rewrite i64_mul_id by range. unfold i64_div.
  rewrite Z.quot_div_nonneg by lia.
  assert (0 <= eff * 95 / 100 <= eff) by div_lia. rewrite i64_sub_id by range. lia.
Qed.

(** Step by step: the ledger row, the debit, the provider's earning, the fee. *)
Lemma settle_provider_side now consumer pid cost rid model db db' :
  0 < cost -> settle_provider_request now consumer pid cost rid model db = Ok db' ->
  let db0 := ensure_payer consumer db in
  let x := provider_side_cost consumer cost db0 in
  let pe := i64_div (i64_mul x 95) 100 in
  exists note db1 db3, same_money db0 db1 /\ share_keys db1 = share_keys db0 /\
  api_keys db1 = api_keys db0 /\
  match consumer with Account a _ => is_Some (account_wallets db0 !! a) | _ => True end /\
  (let db2 := if 0 <? x then
       match consumer with
       | Device d | Share d _ => debit_device_side consumer (share_funded consumer db0) d x db1
       | Account a key =>
           match key with
           | Some k => api_key_use x now k (update_account (aw_post (- x) 0 0 0 now) a db1)
           | None => update_account (aw_post (- x) 0 0 0 now) a db1 end
       end else db1 in
   if 0 <? pe then
     exists dba dbb, ensure_provider_wallet now pid db2 = Ok dba /\ same_money dba dbb /\
       api_keys dbb = api_keys dba /\
       db3 = update_provider (pw_post pe pe 0 now) pid dbb
   else db3 = db2) /\
  db' = pay_ops (i64_sub x pe) now rid note db3.
Proof.
  intros Hcost. unfold settle_provider_request. rewrite (proj2 (Z.leb_gt cost 0)) by done.
  fold (ensure_payer consumer db). cbv zeta. set (db0 := ensure_payer consumer db).
  intros H.
  assert (match consumer with
      | Device d => effective_device_cost cost d db0
      | Share issuer key => effective_share_cost cost issuer key (share_funded consumer db0) db0
      | Account a _ => Z.min cost (Z.max (account_balance_of a db0) 0) end =
    provider_side_cost consumer cost db0) as Ex by by destruct consumer.
  rewrite Ex in H. clear Ex. set (x := provider_side_cost consumer cost db0) in *.
  set (pe := i64_div (i64_mul x 95) 100) in *.
  match type of H with context [with_shortfall ?b ?s] => set (note := with_shortfall b s) in * end.
  match type of H with (match ?c with Ok _ => _ | Err _ => _ end) = _ => destruct c as [db1|] eqn:E1; [|done] end.
  exists note, db1.
  assert (same_money db0 db1 /\ share_keys db1 = share_keys db0 /\ api_keys db1 = api_keys db0 /\
    match consumer with Account a _ => is_Some (account_wallets db0 !! a) | _ => True end)
    as (Hm & Hsk & Hak & Hacc).
  { destruct consumer as [d|d k|a k]; [by injection E1 as <- | by injection E1 as <- |].
    destruct (insert_account_ledger _ _ _ _ _ _ _ _ _) as [db1'|] eqn:E; [|done].
    injection E1 as <-. apply insert_account_ledger_Ok in E as (? & ? & ->). done. }
  match type of H with context [if 0 <? x then ?a else ?b] => set (db2 := if 0 <? x then a else b) in * end.
  match type of H with (match ?c with Ok _ => _ | Err _ => _ end) = _ => destruct c as [db3|] eqn:E3; [|done] end.
  injection H as <-. exists db3. do 4 (split; [done|]). split; [|done].
  cbv zeta.
  destruct (0 <? pe); [|congruence].
  destruct (ensure_provider_wallet _ _ _) as [dba|] eqn:Ea; [|done]. cbn [map_err] in E3.
  destruct (insert_provider_ledger _ _ _ _ _ _ _ _) as [dbb|] eqn:Eb; [|done]. cbn [map_err] in E3.
  injection E3 as <-. exists dba, dbb. split; [done|].
  pose proof (insert_provider_ledger_Ok _ _ _ _ _ _ _ _ _ Eb). split; [done|]. split; [|done].
  unfold insert_provider_ledger in Eb. destruct (has _ _); [|done]. by injection Eb as <-.
Qed.

Lemma provider_side_cost_bounds consumer cost db :
  solvent db -> 0 <= cost -> 0 <= provider_side_cost consumer cost db <= Z.min cost (supply db).
Proof.
  intros Hs Hc. destruct consumer as [d|d k|a k]; [by apply device_side_cost_bounds ..|].
  cbn [provider_side_cost]. pose proof (account_balance_le_supply a db Hs). lia.
Qed.

Lemma settle_provider_money now consumer pid cost rid model db db' :
  0 < cost -> solvent db -> circulation_bounded db ->
  settle_provider_request now consumer pid cost rid model db = Ok db' ->
  supply db' = supply db /\ solvent db'.
Proof.
  intros Hcost Hs Hb H. unfold circulation_bounded in Hb.
  apply settle_provider_side in H; [|done]. cbv zeta in H.
  destruct (ensure_payer_money consumer db) as [Hsup0 Hsol0]. specialize (Hsol0 Hs).
  set (db0 := ensure_payer consumer db) in *.
  destruct H as (note & db1 & db3 & Hm & Hsk & _ & Hacc & H2 & ->).
  set (x := provider_side_cost consumer cost db0) in *.
  assert (0 <= x /\ x <= supply db0) as [Hx0 Hx1].
  { pose proof (provider_side_cost_bounds consumer cost db0 Hsol0 ltac:(lia)). unfold x. lia. }
  destruct (provider_split_exact x) as (_ & Hpe & Hops & Hsum); [lia | lia |].
  set (pe := i64_div (i64_mul x 95) 100) in *.
  match type of H2 with context [if 0 <? x then ?a else ?b] =>
    set (db2 := if 0 <? x then a else b) in * end.
  pose proof (same_money_supply _ _ Hm) as Hsup1. pose proof (same_money_solvent _ _ Hm Hsol0) as Hs1.
  assert (supply db2 = supply db0 - x /\ solvent db2) as [Hsup2 Hs2].
  { unfold db2. destruct (Z.ltb_spec 0 x) as [Hpos|]; [|split; [lia|done]].
    assert (forall d, paying_device_id consumer = Some d -> x = device_side_cost consumer cost db1 ->
      supply (debit_device_side consumer (share_funded consumer db0) d x db1) = supply db0 - x /\
      solvent (debit_device_side consumer (share_funded consumer db0) d x db1)) as Hdev.
    { intros d Hd Ex. destruct (debit_device_side_money consumer d cost db1) as [E1 E2]; try done.
      - lia.
      - rewrite (same_balances _ _ Hm). unfold db0, ensure_payer. rewrite Hd. apply ensure_balance_row.
      - by rewrite <-Ex.
      - rewrite <-Ex in E1, E2. assert (share_funded consumer db1 = share_funded consumer db0) as Esf.
        { unfold share_funded. by rewrite Hsk. }
        rewrite Esf in E1, E2. cbv zeta in E1. split; [lia|done]. }
    assert (x = provider_side_cost consumer cost db1) as Ex.
    { unfold x. destruct consumer as [d|d k|a k]; simpl;
        unfold effective_device_cost, effective_share_cost, balance_of, account_balance_of,
          sum_share_key_contributions_tx, share_funded;
        by rewrite ?(same_balances _ _ Hm), ?(same_accounts _ _ Hm), ?(same_pools _ _ Hm), ?Hsk. }
    destruct consumer as [d|d k|a k]; [by apply Hdev | by apply Hdev |].
    destruct (account_debit_money a x k now db1) as [E1 E2]; [| |done|].
    - by rewrite (same_accounts _ _ Hm).
    - simpl in Ex. rewrite Ex in Hpos |- *. lia.
    - cbv zeta in *. split; [lia|done]. }
  assert (supply db3 = supply db2 + pe /\ solvent db3) as [Hsup3 Hs3].
  { cbv zeta in H2. fold db2 in H2. destruct (Z.ltb_spec 0 pe); [|subst db3; split; [lia|done]].
    destruct H2 as (dba & dbb & Ha & Hab & _ & ->).
    apply ensure_provider_wallet_Ok in Ha as (Hrow & Hsupa & Hsola & _).
    rewrite (supply_update_provider _ _ _ pe); [| done | by rewrite (same_providers _ _ Hab)].
    rewrite (same_money_supply _ _ Hab), Hsupa. split; [done|].
    apply solvent_update_provider; [simpl; lia|]. apply (same_money_solvent _ _ Hab). auto. }
  rewrite supply_pay_ops by done. split; [lia|]. by apply solvent_pay_ops.
Qed.

(** What the provider earns; the other provider wallets stay as they are. *)
Lemma debit_device_side_providers consumer funded d x db :
  provider_wallets (debit_device_side consumer funded d x db) = provider_wallets db.
Proof.
  unfold debit_device_side. destruct consumer as [| |]; [done| |done]. cbv zeta.
  case_bool_decide; [|done].
  destruct (apply_pro_rata_frame key_id x (update_share_key (sk_add_consumed x) key_id db)) as [m ->].
  done.
Qed.

Lemma settle_provider_earns now consumer pid cost rid model db db' p :
  0 < cost -> solvent db -> circulation_bounded db ->
  settle_provider_request now consumer pid cost rid model db = Ok db' ->
  provider_balance_of p db' = provider_balance_of p db +
    (if decide (pid = p) then provider_side_cost consumer cost db * 95 / 100 else 0).
Proof.
  intros Hcost Hs Hb H. unfold circulation_bounded in Hb.
  apply settle_provider_side in H; [|done]. cbv zeta in H.
  destruct H as (note & db1 & db3 & Hm & _ & _ & _ & H2 & ->).
  assert (provider_side_cost consumer cost (ensure_payer consumer db) =
    provider_side_cost consumer cost db) as Ex.
  { destruct consumer; simpl; [| |done];
      unfold effective_device_cost, effective_share_cost, ensure_payer; simpl;
      rewrite ?balance_of_ensure; done. }
  rewrite Ex in *. set (x := provider_side_cost consumer cost db) in *.
  pose proof (provider_side_cost_bounds consumer cost db Hs ltac:(lia)) as Hx. fold x in Hx.
  destruct (provider_split_exact x) as (Epe & Hpe & _ & _); [lia|lia|]. rewrite <-Epe.
  set (pe := i64_div (i64_mul x 95) 100) in *.
  match type of H2 with context [if 0 <? x then ?a else ?b] =>
    set (db2 := if 0 <? x then a else b) in * end.
  assert (provider_wallets db2 = provider_wallets db) as E2.
  { etrans; [|etrans; [apply (same_providers _ _ Hm)|]].
    - unfold db2. destruct (0 <? x); [|done].
      destruct consumer as [d|d k|a [k|]]; first [apply debit_device_side_providers | reflexivity].
    - unfold ensure_payer. by destruct (paying_device_id consumer). }
  assert (provider_balance_of p (pay_ops (i64_sub x pe) now rid note db3) = provider_balance_of p db3) as ->.
  { unfold pay_ops. destruct (0 <? i64_sub x pe); reflexivity. }
  assert (provider_balance_of p db2 = provider_balance_of p db) as <-.
  { unfold provider_balance_of. by rewrite E2. }
  destruct (Z.ltb_spec 0 pe); [|subst db3; case_decide; lia].
  destruct H2 as (dba & dbb & Ha & Hab & _ & ->).
  apply ensure_provider_wallet_Ok in Ha as (Hrow & _ & _ & _ & _ & Hpb).
  rewrite (provider_balance_update _ pe); [|done|by rewrite (same_providers _ _ Hab)].
  f_equal. rewrite <-Hpb. unfold provider_balance_of. by rewrite (same_providers _ _ Hab).
Qed.

(** Nothing is paid to another provider, whatever the amounts. *)
Lemma settle_provider_others now consumer pid cost rid model db db' p :
  settle_provider_request now consumer pid cost rid model db = Ok db' -> p <> pid ->
  provider_wallets db' !! p = provider_wallets db !! p.
Proof.
  intros H Hne. destruct (Z.leb_spec cost 0) as [Hc|Hc].
  { unfold settle_provider_request in H. rewrite (proj2 (Z.leb_le cost 0) Hc) in H. by injection H as <-. }
  apply settle_provider_side in H; [|done]. cbv zeta in H. destruct H as (note & db1 & db3 & Hm & _ & _ & _ & H2 & ->).
  match type of H2 with context [i64_div (i64_mul ?y 95) 100] => set (x := y) in * end.
  match type of H2 with context [if 0 <? x then ?a else ?b] =>
    set (db2 := if 0 <? x then a else b) in * end.
  assert (provider_wallets db2 = provider_wallets db) as E2.
  { etrans; [|etrans; [apply (same_providers _ _ Hm)|]].
    - unfold db2. destruct (0 <? x); [|done].
      destruct consumer as [d|d k|a [k|]]; first [apply debit_device_side_providers | reflexivity].
    - unfold ensure_payer. by destruct (paying_device_id consumer). }
  rewrite <- E2. transitivity (provider_wallets db3 !! p).
  { unfold pay_ops. destruct (0 <? i64_sub x _); reflexivity. }
  destruct (0 <? i64_div _ _); [|by subst db3].
  destruct H2 as (dba & dbb & Ha & Hab & _ & ->). unfold update_provider. simpl.
  rewrite lookup_alter_ne by done. rewrite (same_providers _ _ Hab).
  unfold ensure_provider_wallet in Ha. destruct (provider_wallets db2 !! pid); [by injection Ha as <-|].
  destruct (has _ _); [|done]. injection Ha as <-. simpl. by rewrite lookup_insert_ne.
Qed.

(** ** Who pays a centralized request *)

(** What a consumer has to spend: its wallet, the pool of a funded share key, or
    the issuer's wallet up to what is left of the budget of the key. *)
Definition spendable (consumer : ConsumerPrincipal) (db : Db) : Z :=
  match consumer with
  | Device d => balance_of d db
  | Account a _ => account_balance_of a db
  | Share issuer key =>
      match share_keys db !! key with
      | Some r =>
          if decide (sk_funded r = 1) then sum_share_key_contributions_tx key db
          else Z.min (balance_of issuer db) (Z.max (sk_budget_credits r - sk_consumed_credits r) 0)
      | None => 0
      end
  end.

(** Where it is taken from: the wallets and pools that a payment [x] lowers. *)
Definition taken_from_device (consumer : ConsumerPrincipal) (db : Db) (x : Z) (d : string) : Z :=
  if decide (paying_device_id consumer = Some d /\ share_funded consumer db <> Some 1) then x else 0.
Definition taken_from_account (consumer : ConsumerPrincipal) (x : Z) (a : string) : Z :=
  match consumer with Account b _ => if decide (b = a) then x else 0 | _ => 0 end.
Definition taken_from_pool (consumer : ConsumerPrincipal) (db : Db) (x : Z) (key : string) : Z :=
  match consumer with
  | Share _ k => if decide (k = key /\ share_funded consumer db = Some 1) then x else 0
  | _ => 0
  end.
Definition takes (consumer : ConsumerPrincipal) (x : Z) (db db' : Db) : Prop :=
  (forall d, balance_of d db' = balance_of d db - taken_from_device consumer db x d) /\
  (forall a, account_balance_of a db' = account_balance_of a db - taken_from_account consumer x a) /\
  (forall key, sum_share_key_contributions_tx key db' =
    sum_share_key_contributions_tx key db - taken_from_pool consumer db x key).

Lemma takes_zero consumer db : takes consumer 0 db db.
Proof.
  unfold takes, taken_from_device, taken_from_account, taken_from_pool. split_and!.
  - intros d. case_decide; lia.
  - intros a. destruct consumer; try lia. case_decide; lia.
  - intros key. destruct consumer; try lia. case_decide; lia.
Qed.

Lemma apply_pro_rata_other key key' x db :
  solvent db -> 0 < x <= sum_share_key_contributions_tx key db ->
  sum_share_key_contributions_tx key db <= i64_max -> key' <> key ->
  sum_share_key_contributions_tx key' (apply_pro_rata_share_key_spend_tx key x db) =
  sum_share_key_contributions_tx key' db.
Proof.
  intros Hs Hx Hmax Hne. unfold sum_share_key_contributions_tx at 1.
  rewrite (apply_pro_rata_column key _ 0); [unfold sum_share_key_contributions_tx; lia|done..|].
  intros r y Hk. simpl. rewrite bool_decide_false by congruence. lia.
Qed.

Lemma debit_device_side_takes consumer d x db :
  paying_device_id consumer = Some d -> solvent db -> supply db <= i64_max ->
  is_Some (balances db !! d) -> 0 < x <= device_side_cost consumer x db ->
  takes consumer x db (debit_device_side consumer (share_funded consumer db) d x db).
Proof.
  intros Hp Hs Hmax Hrow Hx.
  assert (forall f db0, (forall r, bal_balance (f r) = bal_balance r - x) -> balances db0 = balances db ->
    forall d', balance_of d' (update_balance f d db0) = balance_of d' db - (if decide (d = d') then x else 0)) as Hspend.
  { intros f db0 Hf E d'. rewrite (balance_of_update _ (- x)); [|intros; rewrite Hf; lia|by rewrite E].
    unfold balance_of. rewrite E. case_decide; lia. }
  destruct consumer as [d0|issuer key|]; simplify_eq/=.
  - unfold takes, taken_from_device, taken_from_account, taken_from_pool. split_and!; [|intros; unfold account_balance_of; simpl; lia|intros; unfold sum_share_key_contributions_tx; simpl; lia].
    intros d'. rewrite Hspend by done. simpl. repeat case_decide; try lia; naive_solver.
  - set (db1 := update_share_key (sk_add_consumed x) key db). case_bool_decide as Hf.
    + assert (solvent db1) as Hs1 by by apply solvent_update_share_key.
      pose proof (pool_sum_le_supply key db Hs) as Hpool.
      unfold effective_share_cost in Hx. rewrite bool_decide_true in Hx by done.
      assert (sum_share_key_contributions_tx key db1 = sum_share_key_contributions_tx key db) as E1 by done.
      destruct (apply_pro_rata_money key x db1 Hs1) as [_ E]; [lia|lia|].
      destruct (apply_pro_rata_frame key x db1) as [m Em].
      unfold takes, taken_from_device, taken_from_account, taken_from_pool. split_and!.
      * intros d'. rewrite (balance_of_update _ 0); [|intros; simpl; lia|by rewrite Em].
        rewrite Em. change (balance_of d' (set_share_key_contributions m db1)) with (balance_of d' db).
        rewrite (decide_False (P := _ /\ _)) by naive_solver. case_decide; lia.
      * intros a. rewrite Em. unfold account_balance_of. simpl. lia.
      * intros key'. change (sum_share_key_contributions_tx key' (update_balance (bal_count_spent x) d
          (apply_pro_rata_share_key_spend_tx key x db1))) with
          (sum_share_key_contributions_tx key' (apply_pro_rata_share_key_spend_tx key x db1)).
        destruct (decide (key = key' /\ _)) as [[<- _]|Hne].
        -- rewrite E. by rewrite E1.
        -- rewrite apply_pro_rata_other; [|done|lia|lia|naive_solver].
           unfold sum_share_key_contributions_tx. simpl. lia.
    + unfold takes, taken_from_device, taken_from_account, taken_from_pool. split_and!.
      * intros d'. rewrite Hspend by done. simpl. repeat case_decide; try lia; naive_solver.
      * intros a. unfold account_balance_of. simpl. lia.
      * intros key'. rewrite decide_False by naive_solver. unfold sum_share_key_contributions_tx. simpl. lia.
Qed.

Lemma provider_side_cost_spendable consumer cost db :
  solvent db -> 0 < cost -> provider_side_cost consumer cost db = Z.min cost (spendable consumer db).
Proof.
  intros Hs Hc. destruct consumer as [d|issuer key|a key]; simpl.
  - unfold effective_device_cost. pose proof (balance_le_supply d db Hs). lia.
  - unfold effective_share_cost. pose proof (balance_le_supply issuer db Hs).
    pose proof (pool_sum_le_supply key db Hs). destruct (share_keys db !! key) as [r|]; simpl; [|lia].
    destruct (decide (sk_funded r = 1)) as [->|Hf]; [rewrite bool_decide_true by done; lia|].
    rewrite bool_decide_false by congruence. lia.
  - pose proof (account_balance_le_supply a db Hs). lia.
Qed.

Lemma ensure_payer_same consumer db :
  share_keys (ensure_payer consumer db) = share_keys db /\
  share_key_contributions (ensure_payer consumer db) = share_key_contributions db /\
  account_wallets (ensure_payer consumer db) = account_wallets db /\
  provider_wallets (ensure_payer consumer db) = provider_wallets db /\
  forall d, balance_of d (ensure_payer consumer db) = balance_of d db.
Proof.
  unfold ensure_payer. destruct (paying_device_id consumer); [|done].
  split_and!; try done. intros d. apply balance_of_ensure.
Qed.

Lemma spendable_frame consumer db db' :
  share_keys db' = share_keys db -> share_key_contributions db' = share_key_contributions db ->
  account_wallets db' = account_wallets db -> (forall d, balance_of d db' = balance_of d db) ->
  spendable consumer db' = spendable consumer db.
Proof.
  intros E1 E2 E3 E4. unfold spendable, account_balance_of, sum_share_key_contributions_tx.
  destruct consumer; by rewrite ?E1, ?E2, ?E3, ?E4.
Qed.

Lemma takes_frame consumer x db0 db db1 db' :
  share_keys db = share_keys db0 -> share_key_contributions db = share_key_contributions db0 ->
  account_wallets db = account_wallets db0 -> (forall d, balance_of d db = balance_of d db0) ->
  share_key_contributions db' = share_key_contributions db1 ->
  account_wallets db' = account_wallets db1 -> balances db' = balances db1 ->
  takes consumer x db db1 -> takes consumer x db0 db'.
Proof.
  intros E1 E2 E3 E4 F1 F2 F3 (T1 & T2 & T3).
  unfold takes, taken_from_device, taken_from_account, taken_from_pool, share_funded, balance_of,
    account_balance_of, sum_share_key_contributions_tx in *. rewrite F1, F2, F3.
  rewrite E1, E2, E3 in *. split_and!; [|done..]. intros d. by rewrite T1, E4.
Qed.

(** The payer's side of a centralized settlement. *)
Lemma provider_payer_takes now consumer cost db1 :
  solvent db1 -> supply db1 <= i64_max -> 0 < cost ->
  (forall d, paying_device_id consumer = Some d -> is_Some (balances db1 !! d)) ->
  (forall a k, consumer = Account a k -> is_Some (account_wallets db1 !! a)) ->
  let x := Z.min cost (spendable consumer db1) in
  takes consumer x db1
    (if 0 <? x then
       match consumer with
       | Device d | Share d _ => debit_device_side consumer (share_funded consumer db1) d x db1
       | Account a key =>
           match key with
           | Some k => api_key_use x now k (update_account (aw_post (- x) 0 0 0 now) a db1)
           | None => update_account (aw_post (- x) 0 0 0 now) a db1
           end
       end else db1).
Proof.
  intros Hs Hmax Hc Hrow Hacc. cbv zeta.
  rewrite <-provider_side_cost_spendable by done. set (x := provider_side_cost consumer cost db1).
  pose proof (provider_side_cost_bounds consumer cost db1 Hs ltac:(lia)) as Hx. fold x in Hx.
  destruct (Z.ltb_spec 0 x) as [Hpos|]; [|replace x with 0 by lia; apply takes_zero].
  assert (x <= provider_side_cost consumer x db1) as Hxx.
  { rewrite (provider_side_cost_spendable consumer x) by done. unfold x.
    rewrite provider_side_cost_spendable by done. lia. }
  destruct consumer as [d|d k|a k].
  - apply debit_device_side_takes; [done..|by apply Hrow|by split].
  - apply debit_device_side_takes; [done..|by apply Hrow|by split].
  - assert (takes (Account a k) x db1 (update_account (aw_post (- x) 0 0 0 now) a db1)) as Ht.
    { unfold takes, taken_from_device, taken_from_account, taken_from_pool. split_and!.
      - intros d. rewrite decide_False by naive_solver. unfold balance_of. simpl. lia.
      - intros b. rewrite (account_balance_of_update _ (- x)); [case_decide; lia|done|by eapply Hacc].
      - intros key. unfold sum_share_key_contributions_tx. simpl. lia. }
    destruct k; [|done]. by apply (takes_frame _ _ db1 db1 (update_account (aw_post (- x) 0 0 0 now) a db1)).
Qed.

Lemma ensure_provider_wallet_pools now p db db' :
  ensure_provider_wallet now p db = Ok db' -> share_key_contributions db' = share_key_contributions db.
Proof.
  unfold ensure_provider_wallet. destruct (provider_wallets db !! p); [by intros [= <-]|].
  destruct (has _ _); [|done]. by intros [= <-].
Qed.

Lemma settle_provider_takes now consumer pid cost rid model db db' :
  0 < cost -> solvent db -> circulation_bounded db ->
  settle_provider_request now consumer pid cost rid model db = Ok db' ->
  let x := Z.min cost (spendable consumer db) in
  exists db3, takes consumer x db db3 /\
    (forall d, balance_of d db' = balance_of d db3 + (if decide (OPS = d) then x - x * 95 / 100 else 0)) /\
    account_wallets db' = account_wallets db3 /\
    share_key_contributions db' = share_key_contributions db3.
Proof.
  intros Hcost Hs Hb H. unfold circulation_bounded in Hb. cbv zeta.
  apply settle_provider_side in H; [|done]. cbv zeta in H.
  destruct (ensure_payer_money consumer db) as [Hsup0 Hsol0]. specialize (Hsol0 Hs).
  destruct (ensure_payer_same consumer db) as (P1 & P2 & P3 & _ & P5).
  assert (forall d, paying_device_id consumer = Some d -> is_Some (balances (ensure_payer consumer db) !! d)) as Hrow.
  { intros d Hd. unfold ensure_payer. rewrite Hd. apply ensure_balance_row. }
  set (db0 := ensure_payer consumer db) in *.
  destruct H as (note & db1 & db3 & Hm & Hsk & _ & Hacc & H2 & ->).
  pose proof (provider_side_cost_bounds consumer cost db0 Hsol0 ltac:(lia)) as Hxb.
  rewrite (provider_side_cost_spendable consumer cost db0) in * by done.
  assert (spendable consumer db1 = spendable consumer db0) as Esp.
  { apply spendable_frame; [done|apply Hm|apply Hm|]. intros d. unfold balance_of. by rewrite (same_balances _ _ Hm). }
  assert (spendable consumer db0 = spendable consumer db) as Esp0 by by apply spendable_frame.
  assert (share_funded consumer db1 = share_funded consumer db0) as Esf.
  { unfold share_funded. by rewrite Hsk. }
  pose proof (provider_payer_takes now consumer cost db1) as Ht.
  rewrite Esp, Esf in Ht. rewrite <-Esp0. set (x := Z.min cost (spendable consumer db0)) in *. cbv zeta in Ht.
  destruct (provider_split_exact x) as (Epe & Hpe & Hops & Hsum); [lia|lia|].
  set (pe := i64_div (i64_mul x 95) 100) in *.
  match type of H2 with context [if 0 <? x then ?a else ?b] => set (db2 := if 0 <? x then a else b) in * end.
  assert (balances db3 = balances db2 /\ account_wallets db3 = account_wallets db2 /\
    share_key_contributions db3 = share_key_contributions db2) as (F1 & F2 & F3).
  { cbv zeta in H2. destruct (0 <? pe); [|by subst].
    destruct H2 as (dba & dbb & Ha & Hab & _ & ->). pose proof (ensure_provider_wallet_pools _ _ _ _ Ha) as Hap.
    apply ensure_provider_wallet_Ok in Ha as (_ & _ & _ & Hb1 & Hb2 & _). destruct Hab as [A1 A2 _ A4].
    simpl. rewrite A1, A2, A4. done. }
  exists db3. split.
  - assert (forall d, balance_of d db1 = balance_of d db) as Eb.
    { intros d. rewrite <-P5. unfold balance_of. by rewrite (same_balances _ _ Hm). }
    apply (takes_frame consumer x db db1 db2); try done.
    + by rewrite Hsk.
    + by rewrite (same_pools _ _ Hm).
    + by rewrite (same_accounts _ _ Hm).
    + apply Ht; [by apply (same_money_solvent _ _ Hm)|rewrite (same_money_supply _ _ Hm); lia|done| |].
      * intros d Hd. rewrite (same_balances _ _ Hm). by apply Hrow.
      * intros a k ->. by rewrite (same_accounts _ _ Hm).
  - split; [|unfold pay_ops; destruct (0 <? i64_sub x pe); split; simpl; congruence]. intros d.
    assert (i64_sub x pe = x - x * 95 / 100) as Eops by lia.
    rewrite Eops in *. unfold pay_ops. destruct (Z.ltb_spec 0 (x - x * 95 / 100)); [apply balance_of_earn|].
    replace (x - x * 95 / 100) with 0 by lia. case_decide; lia.
Qed.

(** ** Who is paid what *)

Definition count_in (d : string) (l : list string) : Z := Z.of_nat (length (filter (fun x => x = d) l)).

Lemma peers_loop_balance ty x now rid note peers db d :
  balance_of d (foldl (fun db peer => earn peer ty x now rid note db) db peers) =
  balance_of d db + x * count_in d peers.
Proof.
  unfold count_in. revert db. induction peers as [|p peers IH]; intros db; [simpl; lia|].
  cbn [foldl]. rewrite IH, balance_of_earn, filter_cons. case_decide; cbn [length]; lia.
Qed.

Lemma pay_ops_balance x now rid note db d :
  0 <= x -> balance_of d (pay_ops x now rid note db) = balance_of d db + (if decide (OPS = d) then x else 0).
Proof.
  intros Hx. unfold pay_ops. destruct (Z.ltb_spec 0 x); [apply balance_of_earn|].
  replace x with 0 by lia. case_decide; lia.
Qed.

Lemma distribute_balance sp provider recipients now rid note db d :
  0 <= direct_earn sp -> 0 <= per_peer sp -> 0 <= ops_total sp ->
  balance_of d (distribute sp provider recipients now rid note db) =
  balance_of d db + (if decide (provider = Some d) then direct_earn sp else 0) +
  per_peer sp * count_in d recipients + (if decide (OPS = d) then ops_total sp else 0).
Proof.
  intros Hd Hp Ho. unfold distribute. cbv zeta. rewrite pay_ops_balance by done.
  match goal with |- context [if 0 <? per_peer sp then foldl _ ?d _ else _] => set (db1 := d) end.
  assert (balance_of d db1 = balance_of d db + (if decide (provider = Some d) then direct_earn sp else 0)) as H1.
  { unfold db1. destruct provider as [p|]; [|rewrite decide_False by done; lia].
    destruct (Z.ltb_spec 0 (direct_earn sp)); [rewrite balance_of_earn|replace (direct_earn sp) with 0 by lia];
      repeat case_decide; congruence || lia. }
  destruct (Z.ltb_spec 0 (per_peer sp)) as [Hpos|Hz].
  - rewrite peers_loop_balance, H1. lia.
  - rewrite H1. replace (per_peer sp) with 0 by lia. lia.
Qed.

(** ** API keys *)

Lemma api_keys_earn d ty x now rid note db : api_keys (earn d ty x now rid note db) = api_keys db.
Proof. done. Qed.

Lemma api_keys_distribute sp provider recipients now rid note db :
  api_keys (distribute sp provider recipients now rid note db) = api_keys db.
Proof.
  unfold distribute, pay_ops. cbv zeta.
  assert (forall peers db0, api_keys (foldl (fun db peer => earn peer "AVAILABILITY_EARN" (per_peer sp)
    now rid note db) db0 peers) = api_keys db0) as Hl.
  { induction peers as [|p peers IH]; intros db0; [done|]. cbn [foldl]. by rewrite IH. }
  destruct (0 <? ops_total sp); rewrite ?api_keys_earn; destruct (0 <? per_peer sp); rewrite ?Hl;
    destruct provider; try done; by destruct (0 <? direct_earn sp).
Qed.

(** Paying out touches neither pools nor keys. *)
Lemma distribute_frame sp provider recipients now rid note db :
  let db' := distribute sp provider recipients now rid note db in
  share_keys db' = share_keys db /\ share_key_contributions db' = share_key_contributions db.
Proof.
  unfold distribute, pay_ops. cbv zeta.
  set (loop := foldl (fun db peer => earn peer "AVAILABILITY_EARN" (per_peer sp) now rid note db)).
  assert (forall peers db0, share_keys (loop db0 peers) = share_keys db0 /\
    share_key_contributions (loop db0 peers) = share_key_contributions db0) as Hl.
  { induction peers as [|p peers IH]; intros db0; [done|]. unfold loop. cbn [foldl].
    destruct (IH (earn p "AVAILABILITY_EARN" (per_peer sp) now rid note db0)) as [E1 E2].
    split; [etrans; [exact E1|done] | etrans; [exact E2|done]]. }
  assert (forall d ty x db0, share_keys (earn d ty x now rid note db0) = share_keys db0 /\
    share_key_contributions (earn d ty x now rid note db0) = share_key_contributions db0) as He by done.
  set (db1 := match provider with Some p => if 0 <? direct_earn sp then _ else db | None => db end).
  assert (share_keys db1 = share_keys db /\ share_key_contributions db1 = share_key_contributions db) as [E1 E2].
  { unfold db1. destruct provider; [|done]. destruct (0 <? direct_earn sp); done. }
  rewrite <-E1, <-E2. destruct (Hl recipients db1) as [E3 E4].
  destruct (0 <? ops_total sp), (0 <? per_peer sp); split; try done; etrans; done || exact E3 || exact E4.
Qed.

Definition key_within_limit (key : string) (db : Db) : Prop :=
  match api_keys db !! key with
  | Some r => match ak_credit_limit r with Some l => ak_usage_credits r <= l | None => True end
  | None => True
  end.

(** The payer's side of a request on a funded key: the pool pays, the wallets
    stay. *)
Lemma debit_share_side issuer key x db r :
  solvent db -> circulation_bounded db -> is_Some (balances db !! issuer) ->
  share_keys db !! key = Some r -> 0 <= x <= sum_share_key_contributions_tx key db ->
  let db' := if 0 <? x then debit_device_side (Share issuer key) (Some 1) issuer x db else db in
  sum_share_key_contributions_tx key db' = sum_share_key_contributions_tx key db - x /\
  sk_consumed_credits <$> share_keys db' !! key = Some (sk_consumed_credits r + x) /\
  forall d, balance_of d db' = balance_of d db.
Proof.
  intros Hs Hb Hrow Hr Hx. unfold circulation_bounded in Hb. cbv zeta.
  pose proof (pool_sum_le_supply key db Hs) as Hpool.
  destruct (Z.ltb_spec 0 x) as [Hpos|Hz].
  - set (db3 := update_share_key (sk_add_consumed x) key db).
    assert (solvent db3) as Hs3 by (unfold db3; auto with ledger).
    assert (sum_share_key_contributions_tx key db3 = sum_share_key_contributions_tx key db) as Esum by done.
    destruct (apply_pro_rata_money key x db3 Hs3) as [_ E]; [lia | unfold i64_max in *; lia |].
    destruct (apply_pro_rata_frame key x db3) as [m Em].
    unfold debit_device_side. fold db3. rewrite bool_decide_true by done. split_and!.
    + etrans; [exact E|]. lia.
    + rewrite Em. simpl. rewrite lookup_alter_eq, Hr. done.
    + intros d. rewrite (balance_of_update _ 0); [|intros; simpl; lia|by rewrite Em].
      rewrite Em. change (balance_of d (set_share_key_contributions m db3)) with (balance_of d db).
      case_decide; lia.
  - assert (x = 0) as -> by lia. rewrite Hr. simpl. split_and!; [lia|f_equal; lia|done].
Qed.

(** ** Claims *)

(** settling a request on the device fleet conserves credits and overdraws no
    wallet, whoever pays (a device, a share key or an account): what the
    payer loses is exactly what the serving device, the available devices and
    the operator gain. *)
Theorem settle_request_conserves now consumer provider online cost rid model db db' :
  solvent db -> circulation_bounded db ->
  settle_request now consumer (Some provider) online cost rid model db = Ok db' ->
  supply db' = supply db /\ solvent db'.
Proof.
  intros Hs Hb H. destruct (Z.leb_spec cost 0) as [Hc|Hc].
  { unfold settle_request in H. rewrite (proj2 (Z.leb_le cost 0) Hc) in H. by injection H as <-. }
  destruct (paying_device_id consumer) as [d|] eqn:Hp.
  - apply (settle_device_side_money _ _ d) in H as [H1 H2]; [|done..]. cbv zeta in H1. split; [lia|done].
  - destruct consumer as [| |a key]; [done|done|]. unfold settle_request in H.
    rewrite (proj2 (Z.leb_gt cost 0)) in H by done.
    apply settle_account_money in H as [H1 H2]; [|done..]. split; [lia|done].
Qed.

Lemma settle_request_conserves_witness :
  exists db', settle_request 80 (Share "alice" "sk") (Some "carol") ["alice"; "bob"; "carol"] 300
    "req" "m" demo = Ok db' /\ supply db' = supply demo /\ solvent db'.
Proof.
  run_ok1 (settle_request 80 (Share "alice" "sk") (Some "carol") ["alice"; "bob"; "carol"] 300
    "req" "m" demo).
  eexists _. split; [reflexivity|].
  refine (settle_request_conserves _ _ _ _ _ _ _ _ _ demo_solvent _ Erun).
  vm_compute. congruence.
Defined.

(** C7: a device-paid request moves exactly these amounts: the payer loses the
    cost or all it has, the serving device gains 70% of that, every other
    available device an equal share of 25%, and the operator the rest; no
    other device wallet changes. *)
Theorem settle_device_request_balances now payer provider online cost rid model db db' :
  solvent db -> circulation_bounded db -> 0 < cost ->
  settle_request now (Device payer) (Some provider) online cost rid model db = Ok db' ->
  let paid := Z.min cost (balance_of payer db) in
  let peers := filter (fun d => Some d <> Some provider /\ d <> payer) online in
  let direct := paid * 70 / 100 in
  let each := if Nat.eqb (length peers) 0 then 0
              else paid * 25 / 100 / Z.of_nat (length peers) in
  let ops := paid - direct - each * Z.of_nat (length peers) in
  (paid * 5 / 100 <= ops) /\
  forall d, balance_of d db' = balance_of d db - (if decide (payer = d) then paid else 0) +
    (if decide (provider = d) then direct else 0) + each * count_in d peers +
    (if decide (OPS = d) then ops else 0).
Proof.
  intros Hs Hb Hcost H. cbv zeta. unfold circulation_bounded in Hb.
  apply (settle_device_side _ _ payer) in H; [|done|done]. cbv zeta in H. destruct H as [note ->].
  set (peers := filter _ online). set (db0 := ensure_balance payer db).
  pose proof (balance_le_supply payer db Hs) as Hbal.
  assert (device_side_cost (Device payer) cost db0 = Z.min cost (balance_of payer db)) as ->.
  { simpl. unfold effective_device_cost, db0. rewrite balance_of_ensure. lia. }
  set (paid := Z.min cost (balance_of payer db)).
  destruct (fleet_split_exact paid (length peers)) as (Hsum & H1 & H2 & H3 & H4 & H5 & H6); [lia | lia |].
  split; [rewrite <-H5, <-H4; lia|]. intros d. rewrite distribute_balance by done.
  set (db1 := insert_ledger _ _ _ _ _ _ _).
  assert (balance_of d (if 0 <? paid then debit_device_side (Device payer) (share_funded (Device payer) db0)
    payer paid db1 else db1) = balance_of d db - (if decide (payer = d) then paid else 0)) as ->.
  { assert (balance_of d db1 = balance_of d db) as E by (unfold db1, db0; apply balance_of_ensure).
    destruct (Z.ltb_spec 0 paid) as [Hpos|Hz].
    - simpl. rewrite (balance_of_update _ (- paid)); [|intros; simpl; lia|apply ensure_balance_row].
      rewrite E. case_decide; lia.
    - rewrite E. replace paid with 0 by lia. case_decide; lia. }
  rewrite H4, H5 in Hsum |- *. repeat case_decide; try congruence; lia.
Qed.

Lemma settle_device_request_balances_witness :
  exists db', settle_request 80 (Device "bob") (Some "carol") ["alice"; "bob"; "carol"] 1000
    "req" "m" demo = Ok db' /\ balance_of "carol" db' = 700 /\ balance_of "bob" db' = 3899.
Proof.
  run_ok1 (settle_request 80 (Device "bob") (Some "carol") ["alice"; "bob"; "carol"] 1000
    "req" "m" demo).
  eexists _. split; [reflexivity|].
  destruct (settle_device_request_balances 80 "bob" "carol" ["alice"; "bob"; "carol"] 1000 "req" "m"
    demo _ demo_solvent ltac:(vm_compute; congruence) ltac:(lia) Erun) as [_ Hbal].
  rewrite !Hbal. split; vm_compute; reflexivity.
Defined.

(** C8: a request paid with a funded share key takes the cost, or all that is
    left, out of the key's pool and adds it to the key's consumption; the
    issuer's wallet is not debited, and the earners are paid as for any other
    request. *)
Theorem settle_share_request_spends_pool now issuer key provider online cost rid model db db' r :
  solvent db -> circulation_bounded db -> 0 < cost ->
  share_keys db !! key = Some r -> sk_funded r = 1 ->
  settle_request now (Share issuer key) (Some provider) online cost rid model db = Ok db' ->
  let paid := Z.min cost (sum_share_key_contributions_tx key db) in
  let peers := filter (fun d => Some d <> Some provider /\ d <> issuer) online in
  let sp := fleet_split paid (length peers) in
  sum_share_key_contributions_tx key db' = sum_share_key_contributions_tx key db - paid /\
  sk_consumed_credits <$> share_keys db' !! key = Some (sk_consumed_credits r + paid) /\
  forall d, balance_of d db' = balance_of d db + (if decide (provider = d) then direct_earn sp else 0) +
    per_peer sp * count_in d peers + (if decide (OPS = d) then ops_total sp else 0).
Proof.
  intros Hs Hb Hcost Hr Hfd H. cbv zeta. unfold circulation_bounded in Hb.
  apply (settle_device_side _ _ issuer) in H; [|done|done]. cbv zeta in H. destruct H as [note ->].
  set (peers := filter _ online). set (db0 := ensure_balance issuer db).
  assert (share_funded (Share issuer key) db0 = Some 1) as Hsf by (simpl; rewrite Hr; simpl; by rewrite Hfd).
  pose proof (pool_sum_le_supply key db Hs) as Hpool.
  assert (device_side_cost (Share issuer key) cost db0 = Z.min cost (sum_share_key_contributions_tx key db)) as ->.
  { unfold device_side_cost. rewrite Hsf. unfold effective_share_cost. rewrite bool_decide_true by done.
    change (sum_share_key_contributions_tx key db0) with (sum_share_key_contributions_tx key db). lia. }
  set (paid := Z.min cost (sum_share_key_contributions_tx key db)). rewrite Hsf.
  destruct (fleet_split_exact paid (length peers)) as (_ & H1 & H2 & H3 & _); [lia | lia |].
  set (db1 := insert_ledger _ _ _ _ _ _ _).
  set (db2 := if 0 <? paid then _ else db1).
  destruct (distribute_frame (fleet_split paid (length peers)) (Some provider) peers now rid note db2)
    as [Esk Epool].
  assert (solvent db1) as Hs1 by (unfold db1, db0; auto with ledger).
  assert (sum_share_key_contributions_tx key db1 = sum_share_key_contributions_tx key db) as E1 by done.
  destruct (debit_share_side issuer key paid db1 r) as (Hsum & Hcons & Hbal); [done| |apply ensure_balance_row|done|lia|].
  { unfold circulation_bounded, db1, db0. rewrite supply_insert_ledger, supply_ensure_balance. done. }
  fold db2 in Hsum, Hcons, Hbal. rewrite E1 in Hsum.
  assert (forall d, balance_of d db1 = balance_of d db) as Hb1 by (intros; apply balance_of_ensure).
  split; [|split].
  - unfold sum_share_key_contributions_tx at 1. rewrite Epool. exact Hsum.
  - rewrite Esk. exact Hcons.
  - intros d. rewrite distribute_balance by done. rewrite Hbal, Hb1. repeat case_decide; try congruence; lia.
Qed.

Lemma settle_share_request_spends_pool_witness :
  exists db', settle_request 80 (Share "alice" "sk") (Some "carol") ["alice"; "bob"; "carol"] 300
    "req" "m" demo = Ok db' /\ sum_share_key_contributions_tx "sk" db' = 701.
Proof.
  run_ok1 (settle_request 80 (Share "alice" "sk") (Some "carol") ["alice"; "bob"; "carol"] 300
    "req" "m" demo).
  eexists _. split; [reflexivity|].
  destruct (share_keys demo !! "sk") as [r|] eqn:Hr; [|vm_compute in Hr; discriminate Hr].
  destruct (settle_share_request_spends_pool 80 "alice" "sk" "carol" ["alice"; "bob"; "carol"] 300 "req"
    "m" demo _ r demo_solvent
    ltac:(vm_compute; congruence) ltac:(lia) Hr ltac:(vm_compute in Hr; injection Hr as <-; reflexivity) Erun)
    as [Hsum _].
  rewrite Hsum. vm_compute. reflexivity.
Defined.



(** C10: on the device fleet an API key's lifetime credit limit is a cap: a key
    that was within its limit is within it after any account-paid request. *)
Theorem settle_request_respects_key_limit now a key provider online cost rid model db db' r :
  solvent db -> api_keys db !! key = Some r -> in_i64 (default 0 (ak_credit_limit r) - ak_usage_credits r) ->
  0 <= cost -> key_within_limit key db ->
  settle_request now (Account a (Some key)) provider online cost rid model db = Ok db' ->
  key_within_limit key db'.
Proof.
  intros Hs Hr Hrange Hc Hlim H. unfold settle_request in H.
  destruct (Z.leb_spec cost 0) as [|Hpos]; [by injection H as <-|].
  apply settle_account_side in H. cbv zeta in H. destruct H as (note & db1 & Ha & Hm & Hak & ->).
  unfold key_within_limit in *. rewrite api_keys_distribute. rewrite Hr in Hlim.
  pose proof (account_cost_bounds cost a (Some key) db Hs Hc) as Hx.
  set (x := account_cost cost a (Some key) db) in *.
  destruct (Z.ltb_spec 0 x); [|by rewrite Hak, Hr]. simpl. rewrite Hak, lookup_alter_eq, Hr. simpl.
  destruct (ak_credit_limit r) as [l|] eqn:Hl; [|done]. simpl in Hrange.
  assert (x <= l - ak_usage_credits r); [|lia].
  unfold x, account_cost, api_key_remaining_limit. simpl. rewrite Hr. simpl. rewrite Hl. simpl.
  rewrite i64_sub_id by done. lia.
Qed.

Lemma settle_request_respects_key_limit_witness :
  exists db', settle_request 80 (Account ann (Some "key")) (Some "carol") ["carol"] 5000 "req" "m" demo
    = Ok db' /\ key_within_limit "key" db'.
Proof.
  run_ok1 (settle_request 80 (Account ann (Some "key")) (Some "carol") ["carol"] 5000 "req" "m" demo).
  eexists _. split; [reflexivity|].
  refine (settle_request_respects_key_limit 80 ann "key" (Some "carol") ["carol"] 5000 "req" "m" demo _
    (mkApiKeyRow ann "tk_live_secret" "tk_live_secret" None "live" (Some 1000) 0 0 32 None) demo_solvent _ _ _ _ Erun).
  - vm_compute. reflexivity.
  - split; vm_compute; congruence.
  - lia.
  - vm_compute. congruence.
Defined.

(** With a centralized provider the same key is not capped: a key with a
    limit of 1000 credits pays a request of 5000 in full. *)
Theorem provider_settlement_ignores_key_limit :
  key_within_limit "key" demo /\
  match settle_provider_request 80 (Account ann (Some "key")) "acme" 5000 "req" "m" demo with
  | Ok db' => ak_usage_credits <$> api_keys db' !! "key" = Some 5000 /\ ~ key_within_limit "key" db'
  | Err _ => False
  end.
Proof.
  split; [vm_compute; congruence|]. vm_compute. split; [reflexivity|]. intros H. by apply H.
Qed.
