(* ===== verification/AccountsFacts.v ===== *)
(** * Account wallets: correctness

    A transfer moves exactly its amount between two different wallets and
    touches no third one; a sweep moves a whole device wallet into its
    account; linking and removing devices move nothing; account ids have one
    canonical form. *)

From Stdlib Require Import Ascii.
From stdpp Require Import sorting.
From S2P Require Import Prelude Db RustStr Wallet Accounts Fixtures.

Open Scope string_scope.
Open Scope Z_scope.

(** ** Wallets, whoever owns them *)

Inductive Holder : Type := HDevice (device_id : string) | HAccount (account_user_id : string).

#[export] Instance Holder_eq_dec : EqDecision Holder.
Proof. solve_decision. Defined.

Definition holding (h : Holder) (db : Db) : Z :=
  match h with HDevice d => balance_of d db | HAccount a => account_balance_of a db end.

Definition target_holder (t : ResolvedTransferTarget) : Holder :=
  match t with ToDevice d => HDevice d | ToAccount a _ _ _ _ => HAccount a end.

Definition moved (x : Z) (from to h : Holder) : Z :=
  (if decide (h = to) then x else 0) - (if decide (h = from) then x else 0).

Lemma holding_same_money db db' h : same_money db db' -> holding h db' = holding h db.
Proof.
  intros [H1 H2 _ _]. destruct h; simpl; unfold balance_of, account_balance_of; by rewrite ?H1, ?H2.
Qed.

Lemma holding_update_balance f x d h db :
  (forall r, bal_balance (f r) = bal_balance r + x) -> is_Some (balances db !! d) ->
  holding h (update_balance f d db) = holding h db + (if decide (h = HDevice d) then x else 0).
Proof.
  intros Hf Hd. destruct h as [d'|a']; cbn [holding].
  - rewrite (balance_of_update _ x) by done. f_equal.
    destruct (decide (d = d')) as [->|]; case_decide; congruence.
  - rewrite ?decide_False by done. unfold account_balance_of. simpl. lia.
Qed.

Lemma holding_update_account f x a h db :
  (forall r, aw_balance_credits (f r) = aw_balance_credits r + x) ->
  is_Some (account_wallets db !! a) ->
  holding h (update_account f a db) = holding h db + (if decide (h = HAccount a) then x else 0).
Proof.
  intros Hf Ha. destruct h as [d'|a']; cbn [holding].
  - rewrite ?decide_False by done. unfold balance_of. simpl. lia.
  - rewrite (account_balance_of_update _ x) by done. f_equal.
    destruct (decide (a = a')) as [->|]; case_decide; congruence.
Qed.

Lemma holding_ensure_balance d h db : holding h (ensure_balance d db) = holding h db.
Proof. destruct h; simpl; [apply balance_of_ensure | done]. Qed.

(** ** Resolving a recipient *)

Definition target_exists (t : ResolvedTransferTarget) (db : Db) : Prop :=
  match t with
  | ToDevice d => is_Some (devices db !! d)
  | ToAccount a _ _ _ _ => is_Some (account_wallets db !! a)
  end.

Lemma load_account_target_exists p db t :
  load_account_target_from_query p db = Ok t ->
  exists a r, t = account_target a r /\ account_wallets db !! a = Some r /\ p r = true /\
  forall a' r', account_wallets db !! a' = Some r' -> p r' = true -> a' = a.
Proof.
  unfold load_account_target_from_query.
  destruct (select_where _ _) as [|[a r] [|? ?]] eqn:E; try done. intros [= <-].
  assert (forall a' r', account_wallets db !! a' = Some r' /\ p r' = true <-> (a', r') ∈ [(a, r)]) as Hsel.
  { intros a' r'. by rewrite <-E, select_where_spec. }
  exists a, r. split; [done|]. destruct (proj2 (Hsel a r)) as [? ?]; [by left|].
  do 2 (split; [done|]). intros a' r' H1 H2.
  pose proof (proj1 (Hsel a' r') (conj H1 H2)) as Hin.
  apply list_elem_of_singleton in Hin. congruence.
Qed.

Lemma resolve_target_exists raw db t :
  resolve_transfer_target_tx raw db = Ok t -> target_exists t db.
Proof.
  unfold resolve_transfer_target_tx. cbv zeta.
  set (by_lookup := match parse_transfer_lookup raw with Ok _ => _ | Err e => Err e end).
  assert (by_lookup = Ok t -> target_exists t db) as Hby.
  { unfold by_lookup. destruct (parse_transfer_lookup raw) as [[d|a|e|p|g]|]; [| | | | |done].
    - destruct (has d (devices db)) eqn:Hd; [|done]. intros [= <-]. by apply has_true in Hd.
    - destruct (account_wallets db !! a) eqn:Ha; [|done]. intros [= <-]. simpl. by rewrite Ha.
    - intros (a & r & -> & Ha & _)%load_account_target_exists. simpl. by rewrite Ha.
    - intros (a & r & -> & Ha & _)%load_account_target_exists. simpl. by rewrite Ha.
    - intros (a & r & -> & Ha & _)%load_account_target_exists. simpl. by rewrite Ha. }
  destruct (_ && _); [|done]. destruct (has _ (devices db)) eqn:Hd.
  { intros [= <-]. by apply has_true in Hd. }
  destruct (account_wallets db !! trim raw) eqn:Ha; [|done]. intros [= <-]. simpl. by rewrite Ha.
Qed.

(** The resolution reads only the device and account tables. *)
Lemma resolve_target_frame raw db db' :
  devices db' = devices db -> account_wallets db' = account_wallets db ->
  resolve_transfer_target_tx raw db' = resolve_transfer_target_tx raw db.
Proof.
  intros H1 H2. unfold resolve_transfer_target_tx, load_account_target_from_query. by rewrite H1, H2.
Qed.

(** ** Transfers *)

Lemma credit_recipient_Ok now x t actor note db db' :
  credit_recipient now x t actor note db = Ok db' -> target_exists t db ->
  supply db' = supply db + x /\ (0 <= x -> solvent db -> solvent db') /\
  forall h, holding h db' = holding h db + (if decide (h = target_holder t) then x else 0).
Proof.
  destruct t as [d|a name ph em gh]; simpl.
  - intros [= <-] _. assert (is_Some (balances (ensure_balance d db) !! d)) as Hd
      by apply ensure_balance_row.
    rewrite supply_insert_ledger, (supply_update_balance _ _ _ x), supply_ensure_balance by done.
    split; [done|]. split; [auto with ledger|]. intros h.
    etrans; [apply (holding_same_money _ _ _ (same_money_refl
      (update_balance (bal_add x) d (ensure_balance d db)) _ eq_refl eq_refl eq_refl eq_refl))|].
    by rewrite (holding_update_balance _ x), holding_ensure_balance.
  - intros H Ha. destruct (insert_account_ledger _ _ _ _ _ _ _ _ _) as [db1|] eqn:E; [|done].
    injection H as <-. apply insert_account_ledger_Ok in E as (_ & Hm & _).
    rewrite (same_money_supply _ _ Hm), (supply_update_account _ _ _ x) by done.
    split; [done|]. split; [intros; apply (same_money_solvent _ _ Hm); auto with ledger|].
    intros h. by rewrite (holding_same_money _ _ _ Hm), (holding_update_account _ x).
Qed.

Lemma is_device_target_false d t : is_device_target d t = false <-> target_holder t <> HDevice d.
Proof. destruct t; simpl; [rewrite bool_decide_eq_false|]; naive_solver. Qed.
Lemma is_account_target_false a t : is_account_target a t = false <-> target_holder t <> HAccount a.
Proof. destruct t; simpl; [|rewrite bool_decide_eq_false]; naive_solver. Qed.

(** What a transfer out of wallet [from] that answers [Ok] did. *)
Definition transferred (from : Holder) (x : Z) (raw : string) (db : Db)
    (rcpt : TransferReceipt) (db' : Db) : Prop :=
  exists t, resolve_transfer_target_tx raw db = Ok t /\ tr_recipient rcpt = target_summary t /\
  target_holder t <> from /\ 0 < x <= holding from db /\
  (forall h, holding h db' = holding h db + moved x from (target_holder t) h) /\
  supply db' = supply db /\ (solvent db -> solvent db').

Lemma transfer_from_device_Ok now d raw x memo db rcpt db' :
  transfer_from_device_wallet now d raw x memo db = Ok (rcpt, db') ->
  transferred (HDevice d) x raw db rcpt db'.
Proof.
  unfold transfer_from_device_wallet. destruct (Z.leb_spec x 0) as [|Hx]; [done|]. cbn [negb].
  rewrite balance_of_ensure. destruct (Z.leb_spec x (balance_of d db)) as [Hle|]; [|done].
  rewrite (resolve_target_frame raw db) by done. intros H.
  destruct (resolve_transfer_target_tx raw db) as [t|] eqn:Er; [|done].
  destruct (is_device_target d t) eqn:Hne; [done|]. cbn [negb] in H.
  apply is_device_target_false in Hne.
  set (db0 := ensure_balance d db) in *.
  set (db1 := insert_ledger d _ _ _ _ _ (update_balance (bal_add (- x)) d db0)) in *.
  assert (same_money (update_balance (bal_add (- x)) d db0) db1) as Hm by done.
  assert (is_Some (balances db0 !! d)) as Hd by apply ensure_balance_row.
  destruct (credit_recipient _ _ _ _ _ _) as [db2|] eqn:Ec; [|done]. injection H as <- <-.
  apply credit_recipient_Ok in Ec as (Hsup & Hsol & Hhold);
    [|apply (resolve_target_exists raw); rewrite (resolve_target_frame raw db) by done; done].
  exists t. do 2 (split; [done|]). split; [done|]. split; [simpl; lia|]. split_and!.
  - intros h. rewrite Hhold, (holding_same_money _ _ _ Hm), (holding_update_balance _ (- x)) by done.
    unfold db0. rewrite holding_ensure_balance. unfold moved. repeat case_decide; lia.
  - rewrite Hsup, (same_money_supply _ _ Hm), (supply_update_balance _ _ _ (- x)) by done.
    unfold db0. rewrite supply_ensure_balance. lia.
  - intros Hs. apply Hsol; [lia|]. apply (same_money_solvent _ _ Hm), solvent_sub.
    + unfold db0. by rewrite balance_of_ensure.
    + unfold db0. auto with ledger.
Qed.

Lemma transfer_from_account_Ok now a raw x memo actor db rcpt db' :
  transfer_from_account_wallet_for_account now a raw x memo actor db = Ok (rcpt, db') ->
  transferred (HAccount a) x raw db rcpt db'.
Proof.
  unfold transfer_from_account_wallet_for_account.
  destruct (Z.leb_spec x 0) as [|Hx]; [done|]. cbn [negb].
  destruct (has a (account_wallets db)) eqn:Ha; [|done]. apply has_true in Ha.
  destruct (Z.leb_spec x (account_balance_of a db)) as [Hle|]; [|done]. intros H.
  destruct (resolve_transfer_target_tx raw db) as [t|] eqn:Er; [|done].
  destruct (is_account_target a t) eqn:Hne; [done|]. cbn [negb] in H.
  apply is_account_target_false in Hne.
  set (db0 := update_account (aw_post (- x) 0 0 0 now) a db) in *.
  destruct (insert_account_ledger _ _ _ _ _ _ _ _ _) as [db1|] eqn:E1; [|done]. cbn [map_err] in H.
  apply insert_account_ledger_Ok in E1 as (_ & Hm & Edb1).
  destruct (credit_recipient _ _ _ _ _ _) as [db2|] eqn:Ec; [|done]. injection H as <- <-.
  assert (target_exists t db1) as Ht.
  { apply resolve_target_exists in Er. destruct t; simpl in *; [by subst db1|].
    rewrite (same_accounts _ _ Hm). by apply update_account_row. }
  apply credit_recipient_Ok in Ec as (Hsup & Hsol & Hhold); [|done].
  exists t. do 2 (split; [done|]). split; [done|]. split; [simpl; lia|]. split_and!.
  - intros h. rewrite Hhold, (holding_same_money _ _ _ Hm). unfold db0.
    rewrite (holding_update_account _ (- x)) by done. unfold moved. repeat case_decide; lia.
  - rewrite Hsup, (same_money_supply _ _ Hm). unfold db0.
    rewrite (supply_update_account _ _ _ (- x)) by done. lia.
  - intros Hs. apply Hsol; [lia|]. apply (same_money_solvent _ _ Hm). by apply solvent_aw_debit.
Qed.

(** ** Linking, sweeping, removing *)

Lemma supply_upsert_account_wallet now a n p e g db :
  supply (upsert_account_wallet now a n p e g db) = supply db.
Proof.
  unfold upsert_account_wallet, supply, account_credits. simpl.
  destruct (account_wallets db !! a) as [r|] eqn:Ha.
  - rewrite map_sum_insert, Ha. simpl. unfold device_credits, provider_credits, pool_credits. simpl. lia.
  - rewrite map_sum_insert_new by done. simpl.
    unfold device_credits, provider_credits, pool_credits. simpl. lia.
Qed.

Lemma solvent_upsert_account_wallet now a n p e g db :
  solvent db -> solvent (upsert_account_wallet now a n p e g db).
Proof.
  intros [H1 H2 H3 H4]. unfold upsert_account_wallet. split; simpl; auto.
  destruct (account_wallets db !! a) as [r|] eqn:Ha; apply map_Forall_insert_2; simpl; auto; [|lia].
  by apply (H2 a).
Qed.

Lemma holding_upsert_account_wallet now a n p e g db h :
  holding h (upsert_account_wallet now a n p e g db) = holding h db.
Proof.
  destruct h as [d|a']; [done|]. simpl. unfold account_balance_of, upsert_account_wallet. simpl.
  destruct (decide (a = a')) as [<-|Hne].
  - destruct (account_wallets db !! a); by rewrite lookup_insert_eq.
  - destruct (account_wallets db !! a); by rewrite lookup_insert_ne.
Qed.

Lemma link_device_money now d acc md db db' :
  link_device_to_account now d acc md db = Some db' ->
  supply db' = supply db /\ (solvent db -> solvent db') /\ (forall h, holding h db' = holding h db) /\
  exists a, normalize_account_user_id acc = Some a /\ account_user_id_for_device d db' = Some a /\
    is_Some (account_wallets db' !! a).
Proof.
  unfold link_device_to_account. destruct (normalize_account_user_id acc) as [a|] eqn:En; [|done].
  cbv beta iota zeta delta [mbind option_bind]. intros [= <-].
  set (db0 := ensure_balance d (ensure_device now d db)).
  match goal with |- context [upsert_account_wallet ?n ?a ?x ?p ?e ?g db0] =>
    set (db1 := upsert_account_wallet n a x p e g db0) end.
  match goal with |- context [upsert_account_device ?n ?d ?a ?x ?y ?dbx] =>
    set (db2 := upsert_account_device n d a x y dbx) end.
  assert (same_money db1 db2) as Hm by done.
  rewrite (same_money_supply _ _ Hm). unfold db1 at 1. rewrite supply_upsert_account_wallet.
  split; [unfold db0; by autorewrite with supply|]. split; [|split].
  - intros. apply (same_money_solvent _ _ Hm), solvent_upsert_account_wallet. unfold db0. auto with ledger.
  - intros h. rewrite (holding_same_money _ _ _ Hm). unfold db1, db0.
    rewrite holding_upsert_account_wallet, holding_ensure_balance. by destruct h.
  - exists a. split; [done|]. split.
    + unfold account_user_id_for_device, db2, upsert_account_device. simpl.
      destruct (account_devices db !! d); by rewrite lookup_insert_eq.
    + rewrite (same_accounts _ _ Hm). unfold db1, upsert_account_wallet. simpl.
      destruct (account_wallets db !! a); rewrite lookup_insert_eq; eauto.
Qed.

Lemma common_account_Ok req tgt db a :
  common_account req tgt db = Ok a ->
  account_user_id_for_device req db = Some a /\ account_user_id_for_device tgt db = Some a.
Proof.
  unfold common_account. destruct (account_user_id_for_device req db) as [a'|]; [|done]. simpl.
  unfold some_eqb. destruct (account_user_id_for_device tgt db); [|done].
  case_bool_decide; [|done]. intros [= <-]. subst. done.
Qed.

Lemma sweep_Ok now req tgt db x summary db' :
  sweep_device_to_account now req tgt db = Ok (x, summary, db') -> solvent db ->
  exists a, account_user_id_for_device req db = Some a /\ account_user_id_for_device tgt db = Some a /\
  x = balance_of tgt db /\ summary = account_summary a db' /\
  (forall h, holding h db' = holding h db + moved x (HDevice tgt) (HAccount a) h) /\
  supply db' = supply db /\ solvent db'.
Proof.
  unfold sweep_device_to_account. intros H Hs.
  destruct (common_account req tgt db) as [a|] eqn:Ec; [|done]. apply common_account_Ok in Ec as [Hr Ht].
  exists a. do 2 (split; [done|]). set (db0 := ensure_balance tgt db) in *.
  destruct (ensure_balance_row tgt db) as [row Hrow]. fold db0 in Hrow. rewrite Hrow in H.
  cbn [map_err query_row ok_or] in H.
  assert (bal_balance row = balance_of tgt db) as Hbal.
  { rewrite <-(balance_of_ensure tgt tgt db). fold db0. unfold balance_of. by rewrite Hrow. }
  assert (0 <= balance_of tgt db) as Hnn by apply (balance_le_supply _ _ Hs).
  assert (supply db0 = supply db) as Hsup0 by apply supply_ensure_balance.
  assert (solvent db0) as Hs0 by (unfold db0; auto with ledger).
  assert (forall h, holding h db0 = holding h db) as Hh0 by (intros; apply holding_ensure_balance).
  destruct (Z.ltb_spec 0 (bal_balance row)) as [Hpos|Hz].
  - set (x' := bal_balance row) in *.
    set (db1 := update_balance (bal_spend x') tgt (insert_ledger tgt _ _ _ _ _ db0)) in *.
    destruct (insert_account_ledger _ _ _ _ _ _ _ _ _) as [db2|] eqn:E; [|done]. injection H as <- <- <-.
    apply insert_account_ledger_Ok in E as (Hrow' & Hm & _).
    assert (is_Some (account_wallets db1 !! a)) as Ha.
    { revert Hrow'. unfold update_account. simpl. by rewrite alter_is_Some. }
    assert (is_Some (balances db0 !! tgt)) as Hd by eauto.
    assert (forall r, bal_balance (bal_spend x' r) = bal_balance r + - x') as Hf by (intros; simpl; lia).
    split; [done|]. split; [done|]. split_and!.
    + intros h. rewrite (holding_same_money _ _ _ Hm), (holding_update_account _ x') by done.
      unfold db1. rewrite (holding_update_balance _ (- x')); [|done|done].
      rewrite (holding_same_money db0) by done. rewrite Hh0. unfold moved. repeat case_decide; lia.
    + rewrite (same_money_supply _ _ Hm), (supply_update_account _ _ _ x') by done. unfold db1.
      rewrite (supply_update_balance _ _ _ (- x')); [|done|done]. rewrite supply_insert_ledger. lia.
    + apply (same_money_solvent _ _ Hm), solvent_aw_post; [lia|]. apply solvent_spend; [|auto with ledger].
      transitivity (balance_of tgt db0); [|done]. unfold db0. rewrite balance_of_ensure. lia.
  - injection H as <- <- <-. split; [done|]. split; [done|]. split; [|done].
    intros h. rewrite Hh0. unfold moved. repeat case_decide; lia.
Qed.

(** ** Canonical account ids *)

Lemma bytes_map_str f s : bytes (map_str f s) = f <$> bytes s.
Proof. apply bytes_of_bytes. Qed.

Lemma map_str_id f s : (forall c, In c (bytes s) -> f c = c) -> map_str f s = s.
Proof.
  intros H. unfold map_str. rewrite <-(of_bytes_bytes s) at 2. f_equal.
  transitivity (map id (bytes s)); [apply map_ext_in; exact H | apply map_id].
Qed.

Lemma map_str_compose f g h s : (forall c, f (g c) = h c) -> map_str f (map_str g s) = map_str h s.
Proof.
  intros H. unfold map_str at 1. rewrite bytes_map_str. unfold map_str. f_equal.
  rewrite <-list_fmap_compose. apply list_fmap_ext. intros ? c _. apply H.
Qed.

Lemma to_lowercase_idem s : to_lowercase (to_lowercase s) = to_lowercase s.
Proof. apply map_str_compose, lower_lower. Qed.
Lemma uppercase_lowercase s : to_ascii_uppercase (to_lowercase s) = to_ascii_uppercase s.
Proof. apply map_str_compose, upper_lower. Qed.
Lemma uppercase_idem s : to_ascii_uppercase (to_ascii_uppercase s) = to_ascii_uppercase s.
Proof. apply map_str_compose, upper_upper. Qed.

Lemma dash_lower c : Ascii.eqb (lower c) "-"%char = Ascii.eqb c "-"%char.
Proof. revert c. by_bytes. Qed.
Lemma dash_upper c : Ascii.eqb (upper c) "-"%char = Ascii.eqb c "-"%char.
Proof. revert c. by_bytes. Qed.

Lemma is_uuid_map_str f s :
  (forall c, is_ascii_hexdigit (f c) = is_ascii_hexdigit c) ->
  (forall c, Ascii.eqb (f c) "-"%char = Ascii.eqb c "-"%char) -> is_uuid (map_str f s) = is_uuid s.
Proof.
  intros Hx Hd. unfold is_uuid. rewrite bytes_map_str, length_fmap. f_equal.
  generalize (bytes s). intros l.
  assert (forall (P : nat * ascii -> bool), (forall i c, P (i, f c) = P (i, c)) ->
    forallb P (imap pair (f <$> l)) = forallb P (imap pair l)) as Hgen.
  { clear. induction l as [|c l IH] using rev_ind; intros P HP; [done|].
    rewrite fmap_app, !imap_app, !forallb_app, length_fmap. f_equal; [by apply IH|].
    simpl. by rewrite HP. }
  apply Hgen. intros i c. cbn [fst snd]. match goal with |- context [if ?b then _ else _] => destruct b end; auto.
Qed.

Lemma is_uuid_lower s : is_uuid (to_lowercase s) = is_uuid s.
Proof. apply is_uuid_map_str; [apply hexdigit_lower | apply dash_lower]. Qed.
Lemma is_uuid_upper s : is_uuid (to_ascii_uppercase s) = is_uuid s.
Proof. apply is_uuid_map_str; [apply hexdigit_upper | apply dash_upper]. Qed.

Lemma char_boundary_lower i l : is_char_boundary i (lower <$> l) = is_char_boundary i l.
Proof.
  unfold is_char_boundary. rewrite length_fmap, list_lookup_fmap. f_equal.
  destruct (l !! i); simpl; [by rewrite continuation_lower | done].
Qed.

Lemma split_at_lower i s h t :
  split_at i s = Some (h, t) -> split_at i (to_lowercase s) = Some (to_lowercase h, to_lowercase t).
Proof.
  unfold split_at, to_lowercase. rewrite bytes_map_str, char_boundary_lower.
  destruct (is_char_boundary i (bytes s)); [|done]. intros [= <- <-].
  unfold map_str. by rewrite !bytes_of_bytes, fmap_take, fmap_drop.
Qed.

Lemma split_at_None_lower i s : split_at i s = None <-> split_at i (to_lowercase s) = None.
Proof.
  unfold split_at, to_lowercase. rewrite bytes_map_str, char_boundary_lower.
  by destruct (is_char_boundary i (bytes s)).
Qed.

Lemma to_lowercase_app s t : to_lowercase (s +:+ t) = to_lowercase s +:+ to_lowercase t.
Proof.
  induction s as [|c s IH]; [done|].
  change (String.String (lower c) (to_lowercase (s +:+ t)) =
          String.String (lower c) (to_lowercase s +:+ to_lowercase t)). by rewrite IH.
Qed.

Lemma of_bytes_app l k : of_bytes (l ++ k)%list = of_bytes l +:+ of_bytes k.
Proof.
  induction l as [|c l IH]; [done|].
  change (String.String c (of_bytes (l ++ k)%list) = String.String c (of_bytes l +:+ of_bytes k)).
  by rewrite IH.
Qed.

Lemma split_at_app i s h t : split_at i s = Some (h, t) -> s = h +:+ t.
Proof.
  unfold split_at. destruct (is_char_boundary i (bytes s)); [|done]. intros [= <- <-].
  by rewrite <-of_bytes_app, take_drop, of_bytes_bytes.
Qed.

(** The ids that [normalize_account_user_id] rewrites. *)
Definition is_email_id (v : string) : bool :=
  Nat.ltb 6 (length (bytes v)) &&
  match split_at 6 v with Some (head, _) => bool_decide (to_lowercase head = "email:") | None => false end.

Lemma normalize_cases value :
  let v := trim value in
  normalize_account_user_id value =
    if is_uuid v then Some (to_ascii_uppercase v)
    else if is_email_id v then Some (to_lowercase v)
    else if Nat.ltb 6 (length (bytes v)) && negb (is_char_boundary 6 (bytes v)) then None else Some v.
Proof.
  cbv zeta. unfold normalize_account_user_id, is_email_id. set (v := trim value).
  destruct (is_uuid v); [done|]. destruct (Nat.ltb 6 (length (bytes v))); [|done]. cbn [andb].
  destruct (split_at 6 v) as [[h t]|] eqn:E.
  - case_bool_decide as Hh.
    + rewrite <-Hh, <-to_lowercase_app. by rewrite <-(split_at_app _ _ _ _ E).
    + unfold split_at in E. by destruct (is_char_boundary 6 (bytes v)).
  - unfold split_at in E. by destruct (is_char_boundary 6 (bytes v)).
Qed.

Lemma is_email_id_lower v : is_email_id (to_lowercase v) = is_email_id v.
Proof.
  unfold is_email_id. unfold to_lowercase at 1. rewrite bytes_map_str, length_fmap. f_equal.
  destruct (split_at 6 v) as [[h t]|] eqn:E.
  - rewrite (split_at_lower _ _ _ _ E). by rewrite to_lowercase_idem.
  - by rewrite (proj1 (split_at_None_lower _ _) E).
Qed.

Lemma normalize_idempotent_aux value a :
  normalize_account_user_id value = Some a -> normalize_account_user_id a = Some a.
Proof.
  rewrite !normalize_cases. cbv zeta. pose proof (trim_idempotent value) as Ht.
  set (v := trim value) in *. destruct (is_uuid v) eqn:Hu.
  { intros [= <-]. by rewrite trim_to_ascii_uppercase, Ht, is_uuid_upper, Hu, uppercase_idem. }
  destruct (is_email_id v) eqn:He.
  { intros [= <-]. by rewrite trim_to_lowercase, Ht, is_uuid_lower, Hu, is_email_id_lower, He,
      to_lowercase_idem. }
  destruct (Nat.ltb 6 (length (bytes v)) && negb (is_char_boundary 6 (bytes v))) eqn:Hb; [done|].
  intros [= <-]. by rewrite Ht, Hu, He, Hb.
Qed.

Lemma normalize_case_insensitive_aux v w :
  is_uuid (trim v) = true \/ is_email_id (trim v) = true -> to_lowercase v = to_lowercase w ->
  normalize_account_user_id v = normalize_account_user_id w.
Proof.
  intros Hv E. rewrite !normalize_cases. cbv zeta.
  assert (to_lowercase (trim v) = to_lowercase (trim w)) as Et by (rewrite <-!trim_to_lowercase; by rewrite E).
  rewrite <-(is_uuid_lower (trim v)), <-(is_email_id_lower (trim v)), Et in Hv.
  rewrite <-(is_uuid_lower (trim v)), <-(is_email_id_lower (trim v)), Et, is_uuid_lower, is_email_id_lower.
  rewrite is_uuid_lower, is_email_id_lower in Hv.
  destruct (is_uuid (trim w)).
  - rewrite <-(uppercase_lowercase (trim v)), Et. by rewrite uppercase_lowercase.
  - destruct Hv as [ | -> ]; [done|]. done.
Qed.

(** ** Claims *)

(** a transfer out of a device wallet that answers [Ok] moves exactly its
    positive amount, which the sender had, from the sender to the one wallet
    the recipient text resolves to, which is another wallet; every other
    wallet, device or account, is unchanged, and credits are conserved. *)
Theorem transfer_from_device_wallet_moves now d raw x memo db rcpt db' :
  transfer_from_device_wallet now d raw x memo db = Ok (rcpt, db') ->
  transferred (HDevice d) x raw db rcpt db'.
Proof. apply transfer_from_device_Ok. Qed.

Lemma transfer_from_device_wallet_moves_witness :
  exists rcpt db', transfer_from_device_wallet 90 "bob" "  ANN@example.org " 250 None demo = Ok (rcpt, db') /\
  transferred (HDevice "bob") 250 "  ANN@example.org " demo rcpt db'.
Proof.
  run_ok (transfer_from_device_wallet 90 "bob" "  ANN@example.org " 250 None demo).
  eexists _, _. split; [reflexivity|]. exact (transfer_from_device_wallet_moves _ _ _ _ _ _ _ _ Erun).
Defined.

(** the same for a transfer out of an account wallet, asked for by a linked
    device. *)
Theorem transfer_from_account_wallet_moves now dv raw x memo db rcpt db' :
  transfer_from_account_wallet now dv raw x memo db = Ok (rcpt, db') ->
  exists a, account_user_id_for_device dv db = Some a /\ transferred (HAccount a) x raw db rcpt db'.
Proof.
  unfold transfer_from_account_wallet.
  destruct (account_user_id_for_device dv db) as [a|]; [|done]. cbn [ok_or]. intros H.
  exists a. split; [done|]. by eapply transfer_from_account_Ok.
Qed.

Lemma transfer_from_account_wallet_moves_witness :
  exists rcpt db', transfer_from_account_wallet 90 "alice" "device:carol" 250 None demo = Ok (rcpt, db') /\
  exists a, account_user_id_for_device "alice" demo = Some a /\
    transferred (HAccount a) 250 "device:carol" demo rcpt db'.
Proof.
  run_ok (transfer_from_account_wallet 90 "alice" "device:carol" 250 None demo).
  eexists _, _. split; [reflexivity|]. exact (transfer_from_account_wallet_moves _ _ _ _ _ _ _ _ Erun).
Defined.

(** a sweep empties the target device's wallet into the account that both
    devices are linked to, changes no other wallet and conserves credits. *)
Theorem sweep_device_to_account_empties now req tgt db x summary db' :
  sweep_device_to_account now req tgt db = Ok (x, summary, db') -> solvent db ->
  exists a, account_user_id_for_device req db = Some a /\ account_user_id_for_device tgt db = Some a /\
  x = balance_of tgt db /\ balance_of tgt db' = 0 /\
  (forall h, holding h db' = holding h db + moved x (HDevice tgt) (HAccount a) h) /\
  supply db' = supply db /\ solvent db'.
Proof.
  intros H Hs. apply sweep_Ok in H as (a & H1 & H2 & Hx & _ & Hh & Hrest); [|done].
  exists a. do 3 (split; [done|]). split; [|done].
  pose proof (Hh (HDevice tgt)) as Hd. cbn [holding] in Hd. rewrite Hd, <-Hx. unfold moved.
  rewrite decide_False, decide_True by done. lia.
Qed.

Lemma sweep_device_to_account_empties_witness :
  exists x summary db', sweep_device_to_account 90 "alice" "alice" demo = Ok (x, summary, db') /\
  exists a, account_user_id_for_device "alice" demo = Some a /\ account_user_id_for_device "alice" demo = Some a /\
  x = balance_of "alice" demo /\ balance_of "alice" db' = 0 /\
  (forall h, holding h db' = holding h demo + moved x (HDevice "alice") (HAccount a) h) /\
  supply db' = supply demo /\ solvent db'.
Proof.
  destruct (sweep_device_to_account 90 "alice" "alice" demo) as [[[x s] db']|e] eqn:E;
    [|vm_compute in E; discriminate E].
  eexists _, _, _. split; [reflexivity|].
  exact (sweep_device_to_account_empties _ _ _ _ _ _ _ E demo_solvent).
Defined.

(** ASCII account ids have one canonical form: normalizing twice is
    normalizing once, and two spellings of a UUID or of an e-mail id that differ
    only in letter case have the same canonical form. *)
Theorem normalize_account_user_id_canonical v w :
  is_ascii v = true -> is_ascii w = true ->
  (forall a, normalize_account_user_id v = Some a -> normalize_account_user_id a = Some a) /\
  (is_uuid (trim v) = true \/ is_email_id (trim v) = true -> to_lowercase v = to_lowercase w ->
   normalize_account_user_id v = normalize_account_user_id w).
Proof.
  intros _ _. split; [intros a; apply normalize_idempotent_aux | apply normalize_case_insensitive_aux].
Qed.

Lemma normalize_account_user_id_canonical_witness :
  normalize_account_user_id " EMAIL:Ann@Example.org" = normalize_account_user_id " email:ann@EXAMPLE.org".
Proof.
  apply (normalize_account_user_id_canonical " EMAIL:Ann@Example.org" " email:ann@EXAMPLE.org");
    [| |right|]; vm_compute; reflexivity.
Defined.

(** Not every text has a canonical form: an id whose seventh byte lies inside
    a character makes the slice [v[..6]] panic. *)
Theorem normalize_account_user_id_panics :
  normalize_account_user_id (of_bytes (Ascii.ascii_of_nat <$> [97; 98; 99; 100; 101; 195; 169]%nat)) = None.
Proof. vm_compute. reflexivity. Qed.
