(* ===== verification/Onchain.v ===== *)
(** * On-chain deposits and withdrawals

    [gateway/src/ledger.rs]: USDC that enters and leaves an account wallet.
    A deposit is identified by its transaction signature and credited once.  A
    withdrawal is a row of [account_withdrawals] that starts ["pending"] (the
    credits leave the wallet at that moment) and ends ["submitted"] (paid on
    chain) or ["rejected"] (credits returned); a withdrawal that comes with a
    signature goes straight to ["submitted"].  [uuid] identifiers are
    arguments.  Verification of the signatures against the chain happens in
    the callers, before these functions. *)

From stdpp Require Import sorting.
From Stdlib Require String.
From S2P Require Import Prelude Db RustStr Wallet Accounts.

Open Scope string_scope.
Open Scope Z_scope.

Inductive AccountOnchainError : Type :=
| OnchainAccountNotLinked
| SolanaAddressRequired
| SolanaAddressMismatch
| SolanaWalletNotEnabled
| InvalidUsdcAmount
| DepositAmountRequired
| MissingRequestId
| MissingDestinationAddress
| DepositConflict
| WithdrawalConflict
| WithdrawalSignatureConflict
| WithdrawalNotPending
| InsufficientWithdrawable (balance redeemable_credits required : Z)
| OnchainOther (e : anyhow).

Definition onchain_sql {A} (r : result SqlError A) : result AccountOnchainError A :=
  map_err (fun e => OnchainOther (Sql e)) r.

Record AccountOnchainDepositIntent : Type := mkDepositIntent {
  di_solana_address : option string;
  di_tx_signature : option string;
  di_source_address : option string;
  di_amount_usdc_cents : option Z
}.

Record AccountWithdrawalRequest : Type := mkWithdrawalRequest {
  wr_request_id : string;
  wr_destination_address : string;
  wr_amount_usdc_cents : Z;
  wr_tx_signature : option string
}.

(** ** Statements *)

(** [INSERT INTO account_onchain_deposits (...)]. *)
Definition insert_deposit (deposit_id : string) (r : DepositRow) (db : Db) : result SqlError Db :=
  guard? negb (has deposit_id (account_onchain_deposits db)) else UniqueViolation in
  guard? unique_for (fun r => Some (dep_tx_signature r)) deposit_id (Some (dep_tx_signature r))
           (account_onchain_deposits db) else UniqueViolation in
  guard? (0 <? dep_amount_usdc_cents r) && (0 <? dep_amount_credits r) else CheckViolation in
  guard? has (dep_account_user_id r) (account_wallets db) else ForeignKeyViolation in
  Ok (set_account_onchain_deposits (<[deposit_id := r]> (account_onchain_deposits db)) db).

(** [INSERT INTO account_withdrawals (...)]. *)
Definition insert_withdrawal (withdrawal_id : string) (r : WithdrawalRow) (db : Db)
    : result SqlError Db :=
  guard? negb (has withdrawal_id (account_withdrawals db)) else UniqueViolation in
  guard? unique_for (fun r => Some (wd_request_id r)) withdrawal_id (Some (wd_request_id r))
           (account_withdrawals db) else UniqueViolation in
  guard? (0 <? wd_amount_usdc_cents r) && (0 <? wd_amount_credits r) else CheckViolation in
  guard? has (wd_account_user_id r) (account_wallets db) else ForeignKeyViolation in
  Ok (set_account_withdrawals (<[withdrawal_id := r]> (account_withdrawals db)) db).

Definition wd_set (status : string) (tx_signature : option string) (completed_at : option Z)
    (r : WithdrawalRow) : WithdrawalRow :=
  mkWithdrawalRow (wd_request_id r) (wd_account_user_id r) (wd_destination_address r)
    (wd_amount_usdc_cents r) (wd_amount_credits r) status tx_signature (wd_created_at r)
    completed_at.

(** [UPDATE account_withdrawals SET ... WHERE request_id = ?]. *)
Definition update_withdrawals (request_id : string) (f : WithdrawalRow -> WithdrawalRow) (db : Db)
    : Db :=
  set_account_withdrawals
    ((fun r => if bool_decide (wd_request_id r = request_id) then f r else r) <$>
     account_withdrawals db) db.

(** The same statement when it sets [tx_signature], which is [UNIQUE]. *)
Definition submit_withdrawals (request_id tx_signature : string) (now : Z) (db : Db)
    : result SqlError Db :=
  guard? bool_decide (map_Forall (fun _ r => wd_request_id r = request_id \/
                                             wd_tx_signature r <> Some tx_signature)
                        (account_withdrawals db)) else UniqueViolation in
  Ok (update_withdrawals request_id (wd_set "submitted" (Some tx_signature) (Some now)) db).

Definition withdrawal_by_request (request_id : string) (db : Db) : option (string * WithdrawalRow) :=
  select_one (fun _ r => bool_decide (wd_request_id r = request_id)) (account_withdrawals db).
Definition withdrawal_by_signature (tx_signature : string) (db : Db)
    : option (string * WithdrawalRow) :=
  select_one (fun _ r => some_eqb (wd_tx_signature r) tx_signature) (account_withdrawals db).
Definition deposit_by_signature (tx_signature : string) (db : Db) : option (string * DepositRow) :=
  select_one (fun _ r => bool_decide (dep_tx_signature r = tx_signature))
    (account_onchain_deposits db).

(** ** Views *)

Definition account_onchain_summary (account_user_id : string) (db : Db)
    : result AccountOnchainError AccountOnchainSnapshot :=
  let? state := map_err OnchainOther (load_account_wallet_state_locked account_user_id db) in
  Ok (onchain_snapshot_from_state account_user_id state).

Definition account_onchain_summary_for_device (device_id : string) (db : Db)
    : result AccountOnchainError AccountOnchainSnapshot :=
  let? a := ok_or OnchainAccountNotLinked (account_user_id_for_device device_id db) in
  account_onchain_summary a db.

(** [ORDER BY created_at DESC, withdrawal_id DESC]. *)
Definition withdrawal_newest_first (a b : string * WithdrawalRow) : Prop :=
  wd_created_at b.2 < wd_created_at a.2 \/
  (wd_created_at a.2 = wd_created_at b.2 /\ String.leb b.1 a.1 = true).
#[export] Instance withdrawal_newest_first_dec a b : Decision (withdrawal_newest_first a b).
Proof. unfold withdrawal_newest_first. apply _. Defined.

Definition list_account_withdrawals_locked (account_user_id : string) (limit : Z) (db : Db)
    : list (string * WithdrawalRow) :=
  sql_limit limit (merge_sort withdrawal_newest_first (select_where (fun _ r =>
    bool_decide (wd_account_user_id r = account_user_id)) (account_withdrawals db))).

Definition list_account_withdrawals_for_device (device_id : string) (limit : Z) (db : Db)
    : result AccountOnchainError (list (string * WithdrawalRow)) :=
  let? a := ok_or OnchainAccountNotLinked (account_user_id_for_device device_id db) in
  Ok (list_account_withdrawals_locked a (Z.max 1 (Z.min limit 200)) db).

Definition get_withdrawal_by_request (request_id : string) (db : Db)
    : option (string * WithdrawalRow) := withdrawal_by_request request_id db.

(** [ORDER BY created_at ASC]. *)
Definition withdrawal_oldest_first (a b : string * WithdrawalRow) : Prop :=
  wd_created_at a.2 <= wd_created_at b.2.
#[export] Instance withdrawal_oldest_first_dec a b : Decision (withdrawal_oldest_first a b).
Proof. unfold withdrawal_oldest_first. apply _. Defined.

Definition list_pending_withdrawals (limit : Z) (db : Db) : list (string * WithdrawalRow) :=
  sql_limit limit (merge_sort withdrawal_oldest_first (select_where (fun _ r =>
    bool_decide (wd_status r = "pending")) (account_withdrawals db))).

(** ** Addresses *)

Definition resolve_account_onchain_address_from_state (state : AccountWalletRow)
    (requested_address : option string) : result AccountOnchainError string :=
  match aw_solana_address state, normalized_optional_string requested_address with
  | Some existing, Some requested =>
      if bool_decide (existing <> requested) then Err SolanaAddressMismatch else Ok existing
  | Some existing, None => Ok existing
  | None, Some requested => Ok requested
  | None, None => Err SolanaAddressRequired
  end.

Definition resolve_account_onchain_address_for_device (requester_device_id : string)
    (requested_address : option string) (db : Db) : result AccountOnchainError string :=
  let? a := ok_or OnchainAccountNotLinked (account_user_id_for_device requester_device_id db) in
  let? state := map_err OnchainOther (load_account_wallet_state_locked a db) in
  resolve_account_onchain_address_from_state state requested_address.

(** [SET solana_address = ?, solana_enabled = 1, updated_at = ?]. *)
Definition aw_set_solana (address : string) (now : Z) (r : AccountWalletRow) : AccountWalletRow :=
  mkAccountWalletRow (aw_display_name r) (aw_phone r) (aw_email r) (aw_github_username r)
    (aw_balance_credits r) (aw_usdc_cents r) (aw_created_at r) now (Some address) 1
    (aw_deposited_usdc_cents_total r) (aw_withdrawn_usdc_cents_total r).

(** ** Deposits *)

(** The new-deposit branch, the same statements in both deposit functions. *)
Definition credit_deposit (deposit_id a tx_signature address : string) (source : option string)
    (usdc credits now : Z) (device_id usdc_note credits_note : string) (db : Db)
    : result AccountOnchainError Db :=
  let? db := onchain_sql (insert_deposit deposit_id
    (mkDepositRow a tx_signature address source usdc credits now) db) in
  let db := update_account (aw_post credits usdc usdc 0 now) a db in
  let? db := onchain_sql (insert_account_ledger a "usdc" usdc "ONCHAIN_DEPOSIT_IN" now
    (Some device_id) usdc_note None db) in
  onchain_sql (insert_account_ledger a "credits" credits "ONCHAIN_DEPOSIT_CREDIT" now
    (Some device_id) credits_note None db).

(** The summary is read after the commit, hence the inner result. *)
Definition record_account_onchain_deposit (deposit_id : string) (now : Z)
    (requester_device_id : string) (req : AccountOnchainDepositIntent) (db : Db)
    : result AccountOnchainError (result AccountOnchainError AccountOnchainSnapshot * Db) :=
  let? a := ok_or OnchainAccountNotLinked (account_user_id_for_device requester_device_id db) in
  let? state := map_err OnchainOther (load_account_wallet_state_locked a db) in
  let? effective_address :=
    resolve_account_onchain_address_from_state state (di_solana_address req) in
  let db := update_account (aw_set_solana effective_address now) a db in
  let? db :=
    match normalized_optional_string (di_tx_signature req) with
    | None => Ok db
    | Some tx_signature =>
        let? amount_usdc_cents := ok_or DepositAmountRequired (di_amount_usdc_cents req) in
        guard? negb (amount_usdc_cents <=? 0) else InvalidUsdcAmount in
        let? amount_credits := map_err OnchainOther (credits_from_usdc_cents amount_usdc_cents) in
        let source_address := normalized_optional_string (di_source_address req) in
        match deposit_by_signature tx_signature db with
        | Some (_, existing) =>
            guard? bool_decide (dep_account_user_id existing = a /\
                dep_solana_address existing = effective_address /\
                dep_amount_usdc_cents existing = amount_usdc_cents /\
                dep_source_address existing = source_address) else DepositConflict in
            Ok db
        | None =>
            credit_deposit deposit_id a tx_signature effective_address source_address
              amount_usdc_cents amount_credits now requester_device_id
              ("deposit " +:+ tx_signature +:+ " to " +:+ effective_address)
              ("credited from deposit " +:+ tx_signature) db
        end
    end in
  Ok (account_onchain_summary a db, db).

Definition TREASURY_DEPOSIT_MEMO_PREFIX : string := "teale:deposit:".
Definition treasury_deposit_memo (account_user_id : string) : string :=
  TREASURY_DEPOSIT_MEMO_PREFIX +:+ account_user_id.

Definition record_account_treasury_deposit (deposit_id : string) (now : Z)
    (requester_device_id tx_signature : string) (amount_usdc_cents : Z)
    (source_address : option string) (treasury_address : string) (db : Db)
    : result AccountOnchainError (result AccountOnchainError AccountOnchainSnapshot * Db) :=
  guard? negb (amount_usdc_cents <=? 0) else InvalidUsdcAmount in
  let? amount_credits :=
    map_err (fun _ => InvalidUsdcAmount) (credits_from_usdc_cents amount_usdc_cents) in
  let? a := ok_or OnchainAccountNotLinked (account_user_id_for_device requester_device_id db) in
  let? _ := map_err OnchainOther (load_account_wallet_state_locked a db) in
  let? db :=
    match deposit_by_signature tx_signature db with
    | Some (_, existing) =>
        guard? bool_decide (dep_account_user_id existing = a /\
            dep_solana_address existing = treasury_address /\
            dep_amount_usdc_cents existing = amount_usdc_cents) else DepositConflict in
        Ok db
    | None =>
        credit_deposit deposit_id a tx_signature treasury_address source_address amount_usdc_cents
          amount_credits now requester_device_id ("treasury deposit " +:+ tx_signature)
          ("credited from treasury deposit " +:+ tx_signature) db
    end in
  Ok (account_onchain_summary a db, db).

(** ** Withdrawals *)

(** The two ledger rows and the status change that finish a withdrawal. *)
Definition finish_withdrawal (a request_id tx_signature : string) (usdc credits now : Z)
    (device_id burn_note out_note : string) (db : Db) : result AccountOnchainError Db :=
  let? db := onchain_sql (insert_account_ledger a "credits" (i64_neg credits)
    "ONCHAIN_WITHDRAWAL_BURN" now (Some device_id) burn_note None db) in
  let? db := onchain_sql (insert_account_ledger a "usdc" (i64_neg usdc)
    "ONCHAIN_WITHDRAWAL_OUT" now (Some device_id) out_note None db) in
  onchain_sql (submit_withdrawals request_id tx_signature now db).

Definition reread_withdrawal (request_id : string) (db : Db)
    : result AccountOnchainError (string * WithdrawalRow * Db) :=
  let? record := onchain_sql (query_row (withdrawal_by_request request_id db)) in
  Ok (record, db).

Definition complete_account_withdrawal_from_treasury (now : Z) (request_id tx_signature : string)
    (db : Db) : result AccountOnchainError (string * WithdrawalRow * Db) :=
  let? (wid, existing) := ok_or WithdrawalNotPending (withdrawal_by_request request_id db) in
  if bool_decide (wd_status existing <> "pending") then
    if some_eqb (wd_tx_signature existing) tx_signature then Ok (wid, existing, db)
    else Err WithdrawalConflict
  else
    guard? bool_decide (withdrawal_by_signature tx_signature db = None)
      else WithdrawalSignatureConflict in
    let a := wd_account_user_id existing in
    let db := update_account (aw_post 0 0 0 (wd_amount_usdc_cents existing) now) a db in
    let? db := finish_withdrawal a request_id tx_signature (wd_amount_usdc_cents existing)
      (wd_amount_credits existing) now "treasury-payout"
      ("burned for treasury payout " +:+ request_id)
      ("treasury payout " +:+ request_id +:+ " to " +:+ wd_destination_address existing) db in
    reread_withdrawal request_id db.

Definition reject_account_withdrawal (now : Z) (request_id : string) (reason : option string)
    (db : Db) : result AccountOnchainError (string * WithdrawalRow * Db) :=
  let? (_, existing) := ok_or WithdrawalNotPending (withdrawal_by_request request_id db) in
  guard? bool_decide (wd_status existing = "pending") else WithdrawalConflict in
  let a := wd_account_user_id existing in
  let db := update_account
    (aw_post (wd_amount_credits existing) (wd_amount_usdc_cents existing) 0 0 now) a db in
  let? db := onchain_sql (insert_account_ledger a "credits" (wd_amount_credits existing)
    "ONCHAIN_WITHDRAWAL_REFUND" now (Some "treasury-payout")
    ("refunded rejected withdrawal " +:+ request_id +:+ " (" +:+
     default "no reason given" reason +:+ ")") None db) in
  let db := update_withdrawals request_id
    (fun r => wd_set "rejected" (wd_tx_signature r) (Some now) r) db in
  reread_withdrawal request_id db.

(** The record that the unsigned path answers with: the newest withdrawal of
    the account, read after the commit. *)
Definition newest_withdrawal (device_id : string) (db : Db)
    : result AccountOnchainError (string * WithdrawalRow) :=
  let? withdrawals := list_account_withdrawals_for_device device_id 1 db in
  ok_or (OnchainOther (Bail "withdrawal not found after insert")) (head withdrawals).

(** Reserve the credits of a request that carries no signature. *)
Definition hold_withdrawal (now : Z) (a device_id request_id : string) (usdc credits : Z)
    (state : AccountWalletRow) (db : Db) : result AccountOnchainError Db :=
  guard? credits <=? aw_balance_credits state
    else (InsufficientWithdrawable (aw_balance_credits state) (aw_balance_credits state) credits) in
  let db := update_account (aw_post (- credits) (- usdc) 0 0 now) a db in
  onchain_sql (insert_account_ledger a "credits" (i64_neg credits) "ONCHAIN_WITHDRAWAL_HOLD" now
    (Some device_id) ("reserved for withdrawal request " +:+ request_id) None db).

(** Settle a request that carries a signature: the funds were reserved by an
    earlier pending request, or are debited now. *)
Definition settle_withdrawal (now : Z) (a device_id request_id destination tx_signature : string)
    (usdc credits : Z) (was_reserved : bool) (state : AccountWalletRow) (db : Db)
    : result AccountOnchainError Db :=
  let? redeemable_credits := map_err OnchainOther (credits_from_usdc_cents
    (redeemable_usdc_cents (aw_deposited_usdc_cents_total state)
       (aw_withdrawn_usdc_cents_total state))) in
  let? db :=
    if was_reserved then Ok (update_account (aw_post 0 0 0 usdc now) a db)
    else
      guard? credits <=? aw_balance_credits state
        else (InsufficientWithdrawable (aw_balance_credits state) redeemable_credits credits) in
      Ok (update_account (aw_post (- credits) (- usdc) 0 usdc now) a db) in
  finish_withdrawal a request_id tx_signature usdc credits now device_id
    ("burned for withdrawal " +:+ request_id)
    ("withdrawal " +:+ request_id +:+ " to " +:+ destination) db.

(** What happens to the request row: an error, the record to answer with at
    once, or the database to go on with and whether funds are reserved. *)
Inductive RequestRow : Type :=
| Answer (record : string * WithdrawalRow)
| GoOn (was_reserved : bool) (db : Db).

Definition withdrawal_request_row (withdrawal_id : string) (now : Z)
    (a request_id destination : string) (usdc credits : Z) (signature : option string) (db : Db)
    : result AccountOnchainError RequestRow :=
  match withdrawal_by_request request_id db with
  | Some (wid, existing) =>
      guard? bool_decide (wd_account_user_id existing = a /\
          wd_destination_address existing = destination /\
          wd_amount_usdc_cents existing = usdc /\ wd_amount_credits existing = credits)
        else WithdrawalConflict in
      if bool_decide (wd_status existing <> "pending") then
        guard? bool_decide (signature = None \/ wd_tx_signature existing = signature)
          else WithdrawalConflict in
        Ok (Answer (wid, existing))
      else match signature with
      | None => Ok (Answer (wid, existing))
      | Some _ => Ok (GoOn true db)
      end
  | None =>
      let? db := onchain_sql (insert_withdrawal withdrawal_id
        (mkWithdrawalRow request_id a destination usdc credits "pending" None now None) db) in
      Ok (GoOn false db)
  end.

(** The record is a result of its own because the unsigned path reads it after
    the commit. *)
Definition submit_account_withdrawal (withdrawal_id : string) (now : Z)
    (requester_device_id : string) (req : AccountWithdrawalRequest) (db : Db)
    : result AccountOnchainError (result AccountOnchainError (string * WithdrawalRow) * Db) :=
  let? request_id :=
    ok_or MissingRequestId (normalized_optional_string (Some (wr_request_id req))) in
  let? destination_address :=
    ok_or MissingDestinationAddress (normalized_optional_string (Some (wr_destination_address req))) in
  let usdc := wr_amount_usdc_cents req in
  guard? negb (usdc <=? 0) else InvalidUsdcAmount in
  let? a := ok_or OnchainAccountNotLinked (account_user_id_for_device requester_device_id db) in
  let? state := map_err OnchainOther (load_account_wallet_state_locked a db) in
  guard? negb (aw_solana_enabled state =? 0) && bool_decide (aw_solana_address state <> None)
    else SolanaWalletNotEnabled in
  let? credits := map_err OnchainOther (credits_from_usdc_cents usdc) in
  let signature := normalized_optional_string (wr_tx_signature req) in
  guard? match signature with
         | Some sig =>
             match withdrawal_by_signature sig db with
             | Some (_, r) => bool_decide (wd_request_id r = request_id)
             | None => true
             end
         | None => true
         end else WithdrawalSignatureConflict in
  let? row := withdrawal_request_row withdrawal_id now a request_id destination_address usdc credits
    signature db in
  match row with
  | Answer record => Ok (Ok record, db)
  | GoOn was_reserved db =>
      match signature with
      | None =>
          let? db := hold_withdrawal now a requester_device_id request_id usdc credits state db in
          Ok (newest_withdrawal requester_device_id db, db)
      | Some sig =>
          let? db := settle_withdrawal now a requester_device_id request_id destination_address sig
            usdc credits was_reserved state db in
          let? (record, db) := reread_withdrawal request_id db in
          Ok (Ok record, db)
      end
  end.
