(* ===== verification/OnchainFacts.v ===== *)
(** * On-chain deposits and withdrawals: correctness

    The credits of a withdrawal leave the wallet exactly once and, when it is
    rejected, come back exactly once; a withdrawal's status only moves from
    ["pending"] to ["submitted"] or ["rejected"]; a deposit is credited once
    per transaction signature. *)

From S2P Require Import Prelude Db RustStr Wallet Accounts Fixtures AccountsFacts Onchain.

Open Scope string_scope.
Open Scope Z_scope.

(** ** The withdrawal table *)

(** Credits that withdrawals have taken out of the wallets: all of them but
    the rejected ones. *)
Definition outgoing_of (r : WithdrawalRow) : Z :=
  if bool_decide (wd_status r = "rejected") then 0 else wd_amount_credits r.
Definition outgoing (db : Db) : Z := map_sum outgoing_of (account_withdrawals db).

(** What each status means for the other columns. *)
Definition withdrawal_ok (r : WithdrawalRow) : Prop :=
  0 < wd_amount_credits r /\ wd_amount_credits r = wd_amount_usdc_cents r * CREDITS_PER_USDC_CENT /\
  ((wd_status r = "pending" /\ wd_tx_signature r = None /\ wd_completed_at r = None) \/
   (wd_status r = "submitted" /\ is_Some (wd_tx_signature r) /\ is_Some (wd_completed_at r)) \/
   (wd_status r = "rejected" /\ wd_tx_signature r = None /\ is_Some (wd_completed_at r))).

Record withdrawals_wf (db : Db) : Prop := mk_withdrawals_wf {
  wf_rows : map_Forall (fun _ r => withdrawal_ok r) (account_withdrawals db);
  wf_requests : forall i j r s, account_withdrawals db !! i = Some r ->
    account_withdrawals db !! j = Some s -> wd_request_id r = wd_request_id s -> i = j;
  wf_signatures : forall i j r s sig, account_withdrawals db !! i = Some r ->
    account_withdrawals db !! j = Some s -> wd_tx_signature r = Some sig ->
    wd_tx_signature s = Some sig -> i = j
}.

(** A withdrawal keeps its request, owner, destination and amounts, and its
    status changes at most once, out of ["pending"]. *)
Definition evolves (r r' : WithdrawalRow) : Prop :=
  r' = r \/
  (wd_status r = "pending" /\
   exists status sig at_, (status = "submitted" \/ status = "rejected") /\ r' = wd_set status sig at_ r).

Definition table_evolves (db db' : Db) : Prop :=
  forall i r, account_withdrawals db !! i = Some r ->
  exists r', account_withdrawals db' !! i = Some r' /\ evolves r r'.

Lemma table_evolves_same db db' :
  account_withdrawals db' = account_withdrawals db -> table_evolves db db'.
Proof. intros E i r Hr. exists r. rewrite E. split; [done|by left]. Qed.

Lemma by_request_Some req db i r :
  withdrawal_by_request req db = Some (i, r) ->
  account_withdrawals db !! i = Some r /\ wd_request_id r = req.
Proof. intros [? ?]%select_one_Some. by rewrite bool_decide_eq_true in *. Qed.

Lemma by_request_None req db i r :
  withdrawal_by_request req db = None -> account_withdrawals db !! i = Some r ->
  wd_request_id r <> req.
Proof.
  intros H%select_one_None Hr. apply H in Hr. simpl in Hr. by rewrite bool_decide_eq_false in Hr.
Qed.

Lemma by_signature_None sig db i r :
  withdrawal_by_signature sig db = None -> account_withdrawals db !! i = Some r ->
  wd_tx_signature r <> Some sig.
Proof.
  intros H%select_one_None Hr. apply H in Hr. simpl in Hr. unfold some_eqb in Hr.
  by rewrite bool_decide_eq_false in Hr.
Qed.

Lemma by_request_lookup req db i r :
  withdrawals_wf db -> account_withdrawals db !! i = Some r -> wd_request_id r = req ->
  withdrawal_by_request req db = Some (i, r).
Proof.
  intros Hwf Hr Hq. destruct (withdrawal_by_request req db) as [[j s]|] eqn:E.
  - apply by_request_Some in E as [Hs Hq']. assert (j = i) as ->
      by (apply (wf_requests _ Hwf j i s r); congruence). congruence.
  - exfalso. by eapply by_request_None.
Qed.

(** With unique request ids the update touches one row. *)
Lemma update_withdrawals_alter req f db i r :
  withdrawals_wf db -> account_withdrawals db !! i = Some r -> wd_request_id r = req ->
  account_withdrawals (update_withdrawals req f db) = alter f i (account_withdrawals db).
Proof.
  intros Hwf Hr Hq. apply map_eq. intros j. simpl. rewrite lookup_fmap.
  destruct (decide (i = j)) as [<-|Hne].
  - rewrite lookup_alter_eq, Hr. simpl. by rewrite bool_decide_true.
  - rewrite lookup_alter_ne by done. destruct (account_withdrawals db !! j) as [s|] eqn:Hs; [|done].
    simpl. rewrite bool_decide_false; [done|]. intros Hq'. apply Hne.
    apply (wf_requests _ Hwf i j r s); congruence.
Qed.

Section Finish.
Context (db db' : Db) (i : string) (r : WithdrawalRow) (status : string) (sig : option string) (at_ : Z).
Hypothesis Hwf : withdrawals_wf db.
Hypothesis Hr : account_withdrawals db !! i = Some r.
Hypothesis Hpending : wd_status r = "pending".
Hypothesis Hdb' : account_withdrawals db' = alter (wd_set status sig (Some at_)) i (account_withdrawals db).
Hypothesis Hstatus : (status = "submitted" /\ is_Some sig) \/ (status = "rejected" /\ sig = None).
Hypothesis Hfresh : forall j s x, account_withdrawals db !! j = Some s -> sig = Some x ->
  wd_tx_signature s <> Some x.

Lemma finish_lookup j :
  account_withdrawals db' !! j =
  if decide (i = j) then Some (wd_set status sig (Some at_) r) else account_withdrawals db !! j.
Proof.
  rewrite Hdb'. case_decide as Hij; [subst j; by rewrite lookup_alter_eq, Hr | by rewrite lookup_alter_ne].
Qed.

Lemma finish_wf : withdrawals_wf db'.
Proof.
  destruct Hwf as [Hrows Hreq Hsig]. split.
  - intros j s. rewrite finish_lookup. case_decide; [|apply Hrows]. intros [= <-].
    destruct (Hrows i r Hr) as (? & ? & _). unfold withdrawal_ok. simpl.
    destruct Hstatus as [[-> ?]|[-> ->]]; eauto 10.
  - intros j k s t. rewrite !finish_lookup.
    assert (forall j s, (if decide (i = j) then Some (wd_set status sig (Some at_) r)
      else account_withdrawals db !! j) = Some s ->
      exists s0, account_withdrawals db !! j = Some s0 /\ wd_request_id s0 = wd_request_id s) as Hold.
    { intros j' s'. case_decide; [intros [= <-]; subst; eauto | eauto]. }
    intros Hs%Hold Ht%Hold E. destruct Hs as (s0 & Hs & Es), Ht as (t0 & Ht & Et).
    apply (Hreq j k s0 t0); congruence.
  - intros j k s t x. rewrite !finish_lookup. repeat case_decide; subst; try done.
    + intros [= <-] Ht Ex Ex'. simpl in Ex. by destruct (Hfresh k t x Ht Ex).
    + intros Hs [= <-] Ex Ex'. simpl in Ex'. by destruct (Hfresh j s x Hs Ex').
    + apply Hsig.
Qed.

Lemma finish_evolves : table_evolves db db'.
Proof.
  intros j s Hs. rewrite finish_lookup. case_decide as Hij; [subst j|by exists s; split; [|left]].
  exists (wd_set status sig (Some at_) r). split; [done|]. right.
  assert (s = r) as -> by congruence. split; [done|]. exists status, sig, (Some at_).
  split; [|done]. destruct Hstatus as [[]|[]]; auto.
Qed.

Lemma finish_outgoing :
  outgoing db' = outgoing db - (if bool_decide (status = "rejected") then wd_amount_credits r else 0).
Proof.
  unfold outgoing. rewrite Hdb', map_sum_alter, Hr. unfold outgoing_of; simpl.
  rewrite (bool_decide_false (wd_status r = "rejected")) by (rewrite Hpending; done).
  case_bool_decide; lia.
Qed.
End Finish.

(** ** Deposits *)

Lemma credits_from_usdc_Ok u c : credits_from_usdc_cents u = Ok c -> c = u * CREDITS_PER_USDC_CENT.
Proof.
  unfold credits_from_usdc_cents, i64_checked_mul. destruct (_ && _); [|done]. by intros [= <-].
Qed.

Lemma load_state_Ok a db r :
  load_account_wallet_state_locked a db = Ok r -> account_wallets db !! a = Some r.
Proof.
  unfold load_account_wallet_state_locked, query_row. destruct (account_wallets db !! a); [|done].
  by intros [= <-].
Qed.

Lemma insert_deposit_Ok i r db db' :
  insert_deposit i r db = Ok db' ->
  account_onchain_deposits db !! i = None /\ 0 < dep_amount_credits r /\
  is_Some (account_wallets db !! dep_account_user_id r) /\
  db' = set_account_onchain_deposits (<[i := r]> (account_onchain_deposits db)) db.
Proof.
  unfold insert_deposit. intros H.
  destruct (has i _) eqn:Hi; [done|]. cbn [negb] in H. destruct (unique_for _ _ _ _); [|done].
  destruct ((0 <? _) && _) eqn:Hb; [|done]. apply andb_true_iff in Hb as [_ Hb%Z.ltb_lt].
  destruct (has (dep_account_user_id r) _) eqn:Ha; [|done]. injection H as <-.
  split_and!; [|done| |done].
  - unfold has in Hi. by destruct (account_onchain_deposits db !! i).
  - by apply has_true in Ha.
Qed.

Definition deposited (db : Db) : Z := map_sum dep_amount_credits (account_onchain_deposits db).

Lemma credit_deposit_Ok did a sig addr src usdc credits now dv n1 n2 db db' :
  credit_deposit did a sig addr src usdc credits now dv n1 n2 db = Ok db' ->
  0 < credits /\ supply db' = supply db + credits /\ deposited db' = deposited db + credits /\
  (solvent db -> solvent db') /\
  (forall h, holding h db' = holding h db + (if decide (h = HAccount a) then credits else 0)) /\
  account_onchain_deposits db' = <[did := mkDepositRow a sig addr src usdc credits now]>
    (account_onchain_deposits db) /\
  account_onchain_deposits db !! did = None /\ account_withdrawals db' = account_withdrawals db.
Proof.
  unfold credit_deposit, onchain_sql. intros H.
  destruct (insert_deposit _ _ _) as [db1|] eqn:E1; [|done]. cbn [map_err] in H.
  apply insert_deposit_Ok in E1 as (Hi & Hc & Ha & Edb1). simpl in Hc, Ha.
  set (db2 := update_account (aw_post credits usdc usdc 0 now) a db1) in *.
  destruct (insert_account_ledger a "usdc" _ _ _ _ _ _ _) as [db3|] eqn:E3; [|done]. cbn [map_err] in H.
  apply insert_account_ledger_Ok in E3 as (_ & Hm3 & Edb3).
  destruct (insert_account_ledger a "credits" _ _ _ _ _ _ _) as [db4|] eqn:E4; [|done].
  injection H as <-. apply insert_account_ledger_Ok in E4 as (_ & Hm4 & Edb4).
  assert (same_money db db1) as Hm1 by by subst db1.
  assert (is_Some (account_wallets db1 !! a)) as Ha1 by by rewrite (same_accounts _ _ Hm1).
  assert (same_money db2 db4) as Hm by by etransitivity.
  split; [done|]. split_and!.
  - rewrite (same_money_supply _ _ Hm). unfold db2.
    rewrite (supply_update_account _ _ _ credits) by done. by rewrite (same_money_supply _ _ Hm1).
  - subst db4 db3 db1. unfold deposited. simpl. rewrite map_sum_insert_new by done. simpl. lia.
  - intros Hs. apply (same_money_solvent _ _ Hm), solvent_aw_post; [lia|].
    by apply (same_money_solvent _ _ Hm1).
  - intros h. rewrite (holding_same_money _ _ _ Hm). unfold db2.
    rewrite (holding_update_account _ credits) by done. by rewrite (holding_same_money _ _ _ Hm1).
  - by subst db4 db3 db1.
  - done.
  - by subst db4 db3 db1.
Qed.

Lemma set_solana_money addr now a db :
  supply (update_account (aw_set_solana addr now) a db) = supply db /\
  (solvent db -> solvent (update_account (aw_set_solana addr now) a db)) /\
  forall h, holding h (update_account (aw_set_solana addr now) a db) = holding h db.
Proof.
  split_and!.
  - unfold supply, account_credits. simpl. by rewrite map_sum_alter_same.
  - apply solvent_update_account. done.
  - intros [d|a']; [done|]. simpl. unfold account_balance_of. simpl.
    destruct (decide (a = a')) as [<-|]; [|by rewrite lookup_alter_ne].
    rewrite lookup_alter_eq. by destruct (account_wallets db !! a).
Qed.

(** The effect of either deposit function: the whole amount of a new
    signature, nothing for one already recorded. *)
Definition deposit_effect (a : string) (credits : Z) (db db' : Db) : Prop :=
  supply db' - supply db = deposited db' - deposited db /\
  (deposited db' - deposited db = credits \/ deposited db' = deposited db) /\
  (solvent db -> solvent db') /\
  (forall h, holding h db' = holding h db +
     (if decide (h = HAccount a) then deposited db' - deposited db else 0)) /\
  account_withdrawals db' = account_withdrawals db.

Lemma deposit_effect_same a credits db db' :
  supply db' = supply db -> deposited db' = deposited db -> (solvent db -> solvent db') ->
  (forall h, holding h db' = holding h db) -> account_withdrawals db' = account_withdrawals db ->
  deposit_effect a credits db db'.
Proof.
  intros H1 H2 H3 H4 H5. split; [lia|]. split; [by right|]. split; [done|]. split; [|done].
  intros h. rewrite H4, H2. case_decide; lia.
Qed.

Lemma treasury_deposit_Ok did now dv sig usdc src addr db rcpt db' :
  record_account_treasury_deposit did now dv sig usdc src addr db = Ok (rcpt, db') ->
  exists a, account_user_id_for_device dv db = Some a /\ 0 < usdc /\
  deposit_effect a (usdc * CREDITS_PER_USDC_CENT) db db' /\
  match deposit_by_signature sig db with
  | Some (_, d) => db' = db /\ dep_account_user_id d = a
  | None => deposited db' = deposited db + usdc * CREDITS_PER_USDC_CENT
  end.
Proof.
  unfold record_account_treasury_deposit. intros H.
  destruct (Z.leb_spec usdc 0) as [|Hu]; [done|]. cbn [negb] in H.
  destruct (credits_from_usdc_cents usdc) as [credits|] eqn:Ec; [|done]. cbn [map_err] in H.
  apply credits_from_usdc_Ok in Ec. subst credits.
  destruct (account_user_id_for_device dv db) as [a|]; [|done]. cbn [ok_or] in H.
  destruct (load_account_wallet_state_locked a db) as [st|]; [|done]. cbn [map_err] in H.
  exists a. do 2 (split; [done|]).
  destruct (deposit_by_signature sig db) as [[i d]|].
  - case_bool_decide as Hd; [|done]. injection H as _ <-. split.
    + by apply deposit_effect_same.
    + tauto.
  - destruct (credit_deposit _ _ _ _ _ _ _ _ _ _ _ _) as [db1|] eqn:E; [|done]. injection H as _ <-.
    apply credit_deposit_Ok in E as (Hc & Hsup & Hdep & Hsol & Hh & _ & _ & Hw).
    split; [|exact Hdep].
    split; [lia|]. split; [left; lia|]. split; [done|]. split; [|done].
    intros h. rewrite Hh. case_decide; lia.
Qed.

Lemma onchain_deposit_Ok did now dv req db rcpt db' :
  record_account_onchain_deposit did now dv req db = Ok (rcpt, db') ->
  exists a, account_user_id_for_device dv db = Some a /\
  deposit_effect a (default 0 (di_amount_usdc_cents req) * CREDITS_PER_USDC_CENT) db db'.
Proof.
  unfold record_account_onchain_deposit. intros H.
  destruct (account_user_id_for_device dv db) as [a|]; [|done]. cbn [ok_or] in H.
  destruct (load_account_wallet_state_locked a db) as [st|]; [|done]. cbn [map_err] in H.
  destruct (resolve_account_onchain_address_from_state _ _) as [addr|]; [|done].
  exists a. split; [done|]. set (db0 := update_account (aw_set_solana addr now) a db) in *.
  destruct (set_solana_money addr now a db) as (S1 & S2 & S3). fold db0 in S1, S2, S3.
  destruct (normalized_optional_string (di_tx_signature req)) as [sig|];
    [|injection H as _ <-; by apply deposit_effect_same].
  destruct (di_amount_usdc_cents req) as [usdc|]; [|done]. cbn [ok_or default] in H |- *.
  destruct (negb (usdc <=? 0)); [|done].
  destruct (credits_from_usdc_cents usdc) as [credits|] eqn:Ec; [|done]. cbn [map_err] in H.
  apply credits_from_usdc_Ok in Ec. subst credits.
  destruct (deposit_by_signature sig db0) as [[i d]|].
  - case_bool_decide as Hd; [|done]. injection H as _ <-. by apply deposit_effect_same.
  - destruct (credit_deposit _ _ _ _ _ _ _ _ _ _ _ _) as [db1|] eqn:E; [|done]. injection H as _ <-.
    apply credit_deposit_Ok in E as (Hc & Hsup & Hdep & Hsol & Hh & _ & _ & Hw).
    change (deposited db0) with (deposited db) in Hdep. simpl.
    split; [lia|]. split; [left; lia|]. split; [auto|]. split; [|exact Hw].
    intros h. rewrite Hh, S3. case_decide; lia.
Qed.

(** ** Withdrawals *)

Lemma ledger_rows_frame a asset amount ty ts dv note key db db' :
  insert_account_ledger a asset amount ty ts dv note key db = Ok db' ->
  same_money db db' /\ account_withdrawals db' = account_withdrawals db.
Proof. intros (_ & Hm & ->)%insert_account_ledger_Ok. done. Qed.

Lemma finish_withdrawal_Ok a req sig usdc credits now dv n1 n2 db db' :
  finish_withdrawal a req sig usdc credits now dv n1 n2 db = Ok db' ->
  same_money db db' /\
  account_withdrawals db' =
    account_withdrawals (update_withdrawals req (wd_set "submitted" (Some sig) (Some now)) db) /\
  (forall j s, account_withdrawals db !! j = Some s -> wd_request_id s = req \/ wd_tx_signature s <> Some sig).
Proof.
  unfold finish_withdrawal, onchain_sql. intros H.
  destruct (insert_account_ledger a "credits" _ _ _ _ _ _ _) as [db1|] eqn:E1; [|done]. cbn [map_err] in H.
  apply ledger_rows_frame in E1 as [Hm1 Hw1].
  destruct (insert_account_ledger a "usdc" _ _ _ _ _ _ _) as [db2|] eqn:E2; [|done]. cbn [map_err] in H.
  apply ledger_rows_frame in E2 as [Hm2 Hw2]. rewrite Hw1 in Hw2.
  unfold submit_withdrawals in H. case_bool_decide as Hu; [|done]. injection H as <-.
  split; [by transitivity db1; [exact Hm1|]; transitivity db2|]. split.
  - unfold update_withdrawals. simpl. by rewrite Hw2.
  - intros j s Hs. rewrite Hw2 in Hu. apply (Hu j s Hs).
Qed.

Lemma reread_Ok req db rec db' : reread_withdrawal req db = Ok (rec, db') ->
  db' = db /\ withdrawal_by_request req db = Some rec.
Proof.
  unfold reread_withdrawal, onchain_sql, query_row.
  destruct (withdrawal_by_request req db); [|done]. by intros [= <- <-].
Qed.

(** What a withdrawal operation preserves. *)
Definition withdrawal_effect (db db' : Db) : Prop :=
  withdrawals_wf db' /\ table_evolves db db' /\
  supply db' + outgoing db' = supply db + outgoing db /\ (solvent db -> solvent db').

Lemma withdrawal_effect_refl db : withdrawals_wf db -> withdrawal_effect db db.
Proof. intros Hwf. split; [done|]. split; [by apply table_evolves_same|]. done. Qed.

Lemma submit_row_effect db db0 db' i r req sig now :
  withdrawals_wf db -> account_withdrawals db !! i = Some r -> wd_request_id r = req ->
  wd_status r = "pending" -> account_withdrawals db0 = account_withdrawals db ->
  account_withdrawals db' =
    account_withdrawals (update_withdrawals req (wd_set "submitted" (Some sig) (Some now)) db0) ->
  (forall j s, account_withdrawals db !! j = Some s -> wd_request_id s = req \/ wd_tx_signature s <> Some sig) ->
  withdrawals_wf db' /\ table_evolves db db' /\ outgoing db' = outgoing db.
Proof.
  intros Hwf Hr Hq Hp E0 E Hu.
  assert (account_withdrawals db' = alter (wd_set "submitted" (Some sig) (Some now)) i (account_withdrawals db)) as Hdb'.
  { rewrite E. rewrite <-(update_withdrawals_alter req _ db i r) by done. unfold update_withdrawals.
    simpl. by rewrite E0. }
  assert (forall j s x, account_withdrawals db !! j = Some s -> Some sig = Some x ->
    wd_tx_signature s <> Some x) as Hfresh.
  { intros j s x Hs [= <-]. destruct (Hu j s Hs) as [Hq'|]; [|done].
    assert (j = i) as -> by (apply (wf_requests _ Hwf j i s r); congruence).
    assert (s = r) as -> by congruence.
    destruct (wf_rows _ Hwf i r Hr) as (_ & _ & [(_ & -> & _)|[(H & _)|(H & _)]]); congruence. }
  assert (("submitted" = "submitted" /\ is_Some (Some sig)) \/ ("submitted" = "rejected" /\ Some sig = None))
    as Hst by eauto.
  split; [eapply finish_wf; eauto|]. split; [eapply finish_evolves; eauto|].
  erewrite finish_outgoing by eauto. rewrite bool_decide_false by done. lia.
Qed.

Lemma complete_effect now req sig db rec db' :
  withdrawals_wf db ->
  complete_account_withdrawal_from_treasury now req sig db = Ok (rec, db') ->
  withdrawal_effect db db' /\ supply db' = supply db /\
  (exists r, account_withdrawals db' !! rec.1 = Some r /\ rec.2 = r /\ wd_request_id r = req /\
     wd_tx_signature r = Some sig).
Proof.
  intros Hwf. unfold complete_account_withdrawal_from_treasury. intros H.
  destruct (withdrawal_by_request req db) as [[i r]|] eqn:Er; [|done]. cbn [ok_or] in H.
  apply by_request_Some in Er as [Hr Hq].
  case_bool_decide as Hst.
  { unfold some_eqb in H. case_bool_decide as Hsig; [|done]. injection H as <- <-.
    split; [by apply withdrawal_effect_refl|]. split; [done|]. simpl. eauto. }
  case_bool_decide as Hfree; [|done].
  set (db0 := update_account (aw_post 0 0 0 (wd_amount_usdc_cents r) now) (wd_account_user_id r) db) in *.
  destruct (finish_withdrawal _ _ _ _ _ _ _ _ _ _) as [db1|] eqn:Ef; [|done].
  apply reread_Ok in H as [-> Hrec].
  apply finish_withdrawal_Ok in Ef as (Hm & Hw & Hu).
  destruct (submit_row_effect db db0 db1 i r req sig now) as (Hwf' & Hev & Hout); try done.
  assert (supply db1 = supply db) as Hsup.
  { rewrite (same_money_supply _ _ Hm). unfold db0, supply, account_credits. simpl.
    rewrite map_sum_alter_same; [done|]. intros; simpl; lia. }
  split; [split; [done|]; split; [done|]; split; [lia|]|split; [done|]].
  - intros Hs. apply (same_money_solvent _ _ Hm), solvent_aw_post; [lia|done].
  - destruct rec as [j s]. apply by_request_Some in Hrec as [Hj Hqj]. exists s. split; [done|].
    split; [done|]. split; [done|]. simpl in *. destruct (Hev i r Hr) as (r' & Hr' & _).
    rewrite Hw in Hj. simpl in Hj. rewrite lookup_fmap in Hj.
    destruct (account_withdrawals db !! j) as [s0|] eqn:Hs0; [|done]. simpl in Hj.
    injection Hj as <-. case_bool_decide as Hc; [done|]. by destruct Hc.
Qed.

Lemma reject_effect now req reason db rec db' :
  withdrawals_wf db -> reject_account_withdrawal now req reason db = Ok (rec, db') ->
  withdrawal_effect db db' /\
  exists i r, account_withdrawals db !! i = Some r /\ wd_request_id r = req /\
  wd_status r = "pending" /\ rec = (i, wd_set "rejected" None (Some now) r) /\
  forall h, holding h db' = holding h db +
    (if decide (h = HAccount (wd_account_user_id r)) then wd_amount_credits r else 0).
Proof.
  intros Hwf. unfold reject_account_withdrawal, onchain_sql. intros H.
  destruct (withdrawal_by_request req db) as [[i r]|] eqn:Er; [|done]. cbn [ok_or] in H.
  apply by_request_Some in Er as [Hr Hq]. case_bool_decide as Hst; [|done].
  set (a := wd_account_user_id r) in *. set (x := wd_amount_credits r) in *.
  set (db0 := update_account (aw_post x (wd_amount_usdc_cents r) 0 0 now) a db) in *.
  destruct (insert_account_ledger _ _ _ _ _ _ _ _ _) as [db1|] eqn:E; [|done]. cbn [map_err] in H.
  pose proof (insert_account_ledger_Ok _ _ _ _ _ _ _ _ _ _ E) as (Ha & _).
  apply ledger_rows_frame in E as [Hm Hw]. apply reread_Ok in H as [-> Hrec].
  set (db2 := update_withdrawals req _ db1) in *.
  destruct (wf_rows _ Hwf i r Hr) as (Hx & _ & Hshape).
  assert (wd_tx_signature r = None) as Hnone by (destruct Hshape as [(_ & H & _)|[(H & _)|(H & _)]]; congruence).
  assert (account_withdrawals db2 = alter (wd_set "rejected" None (Some now)) i (account_withdrawals db)) as Hdb2.
  { transitivity (account_withdrawals (update_withdrawals req
      (fun r => wd_set "rejected" (wd_tx_signature r) (Some now) r) db)).
    - unfold db2, update_withdrawals. simpl. by rewrite Hw.
    - rewrite (update_withdrawals_alter _ _ db i r) by done. apply map_eq. intros j.
      destruct (decide (i = j)) as [<-|]; [|by rewrite !lookup_alter_ne].
      rewrite !lookup_alter_eq, Hr. simpl. by rewrite Hnone. }
  assert (is_Some (account_wallets db !! a)) as Ha0.
  { revert Ha. unfold db0. simpl. by rewrite alter_is_Some. }
  assert (same_money db0 db2) as Hm2 by (etransitivity; [exact Hm|done]).
  assert (supply db2 = supply db + x) as Hsup.
  { rewrite (same_money_supply _ _ Hm2). unfold db0. by rewrite (supply_update_account _ _ _ x). }
  assert (("rejected" = "submitted" /\ is_Some (@None string)) \/ ("rejected" = "rejected" /\ @None string = None))
    as Hst' by eauto.
  assert (withdrawals_wf db2) as Hwf2 by (eapply finish_wf; eauto; done).
  split.
  - split; [done|]. split; [eapply finish_evolves; eauto|]. split.
    + rewrite Hsup. erewrite finish_outgoing by eauto. rewrite bool_decide_true by done. unfold x. lia.
    + intros Hs. apply (same_money_solvent _ _ Hm2), solvent_aw_post; [lia|done].
  - exists i, r. do 3 (split; [done|]). split.
    + assert (account_withdrawals db2 !! i = Some (wd_set "rejected" None (Some now) r)) as Hi
        by (rewrite Hdb2, lookup_alter_eq, Hr; done).
      rewrite (by_request_lookup req db2 i _ Hwf2 Hi) in Hrec; [congruence|done].
    + intros h. rewrite (holding_same_money _ _ _ Hm2). unfold db0.
      by rewrite (holding_update_account _ x).
Qed.

Lemma insert_withdrawal_Ok i r db db' :
  insert_withdrawal i r db = Ok db' ->
  account_withdrawals db !! i = None /\ 0 < wd_amount_credits r /\
  is_Some (account_wallets db !! wd_account_user_id r) /\
  db' = set_account_withdrawals (<[i := r]> (account_withdrawals db)) db.
Proof.
  unfold insert_withdrawal. intros H.
  destruct (has i _) eqn:Hi; [done|]. cbn [negb] in H. destruct (unique_for _ _ _ _); [|done].
  destruct ((0 <? _) && _) eqn:Hb; [|done]. apply andb_true_iff in Hb as [_ Hb%Z.ltb_lt].
  destruct (has (wd_account_user_id r) _) eqn:Ha; [|done]. injection H as <-.
  split_and!; [|done| |done].
  - unfold has in Hi. by destruct (account_withdrawals db !! i).
  - by apply has_true in Ha.
Qed.

Lemma insert_pending_wf i r db :
  withdrawals_wf db -> account_withdrawals db !! i = None -> withdrawal_ok r ->
  wd_tx_signature r = None ->
  (forall j s, account_withdrawals db !! j = Some s -> wd_request_id s <> wd_request_id r) ->
  withdrawals_wf (set_account_withdrawals (<[i := r]> (account_withdrawals db)) db).
Proof.
  intros [Hrows Hreq Hsig] Hi Hok Hnone Hfresh. split; simpl.
  - by apply map_Forall_insert_2.
  - intros j k s t. rewrite !lookup_insert. repeat case_decide; subst; try done.
    + intros [= <-] Ht E. by destruct (Hfresh k t Ht).
    + intros Hs [= <-] E. by destruct (Hfresh j s Hs).
    + apply Hreq.
  - intros j k s t x. rewrite !lookup_insert. repeat case_decide; subst; try done.
    + intros [= <-] Ht. congruence.
    + intros Hs [= <-]. congruence.
    + apply Hsig.
Qed.

(** The request row: answered at once, or present and pending. *)
Lemma request_row_Ok wid now a req dest usdc credits sig db row :
  withdrawals_wf db -> credits = usdc * CREDITS_PER_USDC_CENT ->
  withdrawal_request_row wid now a req dest usdc credits sig db = Ok row ->
  match row with
  | Answer _ => True
  | GoOn reserved db0 =>
      withdrawals_wf db0 /\ table_evolves db db0 /\ same_money db db0 /\
      0 < credits /\
      outgoing db0 = outgoing db + (if reserved then 0 else credits) /\
      (reserved = true -> is_Some sig) /\
      exists i r, account_withdrawals db0 !! i = Some r /\ wd_request_id r = req /\
        wd_status r = "pending" /\ wd_amount_credits r = credits /\ wd_account_user_id r = a
  end.
Proof.
  intros Hwf Hcr. unfold withdrawal_request_row, onchain_sql. intros H.
  destruct (withdrawal_by_request req db) as [[i r]|] eqn:Er.
  - apply by_request_Some in Er as [Hr Hq]. case_bool_decide as Hmatch; [|done].
    destruct Hmatch as (Ha & Hd & Hu & Hc). case_bool_decide as Hst.
    { case_bool_decide; [|done]. by injection H as <-. }
    destruct sig as [sig|]; injection H as <-; [|done].
    destruct (wf_rows _ Hwf i r Hr) as (Hpos & _).
    split; [done|]. split; [by apply table_evolves_same|]. split; [done|]. split; [lia|].
    split; [lia|]. split; [by eauto|]. by exists i, r.
  - destruct (insert_withdrawal _ _ _) as [db0|] eqn:E; [|done]. injection H as <-.
    apply insert_withdrawal_Ok in E as (Hi & Hpos & Ha & ->). simpl in Hpos, Ha.
    set (r := mkWithdrawalRow _ _ _ _ _ _ _ _ _).
    assert (withdrawal_ok r) as Hok by (split; [done|]; split; [done|]; by left).
    split; [apply insert_pending_wf; try done; intros j s Hs; by apply (by_request_None req db j s)|].
    split; [|split; [done|split; [done|split; [|split; [done|]]]]].
    + intros j s Hs. exists s. split; [|by left]. simpl. rewrite lookup_insert_ne; [done|]. congruence.
    + unfold outgoing. simpl. rewrite map_sum_insert_new by done.
      assert (outgoing_of r = credits) as -> by done. lia.
    + exists wid, r. simpl. by rewrite lookup_insert_eq.
Qed.

Lemma table_evolves_trans_insert db0 db1 db2 :
  table_evolves db0 db1 -> table_evolves db1 db2 ->
  (forall i r r', account_withdrawals db0 !! i = Some r -> account_withdrawals db1 !! i = Some r' -> r' = r) ->
  table_evolves db0 db2.
Proof.
  intros H1 H2 Hsame i r Hr. destruct (H1 i r Hr) as (r1 & Hr1 & _).
  assert (r1 = r) as -> by eauto. by apply H2.
Qed.

Lemma request_row_keeps wid now a req dest usdc credits sig db reserved db0 :
  withdrawal_request_row wid now a req dest usdc credits sig db = Ok (GoOn reserved db0) ->
  forall i r r', account_withdrawals db !! i = Some r -> account_withdrawals db0 !! i = Some r' -> r' = r.
Proof.
  unfold withdrawal_request_row, onchain_sql. intros H i r r'.
  destruct (withdrawal_by_request req db) as [[j s]|].
  - case_bool_decide; [|done]. case_bool_decide; [case_bool_decide; done|].
    destruct sig; [|done]. injection H as _ <-. congruence.
  - destruct (insert_withdrawal _ _ _) as [db1|] eqn:E; [|done]. injection H as _ <-.
    apply insert_withdrawal_Ok in E as (Hi & _ & _ & ->). simpl. intros Hr.
    rewrite lookup_insert_ne; [congruence|]. congruence.
Qed.

Lemma hold_withdrawal_Ok now a dv req usdc credits state db db' :
  account_wallets db !! a = Some state ->
  hold_withdrawal now a dv req usdc credits state db = Ok db' ->
  supply db' = supply db - credits /\ (solvent db -> solvent db') /\
  account_withdrawals db' = account_withdrawals db.
Proof.
  intros Hst. unfold hold_withdrawal, onchain_sql.
  destruct (Z.leb_spec credits (aw_balance_credits state)) as [Hle|]; [|done]. intros H.
  destruct (insert_account_ledger _ _ _ _ _ _ _ _ _) as [db1|] eqn:E; [|done]. injection H as <-.
  apply ledger_rows_frame in E as [Hm Hw]. split_and!; [| |by rewrite Hw].
  - rewrite (same_money_supply _ _ Hm), (supply_update_account _ _ _ (- credits)); [lia|done|by eauto].
  - intros Hs. apply (same_money_solvent _ _ Hm), solvent_aw_debit; [|done].
    unfold account_balance_of. by rewrite Hst.
Qed.

Lemma settle_withdrawal_Ok now a dv req dest sig usdc credits reserved state db db' :
  account_wallets db !! a = Some state ->
  settle_withdrawal now a dv req dest sig usdc credits reserved state db = Ok db' ->
  supply db' = supply db - (if reserved then 0 else credits) /\ (solvent db -> solvent db') /\
  account_withdrawals db' =
    account_withdrawals (update_withdrawals req (wd_set "submitted" (Some sig) (Some now)) db) /\
  (forall j s, account_withdrawals db !! j = Some s -> wd_request_id s = req \/ wd_tx_signature s <> Some sig).
Proof.
  intros Hst. unfold settle_withdrawal. intros H.
  destruct (credits_from_usdc_cents _) as [red|]; [|done]. cbn [map_err] in H.
  destruct reserved.
  - apply finish_withdrawal_Ok in H as (Hm & Hw & Hu). split_and!; [| |exact Hw|exact Hu].
    + rewrite (same_money_supply _ _ Hm), (supply_update_account _ _ _ 0); [lia|done|by eauto].
    + intros Hs. apply (same_money_solvent _ _ Hm), solvent_aw_post; [lia|done].
  - destruct (Z.leb_spec credits (aw_balance_credits state)) as [Hle|]; [|done].
    apply finish_withdrawal_Ok in H as (Hm & Hw & Hu). split_and!; [| |exact Hw|exact Hu].
    + rewrite (same_money_supply _ _ Hm), (supply_update_account _ _ _ (- credits)); [lia|done|by eauto].
    + intros Hs. apply (same_money_solvent _ _ Hm), solvent_aw_debit; [|done].
      unfold account_balance_of. by rewrite Hst.
Qed.

Lemma submit_effect wid now dv req db rec db' :
  withdrawals_wf db -> submit_account_withdrawal wid now dv req db = Ok (rec, db') ->
  withdrawal_effect db db'.
Proof.
  intros Hwf. unfold submit_account_withdrawal. intros H.
  destruct (normalized_optional_string (Some (wr_request_id req))) as [rid|]; [|done]. cbn [ok_or] in H.
  destruct (normalized_optional_string (Some (wr_destination_address req))) as [dest|]; [|done].
  cbn [ok_or] in H. destruct (negb (_ <=? 0)); [|done].
  destruct (account_user_id_for_device dv db) as [a|]; [|done]. cbn [ok_or] in H.
  destruct (load_account_wallet_state_locked a db) as [st|] eqn:Est; [|done]. cbn [map_err] in H.
  apply load_state_Ok in Est. destruct (_ && _); [|done].
  destruct (credits_from_usdc_cents _) as [credits|] eqn:Ec; [|done]. cbn [map_err] in H.
  apply credits_from_usdc_Ok in Ec. set (usdc := wr_amount_usdc_cents req) in *.
  set (sig := normalized_optional_string (wr_tx_signature req)) in *.
  match type of H with (if ?b then _ else _) = _ => destruct b; [|done] end.
  destruct (withdrawal_request_row _ _ _ _ _ _ _ _ _) as [row|] eqn:Erow; [|done].
  pose proof (request_row_Ok _ _ _ _ _ _ _ _ _ _ Hwf Ec Erow) as Hrow.
  destruct row as [record|reserved db0].
  { injection H as <- <-. by apply withdrawal_effect_refl. }
  pose proof (request_row_keeps _ _ _ _ _ _ _ _ _ _ _ Erow) as Hkeep.
  destruct Hrow as (Hwf0 & Hev0 & Hm0 & Hpos & Hout0 & Hres & i & r & Hr & Hq & Hp & Hcr & Hacc).
  assert (account_wallets db0 !! a = Some st) as Hst0 by by rewrite (same_accounts _ _ Hm0).
  pose proof (same_money_supply _ _ Hm0) as Hsup0. pose proof (same_money_solvent _ _ Hm0) as Hsol0.
  destruct sig as [sg|].
  - destruct (settle_withdrawal _ _ _ _ _ _ _ _ _ _ _) as [db1|] eqn:E1; [|done].
    destruct (reread_withdrawal rid db1) as [[rec1 db2]|] eqn:E2; [|done]. injection H as <- <-.
    apply reread_Ok in E2 as [-> _]. apply settle_withdrawal_Ok in E1 as (Hsup & Hsol & Hw & Hu); [|done].
    destruct (submit_row_effect db0 db0 db1 i r rid sg now) as (Hwf1 & Hev1 & Hout1); try done.
    split; [done|]. split; [by apply (table_evolves_trans_insert _ db0)|].
    split; [destruct reserved; lia | auto].
  - destruct reserved; [destruct (Hres eq_refl); done|].
    destruct (hold_withdrawal _ _ _ _ _ _ _ _) as [db1|] eqn:E1; [|done]. injection H as <- <-.
    apply hold_withdrawal_Ok in E1 as (Hsup & Hsol & Hw); [|done].
    split; [destruct Hwf0; split; rewrite Hw; done|].
    split; [apply (table_evolves_trans_insert _ db0); [done|by apply table_evolves_same|done]|].
    split; [unfold outgoing in *; rewrite Hw; lia | auto].
Qed.

(** ** Claims *)

Definition demo_request (sig : option string) : AccountWithdrawalRequest :=
  mkWithdrawalRequest " w1 " "DeSt" 20 sig.

(** [demo] with one pending withdrawal of 20 cents. *)
Definition demo_pending : Db := commit (submit_account_withdrawal "wd1" 100 "alice" (demo_request None) demo) demo.

Lemma no_withdrawals_wf db : account_withdrawals db = ∅ -> withdrawals_wf db.
Proof.
  intros E. split; rewrite E.
  - apply map_Forall_empty.
  - intros i j r s H. by rewrite lookup_empty in H.
  - intros i j r s sig H. by rewrite lookup_empty in H.
Qed.

Lemma demo_no_withdrawals : account_withdrawals demo = ∅.
Proof. vm_compute. reflexivity. Defined.

Lemma demo_pending_wf : withdrawals_wf demo_pending.
Proof.
  assert (exists rec, submit_account_withdrawal "wd1" 100 "alice" (demo_request None) demo = Ok (rec, demo_pending))
    as [rec E].
  { unfold demo_pending.
    destruct (submit_account_withdrawal "wd1" 100 "alice" (demo_request None) demo) as [[rec db]|] eqn:E;
      [by exists rec | vm_compute in E; discriminate E]. }
  exact (proj1 (submit_effect _ _ _ _ _ _ _ (no_withdrawals_wf _ demo_no_withdrawals) E)).
Qed.

(** submitting a withdrawal, with or without a signature, new or repeated,
    takes its credits out of circulation exactly once: the wallets lose what
    the open and paid withdrawals gain.  The withdrawal table stays
    well-formed (unique requests and signatures, the columns each status
    needs), no wallet is overdrawn, and a recorded withdrawal only changes from
    pending to its final status. *)
Theorem submit_account_withdrawal_effect wid now dv req db rec db' :
  withdrawals_wf db -> submit_account_withdrawal wid now dv req db = Ok (rec, db') ->
  withdrawals_wf db' /\ table_evolves db db' /\
  supply db' + outgoing db' = supply db + outgoing db /\ (solvent db -> solvent db').
Proof. apply submit_effect. Qed.

Lemma submit_account_withdrawal_effect_witness :
  exists rec db', submit_account_withdrawal "wd2" 100 "alice" (demo_request (Some "sig")) demo_pending = Ok (rec, db') /\
  supply db' + outgoing db' = supply demo_pending + outgoing demo_pending.
Proof.
  run_ok (submit_account_withdrawal "wd2" 100 "alice" (demo_request (Some "sig")) demo_pending).
  eexists _, _. split; [reflexivity|].
  exact (proj1 (proj2 (proj2 (submit_account_withdrawal_effect _ _ _ _ _ _ _ demo_pending_wf Erun)))).
Defined.

(** completing a withdrawal from the treasury moves no credits (they left the
    wallet when the request was made), answers with a record of that request
    under that signature, and completing it again with the same signature
    answers the same record and changes nothing. *)
Theorem complete_withdrawal_once now req sig db rec db' :
  withdrawals_wf db -> complete_account_withdrawal_from_treasury now req sig db = Ok (rec, db') ->
  supply db' = supply db /\ outgoing db' = outgoing db /\ withdrawals_wf db' /\
  table_evolves db db' /\ (solvent db -> solvent db') /\
  wd_request_id rec.2 = req /\ wd_tx_signature rec.2 = Some sig /\
  forall later, complete_account_withdrawal_from_treasury later req sig db' = Ok (rec, db').
Proof.
  intros Hwf H. pose proof (complete_effect _ _ _ _ _ _ Hwf H) as
    ((Hwf' & Hev & Hsum & Hsol) & Hsup & r & Hr & Er & Hq & Hsig).
  split; [done|]. split; [lia|]. do 3 (split; [done|]). subst r. do 2 (split; [done|]).
  intros later. unfold complete_account_withdrawal_from_treasury.
  rewrite (by_request_lookup req db' rec.1 rec.2) by done. cbn [ok_or].
  assert (wd_status rec.2 <> "pending") as Hst.
  { destruct (wf_rows _ Hwf' _ _ Hr) as (_ & _ & [(_ & Hn & _)|[(-> & _)|(-> & _)]]); congruence. }
  rewrite bool_decide_true by done. unfold some_eqb. rewrite bool_decide_true by done.
  by destruct rec.
Qed.

Lemma complete_withdrawal_once_witness :
  exists rec db', complete_account_withdrawal_from_treasury 110 "w1" "sig" demo_pending = Ok (rec, db') /\
  complete_account_withdrawal_from_treasury 120 "w1" "sig" db' = Ok (rec, db').
Proof.
  destruct (complete_account_withdrawal_from_treasury 110 "w1" "sig" demo_pending) as [[rec db']|] eqn:E;
    [|vm_compute in E; discriminate E].
  exists rec, db'. split; [reflexivity|].
  apply (complete_withdrawal_once 110 "w1" "sig" demo_pending rec db' demo_pending_wf E).
Defined.

(** rejecting a pending withdrawal gives exactly its credits back to its
    account, changes no other wallet, and makes the rejection final: the same
    request can be neither rejected again nor completed. *)
Theorem reject_withdrawal_refunds now req reason db rec db' :
  withdrawals_wf db -> reject_account_withdrawal now req reason db = Ok (rec, db') ->
  exists i r, account_withdrawals db !! i = Some r /\ wd_request_id r = req /\ wd_status r = "pending" /\
  (forall h, holding h db' = holding h db +
     (if decide (h = HAccount (wd_account_user_id r)) then wd_amount_credits r else 0)) /\
  supply db' + outgoing db' = supply db + outgoing db /\ (solvent db -> solvent db') /\
  withdrawals_wf db' /\ table_evolves db db' /\
  forall later reason' sig, reject_account_withdrawal later req reason' db' = Err WithdrawalConflict /\
    complete_account_withdrawal_from_treasury later req sig db' = Err WithdrawalConflict.
Proof.
  intros Hwf H. pose proof (reject_effect _ _ _ _ _ _ Hwf H) as
    ((Hwf' & Hev & Hsum & Hsol) & i & r & Hr & Hq & Hp & -> & Hh).
  exists i, r. do 4 (split; [done|]). do 4 (split; [done|]).
  assert (withdrawal_by_request req db' = Some (i, wd_set "rejected" None (Some now) r)) as Hby.
  { unfold reject_account_withdrawal in H.
    rewrite (by_request_lookup req db i r) in H by done. cbn [ok_or] in H.
    rewrite bool_decide_true in H by done.
    destruct (onchain_sql _) as [db1|]; [|done]. by apply reread_Ok in H as [-> ->]. }
  intros later reason' sig. unfold reject_account_withdrawal, complete_account_withdrawal_from_treasury.
  rewrite Hby. cbn [ok_or wd_status wd_set wd_tx_signature]. done.
Qed.

Lemma reject_withdrawal_refunds_witness :
  exists rec db', reject_account_withdrawal 110 "w1" None demo_pending = Ok (rec, db') /\
  supply db' + outgoing db' = supply demo_pending + outgoing demo_pending.
Proof.
  destruct (reject_account_withdrawal 110 "w1" None demo_pending) as [[rec db']|] eqn:E;
    [|vm_compute in E; discriminate E].
  exists rec, db'. split; [reflexivity|].
  destruct (reject_withdrawal_refunds 110 "w1" None demo_pending rec db' demo_pending_wf E)
    as (i & r & _ & _ & _ & _ & Hsum & _). exact Hsum.
Defined.

(** a treasury deposit credits the account of the requesting device with
    10,000 credits per cent if its transaction signature is new, and nothing
    if the signature is already recorded; a replay of an accepted deposit
    leaves the database as it is. *)
Theorem treasury_deposit_once did now dv sig usdc src addr db rcpt db' :
  record_account_treasury_deposit did now dv sig usdc src addr db = Ok (rcpt, db') ->
  exists a, account_user_id_for_device dv db = Some a /\ 0 < usdc /\
  (forall h, holding h db' = holding h db +
     (if decide (h = HAccount a /\ deposit_by_signature sig db = None)
      then usdc * CREDITS_PER_USDC_CENT else 0)) /\
  supply db' - supply db = deposited db' - deposited db /\ (solvent db -> solvent db') /\
  forall did' later rcpt' db'',
    record_account_treasury_deposit did' later dv sig usdc src addr db' = Ok (rcpt', db'') -> db'' = db'.
Proof.
  intros H. pose proof (treasury_deposit_Ok _ _ _ _ _ _ _ _ _ _ H) as
    (a & Ha & Hu & (Hsup & _ & Hsol & Hh & _) & Hcase).
  exists a. do 2 (split; [done|]). split; [|split; [done|split; [done|]]].
  - intros h. rewrite Hh. destruct (deposit_by_signature sig db) as [[i d]|].
    + destruct Hcase as [-> _]. rewrite (decide_False (P := _ /\ _)) by (intros [_ ?]; done).
      case_decide; lia.
    + rewrite Hcase. destruct (decide (h = HAccount a)) as [->|Hne].
      * rewrite decide_True by done. lia.
      * rewrite decide_False by (intros [? _]; done). done.
  - intros did' later rcpt' db'' H2.
    apply treasury_deposit_Ok in H2 as (a' & _ & _ & _ & Hcase').
    assert (is_Some (deposit_by_signature sig db')) as [[i d] E].
    { destruct (deposit_by_signature sig db') eqn:E; [eauto|exfalso].
      pose proof (select_one_None _ _ E) as Hn. destruct (deposit_by_signature sig db) as [[i d]|] eqn:E0.
      - destruct Hcase as [-> _]. congruence.
      - unfold record_account_treasury_deposit in H.
        destruct (negb _); [|done]. destruct (credits_from_usdc_cents usdc) as [c|]; [|done].
        cbn [map_err] in H. rewrite Ha in H. cbn [ok_or] in H.
        destruct (load_account_wallet_state_locked a db); [|done]. cbn [map_err] in H.
        rewrite E0 in H.
        destruct (credit_deposit _ _ _ _ _ _ _ _ _ _ _ _) as [db1|] eqn:Ec; [|done]. injection H as _ <-.
        apply credit_deposit_Ok in Ec as (_ & _ & _ & _ & _ & Hd & _).
        specialize (Hn did). rewrite Hd, lookup_insert_eq in Hn. specialize (Hn _ eq_refl). simpl in Hn.
        by rewrite bool_decide_true in Hn. }
    rewrite E in Hcase'. by destruct Hcase'.
Qed.

Lemma treasury_deposit_once_witness :
  exists rcpt db', record_account_treasury_deposit "d1" 100 "alice" "tx" 7 None "treasury" demo = Ok (rcpt, db') /\
  supply db' - supply demo = deposited db' - deposited demo.
Proof.
  destruct (record_account_treasury_deposit "d1" 100 "alice" "tx" 7 None "treasury" demo) as [[rcpt db']|] eqn:E;
    [|vm_compute in E; discriminate E].
  exists rcpt, db'. split; [reflexivity|].
  destruct (treasury_deposit_once _ _ _ _ _ _ _ _ _ _ E) as (a & _ & _ & _ & Hs & _). exact Hs.
Defined.

(** ** Two behaviours that surprise *)

(** The [credits] rows of an account's ledger. *)
Definition ledger_credits (a : string) (db : Db) : Z :=
  zsum ((fun r => if bool_decide (al_account_user_id r = a) && bool_decide (al_asset r = "credits")
                  then al_amount r else 0) <$> account_ledger db).

(** The unsigned path posts a hold and the completion posts a burn of the same
    credits, so the ledger shows a paid withdrawal twice while the wallet lost
    it once. *)
Theorem withdrawal_posted_twice :
  let completed := complete_account_withdrawal_from_treasury 110 "w1" "sig" demo_pending in
  let db' := commit completed demo_pending in
  is_ok completed = true /\ ledger_credits ann demo = account_balance_of ann demo /\
  account_balance_of ann db' = account_balance_of ann demo - 200000 /\
  ledger_credits ann db' = ledger_credits ann demo - 400000.
Proof. cbv zeta. split; [|split; [|split]]; vm_compute; reflexivity. Qed.

(** The unsigned path answers with the newest withdrawal of the account, which
    need not be the one just requested: within one second the larger
    withdrawal id wins. *)
Theorem submit_answers_another_request :
  match submit_account_withdrawal "wd0" 100 "alice" (mkWithdrawalRequest "w2" "DeSt" 5 None) demo_pending with
  | Ok (Ok rec, db') => wd_request_id rec.2 = "w1" /\ is_Some (withdrawal_by_request "w2" db')
  | _ => False
  end.
Proof. vm_compute. split; [reflexivity|]. eexists. reflexivity. Qed.
