(* ===== verification/Availability.v ===== *)
(** * Availability drip

    [gateway/src/ledger.rs]: every tick the gateway credits the devices that
    are available, from the mint pool, and keeps one open session per device;
    a ledger row is written when a session ends.  The list of recipients comes
    from the scheduler's snapshot and is an argument.  The second half proves
    that a tick conserves credits between the mint pool and the wallets, never
    overdraws the pool, and that sessions and ledger rows together account for
    every availability credit a device receives. *)

From S2P Require Import Prelude Db RustStr Wallet Fixtures.

Open Scope string_scope.
Open Scope Z_scope.

Definition DRIP_INTERVAL_SECS : Z := 1.

Record DripRecipient : Type := mkDripRecipient {
  dr_device_id : string;
  dr_credits : Z;
  dr_model_id : option string
}.

Record AvailabilityReconcileReport : Type := mkReconcileReport {
  credited_devices : nat;
  finalized_sessions : nat
}.

Definition load_active_availability_sessions (db : Db) : list (string * AvailabilityRow) :=
  map_to_list (availability_sessions db).

Definition finalize_availability_session (session : string * AvailabilityRow) (ended_at : Z) (db : Db)
    : Db :=
  let '(device_id, s) := session in
  let db :=
    if 0 <? avs_accrued_credits s then
      let duration_secs := Z.max (i64_saturating_sub ended_at (avs_started_at s)) 1 in
      let note :=
        match avs_model_id s with
        | Some m => "availability session ended // model=" +:+ m +:+ " // duration=" +:+
                    show_z duration_secs +:+ "s"
        | None => "availability session ended // duration=" +:+ show_z duration_secs +:+ "s"
        end in
      insert_ledger device_id (as_str AvailabilitySession) (avs_accrued_credits s) ended_at None note db
    else db in
  set_availability_sessions (delete device_id (availability_sessions db)) db.

(** [recipients.iter().map(..).collect::<HashMap<..>>()]: the last entry of a
    device wins. *)
Definition recipient_map (recipients : list DripRecipient) : gmap string DripRecipient :=
  foldl (fun m r => <[dr_device_id r := r]> m) ∅ recipients.

Definition still_matching (recipients : list DripRecipient) (session : string * AvailabilityRow)
    : bool :=
  match recipient_map recipients !! session.1 with
  | Some r => bool_decide (dr_model_id r = avs_model_id session.2)
  | None => false
  end.

(** [INSERT INTO availability_sessions ... ON CONFLICT(device_id) DO UPDATE]. *)
Definition upsert_session (now : Z) (r : DripRecipient) (db : Db) : Db :=
  set_availability_sessions
    (match availability_sessions db !! dr_device_id r with
     | None => <[dr_device_id r := mkAvailabilityRow (dr_model_id r) now now (dr_credits r)]>
                 (availability_sessions db)
     | Some s => <[dr_device_id r := mkAvailabilityRow (dr_model_id r) (avs_started_at s) now
                    (avs_accrued_credits s + dr_credits r)]> (availability_sessions db)
     end) db.

(** The body of the crediting loop. *)
Definition credit_available_device (now : Z) (r : DripRecipient) (db : Db) : Db :=
  let d := dr_device_id r in
  let db := ensure_device now d db in
  let db := set_devices (alter (fun x => mkDeviceRow (dev_username x) (dev_first_seen x) now) d
              (devices db)) db in
  let db := ensure_balance d db in
  let db := update_balance (bal_earn (dr_credits r)) d db in
  upsert_session now r db.

Definition finalize_ended (now : Z) (recipients : list DripRecipient) (db : Db) : nat * Db :=
  foldl (fun '(n, db) session =>
           if still_matching recipients session then (n, db)
           else (S n, finalize_availability_session session now db))
    (0%nat, db) (load_active_availability_sessions db).

Definition total_needed (recipients : list DripRecipient) : Z :=
  foldl i64_add 0 ((fun r => Z.max (dr_credits r) 0) <$> recipients).

Definition reconcile_availability_sessions (now : Z) (recipients : list DripRecipient) (db : Db)
    : result anyhow (AvailabilityReconcileReport * Db) :=
  let '(finalized, db) := finalize_ended now recipients db in
  let total_needed := total_needed recipients in
  let credit db := Ok (mkReconcileReport (length recipients) finalized,
                       foldl (fun db r => credit_available_device now r db) db recipients) in
  if 0 <? total_needed then
    let? pool := map_err Sql (query_row (mint_pool db)) in
    if mp_remaining pool <? total_needed then Ok (mkReconcileReport 0 finalized, db)
    else credit (set_mint_pool
           (Some (mkMintPoolRow (mp_total_minted pool) (mp_remaining pool - total_needed))) db)
  else credit db.

(** ** Lemmas *)

Definition mint_remaining (db : Db) : Z := default 0 (mp_remaining <$> mint_pool db).

(** The credits a device earned for availability: the rows of ended sessions
    and the accrual of the open one. *)
Definition ended_sessions (d : string) (db : Db) : Z :=
  zsum ((fun r => if decide (led_device_id r = d /\ led_type r = as_str AvailabilitySession)
                  then led_amount r else 0) <$> ledger db).
Definition accrued (d : string) (db : Db) : Z :=
  default 0 (avs_accrued_credits <$> availability_sessions db !! d).
Definition availability_earned (d : string) (db : Db) : Z := ended_sessions d db + accrued d db.

Definition sessions_nonneg (db : Db) : Prop :=
  map_Forall (fun _ s => 0 <= avs_accrued_credits s) (availability_sessions db).

(** What a tick leaves alone, step by step. *)
Lemma finalize_money s t db : same_money db (finalize_availability_session s t db) /\
  mint_pool (finalize_availability_session s t db) = mint_pool db.
Proof. destruct s as [d r]. unfold finalize_availability_session. destruct (0 <? _); done. Qed.

Lemma finalize_earned d0 s t db d :
  availability_sessions db !! d0 = Some s -> 0 <= avs_accrued_credits s ->
  availability_earned d (finalize_availability_session (d0, s) t db) = availability_earned d db.
Proof.
  intros Hs Hnn. unfold availability_earned, accrued, ended_sessions, finalize_availability_session.
  destruct (Z.ltb_spec 0 (avs_accrued_credits s)) as [Hpos|Hz]; simpl.
  - rewrite fmap_app, zsum_app. simpl. destruct (decide (d0 = d)) as [<-|Hne].
    + rewrite lookup_delete_eq, Hs. simpl. rewrite decide_True by done. lia.
    + rewrite lookup_delete_ne by done. rewrite decide_False by tauto. lia.
  - destruct (decide (d0 = d)) as [<-|Hne].
    + rewrite lookup_delete_eq, Hs. simpl. lia.
    + by rewrite lookup_delete_ne.
Qed.

Lemma finalize_sessions_lookup d0 s t db :
  availability_sessions (finalize_availability_session (d0, s) t db) = delete d0 (availability_sessions db).
Proof. unfold finalize_availability_session. by destruct (0 <? _). Qed.

Lemma finalize_loop now rs L n db :
  NoDup L.*1 -> Forall (fun s => availability_sessions db !! s.1 = Some s.2) L -> sessions_nonneg db ->
  let db' := (foldl (fun '(n, db) s => if still_matching rs s then (n, db)
      else (S n, finalize_availability_session s now db)) (n, db) L).2 in
  same_money db db' /\ mint_pool db' = mint_pool db /\ sessions_nonneg db' /\
  forall d, availability_earned d db' = availability_earned d db.
Proof.
  revert n db. induction L as [|[d0 s] L IH]; intros n db Hnd HF Hnn; [done|]. cbn [foldl].
  inversion Hnd as [|? ? Hd0 Hnd']; subst. inversion HF as [|? ? Hs HF']; subst. simpl in Hs, Hd0.
  destruct (still_matching rs (d0, s)); [by apply IH|].
  set (db1 := finalize_availability_session (d0, s) now db).
  destruct (IH (S n) db1) as (Hm & Hp & Hn & He); [done| | |].
  - apply Forall_forall. intros [d1 s1] Hin. rewrite Forall_forall in HF'. specialize (HF' _ Hin).
    cbn [fst snd] in *. unfold db1. rewrite finalize_sessions_lookup, lookup_delete_ne; [done|].
    intros ->. apply Hd0. by apply (list_elem_of_fmap_2' fst _ (d1, s1)).
  - unfold db1, sessions_nonneg. rewrite finalize_sessions_lookup. by apply map_Forall_delete.
  - destruct (finalize_money (d0, s) now db) as [Hm0 Hp0]. split; [etransitivity; [exact Hm0|exact Hm]|].
    split; [etrans; [exact Hp|exact Hp0]|]. split; [done|]. intros d. etrans; [apply He|].
    apply finalize_earned; [done|]. by apply (Hnn d0).
Qed.

Lemma finalize_ended_frame now rs db :
  sessions_nonneg db ->
  let db' := (finalize_ended now rs db).2 in
  same_money db db' /\ mint_pool db' = mint_pool db /\ sessions_nonneg db' /\
  forall d, availability_earned d db' = availability_earned d db.
Proof.
  intros Hnn. apply finalize_loop; [apply NoDup_fst_map_to_list| |done].
  apply Forall_forall. intros [d s] Hin. by apply elem_of_map_to_list in Hin.
Qed.

(** One credited device. *)
Lemma credit_available_effect now r db :
  0 <= dr_credits r -> sessions_nonneg db ->
  let db' := credit_available_device now r db in
  supply db' = supply db + dr_credits r /\ (solvent db -> solvent db') /\ mint_pool db' = mint_pool db /\
  sessions_nonneg db' /\
  forall d, balance_of d db' - balance_of d db = availability_earned d db' - availability_earned d db /\
            balance_of d db' = balance_of d db + (if decide (dr_device_id r = d) then dr_credits r else 0).
Proof.
  intros Hc Hnn. cbv zeta. unfold credit_available_device. set (d0 := dr_device_id r).
  set (db1 := set_devices _ (ensure_device now d0 db)).
  set (db2 := update_balance (bal_earn (dr_credits r)) d0 (ensure_balance d0 db1)).
  assert (same_money db2 (upsert_session now r db2)) as Hm by done.
  assert (is_Some (balances (ensure_balance d0 db1) !! d0)) as Hd by apply ensure_balance_row.
  split_and!.
  - rewrite (same_money_supply _ _ Hm). unfold db2.
    rewrite (supply_update_balance _ _ _ (dr_credits r)) by done. by rewrite supply_ensure_balance.
  - intros Hs. apply (same_money_solvent _ _ Hm), solvent_earn; [done|]. apply solvent_ensure_balance.
    by destruct Hs.
  - done.
  - unfold sessions_nonneg, upsert_session. simpl.
    destruct (availability_sessions db !! d0) as [s|] eqn:Hs; unfold d0 in Hs; rewrite Hs;
      apply map_Forall_insert_2; simpl; try done. specialize (Hnn _ _ Hs). simpl in Hnn. lia.
  - intros d. assert (balance_of d (upsert_session now r db2) = balance_of d db +
      (if decide (d0 = d) then dr_credits r else 0)) as Hb.
    { change (balance_of d (upsert_session now r db2)) with (balance_of d db2). unfold db2.
      rewrite (balance_of_update _ (dr_credits r)) by done. by rewrite balance_of_ensure. }
    split; [|exact Hb]. rewrite Hb. unfold availability_earned.
    change (ended_sessions d (upsert_session now r db2)) with (ended_sessions d db).
    assert (accrued d (upsert_session now r db2) = accrued d db +
      (if decide (d0 = d) then dr_credits r else 0)); [|lia].
    unfold accrued, upsert_session. simpl. fold d0.
    destruct (decide (d0 = d)) as [<-|Hne].
    + destruct (availability_sessions db !! d0); by rewrite lookup_insert_eq.
    + destruct (availability_sessions db !! d0); rewrite lookup_insert_ne by done; lia.
Qed.

Definition credits_sum (recipients : list DripRecipient) : Z := zsum (dr_credits <$> recipients).
Definition credits_for (d : string) (recipients : list DripRecipient) : Z :=
  zsum ((fun r => if decide (dr_device_id r = d) then dr_credits r else 0) <$> recipients).

Lemma credit_loop now rs db :
  Forall (fun r => 0 <= dr_credits r) rs -> sessions_nonneg db ->
  let db' := foldl (fun db r => credit_available_device now r db) db rs in
  supply db' = supply db + credits_sum rs /\ (solvent db -> solvent db') /\ mint_pool db' = mint_pool db /\
  sessions_nonneg db' /\
  forall d, balance_of d db' - balance_of d db = availability_earned d db' - availability_earned d db /\
            balance_of d db' = balance_of d db + credits_for d rs.
Proof.
  intros HF. revert db. induction HF as [|r rs Hr _ IH]; intros db Hnn.
  { unfold credits_sum, credits_for. simpl. split_and!; try done; try lia; intros d; lia. }
  cbn [foldl]. destruct (credit_available_effect now r db Hr Hnn) as (A1 & A2 & A3 & A4 & A5).
  destruct (IH _ A4) as (B1 & B2 & B3 & B4 & B5).
  unfold credits_sum, credits_for in *. rewrite fmap_cons, zsum_cons. split_and!.
  - rewrite B1, A1. lia.
  - auto.
  - congruence.
  - done.
  - intros d. rewrite fmap_cons, zsum_cons. specialize (A5 d). specialize (B5 d). lia.
Qed.

Lemma total_needed_exact rs :
  Forall (fun r => 0 <= dr_credits r) rs -> credits_sum rs <= i64_max -> total_needed rs = credits_sum rs.
Proof.
  intros HF Hb. unfold total_needed.
  assert (((fun r => Z.max (dr_credits r) 0) <$> rs) = (dr_credits <$> rs)) as ->.
  { clear Hb. induction HF as [|r rs Hr _ IH]; [done|]. rewrite !fmap_cons, IH. f_equal. lia. }
  rewrite foldl_i64_add; [done| |lia|exact Hb]. by apply Forall_fmap.
Qed.

(** A whole tick. *)
Lemma reconcile_effect now rs db report db' :
  Forall (fun r => 0 <= dr_credits r) rs -> credits_sum rs <= i64_max -> sessions_nonneg db ->
  reconcile_availability_sessions now rs db = Ok (report, db') ->
  exists paid, (paid = 0 \/ paid = credits_sum rs) /\
  (paid = 0 \/ paid <= mint_remaining db) /\
  supply db' = supply db + paid /\ mint_remaining db' = mint_remaining db - paid /\
  (solvent db -> solvent db') /\ sessions_nonneg db' /\
  forall d, balance_of d db' - balance_of d db = availability_earned d db' - availability_earned d db.
Proof.
  intros HF Hb Hnn. unfold reconcile_availability_sessions.
  destruct (finalize_ended_frame now rs db Hnn) as (Hm & Hp & Hn1 & He).
  destruct (finalize_ended now rs db) as [n db1]. cbn [snd] in *.
  rewrite (total_needed_exact rs HF Hb).
  assert (0 <= credits_sum rs) as Hpos by (apply zsum_nonneg; by apply Forall_fmap).
  pose proof (same_money_supply _ _ Hm) as Hsup. pose proof (same_money_solvent _ _ Hm) as Hsol.
  assert (forall d, balance_of d db1 = balance_of d db) as Hbal
    by (intros d; unfold balance_of; by rewrite (same_balances _ _ Hm)).
  assert (mint_remaining db1 = mint_remaining db) as Hmr by (unfold mint_remaining; by rewrite Hp).
  destruct (Z.ltb_spec 0 (credits_sum rs)) as [Hlt|Hz].
  - destruct (mint_pool db1) as [pool|] eqn:Epool; [|done]. cbn [map_err query_row ok_or].
    assert (mint_remaining db = mp_remaining pool) as Hrem by (rewrite <-Hmr; unfold mint_remaining; by rewrite Epool).
    destruct (Z.ltb_spec (mp_remaining pool) (credits_sum rs)) as [Hshort|Henough].
    + intros [= _ <-]. exists 0. split; [by left|]. split; [by left|]. split_and!; try done; try lia.
      intros d. rewrite Hbal, He. lia.
    + set (db2 := set_mint_pool _ db1). intros [= _ <-].
      destruct (credit_loop now rs db2 HF Hn1) as (B1 & B2 & B3 & B4 & B5).
      exists (credits_sum rs). split; [by right|]. split; [right; lia|]. split_and!.
      * etrans; [exact B1|]. change (supply db2) with (supply db1). lia.
      * unfold mint_remaining at 1. rewrite B3. unfold db2. simpl. lia.
      * intros Hs. apply B2. destruct (Hsol Hs). by split.
      * done.
      * intros d. destruct (B5 d) as [B _]. change (balance_of d db2) with (balance_of d db1) in B.
        change (availability_earned d db2) with (availability_earned d db1) in B.
        rewrite Hbal, He in B. lia.
  - intros [= _ <-]. destruct (credit_loop now rs db1 HF Hn1) as (B1 & B2 & B3 & B4 & B5).
    exists 0. split; [by left|]. split; [by left|]. split_and!; try lia; [| auto | done |].
    + unfold mint_remaining at 1. rewrite B3. unfold mint_remaining in Hmr. rewrite Hmr.
      unfold mint_remaining. lia.
    + intros d. destruct (B5 d) as [B _]. rewrite Hbal, He in B. lia.
Qed.

(** ** Claims *)

(** a tick of the drip conserves credits between the mint pool and the
    wallets: either nobody is paid, or everyone is and the pool, which held
    enough, loses exactly the total.  What each device receives shows up as
    accrual of its open session or as rows of its ended sessions, so ending a
    session loses nothing. *)
Theorem reconcile_availability_conserves now rs db report db' :
  Forall (fun r => 0 <= dr_credits r) rs -> credits_sum rs <= i64_max -> sessions_nonneg db ->
  reconcile_availability_sessions now rs db = Ok (report, db') ->
  supply db' + mint_remaining db' = supply db + mint_remaining db /\
  (mint_remaining db' = mint_remaining db \/
   (mint_remaining db' = mint_remaining db - credits_sum rs /\ 0 <= mint_remaining db')) /\
  (solvent db -> solvent db') /\ sessions_nonneg db' /\
  forall d, balance_of d db' - balance_of d db = availability_earned d db' - availability_earned d db.
Proof.
  intros HF Hb Hn H. apply reconcile_effect in H as (paid & Hp & Hle & H1 & H2 & H3 & H4 & H5); [|done..].
  split; [lia|]. split; [|done]. destruct Hp as [->| ->]; [left; lia|].
  destruct Hle as [E|]; [left; lia | right; lia].
Qed.

Lemma reconcile_availability_conserves_witness :
  let rs := [mkDripRecipient "bob" 3 (Some "m"); mkDripRecipient "carol" 4 None] in
  exists report db', reconcile_availability_sessions 200 rs demo = Ok (report, db') /\
  supply db' + mint_remaining db' = supply demo + mint_remaining demo.
Proof.
  cbv zeta. run_ok (reconcile_availability_sessions 200 [mkDripRecipient "bob" 3 (Some "m");
    mkDripRecipient "carol" 4 None] demo).
  eexists _, _. split; [reflexivity|].
  refine (proj1 (reconcile_availability_conserves _ _ _ _ _ _ _ _ Erun));
    [decided | vm_compute; congruence | decided].
Defined.

(** The comment on the drip calls Hermes' rate one credit every ten seconds;
    ten one-second ticks at the floor rate of one credit pay ten. *)
Fixpoint ticks (n : nat) (now : Z) (rs : list DripRecipient) (db : Db) : Db :=
  match n with
  | O => db
  | S n => ticks n (now + DRIP_INTERVAL_SECS) rs (commit (reconcile_availability_sessions now rs db) db)
  end.

Lemma ten_seconds_pay_ten_credits :
  balance_of "carol" (ticks 10 200 [mkDripRecipient "carol" 1 (Some "hermes")] demo) =
  balance_of "carol" demo + 10.
Proof. vm_compute. reflexivity. Qed.
