(* ===== verification/Referrals.v ===== *)
(** * Referral codes and join rewards

    [gateway/src/ledger.rs]: one invite code per device or account, and the
    welcome and referral bonuses of a device or account that joins.  Codes and
    claim ids come from [uuid] and are arguments.  The second half proves what
    a join credits, to whom, and that neither bonus is paid twice. *)

From S2P Require Import Prelude Db RustStr Wallet Accounts Fixtures AccountsFacts.

Open Scope string_scope.
Open Scope Z_scope.

Inductive ReferralError : Type :=
| ReferralAccountNotLinked
| InvalidCode
| SelfReferral
| DeviceAlreadyClaimed
| AccountAlreadyClaimed
| ReferralOther (e : anyhow).

Inductive ReferralOwner : Type := OwnerDevice (device_id : string) | OwnerAccount (account_user_id : string).

Record ReferralCodeSnapshot : Type := mkReferralCodeSnapshot {
  rs_code : string;
  rs_owner_kind : string;
  rs_owner_id : string
}.

Record JoinRewards : Type := mkJoinRewards {
  welcome_bonus_credits : Z;
  referral_bonus_credits : Z
}.

(** ** Codes *)

Definition referral_code_for_owner_locked (owner : ReferralOwner) (db : Db)
    : option ReferralCodeSnapshot :=
  match owner with
  | OwnerDevice d =>
      (fun '(code, r) => mkReferralCodeSnapshot code (rc_owner_kind r) d) <$>
      select_one (fun _ r => some_eqb (rc_owner_device_id r) d) (referral_codes db)
  | OwnerAccount a =>
      (fun '(code, r) => mkReferralCodeSnapshot code (rc_owner_kind r) a) <$>
      select_one (fun _ r => some_eqb (rc_owner_account_user_id r) a) (referral_codes db)
  end.

(** [INSERT INTO referral_codes (...)]. *)
Definition insert_referral_code (code : string) (r : ReferralCodeRow) (db : Db) : result SqlError Db :=
  guard? negb (has code (referral_codes db)) else UniqueViolation in
  guard? unique_for rc_owner_device_id code (rc_owner_device_id r) (referral_codes db) &&
         unique_for rc_owner_account_user_id code (rc_owner_account_user_id r) (referral_codes db)
    else UniqueViolation in
  guard? fk_opt (rc_owner_device_id r) (devices db) &&
         fk_opt (rc_owner_account_user_id r) (account_wallets db) else ForeignKeyViolation in
  Ok (set_referral_codes (<[code := r]> (referral_codes db)) db).

Definition ensure_referral_code_tx (new_code : string) (owner : ReferralOwner) (now : Z) (db : Db)
    : result anyhow (ReferralCodeSnapshot * Db) :=
  match referral_code_for_owner_locked owner db with
  | Some existing => Ok (existing, db)
  | None =>
      match owner with
      | OwnerDevice d =>
          let? db := map_err Sql (insert_referral_code new_code
            (mkReferralCodeRow "device" (Some d) None now) db) in
          Ok (mkReferralCodeSnapshot new_code "device" d, db)
      | OwnerAccount a =>
          let? db := map_err Sql (insert_referral_code new_code
            (mkReferralCodeRow "account" None (Some a) now) db) in
          Ok (mkReferralCodeSnapshot new_code "account" a, db)
      end
  end.

Definition referral_code_for_device (new_code : string) (now : Z) (requester_device_id : string)
    (db : Db) : result anyhow (ReferralCodeSnapshot * Db) :=
  let db := ensure_device now requester_device_id db in
  let db := ensure_balance requester_device_id db in
  let owner := match account_user_id_for_device requester_device_id db with
               | Some a => OwnerAccount a
               | None => OwnerDevice requester_device_id
               end in
  ensure_referral_code_tx new_code owner now db.

(** ** Claims *)

Definition referral_claim_exists_for_device_locked (d : string) (db : Db) : bool :=
  match select_one (fun _ r => some_eqb (rcl_referred_device_id r) d) (referral_claims db) with
  | Some _ => true
  | None => false
  end.
Definition referral_claim_exists_for_account_locked (a : string) (db : Db) : bool :=
  match select_one (fun _ r => some_eqb (rcl_referred_account_user_id r) a) (referral_claims db) with
  | Some _ => true
  | None => false
  end.

(** [INSERT INTO referral_claims (...)]. *)
Definition insert_referral_claim (id : string) (r : ReferralClaimRow) (db : Db) : result SqlError Db :=
  guard? negb (has id (referral_claims db)) else UniqueViolation in
  guard? unique_for rcl_referred_device_id id (rcl_referred_device_id r) (referral_claims db) &&
         unique_for rcl_referred_account_user_id id (rcl_referred_account_user_id r)
           (referral_claims db) else UniqueViolation in
  guard? has (rcl_code r) (referral_codes db) && fk_opt (rcl_referred_device_id r) (devices db) &&
         fk_opt (rcl_referred_account_user_id r) (account_wallets db) else ForeignKeyViolation in
  Ok (set_referral_claims (<[id := r]> (referral_claims db)) db).

Definition referral_sql {A} (r : result SqlError A) : result ReferralError A :=
  map_err (fun e => ReferralOther (Sql e)) r.

(** [owner_account_user_id.or(owner_device_id)]. *)
Definition referrer_id (r : ReferralCodeRow) : option string :=
  coalesce (rc_owner_account_user_id r) (rc_owner_device_id r).

Definition apply_referral_for_device_tx (claim_id device_id referral_code : string) (now : Z) (db : Db)
    : result ReferralError (Z * Db) :=
  guard? negb (referral_claim_exists_for_device_locked device_id db) else DeviceAlreadyClaimed in
  let? owner := ok_or InvalidCode (referral_codes db !! referral_code) in
  let? referrer := ok_or InvalidCode (referrer_id owner) in
  guard? negb (some_eqb (rc_owner_device_id owner) device_id) else SelfReferral in
  let note := "referral bonus for device " +:+ device_id in
  let? db :=
    if bool_decide (rc_owner_kind owner = "device") then
      let? d := ok_or InvalidCode (rc_owner_device_id owner) in
      Ok (credit_device_wallet_tx d REFERRAL_BONUS_CREDITS "REFERRAL_BONUS" note now db)
    else if bool_decide (rc_owner_kind owner = "account") then
      let? a := ok_or InvalidCode (rc_owner_account_user_id owner) in
      guard? negb (some_eqb (account_user_id_for_device device_id db) a) else SelfReferral in
      map_err ReferralOther (credit_account_wallet_tx a REFERRAL_BONUS_CREDITS "REFERRAL_BONUS"
        (Some device_id) note now db)
    else Err InvalidCode in
  let db := credit_device_wallet_tx device_id REFERRAL_BONUS_CREDITS "REFERRAL_BONUS"
    ("joined with referral code " +:+ referral_code) now db in
  let? db := referral_sql (insert_referral_claim claim_id
    (mkReferralClaimRow referral_code (rc_owner_kind owner) referrer "device" (Some device_id) None
       REFERRAL_BONUS_CREDITS REFERRAL_BONUS_CREDITS now) db) in
  Ok (REFERRAL_BONUS_CREDITS, db).

Definition apply_referral_for_account_tx (claim_id requester_device_id account_user_id
    referral_code : string) (now : Z) (db : Db) : result ReferralError (Z * Db) :=
  guard? negb (referral_claim_exists_for_account_locked account_user_id db)
    else AccountAlreadyClaimed in
  let? owner := ok_or InvalidCode (referral_codes db !! referral_code) in
  let? referrer := ok_or InvalidCode (referrer_id owner) in
  guard? negb (some_eqb (rc_owner_account_user_id owner) account_user_id) &&
         negb (some_eqb (rc_owner_device_id owner) requester_device_id) else SelfReferral in
  let note := "referral bonus for account " +:+ account_user_id in
  let? db :=
    if bool_decide (rc_owner_kind owner = "device") then
      let? d := ok_or InvalidCode (rc_owner_device_id owner) in
      Ok (credit_device_wallet_tx d REFERRAL_BONUS_CREDITS "REFERRAL_BONUS" note now db)
    else if bool_decide (rc_owner_kind owner = "account") then
      let? a := ok_or InvalidCode (rc_owner_account_user_id owner) in
      map_err ReferralOther (credit_account_wallet_tx a REFERRAL_BONUS_CREDITS "REFERRAL_BONUS"
        (Some requester_device_id) note now db)
    else Err InvalidCode in
  let? db := map_err ReferralOther (credit_account_wallet_tx account_user_id REFERRAL_BONUS_CREDITS
    "REFERRAL_BONUS" (Some requester_device_id) ("joined with referral code " +:+ referral_code)
    now db) in
  let? db := referral_sql (insert_referral_claim claim_id
    (mkReferralClaimRow referral_code (rc_owner_kind owner) referrer "account" None
       (Some account_user_id) REFERRAL_BONUS_CREDITS REFERRAL_BONUS_CREDITS now) db) in
  Ok (REFERRAL_BONUS_CREDITS, db).

(** ** Joining *)

Definition has_welcome_bonus (d : string) (db : Db) : bool :=
  existsb (fun r => bool_decide (led_device_id r = d) && bool_decide (led_type r = "BONUS")) (ledger db).
Definition account_has_welcome_bonus (a : string) (db : Db) : bool :=
  existsb (fun r => bool_decide (al_account_user_id r = a) && bool_decide (al_type r = "BONUS"))
    (account_ledger db).

Definition apply_device_join_rewards (claim_id : string) (now : Z) (device_id : string)
    (referral_code : option string) (db : Db) : result ReferralError (JoinRewards * Db) :=
  let db := ensure_device now device_id db in
  let db := ensure_balance device_id db in
  let '(welcome, db) :=
    if has_welcome_bonus device_id db then (0, db)
    else
      let db := debit_mint_pool_clamped WELCOME_BONUS_CREDITS db in
      let db := insert_ledger device_id "BONUS" WELCOME_BONUS_CREDITS now None "Welcome to Teale" db in
      (WELCOME_BONUS_CREDITS, update_balance (bal_earn WELCOME_BONUS_CREDITS) device_id db) in
  match normalized_optional_string referral_code with
  | Some code =>
      let? (bonus, db) := apply_referral_for_device_tx claim_id device_id code now db in
      Ok (mkJoinRewards welcome bonus, db)
  | None => Ok (mkJoinRewards welcome 0, db)
  end.

Definition apply_account_join_rewards (claim_id : string) (now : Z)
    (requester_device_id account_user_id : string) (referral_code : option string) (db : Db)
    : result ReferralError (JoinRewards * Db) :=
  let? (welcome, db) :=
    if account_has_welcome_bonus account_user_id db then Ok (0, db)
    else
      let? db := map_err ReferralOther (credit_account_wallet_tx account_user_id
        WELCOME_BONUS_CREDITS "BONUS" (Some requester_device_id) "Welcome to Teale" now db) in
      Ok (WELCOME_BONUS_CREDITS, db) in
  match normalized_optional_string referral_code with
  | Some code =>
      let? (bonus, db) := apply_referral_for_account_tx claim_id requester_device_id account_user_id
        code now db in
      Ok (mkJoinRewards welcome bonus, db)
  | None => Ok (mkJoinRewards welcome 0, db)
  end.

(** ** Lemmas *)

Lemma credit_device_holding d x ty note now db h :
  holding h (credit_device_wallet_tx d x ty note now db) =
  holding h db + (if decide (h = HDevice d) then x else 0).
Proof.
  unfold credit_device_wallet_tx. rewrite (holding_update_balance _ x); [|done|apply ensure_balance_row].
  f_equal. rewrite (holding_same_money (ensure_balance d (ensure_device now d db))) by done.
  rewrite holding_ensure_balance. by apply holding_same_money.
Qed.

Lemma credit_account_holding a x ty dv note now db db' h :
  credit_account_wallet_tx a x ty dv note now db = Ok db' ->
  holding h db' = holding h db + (if decide (h = HAccount a) then x else 0).
Proof.
  unfold credit_account_wallet_tx. intros H.
  destruct (insert_account_ledger _ _ _ _ _ _ _ _ _) as [db1|] eqn:E; [|done]. injection H as <-.
  apply insert_account_ledger_Ok in E as (Ha & Hm & _).
  rewrite (holding_same_money _ _ _ Hm). rewrite (holding_update_account _ x); [|done|].
  - done.
  - revert Ha. simpl. by rewrite alter_is_Some.
Qed.

(** The wallet a code pays. *)
Definition code_holder (r : ReferralCodeRow) : option Holder :=
  if bool_decide (rc_owner_kind r = "device") then HDevice <$> rc_owner_device_id r
  else if bool_decide (rc_owner_kind r = "account") then HAccount <$> rc_owner_account_user_id r
  else None.

(** What one bonus payment to holder [h] does. *)
Definition credited (h : Holder) (x : Z) (db db' : Db) : Prop :=
  supply db' = supply db + x /\ (solvent db -> solvent db') /\
  forall h', holding h' db' = holding h' db + (if decide (h' = h) then x else 0).

Lemma credited_device d x ty note now db :
  0 <= x -> credited (HDevice d) x db (credit_device_wallet_tx d x ty note now db).
Proof.
  intros Hx. split; [apply supply_credit_device_wallet|].
  split; [by apply solvent_credit_device_wallet | intros; apply credit_device_holding].
Qed.

Lemma credited_account a x ty dv note now db db' :
  0 <= x -> credit_account_wallet_tx a x ty dv note now db = Ok db' -> credited (HAccount a) x db db'.
Proof.
  intros Hx H. pose proof (credit_account_wallet_Ok _ _ _ _ _ _ _ _ H) as (_ & ? & ? & _).
  split; [done|]. split; [auto|]. intros. by eapply credit_account_holding.
Qed.

Lemma insert_referral_claim_Ok id r db db' :
  insert_referral_claim id r db = Ok db' ->
  same_money db db' /\ ledger db' = ledger db /\ account_ledger db' = account_ledger db /\
  referral_claims db' = <[id := r]> (referral_claims db).
Proof.
  unfold insert_referral_claim. destruct (negb _); [|done]. destruct (_ && _); [|done].
  destruct (_ && _); [|done]. by intros [= <-].
Qed.

Lemma claim_exists_insert id r d (db : Db) m :
  referral_claims db = <[id := r]> m -> rcl_referred_device_id r = Some d ->
  referral_claim_exists_for_device_locked d db = true.
Proof.
  intros E Hd. unfold referral_claim_exists_for_device_locked.
  destruct (select_one _ _) eqn:Es; [done|]. exfalso. pose proof (select_one_None _ _ Es id r) as Hn.
  rewrite E, lookup_insert_eq in Hn. specialize (Hn eq_refl). simpl in Hn. unfold some_eqb in Hn.
  rewrite Hd, bool_decide_true in Hn by done. done.
Qed.

Lemma claim_exists_insert_account id r a (db : Db) m :
  referral_claims db = <[id := r]> m -> rcl_referred_account_user_id r = Some a ->
  referral_claim_exists_for_account_locked a db = true.
Proof.
  intros E Ha. unfold referral_claim_exists_for_account_locked.
  destruct (select_one _ _) eqn:Es; [done|]. exfalso. pose proof (select_one_None _ _ Es id r) as Hn.
  rewrite E, lookup_insert_eq in Hn. specialize (Hn eq_refl). simpl in Hn. unfold some_eqb in Hn.
  rewrite Ha, bool_decide_true in Hn by done. done.
Qed.

Lemma bonus_nonneg : 0 <= REFERRAL_BONUS_CREDITS. Proof. done. Qed.

Lemma referral_device_Ok cid d code now db x db' :
  apply_referral_for_device_tx cid d code now db = Ok (x, db') ->
  x = REFERRAL_BONUS_CREDITS /\ referral_claim_exists_for_device_locked d db = false /\
  referral_claim_exists_for_device_locked d db' = true /\
  exists owner h db1, referral_codes db !! code = Some owner /\ code_holder owner = Some h /\
    h <> HDevice d /\ credited h x db db1 /\ credited (HDevice d) x db1 db'.
Proof.
  unfold apply_referral_for_device_tx. intros H.
  destruct (referral_claim_exists_for_device_locked d db); [done|]. cbn [negb] in H.
  destruct (referral_codes db !! code) as [owner|]; [|done]. cbn [ok_or] in H.
  destruct (referrer_id owner) as [ref|]; [|done]. cbn [ok_or] in H.
  unfold some_eqb at 1 in H. case_bool_decide as Hself; [done|]. cbn [negb] in H.
  match type of H with (match ?c with Ok _ => _ | Err _ => _ end) = _ => destruct c as [db1|] eqn:E1; [|done] end.
  set (db2 := credit_device_wallet_tx d _ _ _ now db1) in *.
  destruct (insert_referral_claim _ _ _) as [db3|] eqn:E3; [|done]. injection H as <- <-.
  apply insert_referral_claim_Ok in E3 as (Hm & _ & _ & Hcl).
  split; [done|]. split; [done|]. split; [by eapply claim_exists_insert|].
  assert (credited (HDevice d) REFERRAL_BONUS_CREDITS db1 db3) as Hc.
  { pose proof (credited_device d REFERRAL_BONUS_CREDITS "REFERRAL_BONUS"
      ("joined with referral code " +:+ code) now db1 bonus_nonneg) as (A & B & C).
    split; [by rewrite (same_money_supply _ _ Hm)|]. split; [intros; apply (same_money_solvent _ _ Hm); auto|].
    intros h'. rewrite (holding_same_money _ _ _ Hm). apply C. }
  exists owner. unfold code_holder. case_bool_decide as Hk.
  - destruct (rc_owner_device_id owner) as [d'|]; [|done]. injection E1 as <-.
    exists (HDevice d'), (credit_device_wallet_tx d' REFERRAL_BONUS_CREDITS "REFERRAL_BONUS"
      ("referral bonus for device " +:+ d) now db).
    split; [done|]. split; [done|]. split; [congruence|]. split; [by apply credited_device|done].
  - case_bool_decide as Hk2; [|done]. destruct (rc_owner_account_user_id owner) as [a|]; [|done].
    cbn [ok_or] in E1. destruct (negb _); [|done].
    destruct (credit_account_wallet_tx _ _ _ _ _ _ _) as [db1'|] eqn:Ea; [|done]. injection E1 as <-.
    exists (HAccount a), db1'. split; [done|]. split; [done|]. split; [done|].
    split; [by eapply credited_account|done].
Qed.

Lemma device_welcome_Ok now d db welcome db1 :
  (if has_welcome_bonus d (ensure_balance d (ensure_device now d db))
   then (0, ensure_balance d (ensure_device now d db))
   else (WELCOME_BONUS_CREDITS, update_balance (bal_earn WELCOME_BONUS_CREDITS) d
     (insert_ledger d "BONUS" WELCOME_BONUS_CREDITS now None "Welcome to Teale"
       (debit_mint_pool_clamped WELCOME_BONUS_CREDITS (ensure_balance d (ensure_device now d db))))))
  = (welcome, db1) ->
  welcome = (if has_welcome_bonus d db then 0 else WELCOME_BONUS_CREDITS) /\
  credited (HDevice d) welcome db db1 /\ has_welcome_bonus d db1 = true /\
  referral_claims db1 = referral_claims db /\ referral_codes db1 = referral_codes db.
Proof.
  set (db0 := ensure_balance d (ensure_device now d db)).
  change (has_welcome_bonus d db0) with (has_welcome_bonus d db).
  assert (forall h, holding h db0 = holding h db) as Hh.
  { intros h. unfold db0. rewrite holding_ensure_balance. by apply holding_same_money. }
  assert (supply db0 = supply db) as Hsup by (unfold db0; by autorewrite with supply).
  assert (solvent db -> solvent db0) as Hsol by (unfold db0; auto with ledger).
  destruct (has_welcome_bonus d db) eqn:Hb; intros [= <- <-]; (split; [done|]); split; try done.
  - split; [lia|]. split; [done|]. intros h. rewrite Hh. case_decide; lia.
  - split; [rewrite (supply_update_balance _ _ _ WELCOME_BONUS_CREDITS);
      [by rewrite supply_insert_ledger, supply_debit_mint_pool, Hsup|done|apply ensure_balance_row]|].
    split; [intros; apply solvent_earn; [done|]; auto with ledger|].
    intros h. rewrite (holding_update_balance _ WELCOME_BONUS_CREDITS); [|done|apply ensure_balance_row].
    rewrite (holding_same_money db0) by done. by rewrite Hh.
  - split; [|done]. unfold has_welcome_bonus. simpl. rewrite existsb_app. simpl.
    rewrite bool_decide_true by done. cbn [andb]. by rewrite orb_true_r.
Qed.

Lemma credited_trans_same h x y db0 db1 db2 :
  credited h x db0 db1 -> credited h y db1 db2 -> credited h (x + y) db0 db2.
Proof.
  intros (A1 & A2 & A3) (B1 & B2 & B3). split; [lia|]. split; [auto|].
  intros h'. rewrite B3, A3. case_decide; lia.
Qed.

Lemma referral_account_Ok cid dv a code now db x db' :
  apply_referral_for_account_tx cid dv a code now db = Ok (x, db') ->
  x = REFERRAL_BONUS_CREDITS /\ referral_claim_exists_for_account_locked a db = false /\
  referral_claim_exists_for_account_locked a db' = true /\
  exists owner h db1, referral_codes db !! code = Some owner /\ code_holder owner = Some h /\
    h <> HAccount a /\ h <> HDevice dv /\ credited h x db db1 /\ credited (HAccount a) x db1 db'.
Proof.
  unfold apply_referral_for_account_tx. intros H.
  destruct (referral_claim_exists_for_account_locked a db); [done|]. cbn [negb] in H.
  destruct (referral_codes db !! code) as [owner|]; [|done]. cbn [ok_or] in H.
  destruct (referrer_id owner) as [ref|]; [|done]. cbn [ok_or] in H.
  unfold some_eqb in H. case_bool_decide as Hs1; [done|]. case_bool_decide as Hs2; [done|].
  cbn [negb andb] in H.
  match type of H with (match ?c with Ok _ => _ | Err _ => _ end) = _ => destruct c as [db1|] eqn:E1; [|done] end.
  destruct (credit_account_wallet_tx a _ _ _ _ _ db1) as [db2|] eqn:E2; [|done]. cbn [map_err] in H.
  destruct (insert_referral_claim _ _ _) as [db3|] eqn:E3; [|done]. injection H as <- <-.
  apply insert_referral_claim_Ok in E3 as (Hm & _ & _ & Hcl).
  split; [done|]. split; [done|]. split; [by eapply claim_exists_insert_account|].
  assert (credited (HAccount a) REFERRAL_BONUS_CREDITS db1 db3) as Hc.
  { pose proof (credited_account _ _ _ _ _ _ _ _ bonus_nonneg E2) as (A & B & C).
    split; [by rewrite (same_money_supply _ _ Hm)|]. split; [intros; apply (same_money_solvent _ _ Hm); auto|].
    intros h'. rewrite (holding_same_money _ _ _ Hm). apply C. }
  exists owner. unfold code_holder. case_bool_decide as Hk.
  - destruct (rc_owner_device_id owner) as [d'|]; [|done]. injection E1 as <-.
    exists (HDevice d'), (credit_device_wallet_tx d' REFERRAL_BONUS_CREDITS "REFERRAL_BONUS"
      ("referral bonus for account " +:+ a) now db).
    do 3 (split; [done|]). split; [congruence|]. split; [by apply credited_device|done].
  - case_bool_decide as Hk2; [|done]. destruct (rc_owner_account_user_id owner) as [a'|]; [|done].
    cbn [ok_or] in E1.
    destruct (credit_account_wallet_tx a' _ _ _ _ _ _) as [db1'|] eqn:Ea; [|done]. injection E1 as <-.
    exists (HAccount a'), db1'. do 2 (split; [done|]). split; [congruence|]. split; [done|].
    split; [by eapply credited_account|done].
Qed.

(** The wallet that the code of a join request pays. *)
Definition code_owner (code : option string) (db : Db) : option Holder :=
  c ← normalized_optional_string code; r ← referral_codes db !! c; code_holder r.

(** The rewards of a join: the joiner [h] gets both bonuses, the code's owner the
    referral bonus, and no other wallet changes. *)
Definition join_effect (h : Holder) (referrer : option Holder) (rewards : JoinRewards) (db db' : Db)
    : Prop :=
  supply db' = supply db + welcome_bonus_credits rewards + 2 * referral_bonus_credits rewards /\
  (solvent db -> solvent db') /\
  (forall h', holding h' db' = holding h' db +
     (if decide (h' = h) then welcome_bonus_credits rewards + referral_bonus_credits rewards else 0) +
     (if decide (referrer = Some h') then referral_bonus_credits rewards else 0)) /\
  ((referral_bonus_credits rewards = 0 /\ referrer = None) \/
   (referral_bonus_credits rewards = REFERRAL_BONUS_CREDITS /\
    exists h', referrer = Some h' /\ h' <> h)).

Lemma join_effect_of h h' x w db0 db1 db2 db3 :
  x = REFERRAL_BONUS_CREDITS -> h' <> h ->
  credited h w db0 db1 -> credited h' x db1 db2 -> credited h x db2 db3 ->
  join_effect h (Some h') (mkJoinRewards w x) db0 db3.
Proof.
  intros Hxe Hne (A1 & A2 & A3) (B1 & B2 & B3) (C1 & C2 & C3). split; [simpl; lia|].
  split; [auto|]. split; [|right; eauto].
  intros h2. rewrite C3, B3, A3. cbn [welcome_bonus_credits referral_bonus_credits].
  repeat case_decide; congruence || lia.
Qed.

Lemma join_effect_welcome h w db0 db1 : credited h w db0 db1 -> join_effect h None (mkJoinRewards w 0) db0 db1.
Proof.
  intros (A1 & A2 & A3). split; [simpl; lia|]. split; [done|]. split; [|by left].
  intros h'. rewrite A3. cbn [welcome_bonus_credits referral_bonus_credits].
  repeat case_decide; congruence || lia.
Qed.

Lemma has_welcome_bonus_device_tx cid d code now db x db' :
  apply_referral_for_device_tx cid d code now db = Ok (x, db') ->
  has_welcome_bonus d db = true -> has_welcome_bonus d db' = true.
Proof.
  assert (forall d' x ty note db0, has_welcome_bonus d db0 = true ->
    has_welcome_bonus d (credit_device_wallet_tx d' x ty note now db0) = true) as Hmono.
  { intros d' y ty note db0 Hw. unfold has_welcome_bonus in *. simpl. by rewrite existsb_app, Hw. }
  unfold apply_referral_for_device_tx. intros H Hw.
  destruct (negb _); [|done]. destruct (referral_codes db !! code) as [owner|]; [|done].
  cbn [ok_or] in H. destruct (referrer_id owner); [|done]. cbn [ok_or] in H.
  destruct (negb _); [|done].
  match type of H with (match ?c with Ok _ => _ | Err _ => _ end) = _ => destruct c as [db1|] eqn:E1; [|done] end.
  destruct (insert_referral_claim _ _ _) as [db3|] eqn:E3; [|done]. injection H as _ <-.
  apply insert_referral_claim_Ok in E3 as (_ & Hl & _).
  unfold has_welcome_bonus. rewrite Hl. apply Hmono. case_bool_decide.
  - destruct (rc_owner_device_id owner); [|done]. injection E1 as <-. by apply Hmono.
  - case_bool_decide; [|done]. destruct (rc_owner_account_user_id owner); [|done]. cbn [ok_or] in E1.
    destruct (negb _); [|done]. unfold credit_account_wallet_tx in E1.
    destruct (insert_account_ledger _ _ _ _ _ _ _ _ _) eqn:E; [|done]. injection E1 as <-.
    apply insert_account_ledger_Ok in E as (_ & _ & ->). done.
Qed.

Lemma device_join_Ok cid now d code db rewards db' :
  apply_device_join_rewards cid now d code db = Ok (rewards, db') ->
  join_effect (HDevice d) (code_owner code db) rewards db db' /\
  welcome_bonus_credits rewards = (if has_welcome_bonus d db then 0 else WELCOME_BONUS_CREDITS) /\
  has_welcome_bonus d db' = true /\
  (is_Some (normalized_optional_string code) -> referral_claim_exists_for_device_locked d db' = true).
Proof.
  unfold apply_device_join_rewards, code_owner. intros H. cbv zeta in H.
  match type of H with context [if has_welcome_bonus ?d ?dbx then ?a else ?b] =>
    destruct (if has_welcome_bonus d dbx then a else b) as [welcome db1] eqn:Ew end.
  apply device_welcome_Ok in Ew as (Hw & Hc & Hb & Hcl & Hcodes).
  destruct (normalized_optional_string code) as [c|].
  - destruct (apply_referral_for_device_tx _ _ _ _ _) as [[x db2]|] eqn:Er; [|done].
    injection H as <- <-. pose proof (has_welcome_bonus_device_tx _ _ _ _ _ _ _ Er Hb) as Hb2.
    apply referral_device_Ok in Er as (Hx & _ & Hcl2 & owner & h & dbm & Ho & Eh & Hne & C1 & C2).
    rewrite <-Hcodes. simpl. rewrite Ho. simpl. rewrite Eh.
    split; [by eapply join_effect_of|]. done.
  - injection H as <- <-. split; [by apply join_effect_welcome|]. split; [done|]. split; [done|].
    by intros [? ?].
Qed.

(** Account ledger rows stay. *)
Lemma account_welcome_credit a a' x ty dv note now db db' :
  credit_account_wallet_tx a' x ty dv note now db = Ok db' ->
  referral_codes db' = referral_codes db /\
  (account_has_welcome_bonus a db = true -> account_has_welcome_bonus a db' = true) /\
  (ty = "BONUS" -> account_has_welcome_bonus a' db' = true).
Proof.
  unfold credit_account_wallet_tx. intros H.
  destruct (insert_account_ledger _ _ _ _ _ _ _ _ _) as [db1|] eqn:E; [|done]. injection H as <-.
  apply insert_account_ledger_Ok in E as (_ & _ & ->). split; [done|].
  unfold account_has_welcome_bonus. simpl. rewrite !existsb_app. simpl. split; [by intros ->|].
  intros ->. rewrite !bool_decide_true by done. by rewrite orb_true_r.
Qed.

Lemma account_has_welcome_bonus_tx cid dv a code now db x db' :
  apply_referral_for_account_tx cid dv a code now db = Ok (x, db') ->
  account_has_welcome_bonus a db = true -> account_has_welcome_bonus a db' = true.
Proof.
  unfold apply_referral_for_account_tx. intros H Hw.
  destruct (negb _); [|done]. destruct (referral_codes db !! code) as [owner|]; [|done].
  cbn [ok_or] in H. destruct (referrer_id owner); [|done]. cbn [ok_or] in H.
  destruct (_ && _); [|done].
  match type of H with (match ?c with Ok _ => _ | Err _ => _ end) = _ => destruct c as [db1|] eqn:E1; [|done] end.
  destruct (credit_account_wallet_tx a _ _ _ _ _ db1) as [db2|] eqn:E2; [|done]. cbn [map_err] in H.
  destruct (insert_referral_claim _ _ _) as [db3|] eqn:E3; [|done]. injection H as _ <-.
  apply insert_referral_claim_Ok in E3 as (_ & _ & Hl & _).
  unfold account_has_welcome_bonus. rewrite Hl. apply (account_welcome_credit a) in E2 as (_ & E2 & _).
  apply E2. case_bool_decide.
  - destruct (rc_owner_device_id owner); [|done]. by injection E1 as <-.
  - case_bool_decide; [|done]. destruct (rc_owner_account_user_id owner) as [a'|]; [|done]. cbn [ok_or] in E1.
    destruct (credit_account_wallet_tx a' _ _ _ _ _ _) as [db1'|] eqn:Ea; [|done]. injection E1 as <-.
    by apply (account_welcome_credit a) in Ea as (_ & Ea & _); apply Ea.
Qed.

Lemma account_join_Ok cid now dv a code db rewards db' :
  apply_account_join_rewards cid now dv a code db = Ok (rewards, db') ->
  join_effect (HAccount a) (code_owner code db) rewards db db' /\
  welcome_bonus_credits rewards = (if account_has_welcome_bonus a db then 0 else WELCOME_BONUS_CREDITS) /\
  account_has_welcome_bonus a db' = true /\
  (is_Some (normalized_optional_string code) -> referral_claim_exists_for_account_locked a db' = true).
Proof.
  unfold apply_account_join_rewards, code_owner. intros H.
  match type of H with (match ?c with Ok _ => _ | Err _ => _ end) = _ => destruct c as [[welcome db1]|] eqn:Ew; [|done] end.
  assert (welcome = (if account_has_welcome_bonus a db then 0 else WELCOME_BONUS_CREDITS) /\
    credited (HAccount a) welcome db db1 /\ referral_codes db1 = referral_codes db /\
    account_has_welcome_bonus a db1 = true) as (Hw & Hc & Hcodes & Hb).
  { destruct (account_has_welcome_bonus a db) eqn:Hb; [injection Ew as <- <-; split; [done|]|].
    - split; [|done]. split; [lia|]. split; [done|]. intros h. case_decide; lia.
    - destruct (credit_account_wallet_tx _ _ _ _ _ _ _) as [db2|] eqn:E; [|done]. injection Ew as <- <-.
      split; [done|]. split; [by eapply credited_account|].
      apply (account_welcome_credit a) in E as (E1 & _ & E3). auto. }
  destruct (normalized_optional_string code) as [c|].
  - destruct (apply_referral_for_account_tx _ _ _ _ _ _) as [[x db2]|] eqn:Er; [|done].
    injection H as <- <-. pose proof (account_has_welcome_bonus_tx _ _ _ _ _ _ _ _ Er Hb) as Hb2.
    apply referral_account_Ok in Er as (Hx & _ & Hcl2 & owner & h & dbm & Ho & Eh & Hne & _ & C1 & C2).
    rewrite <-Hcodes. simpl. rewrite Ho. simpl. rewrite Eh.
    split; [by eapply join_effect_of|]. done.
  - injection H as <- <-. split; [by apply join_effect_welcome|]. split; [done|]. split; [done|].
    by intros [? ?].
Qed.

(** ** Claims *)

(** joining as a device pays the welcome bonus if and only if the device never
    received it, and, with a code, the referral bonus to the device and the
    same to the one wallet the code belongs to, which is not the device's own;
    nothing else changes.  A second join pays no welcome bonus, and a second
    code is refused. *)
Theorem device_join_pays_once cid now d code db rewards db' :
  apply_device_join_rewards cid now d code db = Ok (rewards, db') ->
  join_effect (HDevice d) (code_owner code db) rewards db db' /\
  welcome_bonus_credits rewards = (if has_welcome_bonus d db then 0 else WELCOME_BONUS_CREDITS) /\
  (forall cid' later code' rewards' db'',
     apply_device_join_rewards cid' later d code' db' = Ok (rewards', db'') ->
     welcome_bonus_credits rewards' = 0) /\
  (is_Some (normalized_optional_string code) ->
   forall cid' later code' , is_Some (normalized_optional_string code') ->
     apply_device_join_rewards cid' later d code' db' = Err DeviceAlreadyClaimed).
Proof.
  intros H. apply device_join_Ok in H as (Heff & Hw & Hb & Hcl). do 2 (split; [done|]). split.
  - intros cid' later code' rewards' db'' H2. apply device_join_Ok in H2 as (_ & Hw' & _).
    by rewrite Hb in Hw'.
  - intros Hc cid' later code' [c Hc']. specialize (Hcl Hc). unfold apply_device_join_rewards. cbv zeta.
    change (has_welcome_bonus d (ensure_balance d (ensure_device later d db'))) with (has_welcome_bonus d db').
    rewrite Hb, Hc'. unfold apply_referral_for_device_tx.
    change (referral_claim_exists_for_device_locked d (ensure_balance d (ensure_device later d db')))
      with (referral_claim_exists_for_device_locked d db').
    by rewrite Hcl.
Qed.

Definition demo_code : Db := commit (referral_code_for_device "ref" 100 "bob" demo) demo.

Lemma device_join_pays_once_witness :
  exists rewards db', apply_device_join_rewards "rcl" 110 "dave" (Some " ref ") demo_code = Ok (rewards, db') /\
  apply_device_join_rewards "rcl2" 120 "dave" (Some "ref") db' = Err DeviceAlreadyClaimed.
Proof.
  run_ok (apply_device_join_rewards "rcl" 110 "dave" (Some " ref ") demo_code).
  eexists _, _. split; [reflexivity|].
  apply (device_join_pays_once _ _ _ _ _ _ _ Erun); [exists "ref" | exists "ref"]; vm_compute; reflexivity.
Defined.

(** the same for an account that joins: the welcome bonus only to an account
    without one, and never again after it; with a code, the referral bonus to
    the account and to the wallet the code belongs to, which is another one,
    and a second code is refused; nothing else changes. *)
Theorem account_join_pays_once cid now dv a code db rewards db' :
  apply_account_join_rewards cid now dv a code db = Ok (rewards, db') ->
  join_effect (HAccount a) (code_owner code db) rewards db db' /\
  welcome_bonus_credits rewards = (if account_has_welcome_bonus a db then 0 else WELCOME_BONUS_CREDITS) /\
  (forall cid' later dv' code' rewards' db'',
     apply_account_join_rewards cid' later dv' a code' db' = Ok (rewards', db'') ->
     welcome_bonus_credits rewards' = 0) /\
  (is_Some (normalized_optional_string code) ->
   forall cid' later dv' code', is_Some (normalized_optional_string code') ->
     apply_account_join_rewards cid' later dv' a code' db' = Err AccountAlreadyClaimed).
Proof.
  intros H. apply account_join_Ok in H as (Heff & Hw & Hb & Hcl). do 2 (split; [done|]). split.
  - intros cid' later dv' code' rewards' db'' H2. apply account_join_Ok in H2 as (_ & Hw' & _).
    by rewrite Hb in Hw'.
  - intros Hc cid' later dv' code' [c Hc']. specialize (Hcl Hc). unfold apply_account_join_rewards.
    rewrite Hb, Hc'. unfold apply_referral_for_account_tx. by rewrite Hcl.
Qed.

Lemma account_join_pays_once_witness :
  exists rewards db', apply_account_join_rewards "rcl" 110 "alice" ann (Some "ref") demo_code = Ok (rewards, db') /\
  join_effect (HAccount ann) (Some (HDevice "bob")) rewards demo_code db'.
Proof.
  run_ok (apply_account_join_rewards "rcl" 110 "alice" ann (Some "ref") demo_code).
  eexists _, _. split; [reflexivity|]. exact (proj1 (account_join_pays_once _ _ _ _ _ _ _ _ Erun)).
Defined.

(** An account can still claim the code of its own second device: the check
    compares the code's owner with the requesting device only. *)
Theorem self_referral_through_second_device :
  let db := default demo_code (link_device_to_account 105 "bob" ann no_metadata demo_code) in
  account_user_id_for_device "bob" db = Some ann /\ account_user_id_for_device "alice" db = Some ann /\
  match apply_account_join_rewards "rcl" 110 "alice" ann (Some "ref") db with
  | Ok (rewards, _) => referral_bonus_credits rewards = REFERRAL_BONUS_CREDITS
  | Err _ => False
  end.
Proof. cbv zeta. split; [|split]; vm_compute; reflexivity. Qed.
