(* ===== verification/Sessions.v ===== *)
(** * E-mail codes and account sessions

    [gateway/src/ledger.rs]: the passwordless login of a human account.  A
    six-digit code and a magic-link token are sent by mail and stored hashed;
    a session token is stored hashed and slides its expiry forward.  SHA-256
    (the [sha2] crate) is the parameter [sha256_hex] of the section, tokens
    and row ids come from [uuid] and are arguments.  A verification that fails
    on a wrong code still commits the attempt counter, so [verify_*] return
    the database next to their result. *)

From stdpp Require Import sorting.
From Stdlib Require Import Ascii.
From S2P Require Import Prelude Db RustStr Wallet Accounts Fixtures.

Open Scope string_scope.
Open Scope Z_scope.

Definition EMAIL_CODE_TTL_SECONDS : Z := 10 * 60.
Definition EMAIL_CODE_RESEND_WINDOW_SECONDS : Z := 60.
Definition EMAIL_CODE_MAX_ATTEMPTS : Z := 5.
Definition ACCOUNT_SESSION_TTL_SECONDS : Z := 30 * 24 * 60 * 60.

Record AccountEmailCodeRequest : Type := mkCodeRequest {
  cr_email : string;
  cr_expires_at : Z
}.

Record AccountEmailCodeVerification : Type := mkCodeVerification {
  cv_account_user_id : string;
  cv_email : string
}.

Record AccountSession : Type := mkAccountSession {
  as_session_id : string;
  as_account_user_id : string;
  as_expires_at : Z
}.

Record AccountSessionIssued : Type := mkAccountSessionIssued {
  asi_session_id : string;
  asi_token : string;
  asi_account_user_id : string;
  asi_expires_at : Z
}.

Definition normalize_account_email (value : string) : option string :=
  let trimmed := to_lowercase (trim value) in
  if contains "@"%char trimmed && contains "."%char trimmed && Nat.leb (length (bytes trimmed)) 320
  then Some trimmed else None.

Definition account_user_id_for_email (email : string) : string := "email:" +:+ email.

(** [ORDER BY created_at DESC]. *)
Definition code_newest_first (a b : string * EmailCodeRow) : Prop :=
  aec_created_at b.2 <= aec_created_at a.2.
#[export] Instance code_newest_first_dec a b : Decision (code_newest_first a b).
Proof. unfold code_newest_first. apply _. Defined.

(** [WHERE p AND consumed_at IS NULL ORDER BY created_at DESC LIMIT 1]. *)
Definition newest_code (p : EmailCodeRow -> bool) (db : Db) : option (string * EmailCodeRow) :=
  head (merge_sort code_newest_first (select_where (fun _ r =>
    p r && bool_decide (aec_consumed_at r = None)) (account_email_codes db))).

Definition code_for_email (email : string) (db : Db) : option (string * EmailCodeRow) :=
  newest_code (fun r => bool_decide (aec_email r = email)) db.

Definition aec_set (attempts : Z) (consumed_at : option Z) (r : EmailCodeRow) : EmailCodeRow :=
  mkEmailCodeRow (aec_email r) (aec_code_hash r) (aec_created_at r) (aec_expires_at r) attempts
    consumed_at (aec_link_token_hash r).

Definition update_code (f : EmailCodeRow -> EmailCodeRow) (id : string) (db : Db) : Db :=
  set_account_email_codes (alter f id (account_email_codes db)) db.

Definition ase_touch (expires_at last_seen_at : Z) (r : AccountSessionRow) : AccountSessionRow :=
  mkAccountSessionRow (ase_account_user_id r) (ase_token_hash r) (ase_created_at r) expires_at
    last_seen_at (ase_device_id r) (ase_device_name r) (ase_revoked_at r).
Definition ase_revoke (now : Z) (r : AccountSessionRow) : AccountSessionRow :=
  mkAccountSessionRow (ase_account_user_id r) (ase_token_hash r) (ase_created_at r)
    (ase_expires_at r) (ase_last_seen_at r) (ase_device_id r) (ase_device_name r) (Some now).

Definition is_six_digits (s : string) : bool :=
  Nat.eqb (length (bytes s)) 6 && forallb is_ascii_digit (bytes s).

Section Hashed.
Context (sha256_hex : string -> string).

Definition hash_account_email_code (email code : string) : string :=
  sha256_hex (email +:+ ":" +:+ code).
Definition hash_account_session_token (token : string) : string :=
  sha256_hex ("account-session:" +:+ token).

(** ** Codes *)

Definition insert_email_code (id : string) (now : Z) (email code : string) (link : option string)
    (db : Db) : result anyhow (AccountEmailCodeRequest * Db) :=
  let? email := ok_or (Bail "valid email is required") (normalize_account_email email) in
  let code_hash := hash_account_email_code email code in
  guard? match code_for_email email db with
         | Some (_, r) => EMAIL_CODE_RESEND_WINDOW_SECONDS <=? i64_sub now (aec_created_at r)
         | None => true
         end else (Bail "wait before requesting another code") in
  let expires_at := i64_add now EMAIL_CODE_TTL_SECONDS in
  guard? negb (has id (account_email_codes db)) else (Sql UniqueViolation) in
  Ok (mkCodeRequest email expires_at,
      set_account_email_codes (<[id := mkEmailCodeRow email code_hash now expires_at 0 None link]>
        (account_email_codes db)) db).

Definition create_account_email_code (id : string) (now : Z) (email code : string) (db : Db)
    : result anyhow (AccountEmailCodeRequest * Db) :=
  insert_email_code id now email code None db.

Definition create_account_email_login_code (id : string) (now : Z) (email code link_token : string)
    (db : Db) : result anyhow (AccountEmailCodeRequest * Db) :=
  insert_email_code id now email code (Some (hash_account_session_token link_token)) db.

Definition verify_account_email_code (now : Z) (email code : string) (db : Db)
    : result anyhow AccountEmailCodeVerification * Db :=
  match normalize_account_email email with
  | None => (Err (Bail "valid email is required"), db)
  | Some email =>
      let normalized_code := trim code in
      if negb (is_six_digits normalized_code) then (Err (Bail "code must be 6 digits"), db)
      else
        match code_for_email email db with
        | None => (Err (Bail "code not found or already used"), db)
        | Some (id, r) =>
            if aec_expires_at r <? now then (Err (Bail "code expired"), db)
            else if EMAIL_CODE_MAX_ATTEMPTS <=? aec_attempts r
            then (Err (Bail "too many code attempts"), db)
            else if bool_decide (aec_code_hash r <> hash_account_email_code email normalized_code)
            then (Err (Bail "invalid code"),
                  update_code (fun r => aec_set (aec_attempts r + 1) (aec_consumed_at r) r) id db)
            else (Ok (mkCodeVerification (account_user_id_for_email email) email),
                  update_code (fun r => aec_set (aec_attempts r + 1) (Some now) r) id db)
        end
  end.

Definition verify_account_email_link_token (now : Z) (link_token : string) (db : Db)
    : result anyhow (AccountEmailCodeVerification * Db) :=
  let? (id, r) := ok_or (Bail "link not found or already used")
    (newest_code (fun r => some_eqb (aec_link_token_hash r) (hash_account_session_token link_token)) db) in
  guard? negb (aec_expires_at r <? now) else (Bail "link expired") in
  Ok (mkCodeVerification (account_user_id_for_email (aec_email r)) (aec_email r),
      update_code (fun r => aec_set (aec_attempts r) (Some now) r) id db).

(** ** Accounts by e-mail *)

(** The wallet whose e-mail it is, or a new [email:...] account. *)
Definition account_user_id_for_login (now : Z) (email : string) (db : Db)
    : result anyhow (string * Db) :=
  let? email := ok_or (Bail "valid email is required") (normalize_account_email email) in
  match select_one (fun _ r => some_eqb (to_lowercase <$> aw_email r) email) (account_wallets db) with
  | Some (a, _) => Ok (a, db)
  | None =>
      let a := account_user_id_for_email email in
      Ok (a, set_account_wallets (insert_or_ignore a
               (mkAccountWalletRow None None (Some email) None 0 0 now now None 0 0 0)
               (account_wallets db)) db)
  end.

Definition account_email_for_user (account_user_id : string) (db : Db) : option string :=
  account_wallets db !! account_user_id ≫= aw_email.

(** ** Sessions *)

Definition create_account_session (token session_id : string) (now : Z) (account_user_id : string)
    (device_id device_name : option string) (db : Db) : result anyhow (AccountSessionIssued * Db) :=
  let token_hash := hash_account_session_token token in
  let expires_at := i64_add now ACCOUNT_SESSION_TTL_SECONDS in
  guard? negb (has session_id (account_sessions db)) &&
         unique_for (fun r => Some (ase_token_hash r)) session_id (Some token_hash)
           (account_sessions db) else (Sql UniqueViolation) in
  Ok (mkAccountSessionIssued session_id token account_user_id expires_at,
      set_account_sessions (<[session_id := mkAccountSessionRow account_user_id token_hash now
        expires_at now device_id device_name None]> (account_sessions db)) db).

Definition live_session (token : string) (db : Db) : option (string * AccountSessionRow) :=
  select_one (fun _ r => bool_decide (ase_token_hash r = hash_account_session_token token) &&
                         bool_decide (ase_revoked_at r = None)) (account_sessions db).

Definition resolve_account_session (now : Z) (token : string) (db : Db)
    : option AccountSession * Db :=
  if negb (starts_with "tsess_" token) then (None, db)
  else
    match live_session token db with
    | None => (None, db)
    | Some (session_id, r) =>
        if ase_expires_at r <? now then (None, db)
        else
          let renew := i64_sub (ase_expires_at r) (i64_div ACCOUNT_SESSION_TTL_SECONDS 2) <? now in
          let expires_at :=
            if renew then i64_add now ACCOUNT_SESSION_TTL_SECONDS else ase_expires_at r in
          (Some (mkAccountSession session_id (ase_account_user_id r) expires_at),
           set_account_sessions (alter (ase_touch expires_at now) session_id (account_sessions db)) db)
    end.

Definition revoke_account_session (now : Z) (token : string) (db : Db) : bool * Db :=
  let p r := bool_decide (ase_token_hash r = hash_account_session_token token) &&
             bool_decide (ase_revoked_at r = None) in
  (bool_decide (select_where (fun _ r => p r) (account_sessions db) <> []),
   set_account_sessions ((fun r => if p r then ase_revoke now r else r) <$> account_sessions db) db).

(** ** Lemmas *)

Lemma live_session_Some token db sid r :
  live_session token db = Some (sid, r) ->
  account_sessions db !! sid = Some r /\ ase_token_hash r = hash_account_session_token token /\
  ase_revoked_at r = None.
Proof.
  intros [? H]%select_one_Some. apply andb_true_iff in H as [H1 H2].
  by rewrite !bool_decide_eq_true in *.
Qed.

Lemma live_session_None token db sid r :
  live_session token db = None -> account_sessions db !! sid = Some r ->
  ase_token_hash r = hash_account_session_token token -> ase_revoked_at r <> None.
Proof.
  intros H Hr Ht Hn. pose proof (select_one_None _ _ H sid r Hr) as Hp. simpl in Hp.
  rewrite !bool_decide_true in Hp by done. done.
Qed.

Lemma revoked_not_live now token db : live_session token (revoke_account_session now token db).2 = None.
Proof.
  destruct (live_session token _) as [[sid r]|] eqn:E; [|done]. exfalso.
  apply live_session_Some in E as (Hr & Ht & Hn). simpl in Hr. rewrite lookup_fmap in Hr.
  destruct (account_sessions db !! sid) as [r0|]; [|done]. simpl in Hr. injection Hr as <-.
  destruct (_ && _) eqn:Hp; [done|]. rewrite !bool_decide_true in Hp by done. done.
Qed.

(** Tokens of different sessions have different hashes. *)
Definition sessions_wf (db : Db) : Prop :=
  forall i j r s, account_sessions db !! i = Some r -> account_sessions db !! j = Some s ->
  ase_token_hash r = ase_token_hash s -> i = j.

Lemma live_session_lookup token db sid r :
  sessions_wf db -> account_sessions db !! sid = Some r ->
  ase_token_hash r = hash_account_session_token token -> ase_revoked_at r = None ->
  live_session token db = Some (sid, r).
Proof.
  intros Hwf Hr Ht Hn. destruct (live_session token db) as [[sid' r']|] eqn:E.
  - apply live_session_Some in E as (Hr' & Ht' & _).
    assert (sid' = sid) as -> by (apply (Hwf sid' sid r' r); congruence). congruence.
  - exfalso. by eapply live_session_None.
Qed.

Lemma newest_code_Some p db id r :
  newest_code p db = Some (id, r) ->
  account_email_codes db !! id = Some r /\ p r = true /\ aec_consumed_at r = None.
Proof.
  unfold newest_code. intros H.
  assert ((id, r) ∈ merge_sort code_newest_first (select_where (fun _ r =>
    p r && bool_decide (aec_consumed_at r = None)) (account_email_codes db))) as Hin.
  { destruct (merge_sort _ _); [done|]. simpl in H. injection H as ->. apply list_elem_of_here. }
  rewrite merge_sort_Permutation in Hin. apply select_where_spec in Hin as [Hr Hp].
  apply andb_true_iff in Hp as [Hp Hc]. by rewrite bool_decide_eq_true in Hc.
Qed.
(** The attempts counter of the code row. *)
Lemma update_code_lookup f id db j :
  account_email_codes (update_code f id db) !! j =
  if decide (id = j) then f <$> account_email_codes db !! j else account_email_codes db !! j.
Proof.
  simpl. case_decide as E; [subst; by rewrite lookup_alter_eq | by rewrite lookup_alter_ne].
Qed.

Definition attempts_bounded (db : Db) : Prop :=
  map_Forall (fun _ r => 0 <= aec_attempts r <= EMAIL_CODE_MAX_ATTEMPTS) (account_email_codes db).

(** What one verification did to the table. *)
Lemma verify_email_code_cases now email code db res db' :
  verify_account_email_code now email code db = (res, db') ->
  (is_ok res = false /\ res <> Err (Bail "invalid code") /\ db' = db) \/
  exists em id r, normalize_account_email email = Some em /\ code_for_email em db = Some (id, r) /\
    now <= aec_expires_at r /\ aec_attempts r < EMAIL_CODE_MAX_ATTEMPTS /\
    ((res = Err (Bail "invalid code") /\ aec_code_hash r <> hash_account_email_code em (trim code) /\
      db' = update_code (fun r => aec_set (aec_attempts r + 1) (aec_consumed_at r) r) id db) \/
     (res = Ok (mkCodeVerification (account_user_id_for_email em) em) /\
      aec_code_hash r = hash_account_email_code em (trim code) /\
      db' = update_code (fun r => aec_set (aec_attempts r + 1) (Some now) r) id db)).
Proof.
  unfold verify_account_email_code. destruct (normalize_account_email email) as [em|]; [|intros [= <- <-]; by left].
  destruct (negb _); [intros [= <- <-]; by left|].
  destruct (code_for_email em db) as [[id r]|] eqn:Ec; [|intros [= <- <-]; by left].
  destruct (Z.ltb_spec (aec_expires_at r) now); [intros [= <- <-]; by left|].
  destruct (Z.leb_spec EMAIL_CODE_MAX_ATTEMPTS (aec_attempts r)); [intros [= <- <-]; by left|].
  intros H'. right. exists em, id, r. do 4 (split; [done|]).
  case_bool_decide as Hh; injection H' as <- <-; [left|right]; done.
Qed.

(** ** Claims *)

(** an e-mail code is accepted at most once, only before it expires, only
    when the hash of the submitted code is the stored one and fewer than five
    attempts were made on it; every accepted or wrong attempt is counted, also
    when the answer is an error, and no code ever counts more than five. *)
Theorem verify_account_email_code_limits now email code db res db' :
  attempts_bounded db -> verify_account_email_code now email code db = (res, db') ->
  attempts_bounded db' /\
  match res with
  | Ok v =>
      exists id r, code_for_email (cv_email v) db = Some (id, r) /\ aec_consumed_at r = None /\
      now <= aec_expires_at r /\ aec_attempts r < EMAIL_CODE_MAX_ATTEMPTS /\
      aec_code_hash r = hash_account_email_code (cv_email v) (trim code) /\
      exists r', account_email_codes db' !! id = Some r' /\ aec_consumed_at r' = Some now /\
        aec_attempts r' = aec_attempts r + 1
  | Err e =>
      (forall j, (aec_consumed_at <$> account_email_codes db' !! j) =
                 (aec_consumed_at <$> account_email_codes db !! j)) /\
      (e = Bail "invalid code" ->
       exists em id r, normalize_account_email email = Some em /\ code_for_email em db = Some (id, r) /\
         aec_code_hash r <> hash_account_email_code em (trim code) /\
         account_email_codes db' !! id = Some (aec_set (aec_attempts r + 1) None r)) /\
      (e <> Bail "invalid code" -> db' = db)
  end.
Proof.
  intros Hb H. apply verify_email_code_cases in H as
    [(Hres & Hne & ->)|(em & id & r & Hem & Hc & Hexp & Hatt & Hcase)].
  { split; [done|]. destruct res; [done|]. split; [done|]. split; [congruence|done]. }
  pose proof (newest_code_Some _ _ _ _ Hc) as (Hr & Hp & Hn).
  pose proof (Hb id r Hr) as Hbr. simpl in Hbr.
  assert (forall c, attempts_bounded (update_code (fun r => aec_set (aec_attempts r + 1) (c r) r) id db)) as Hub.
  { intros c j s. rewrite update_code_lookup. destruct (decide (id = j)) as [<-|]; [|exact (Hb j s)].
    rewrite Hr. cbn [fmap option_fmap option_map].
    intros [= <-]. simpl. lia. }
  destruct Hcase as [(Hres & Hh & ->)|(-> & Hh & ->)].
  - subst res. split; [apply (Hub aec_consumed_at)|]. split; [|split; [|done]].
    + intros j. rewrite update_code_lookup. destruct (decide (id = j)); [|done].
      by destruct (account_email_codes db !! j).
    + intros _. exists em, id, r. do 3 (split; [done|]).
      rewrite update_code_lookup, decide_True, Hr by done. simpl. by rewrite Hn.
  - split; [apply (Hub (fun _ => Some now))|]. exists id, r. do 5 (split; [done|]).
    exists (aec_set (aec_attempts r + 1) (Some now) r). rewrite update_code_lookup, decide_True, Hr by done.
    done.
Qed.

(** a session token resolves to its account from the moment it is issued, as
    long as it is neither expired nor revoked; resolving it never shortens the
    session, extends it to a full term once half of it is over, and a revoked
    token never resolves again. *)
Theorem account_session_lifecycle token sid now a dv name db issued db' :
  sessions_wf db -> starts_with "tsess_" token = true -> 0 <= now <= 2 ^ 62 ->
  create_account_session token sid now a dv name db = Ok (issued, db') ->
  sessions_wf db' /\ asi_expires_at issued = now + ACCOUNT_SESSION_TTL_SECONDS /\
  (forall later, now <= later <= asi_expires_at issued ->
     exists s db'', resolve_account_session later token db' = (Some s, db'') /\
       as_account_user_id s = a /\ as_session_id s = sid /\ asi_expires_at issued <= as_expires_at s /\
       as_expires_at s = (if asi_expires_at issued - ACCOUNT_SESSION_TTL_SECONDS / 2 <? later
                          then later + ACCOUNT_SESSION_TTL_SECONDS else asi_expires_at issued)) /\
  (forall later, asi_expires_at issued < later -> resolve_account_session later token db' = (None, db')) /\
  (forall t later, (resolve_account_session later token (revoke_account_session t token db').2).1 = None).
Proof.
  intros Hwf Htok Hnow. unfold create_account_session.
  destruct (has sid (account_sessions db)) eqn:Hsid; [done|]. cbn [negb andb].
  destruct (unique_for _ _ _ _) eqn:Hu; [|done]. intros [= <- <-].
  assert (i64_add now ACCOUNT_SESSION_TTL_SECONDS = now + ACCOUNT_SESSION_TTL_SECONDS) as Hexp
    by (apply i64_add_id; unfold ACCOUNT_SESSION_TTL_SECONDS; range).
  rewrite Hexp. cbn [asi_expires_at].
  set (row := mkAccountSessionRow a (hash_account_session_token token) now _ now dv name None).
  set (db' := set_account_sessions _ db).
  unfold unique_for in Hu. apply bool_decide_eq_true in Hu.
  assert (forall j r, account_sessions db !! j = Some r -> ase_token_hash r <> hash_account_session_token token)
    as Hfresh.
  { intros j r Hj Eq. destruct (Hu j r Hj) as [->|Hne]; [|by rewrite Eq in Hne].
    unfold has in Hsid. by rewrite Hj in Hsid. }
  assert (sessions_wf db') as Hwf'.
  { intros i j r s. unfold db'. simpl. rewrite !lookup_insert. repeat case_decide; subst; try done.
    - intros [= <-] Hs E. by destruct (Hfresh j s Hs).
    - intros Hr [= <-] E. by destruct (Hfresh i r Hr).
    - apply Hwf. }
  assert (live_session token db' = Some (sid, row)) as Hlive.
  { apply live_session_lookup; [done| |done|done]. unfold db'. simpl. by rewrite lookup_insert_eq. }
  split; [done|]. split; [done|]. split; [|split].
  - intros later Hl. unfold resolve_account_session. rewrite Htok, Hlive. cbn [negb].
    unfold row at 1. cbn [ase_expires_at].
    rewrite (proj2 (Z.ltb_ge (now + ACCOUNT_SESSION_TTL_SECONDS) later)) by lia.
    eexists _, _. split; [reflexivity|]. cbn [as_account_user_id as_session_id as_expires_at].
    do 2 (split; [done|]). unfold row. cbn [ase_expires_at].
    unfold i64_div. rewrite Z.quot_div_nonneg by (unfold ACCOUNT_SESSION_TTL_SECONDS; lia).
    assert (0 <= ACCOUNT_SESSION_TTL_SECONDS / 2 <= ACCOUNT_SESSION_TTL_SECONDS) as Hh by (vm_compute; split; congruence).
    assert (0 <= ACCOUNT_SESSION_TTL_SECONDS <= 2 ^ 30) as Ht by (vm_compute; split; congruence).
    set (T := ACCOUNT_SESSION_TTL_SECONDS) in *. set (h := T / 2) in *.
    rewrite i64_sub_id, i64_add_id by range. destruct (Z.ltb_spec (now + T - h) later); lia.
  - intros later Hl. unfold resolve_account_session. rewrite Htok, Hlive. cbn [negb].
    unfold row. cbn [ase_expires_at]. by rewrite (proj2 (Z.ltb_lt _ _) Hl).
  - intros t later. unfold resolve_account_session. rewrite Htok, revoked_not_live. done.
Qed.
End Hashed.

(** Instances with a concrete hash function. *)
Definition demo_codes : Db :=
  commit (create_account_email_code (fun s => s) "id1" 1000 "Ann@Example.org" "123456" demo) demo.

Lemma verify_account_email_code_limits_witness :
  exists v db', verify_account_email_code (fun s => s) 1100 "ann@example.org" " 123456" demo_codes = (Ok v, db') /\
  attempts_bounded db'.
Proof.
  destruct (verify_account_email_code (fun s => s) 1100 "ann@example.org" " 123456" demo_codes) as [res db'] eqn:E.
  pose proof (f_equal fst E) as Er. cbn [fst] in Er. vm_compute in Er.
  rewrite <-Er in E |- *. eexists _, db'. split; [reflexivity|].
  refine (proj1 (verify_account_email_code_limits (fun s => s) _ _ _ _ _ _ _ E)). decided.
Defined.

Lemma account_session_lifecycle_witness :
  exists issued db', create_account_session (fun s => s) "tsess_1" "s1" 1000 ann None None demo = Ok (issued, db') /\
  (resolve_account_session (fun s => s) 2000 "tsess_1" (revoke_account_session (fun s => s) 1500 "tsess_1" db').2).1 = None.
Proof.
  run_ok (create_account_session (fun s => s) "tsess_1" "s1" 1000 ann None None demo).
  eexists _, _. split; [reflexivity|].
  refine (proj2 (proj2 (proj2 (proj2
    (account_session_lifecycle (fun s => s) "tsess_1" "s1" 1000 ann None None demo _ _ _ _ _ Erun)))) 1500 2000).
  - intros i j r s H. vm_compute in H. discriminate H.
  - vm_compute. reflexivity.
  - lia.
Defined.
