(* ===== verification/LedgerSystem.v ===== *)
(** * The ledger as a whole

    Every money-moving entry point of [gateway/src/ledger.rs] as one operation
    of a state machine, with the interface [LedgerSafe] between the components
    and the system: an operation keeps the invariant of the database and moves
    the books by at most what it is allowed to issue.  Each component
    discharges the interface for its operations, and the system theorems are
    proved against the interface alone. *)

From S2P Require Import Prelude Db RustStr Wallet ShareKeys Settlement Accounts Providers ApiKeys.
From S2P Require Import Fixtures ProRata ShareKeysFacts SettlementFacts AccountsFacts.
From S2P Require Import Onchain OnchainFacts Availability Referrals Sessions.

Open Scope string_scope.
Open Scope Z_scope.

(** ** The books *)

Definition paid_out (db : Db) : Z := map_sum pw_total_paid_out (provider_wallets db).

(** Credits in wallets and pools, plus what withdrawals and provider payouts
    took out, less what deposits brought in: the credits issued so far. *)
Definition books (db : Db) : Z := supply db + outgoing db + paid_out db - deposited db.

Record ledger_inv (db : Db) : Prop := mk_ledger_inv {
  inv_solvent : solvent db;
  inv_withdrawals : withdrawals_wf db;
  inv_sessions : sessions_nonneg db
}.

(** The interface. *)
Definition keeps (cap : Z) (db db' : Db) : Prop :=
  ledger_inv db' /\ books db <= books db' <= books db + cap.

Class LedgerSafe (cap : Z) (f : Db -> Db) : Prop :=
  ledger_safe : forall db, ledger_inv db -> circulation_bounded db -> keeps cap db (f db).
(** Most operations add and subtract what they checked, whatever circulates;
    only settlements multiply. *)
Class LedgerSafeAlways (cap : Z) (f : Db -> Db) : Prop :=
  ledger_safe_always : forall db, ledger_inv db -> keeps cap db (f db).
#[export] Instance always_safe cap f : LedgerSafeAlways cap f -> LedgerSafe cap f.
Proof. intros H db Hi _. by apply H. Qed.

(** ** Operations that leave the other tables alone *)

Record quiet (db db' : Db) : Prop := mk_quiet {
  quiet_withdrawals : account_withdrawals db' = account_withdrawals db;
  quiet_sessions : availability_sessions db' = availability_sessions db;
  quiet_deposits : account_onchain_deposits db' = account_onchain_deposits db;
  quiet_paid : paid_out db' = paid_out db
}.

#[export] Instance quiet_preorder : PreOrder quiet.
Proof.
  split; [by intros db|]. intros db1 db2 db3 [] []. split; congruence.
Qed.

Lemma quiet_tables db db' :
  account_withdrawals db' = account_withdrawals db ->
  availability_sessions db' = availability_sessions db ->
  account_onchain_deposits db' = account_onchain_deposits db ->
  provider_wallets db' = provider_wallets db -> quiet db db'.
Proof. intros. split; try done. unfold paid_out. congruence. Qed.

Lemma keeps_quiet x cap db db' :
  ledger_inv db -> quiet db db' -> supply db' = supply db + x -> 0 <= x <= cap ->
  solvent db' -> keeps cap db db'.
Proof.
  intros [Hs [H1 H2 H3] Hn] [Q1 Q2 Q3 Q4] Hsup Hx Hs'. split.
  - split; [done| |].
    + split; rewrite Q1; done.
    + unfold sessions_nonneg. by rewrite Q2.
  - unfold books, outgoing, deposited. rewrite Q1, Q3, Q4. lia.
Qed.

(** Operations on the tables that hold no money. *)
Lemma keeps_elsewhere db db' :
  ledger_inv db -> same_money db db' -> account_withdrawals db' = account_withdrawals db ->
  availability_sessions db' = availability_sessions db ->
  account_onchain_deposits db' = account_onchain_deposits db -> keeps 0 db db'.
Proof.
  intros Hi Hm H1 H2 H3. apply (keeps_quiet 0); [done| | |lia|by apply (same_money_solvent _ _ Hm), Hi].
  - apply quiet_tables; [done..|apply Hm].
  - rewrite (same_money_supply _ _ Hm). lia.
Qed.

Lemma keeps_refl cap db : 0 <= cap -> ledger_inv db -> keeps cap db db.
Proof. intros. split; [done|lia]. Qed.

(** A transaction is safe if its commits are. *)
Lemma keeps_commit {E A} (r : result E (A * Db)) cap db :
  0 <= cap -> ledger_inv db -> (forall a db', r = Ok (a, db') -> keeps cap db db') ->
  keeps cap db (commit r db).
Proof. intros Hc Hi H. destruct r as [[a db']|]; simpl; [eauto | by apply keeps_refl]. Qed.

Lemma keeps_commit_unit {E} (r : result E Db) cap db :
  0 <= cap -> ledger_inv db -> (forall db', r = Ok db' -> keeps cap db db') ->
  keeps cap db (commit_unit r db).
Proof. intros Hc Hi H. destruct r; simpl; [eauto | by apply keeps_refl]. Qed.

(** ** The statements are quiet *)

Lemma quiet_account_ledger a asset x ty ts dv note key db db' :
  insert_account_ledger a asset x ty ts dv note key db = Ok db' -> quiet db db'.
Proof. intros (_ & _ & ->)%insert_account_ledger_Ok. by apply quiet_tables. Qed.

Lemma quiet_contribution c r db db' : insert_contribution c r db = Ok db' -> quiet db db'.
Proof. intros (_ & _ & _ & _ & ->)%insert_contribution_Ok. by apply quiet_tables. Qed.

Lemma quiet_contribution_tx cid key d x y t ra rr db db' :
  insert_share_key_contribution_tx cid key d x y t ra rr db = Ok db' -> quiet db db'.
Proof. intros (_ & _ & _ & _ & ->)%insert_share_key_contribution_Ok. by apply quiet_tables. Qed.

Lemma quiet_insert_share_key k r db db' : insert_share_key k r db = Ok db' -> quiet db db'.
Proof. intros (_ & _ & _ & ->)%insert_share_key_Ok. by apply quiet_tables. Qed.

Lemma quiet_update_share_key_checked f k db db' : update_share_key_checked f k db = Ok db' -> quiet db db'.
Proof. intros (_ & ->)%update_share_key_checked_Ok. by apply quiet_tables. Qed.

Lemma quiet_referral_claim id r db db' : insert_referral_claim id r db = Ok db' -> quiet db db'.
Proof.
  unfold insert_referral_claim. destruct (negb _); [|done]. destruct (_ && _); [|done].
  destruct (_ && _); [|done]. intros [= <-]. by apply quiet_tables.
Qed.

Lemma quiet_provider_ledger p ty x ts ref model note db db' :
  insert_provider_ledger p ty x ts ref model note db = Ok db' -> quiet db db'.
Proof. unfold insert_provider_ledger. destruct (has _ _); [|done]. intros [= <-]. by apply quiet_tables. Qed.

Lemma quiet_provider_wallet now p db db' : ensure_provider_wallet now p db = Ok db' -> quiet db db'.
Proof.
  unfold ensure_provider_wallet. destruct (provider_wallets db !! p) eqn:Hp; [by intros [= <-]|].
  destruct (has _ _); [|done]. intros [= <-]. split; try done.
  unfold paid_out. simpl. rewrite map_sum_insert_new by done. simpl. lia.
Qed.

Lemma quiet_update_provider x y now p db : quiet db (update_provider (pw_post x y 0 now) p db).
Proof. split; try done. unfold paid_out. simpl. rewrite map_sum_alter_same; [done|]. intros; simpl; lia. Qed.

Lemma quiet_pay_ops x now rid note db : quiet db (pay_ops x now rid note db).
Proof. unfold pay_ops. destruct (0 <? x); by apply quiet_tables. Qed.

Lemma quiet_distribute sp provider rs now rid note db : quiet db (distribute sp provider rs now rid note db).
Proof.
  unfold distribute. cbv zeta.
  match goal with |- context [if 0 <? per_peer sp then foldl _ ?d _ else _] => set (db1 := d) end.
  transitivity db1.
  { unfold db1. destruct provider; [|done]. destruct (0 <? direct_earn sp); by apply quiet_tables. }
  etransitivity; [|apply quiet_pay_ops]. destruct (0 <? per_peer sp); [|done]. clearbody db1.
  revert db1. induction rs as [|r rs IH]; intros db1; [done|]. cbn [foldl].
  transitivity (earn r "AVAILABILITY_EARN" (per_peer sp) now rid note db1); [by apply quiet_tables|apply IH].
Qed.

Lemma quiet_debit consumer funded d x db : quiet db (debit_device_side consumer funded d x db).
Proof.
  destruct consumer as [|i k|]; simpl; try by apply quiet_tables.
  case_bool_decide; [|by apply quiet_tables].
  destruct (apply_pro_rata_frame k x (update_share_key (sk_add_consumed x) k db)) as [m ->].
  by apply quiet_tables.
Qed.

Lemma quiet_refund_loop key t reason L rows credits db :
  quiet db (foldl (fun acc c => refund_one key t reason c acc) (rows, credits, db) L).2.
Proof.
  revert rows credits db. induction L as [|[i r] L IH]; intros rows credits db; [done|]. cbn [foldl].
  destruct (refund_one key t reason (i, r) (rows, credits, db)) as [[rows1 credits1] db1] eqn:E.
  etransitivity; [|apply IH]. unfold refund_one in E. destruct (0 <? _); injection E as _ _ <-; by apply quiet_tables.
Qed.

Lemma quiet_refund key t reason db : quiet db (refund_share_key_contributions_tx key t reason db).2.
Proof. apply quiet_refund_loop. Qed.

Lemma quiet_credit_account a x ty dv note now db db' :
  credit_account_wallet_tx a x ty dv note now db = Ok db' -> quiet db db'.
Proof.
  unfold credit_account_wallet_tx. destruct (insert_account_ledger _ _ _ _ _ _ _ _ _) as [db1|] eqn:E; [|done].
  intros [= <-]. apply quiet_account_ledger in E. etransitivity; [|exact E]. by apply quiet_tables.
Qed.

Lemma quiet_credit_device d x ty note now db : quiet db (credit_device_wallet_tx d x ty note now db).
Proof. by apply quiet_tables. Qed.

Create HintDb quiet.
#[export] Hint Resolve quiet_tables quiet_update_provider quiet_pay_ops quiet_distribute quiet_debit
  quiet_refund quiet_credit_device quiet_account_ledger quiet_contribution_tx quiet_insert_share_key
  quiet_update_share_key_checked quiet_referral_claim quiet_provider_ledger quiet_provider_wallet
  quiet_credit_account : quiet.

Lemma map_err_Ok {E F A} (f : E -> F) (r : result E A) a : map_err f r = Ok a -> r = Ok a.
Proof. destruct r; simpl; [by intros [= ->] | done]. Qed.

Lemma Ok_pair_inv {E A B} (a a' : A) (b b' : B) : @Ok E _ (a, b) = Ok (a', b') -> b = b'.
Proof. by intros [= _ ->]. Qed.
Lemma Ok_inv {E A} (a a' : A) : @Ok E _ a = Ok a' -> a = a'.
Proof. by intros [= ->]. Qed.

(** Destructs the innermost scrutinee of [H]. *)
Ltac step_in H :=
  match type of H with
  | context [match ?x with _ => _ end] =>
      lazymatch x with context [match _ with _ => _ end] => fail | _ => idtac end;
      let E := fresh "E" in destruct x eqn:E; try discriminate H;
      try lazymatch type of E with map_err _ _ = _ => apply map_err_Ok in E end
  end.
Ltac steps_in H :=
  unfold onchain_sql, referral_sql in H; cbv zeta in H; repeat step_in H;
  try lazymatch type of H with map_err _ _ = _ => apply map_err_Ok in H end;
  try (apply Ok_pair_inv in H || apply Ok_inv in H); try (injection H as <-); subst.

(** Turns the successful statements in the context into [quiet] facts and
    chains them. *)
Ltac quiet_in :=
  repeat match goal with
  | E : insert_account_ledger _ _ _ _ _ _ _ _ _ = Ok _ |- _ => apply quiet_account_ledger in E
  | E : insert_share_key_contribution_tx _ _ _ _ _ _ _ _ _ = Ok _ |- _ => apply quiet_contribution_tx in E
  | E : insert_contribution _ _ _ = Ok _ |- _ => apply quiet_contribution in E
  | E : insert_share_key _ _ _ = Ok _ |- _ => apply quiet_insert_share_key in E
  | E : update_share_key_checked _ _ _ = Ok _ |- _ => apply quiet_update_share_key_checked in E
  | E : insert_referral_claim _ _ _ = Ok _ |- _ => apply quiet_referral_claim in E
  | E : insert_provider_ledger _ _ _ _ _ _ _ _ = Ok _ |- _ => apply quiet_provider_ledger in E
  | E : ensure_provider_wallet _ _ _ = Ok _ |- _ => apply quiet_provider_wallet in E
  | E : credit_account_wallet_tx _ _ _ _ _ _ _ = Ok _ |- _ => apply quiet_credit_account in E
  end.
(** Every statement takes the database last, so the chain is followed from its
    end. *)
Ltac quiet_chain :=
  lazymatch goal with
  | |- quiet ?a ?a => reflexivity
  | Q : quiet ?x ?b |- quiet ?a ?b => transitivity x; [clear Q|exact Q]; quiet_chain
  | |- quiet ?a (?f ?x) =>
      transitivity x;
      [|solve [auto with quiet nocore | apply quiet_tables; reflexivity]]; quiet_chain
  end.
Ltac quiet_done := quiet_in; quiet_chain.

(** ** Each component discharges the interface *)

#[export] Instance safe_upsert_device now d : LedgerSafeAlways 0 (fun db => (upsert_device now d db).2).
Proof.
  intros db Hi. apply (keeps_quiet 0); [done| | |lia|].
  - unfold upsert_device. destruct (devices db !! d); by apply quiet_tables.
  - unfold upsert_device. destruct (devices db !! d); simpl; [|rewrite supply_ensure_balance];
      unfold supply, device_credits, account_credits, provider_credits, pool_credits; simpl; lia.
  - unfold upsert_device. pose proof (inv_solvent _ Hi) as Hs.
    destruct (devices db !! d); simpl; [by destruct Hs|]. apply solvent_ensure_balance. by destruct Hs.
Qed.

#[export] Instance safe_admin_mint now d x note :
  LedgerSafeAlways (Z.max x 0) (fun db => commit (admin_mint now d x note db) db).
Proof.
  intros db Hi. apply keeps_commit; [lia|done|]. intros bal db' H.
  pose proof (admin_mint_Ok _ _ _ _ _ _ _ H) as (Hx & Hsup & Hsol & _).
  apply (keeps_quiet x); [done| |done|lia|apply Hsol, Hi].
  unfold admin_mint in H. steps_in H. by apply quiet_tables.
Qed.

#[export] Instance safe_record_bonus now d x : 0 <= x ->
  LedgerSafeAlways x (fun db => commit (record_bonus now d x db) db).
Proof.
  intros Hx db Hi. apply keeps_commit; [lia|done|]. intros bal db' H.
  pose proof (record_bonus_Ok _ _ _ _ _ _ H) as (Hsup & Hsol & _).
  apply (keeps_quiet x); [done| |done|lia|apply Hsol; [done|apply Hi]].
  unfold record_bonus in H. steps_in H. by apply quiet_tables.
Qed.

#[export] Instance safe_mint_share_key ids now issuer label ttl budget :
  LedgerSafeAlways 0 (fun db => commit (mint_share_key ids now issuer label ttl budget db) db).
Proof.
  intros db Hi. apply keeps_commit; [lia|done|]. intros m db' H.
  pose proof (mint_share_key_Ok _ _ _ _ _ _ _ _ _ H) as (_ & _ & Hsup & Hsol & _).
  apply (keeps_quiet 0); [done| |lia|lia|apply Hsol, Hi].
  unfold mint_share_key in H. steps_in H; quiet_done.
Qed.

#[export] Instance safe_transfer_to_share_key cid now sender fid x :
  LedgerSafeAlways 0 (fun db => commit (transfer_to_share_key cid now sender fid x db) db).
Proof.
  intros db Hi. apply keeps_commit; [lia|done|]. intros m db' H.
  pose proof (transfer_to_share_key_Ok _ _ _ _ _ _ _ _ H) as
    (? & ? & _ & _ & _ & _ & _ & _ & _ & Hsup & Hsol & _).
  apply (keeps_quiet 0); [done| |lia|lia|apply Hsol, Hi].
  unfold transfer_to_share_key in H. steps_in H; quiet_done.
Qed.

#[export] Instance safe_revoke_share_key now issuer key :
  LedgerSafeAlways 0 (fun db => (revoke_share_key now issuer key db).2).
Proof.
  intros db Hi. destruct (revoke_share_key now issuer key db) as [[] db'] eqn:E; cbn [snd].
  - pose proof (revoke_share_key_true _ _ _ _ _ (inv_solvent _ Hi) E) as (r & _ & _ & _ & Hsup & Hsol & _).
    apply (keeps_quiet 0); [done| |lia|lia|done]. unfold revoke_share_key in E.
    destruct (share_keys db !! key) as [r0|]; [|done]. destruct (_ && _); [|done].
    destruct (_ && _); injection E as <-; [|by apply quiet_tables].
    transitivity (update_share_key (sk_set_revoked now) key db); [by apply quiet_tables|].
    transitivity (refund_share_key_contributions_tx key now "revoked"
      (update_share_key (sk_set_revoked now) key db)).2; [apply quiet_refund|by apply quiet_tables].
  - apply revoke_share_key_false in E as ->. by apply keeps_refl.
Qed.

Lemma quiet_close_loop now ks rep db :
  quiet db (foldl (fun acc k => close_expired_key now k acc) (rep, db) ks).2.
Proof.
  revert rep db. induction ks as [|k ks IH]; intros rep db; [done|]. cbn [foldl].
  destruct (close_expired_key now k (rep, db)) as [rep1 db1] eqn:E. etransitivity; [|apply IH].
  unfold close_expired_key in E. pose proof (quiet_refund k now "expired" db) as Q.
  destruct (refund_share_key_contributions_tx k now "expired" db) as [[rows credits] db2].
  injection E as _ <-. etransitivity; [exact Q|by apply quiet_tables].
Qed.

#[export] Instance safe_refund_expired now : LedgerSafeAlways 0 (fun db => (refund_expired_share_keys now db).2).
Proof.
  intros db Hi. destruct (refund_expired_conserves now db (inv_solvent _ Hi)) as [Hsup Hsol].
  apply (keeps_quiet 0); [done|apply quiet_close_loop|lia|lia|done].
Qed.

Lemma quiet_migrate_one nf nc now row rep db rep' db' :
  migrate_one nf nc now row (rep, db) = Ok (rep', db') -> quiet db db'.
Proof.
  destruct row as [key r]. unfold migrate_one. intros H.
  destruct (ensure_share_key_funding_id_tx _ _ _ _) as [[fid db0]|] eqn:E0; [|done].
  transitivity db0.
  { unfold ensure_share_key_funding_id_tx in E0. steps_in E0; quiet_done. }
  clear E0. steps_in H; quiet_done.
Qed.

#[export] Instance safe_migrate nf nc now :
  LedgerSafeAlways 0 (fun db => commit (migrate_unfunded_share_keys nf nc now db) db).
Proof.
  intros db Hi. apply keeps_commit; [lia|done|]. intros rep db' H.
  destruct (migrate_conserves _ _ _ _ _ _ H) as [Hsup Hsol].
  apply (keeps_quiet 0); [done| |lia|lia|apply Hsol, Hi].
  unfold migrate_unfunded_share_keys in H.
  apply (fold_res_ind _ (fun acc => quiet db acc.2)) in H; [done| |done].
  intros row [rep1 db1] [rep2 db2] _ Hstep Q. apply quiet_migrate_one in Hstep.
  etransitivity; [exact Q|exact Hstep].
Qed.

#[export] Instance safe_settle_request now consumer provider online cost rid model :
  LedgerSafe 0 (fun db =>
    commit_unit (settle_request now consumer (Some provider) online cost rid model db) db).
Proof.
  intros db Hi Hb. apply keeps_commit_unit; [lia|done|]. intros db' H. pose proof (inv_solvent _ Hi) as Hs.
  destruct (Z.leb_spec cost 0) as [Hc|Hc].
  { unfold settle_request in H. rewrite (proj2 (Z.leb_le cost 0) Hc) in H. injection H as <-. by apply keeps_refl. }
  destruct (paying_device_id consumer) as [d|] eqn:Hp.
  - pose proof (settle_device_side_money _ _ d _ _ _ _ _ _ _ Hp Hc Hs Hb H) as [Hsup Hsol].
    apply (keeps_quiet 0); [done| |cbv zeta in Hsup; lia|lia|done].
    apply (settle_device_side _ _ d) in H; [|done|done]. cbv zeta in H. destruct H as [note ->].
    etransitivity; [|apply quiet_distribute]. destruct (0 <? _); [|by apply quiet_tables].
    etransitivity; [|apply quiet_debit]. by apply quiet_tables.
  - destruct consumer as [| |a key]; [done|done|]. unfold settle_request in H.
    rewrite (proj2 (Z.leb_gt cost 0)) in H by done.
    pose proof (settle_account_money _ _ _ _ _ _ _ _ _ _ Hc Hs Hb H) as [Hsup Hsol].
    apply (keeps_quiet 0); [done| |lia|lia|done].
    unfold settle_request_account in H. steps_in H; quiet_done.
Qed.

#[export] Instance safe_settle_provider_request now consumer pid cost rid model :
  LedgerSafe 0 (fun db => commit_unit (settle_provider_request now consumer pid cost rid model db) db).
Proof.
  intros db Hi Hb. apply keeps_commit_unit; [lia|done|]. intros db' H. pose proof (inv_solvent _ Hi) as Hs.
  destruct (Z.leb_spec cost 0) as [Hc|Hc].
  { unfold settle_provider_request in H. rewrite (proj2 (Z.leb_le cost 0) Hc) in H.
    injection H as <-. by apply keeps_refl. }
  pose proof (settle_provider_money _ _ _ _ _ _ _ _ Hc Hs Hb H) as [Hsup Hsol].
  apply (keeps_quiet 0); [done| |lia|lia|done].
  unfold settle_provider_request in H. rewrite (proj2 (Z.leb_gt cost 0)) in H by done.
  destruct consumer as [d|d k|a [k|]]; cbn [paying_device_id] in H; steps_in H; quiet_done.
Qed.

#[export] Instance safe_record_provider_payout now pid x dest :
  LedgerSafeAlways 0 (fun db => commit_unit (record_provider_payout now pid x dest db) db).
Proof.
  intros db Hi. apply keeps_commit_unit; [lia|done|]. intros db' H.
  unfold record_provider_payout in H. destruct (Z.leb_spec x 0) as [|Hx]; [done|]. cbn [negb] in H.
  destruct (Z.leb_spec x (provider_balance_of pid db)) as [Hle|]; [|done].
  destruct (insert_provider_ledger _ _ _ _ _ _ _ _) as [db1|] eqn:E; [|done]. injection H as <-.
  pose proof (quiet_provider_ledger _ _ _ _ _ _ _ _ _ E) as [Q1 Q2 Q3 Q4].
  apply insert_provider_ledger_Ok in E as Hm.
  assert (is_Some (provider_wallets db1 !! pid)) as Hrow.
  { rewrite (same_providers _ _ Hm). unfold provider_balance_of in Hle.
    destruct (provider_wallets db !! pid); [eauto|simpl in Hle; lia]. }
  set (db2 := update_provider (pw_post (- x) 0 x now) pid db1).
  assert (supply db2 = supply db - x) as Hsup.
  { unfold db2. rewrite (supply_update_provider _ _ _ (- x)) by done. rewrite (same_money_supply _ _ Hm). lia. }
  assert (paid_out db2 = paid_out db + x) as Hpaid.
  { rewrite <-Q4. unfold paid_out, db2. simpl. by rewrite (map_sum_alter_add _ _ _ _ x). }
  destruct Hi as [Hs [W1 W2 W3] Hn]. split; [split|].
  - unfold db2. apply solvent_update_provider; [|by apply (same_money_solvent _ _ Hm)].
    intros r Hr _. rewrite (same_providers _ _ Hm) in Hr. unfold provider_balance_of in Hle.
    rewrite Hr in Hle. simpl in *. lia.
  - unfold db2. split; simpl; rewrite Q1; done.
  - unfold sessions_nonneg, db2. simpl. by rewrite Q2.
  - unfold books. rewrite Hsup, Hpaid. unfold outgoing, deposited, db2. simpl. rewrite Q1, Q3. lia.
Qed.

#[export] Instance safe_link now d a md :
  LedgerSafeAlways 0 (fun db => default db (link_device_to_account now d a md db)).
Proof.
  intros db Hi. destruct (link_device_to_account now d a md db) as [db'|] eqn:E; [|by apply keeps_refl].
  pose proof (link_device_money _ _ _ _ _ _ E) as (Hsup & Hsol & _).
  apply (keeps_quiet 0); [done| |simpl; lia|lia|apply Hsol, Hi].
  unfold link_device_to_account in E. destruct (normalize_account_user_id a); [|done].
  injection E as <-. by apply quiet_tables.
Qed.

Lemma quiet_credit_recipient now x t actor note db db' :
  credit_recipient now x t actor note db = Ok db' -> quiet db db'.
Proof. unfold credit_recipient. intros H. destruct t; steps_in H; quiet_done. Qed.

#[export] Instance safe_transfer_device now d raw x memo :
  LedgerSafeAlways 0 (fun db => commit (transfer_from_device_wallet now d raw x memo db) db).
Proof.
  intros db Hi. apply keeps_commit; [lia|done|]. intros rcpt db' H.
  pose proof (transfer_from_device_Ok _ _ _ _ _ _ _ _ H) as (t & _ & _ & _ & _ & _ & Hsup & Hsol).
  apply (keeps_quiet 0); [done| |lia|lia|apply Hsol, Hi].
  unfold transfer_from_device_wallet in H. cbv zeta in H. destruct (negb _); [|done].
  destruct (_ <=? _); [|done]. destruct (resolve_transfer_target_tx _ _); [|done]. destruct (negb _); [|done].
  destruct (credit_recipient _ _ _ _ _ _) as [db1|] eqn:E; [|done]. injection H as _ <-.
  apply quiet_credit_recipient in E. etransitivity; [|exact E]. by apply quiet_tables.
Qed.

#[export] Instance safe_transfer_account_for now a raw x memo actor :
  LedgerSafeAlways 0 (fun db => commit (transfer_from_account_wallet_for_account now a raw x memo actor db) db).
Proof.
  intros db Hi. apply keeps_commit; [lia|done|]. intros rcpt db' H.
  pose proof (transfer_from_account_Ok _ _ _ _ _ _ _ _ _ H) as (t & _ & _ & _ & _ & _ & Hsup & Hsol).
  apply (keeps_quiet 0); [done| |lia|lia|apply Hsol, Hi].
  unfold transfer_from_account_wallet_for_account in H. cbv zeta in H. destruct (negb _); [|done].
  destruct (has _ _); [|done]. destruct (_ <=? _); [|done].
  destruct (resolve_transfer_target_tx _ _); [|done]. destruct (negb _); [|done].
  destruct (insert_account_ledger _ _ _ _ _ _ _ _ _) as [db0|] eqn:E0; [|done]. cbn [map_err] in H.
  destruct (credit_recipient _ _ _ _ _ _) as [db1|] eqn:E; [|done]. injection H as _ <-.
  apply quiet_credit_recipient in E. quiet_done.
Qed.

#[export] Instance safe_transfer_account now dv raw x memo :
  LedgerSafeAlways 0 (fun db => commit (transfer_from_account_wallet now dv raw x memo db) db).
Proof.
  intros db Hi. unfold transfer_from_account_wallet.
  destruct (account_user_id_for_device dv db) as [a|]; [|by apply keeps_refl].
  exact (safe_transfer_account_for now a raw x memo (Some dv) db Hi).
Qed.

#[export] Instance safe_sweep now req tgt :
  LedgerSafeAlways 0 (fun db => commit (sweep_device_to_account now req tgt db) db).
Proof.
  intros db Hi. apply keeps_commit; [lia|done|]. intros [x summary] db' H.
  pose proof (sweep_Ok _ _ _ _ _ _ _ H (inv_solvent _ Hi)) as (a & _ & _ & _ & _ & _ & Hsup & Hsol).
  apply (keeps_quiet 0); [done| |lia|lia|done].
  unfold sweep_device_to_account in H. destruct (common_account req tgt db); [|done]. cbv zeta in H.
  destruct (map_err _ (query_row _)); [|done].
  destruct (0 <? _); [|injection H as _ _ <-; by apply quiet_tables].
  destruct (insert_account_ledger _ _ _ _ _ _ _ _ _) as [db1|] eqn:E; [|done]. injection H as _ _ <-.
  quiet_done.
Qed.

#[export] Instance safe_remove_device req tgt :
  LedgerSafeAlways 0 (fun db => commit (remove_device_from_account req tgt db) db).
Proof.
  intros db Hi. apply keeps_commit; [lia|done|]. intros summary db' H.
  unfold remove_device_from_account in H. destruct (negb _); [|done].
  destruct (common_account req tgt db); [|done]. injection H as _ <-.
  apply (keeps_quiet 0); [done|by apply quiet_tables| |lia|by destruct (inv_solvent _ Hi)].
  unfold supply, device_credits, account_credits, provider_credits, pool_credits. simpl. lia.
Qed.

(** Deposits and withdrawals move the books not at all: what the wallets gain
    or lose is in the deposit and withdrawal tables. *)
Lemma books_deposit a x db db' :
  ledger_inv db -> deposit_effect a x db db' -> availability_sessions db' = availability_sessions db ->
  paid_out db' = paid_out db -> keeps 0 db db'.
Proof.
  intros [Hs [W1 W2 W3] Hn] (Hsup & _ & Hsol & _ & Hw) Hses Hp. split.
  - split; [auto| |unfold sessions_nonneg; by rewrite Hses]. split; rewrite Hw; done.
  - unfold books, outgoing. rewrite Hw, Hp. lia.
Qed.

Lemma credit_deposit_frame did a sig addr src usdc credits now dv n1 n2 db db' :
  credit_deposit did a sig addr src usdc credits now dv n1 n2 db = Ok db' ->
  availability_sessions db' = availability_sessions db /\ paid_out db' = paid_out db.
Proof.
  unfold credit_deposit, onchain_sql. intros H.
  destruct (insert_deposit _ _ _) as [db1|] eqn:E1; [|done]. cbn [map_err] in H.
  apply insert_deposit_Ok in E1 as (_ & _ & _ & Edb1).
  destruct (insert_account_ledger a "usdc" _ _ _ _ _ _ _) as [db3|] eqn:E3; [|done]. cbn [map_err] in H.
  apply map_err_Ok in H. apply quiet_account_ledger in E3, H. destruct E3, H. subst db1.
  split; etrans; eassumption.
Qed.

#[export] Instance safe_treasury_deposit did now dv sig usdc src addr :
  LedgerSafeAlways 0 (fun db => commit (record_account_treasury_deposit did now dv sig usdc src addr db) db).
Proof.
  intros db Hi. apply keeps_commit; [lia|done|]. intros rcpt db' H.
  pose proof (treasury_deposit_Ok _ _ _ _ _ _ _ _ _ _ H) as (a & _ & _ & Heff & _).
  assert (availability_sessions db' = availability_sessions db /\ paid_out db' = paid_out db) as [F1 F2];
    [|by eapply books_deposit].
  unfold record_account_treasury_deposit in H. destruct (negb _); [|done].
  destruct (map_err _ _); [|done]. destruct (ok_or _ _); [|done]. destruct (map_err _ _); [|done].
  destruct (deposit_by_signature sig db) as [[i d]|].
  - case_bool_decide; [|done]. by injection H as _ <-.
  - destruct (credit_deposit _ _ _ _ _ _ _ _ _ _ _ _) as [db1|] eqn:E; [|done]. injection H as _ <-.
    by eapply credit_deposit_frame.
Qed.

#[export] Instance safe_onchain_deposit did now dv req :
  LedgerSafeAlways 0 (fun db => commit (record_account_onchain_deposit did now dv req db) db).
Proof.
  intros db Hi. apply keeps_commit; [lia|done|]. intros rcpt db' H.
  pose proof (onchain_deposit_Ok _ _ _ _ _ _ _ H) as (a & _ & Heff).
  assert (availability_sessions db' = availability_sessions db /\ paid_out db' = paid_out db) as [F1 F2];
    [|by eapply books_deposit].
  unfold record_account_onchain_deposit in H. destruct (ok_or _ _); [|done]. destruct (map_err _ _); [|done].
  destruct (resolve_account_onchain_address_from_state _ _); [|done]. cbv zeta in H.
  destruct (normalized_optional_string _); [|by injection H as _ <-].
  destruct (ok_or _ _); [|done]. destruct (negb _); [|done]. destruct (map_err _ _); [|done].
  destruct (deposit_by_signature _ _) as [[i d]|].
  - case_bool_decide; [|done]. by injection H as _ <-.
  - destruct (credit_deposit _ _ _ _ _ _ _ _ _ _ _ _) as [db1|] eqn:E; [|done]. injection H as _ <-.
    apply credit_deposit_frame in E as [E1 E2]. split; etrans; eassumption || done.
Qed.

Lemma books_withdrawal db db' :
  ledger_inv db -> withdrawal_effect db db' -> availability_sessions db' = availability_sessions db ->
  paid_out db' = paid_out db -> deposited db' = deposited db -> keeps 0 db db'.
Proof.
  intros [Hs Hw Hn] (Hwf & _ & Hsum & Hsol) Hses Hp Hd. split.
  - split; [auto|done|unfold sessions_nonneg; by rewrite Hses].
  - unfold books. rewrite Hp, Hd. lia.
Qed.

(** The other tables under the withdrawal statements. *)
Definition aside (db db' : Db) : Prop :=
  availability_sessions db' = availability_sessions db /\ paid_out db' = paid_out db /\
  deposited db' = deposited db.

Lemma aside_refl db : aside db db.
Proof. done. Qed.
Lemma aside_trans db1 db2 db3 : aside db1 db2 -> aside db2 db3 -> aside db1 db3.
Proof. intros (? & ? & ?) (? & ? & ?). split_and!; etrans; eassumption. Qed.
Lemma aside_quiet db db' : quiet db db' -> aside db db'.
Proof. intros []. split_and!; [done|done|unfold deposited; congruence]. Qed.

Lemma aside_finish a req sig usdc credits now dv n1 n2 db db' :
  finish_withdrawal a req sig usdc credits now dv n1 n2 db = Ok db' -> aside db db'.
Proof.
  unfold finish_withdrawal, onchain_sql. intros H.
  destruct (insert_account_ledger a "credits" _ _ _ _ _ _ _) as [db1|] eqn:E1; [|done]. cbn [map_err] in H.
  destruct (insert_account_ledger a "usdc" _ _ _ _ _ _ _) as [db2|] eqn:E2; [|done]. cbn [map_err] in H.
  apply quiet_account_ledger, aside_quiet in E1, E2.
  unfold submit_withdrawals in H. case_bool_decide; [|done]. injection H as <-.
  eapply aside_trans; [exact E1|]. eapply aside_trans; [exact E2|]. done.
Qed.

#[export] Instance safe_complete_withdrawal now req sig :
  LedgerSafeAlways 0 (fun db => commit (complete_account_withdrawal_from_treasury now req sig db) db).
Proof.
  intros db Hi. apply keeps_commit; [lia|done|]. intros rec db' H.
  pose proof (complete_effect _ _ _ _ _ _ (inv_withdrawals _ Hi) H) as (Heff & _).
  assert (aside db db') as (A1 & A2 & A3); [|by apply books_withdrawal].
  unfold complete_account_withdrawal_from_treasury in H.
  destruct (withdrawal_by_request req db) as [[i r]|]; [|done]. cbn [ok_or] in H.
  case_bool_decide; [destruct (some_eqb _ _); [|done]; injection H as _ <-; done|].
  case_bool_decide; [|done]. cbv zeta in H.
  destruct (finish_withdrawal _ _ _ _ _ _ _ _ _ _) as [db1|] eqn:E; [|done].
  apply reread_Ok in H as [-> _]. apply aside_finish in E. by eapply aside_trans; [|exact E].
Qed.

#[export] Instance safe_reject_withdrawal now req reason :
  LedgerSafeAlways 0 (fun db => commit (reject_account_withdrawal now req reason db) db).
Proof.
  intros db Hi. apply keeps_commit; [lia|done|]. intros rec db' H.
  pose proof (reject_effect _ _ _ _ _ _ (inv_withdrawals _ Hi) H) as (Heff & _).
  assert (aside db db') as (A1 & A2 & A3); [|by apply books_withdrawal].
  unfold reject_account_withdrawal, onchain_sql in H.
  destruct (withdrawal_by_request req db) as [[i r]|]; [|done]. cbn [ok_or] in H.
  case_bool_decide; [|done]. cbv zeta in H.
  destruct (insert_account_ledger _ _ _ _ _ _ _ _ _) as [db1|] eqn:E; [|done]. cbn [map_err] in H.
  apply reread_Ok in H as [-> _]. apply quiet_account_ledger, aside_quiet in E.
  eapply aside_trans; [|eapply aside_trans; [exact E|]]; done.
Qed.

#[export] Instance safe_submit_withdrawal wid now dv req :
  LedgerSafeAlways 0 (fun db => commit (submit_account_withdrawal wid now dv req db) db).
Proof.
  intros db Hi. apply keeps_commit; [lia|done|]. intros rec db' H.
  pose proof (submit_effect _ _ _ _ _ _ _ (inv_withdrawals _ Hi) H) as Heff.
  assert (aside db db') as (A1 & A2 & A3); [|by apply books_withdrawal].
  unfold submit_account_withdrawal in H. destruct (ok_or _ _) as [rid|]; [|done].
  destruct (ok_or _ _) as [dest|]; [|done].
  cbv zeta in H. destruct (negb _); [|done]. destruct (ok_or _ _) as [acc|]; [|done].
  destruct (map_err _ _) as [st|]; [|done]. destruct (_ && _); [|done].
  destruct (map_err _ _) as [credits|]; [|done].
  match type of H with (if ?b then _ else _) = _ => destruct b; [|done] end.
  destruct (withdrawal_request_row _ _ _ _ _ _ _ _ _) as [[record|reserved db0]|] eqn:E0; [| |done].
  { injection H as _ <-. apply aside_refl. }
  assert (aside db db0) as A0.
  { unfold withdrawal_request_row, onchain_sql in E0.
    destruct (withdrawal_by_request _ db) as [[i r]|].
    - case_bool_decide; [|done]. case_bool_decide; [case_bool_decide; done|].
      destruct (normalized_optional_string (wr_tx_signature req)); [|done]. by injection E0 as _ <-.
    - destruct (insert_withdrawal _ _ _) as [db1|] eqn:E1; [|done]. injection E0 as _ <-.
      by apply insert_withdrawal_Ok in E1 as (_ & _ & _ & ->). }
  destruct (normalized_optional_string (wr_tx_signature req)) as [sg|].
  - destruct (settle_withdrawal _ _ _ _ _ _ _ _ _ _ _) as [db1|] eqn:E1; [|done].
    destruct (reread_withdrawal _ db1) as [[rec1 db2]|] eqn:E2; [|done]. injection H as _ <-.
    apply reread_Ok in E2 as [-> _]. eapply aside_trans; [exact A0|].
    unfold settle_withdrawal in E1. destruct (map_err _ _); [|done]. destruct reserved.
    + apply aside_finish in E1. by eapply aside_trans; [|exact E1].
    + destruct (_ <=? _); [|done]. apply aside_finish in E1. by eapply aside_trans; [|exact E1].
  - destruct (hold_withdrawal _ _ _ _ _ _ _ _) as [db1|] eqn:E1; [|done]. injection H as _ <-.
    eapply aside_trans; [exact A0|]. unfold hold_withdrawal, onchain_sql in E1.
    destruct (_ <=? _); [|done]. apply map_err_Ok, quiet_account_ledger, aside_quiet in E1.
    by eapply aside_trans; [|exact E1].
Qed.

Lemma referral_code_out code now d db snap db' :
  referral_code_for_device code now d db = Ok (snap, db') ->
  exists m, db' = set_referral_codes m (ensure_balance d (ensure_device now d db)).
Proof.
  unfold referral_code_for_device, ensure_referral_code_tx. cbv zeta. set (db0 := ensure_balance d (ensure_device now d db)).
  intros H. destruct (referral_code_for_owner_locked _ _) as [sn|].
  { injection H as _ <-. exists (referral_codes db0). by destruct db. }
  unfold insert_referral_code in H.
  destruct (account_user_id_for_device d db0); cbn beta iota in H;
    (destruct (negb _); [|done]); (destruct (_ && _); [|done]); (destruct (_ && _); [|done]);
    injection H as _ <-; eauto.
Qed.
#[export] Instance safe_referral_code code now d :
  LedgerSafeAlways 0 (fun db => commit (referral_code_for_device code now d db) db).
Proof.
  intros db Hi. apply keeps_commit; [lia|done|]. intros snap db' H. apply referral_code_out in H as [m ->].
  set (db0 := ensure_balance d (ensure_device now d db)).
  apply (keeps_quiet 0); [done|by apply quiet_tables| |lia|].
  - change (supply db0 = supply db + 0). unfold db0. autorewrite with supply. lia.
  - apply (same_money_solvent db0); [done|]. unfold db0. pose proof (inv_solvent _ Hi). auto with ledger.
Qed.

Lemma quiet_referral_device cid d code now db x db' :
  apply_referral_for_device_tx cid d code now db = Ok (x, db') -> quiet db db'.
Proof.
  unfold apply_referral_for_device_tx, referral_sql. intros H. destruct (negb _); [|done].
  destruct (ok_or _ _); [|done]. destruct (ok_or _ _); [|done]. destruct (negb _); [|done]. cbv zeta in H.
  match type of H with (match ?c with Ok _ => _ | Err _ => _ end) = _ => destruct c as [db1|] eqn:E1; [|done] end.
  destruct (insert_referral_claim _ _ _) as [db3|] eqn:E3; [|done]. injection H as _ <-.
  apply quiet_referral_claim in E3. assert (quiet db db1) as Q1.
  { case_bool_decide; [destruct (ok_or _ _); [|done]; injection E1 as <-; apply quiet_credit_device|].
    case_bool_decide; [|done]. destruct (ok_or _ _); [|done]. destruct (negb _); [|done].
    apply map_err_Ok in E1. by eapply quiet_credit_account. }
  etransitivity; [exact Q1|]. etransitivity; [apply quiet_credit_device|exact E3].
Qed.

Lemma quiet_referral_account cid dv a code now db x db' :
  apply_referral_for_account_tx cid dv a code now db = Ok (x, db') -> quiet db db'.
Proof.
  unfold apply_referral_for_account_tx, referral_sql. intros H. destruct (negb _); [|done].
  destruct (ok_or _ _); [|done]. destruct (ok_or _ _); [|done]. destruct (_ && _); [|done]. cbv zeta in H.
  match type of H with (match ?c with Ok _ => _ | Err _ => _ end) = _ => destruct c as [db1|] eqn:E1; [|done] end.
  destruct (credit_account_wallet_tx a _ _ _ _ _ db1) as [db2|] eqn:E2; [|done]. cbn [map_err] in H.
  destruct (insert_referral_claim _ _ _) as [db3|] eqn:E3; [|done]. injection H as _ <-.
  apply quiet_referral_claim in E3. apply quiet_credit_account in E2. assert (quiet db db1) as Q1.
  { case_bool_decide; [destruct (ok_or _ _); [|done]; injection E1 as <-; apply quiet_credit_device|].
    case_bool_decide; [|done]. destruct (ok_or _ _); [|done].
    apply map_err_Ok in E1. by eapply quiet_credit_account. }
  etransitivity; [exact Q1|]. etransitivity; [exact E2|exact E3].
Qed.

Definition join_cap : Z := WELCOME_BONUS_CREDITS + 2 * REFERRAL_BONUS_CREDITS.

Lemma keeps_join h ref rewards db db' :
  ledger_inv db -> quiet db db' -> join_effect h ref rewards db db' ->
  0 <= welcome_bonus_credits rewards <= WELCOME_BONUS_CREDITS -> keeps join_cap db db'.
Proof.
  intros Hi Q (Hsup & Hsol & _ & Hr) Hw.
  assert (0 <= referral_bonus_credits rewards <= REFERRAL_BONUS_CREDITS).
  { destruct Hr as [[-> _]|[-> _]]; vm_compute; split; congruence. }
  apply (keeps_quiet (welcome_bonus_credits rewards + 2 * referral_bonus_credits rewards));
    [done|done|lia|unfold join_cap; lia|apply Hsol, Hi].
Qed.

#[export] Instance safe_device_join cid now d code :
  LedgerSafeAlways join_cap (fun db => commit (apply_device_join_rewards cid now d code db) db).
Proof.
  intros db Hi. apply keeps_commit; [by vm_compute|done|]. intros rewards db' H.
  pose proof (device_join_Ok _ _ _ _ _ _ _ H) as (Heff & Hw & _).
  apply (keeps_join _ _ _ _ _ Hi) in Heff; [done| |].
  - unfold apply_device_join_rewards in H. cbv zeta in H.
    match type of H with context [if has_welcome_bonus d ?dbx then ?a else ?b] =>
      destruct (if has_welcome_bonus d dbx then a else b) as [w db1] eqn:Ew end.
    assert (quiet db db1) as Q1 by (destruct (has_welcome_bonus d _); injection Ew as _ <-; by apply quiet_tables).
    destruct (normalized_optional_string code); [|by injection H as _ <-].
    destruct (apply_referral_for_device_tx _ _ _ _ _) as [[x db2]|] eqn:Er; [|done]. injection H as _ <-.
    apply quiet_referral_device in Er. by etransitivity.
  - rewrite Hw. destruct (has_welcome_bonus d db); vm_compute; split; congruence.
Qed.

#[export] Instance safe_account_join cid now dv a code :
  LedgerSafeAlways join_cap (fun db => commit (apply_account_join_rewards cid now dv a code db) db).
Proof.
  intros db Hi. apply keeps_commit; [by vm_compute|done|]. intros rewards db' H.
  pose proof (account_join_Ok _ _ _ _ _ _ _ _ H) as (Heff & Hw & _).
  apply (keeps_join _ _ _ _ _ Hi) in Heff; [done| |].
  - unfold apply_account_join_rewards in H.
    match type of H with (match ?c with Ok _ => _ | Err _ => _ end) = _ => destruct c as [[w db1]|] eqn:Ew; [|done] end.
    assert (quiet db db1) as Q1.
    { destruct (account_has_welcome_bonus a db); [by injection Ew as _ <-|].
      destruct (credit_account_wallet_tx _ _ _ _ _ _ _) as [db2|] eqn:E; [|done]. injection Ew as _ <-.
      by eapply quiet_credit_account. }
    destruct (normalized_optional_string code); [|by injection H as _ <-].
    destruct (apply_referral_for_account_tx _ _ _ _ _ _) as [[x db2]|] eqn:Er; [|done]. injection H as _ <-.
    apply quiet_referral_account in Er. by etransitivity.
  - rewrite Hw. destruct (account_has_welcome_bonus a db); vm_compute; split; congruence.
Qed.

#[export] Instance safe_account_bonus now a x dv note : 0 <= x ->
  LedgerSafeAlways x (fun db => commit (record_account_bonus now a x dv note db) db).
Proof.
  intros Hx db Hi. apply keeps_commit; [lia|done|]. intros bal db' H. unfold record_account_bonus in H.
  destruct (credit_account_wallet_tx _ _ _ _ _ _ _) as [db1|] eqn:E; [|done].
  destruct (map_err _ _); [|done]. injection H as _ <-.
  pose proof (credit_account_wallet_Ok _ _ _ _ _ _ _ _ E) as (_ & Hsup & Hsol & _).
  apply (keeps_quiet x); [done|by eapply quiet_credit_account|done|lia|apply Hsol; [done|apply Hi]].
Qed.

Lemma aside_finalize_loop rs now L n db :
  let db' := (foldl (fun '(n, db) s => if still_matching rs s then (n, db)
      else (S n, finalize_availability_session s now db)) (n, db) L).2 in
  account_withdrawals db' = account_withdrawals db /\ paid_out db' = paid_out db /\ deposited db' = deposited db.
Proof.
  revert n db. induction L as [|[d s] L IH]; intros n db; [done|]. cbn [foldl].
  destruct (still_matching rs (d, s)); [apply IH|].
  destruct (IH (S n) (finalize_availability_session (d, s) now db)) as (H1 & H2 & H3). cbv zeta in *.
  split_and!; [etrans; [exact H1|] | etrans; [exact H2|] | etrans; [exact H3|]];
    unfold finalize_availability_session; by destruct (0 <? _).
Qed.

Lemma aside_credit_loop now rs db :
  let db' := foldl (fun db r => credit_available_device now r db) db rs in
  account_withdrawals db' = account_withdrawals db /\ paid_out db' = paid_out db /\ deposited db' = deposited db.
Proof.
  revert db. induction rs as [|r rs IH]; intros db; [done|]. cbn [foldl].
  destruct (IH (credit_available_device now r db)) as (H1 & H2 & H3). cbv zeta in *.
  split_and!; [etrans; [exact H1|] | etrans; [exact H2|] | etrans; [exact H3|]]; done.
Qed.

#[export] Instance safe_reconcile now rs :
  Forall (fun r => 0 <= dr_credits r) rs -> credits_sum rs <= i64_max ->
  LedgerSafeAlways (credits_sum rs) (fun db => commit (reconcile_availability_sessions now rs db) db).
Proof.
  intros HF Hb db Hi. assert (0 <= credits_sum rs) as Hpos by (apply zsum_nonneg; by apply Forall_fmap).
  apply keeps_commit; [done|done|]. intros report db' H.
  pose proof (reconcile_effect _ _ _ _ _ HF Hb (inv_sessions _ Hi) H) as
    (paid & Hpaid & _ & Hsup & _ & Hsol & Hn & _).
  assert (account_withdrawals db' = account_withdrawals db /\ paid_out db' = paid_out db /\
    deposited db' = deposited db) as (F1 & F2 & F3).
  { unfold reconcile_availability_sessions in H.
    destruct (aside_finalize_loop rs now (load_active_availability_sessions db) 0%nat db) as (A1 & A2 & A3).
    fold (finalize_ended now rs db) in A1, A2, A3.
    destruct (finalize_ended now rs db) as [n db1]. cbn [snd] in *. cbv zeta in H.
    destruct (0 <? _).
    - destruct (map_err _ _) as [pool|]; [|done]. destruct (_ <? _); [by injection H as _ <-|].
      injection H as _ <-. destruct (aside_credit_loop now rs (set_mint_pool (Some (mkMintPoolRow
        (mp_total_minted pool) (mp_remaining pool - total_needed rs))) db1)) as (B1 & B2 & B3).
      split_and!; etrans; eassumption.
    - injection H as _ <-. destruct (aside_credit_loop now rs db1) as (B1 & B2 & B3).
      split_and!; etrans; eassumption. }
  destruct Hi as [Hs [W1 W2 W3] _]. split.
  - split; [auto| |done]. split; rewrite F1; done.
  - unfold books, outgoing. rewrite F1, F2, F3. destruct Hpaid as [-> | ->]; lia.
Qed.

(** ** Operations that hold no money *)

#[export] Instance safe_set_username d name : LedgerSafeAlways 0 (set_username d name).
Proof. intros db Hi. by apply keeps_elsewhere. Qed.

#[export] Instance safe_create_challenge now d nonce :
  LedgerSafeAlways 0 (fun db => (create_challenge now d nonce db).2).
Proof. intros db Hi. by apply keeps_elsewhere. Qed.

#[export] Instance safe_consume_challenge now d nonce :
  LedgerSafeAlways 0 (fun db => (consume_challenge now d nonce db).2).
Proof.
  intros db Hi. unfold consume_challenge. cbn [snd].
  destruct (match challenges db !! (d, nonce) with Some _ => _ | None => _ end);
    [by apply keeps_elsewhere | by apply keeps_refl].
Qed.

#[export] Instance safe_issue_token now d token :
  LedgerSafeAlways 0 (fun db => commit (issue_token now d token db) db).
Proof.
  intros db Hi. apply keeps_commit; [lia|done|]. intros t db' H. unfold issue_token in H. cbv zeta in H.
  destruct (negb _); [|done]. destruct (has d _); [|done]. injection H as _ <-. by apply keeps_elsewhere.
Qed.

#[export] Instance safe_upsert_provider now p slug name url wf hdr secret dc zdr q :
  LedgerSafeAlways 0 (fun db => commit_unit (upsert_provider now p slug name url wf hdr secret dc zdr q db) db).
Proof.
  intros db Hi. apply keeps_commit_unit; [lia|done|]. intros db' H. unfold upsert_provider in H.
  case_bool_decide; [|done]. destruct (unique_for _ _ _ _); [|done].
  destruct (match providers db !! p with Some _ => _ | None => _ end).
  injection H as <-. by apply keeps_elsewhere.
Qed.

#[export] Instance safe_set_status now p st : LedgerSafeAlways 0 (set_status now p st).
Proof. intros db Hi. by apply keeps_elsewhere. Qed.

#[export] Instance safe_create_api_key sha key secret now a params :
  LedgerSafeAlways 0 (fun db => commit (create_api_key sha key secret now a params db) db).
Proof.
  intros db Hi. apply keeps_commit; [lia|done|]. intros m db' H. unfold create_api_key in H. cbv zeta in H.
  destruct (negb (negative_limit _)); [|done].
  destruct (match normalized_optional_string _ with Some n => _ | None => _ end); [|done].
  destruct (insert_api_key _ _ _) as [db1|] eqn:E; [|done]. injection H as _ <-.
  apply insert_api_key_Ok in E as (_ & _ & -> & _). by apply keeps_elsewhere.
Qed.

#[export] Instance safe_update_api_key a key params :
  LedgerSafeAlways 0 (fun db => commit (update_api_key a key params db) db).
Proof.
  intros db Hi. apply keeps_commit; [lia|done|]. intros m db' H. unfold update_api_key in H. cbv zeta in H.
  destruct (negb (negative_limit _)); [|done].
  destruct (match ukp_name params with Some (Some n) => _ | _ => _ end); [|done].
  destruct (owned_key a key db); [|done]. cbn [ok_or] in H.
  destruct (get_api_key _ _ _); [|done]. injection H as _ <-.
  destruct (ukp_name params), (ukp_credit_limit params), (ukp_disabled params); by apply keeps_elsewhere.
Qed.

#[export] Instance safe_delete_api_key a key :
  LedgerSafeAlways 0 (fun db => commit_unit (delete_api_key a key db) db).
Proof.
  intros db Hi. apply keeps_commit_unit; [lia|done|]. intros db' H. unfold delete_api_key in H.
  destruct (owned_key a key db); [|done]. injection H as <-. by apply keeps_elsewhere.
Qed.

#[export] Instance safe_account_login now email :
  LedgerSafeAlways 0 (fun db => commit (account_user_id_for_login now email db) db).
Proof.
  intros db Hi. apply keeps_commit; [lia|done|]. intros a db' H. unfold account_user_id_for_login in H.
  destruct (normalize_account_email email); [|done]. cbn [ok_or] in H.
  destruct (select_one _ _) as [[b r]|]; injection H as _ <-; [by apply keeps_refl|].
  destruct (Hi) as [[S1 S2 S3 S4] _ _]. apply (keeps_quiet 0); [done|by apply quiet_tables| |lia|].
  - unfold supply, account_credits. simpl. rewrite map_sum_insert_or_ignore by done.
    unfold device_credits, provider_credits, pool_credits. simpl. lia.
  - split; simpl; [done| |done|done]. by apply map_Forall_insert_or_ignore.
Qed.

#[export] Instance safe_email_code sha id now email code link :
  LedgerSafeAlways 0 (fun db => commit (insert_email_code sha id now email code link db) db).
Proof.
  intros db Hi. apply keeps_commit; [lia|done|]. intros rq db' H. unfold insert_email_code in H.
  destruct (normalize_account_email email); [|done]. cbn [ok_or] in H. cbv zeta in H.
  destruct (match code_for_email _ db with Some _ => _ | None => _ end); [|done].
  destruct (negb _); [|done]. injection H as _ <-. by apply keeps_elsewhere.
Qed.

#[export] Instance safe_verify_code sha now email code :
  LedgerSafeAlways 0 (fun db => (verify_account_email_code sha now email code db).2).
Proof.
  intros db Hi. destruct (verify_account_email_code sha now email code db) as [res db'] eqn:E.
  apply verify_email_code_cases in E as [(_ & _ & ->) | (em & i & r & _ & _ & _ & _ & [(_ & _ & ->) | (_ & _ & ->)])];
    [by apply keeps_refl | by apply keeps_elsewhere ..].
Qed.

#[export] Instance safe_verify_link sha now token :
  LedgerSafeAlways 0 (fun db => commit (verify_account_email_link_token sha now token db) db).
Proof.
  intros db Hi. apply keeps_commit; [lia|done|]. intros v db' H. unfold verify_account_email_link_token in H.
  destruct (newest_code _ _) as [[i r]|]; [|done]. cbn [ok_or] in H. destruct (negb _); [|done].
  injection H as _ <-. by apply keeps_elsewhere.
Qed.

#[export] Instance safe_create_session sha token sid now a dv name :
  LedgerSafeAlways 0 (fun db => commit (create_account_session sha token sid now a dv name db) db).
Proof.
  intros db Hi. apply keeps_commit; [lia|done|]. intros v db' H. unfold create_account_session in H.
  cbv zeta in H. destruct (_ && _); [|done]. injection H as _ <-. by apply keeps_elsewhere.
Qed.

#[export] Instance safe_resolve_session sha now token :
  LedgerSafeAlways 0 (fun db => (resolve_account_session sha now token db).2).
Proof.
  intros db Hi. unfold resolve_account_session. destruct (negb _); [by apply keeps_refl|].
  destruct (live_session sha token db) as [[sid r]|]; [|by apply keeps_refl].
  destruct (ase_expires_at r <? now); [by apply keeps_refl|]. by apply keeps_elsewhere.
Qed.

#[export] Instance safe_revoke_session sha now token :
  LedgerSafeAlways 0 (fun db => (revoke_account_session sha now token db).2).
Proof. intros db Hi. by apply keeps_elsewhere. Qed.

(** ** The machine *)

(** One constructor per entry point that writes the database; the clock, the
    drawn identifiers, the hash function and the request are its arguments.
    The two maintenance entry points that rewrite history are not operations:
    [reset_genesis] is a step of its own of [reachable], and the startup
    [backfill_funded_share_key_contributions], which gives pools to keys older
    than the pools, is the subject of [Backfill]. *)
Inductive LedgerOp : Type :=
| OpUpsertDevice (now : Z) (d : string)
| OpAdminMint (now : Z) (d : string) (x : Z) (note : string)
| OpBonus (now : Z) (d : string) (x : Z)
| OpAccountBonus (now : Z) (a : string) (x : Z) (dv : option string) (note : string)
| OpDeviceJoin (claim : string) (now : Z) (d : string) (code : option string)
| OpAccountJoin (claim : string) (now : Z) (dv a : string) (code : option string)
| OpReferralCode (code : string) (now : Z) (d : string)
| OpDrip (now : Z) (rs : list DripRecipient)
| OpMintShareKey (ids : MintIds) (now : Z) (issuer : string) (label : option string) (ttl budget : Z)
| OpFundShareKey (cid : string) (now : Z) (sender fid : string) (x : Z)
| OpRevokeShareKey (now : Z) (issuer key : string)
| OpExpireShareKeys (now : Z)
| OpMigrateShareKeys (nf nc : string -> string) (now : Z)
| OpSettle (now : Z) (c : ConsumerPrincipal) (provider : string) (online : list string) (cost : Z)
    (rid model : string)
| OpSettleProvider (now : Z) (c : ConsumerPrincipal) (pid : string) (cost : Z) (rid model : string)
| OpProviderPayout (now : Z) (pid : string) (x : Z) (dest : option string)
| OpLinkDevice (now : Z) (d a : string) (md : AccountLinkMetadata)
| OpTransferDevice (now : Z) (d raw : string) (x : Z) (memo : option string)
| OpTransferAccount (now : Z) (dv raw : string) (x : Z) (memo : option string)
| OpSweep (now : Z) (req tgt : string)
| OpRemoveDevice (req tgt : string)
| OpOnchainDeposit (did : string) (now : Z) (dv : string) (req : AccountOnchainDepositIntent)
| OpTreasuryDeposit (did : string) (now : Z) (dv sig : string) (usdc : Z) (src : option string)
    (addr : string)
| OpSubmitWithdrawal (wid : string) (now : Z) (dv : string) (req : AccountWithdrawalRequest)
| OpCompleteWithdrawal (now : Z) (req sig : string)
| OpRejectWithdrawal (now : Z) (req : string) (reason : option string)
| OpTransferAccountFor (now : Z) (a raw : string) (x : Z) (memo actor : option string)
| OpSetUsername (d name : string)
| OpCreateChallenge (now : Z) (d nonce : string)
| OpConsumeChallenge (now : Z) (d nonce : string)
| OpIssueToken (now : Z) (d token : string)
| OpUpsertProvider (now : Z) (p slug name url : string) (wf : ProviderWireFormat)
    (hdr secret dc : string) (zdr : bool) (q : option string)
| OpSetProviderStatus (now : Z) (p : string) (st : ProviderStatus)
| OpCreateApiKey (sha : string -> string) (key secret : string) (now : Z) (a : string)
    (params : CreateApiKeyParams)
| OpUpdateApiKey (a key : string) (params : UpdateApiKeyParams)
| OpDeleteApiKey (a key : string)
| OpTouchApiKey (now : Z) (key : string)
| OpAccountLogin (now : Z) (email : string)
| OpEmailCode (sha : string -> string) (id : string) (now : Z) (email code : string)
| OpEmailLoginCode (sha : string -> string) (id : string) (now : Z) (email code link : string)
| OpVerifyEmailCode (sha : string -> string) (now : Z) (email code : string)
| OpVerifyEmailLink (sha : string -> string) (now : Z) (token : string)
| OpCreateSession (sha : string -> string) (token sid : string) (now : Z) (a : string)
    (dv name : option string)
| OpResolveSession (sha : string -> string) (now : Z) (token : string)
| OpRevokeSession (sha : string -> string) (now : Z) (token : string).

(** A failed operation leaves the database as it was. *)
Definition apply_op (op : LedgerOp) (db : Db) : Db :=
  match op with
  | OpUpsertDevice now d => (upsert_device now d db).2
  | OpAdminMint now d x note => commit (admin_mint now d x note db) db
  | OpBonus now d x => commit (record_bonus now d x db) db
  | OpAccountBonus now a x dv note => commit (record_account_bonus now a x dv note db) db
  | OpDeviceJoin claim now d code => commit (apply_device_join_rewards claim now d code db) db
  | OpAccountJoin claim now dv a code => commit (apply_account_join_rewards claim now dv a code db) db
  | OpReferralCode code now d => commit (referral_code_for_device code now d db) db
  | OpDrip now rs => commit (reconcile_availability_sessions now rs db) db
  | OpMintShareKey ids now issuer label ttl budget =>
      commit (mint_share_key ids now issuer label ttl budget db) db
  | OpFundShareKey cid now sender fid x => commit (transfer_to_share_key cid now sender fid x db) db
  | OpRevokeShareKey now issuer key => (revoke_share_key now issuer key db).2
  | OpExpireShareKeys now => (refund_expired_share_keys now db).2
  | OpMigrateShareKeys nf nc now => commit (migrate_unfunded_share_keys nf nc now db) db
  | OpSettle now c provider online cost rid model =>
      commit_unit (settle_request now c (Some provider) online cost rid model db) db
  | OpSettleProvider now c pid cost rid model =>
      commit_unit (settle_provider_request now c pid cost rid model db) db
  | OpProviderPayout now pid x dest => commit_unit (record_provider_payout now pid x dest db) db
  | OpLinkDevice now d a md => default db (link_device_to_account now d a md db)
  | OpTransferDevice now d raw x memo => commit (transfer_from_device_wallet now d raw x memo db) db
  | OpTransferAccount now dv raw x memo => commit (transfer_from_account_wallet now dv raw x memo db) db
  | OpSweep now req tgt => commit (sweep_device_to_account now req tgt db) db
  | OpRemoveDevice req tgt => commit (remove_device_from_account req tgt db) db
  | OpOnchainDeposit did now dv req => commit (record_account_onchain_deposit did now dv req db) db
  | OpTreasuryDeposit did now dv sig usdc src addr =>
      commit (record_account_treasury_deposit did now dv sig usdc src addr db) db
  | OpSubmitWithdrawal wid now dv req => commit (submit_account_withdrawal wid now dv req db) db
  | OpCompleteWithdrawal now req sig =>
      commit (complete_account_withdrawal_from_treasury now req sig db) db
  | OpRejectWithdrawal now req reason => commit (reject_account_withdrawal now req reason db) db
  | OpTransferAccountFor now a raw x memo actor =>
      commit (transfer_from_account_wallet_for_account now a raw x memo actor db) db
  | OpSetUsername d name => set_username d name db
  | OpCreateChallenge now d nonce => (create_challenge now d nonce db).2
  | OpConsumeChallenge now d nonce => (consume_challenge now d nonce db).2
  | OpIssueToken now d token => commit (issue_token now d token db) db
  | OpUpsertProvider now p slug name url wf hdr secret dc zdr q =>
      commit_unit (upsert_provider now p slug name url wf hdr secret dc zdr q db) db
  | OpSetProviderStatus now p st => set_status now p st db
  | OpCreateApiKey sha key secret now a params =>
      commit (create_api_key sha key secret now a params db) db
  | OpUpdateApiKey a key params => commit (update_api_key a key params db) db
  | OpDeleteApiKey a key => commit_unit (delete_api_key a key db) db
  | OpTouchApiKey now key => touch_last_used now key db
  | OpAccountLogin now email => commit (account_user_id_for_login now email db) db
  | OpEmailCode sha id now email code => commit (create_account_email_code sha id now email code db) db
  | OpEmailLoginCode sha id now email code link =>
      commit (create_account_email_login_code sha id now email code link db) db
  | OpVerifyEmailCode sha now email code => (verify_account_email_code sha now email code db).2
  | OpVerifyEmailLink sha now token => commit (verify_account_email_link_token sha now token db) db
  | OpCreateSession sha token sid now a dv name =>
      commit (create_account_session sha token sid now a dv name db) db
  | OpResolveSession sha now token => (resolve_account_session sha now token db).2
  | OpRevokeSession sha now token => (revoke_account_session sha now token db).2
  end.

(** What an operation may issue at most. *)
Definition issue_cap (op : LedgerOp) : Z :=
  match op with
  | OpAdminMint _ _ x _ => Z.max x 0
  | OpBonus _ _ x | OpAccountBonus _ _ x _ _ => x
  | OpDeviceJoin _ _ _ _ | OpAccountJoin _ _ _ _ _ => join_cap
  | OpDrip _ rs => credits_sum rs
  | _ => 0
  end.

(** What the callers guarantee about the arguments. *)
Definition op_ok (op : LedgerOp) : Prop :=
  match op with
  | OpBonus _ _ x | OpAccountBonus _ _ x _ _ => 0 <= x
  | OpDrip _ rs => Forall (fun r => 0 <= dr_credits r) rs /\ credits_sum rs <= i64_max
  | _ => True
  end.

#[export] Instance op_ok_dec op : Decision (op_ok op).
Proof. destruct op; simpl; apply _. Defined.

Definition settles (op : LedgerOp) : bool :=
  match op with OpSettle _ _ _ _ _ _ _ | OpSettleProvider _ _ _ _ _ _ => true | _ => false end.
Lemma op_safe_always op : op_ok op -> settles op = false -> LedgerSafeAlways (issue_cap op) (apply_op op).
Proof.
  destruct op; cbn [op_ok issue_cap apply_op settles]; intros Hok Hs; try discriminate Hs; try apply _.
  - by apply safe_record_bonus.
  - by apply safe_account_bonus.
  - destruct Hok. by apply safe_reconcile.
  - intros db Hi. by apply keeps_elsewhere.
Qed.
Lemma op_safe op : op_ok op -> LedgerSafe (issue_cap op) (apply_op op).
Proof.
  intros Hok. destruct (settles op) eqn:Hs; [|by apply always_safe, op_safe_always].
  destruct op; try discriminate Hs; cbn [issue_cap apply_op]; apply _.
Qed.

(** A settlement multiplies costs by percentages: it needs the credits in
    circulation to be below a hundredth of the [i64] range. *)
Definition op_fits (op : LedgerOp) (db : Db) : Prop := settles op = true -> circulation_bounded db.
Lemma op_keeps op db : op_ok op -> op_fits op db -> ledger_inv db -> keeps (issue_cap op) db (apply_op op db).
Proof.
  intros Hok Hf Hi. destruct (settles op) eqn:Hs; [by apply op_safe, Hf|by apply op_safe_always].
Qed.

(** What a genesis reset leaves on the books: the provider wallets and their
    payouts are the only money it spares. *)
Definition residue (db : Db) : Z := provider_credits db + paid_out db.

Lemma reset_genesis_spares db rep db' : reset_genesis db = Ok (rep, db') ->
  provider_wallets db' = provider_wallets db /\ balances db' = ∅ /\ account_wallets db' = ∅ /\
  share_key_contributions db' = ∅ /\ account_withdrawals db' = ∅ /\
  account_onchain_deposits db' = ∅ /\ availability_sessions db' = ∅ /\
  ledger db' = [] /\ ledger_seq db' = 0.
Proof. unfold reset_genesis. cbv zeta. case_bool_decide; [|done]. by intros [= _ <-]. Qed.

Lemma reset_genesis_keeps db rep db' : reset_genesis db = Ok (rep, db') -> ledger_inv db ->
  ledger_inv db' /\ supply db' = provider_credits db /\ books db' = residue db.
Proof.
  intros (Ep & Eb & Ea & Ec & Ew & Ed & Es & _)%reset_genesis_spares [[_ _ Hp _] _ _].
  assert (supply db' = provider_credits db) as Hs.
  { unfold supply, device_credits, account_credits, pool_credits, provider_credits.
    rewrite Ep, Eb, Ea, Ec, !map_sum_empty. lia. }
  split_and!; [|done|].
  - split.
    + split; rewrite ?Eb, ?Ea, ?Ep, ?Ec; try apply map_Forall_empty. exact Hp.
    + by apply no_withdrawals_wf.
    + unfold sessions_nonneg. rewrite Es. apply map_Forall_empty.
  - unfold books, outgoing, deposited, paid_out, residue. rewrite Hs, Ew, Ed, Ep, !map_sum_empty. fold (paid_out db). lia.
Qed.

(** The databases a gateway can reach from a fresh one, by any operations and
    resets: what the last reset left on the books, zero before the first, and
    what was allowed to be issued since. *)
Inductive reachable : Z -> Z -> Db -> Prop :=
| reach_genesis : reachable 0 0 genesis
| reach_op kept issued op db :
    reachable kept issued db -> op_ok op -> op_fits op db ->
    reachable kept (issued + issue_cap op) (apply_op op db)
| reach_reset kept issued db rep db' :
    reachable kept issued db -> reset_genesis db = Ok (rep, db') -> reachable (residue db) 0 db'.

Lemma genesis_inv : ledger_inv genesis.
Proof.
  split; [apply (bool_decide_unpack _); vm_compute; exact I| |].
  - by apply no_withdrawals_wf.
  - by apply map_Forall_empty.
Qed.

Lemma reachable_keeps kept issued db : reachable kept issued db ->
  ledger_inv db /\ kept <= books db <= kept + issued.
Proof.
  induction 1 as [|kept issued op db _ [Hi Hb] Hok Hf|kept issued db rep db' _ [Hi _] Hr].
  - split; [apply genesis_inv|]. vm_compute. split; congruence.
  - destruct (op_keeps op db Hok Hf Hi) as [Hi' Hb']. split; [done|lia].
  - destruct (reset_genesis_keeps _ _ _ Hr Hi) as (Hi' & _ & Hb). split; [done|lia].
Qed.

(** ** Claims *)

(** C1: in every database that ledger operations and genesis resets, in any
    order and number, succeeding or failing, reach from a fresh one, no wallet,
    share-key pool or provider wallet is overdrawn, the withdrawal table is
    well-formed, and the credits that circulate, were withdrawn or were paid
    out are those that were deposited, plus at most what operators and bonuses
    issued since the last reset, plus exactly what that reset left with the
    providers: nothing is created by settling, transferring, funding, refunding
    or sweeping.  A settlement counts as a step only while the credits in
    circulation are below a hundredth of the [i64] range, since it multiplies
    them by percentages; bonuses and the amounts of the drip are not negative,
    and those of one tick add up to an [i64]. *)
Theorem reachable_ledger_sound kept issued db :
  reachable kept issued db ->
  solvent db /\ withdrawals_wf db /\ (forall h, 0 <= holding h db) /\
  (forall key, 0 <= sum_share_key_contributions_tx key db) /\
  deposited db + kept <= supply db + outgoing db + paid_out db <= deposited db + kept + issued.
Proof.
  intros H. apply reachable_keeps in H as [[Hs Hw _] Hb]. split; [done|]. split; [done|].
  split; [intros [d|a]; [apply (balance_le_supply d _ Hs)|apply (account_balance_le_supply a _ Hs)]|].
  split; [intros key; apply (pool_sum_le_supply key _ Hs)|]. unfold books in Hb. lia.
Qed.

(** A day of trade, and one after a reset: the provider keeps its 35 credits
    and the payout of 60. *)
Definition demo_trace : list LedgerOp :=
  [OpAdminMint 1 "alice" 1000 "seed"; OpLinkDevice 2 "alice" ann no_metadata;
   OpSweep 3 "alice" "alice"; OpTransferAccount 4 "alice" "device:alice" 300 None;
   OpSettle 5 (Device "alice") "bob" ["bob"; "carol"] 200 "req" "m";
   OpUpsertProvider 6 "acme" "acme" "Acme" "https://acme.example" Openai "Authorization" "ACME_KEY"
     "deny" true None;
   OpCreateApiKey id "key" "secret" 7 ann (mkCreateApiKeyParams None None (Some 500));
   OpSettleProvider 8 (Account ann (Some "key")) "acme" 100 "req2" "m"; OpProviderPayout 9 "acme" 60 None].
Definition demo_day : Db := foldl (fun db op => apply_op op db) genesis demo_trace.
Definition demo_next_day : Db :=
  apply_op (OpAdminMint 11 "alice" 500 "seed") (commit (reset_genesis demo_day) demo_day).

Lemma reachable_ledger_sound_witness :
  supply demo_day + outgoing demo_day + paid_out demo_day - deposited demo_day = 1000 /\
  reachable 95 500 demo_next_day /\ solvent demo_next_day /\
  provider_balance_of "acme" demo_next_day = 35.
Proof.
  assert (exists issued, reachable 0 issued demo_day) as [issued H].
  { unfold demo_day, demo_trace. cbn [foldl]. eexists.
    do 9 (apply reach_op; [|apply (bool_decide_unpack _); vm_compute; exact I|intros _; vm_compute; congruence]).
    apply reach_genesis. }
  assert (reachable 95 500 demo_next_day) as H'.
  { destruct (reset_genesis demo_day) as [[rep db']|] eqn:E; [|exfalso; vm_compute in E; discriminate].
    unfold demo_next_day. rewrite E. change 500 with (0 + issue_cap (OpAdminMint 11 "alice" 500 "seed")).
    apply reach_op; [|exact I|done]. change 95 with (residue demo_day) at 1.
    by apply (reach_reset 0 issued demo_day rep). }
  split; [vm_compute; reflexivity|]. split; [exact H'|].
  split; [exact (proj1 (reachable_ledger_sound _ _ _ H'))|]. vm_compute. reflexivity.
Defined.

(** C6: an operation that issues nothing conserves the books exactly, whether
    it succeeds or fails: what the wallets and pools lose or gain is what the
    deposits, withdrawals and provider payouts record.  (A settlement is run
    while the credits in circulation are below a hundredth of the [i64]
    range, and the drip with amounts that are not negative and fit.)  A genesis
    reset is the one thing that writes credits off: it leaves the wallets of the
    providers and what they were paid, and nothing else, on the books. *)
Theorem internal_operations_conserve kept issued op db :
  reachable kept issued db -> op_ok op -> op_fits op db -> issue_cap op = 0 ->
  supply (apply_op op db) + outgoing (apply_op op db) + paid_out (apply_op op db) - deposited (apply_op op db) =
  supply db + outgoing db + paid_out db - deposited db /\
  forall rep db', reset_genesis db = Ok (rep, db') ->
    supply db' + outgoing db' + paid_out db' - deposited db' = provider_credits db + paid_out db.
Proof.
  intros Hr Hok Hf Hcap. apply reachable_keeps in Hr as [Hi _]. split.
  - destruct (op_keeps op db Hok Hf Hi) as [_ Hb]. rewrite Hcap in Hb. unfold books in Hb. lia.
  - intros rep db' Hr. by destruct (reset_genesis_keeps _ _ _ Hr Hi) as (_ & _ & Hb).
Qed.

Lemma internal_operations_conserve_witness :
  let db := apply_op (OpAdminMint 1 "alice" 1000 "seed") genesis in
  let op := OpSettle 5 (Device "alice") "bob" ["bob"; "carol"] 200 "req" "m" in
  supply (apply_op op db) + outgoing (apply_op op db) + paid_out (apply_op op db) - deposited (apply_op op db) =
  supply db + outgoing db + paid_out db - deposited db.
Proof.
  cbv zeta. refine (proj1 (internal_operations_conserve 0 (0 + 1000)
    (OpSettle 5 (Device "alice") "bob" ["bob"; "carol"] 200 "req" "m")
    (apply_op (OpAdminMint 1 "alice" 1000 "seed") genesis) _ _ _ _)).
  - apply (reach_op 0 0 (OpAdminMint 1 "alice" 1000 "seed")); [apply reach_genesis|exact I|done].
  - exact I.
  - intros _. vm_compute. congruence.
  - reflexivity.
Defined.
