(* ===== verification/AppendOnly.v ===== *)
(** * The ledger is append-only

    [gateway/src/anchoring.rs] hashes the rows of the [ledger] table on the
    promise that the money path only ever inserts into it.  This file proves
    the promise: every operation of the machine of [LedgerSystem] extends the
    table at its end, with ids that follow on without a gap; only a genesis
    reset takes rows away, all of them. *)

From S2P Require Import Prelude Db RustStr Wallet ShareKeys Settlement Accounts Providers ApiKeys.
From S2P Require Import Fixtures ShareKeysFacts SettlementFacts AccountsFacts Onchain OnchainFacts.
From S2P Require Import Availability Referrals Sessions LedgerSystem.

Open Scope string_scope.
Open Scope Z_scope.

(** [db'] has the rows of [db], then new ones numbered from the next id on. *)
Definition appends (db db' : Db) : Prop :=
  exists rows, ledger db' = (ledger db ++ rows)%list /\
    led_id <$> rows = seqZ (ledger_seq db + 1) (Z.of_nat (length rows)) /\
    ledger_seq db' = ledger_seq db + Z.of_nat (length rows).

Lemma appends_same db0 db db' :
  ledger db' = ledger db -> ledger_seq db' = ledger_seq db -> appends db0 db -> appends db0 db'.
Proof. intros H1 H2 (rows & ?). exists rows. by rewrite H1, H2. Qed.

Lemma appends_refl db : appends db db.
Proof. exists []. rewrite app_nil_r. split_and!; [done|done|simpl; lia]. Qed.

Lemma appends_trans db1 db2 db3 : appends db1 db2 -> appends db2 db3 -> appends db1 db3.
Proof.
  intros (r1 & H1 & I1 & S1) (r2 & H2 & I2 & S2). exists (r1 ++ r2)%list.
  rewrite H2, H1, (assoc_L app), length_app, Nat2Z.inj_add. split_and!; [done| |lia].
  rewrite fmap_app, I1, I2, S1, seqZ_app by lia. f_equal. f_equal. lia.
Qed.

#[export] Instance appends_preorder : PreOrder appends.
Proof. split; [exact appends_refl | exact appends_trans]. Qed.

Lemma appends_insert_ledger d ty x ts ref note db0 db :
  appends db0 db -> appends db0 (insert_ledger d ty x ts ref note db).
Proof.
  intros H. eapply appends_trans; [exact H|]. eexists [_]. split_and!; [done|done|done].
Qed.

(** ** Calls

    The interface between an operation and the functions it calls: what a call
    returns extends the ledger of the database [db] it was given.  A goal
    [appends db0 X] is followed through the body of [X]: case distinctions are
    made, statements on other tables are dropped, and the database a call
    returned is traced to the one it was given. *)

Class Appends (db db' : Db) : Prop := appends_fn : appends db db'.
Class AppendsUnit {E} (db : Db) (r : result E Db) : Prop :=
  appends_unit : forall db', r = Ok db' -> appends db db'.
Class AppendsRes {E A} (db : Db) (r : result E (A * Db)) : Prop :=
  appends_res : forall a db', r = Ok (a, db') -> appends db db'.
#[export] Hint Mode Appends - ! : typeclass_instances.
#[export] Hint Mode AppendsUnit - - ! : typeclass_instances.
#[export] Hint Mode AppendsRes - - - ! : typeclass_instances.

Ltac appends_scrutinee c :=
  lazymatch c with
  | match ?c' with _ => _ end => appends_scrutinee c'
  | map_err _ ?c' => appends_scrutinee c'
  | onchain_sql ?c' => appends_scrutinee c'
  | referral_sql ?c' => appends_scrutinee c'
  | _ => destruct c eqn:?
  end.

Ltac appends_step :=
  cbv beta iota zeta; cbn [map_err onchain_sql referral_sql fst snd];
  lazymatch goal with
  | |- appends ?d ?d => exact (appends_refl d)
  | |- appends _ (match ?c with _ => _ end) => appends_scrutinee c
  | |- appends _ (snd (match ?c with _ => _ end)) => appends_scrutinee c
  | |- appends _ (insert_ledger _ _ _ _ _ _ _) => apply appends_insert_ledger
  | H : ?c = Ok ?x |- appends _ ?x => eapply appends_trans; [|exact (appends_unit x H)]; clear H
  | H : ?c = Ok (_, ?x) |- appends _ ?x => eapply appends_trans; [|exact (appends_res _ x H)]; clear H
  | |- appends _ (?f ?d) => first
      [ simple apply (appends_same _ d); [reflexivity|reflexivity|]
      | eapply appends_trans; [|apply appends_fn] ]
  end.

Ltac appends_crush := repeat (appends_step; try discriminate; subst).

Lemma appends_commit_unit {E} db (r : result E Db) : appends db (commit_unit r db) -> AppendsUnit db r.
Proof. intros H db' ->. exact H. Qed.
Lemma appends_commit {E A} db (r : result E (A * Db)) : appends db (commit r db) -> AppendsRes db r.
Proof. intros H a db' ->. exact H. Qed.

(** [follow f]: an instance for [f] by following its body. *)
Tactic Notation "follow" reference(f) :=
  intros;
  lazymatch goal with
  | |- AppendsUnit _ _ => apply appends_commit_unit
  | |- AppendsRes _ _ => apply appends_commit
  | |- Appends _ _ => unfold Appends
  end;
  unfold f, commit, commit_unit; appends_crush.

#[export] Instance appends_insert_account_ledger a asset x ty ts dv note key db :
  AppendsUnit db (insert_account_ledger a asset x ty ts dv note key db).
Proof. follow insert_account_ledger. Qed.
#[export] Instance appends_insert_contribution c r db : AppendsUnit db (insert_contribution c r db).
Proof. follow insert_contribution. Qed.
#[export] Instance appends_contribution_tx cid key d x y t ra rr db :
  AppendsUnit db (insert_share_key_contribution_tx cid key d x y t ra rr db).
Proof. follow insert_share_key_contribution_tx. Qed.
#[export] Instance appends_insert_share_key k r db : AppendsUnit db (insert_share_key k r db).
Proof. follow insert_share_key. Qed.
#[export] Instance appends_update_share_key_checked f k db : AppendsUnit db (update_share_key_checked f k db).
Proof. follow update_share_key_checked. Qed.


Lemma appends_foldl {A} (f : Db -> A -> Db) l db0 db :
  (forall a db, appends db (f db a)) -> appends db0 db -> appends db0 (foldl f db l).
Proof.
  intros Hf. revert db. induction l as [|a l IH]; intros db H; [done|]. apply IH.
  eapply appends_trans; [exact H|apply Hf].
Qed.

Lemma appends_foldl_acc {A B} (f : B * Db -> A -> B * Db) l acc :
  (forall a acc, appends acc.2 (f acc a).2) -> appends acc.2 (foldl f acc l).2.
Proof.
  intros Hf. revert acc. induction l as [|a l IH]; intros acc; [apply appends_refl|].
  eapply appends_trans; [apply Hf|apply IH].
Qed.

(** *** Share keys *)

#[export] Instance appends_funding_id nid k o db : AppendsRes db (ensure_share_key_funding_id_tx nid k o db).
Proof. follow ensure_share_key_funding_id_tx. Qed.
#[export] Instance appends_mint ids now issuer label ttl budget db :
  AppendsRes db (mint_share_key ids now issuer label ttl budget db).
Proof. follow mint_share_key. Qed.
#[export] Instance appends_fund cid now sender fid x db :
  AppendsRes db (transfer_to_share_key cid now sender fid x db).
Proof. follow transfer_to_share_key. Qed.
#[export] Instance appends_refund key t reason db :
  Appends db (refund_share_key_contributions_tx key t reason db).2.
Proof.
  unfold Appends, refund_share_key_contributions_tx.
  match goal with |- appends _ (foldl ?f ?a ?l).2 => apply (appends_foldl_acc f l a) end.
  intros [c row] [[n x] d]. unfold refund_one. appends_crush.
Qed.
#[export] Instance appends_revoke now issuer key db : Appends db (revoke_share_key now issuer key db).2.
Proof. follow revoke_share_key. Qed.
#[export] Instance appends_refund_expired now db : Appends db (refund_expired_share_keys now db).2.
Proof.
  unfold Appends, refund_expired_share_keys.
  match goal with |- appends _ (foldl ?f ?a ?l).2 => apply (appends_foldl_acc f l a) end.
  intros k [rep d]. unfold close_expired_key.
  destruct (refund_share_key_contributions_tx k now "expired" d) as [[n x] d'] eqn:E. simpl.
  apply (appends_same _ d'); [done..|]. change d' with (n, x, d').2. rewrite <-E. apply appends_refund.
Qed.
#[export] Instance appends_migrate_one nf nc now row rep db :
  AppendsRes db (migrate_one nf nc now row (rep, db)).
Proof. follow migrate_one. Qed.
#[export] Instance appends_migrate nf nc now db : AppendsRes db (migrate_unfunded_share_keys nf nc now db).
Proof.
  intros rep db' H. unfold migrate_unfunded_share_keys in H.
  apply (fold_res_ind _ (fun acc => appends db acc.2)) in H; [done| |apply appends_refl].
  intros row [rep1 db1] [rep2 db2] _ E Ha. simpl in *. eapply appends_trans; [exact Ha|].
  by apply appends_res in E.
Qed.

(** *** Settlement *)

#[export] Instance appends_pro_rata key x db : Appends db (apply_pro_rata_share_key_spend_tx key x db).
Proof.
  follow apply_pro_rata_share_key_spend_tx. apply appends_foldl; [|apply appends_refl].
  intros [c r] d. unfold take_reduction. appends_crush.
Qed.
#[export] Instance appends_debit c funded d x db : Appends db (debit_device_side c funded d x db).
Proof. follow debit_device_side. Qed.
#[export] Instance appends_earn d ty x now rid note db : Appends db (earn d ty x now rid note db).
Proof. follow earn. Qed.
#[export] Instance appends_pay_ops x now rid note db : Appends db (pay_ops x now rid note db).
Proof. follow pay_ops. Qed.
#[export] Instance appends_distribute sp p rs now rid note db : Appends db (distribute sp p rs now rid note db).
Proof.
  follow distribute. all: apply appends_foldl; [intros; apply appends_earn|appends_crush].
Qed.
#[export] Instance appends_settle_account now a k p online cost rid model db :
  AppendsUnit db (settle_request_account now a k p online cost rid model db).
Proof. follow settle_request_account. Qed.
#[export] Instance appends_settle now c p online cost rid model db :
  AppendsUnit db (settle_request now c p online cost rid model db).
Proof. follow settle_request. Qed.
#[export] Instance appends_ensure_provider now p db : AppendsUnit db (ensure_provider_wallet now p db).
Proof. follow ensure_provider_wallet. Qed.
#[export] Instance appends_provider_ledger p ty x ts ref model note db :
  AppendsUnit db (insert_provider_ledger p ty x ts ref model note db).
Proof. follow insert_provider_ledger. Qed.
#[export] Instance appends_settle_provider now c pid cost rid model db :
  AppendsUnit db (settle_provider_request now c pid cost rid model db).
Proof. follow settle_provider_request. Qed.
#[export] Instance appends_payout now pid x dest db : AppendsUnit db (record_provider_payout now pid x dest db).
Proof. follow record_provider_payout. Qed.

(** *** Accounts and on-chain operations *)

#[export] Instance appends_credit_recipient now x t actor note db :
  AppendsUnit db (credit_recipient now x t actor note db).
Proof. follow credit_recipient. Qed.
#[export] Instance appends_transfer_device now d raw x memo db :
  AppendsRes db (transfer_from_device_wallet now d raw x memo db).
Proof. follow transfer_from_device_wallet. Qed.
#[export] Instance appends_transfer_account_for now a raw x memo actor db :
  AppendsRes db (transfer_from_account_wallet_for_account now a raw x memo actor db).
Proof. follow transfer_from_account_wallet_for_account. Qed.
#[export] Instance appends_transfer_account now dv raw x memo db :
  AppendsRes db (transfer_from_account_wallet now dv raw x memo db).
Proof. follow transfer_from_account_wallet. Qed.
#[export] Instance appends_sweep now req tgt db : AppendsRes db (sweep_device_to_account now req tgt db).
Proof. follow sweep_device_to_account. Qed.
#[export] Instance appends_remove req tgt db : AppendsRes db (remove_device_from_account req tgt db).
Proof. follow remove_device_from_account. Qed.
#[export] Instance appends_insert_deposit i r db : AppendsUnit db (insert_deposit i r db).
Proof. follow insert_deposit. Qed.
#[export] Instance appends_credit_deposit did a sig addr src usdc cr now dv n1 n2 db :
  AppendsUnit db (credit_deposit did a sig addr src usdc cr now dv n1 n2 db).
Proof. follow credit_deposit. Qed.
#[export] Instance appends_deposit did now dv req db :
  AppendsRes db (record_account_onchain_deposit did now dv req db).
Proof. follow record_account_onchain_deposit. Qed.
#[export] Instance appends_treasury did now dv sig usdc src addr db :
  AppendsRes db (record_account_treasury_deposit did now dv sig usdc src addr db).
Proof. follow record_account_treasury_deposit. Qed.
#[export] Instance appends_insert_withdrawal i r db : AppendsUnit db (insert_withdrawal i r db).
Proof. follow insert_withdrawal. Qed.
#[export] Instance appends_submit_withdrawals req sig now db :
  AppendsUnit db (submit_withdrawals req sig now db).
Proof. follow submit_withdrawals. Qed.
#[export] Instance appends_finish a req sig usdc cr now dv n1 n2 db :
  AppendsUnit db (finish_withdrawal a req sig usdc cr now dv n1 n2 db).
Proof. follow finish_withdrawal. Qed.
#[export] Instance appends_reread req db : AppendsRes db (reread_withdrawal req db).
Proof. follow reread_withdrawal. Qed.
#[export] Instance appends_hold now a dv req usdc cr st db :
  AppendsUnit db (hold_withdrawal now a dv req usdc cr st db).
Proof. follow hold_withdrawal. Qed.
#[export] Instance appends_settle_withdrawal now a dv req dest sig usdc cr rsv st db :
  AppendsUnit db (settle_withdrawal now a dv req dest sig usdc cr rsv st db).
Proof. follow settle_withdrawal. Qed.
#[export] Instance appends_complete now req sig db :
  AppendsRes db (complete_account_withdrawal_from_treasury now req sig db).
Proof. follow complete_account_withdrawal_from_treasury. Qed.
#[export] Instance appends_reject now req reason db : AppendsRes db (reject_account_withdrawal now req reason db).
Proof. follow reject_account_withdrawal. Qed.
Lemma appends_request_row wid now a req dest usdc cr sig db rsv db' :
  withdrawal_request_row wid now a req dest usdc cr sig db = Ok (GoOn rsv db') -> appends db db'.
Proof.
  unfold withdrawal_request_row, onchain_sql. destruct (withdrawal_by_request req db) as [[w r]|].
  - repeat case_bool_decide; try done; destruct sig; try done; by intros [= _ <-].
  - destruct (insert_withdrawal _ _ _) as [d|] eqn:E; [|done]. intros [= _ <-]. by apply appends_unit in E.
Qed.
#[export] Instance appends_submit wid now dv req db : AppendsRes db (submit_account_withdrawal wid now dv req db).
Proof.
  follow submit_account_withdrawal.
  all: by eapply appends_request_row.
Qed.

(** *** Bonuses, drip, referrals *)

#[export] Instance appends_upsert_device now d db : Appends db (upsert_device now d db).2.
Proof. follow upsert_device. Qed.
#[export] Instance appends_admin_mint now d x note db : AppendsRes db (admin_mint now d x note db).
Proof. follow admin_mint. Qed.
#[export] Instance appends_bonus now d x db : AppendsRes db (record_bonus now d x db).
Proof. follow record_bonus. Qed.
#[export] Instance appends_issue_token now d t db : AppendsRes db (issue_token now d t db).
Proof. follow issue_token. Qed.
#[export] Instance appends_credit_device d x ty note now db : Appends db (credit_device_wallet_tx d x ty note now db).
Proof. follow credit_device_wallet_tx. Qed.
#[export] Instance appends_credit_account a x ty dv note now db :
  AppendsUnit db (credit_account_wallet_tx a x ty dv note now db).
Proof. follow credit_account_wallet_tx. Qed.
#[export] Instance appends_account_bonus now a x dv note db : AppendsRes db (record_account_bonus now a x dv note db).
Proof. follow record_account_bonus. Qed.
#[export] Instance appends_insert_code code r db : AppendsUnit db (insert_referral_code code r db).
Proof. follow insert_referral_code. Qed.
#[export] Instance appends_ensure_code code o now db : AppendsRes db (ensure_referral_code_tx code o now db).
Proof. follow ensure_referral_code_tx. Qed.
#[export] Instance appends_code_for_device code now d db : AppendsRes db (referral_code_for_device code now d db).
Proof. follow referral_code_for_device. Qed.
#[export] Instance appends_insert_claim i r db : AppendsUnit db (insert_referral_claim i r db).
Proof. follow insert_referral_claim. Qed.
#[export] Instance appends_referral_device cid d code now db :
  AppendsRes db (apply_referral_for_device_tx cid d code now db).
Proof. follow apply_referral_for_device_tx. Qed.
#[export] Instance appends_referral_account cid dv a code now db :
  AppendsRes db (apply_referral_for_account_tx cid dv a code now db).
Proof. follow apply_referral_for_account_tx. Qed.
#[export] Instance appends_device_join cid now d code db :
  AppendsRes db (apply_device_join_rewards cid now d code db).
Proof. follow apply_device_join_rewards. Qed.
#[export] Instance appends_account_join cid now dv a code db :
  AppendsRes db (apply_account_join_rewards cid now dv a code db).
Proof. follow apply_account_join_rewards. Qed.
#[export] Instance appends_finalize s now db : Appends db (finalize_availability_session s now db).
Proof. follow finalize_availability_session. Qed.
#[export] Instance appends_finalize_ended now rs db : Appends db (finalize_ended now rs db).2.
Proof.
  unfold Appends, finalize_ended.
  match goal with |- appends _ (foldl ?f ?a ?l).2 => apply (appends_foldl_acc f l a) end.
  intros s [n d]. destruct (still_matching rs s); simpl; [apply appends_refl|apply appends_finalize].
Qed.
#[export] Instance appends_reconcile now rs db : AppendsRes db (reconcile_availability_sessions now rs db).
Proof.
  intros rep db' H. unfold reconcile_availability_sessions in H.
  destruct (finalize_ended now rs db) as [n d] eqn:E.
  assert (appends db d) as Hd by (change d with (n, d).2; rewrite <-E; apply appends_finalize_ended).
  assert (forall d', appends db d' ->
    appends db (foldl (fun db r => credit_available_device now r db) d' rs)) as Hc.
  { intros d' ?. apply appends_foldl; [|done]. intros r x. unfold credit_available_device. appends_crush. }
  cbv zeta in H. destruct (0 <? _); [|injection H as _ <-; auto].
  destruct (map_err _ _); [|done]. destruct (_ <? _); injection H as _ <-; [done|].
  apply Hc. by apply (appends_same _ d).
Qed.

(** *** Keys, codes and sessions *)

#[export] Instance appends_upsert_provider now p slug name url wf hdr sec dc zdr q db :
  AppendsUnit db (upsert_provider now p slug name url wf hdr sec dc zdr q db).
Proof. follow upsert_provider. Qed.
#[export] Instance appends_insert_api_key k r db : AppendsUnit db (insert_api_key k r db).
Proof. follow insert_api_key. Qed.
#[export] Instance appends_create_api_key sha k sec now a params db :
  AppendsRes db (create_api_key sha k sec now a params db).
Proof. follow create_api_key. Qed.
#[export] Instance appends_update_api_key a k params db : AppendsRes db (update_api_key a k params db).
Proof. follow update_api_key. Qed.
#[export] Instance appends_delete_api_key a k db : AppendsUnit db (delete_api_key a k db).
Proof. follow delete_api_key. Qed.
#[export] Instance appends_login now email db : AppendsRes db (account_user_id_for_login now email db).
Proof. follow account_user_id_for_login. Qed.
#[export] Instance appends_insert_email_code sha i now email code link db :
  AppendsRes db (insert_email_code sha i now email code link db).
Proof. follow insert_email_code. Qed.
#[export] Instance appends_verify_code sha now email code db :
  Appends db (verify_account_email_code sha now email code db).2.
Proof. follow verify_account_email_code. Qed.
#[export] Instance appends_verify_link sha now token db :
  AppendsRes db (verify_account_email_link_token sha now token db).
Proof. follow verify_account_email_link_token. Qed.
#[export] Instance appends_create_session sha token sid now a dv name db :
  AppendsRes db (create_account_session sha token sid now a dv name db).
Proof. follow create_account_session. Qed.
#[export] Instance appends_resolve_session sha now token db :
  Appends db (resolve_account_session sha now token db).2.
Proof. follow resolve_account_session. Qed.

#[export] Instance appends_email_code sha i now email code db :
  AppendsRes db (create_account_email_code sha i now email code db).
Proof. apply appends_insert_email_code. Qed.
#[export] Instance appends_email_login_code sha i now email code link db :
  AppendsRes db (create_account_email_login_code sha i now email code link db).
Proof. apply appends_insert_email_code. Qed.
#[export] Instance appends_consume now d nonce db : Appends db (consume_challenge now d nonce db).2.
Proof. unfold Appends, consume_challenge. simpl. appends_crush. Qed.
#[export] Instance appends_link now d a md db : Appends db (default db (link_device_to_account now d a md db)).
Proof.
  unfold Appends, link_device_to_account. destruct (normalize_account_user_id a); simpl; [|apply appends_refl].
  by apply (appends_same _ db).
Qed.

Lemma appends_committed {E A} db (r : result E (A * Db)) : AppendsRes db r -> appends db (commit r db).
Proof. intros H. destruct r as [[a db']|]; [by apply (H a)|apply appends_refl]. Qed.
Lemma appends_committed_unit {E} db (r : result E Db) : AppendsUnit db r -> appends db (commit_unit r db).
Proof. intros H. destruct r as [db'|]; [by apply H|apply appends_refl]. Qed.

Lemma apply_op_appends op db : appends db (apply_op op db).
Proof.
  destruct op; cbn [apply_op]; first
    [ apply appends_committed; apply _ | apply appends_committed_unit; apply _ | apply appends_fn
    | by apply (appends_same _ db) ].
Qed.

(** ** The claim *)

(** The rows are numbered 1, 2, 3, ... in the order they were written. *)
Definition ledger_numbered (db : Db) : Prop :=
  ledger_seq db = Z.of_nat (length (ledger db)) /\
  led_id <$> ledger db = seqZ 1 (Z.of_nat (length (ledger db))).

Lemma appends_numbered db db' : appends db db' -> ledger_numbered db -> ledger_numbered db'.
Proof.
  intros (rows & Hl & Hi & Hs) [Hn Hids]. unfold ledger_numbered.
  rewrite Hl, length_app, Nat2Z.inj_add, fmap_app, Hids, Hi, Hn. split; [lia|].
  rewrite seqZ_app by lia. f_equal. f_equal. lia.
Qed.

(** What can happen to the ledger: an operation of the machine or a genesis
    reset. *)
Inductive LedgerStep : Type := LOp (op : LedgerOp) | LReset.
Definition ledger_step (s : LedgerStep) (db : Db) : Db :=
  match s with LOp op => apply_op op db | LReset => commit (reset_genesis db) db end.
Definition run_ledger (steps : list LedgerStep) (db : Db) : Db :=
  foldl (fun db s => ledger_step s db) db steps.

(** A reset that went through somewhere in the sequence. *)
Definition was_reset (steps : list LedgerStep) (db : Db) : Prop :=
  exists before after, steps = (before ++ LReset :: after)%list /\
    is_ok (reset_genesis (run_ledger before db)) = true.

Lemma ledger_step_numbered s db : ledger_numbered db -> ledger_numbered (ledger_step s db).
Proof.
  destruct s as [op|]; cbn [ledger_step]; [apply appends_numbered, apply_op_appends|].
  destruct (reset_genesis db) as [[rep db']|] eqn:E; cbn [commit]; [|done]. intros _.
  apply reset_genesis_spares in E as (_ & _ & _ & _ & _ & _ & _ & El & Es). unfold ledger_numbered.
  by rewrite El, Es.
Qed.

Lemma run_ledger_numbered steps db : ledger_numbered db -> ledger_numbered (run_ledger steps db).
Proof.
  revert db. induction steps as [|s steps IH]; intros db H; [done|].
  by apply (IH (ledger_step s db)), ledger_step_numbered.
Qed.

Lemma run_ledger_appends steps db : was_reset steps db \/ appends db (run_ledger steps db).
Proof.
  induction steps as [|s steps IH] using rev_ind; [right; reflexivity|].
  unfold run_ledger in *. rewrite foldl_snoc. destruct IH as [(before & after & -> & Hok)|IH].
  { left. exists before, (after ++ [s])%list. by rewrite <-(assoc_L app). }
  destruct s as [op|]; cbn [ledger_step].
  - right. etransitivity; [exact IH|apply apply_op_appends].
  - destruct (reset_genesis _) as [[rep db']|] eqn:E; [left|by right].
    exists steps, []. split; [done|]. unfold run_ledger. by rewrite E.
Qed.

(** C34: the ledger is append-only between genesis resets: whatever sequence of
    operations and resets runs, each of them succeeding or failing, every row
    that was in the ledger stays as it is and in place, unless a reset went
    through on the way; the reset empties the ledger; and in a database that
    started fresh the rows are numbered 1, 2, 3, ... without a gap, from
    1 again after a reset. *)
Theorem ledger_append_only steps db :
  (was_reset steps db \/ exists rows, ledger (run_ledger steps db) = (ledger db ++ rows)%list) /\
  (is_ok (reset_genesis db) = false \/ ledger (commit (reset_genesis db) db) = []) /\
  ledger_numbered (run_ledger steps genesis).
Proof.
  split_and!.
  - destruct (run_ledger_appends steps db) as [?|(rows & -> & _)]; eauto.
  - destruct (reset_genesis db) as [[rep db']|] eqn:E; [right|by left].
    by apply reset_genesis_spares in E as (_ & _ & _ & _ & _ & _ & _ & ? & _).
  - by apply run_ledger_numbered.
Qed.
