(* ===== verification/Merkle.v ===== *)
(** * Row hashes, the hash chain and Merkle proofs

    The pure half of [gateway/src/anchoring.rs]: the canonical encoding of a
    ledger row, its hash, the hash chain, the Merkle tree over a range of rows
    and its inclusion proofs.  SHA-256 and hexadecimal text come from crates;
    they are the operations of the class [Crates], and [CrateLaws] states what
    the code relies on.

    Proved here: the encoding can be read back; every proof the gateway builds
    is accepted; an accepted proof is about a row of the tree, and a chain tip
    belongs to one history only, unless two of the inputs that were hashed
    collide, in which case the pair is among inputs that are listed
    explicitly. *)

From S2P Require Import Prelude Db RustStr.
From Stdlib Require Ascii String.

Open Scope string_scope.
Open Scope list_scope.
Open Scope Z_scope.

Abbreviation byte := Ascii.ascii.
(** [[u8; 32]]. *)
Abbreviation hash := (list byte).

(** The [sha2] and [hex] crates. *)
Class Crates : Type := {
  sha256 : list byte -> hash;
  hex_encode : list byte -> string;
  hex_decode : string -> option (list byte)
}.
Class CrateLaws `{Crates} : Prop := {
  sha256_length : forall m, length (sha256 m) = 32%nat;
  hex_decode_encode : forall m, hex_decode (hex_encode m) = Some m
}.

Definition u8 (n : Z) : byte := Ascii.ascii_of_nat (Z.to_nat n).
Definition zero_hash : hash := replicate 32 (u8 0).

(** ** Encoding *)

Definition ENTRY_ENCODING_VERSION : string := "TEALE-LEDGER-V1".

(** [to_le_bytes] of an integer of [n] bytes, signed or not. *)
Fixpoint le_bytes (n : nat) (z : Z) : list byte :=
  match n with
  | O => []
  | S n => u8 (z mod 256) :: le_bytes n (z / 256)
  end.

Definition push_len_prefixed (out : list byte) (s : string) : list byte :=
  out ++ le_bytes 4 (Z.of_nat (length (bytes s))) ++ bytes s.

Definition encode_entry (row : LedgerRow) : list byte :=
  let out := bytes ENTRY_ENCODING_VERSION in
  let out := out ++ le_bytes 8 (led_id row) in
  let out := out ++ le_bytes 8 (led_timestamp row) in
  let out := out ++ le_bytes 8 (led_amount row) in
  let out := push_len_prefixed out (led_device_id row) in
  let out := push_len_prefixed out (led_type row) in
  let out := push_len_prefixed out (default "" (led_ref_request_id row)) in
  push_len_prefixed out (default "" (led_note row)).

Record ProofStep : Type := mkProofStep {
  sibling : string;
  is_left : bool
}.

(** [a] then [b], two at a time; an odd node at the end is promoted. *)
Fixpoint pairwise (f : hash -> hash -> hash) (level : list hash) : list hash :=
  match level with
  | a :: b :: level => f a b :: pairwise f level
  | level => level
  end.

Definition pair_input (left right : hash) : list byte := u8 1 :: left ++ right.

Section Hashes.
Context `{Crates}.

Definition entry_hash (row : LedgerRow) : hash := sha256 (encode_entry row).
Definition chain_hash (prev entry : hash) : hash := sha256 (prev ++ entry).
Definition hash_pair (left right : hash) : hash := sha256 (pair_input left right).

(** [while level.len() > 1 { .. level = next }]; a level of [n > 1] nodes has
    fewer than [n] above it, so [n] rounds are enough. *)
Fixpoint climb (rounds : nat) (level : list hash) : list hash :=
  match rounds with
  | O => level
  | S rounds => if Nat.ltb 1 (length level) then climb rounds (pairwise hash_pair level) else level
  end.

Definition merkle_root (leaves : list hash) : hash :=
  match leaves with
  | [] => zero_hash
  | _ => default zero_hash (head (climb (length leaves) leaves))
  end.

Definition sibling_index (idx : nat) : nat := if Nat.even idx then S idx else Nat.pred idx.

Fixpoint proof_steps (rounds : nat) (level : list hash) (idx : nat) : list ProofStep :=
  match rounds with
  | O => []
  | S rounds =>
      if Nat.ltb 1 (length level) then
        let rest := proof_steps rounds (pairwise hash_pair level) (Nat.div2 idx) in
        match level !! sibling_index idx with
        | Some s => mkProofStep (hex_encode s) (Nat.odd idx) :: rest
        | None => rest
        end
      else []
  end.

(** [None] is the failed assertion on the index. *)
Definition merkle_proof (leaves : list hash) (index : nat) : option (list ProofStep) :=
  if Nat.ltb index (length leaves) then Some (proof_steps (length leaves) leaves index) else None.

(** The running hash after the steps; [None] when a sibling is not 32 bytes of
    hexadecimal. *)
Fixpoint fold_proof (running : hash) (proof : list ProofStep) : option hash :=
  match proof with
  | [] => Some running
  | step :: proof =>
      match hex_decode (sibling step) with
      | Some s =>
          if Nat.eqb (length s) 32
          then fold_proof (if is_left step then hash_pair s running else hash_pair running s) proof
          else None
      | None => None
      end
  end.

Definition verify_proof (leaf : hash) (proof : list ProofStep) (expected_root : hash) : bool :=
  match fold_proof leaf proof with
  | Some running => bool_decide (running = expected_root)
  | None => false
  end.

Definition MEMO_FORMAT_VERSION : string := "V1".

Definition anchor_memo (first last count : Z) (root tip : hash) : string :=
  "TEALE:ANCHOR:" +:+ MEMO_FORMAT_VERSION +:+ ":" +:+ show_z first +:+ ":" +:+ show_z last +:+ ":" +:+
  show_z count +:+ ":" +:+ hex_encode root +:+ ":" +:+ hex_encode tip.

End Hashes.

(** ** Reading an encoding back *)

Definition read_bytes (n : nat) (l : list byte) : option (list byte * list byte) :=
  if Nat.leb n (length l) then Some (take n l, drop n l) else None.

Fixpoint le_value (l : list byte) : Z :=
  match l with
  | [] => 0
  | b :: l => Z.of_nat (code b) + 256 * le_value l
  end.

Definition read_i64 (l : list byte) : option (Z * list byte) :=
  '(b, l) ← read_bytes 8 l; Some (wrap64 (le_value b), l).
Definition read_str (l : list byte) : option (string * list byte) :=
  '(b, l) ← read_bytes 4 l; '(s, l) ← read_bytes (Z.to_nat (le_value b)) l; Some (of_bytes s, l).

Definition nonempty (s : string) : option string := if is_empty s then None else Some s.

(** What an auditor reads out of the bytes that were hashed. *)
Definition decode_entry (l : list byte) : option LedgerRow :=
  '(tag, l) ← read_bytes 15 l;
  if bool_decide (of_bytes tag = ENTRY_ENCODING_VERSION) then
    '(id, l) ← read_i64 l; '(ts, l) ← read_i64 l; '(amount, l) ← read_i64 l;
    '(device, l) ← read_str l; '(ty, l) ← read_str l; '(ref, l) ← read_str l; '(note, l) ← read_str l;
    match l with
    | [] => Some (mkLedgerRow id device ty amount ts (nonempty ref) (nonempty note))
    | _ => None
    end
  else None.

(** The encoding does not distinguish [NULL] from the empty text. *)
Definition canonical_row (r : LedgerRow) : LedgerRow :=
  mkLedgerRow (led_id r) (led_device_id r) (led_type r) (led_amount r) (led_timestamp r)
    (led_ref_request_id r ≫= nonempty) (led_note r ≫= nonempty).

Definition short (s : string) : Prop := Z.of_nat (length (bytes s)) < 2 ^ 32.

(** Integers fit their columns and texts are shorter than 4 GiB. *)
Record row_wf (r : LedgerRow) : Prop := mk_row_wf {
  wf_id : in_i64 (led_id r);
  wf_timestamp : in_i64 (led_timestamp r);
  wf_amount : in_i64 (led_amount r);
  wf_device : short (led_device_id r);
  wf_type : short (led_type r);
  wf_ref : short (default "" (led_ref_request_id r));
  wf_note : short (default "" (led_note r))
}.

Lemma read_bytes_app l k : read_bytes (length l) (l ++ k) = Some (l, k).
Proof.
  unfold read_bytes. rewrite length_app, take_app_length, drop_app_length.
  by replace (Nat.leb _ _) with true by (symmetry; apply Nat.leb_le; lia).
Qed.

Lemma le_bytes_length n z : length (le_bytes n z) = n.
Proof. revert z. induction n; intros; simpl; auto. Qed.

Lemma code_u8 z : 0 <= z < 256 -> Z.of_nat (code (u8 z)) = z.
Proof.
  intros Hz. unfold code, u8. rewrite Ascii.nat_ascii_embedding; [lia|].
  change 256%nat with (Z.to_nat 256). lia.
Qed.

Lemma le_value_bytes n z : le_value (le_bytes n z) = z mod 256 ^ Z.of_nat n.
Proof.
  revert z. induction n as [|n IH]; intros z; [simpl; by rewrite Z.mod_1_r|].
  cbn [le_bytes le_value]. rewrite IH, code_u8 by (apply Z.mod_pos_bound; lia).
  rewrite Nat2Z.inj_succ, Z.pow_succ_r, Z.rem_mul_r by lia. lia.
Qed.

Lemma read_i64_bytes z l : in_i64 z -> read_i64 (le_bytes 8 z ++ l) = Some (z, l).
Proof.
  intros Hz. unfold read_i64.
  replace 8%nat with (length (le_bytes 8 z)) at 1 by apply le_bytes_length.
  rewrite read_bytes_app. cbn [mbind option_bind]. rewrite le_value_bytes. do 2 f_equal.
  change (256 ^ Z.of_nat 8) with (2 ^ 64). unfold wrap64.
  unfold in_i64, i64_min, i64_max in Hz.
  rewrite Zplus_mod_idemp_l, Z.mod_small by lia. lia.
Qed.

Lemma read_str_bytes s l :
  short s -> read_str (le_bytes 4 (Z.of_nat (length (bytes s))) ++ bytes s ++ l) = Some (s, l).
Proof.
  intros Hs. unfold read_str. set (n := Z.of_nat (length (bytes s))) in *.
  replace 4%nat with (length (le_bytes 4 n)) at 1 by apply le_bytes_length.
  rewrite read_bytes_app. cbn [mbind option_bind]. rewrite le_value_bytes.
  rewrite Z.mod_small by (unfold short in Hs; change (256 ^ Z.of_nat 4) with (2 ^ 32); lia).
  unfold n. rewrite Nat2Z.id, read_bytes_app. cbn [mbind option_bind]. by rewrite of_bytes_bytes.
Qed.

Lemma nonempty_default o : nonempty (default "" o) = o ≫= nonempty.
Proof. by destruct o. Qed.

Lemma encode_entry_app row :
  encode_entry row = bytes ENTRY_ENCODING_VERSION ++ le_bytes 8 (led_id row) ++
    le_bytes 8 (led_timestamp row) ++ le_bytes 8 (led_amount row) ++
    le_bytes 4 (Z.of_nat (length (bytes (led_device_id row)))) ++ bytes (led_device_id row) ++
    le_bytes 4 (Z.of_nat (length (bytes (led_type row)))) ++ bytes (led_type row) ++
    le_bytes 4 (Z.of_nat (length (bytes (default "" (led_ref_request_id row))))) ++
      bytes (default "" (led_ref_request_id row)) ++
    le_bytes 4 (Z.of_nat (length (bytes (default "" (led_note row))))) ++
      bytes (default "" (led_note row)) ++ [].
Proof. unfold encode_entry, push_len_prefixed. cbv zeta. by rewrite <-!(assoc_L (++)), app_nil_r. Qed.

Lemma decode_encode_entry row : row_wf row -> decode_entry (encode_entry row) = Some (canonical_row row).
Proof.
  intros [Hid Hts Ha Hd Hty Hr Hn]. rewrite encode_entry_app. unfold decode_entry.
  change 15%nat with (length (bytes ENTRY_ENCODING_VERSION)). rewrite read_bytes_app. cbn [mbind option_bind].
  rewrite of_bytes_bytes, bool_decide_true by done.
  rewrite read_i64_bytes by done. cbn [mbind option_bind]. rewrite read_i64_bytes by done. cbn [mbind option_bind].
  rewrite read_i64_bytes by done. cbn [mbind option_bind].
  do 4 (rewrite read_str_bytes by done; cbn [mbind option_bind]). by rewrite !nonempty_default.
Qed.

Lemma encode_entry_inj r1 r2 :
  row_wf r1 -> row_wf r2 -> encode_entry r1 = encode_entry r2 -> canonical_row r1 = canonical_row r2.
Proof.
  intros H1%decode_encode_entry H2%decode_encode_entry E. rewrite E in H1. congruence.
Qed.

(** ** The tree *)

Lemma list_pair_ind {A} (P : list A -> Prop) :
  P [] -> (forall a, P [a]) -> (forall a b l, P l -> P (a :: b :: l)) -> forall l, P l.
Proof.
  intros H0 H1 H2. assert (forall l, P l /\ forall a, P (a :: l)) as H; [|by intros l; apply H].
  induction l as [|a l [IH1 IH2]]; [by split|]. split; [apply IH2|]. intros b. by apply H2.
Qed.

Section Tree.
Context `{Crates} {laws : CrateLaws}.
Implicit Types (level leaves : list hash) (h a b : hash) (idx rounds : nat).

Lemma pairwise_lookup f level i :
  pairwise f level !! i =
  match level !! (2 * i)%nat, level !! S (2 * i) with
  | Some a, Some b => Some (f a b)
  | Some a, None => Some a
  | None, _ => None
  end.
Proof.
  revert i. induction level as [|a|a b level IH] using list_pair_ind; intros i.
  - by rewrite !lookup_nil.
  - destruct i as [|i]; [done|]. by rewrite !lookup_ge_None_2 by (simpl; lia).
  - destruct i as [|i]; [done|]. cbn [pairwise]. rewrite lookup_cons. rewrite IH.
    by replace (2 * S i)%nat with (S (S (2 * i))) by lia.
Qed.

Lemma pairwise_length f level : length (pairwise f level) = Nat.div2 (S (length level)).
Proof. induction level as [|a|a b level IH] using list_pair_ind; [done|done|]. simpl in *. by rewrite IH. Qed.

Lemma div2_lt n : (1 < n)%nat -> (0 < Nat.div2 (S n) < n)%nat.
Proof. intros Hn. rewrite Nat.div2_div. split; [apply Nat.div_str_pos|apply Nat.Div0.div_lt_upper_bound]; lia. Qed.

(** The climb ends: one node is left. *)
Lemma climb_single rounds level :
  (0 < length level <= rounds)%nat -> length (climb rounds level) = 1%nat.
Proof.
  revert level. induction rounds as [|rounds IH]; intros level Hl; [lia|]. cbn [climb].
  destruct (Nat.ltb_spec 1 (length level)); [|lia].
  apply IH. rewrite pairwise_length. pose proof (div2_lt (length level)). lia.
Qed.

Definition top (level : list hash) : hash := default zero_hash (head level).

Lemma merkle_root_climb leaves : leaves <> [] -> merkle_root leaves = top (climb (length leaves) leaves).
Proof. by destruct leaves. Qed.

Definition hashes (level : list hash) : Prop := Forall (fun h => length h = 32%nat) level.

Lemma pairwise_hashes level : hashes level -> hashes (pairwise hash_pair level).
Proof.
  unfold hashes. induction level as [|a|a b level IH] using list_pair_ind; [done|done|].
  rewrite !Forall_cons. intros (_ & _ & Hl). cbn [pairwise]. rewrite Forall_cons. split; [apply sha256_length|auto].
Qed.

(** ** Completeness *)

(** The sibling of a node, and what the pair of them becomes one level up. *)
Lemma parent level idx h :
  level !! idx = Some h ->
  match level !! sibling_index idx with
  | Some s => pairwise hash_pair level !! Nat.div2 idx =
                Some (if Nat.odd idx then hash_pair s h else hash_pair h s)
  | None => pairwise hash_pair level !! Nat.div2 idx = Some h
  end.
Proof.
  intros Hh. rewrite pairwise_lookup. unfold sibling_index. rewrite <-Nat.negb_even.
  pose proof (Nat.div2_odd idx) as Hidx. rewrite <-Nat.negb_even in Hidx.
  destruct (Nat.even idx) eqn:Ev; cbn [negb] in *; unfold Nat.b2n in Hidx.
  - replace (2 * Nat.div2 idx)%nat with idx by lia. rewrite Hh. by destruct (level !! S idx).
  - assert (idx = S (2 * Nat.div2 idx)) as Hi by lia. set (k := Nat.div2 idx) in *.
    rewrite Hi in Hh |- *. rewrite Hh. cbn [Nat.pred].
    destruct (lookup_lt_is_Some_2 level (2 * k)) as [s Hs];
      [apply lookup_lt_Some in Hh; lia|]. by rewrite Hs.
Qed.

Lemma fold_proof_steps rounds level idx leaf :
  hashes level -> (0 < length level <= rounds)%nat -> level !! idx = Some leaf ->
  fold_proof leaf (proof_steps rounds level idx) = Some (top (climb rounds level)).
Proof.
  revert level idx leaf. induction rounds as [|rounds IH]; intros level idx leaf Hh Hl Hi; [lia|].
  cbn [proof_steps climb]. destruct (Nat.ltb_spec 1 (length level)) as [Hlt|Hge].
  - pose proof (parent _ _ _ Hi) as Hp.
    assert (forall h, pairwise hash_pair level !! Nat.div2 idx = Some h ->
      fold_proof h (proof_steps rounds (pairwise hash_pair level) (Nat.div2 idx)) =
      Some (top (climb rounds (pairwise hash_pair level)))) as Hup.
    { intros h. apply IH; [by apply pairwise_hashes|].
      rewrite pairwise_length. pose proof (div2_lt (length level)). lia. }
    destruct (level !! sibling_index idx) as [s|] eqn:Es; [|by apply Hup].
    cbn [fold_proof sibling is_left]. rewrite hex_decode_encode.
    rewrite (Forall_lookup_1 _ _ _ _ Hh Es). rewrite Nat.eqb_refl. by apply Hup.
  - destruct level as [|x [|y level]]; [simpl in *; lia| |simpl in *; lia].
    destruct idx; [by injection Hi as ->|done].
Qed.

Lemma verify_merkle_proof leaves idx leaf :
  hashes leaves -> leaves !! idx = Some leaf ->
  exists proof, merkle_proof leaves idx = Some proof /\ verify_proof leaf proof (merkle_root leaves) = true.
Proof.
  intros Hh Hi. pose proof (lookup_lt_Some _ _ _ Hi) as Hlt. unfold merkle_proof.
  apply Nat.ltb_lt in Hlt as Hb. rewrite Hb. eexists. split; [done|].
  unfold verify_proof. rewrite fold_proof_steps; [|done|lia|done].
  rewrite merkle_root_climb by (intros ->; simpl in Hlt; lia). by apply bool_decide_true.
Qed.

(** ** Soundness *)

(** The inputs of the pairs above a level, and of the steps of a proof. *)
Fixpoint level_inputs (level : list hash) : list (list byte) :=
  match level with
  | a :: b :: level => pair_input a b :: level_inputs level
  | _ => []
  end.
Fixpoint climb_inputs (rounds : nat) (level : list hash) : list (list byte) :=
  match rounds with
  | O => []
  | S rounds => level_inputs level ++ climb_inputs rounds (pairwise hash_pair level)
  end.
Fixpoint climb_nodes (rounds : nat) (level : list hash) : list hash :=
  match rounds with
  | O => level
  | S rounds => level ++ climb_nodes rounds (pairwise hash_pair level)
  end.
Fixpoint proof_inputs (running : hash) (proof : list ProofStep) : list (list byte) :=
  match proof with
  | [] => []
  | step :: proof =>
      let s := default [] (hex_decode (sibling step)) in
      let input := if is_left step then pair_input s running else pair_input running s in
      input :: proof_inputs (sha256 input) proof
  end.

(** Two different inputs with one hash. *)
Definition collision (xs ys : list (list byte)) : Prop :=
  Exists (fun x => Exists (fun y => x <> y /\ sha256 x = sha256 y) ys) xs.

Lemma collision_intro xs ys x y : x ∈ xs -> y ∈ ys -> x <> y -> sha256 x = sha256 y -> collision xs ys.
Proof. intros Hx Hy Hne E. apply Exists_exists. exists x. split; [done|]. apply Exists_exists. eauto. Qed.

Lemma collision_mono xs ys xs' ys' : collision xs ys -> xs ⊆ xs' -> ys ⊆ ys' -> collision xs' ys'.
Proof.
  unfold collision. intros (x & Hx & (y & Hy & ? & ?)%Exists_exists)%Exists_exists Hs1 Hs2.
  eapply collision_intro; eauto.
Qed.

Lemma same_or_collision xs ys x y :
  x ∈ xs -> y ∈ ys -> sha256 x = sha256 y -> x = y \/ collision xs ys.
Proof. intros. destruct (decide (x = y)); [by left|right]. by eapply collision_intro. Qed.

Lemma pairwise_elem level h :
  h ∈ pairwise hash_pair level ->
  h ∈ level \/ exists a b, a ∈ level /\ b ∈ level /\ h = sha256 (pair_input a b) /\ pair_input a b ∈ level_inputs level.
Proof.
  induction level as [|a|a b level IH] using list_pair_ind; [auto|auto|].
  cbn [pairwise level_inputs]. rewrite elem_of_cons. intros [-> | Hin].
  - right. exists a, b. split_and!; [set_solver|set_solver|done|set_solver].
  - destruct (IH Hin) as [?|(x & y & ? & ? & ? & ?)]; [left; set_solver|right].
    exists x, y. split_and!; [set_solver|set_solver|done|set_solver].
Qed.

(** A node is a leaf or the hash of a pair of nodes. *)
Lemma climb_nodes_elem rounds level h :
  h ∈ climb_nodes rounds level ->
  h ∈ level \/ exists a b, a ∈ climb_nodes rounds level /\ b ∈ climb_nodes rounds level /\
    h = sha256 (pair_input a b) /\ pair_input a b ∈ climb_inputs rounds level.
Proof.
  revert level. induction rounds as [|rounds IH]; intros level; [by left|].
  cbn [climb_nodes climb_inputs]. rewrite elem_of_app. intros [?|Hin]; [by left|].
  destruct (IH _ Hin) as [Hp|(a & b & ? & ? & ? & ?)].
  - destruct (pairwise_elem _ _ Hp) as [?|(a & b & ? & ? & ? & ?)]; [by left|right].
    exists a, b. split_and!; [set_solver|set_solver|done|set_solver].
  - right. exists a, b. split_and!; [set_solver|set_solver|done|set_solver].
Qed.

Lemma top_climb_node rounds level :
  level <> [] -> top (climb rounds level) ∈ climb_nodes rounds level.
Proof.
  revert level. induction rounds as [|rounds IH]; intros level Hne.
  { destruct level; [done|]. simpl. apply list_elem_of_here. }
  cbn [climb climb_nodes]. rewrite elem_of_app. destruct (Nat.ltb 1 (length level)).
  - right. apply IH. by destruct level as [|? [|? ?]].
  - left. destruct level; [done|]. apply list_elem_of_here.
Qed.

Lemma climb_nodes_hashes rounds level : hashes level -> hashes (climb_nodes rounds level).
Proof.
  revert level. induction rounds as [|rounds IH]; intros level Hh; [done|].
  apply Forall_app. split; [done|]. by apply IH, pairwise_hashes.
Qed.

Lemma merkle_root_length leaves : hashes leaves -> length (merkle_root leaves) = 32%nat.
Proof.
  intros Hh. destruct leaves as [|h l]; [done|]. rewrite merkle_root_climb by done.
  apply (climb_nodes_hashes (length (h :: l))) in Hh. unfold hashes in Hh. rewrite Forall_forall in Hh.
  by apply Hh, top_climb_node.
Qed.

Lemma pair_input_inj a b c d :
  length a = 32%nat -> length c = 32%nat -> pair_input a b = pair_input c d -> a = c /\ b = d.
Proof. intros Ha Hc [= E]. apply app_inj_1 in E; [done|congruence]. Qed.

(** The encoding of a row begins with the tag, the input of a pair with 1. *)
Lemma encode_entry_not_pair row a b : encode_entry row <> pair_input a b.
Proof. rewrite encode_entry_app. intros [= E]. Qed.

Definition tree_inputs (rows : list LedgerRow) : list (list byte) :=
  (encode_entry <$> rows) ++ climb_inputs (length rows) (entry_hash <$> rows).

Lemma entry_hashes_hashes rows : hashes (entry_hash <$> rows).
Proof. apply Forall_fmap, Forall_true. intros. apply sha256_length. Qed.

(** A node of the tree whose preimage is known: the preimages agree or collide. *)
Lemma node_preimage rows x input ys :
  x ∈ climb_nodes (length rows) (entry_hash <$> rows) -> x = sha256 input -> input ∈ ys ->
  (exists row, row ∈ rows /\ input = encode_entry row) \/
  (exists a b, a ∈ climb_nodes (length rows) (entry_hash <$> rows) /\
     b ∈ climb_nodes (length rows) (entry_hash <$> rows) /\ input = pair_input a b) \/
  collision (tree_inputs rows) ys.
Proof.
  intros Hx -> Hin. destruct (climb_nodes_elem _ _ _ Hx) as [Hl|(a & b & Ha & Hb & Hab & Hi)].
  - apply list_elem_of_fmap in Hl as (row & Hrow & Hr).
    destruct (same_or_collision (tree_inputs rows) ys (encode_entry row) input) as [<-|?]; [|done|done|eauto|auto].
    unfold tree_inputs. apply elem_of_app. left. by apply list_elem_of_fmap_2.
  - destruct (same_or_collision (tree_inputs rows) ys (pair_input a b) input) as [<-|?]; [|done|done|eauto 8|auto].
    unfold tree_inputs. set_solver.
Qed.

Lemma fold_proof_node rows x proof r ys :
  length x = 32%nat -> fold_proof x proof = Some r -> proof_inputs x proof ⊆ ys ->
  r ∈ climb_nodes (length rows) (entry_hash <$> rows) ->
  x ∈ climb_nodes (length rows) (entry_hash <$> rows) \/ collision (tree_inputs rows) ys.
Proof.
  revert x. induction proof as [|[sib lft] proof IH]; intros x Hx Hf Hsub Hr.
  { injection Hf as ->. by left. }
  cbn [fold_proof proof_inputs sibling is_left] in *.
  destruct (hex_decode sib) as [s|]; [|done]. destruct (Nat.eqb_spec (length s) 32) as [Hs|]; [|done].
  cbn [default] in *. set (input := if lft then pair_input s x else pair_input x s) in *.
  assert ((if lft then hash_pair s x else hash_pair x s) = sha256 input) as Ei by by destruct lft.
  rewrite Ei in Hf. destruct (IH (sha256 input)) as [Hn|?]; [apply sha256_length|done|set_solver|done| |by right].
  destruct (node_preimage rows (sha256 input) input ys) as [(row & _ & E)|[(a & b & Ha & Hb & E)|?]];
    [done|done|set_solver| | |by right].
  - exfalso. symmetry in E. unfold input in E. destruct lft; by apply encode_entry_not_pair in E.
  - pose proof (proj1 (Forall_forall _ _) (climb_nodes_hashes (length rows) _ (entry_hashes_hashes rows)) a Ha) as La.
    left. unfold input in E. destruct lft; apply pair_input_inj in E as [-> ->]; done.
Qed.

(** What an accepted proof says about the row it is for. *)
Lemma verify_proof_sound rows row proof :
  rows <> [] -> verify_proof (entry_hash row) proof (merkle_root (entry_hash <$> rows)) = true ->
  (exists row', row' ∈ rows /\ encode_entry row' = encode_entry row) \/
  collision (tree_inputs rows) (encode_entry row :: proof_inputs (entry_hash row) proof).
Proof.
  intros Hne Hv. unfold verify_proof in Hv.
  destruct (fold_proof (entry_hash row) proof) as [r|] eqn:Hf; [|done]. apply bool_decide_eq_true in Hv.
  set (ys := encode_entry row :: proof_inputs (entry_hash row) proof).
  destruct (fold_proof_node rows (entry_hash row) proof r ys) as [Hn|?]; [apply sha256_length|done|set_solver| | |by right].
  - rewrite Hv, merkle_root_climb by by destruct rows. rewrite length_fmap. apply top_climb_node. by destruct rows.
  - destruct (node_preimage rows (entry_hash row) (encode_entry row) ys) as [(row' & ? & ?)|[(a & b & _ & _ & E)|?]];
      [done|done|set_solver|by left; eauto|by apply encode_entry_not_pair in E|by right].
Qed.

(** ** The chain *)

Definition chain_from (prev : hash) (rows : list LedgerRow) : hash :=
  foldl (fun prev row => chain_hash prev (entry_hash row)) prev rows.

Fixpoint chain_inputs (prev : hash) (rows : list LedgerRow) : list (list byte) :=
  match rows with
  | [] => []
  | row :: rows =>
      encode_entry row :: (prev ++ entry_hash row) :: chain_inputs (chain_hash prev (entry_hash row)) rows
  end.

Lemma chain_from_snoc prev rows row :
  chain_from prev (rows ++ [row]) = chain_hash (chain_from prev rows) (entry_hash row).
Proof. unfold chain_from. by rewrite foldl_app. Qed.

Lemma chain_inputs_snoc prev rows row :
  chain_inputs prev (rows ++ [row]) =
  chain_inputs prev rows ++ [encode_entry row; chain_from prev rows ++ entry_hash row].
Proof.
  revert prev. induction rows as [|x rows IH]; intros prev; [done|]. simpl. by rewrite IH.
Qed.

Lemma chain_from_length prev rows : length prev = 32%nat -> length (chain_from prev rows) = 32%nat.
Proof.
  intros Hp. induction rows as [|row rows _] using rev_ind; [done|]. rewrite chain_from_snoc. apply sha256_length.
Qed.

Lemma chain_binds prev rows1 rows2 :
  length prev = 32%nat -> length rows1 = length rows2 -> chain_from prev rows1 = chain_from prev rows2 ->
  encode_entry <$> rows1 = encode_entry <$> rows2 \/
  collision (chain_inputs prev rows1) (chain_inputs prev rows2).
Proof.
  intros Hp. revert rows2. induction rows1 as [|r1 rows1 IH] using rev_ind; intros rows2 Hlen Hc.
  { destruct rows2; [by left|done]. }
  destruct rows2 as [|r2 rows2 _] using rev_ind; [rewrite length_app in Hlen; simpl in Hlen; lia|].
  rewrite !length_app in Hlen. simpl in Hlen. rewrite !chain_from_snoc in Hc. rewrite !chain_inputs_snoc, !fmap_app.
  destruct (same_or_collision
    (chain_inputs prev rows1 ++ [encode_entry r1; chain_from prev rows1 ++ entry_hash r1])
    (chain_inputs prev rows2 ++ [encode_entry r2; chain_from prev rows2 ++ entry_hash r2])
    (chain_from prev rows1 ++ entry_hash r1) (chain_from prev rows2 ++ entry_hash r2)) as [E|?];
    [set_solver|set_solver|done| |by right].
  apply app_inj_1 in E as [E1 E2]; [|by rewrite !chain_from_length].
  destruct (IH rows2) as [->|Hcol]; [lia|done| |right; eapply collision_mono; [done|set_solver|set_solver]].
  destruct (same_or_collision
    (chain_inputs prev rows1 ++ [encode_entry r1; chain_from prev rows1 ++ entry_hash r1])
    (chain_inputs prev rows2 ++ [encode_entry r2; chain_from prev rows2 ++ entry_hash r2])
    (encode_entry r1) (encode_entry r2)) as [E|?]; [set_solver|set_solver|done| |by right].
  left. simpl. by rewrite E.
Qed.
End Tree.

(** ** Concrete crates

    Hexadecimal text as the crate writes and reads it, and a small hash in the
    place of SHA-256, to run the definitions on. *)

Definition hex_digit (n : nat) : byte := default (u8 48) (bytes "0123456789abcdef" !! n).
Definition hex_value (c : byte) : option nat :=
  if in_range 48 57 c then Some (code c - 48)%nat
  else if in_range 97 102 c then Some (code c - 87)%nat
  else if in_range 65 70 c then Some (code c - 55)%nat
  else None.
Definition hex_of_byte (c : byte) : list byte :=
  [hex_digit (Nat.div (code c) 16); hex_digit (Nat.modulo (code c) 16)].
Definition byte_of_hex (a b : byte) : option byte :=
  x ← hex_value a; y ← hex_value b; Some (Ascii.ascii_of_nat (16 * x + y)).
Fixpoint unhex (l : list byte) : option (list byte) :=
  match l with
  | [] => Some []
  | a :: b :: l => c ← byte_of_hex a b; r ← unhex l; Some (c :: r)
  | [_] => None
  end.
Definition toy_hash (l : list byte) : hash :=
  le_bytes 32 (foldl (fun acc c => acc * 65537 + Z.of_nat (code c) + 1) 7 l).

#[export] Instance toy_crates : Crates := {|
  sha256 := toy_hash;
  hex_encode := fun l => of_bytes (l ≫= hex_of_byte);
  hex_decode := fun s => unhex (bytes s)
|}.

Lemma byte_of_hex_of_byte c :
  byte_of_hex (hex_digit (Nat.div (code c) 16)) (hex_digit (Nat.modulo (code c) 16)) = Some c.
Proof. revert c. by_bytes. Qed.

Lemma unhex_hex m : unhex (m ≫= hex_of_byte) = Some m.
Proof.
  induction m as [|c m IH]; [done|]. rewrite bind_cons. unfold hex_of_byte at 1. cbn [app unhex].
  rewrite byte_of_hex_of_byte, IH. done.
Qed.

#[export] Instance toy_laws : CrateLaws.
Proof.
  split.
  - intros m. apply le_bytes_length.
  - intros m. cbn [hex_decode hex_encode toy_crates]. unfold of_bytes, bytes.
    rewrite String.list_ascii_of_string_of_list_ascii.
    apply unhex_hex.
Qed.

(** ** Claims *)

(** the canonical encoding of a ledger row can be read back: an auditor
    recovers every field of the row from the bytes that were hashed, [NULL] and
    the empty text being the same; so rows with the same encoding are the same
    row. *)
Theorem entry_encoding_roundtrip row :
  row_wf row ->
  decode_entry (encode_entry row) = Some (canonical_row row) /\
  (forall row', row_wf row' -> encode_entry row' = encode_entry row -> canonical_row row' = canonical_row row).
Proof. intros Hwf. split; [by apply decode_encode_entry|]. intros. by apply encode_entry_inj. Qed.

Definition sample_row (i amount : Z) : LedgerRow :=
  mkLedgerRow i "dev" "DIRECT_EARN" amount (1700000000 + i) (Some "req") (Some "").

#[export] Instance row_wf_dec row : Decision (row_wf row).
Proof.
  refine (cast_if (decide (in_i64 (led_id row) /\ in_i64 (led_timestamp row) /\ in_i64 (led_amount row) /\
    short (led_device_id row) /\ short (led_type row) /\ short (default "" (led_ref_request_id row)) /\
    short (default "" (led_note row))))).
  all: try unfold in_i64; try unfold short; try apply _.
  - abstract (destruct_and!; by split).
  - abstract (intros []; tauto).
Defined.

Lemma entry_encoding_roundtrip_witness :
  decode_entry (encode_entry (sample_row 3 (-250))) =
    Some (mkLedgerRow 3 "dev" "DIRECT_EARN" (-250) 1700000003 (Some "req") None).
Proof.
  refine (proj1 (entry_encoding_roundtrip (sample_row 3 (-250)) _)).
  apply (bool_decide_unpack _). vm_compute. exact I.
Defined.

(** C33: an inclusion proof that verifies against an anchored root is about a row
    that was anchored, with the same content; the only way around it is a pair
    of different byte strings with one SHA-256, the first among the inputs of
    the anchored tree, the second among the inputs of the verification. *)
Theorem inclusion_proof_binds_row `{Crates} {laws : CrateLaws} rows row proof :
  rows <> [] -> Forall row_wf (row :: rows) ->
  verify_proof (entry_hash row) proof (merkle_root (entry_hash <$> rows)) = true ->
  (exists row', row' ∈ rows /\ canonical_row row' = canonical_row row) \/
  collision (tree_inputs rows) (encode_entry row :: proof_inputs (entry_hash row) proof).
Proof.
  intros Hne [Hr Hrs]%Forall_cons Hv. destruct (verify_proof_sound rows row proof Hne Hv) as [(row' & Hin & E)|?];
    [left|by right].
  exists row'. split; [done|]. rewrite Forall_forall in Hrs. by apply encode_entry_inj; [apply Hrs| |].
Qed.

Definition sample_rows : list LedgerRow := [sample_row 1 10; sample_row 2 20; sample_row 3 30].

Lemma inclusion_proof_binds_row_witness :
  (exists row', row' ∈ sample_rows /\ canonical_row row' = canonical_row (sample_row 3 30)) \/
  collision (tree_inputs sample_rows) (encode_entry (sample_row 3 30) :: proof_inputs (entry_hash (sample_row 3 30))
    (default [] (merkle_proof (entry_hash <$> sample_rows) 2))).
Proof.
  apply (inclusion_proof_binds_row sample_rows (sample_row 3 30)); [done| |vm_compute; reflexivity].
  apply (bool_decide_unpack _). vm_compute. exact I.
Defined.

(** a chain tip belongs to one history: two histories of the same length
    with the same tip agree in every row, in order, unless two of the strings
    hashed along the two chains collide.  Editing, reordering or swapping rows
    of an anchored prefix therefore shows. *)
Theorem chain_tip_binds_history `{Crates} {laws : CrateLaws} rows1 rows2 :
  length rows1 = length rows2 -> Forall row_wf rows1 -> Forall row_wf rows2 ->
  chain_from zero_hash rows1 = chain_from zero_hash rows2 ->
  canonical_row <$> rows1 = canonical_row <$> rows2 \/
  collision (chain_inputs zero_hash rows1) (chain_inputs zero_hash rows2).
Proof.
  intros Hl H1 H2 Hc. destruct (chain_binds zero_hash rows1 rows2) as [E|?]; [done|done|done|left|by right].
  clear Hc Hl. revert rows2 H2 E. induction H1 as [|r1 rows1 W1 _ IH]; intros [|r2 rows2] H2 E; [done..|].
  apply Forall_cons in H2 as [W2 H2]. apply (inj2 cons) in E as [E1 E2]. rewrite !fmap_cons.
  by rewrite (encode_entry_inj r1 r2 W1 W2 E1), (IH rows2 H2 E2).
Qed.

Lemma chain_tip_binds_history_witness :
  let other := [sample_row 1 10; mkLedgerRow 2 "dev" "DIRECT_EARN" 20 1700000002 (Some "req") None; sample_row 3 30] in
  canonical_row <$> sample_rows = canonical_row <$> other \/
  collision (chain_inputs zero_hash sample_rows) (chain_inputs zero_hash other).
Proof.
  cbv zeta. apply chain_tip_binds_history; [reflexivity| | |vm_compute; reflexivity];
    apply (bool_decide_unpack _); vm_compute; exact I.
Defined.
