(* ===== verification/Anchoring.v ===== *)
(** * Ledger anchoring

    The stateful half of [gateway/src/anchoring.rs]: the side tables of hashes
    and anchors next to the ledger database, and the operations that fill the
    hashes, prepare, confirm and abandon an anchor and build inclusion proofs.
    [prepare_anchor] and [inclusion_proof] take the database lock twice, once
    for the backfill and once for the rest; the second half is a definition of
    its own ([..._locked]), so that other operations can run in between. *)

From S2P Require Import Prelude Db RustStr Merkle.
From stdpp Require Import sorting.

Open Scope string_scope.
Open Scope list_scope.
Open Scope Z_scope.

(** ** Tables *)

Record EntryHashRow : Type := mkEntryHashRow {
  eh_entry_id : Z;
  eh_entry_hash : string;
  eh_chain_hash : string
}.

Record AnchorRecord : Type := mkAnchorRecord {
  ar_id : Z;
  ar_created_at : Z;
  ar_first_entry_id : Z;
  ar_last_entry_id : Z;
  ar_entry_count : Z;
  ar_merkle_root : string;
  ar_chain_tip : string;
  ar_memo : string;
  ar_status : string;
  ar_tx_signature : option string;
  ar_confirmed_at : option Z
}.

(** The ledger database with its two side tables. *)
Record AnchorDb : Type := mkAnchorDb {
  a_db : Db;
  ledger_entry_hashes : list EntryHashRow;
  ledger_anchors : list AnchorRecord;
  ledger_anchors_seq : Z
}.

Definition set_a_db (x : Db) (st : AnchorDb) : AnchorDb :=
  mkAnchorDb x (ledger_entry_hashes st) (ledger_anchors st) (ledger_anchors_seq st).
Definition set_entry_hashes (x : list EntryHashRow) (st : AnchorDb) : AnchorDb :=
  mkAnchorDb (a_db st) x (ledger_anchors st) (ledger_anchors_seq st).
Definition set_anchors (x : list AnchorRecord) (seq : Z) (st : AnchorDb) : AnchorDb :=
  mkAnchorDb (a_db st) (ledger_entry_hashes st) x seq.

Definition is_pending (a : AnchorRecord) : bool := bool_decide (ar_status a = "pending").
Definition is_confirmed (a : AnchorRecord) : bool := bool_decide (ar_status a = "confirmed").

(** [ORDER BY id ASC], [ORDER BY entry_id ASC] and [ORDER BY id DESC]. *)
Definition row_before (a b : LedgerRow) : Prop := led_id a <= led_id b.
Definition hash_before (a b : EntryHashRow) : Prop := eh_entry_id a <= eh_entry_id b.
Definition newer_anchor (a b : AnchorRecord) : Prop := ar_id b <= ar_id a.
#[export] Instance row_before_dec a b : Decision (row_before a b).
Proof. unfold row_before. apply _. Defined.
#[export] Instance hash_before_dec a b : Decision (hash_before a b).
Proof. unfold hash_before. apply _. Defined.
#[export] Instance newer_anchor_dec a b : Decision (newer_anchor a b).
Proof. unfold newer_anchor. apply _. Defined.

Definition with_status (status : string) (sig : option string) (confirmed : option Z) (a : AnchorRecord)
    : AnchorRecord :=
  mkAnchorRecord (ar_id a) (ar_created_at a) (ar_first_entry_id a) (ar_last_entry_id a)
    (ar_entry_count a) (ar_merkle_root a) (ar_chain_tip a) (ar_memo a) status sig confirmed.

(** [UPDATE ledger_anchors SET .. WHERE id = ? AND status = 'pending']: the
    table, and how many rows changed. *)
Definition update_pending (anchor_id : Z) (f : AnchorRecord -> AnchorRecord) (l : list AnchorRecord)
    : nat * list AnchorRecord :=
  let hit a := (ar_id a =? anchor_id) && is_pending a in
  (length (List.filter hit l), (fun a => if hit a then f a else a) <$> l).

Section Anchoring.
Context `{Crates}.

(** [hex::decode(..).ok().and_then(|b| <[u8; 32]>::try_from(..).ok()).unwrap_or([0u8; 32])]. *)
Definition hash_of_hex (s : string) : hash :=
  match hex_decode s with
  | Some b => if Nat.eqb (length b) 32 then b else zero_hash
  | None => zero_hash
  end.

(** ** Hashing the ledger *)

Definition is_hashed (st : AnchorDb) (id : Z) : bool :=
  existsb (fun h => eh_entry_id h =? id) (ledger_entry_hashes st).

Definition fetch_unhashed_rows (st : AnchorDb) : list LedgerRow :=
  merge_sort row_before (List.filter (fun r => negb (is_hashed st (led_id r))) (ledger (a_db st))).

(** [for row in &rows { .. INSERT ..; prev = ch }]. *)
Fixpoint hash_rows (prev : hash) (rows : list LedgerRow) : list EntryHashRow :=
  match rows with
  | [] => []
  | row :: rows =>
      let eh := entry_hash row in
      let ch := chain_hash prev eh in
      mkEntryHashRow (led_id row) (hex_encode eh) (hex_encode ch) :: hash_rows ch rows
  end.

Definition chain_tip (st : AnchorDb) : hash :=
  match last (merge_sort hash_before (ledger_entry_hashes st)) with
  | Some h => hash_of_hex (eh_chain_hash h)
  | None => zero_hash
  end.

Definition backfill_entry_hashes (st : AnchorDb) : nat * AnchorDb :=
  let rows := fetch_unhashed_rows st in
  (length rows,
   set_entry_hashes (ledger_entry_hashes st ++ hash_rows (chain_tip st) rows) st).

(** ** Anchors *)

(** [SELECT COALESCE(MAX(last_entry_id), 0) .. WHERE status = 'confirmed']. *)
Definition last_anchored (st : AnchorDb) : Z :=
  match ar_last_entry_id <$> List.filter is_confirmed (ledger_anchors st) with
  | [] => 0
  | x :: l => foldl Z.max x l
  end.

Record PreparedAnchor : Type := mkPreparedAnchor {
  prepared_record : AnchorRecord;
  sign_command : string
}.

Definition prepare_anchor_locked (now : Z) (st : AnchorDb)
    : result anyhow (option PreparedAnchor * AnchorDb) :=
  guard? negb (existsb is_pending (ledger_anchors st))
    else (Bail "a pending anchor already exists — finalize or abandon it first") in
  let hashed := merge_sort hash_before
    (List.filter (fun h => last_anchored st <? eh_entry_id h) (ledger_entry_hashes st)) in
  match hashed with
  | [] => Ok (None, st)
  | _ =>
      let first := default 0 (eh_entry_id <$> head hashed) in
      let last_id := default 0 (eh_entry_id <$> last hashed) in
      let count := Z.of_nat (length hashed) in
      guard? i64_add (i64_sub last_id first) 1 =? count
        else (Bail ("ledger id range " +:+ show_z first +:+ "..=" +:+ show_z last_id +:+ " has gaps (" +:+
                    show_z count +:+ " rows) — investigate before anchoring")) in
      let root := merkle_root ((fun h => hash_of_hex (eh_entry_hash h)) <$> hashed) in
      let tip := default zero_hash ((fun h => hash_of_hex (eh_chain_hash h)) <$> last hashed) in
      let memo := anchor_memo first last_id count root tip in
      let id := ledger_anchors_seq st + 1 in
      let record := mkAnchorRecord id now first last_id count (hex_encode root) (hex_encode tip) memo
        "pending" None None in
      Ok (Some (mkPreparedAnchor record
            ("solana transfer <ANCHOR_AUTHORITY> 0.000001 --with-memo '" +:+ memo +:+
             "' --fee-payer <ANCHOR_AUTHORITY_KEYPAIR> --allow-unfunded-recipient")),
          set_anchors (ledger_anchors st ++ [record]) id st)
  end.

(** An error leaves the hashes of the backfill in place. *)
Definition prepare_anchor (now : Z) (st : AnchorDb) : result anyhow (option PreparedAnchor) * AnchorDb :=
  let st := (backfill_entry_hashes st).2 in
  match prepare_anchor_locked now st with
  | Ok (prepared, st) => (Ok prepared, st)
  | Err e => (Err e, st)
  end.

Definition confirm_anchor (now anchor_id : Z) (tx_signature : string) (st : AnchorDb)
    : result anyhow AnchorDb :=
  let '(updated, anchors) := update_pending anchor_id
    (with_status "confirmed" (Some tx_signature) (Some now)) (ledger_anchors st) in
  guard? negb (Nat.eqb updated 0)
    else (Bail ("anchor " +:+ show_z anchor_id +:+ " is not pending (already confirmed or unknown id)")) in
  Ok (set_anchors anchors (ledger_anchors_seq st) st).

Definition abandon_anchor (anchor_id : Z) (st : AnchorDb) : result anyhow AnchorDb :=
  let '(updated, anchors) := update_pending anchor_id
    (fun a => with_status "abandoned" (ar_tx_signature a) (ar_confirmed_at a) a) (ledger_anchors st) in
  guard? negb (Nat.eqb updated 0) else (Bail ("anchor " +:+ show_z anchor_id +:+ " is not pending")) in
  Ok (set_anchors anchors (ledger_anchors_seq st) st).

Definition pending_anchor_memo (anchor_id : Z) (st : AnchorDb) : option string :=
  ar_memo <$> head (List.filter (fun a => (ar_id a =? anchor_id) && is_pending a) (ledger_anchors st)).

Definition list_anchors (confirmed_only : bool) (st : AnchorDb) : list AnchorRecord :=
  merge_sort newer_anchor
    (if confirmed_only then List.filter is_confirmed (ledger_anchors st) else ledger_anchors st).

(** ** Inclusion proofs *)

(** The [entry] of the answer is the JSON of the row. *)
Record InclusionProof : Type := mkInclusionProof {
  ip_entry : LedgerRow;
  ip_entry_hash : string;
  ip_chain_hash : string;
  ip_proof : list ProofStep;
  ip_anchor : AnchorRecord
}.

Definition covers (entry_id : Z) (a : AnchorRecord) : bool :=
  is_confirmed a && (ar_first_entry_id a <=? entry_id) && (entry_id <=? ar_last_entry_id a).

(** The assertion of [merkle_proof] cannot fail after the range check. *)
Definition inclusion_proof_locked (entry_id : Z) (st : AnchorDb) : result anyhow (option InclusionProof) :=
  match head (List.filter (fun r => led_id r =? entry_id) (ledger (a_db st))) with
  | None => Ok None
  | Some row =>
      match head (merge_sort newer_anchor (List.filter (covers entry_id) (ledger_anchors st))) with
      | None => Ok None
      | Some anchor =>
          let hashed := merge_sort hash_before (List.filter (fun h =>
            (ar_first_entry_id anchor <=? eh_entry_id h) && (eh_entry_id h <=? ar_last_entry_id anchor))
            (ledger_entry_hashes st)) in
          let leaves := (fun h => hash_of_hex (eh_entry_hash h)) <$> hashed in
          let position := Z.to_nat (i64_sub entry_id (ar_first_entry_id anchor) mod 2 ^ 64) in
          let outside := Bail ("entry " +:+ show_z entry_id +:+ " outside reconstructed anchor range") in
          match merkle_proof leaves position, hashed !! position with
          | Some proof, Some h =>
              let recomputed := hex_encode (entry_hash row) in
              guard? bool_decide (recomputed = eh_entry_hash h)
                else (Bail ("entry " +:+ show_z entry_id +:+
                  " hash mismatch: row content changed after hashing (stored " +:+ eh_entry_hash h +:+
                  ", recomputed " +:+ recomputed +:+ ")")) in
              Ok (Some (mkInclusionProof row (eh_entry_hash h) (eh_chain_hash h) proof anchor))
          | _, _ => Err outside
          end
      end
  end.

Definition inclusion_proof (entry_id : Z) (st : AnchorDb)
    : result anyhow (option InclusionProof) * AnchorDb :=
  let st := (backfill_entry_hashes st).2 in
  (inclusion_proof_locked entry_id st, st).

End Anchoring.
