(* ===== verification/AnchoringFacts.v ===== *)
(** * Anchoring, next to a running ledger

    The machine that interleaves the operations of the ledger with the ones of
    [Anchoring], its invariant, and the theorems on it: the anchors that were
    confirmed partition a prefix of the ledger, preparing an anchor never
    meets a gap, and every row of that prefix has an inclusion proof that
    verifies against the root that was published for it. *)

From S2P Require Import Prelude Db RustStr Wallet Fixtures LedgerSystem AppendOnly Merkle Anchoring.
From stdpp Require Import sorting.

Open Scope string_scope.
Open Scope list_scope.
Open Scope Z_scope.

(** ** Lists numbered by a key *)

Section Consecutive.
Context {A : Type} (key : A -> Z).
Implicit Types (l : list A) (s : Z).

Definition consecutive s l : Prop := forall i x, l !! i = Some x -> key x = s + Z.of_nat i.

Lemma consecutive_cons s x l : consecutive s (x :: l) <-> key x = s /\ consecutive (s + 1) l.
Proof.
  split.
  - intros Hc. split; [rewrite (Hc 0%nat x); [lia|done]|]. intros i y Hy. rewrite (Hc (S i) y Hy). lia.
  - intros [Hx Hc] [|i] y; [intros [= <-]; lia|]. intros Hy. rewrite (Hc i y Hy). lia.
Qed.

Lemma consecutive_drop s l n : consecutive s l -> consecutive (s + Z.of_nat n) (drop n l).
Proof. intros Hc i x. rewrite lookup_drop. intros Hx. rewrite (Hc _ _ Hx). lia. Qed.

Lemma consecutive_take s l n : consecutive s l -> consecutive s (take n l).
Proof. intros Hc i x [Hx _]%lookup_take_Some. by apply Hc. Qed.

Lemma consecutive_seqZ l s : consecutive s l <-> key <$> l = seqZ s (Z.of_nat (length l)).
Proof.
  split.
  - intros Hc. apply list_eq. intros i. rewrite list_lookup_fmap. destruct (l !! i) as [x|] eqn:E.
    + simpl. rewrite lookup_seqZ_lt by (apply lookup_lt_Some in E; lia). by rewrite (Hc i x E).
    + rewrite lookup_seqZ_ge; [done|]. apply lookup_ge_None in E. lia.
  - intros E i x Hx. assert ((key <$> l) !! i = Some (key x)) as Hk by by rewrite list_lookup_fmap, Hx.
    rewrite E in Hk. by apply lookup_seqZ in Hk as [-> _].
Qed.

(** A range of keys is a segment of the list. *)
Lemma filter_between s l a b :
  consecutive s l ->
  List.filter (fun x => (a <=? key x) && (key x <=? b)) l =
  take (Z.to_nat (b + 1 - Z.max a s)) (drop (Z.to_nat (a - s)) l).
Proof.
  revert s. induction l as [|x l IH]; intros s Hc; [by rewrite drop_nil, take_nil|].
  apply consecutive_cons in Hc as [Hx Hc]. cbn [List.filter]. rewrite (IH _ Hc), Hx.
  destruct (Z.leb_spec a s); cbn [andb]; [destruct (Z.leb_spec s b)|].
  - replace (Z.to_nat (a - s)) with 0%nat by lia. replace (Z.to_nat (a - (s + 1))) with 0%nat by lia.
    rewrite !drop_0. replace (Z.to_nat (b + 1 - Z.max a s)) with (S (Z.to_nat (b + 1 - Z.max a (s + 1)))) by lia.
    done.
  - replace (Z.to_nat (b + 1 - Z.max a s)) with 0%nat by lia.
    by replace (Z.to_nat (b + 1 - Z.max a (s + 1))) with 0%nat by lia.
  - replace (Z.to_nat (a - s)) with (S (Z.to_nat (a - (s + 1)))) by lia.
    by replace (Z.max a (s + 1)) with (Z.max a s) by lia.
Qed.

(** Sorting a list whose keys already increase gives it back. *)
Lemma merge_sort_consecutive (R : A -> A -> Prop) `{!forall x y, Decision (R x y)} s l :
  (forall x y, R x y <-> key x <= key y) -> consecutive s l -> merge_sort R l = l.
Proof.
  intros HR Hc.
  assert (Transitive R) as Ht by (intros x y z; rewrite !HR; lia).
  assert (Total R) as Htot by (intros x y; rewrite !HR; lia).
  apply (StronglySorted_unique_strong R).
  - intros x y Hx Hy. rewrite (merge_sort_Permutation R l) in Hx.
    apply list_elem_of_lookup in Hx as [i Hi]. apply list_elem_of_lookup in Hy as [j Hj]. rewrite !HR.
    rewrite (Hc i x Hi), (Hc j y Hj). intros. assert (i = j) as -> by lia. congruence.
  - apply StronglySorted_merge_sort; apply _.
  - clear Htot Ht. revert s Hc. induction l as [|x l IH]; intros s Hc; [constructor|].
    apply consecutive_cons in Hc as [Hx Hc]. constructor; [by eapply IH|]. apply Forall_forall.
    intros y Hy. apply HR. apply list_elem_of_lookup in Hy as [i Hi]. rewrite (Hc i y Hi). lia.
  - apply merge_sort_Permutation.
Qed.

Lemma list_filter_ext (p q : A -> bool) l :
  (forall i x, l !! i = Some x -> p x = q x) -> List.filter p l = List.filter q l.
Proof.
  intros Hpq. apply List.filter_ext_in. intros x Hx. apply list_elem_of_In, list_elem_of_lookup in Hx as [i Hi].
  by eapply Hpq.
Qed.
End Consecutive.

(** ** The machine *)

Inductive AnchorOp : Type :=
| ALedger (op : LedgerOp)
| ABackfill
| APrepare (now : Z)
| AConfirm (now anchor_id : Z) (tx_signature : string)
| AAbandon (anchor_id : Z).

Section Machine.
Context `{Crates}.

(** [APrepare] is the half of [prepare_anchor] under its second lock; the
    backfill before it is a step of its own. *)
Definition apply_anchor_op (op : AnchorOp) (st : AnchorDb) : AnchorDb :=
  match op with
  | ALedger op => set_a_db (apply_op op (a_db st)) st
  | ABackfill => (backfill_entry_hashes st).2
  | APrepare now => match prepare_anchor_locked now st with Ok (_, st') => st' | Err _ => st end
  | AConfirm now i sig => match confirm_anchor now i sig st with Ok st' => st' | Err _ => st end
  | AAbandon i => match abandon_anchor i st with Ok st' => st' | Err _ => st end
  end.

Definition anchor_genesis : AnchorDb := mkAnchorDb genesis [] [] 0.

(** A genesis reset is not a step. *)
Inductive anchor_reachable : AnchorDb -> Prop :=
| anchor_init : anchor_reachable anchor_genesis
| anchor_step op st : anchor_reachable st -> anchor_reachable (apply_anchor_op op st).

(** ** The invariant *)

(** Rows [first .. last] of the ledger. *)
Definition segment (first last : Z) (rows : list LedgerRow) : list LedgerRow :=
  take (Z.to_nat (last - first + 1)) (drop (Z.to_nat (first - 1)) rows).

(** The anchor describes the rows of its range; [m] rows are hashed. *)
Record anchor_ok (rows : list LedgerRow) (m : nat) (a : AnchorRecord) : Prop := mk_anchor_ok {
  ok_range : 1 <= ar_first_entry_id a <= ar_last_entry_id a /\ ar_last_entry_id a <= Z.of_nat m;
  ok_count : ar_entry_count a = ar_last_entry_id a - ar_first_entry_id a + 1;
  ok_root : ar_merkle_root a =
    hex_encode (merkle_root (entry_hash <$> segment (ar_first_entry_id a) (ar_last_entry_id a) rows));
  ok_tip : ar_chain_tip a =
    hex_encode (chain_from zero_hash (take (Z.to_nat (ar_last_entry_id a)) rows));
  ok_memo : ar_memo a = anchor_memo (ar_first_entry_id a) (ar_last_entry_id a) (ar_entry_count a)
    (merkle_root (entry_hash <$> segment (ar_first_entry_id a) (ar_last_entry_id a) rows))
    (chain_from zero_hash (take (Z.to_nat (ar_last_entry_id a)) rows))
}.

(** Consecutive ranges from [from + 1] to [to]. *)
Fixpoint tiles (from : Z) (l : list AnchorRecord) (to : Z) : Prop :=
  match l with
  | [] => from = to
  | a :: l => ar_first_entry_id a = from + 1 /\ from < ar_last_entry_id a /\ tiles (ar_last_entry_id a) l to
  end.

Definition settled (a : AnchorRecord) : Prop := ar_status a = "confirmed" \/ ar_status a = "abandoned".

Record anchors_inv (st : AnchorDb) (m : nat) (to : Z) (done pend : list AnchorRecord) : Prop := mk_anchors_inv {
  inv_numbered : ledger_numbered (a_db st);
  inv_hashed : (m <= length (ledger (a_db st)))%nat /\
    ledger_entry_hashes st = hash_rows zero_hash (take m (ledger (a_db st)));
  inv_split : ledger_anchors st = done ++ pend;
  inv_done : Forall settled done;
  inv_pend : pend = [] \/ exists p, pend = [p] /\ ar_status p = "pending" /\ ar_first_entry_id p = to + 1;
  inv_tiles : tiles 0 (List.filter is_confirmed done) to;
  inv_ok : Forall (anchor_ok (ledger (a_db st)) m) (ledger_anchors st)
}.

(** ** Hash rows *)

Context {laws : CrateLaws}.

Lemma hash_of_hex_encode h : length h = 32%nat -> hash_of_hex (hex_encode h) = h.
Proof. intros Hh. unfold hash_of_hex. by rewrite hex_decode_encode, Hh. Qed.

Lemma hash_rows_app prev l k :
  hash_rows prev (l ++ k) = hash_rows prev l ++ hash_rows (chain_from prev l) k.
Proof. revert prev. induction l as [|r l IH]; intros prev; [done|]. simpl. by rewrite IH. Qed.

Lemma hash_rows_length prev l : length (hash_rows prev l) = length l.
Proof. revert prev. induction l as [|r l IH]; intros prev; [done|]. simpl. by rewrite IH. Qed.

Lemma hash_rows_ids prev l : eh_entry_id <$> hash_rows prev l = led_id <$> l.
Proof. revert prev. induction l as [|r l IH]; intros prev; [done|]. rewrite fmap_cons. simpl. f_equal. apply IH. Qed.

Lemma hash_rows_consecutive prev s l :
  consecutive led_id s l -> consecutive eh_entry_id s (hash_rows prev l).
Proof. rewrite !consecutive_seqZ, hash_rows_ids, hash_rows_length. done. Qed.

Lemma hash_rows_take prev n l : take n (hash_rows prev l) = hash_rows prev (take n l).
Proof. revert prev n. induction l as [|r l IH]; intros prev [|n]; [done..|]. simpl. by rewrite IH. Qed.

Lemma hash_rows_drop prev n l :
  drop n (hash_rows prev l) = hash_rows (chain_from prev (take n l)) (drop n l).
Proof. revert prev n. induction l as [|r l IH]; intros prev [|n]; [done..|]. simpl. by rewrite IH. Qed.

Lemma hash_rows_leaves prev l :
  (fun h => hash_of_hex (eh_entry_hash h)) <$> hash_rows prev l = entry_hash <$> l.
Proof.
  revert prev. induction l as [|r l IH]; intros prev; [done|]. cbn [hash_rows]. rewrite !fmap_cons, IH.
  cbn [eh_entry_hash]. by rewrite hash_of_hex_encode by apply sha256_length.
Qed.

Lemma hash_rows_last prev l :
  last (hash_rows prev l) = None /\ l = [] \/
  exists h, last (hash_rows prev l) = Some h /\ hash_of_hex (eh_chain_hash h) = chain_from prev l /\
    l <> [] /\ Some (eh_entry_id h) = led_id <$> last l.
Proof.
  destruct l as [|r l _] using rev_ind; [by left|right]. rewrite hash_rows_app, chain_from_snoc. simpl.
  rewrite !last_snoc. eexists. split_and!; [done| |by destruct l|done]. simpl. apply hash_of_hex_encode, sha256_length.
Qed.

Lemma numbered_consecutive db : ledger_numbered db -> consecutive led_id 1 (ledger db).
Proof. intros [_ Hn]. by apply consecutive_seqZ. Qed.

Lemma hash_before_key x y : hash_before x y <-> eh_entry_id x <= eh_entry_id y.
Proof. done. Qed.

Section Invariant.
Context (st : AnchorDb) (m : nat) (to : Z) (done pend : list AnchorRecord).
Hypothesis Hinv : anchors_inv st m to done pend.
Abbreviation rows := (ledger (a_db st)).

Lemma inv_rows : consecutive led_id 1 rows.
Proof. apply numbered_consecutive, Hinv. Qed.

Lemma inv_hashes : consecutive eh_entry_id 1 (ledger_entry_hashes st).
Proof. rewrite (proj2 (inv_hashed _ _ _ _ _ Hinv)). apply hash_rows_consecutive, consecutive_take, inv_rows. Qed.

Lemma inv_hashes_length : length (ledger_entry_hashes st) = m.
Proof. destruct (inv_hashed _ _ _ _ _ Hinv) as [Hm ->]. rewrite hash_rows_length, length_take. lia. Qed.

Lemma inv_is_hashed i : is_hashed st (1 + Z.of_nat i) = Nat.ltb i m.
Proof.
  unfold is_hashed. apply eq_bool_prop_intro. rewrite !Is_true_true, existsb_exists, Nat.ltb_lt. split.
  - intros (h & Hh & E). apply list_elem_of_In, list_elem_of_lookup in Hh as [j Hj]. apply Z.eqb_eq in E.
    rewrite (inv_hashes j h Hj) in E. apply lookup_lt_Some in Hj. rewrite inv_hashes_length in Hj. lia.
  - intros Hi. destruct (lookup_lt_is_Some_2 (ledger_entry_hashes st) i) as [h Hh]; [by rewrite inv_hashes_length|].
    exists h. split; [by apply list_elem_of_In, (list_elem_of_lookup_2 _ i)|]. apply Z.eqb_eq. by apply inv_hashes.
Qed.

Lemma inv_unhashed : fetch_unhashed_rows st = drop m rows.
Proof.
  unfold fetch_unhashed_rows.
  rewrite (list_filter_ext _ (fun r => (Z.of_nat m + 1 <=? led_id r) && (led_id r <=? Z.of_nat (length rows)))).
  2:{ intros i r Hr. rewrite (inv_rows i r Hr), inv_is_hashed. apply lookup_lt_Some in Hr.
      apply eq_bool_prop_intro. rewrite !Is_true_true, negb_true_iff, andb_true_iff, Nat.ltb_ge, !Z.leb_le. lia. }
  rewrite (filter_between _ _ _ _ _ inv_rows).
  replace (Z.to_nat (Z.of_nat m + 1 - 1)) with m by lia.
  pose proof (proj1 (inv_hashed _ _ _ _ _ Hinv)).
  rewrite take_ge by (rewrite length_drop; lia).
  eapply (merge_sort_consecutive led_id); [done|]. apply consecutive_drop, inv_rows.
Qed.

Lemma inv_chain_tip : chain_tip st = chain_from zero_hash (take m rows).
Proof.
  unfold chain_tip. rewrite (merge_sort_consecutive eh_entry_id _ 1) by (done || apply inv_hashes).
  rewrite (proj2 (inv_hashed _ _ _ _ _ Hinv)).
  destruct (hash_rows_last zero_hash (take m rows)) as [[-> ->]|(h & -> & -> & _)]; done.
Qed.

Lemma inv_backfill :
  (backfill_entry_hashes st).2 = set_entry_hashes (hash_rows zero_hash rows) st.
Proof.
  unfold backfill_entry_hashes. cbn [snd]. rewrite inv_chain_tip, inv_unhashed.
  rewrite (proj2 (inv_hashed _ _ _ _ _ Hinv)) at 1. by rewrite <-hash_rows_app, take_drop.
Qed.
End Invariant.

(** ** Ranges *)

Lemma segment_app first last rows new :
  1 <= first <= last -> last <= Z.of_nat (length rows) ->
  segment first last (rows ++ new) = segment first last rows.
Proof.
  intros Hf Hl. unfold segment. rewrite drop_app_le by lia. rewrite take_app_le; [done|]. rewrite length_drop. lia.
Qed.

Lemma anchor_ok_mono rows new m m' a :
  anchor_ok rows m a -> (m <= length rows)%nat -> (m <= m')%nat -> anchor_ok (rows ++ new) m' a.
Proof.
  intros [Hr Hc Hroot Htip Hm] Hl Hmm.
  assert (segment (ar_first_entry_id a) (ar_last_entry_id a) (rows ++ new) =
    segment (ar_first_entry_id a) (ar_last_entry_id a) rows) as Es by (apply segment_app; lia).
  assert (take (Z.to_nat (ar_last_entry_id a)) (rows ++ new) = take (Z.to_nat (ar_last_entry_id a)) rows) as Et
    by (apply take_app_le; lia).
  split; rewrite ?Es, ?Et; [lia|done..].
Qed.

Lemma tiles_snoc from l a to :
  tiles from l to -> ar_first_entry_id a = to + 1 -> to < ar_last_entry_id a ->
  tiles from (l ++ [a]) (ar_last_entry_id a).
Proof.
  revert from. induction l as [|x l IH]; intros from; simpl; [by intros ->|]. intros (? & ? & ?) ? ?. auto.
Qed.

Lemma tiles_le from l to : tiles from l to -> from <= to.
Proof.
  revert from. induction l as [|a l IH]; intros from; simpl; [lia|]. intros (_ & ? & Ht). apply IH in Ht. lia.
Qed.

Lemma tiles_max from l to : tiles from l to -> foldl Z.max from (ar_last_entry_id <$> l) = to.
Proof.
  revert from. induction l as [|a l IH]; intros from; [done|]. intros (_ & Hlt & Ht). cbn [fmap list_fmap foldl].
  rewrite Z.max_r by lia. by apply IH.
Qed.

Lemma tiles_bound from l to b :
  tiles from l to -> from <= b -> Forall (fun a => ar_last_entry_id a <= b) l -> to <= b.
Proof.
  revert from. induction l as [|a l IH]; intros from; simpl; [lia|].
  intros (_ & _ & Ht) Hb [Ha Hl]%Forall_cons. eauto.
Qed.

(** Every id of the tiled range is in exactly one of the tiles. *)
Lemma tiles_cover from l to e :
  tiles from l to -> from < e <= to ->
  exists a, List.filter (fun a => (ar_first_entry_id a <=? e) && (e <=? ar_last_entry_id a)) l = [a].
Proof.
  revert from. induction l as [|a l IH]; intros from; simpl; [lia|]. intros (Hf & Hlt & Ht) He.
  destruct (Z.leb_spec (ar_first_entry_id a) e); [|lia]. cbn [andb].
  destruct (Z.leb_spec e (ar_last_entry_id a)) as [Hle|Hgt]; [|by apply (IH (ar_last_entry_id a)); [|lia]].
  exists a. f_equal. clear IH Hf Hlt. revert e Hle Ht He H0. generalize (ar_last_entry_id a) as b.
  induction l as [|x l IH]; [done|]. intros b e Hle (Hf & Hlt & Ht) He H0. simpl.
  destruct (Z.leb_spec (ar_first_entry_id x) e); [lia|]. cbn [andb]. apply (IH (ar_last_entry_id x)); [lia|done|lia|lia].
Qed.

Lemma settled_not_pending a : settled a -> is_pending a = false.
Proof. unfold is_pending. intros [E|E]; rewrite E; done. Qed.

Lemma pending_not_confirmed a : ar_status a = "pending" -> is_confirmed a = false.
Proof. unfold is_confirmed. by intros ->. Qed.

Lemma update_pending_settled i f l : Forall settled l -> update_pending i f l = (0%nat, l).
Proof.
  unfold update_pending. induction 1 as [|a l Ha _ IH]; [done|]. cbn [List.filter].
  rewrite (settled_not_pending a Ha), andb_false_r. injection IH as E1 E2. rewrite E1, fmap_cons.
  rewrite (settled_not_pending a Ha), andb_false_r. by rewrite E2.
Qed.

Lemma update_pending_app i f l k :
  update_pending i f (l ++ k) =
  (((update_pending i f l).1 + (update_pending i f k).1)%nat, (update_pending i f l).2 ++ (update_pending i f k).2).
Proof. unfold update_pending. simpl. by rewrite List.filter_app, length_app, fmap_app. Qed.

Section Facts.
Context (st : AnchorDb) (m : nat) (to : Z) (done pend : list AnchorRecord).
Hypothesis Hinv : anchors_inv st m to done pend.
Abbreviation rows := (ledger (a_db st)).

Lemma inv_confirmed : List.filter is_confirmed (ledger_anchors st) = List.filter is_confirmed done.
Proof.
  rewrite (inv_split _ _ _ _ _ Hinv), List.filter_app.
  destruct (inv_pend _ _ _ _ _ Hinv) as [->|(p & -> & Hp & _)]; cbn [List.filter];
    [|rewrite (pending_not_confirmed p Hp)]; apply app_nil_r.
Qed.

Lemma inv_last_anchored : last_anchored st = to.
Proof.
  unfold last_anchored. rewrite inv_confirmed. pose proof (inv_tiles _ _ _ _ _ Hinv) as Ht.
  pose proof (tiles_max _ _ _ Ht) as Hm. destruct (List.filter is_confirmed done) as [|a l]; [exact Hm|].
  destruct Ht as (_ & ? & _). cbn [fmap list_fmap foldl] in *. by rewrite Z.max_r in Hm by lia.
Qed.

Lemma inv_to : 0 <= to <= Z.of_nat m.
Proof.
  pose proof (inv_tiles _ _ _ _ _ Hinv) as Ht. split; [by apply tiles_le in Ht|].
  apply (tiles_bound 0 (List.filter is_confirmed done)); [done|lia|].
  apply Forall_forall. intros a Ha. pose proof (inv_ok _ _ _ _ _ Hinv) as Hok.
  rewrite Forall_forall in Hok. apply list_elem_of_In, filter_In in Ha as [Ha _].
  apply list_elem_of_In in Ha. destruct (Hok a) as [Hr _ _ _ _]; [|lia].
  rewrite (inv_split _ _ _ _ _ Hinv). set_solver.
Qed.

Lemma inv_no_pending : existsb is_pending (ledger_anchors st) = false -> pend = [].
Proof.
  rewrite (inv_split _ _ _ _ _ Hinv), existsb_app. intros [_ Hp]%orb_false_iff.
  destruct (inv_pend _ _ _ _ _ Hinv) as [->|(p & -> & Hs & _)]; [done|]. simpl in Hp.
  unfold is_pending in Hp. by rewrite Hs in Hp.
Qed.

(** The rows that a new anchor takes up. *)
Lemma inv_new_rows :
  merge_sort hash_before (List.filter (fun h => last_anchored st <? eh_entry_id h) (ledger_entry_hashes st)) =
  hash_rows (chain_from zero_hash (take (Z.to_nat to) rows)) (drop (Z.to_nat to) (take m rows)).
Proof.
  pose proof (inv_hashes _ _ _ _ _ Hinv) as Hc. pose proof inv_to as Hto.
  rewrite (list_filter_ext _ (fun h => (to + 1 <=? eh_entry_id h) && (eh_entry_id h <=? Z.of_nat m))).
  2:{ intros i h Hh. rewrite inv_last_anchored. pose proof (Hc i h Hh) as E. apply lookup_lt_Some in Hh.
      rewrite (inv_hashes_length _ _ _ _ _ Hinv) in Hh. apply eq_bool_prop_intro.
      rewrite !Is_true_true, andb_true_iff, Z.ltb_lt, !Z.leb_le. lia. }
  rewrite (filter_between _ _ _ _ _ Hc). replace (Z.to_nat (to + 1 - 1)) with (Z.to_nat to) by lia.
  rewrite take_ge by (rewrite length_drop, (inv_hashes_length _ _ _ _ _ Hinv); lia).
  rewrite (merge_sort_consecutive eh_entry_id _ (1 + Z.of_nat (Z.to_nat to))) by (done || by apply consecutive_drop).
  rewrite (proj2 (inv_hashed _ _ _ _ _ Hinv)), hash_rows_drop, take_take. by rewrite Nat.min_l by lia.
Qed.

(** The anchor that is prepared now. *)
Definition next_anchor (now : Z) : AnchorRecord :=
  let root := merkle_root (entry_hash <$> segment (to + 1) (Z.of_nat m) rows) in
  let tip := chain_from zero_hash (take m rows) in
  mkAnchorRecord (ledger_anchors_seq st + 1) now (to + 1) (Z.of_nat m) (Z.of_nat m - to) (hex_encode root)
    (hex_encode tip) (anchor_memo (to + 1) (Z.of_nat m) (Z.of_nat m - to) root tip) "pending" None None.

Lemma segment_new : segment (to + 1) (Z.of_nat m) rows = drop (Z.to_nat to) (take m rows).
Proof.
  pose proof inv_to. unfold segment. replace (Z.to_nat (to + 1 - 1)) with (Z.to_nat to) by lia.
  rewrite skipn_firstn_comm. f_equal. lia.
Qed.

Lemma new_rows_ids :
  let new := drop (Z.to_nat to) (take m rows) in
  new <> [] -> led_id <$> head new = Some (to + 1) /\ led_id <$> last new = Some (Z.of_nat m) /\
  Z.of_nat (length new) = Z.of_nat m - to.
Proof.
  intros new Hne. pose proof inv_to as Hto. pose proof (proj1 (inv_hashed _ _ _ _ _ Hinv)) as Hm.
  assert (consecutive led_id (to + 1) new) as Hc.
  { replace (to + 1) with (1 + Z.of_nat (Z.to_nat to)) by lia.
    apply consecutive_drop, consecutive_take, (inv_rows _ _ _ _ _ Hinv). }
  assert (length new = m - Z.to_nat to)%nat as Hlen by (unfold new; rewrite length_drop, length_take; lia).
  assert (0 < length new)%nat by (destruct new; [done|simpl; lia]).
  split_and!; [| |lia].
  - rewrite head_lookup. destruct (new !! 0%nat) as [x|] eqn:E; [|apply lookup_ge_None in E; lia].
    simpl. rewrite (Hc 0%nat x E). f_equal. lia.
  - rewrite last_lookup. destruct (new !! Nat.pred (length new)) as [x|] eqn:E; [|apply lookup_ge_None in E; lia].
    simpl. rewrite (Hc _ x E). f_equal. lia.
Qed.

Lemma prepare_locked now :
  Z.of_nat (length rows) <= i64_max ->
  prepare_anchor_locked now st =
    if existsb is_pending (ledger_anchors st)
    then Err (Bail "a pending anchor already exists — finalize or abandon it first")
    else if bool_decide (to = Z.of_nat m) then Ok (None, st)
    else Ok (Some (mkPreparedAnchor (next_anchor now)
           ("solana transfer <ANCHOR_AUTHORITY> 0.000001 --with-memo '" +:+ ar_memo (next_anchor now) +:+
            "' --fee-payer <ANCHOR_AUTHORITY_KEYPAIR> --allow-unfunded-recipient")),
           set_anchors (ledger_anchors st ++ [next_anchor now]) (ledger_anchors_seq st + 1) st).
Proof.
  intros Hfits. unfold prepare_anchor_locked. destruct (existsb is_pending (ledger_anchors st)); [done|]. cbn [negb].
  rewrite inv_new_rows. set (new := drop (Z.to_nat to) (take m rows)). cbv zeta.
  pose proof (proj1 (inv_hashed _ _ _ _ _ Hinv)) as Hm. pose proof inv_to as Hto.
  assert (length new = m - Z.to_nat to)%nat as Hlen by (unfold new; rewrite length_drop, length_take; lia).
  case_bool_decide as Hfull.
  { assert (new = []) as -> by (apply nil_length_inv; lia). done. }
  assert (new <> []) as Hne by (intros E; rewrite E in Hlen; simpl in Hlen; lia).
  destruct (new_rows_ids Hne) as (Hhead & Hlast & Hcount). fold new in Hhead, Hlast, Hcount.
  set (c := chain_from zero_hash (take (Z.to_nat to) rows)).
  destruct (hash_rows_last c new) as [[_ ->]|(h & El & Ech & _ & Eid)]; [done|].
  assert (eh_entry_id <$> head (hash_rows c new) = Some (to + 1)) as Eh by by destruct new.
  rewrite Hlast in Eid. injection Eid as Eid.
  assert (chain_from c new = chain_from zero_hash (take m rows)) as Echain.
  { unfold c, chain_from. rewrite <-foldl_app. f_equal. unfold new.
    rewrite <-(take_drop (Z.to_nat to) (take m rows)) at 2. f_equal. rewrite take_take. f_equal. lia. }
  destruct (hash_rows c new) as [|h0 hs] eqn:Ehs; [by destruct new|]. rewrite <-Ehs in *. clear Ehs h0 hs.
  rewrite Eh, El, hash_rows_leaves, hash_rows_length. cbn [fmap option_fmap option_map default].
  rewrite Eid, Ech, Echain, Hcount. unfold next_anchor. rewrite segment_new. fold new.
  unfold id. rewrite i64_sub_id by range. rewrite i64_add_id by range.
  replace (Z.of_nat m - (to + 1) + 1 =? Z.of_nat m - to) with true by (symmetry; apply Z.eqb_eq; lia).
  done.
Qed.

Lemma next_anchor_ok now : to < Z.of_nat m -> anchor_ok rows m (next_anchor now).
Proof.
  pose proof inv_to. intros Hlt. split; simpl; [lia|lia|done| |]; by rewrite Nat2Z.id.
Qed.

(** ** Inclusion proofs *)

Lemma find_row i row :
  rows !! i = Some row -> head (List.filter (fun r => led_id r =? led_id row) rows) = Some row.
Proof.
  intros Hi. pose proof (inv_rows _ _ _ _ _ Hinv) as Hc. rewrite (Hc i row Hi).
  rewrite (list_filter_ext _ (fun r => (1 + Z.of_nat i <=? led_id r) && (led_id r <=? 1 + Z.of_nat i))).
  2:{ intros j r _. apply eq_bool_prop_intro. rewrite !Is_true_true, andb_true_iff, Z.eqb_eq, !Z.leb_le. lia. }
  rewrite (filter_between _ _ _ _ _ Hc). replace (Z.to_nat (1 + Z.of_nat i - 1)) with i by lia.
  rewrite (drop_S _ _ _ Hi). by replace (Z.to_nat _) with 1%nat by lia.
Qed.

Lemma covers_filter e (l : list AnchorRecord) :
  List.filter (covers e) l =
  List.filter (fun a => (ar_first_entry_id a <=? e) && (e <=? ar_last_entry_id a)) (List.filter is_confirmed l).
Proof.
  induction l as [|a l IH]; [done|]. cbn [List.filter]. unfold covers at 1. destruct (is_confirmed a); simpl; [|done].
  by rewrite IH.
Qed.

(** Exactly one confirmed anchor covers an id up to [to]. *)
Lemma find_anchor e : 1 <= e <= to -> exists a, List.filter (covers e) (ledger_anchors st) = [a].
Proof.
  intros He. rewrite covers_filter, inv_confirmed. apply (tiles_cover 0 _ to); [apply Hinv|lia].
Qed.

Lemma anchor_hashes a :
  anchor_ok rows m a ->
  exists c, merge_sort hash_before (List.filter (fun h =>
      (ar_first_entry_id a <=? eh_entry_id h) && (eh_entry_id h <=? ar_last_entry_id a))
      (ledger_entry_hashes st)) =
    hash_rows c (segment (ar_first_entry_id a) (ar_last_entry_id a) rows).
Proof.
  intros [Hr _ _ _ _]. pose proof (inv_hashes _ _ _ _ _ Hinv) as Hc.
  pose proof (proj1 (inv_hashed _ _ _ _ _ Hinv)) as Hm.
  rewrite (filter_between _ _ _ _ _ Hc).
  rewrite (merge_sort_consecutive eh_entry_id _ (1 + Z.of_nat (Z.to_nat (ar_first_entry_id a - 1))))
    by (done || by apply consecutive_take, consecutive_drop).
  rewrite (proj2 (inv_hashed _ _ _ _ _ Hinv)), hash_rows_drop, hash_rows_take. eexists. f_equal.
  rewrite <-(take_drop m rows) at 2. rewrite segment_app; [|lia|rewrite length_take; lia].
  unfold segment. f_equal. lia.
Qed.

Lemma hash_rows_lookup prev l i row :
  l !! i = Some row ->
  exists h, hash_rows prev l !! i = Some h /\ eh_entry_hash h = hex_encode (entry_hash row).
Proof.
  revert prev i. induction l as [|r l IH]; intros prev [|i]; [done..| |].
  - intros [= ->]. by eexists.
  - intros Hi. apply (IH (chain_hash prev (entry_hash r)) i Hi).
Qed.

Lemma segment_lookup first last (l : list LedgerRow) i :
  1 <= first -> first - 1 <= Z.of_nat i < last ->
  segment first last l !! Z.to_nat (Z.of_nat i + 1 - first) = l !! i.
Proof.
  intros Hf Hi. unfold segment. rewrite lookup_take_lt by lia. rewrite lookup_drop. f_equal. lia.
Qed.

Lemma inclusion_locked i row :
  Z.of_nat (length rows) <= i64_max -> rows !! i = Some row -> led_id row <= to ->
  exists p, inclusion_proof_locked (led_id row) st = Ok (Some p) /\ ip_entry p = row /\
    ip_anchor p ∈ ledger_anchors st /\ covers (led_id row) (ip_anchor p) = true /\
    verify_proof (entry_hash row) (ip_proof p) (hash_of_hex (ar_merkle_root (ip_anchor p))) = true.
Proof.
  intros Hfits Hi Hle. pose proof (inv_rows _ _ _ _ _ Hinv i row Hi) as Hid.
  destruct (find_anchor (led_id row)) as [a Ha]; [lia|].
  assert (a ∈ ledger_anchors st /\ covers (led_id row) a = true) as [Hin Hcov].
  { rewrite list_elem_of_In, <-filter_In, Ha. by left. }
  pose proof (inv_ok _ _ _ _ _ Hinv) as Hok. rewrite Forall_forall in Hok. specialize (Hok a Hin).
  pose proof (proj1 (inv_hashed _ _ _ _ _ Hinv)) as Hm.
  unfold covers in Hcov. rewrite !andb_true_iff, !Z.leb_le in Hcov. destruct Hcov as [[Hconf Hf] Hl].
  pose proof (ok_range _ _ _ Hok) as Hr.
  destruct (anchor_hashes a Hok) as [c Hc].
  unfold inclusion_proof_locked. rewrite (find_row i row Hi), Ha. cbn [merge_sort head].
  change (head (merge_sort newer_anchor [a])) with (Some a). cbv iota beta zeta. rewrite Hc, hash_rows_leaves.
  set (seg := segment (ar_first_entry_id a) (ar_last_entry_id a) rows).
  replace (Z.to_nat (i64_sub (led_id row) (ar_first_entry_id a) mod 2 ^ 64))
    with (Z.to_nat (Z.of_nat i + 1 - ar_first_entry_id a)).
  2:{ rewrite i64_sub_id by range. rewrite Z.mod_small by range. lia. }
  assert (seg !! Z.to_nat (Z.of_nat i + 1 - ar_first_entry_id a) = Some row) as Hseg
    by (unfold seg; rewrite segment_lookup by lia; done).
  destruct (verify_merkle_proof (entry_hash <$> seg) (Z.to_nat (Z.of_nat i + 1 - ar_first_entry_id a)) (entry_hash row))
    as (proof & Hp & Hv); [apply entry_hashes_hashes|by rewrite list_lookup_fmap, Hseg|].
  destruct (hash_rows_lookup c seg _ row Hseg) as (h & Hh & Eh). rewrite Hp, Hh. cbv zeta.
  rewrite Eh, bool_decide_true by done. eexists. split; [done|]. cbn [ip_entry ip_anchor ip_proof].
  split_and!; [done|done| |].
  - unfold covers. by rewrite !andb_true_iff, !Z.leb_le.
  - rewrite (ok_root _ _ _ Hok), hash_of_hex_encode; [done|]. apply merkle_root_length, entry_hashes_hashes.
Qed.
End Facts.

(** ** Every reachable state *)

Lemma anchor_step_appends op st : appends (a_db st) (a_db (apply_anchor_op op st)).
Proof.
  destruct op as [op| |now|now i sig|i]; cbn [apply_anchor_op].
  - apply apply_op_appends.
  - apply appends_refl.
  - unfold prepare_anchor_locked. destruct (negb _); [|apply appends_refl].
    destruct (merge_sort _ _); [apply appends_refl|]. cbv zeta. destruct (_ =? _); apply appends_refl.
  - unfold confirm_anchor. destruct (update_pending _ _ _). destruct (negb _); apply appends_refl.
  - unfold abandon_anchor. destruct (update_pending _ _ _). destruct (negb _); apply appends_refl.
Qed.

Lemma inv_same_tables st st' m to done pend anchors done' pend' to' :
  anchors_inv st m to done pend -> a_db st' = a_db st -> ledger_entry_hashes st' = ledger_entry_hashes st ->
  ledger_anchors st' = anchors -> anchors = done' ++ pend' -> Forall settled done' ->
  (pend' = [] \/ exists p, pend' = [p] /\ ar_status p = "pending" /\ ar_first_entry_id p = to' + 1) ->
  tiles 0 (List.filter is_confirmed done') to' -> Forall (anchor_ok (ledger (a_db st)) m) anchors ->
  anchors_inv st' m to' done' pend'.
Proof. intros [] E1 E2 E3 -> Hd Hp Ht Hok. split; rewrite ?E1, ?E2, ?E3; done. Qed.

Lemma inv_ledger op st m to done pend :
  anchors_inv st m to done pend -> anchors_inv (set_a_db (apply_op op (a_db st)) st) m to done pend.
Proof.
  intros [Hn [Hm Hh] Hs Hd Hp Ht Hok]. pose proof (apply_op_appends op (a_db st)) as Ha.
  pose proof (appends_numbered _ _ Ha Hn) as Hn'. destruct Ha as (new & Hl & _). split; cbn [a_db ledger_entry_hashes
    ledger_anchors set_a_db]; [done| |done..|].
  - rewrite Hl, length_app, take_app_le by lia. split; [lia|done].
  - rewrite Hl. apply (Forall_impl _ _ _ Hok). intros a Ha. by apply (anchor_ok_mono _ _ m).
Qed.

Lemma inv_backfilled st m to done pend :
  anchors_inv st m to done pend ->
  anchors_inv (backfill_entry_hashes st).2 (length (ledger (a_db st))) to done pend.
Proof.
  intros Hinv. rewrite (inv_backfill _ _ _ _ _ Hinv). destruct Hinv as [Hn [Hm Hh] Hs Hd Hp Ht Hok].
  split; cbn [a_db ledger_entry_hashes ledger_anchors set_entry_hashes]; [done| |done..|].
  - by rewrite take_ge by lia.
  - apply (Forall_impl _ _ _ Hok). intros a Ha.
    pose proof (anchor_ok_mono _ [] m (length (ledger (a_db st))) a Ha Hm Hm) as Ha'. by rewrite app_nil_r in Ha'.
Qed.

Lemma inv_prepared now st m to done pend r st' :
  anchors_inv st m to done pend -> Z.of_nat (length (ledger (a_db st))) <= i64_max ->
  prepare_anchor_locked now st = Ok (r, st') -> exists pend', anchors_inv st' m to done pend'.
Proof.
  intros Hinv Hfits. rewrite (prepare_locked _ _ _ _ _ Hinv now Hfits).
  destruct (existsb is_pending (ledger_anchors st)) eqn:Ep; [done|].
  pose proof (inv_no_pending _ _ _ _ _ Hinv Ep) as ->.
  case_bool_decide as Hfull; intros [= _ <-]; [by exists []|].
  pose proof (inv_to _ _ _ _ _ Hinv). pose proof (inv_split _ _ _ _ _ Hinv) as Hsp. rewrite app_nil_r in Hsp.
  exists [next_anchor st m to now]. eapply inv_same_tables; [done..| |apply Hinv| |apply Hinv|].
  - by rewrite Hsp.
  - right. eexists. done.
  - apply Forall_app. split; [apply Hinv|]. apply Forall_singleton. apply (next_anchor_ok _ _ _ _ _ Hinv). lia.
Qed.

(** Confirming or abandoning settles the pending anchor. *)
Lemma inv_settle i f st m to done pend :
  anchors_inv st m to done pend ->
  (forall a, settled (f a) /\ ar_first_entry_id (f a) = ar_first_entry_id a /\
     ar_last_entry_id (f a) = ar_last_entry_id a /\ ar_entry_count (f a) = ar_entry_count a /\
     ar_merkle_root (f a) = ar_merkle_root a /\ ar_chain_tip (f a) = ar_chain_tip a /\ ar_memo (f a) = ar_memo a) ->
  exists to' done' pend',
    anchors_inv (set_anchors (update_pending i f (ledger_anchors st)).2 (ledger_anchors_seq st) st) m to' done' pend'.
Proof.
  intros Hinv Hf. pose proof (inv_split _ _ _ _ _ Hinv) as Hsp.
  rewrite Hsp, update_pending_app, (update_pending_settled i f done) by apply Hinv. cbn [fst snd].
  destruct (inv_pend _ _ _ _ _ Hinv) as [->|(p & -> & Hp & Hfirst)].
  { exists to, done, []. eapply inv_same_tables; [done..|apply Hinv|by left|apply Hinv|].
    apply Hinv. }
  unfold update_pending. cbn [snd fmap list_fmap]. destruct ((ar_id p =? i) && is_pending p) eqn:Ehit.
  2:{ exists to, done, [p]. eapply inv_same_tables; [done..|apply Hinv|by right; eauto|apply Hinv|].
      apply Hinv. }
  destruct (Hf p) as (Hst & E1 & E2 & E3 & E4 & E5 & E6).
  pose proof (inv_ok _ _ _ _ _ Hinv) as Hok. rewrite Hsp, Forall_app, Forall_singleton in Hok. destruct Hok as [Hokd Hokp].
  assert (anchor_ok (ledger (a_db st)) m (f p)) as Hokf.
  { destruct Hokp. split; rewrite ?E1, ?E2, ?E3, ?E4, ?E5, ?E6; done. }
  pose proof (ok_range _ _ _ Hokf) as Hr. rewrite E1, Hfirst in Hr.
  exists (if is_confirmed (f p) then ar_last_entry_id (f p) else to), (done ++ [f p]), [].
  eapply inv_same_tables; [done..|symmetry; apply app_nil_r| |by left| |].
  - apply Forall_app. split; [apply Hinv|by apply Forall_singleton].
  - rewrite List.filter_app. cbn [List.filter]. pose proof (inv_tiles _ _ _ _ _ Hinv) as Ht.
    destruct (is_confirmed (f p)); [|by rewrite app_nil_r].
    eapply tiles_snoc; [exact Ht|by rewrite E1|lia].
  - apply Forall_app. split; [done|by apply Forall_singleton].
Qed.

Lemma reachable_anchors st :
  anchor_reachable st -> Z.of_nat (length (ledger (a_db st))) <= i64_max ->
  exists m to done pend, anchors_inv st m to done pend.
Proof.
  induction 1 as [|op st _ IH].
  { intros _. exists 0%nat, 0, [], []. split; try done. by left. }
  intros Hfits. pose proof (anchor_step_appends op st) as (new & Hl & _). rewrite Hl, length_app in Hfits.
  destruct IH as (m & to & done & pend & Hinv); [lia|].
  destruct op as [op| |now|now i sig|i]; cbn [apply_anchor_op].
  - exists m, to, done, pend. by apply inv_ledger.
  - eexists _, to, done, pend. by apply (inv_backfilled st m).
  - destruct (prepare_anchor_locked now st) as [[r st']|] eqn:E; [|by eauto].
    apply (inv_prepared _ _ m to done pend) in E as [pend' ?]; [by eauto|done|lia].
  - unfold confirm_anchor. destruct (update_pending _ _ _) as [n l] eqn:E. destruct (negb _); [|by eauto].
    pose proof (f_equal snd E) as El. cbn [snd] in El. rewrite <-El. exists m. eapply inv_settle; [done|].
    intros a. split_and!; try done. by left.
  - unfold abandon_anchor. destruct (update_pending _ _ _) as [n l] eqn:E. destruct (negb _); [|by eauto].
    pose proof (f_equal snd E) as El. cbn [snd] in El. rewrite <-El. exists m. eapply inv_settle; [done|].
    intros a. split_and!; try done. by right.
Qed.
End Machine.

(** ** Claims *)

(** the confirmed anchors partition the anchored part of the ledger: in every
    reachable state, whatever was appended, prepared, confirmed and abandoned in
    whatever order, each entry up to the last anchored id is covered by exactly
    one confirmed anchor, at most one anchor is pending, and preparing an anchor
    after a backfill fails only if one is pending: it never meets a gap. *)
Theorem confirmed_anchors_partition `{Crates} {laws : CrateLaws} st :
  anchor_reachable st -> Z.of_nat (length (ledger (a_db st))) <= i64_max ->
  (forall e, 1 <= e <= last_anchored st -> exists a, List.filter (covers e) (ledger_anchors st) = [a]) /\
  (length (List.filter is_pending (ledger_anchors st)) <= 1)%nat /\
  (forall now, existsb is_pending (ledger_anchors st) = false ->
     exists r, (prepare_anchor now st).1 = Ok r).
Proof.
  intros Hr Hfits. destruct (reachable_anchors st Hr Hfits) as (m & to & done & pend & Hinv).
  rewrite (inv_last_anchored _ _ _ _ _ Hinv). split_and!.
  - intros e. apply (find_anchor _ _ _ _ _ Hinv).
  - rewrite (inv_split _ _ _ _ _ Hinv), List.filter_app.
    replace (List.filter is_pending done) with (@nil AnchorRecord).
    + destruct (inv_pend _ _ _ _ _ Hinv) as [->|(p & -> & _)]; simpl; [lia|]. destruct (is_pending p); simpl; lia.
    + pose proof (inv_done _ _ _ _ _ Hinv) as Hd. clear -Hd.
      induction Hd as [|a l Ha _ IH]; [done|]. cbn [List.filter]. by rewrite (settled_not_pending a Ha).
  - intros now Hp. unfold prepare_anchor. cbv zeta. pose proof (inv_backfilled _ _ _ _ _ Hinv) as Hb.
    assert (a_db (backfill_entry_hashes st).2 = a_db st) as Edb by done.
    assert (ledger_anchors (backfill_entry_hashes st).2 = ledger_anchors st) as Ea by done.
    rewrite (prepare_locked _ _ _ _ _ Hb now) by by rewrite Edb. rewrite Ea, Hp. case_bool_decide; eexists; reflexivity.
Qed.

(** C32: every anchored row can be proved, as long as no genesis reset is run: in
    every state that ledger operations, backfills, and anchors prepared,
    confirmed and abandoned in any order reach from an empty store, a ledger row
    whose id is not above the last anchored id has an inclusion proof; it names
    the row itself and the confirmed anchor that covers it, it verifies against
    the Merkle root of that anchor, and the memo of the anchor (what is
    published on chain) carries that root and the tip of the hash chain over the
    ledger up to the end of the range.  (A genesis reset restarts the numbering
    of the ledger under the anchors: [reset_strands_anchors].) *)
Theorem anchored_rows_provable `{Crates} {laws : CrateLaws} st row :
  anchor_reachable st -> Z.of_nat (length (ledger (a_db st))) <= i64_max ->
  row ∈ ledger (a_db st) -> led_id row <= last_anchored st ->
  exists p, (inclusion_proof (led_id row) st).1 = Ok (Some p) /\ ip_entry p = row /\
    ip_anchor p ∈ ledger_anchors st /\ covers (led_id row) (ip_anchor p) = true /\
    verify_proof (entry_hash row) (ip_proof p) (hash_of_hex (ar_merkle_root (ip_anchor p))) = true /\
    ar_memo (ip_anchor p) =
      anchor_memo (ar_first_entry_id (ip_anchor p)) (ar_last_entry_id (ip_anchor p)) (ar_entry_count (ip_anchor p))
        (merkle_root (entry_hash <$> segment (ar_first_entry_id (ip_anchor p)) (ar_last_entry_id (ip_anchor p))
           (ledger (a_db st))))
        (chain_from zero_hash (take (Z.to_nat (ar_last_entry_id (ip_anchor p))) (ledger (a_db st)))).
Proof.
  intros Hr Hfits Hin Hle. destruct (reachable_anchors st Hr Hfits) as (m & to & done & pend & Hinv).
  rewrite (inv_last_anchored _ _ _ _ _ Hinv) in Hle. apply list_elem_of_lookup in Hin as [i Hi].
  pose proof (inv_backfilled _ _ _ _ _ Hinv) as Hb.
  destruct (inclusion_locked _ _ _ _ _ Hb i row) as (p & Hp & He & Ha & Hc & Hv); [done..|].
  exists p. split_and!; [done..|]. apply (ok_memo (ledger (a_db st)) m).
  pose proof (inv_ok _ _ _ _ _ Hinv) as Hok. rewrite Forall_forall in Hok. by apply Hok.
Qed.

(** Five entries, two anchors: one over entries 1 to 3, abandoned, then one over
    1 to 5, confirmed; a sixth entry comes later. *)
Definition anchor_trace : list AnchorOp :=
  [ALedger (OpAdminMint 1 "alice" 1000 "seed"); ALedger (OpAdminMint 2 "bob" 10 "seed");
   ALedger (OpTransferDevice 3 "alice" "device:bob" 7 None); ABackfill; APrepare 4; AAbandon 1;
   ALedger (OpAdminMint 5 "carol" 5 "seed"); ABackfill; APrepare 6; AConfirm 7 2 "sig";
   ALedger (OpAdminMint 8 "dora" 5 "seed")].

Definition anchored : AnchorDb := foldl (fun st op => apply_anchor_op op st) anchor_genesis anchor_trace.

Lemma anchored_reachable : anchor_reachable anchored.
Proof. unfold anchored. repeat (apply anchor_step || apply anchor_init). Qed.

Lemma confirmed_anchors_partition_witness :
  exists a, List.filter (covers 4) (ledger_anchors anchored) = [a].
Proof.
  destruct (confirmed_anchors_partition anchored anchored_reachable) as (Hc & _); [vm_compute; discriminate|].
  apply (Hc 4). vm_compute. split; discriminate.
Defined.

Lemma anchored_rows_provable_witness :
  exists row p, (inclusion_proof 4 anchored).1 = Ok (Some p) /\ ip_entry p = row /\
    verify_proof (entry_hash row) (ip_proof p) (hash_of_hex (ar_merkle_root (ip_anchor p))) = true.
Proof.
  set (row := mkLedgerRow 4 "bob" "TRANSFER_IN" 7 3 None (Some "transfer from alice")).
  destruct (anchored_rows_provable anchored row anchored_reachable) as (p & H1 & H2 & _ & _ & H3 & _);
    [vm_compute; discriminate|apply (list_elem_of_lookup_2 _ 3); vm_compute; reflexivity|vm_compute; discriminate|].
  exists row, p. split; [exact H1|]. by split.
Defined.

(** [reset_genesis] empties the ledger and restarts its numbering but leaves the
    hashes and the anchors: the first row of the new ledger takes the place of an
    anchored one, is never hashed, and its inclusion proof is refused. *)
Theorem reset_strands_anchors :
  let reset := set_a_db (commit (reset_genesis (a_db anchored)) (a_db anchored)) anchored in
  let after := set_a_db (apply_op (OpAdminMint 9 "eve" 3 "seed") (a_db reset)) reset in
  (led_device_id <$> ledger (a_db after)) = ["eve"] /\ fetch_unhashed_rows after = [] /\
  is_ok (inclusion_proof 1 after).1 = false.
Proof. vm_compute. split_and!; reflexivity. Qed.
