(* ===== verification/F64.v ===== *)
(** * Double-precision numbers

    Rust's [f64] as the IEEE 754 binary64 numbers of the Standard Library's
    [SpecFloat]: executable, with one quiet NaN, and rounding to nearest even
    as the hardware does; and the conversions to integers and from text. *)

From S2P Require Import Prelude RustStr.
From Stdlib Require Export SpecFloat.
From Stdlib Require Import Ascii.

Open Scope Z_scope.

Definition f64 : Type := spec_float.
Definition f64_prec : Z := 53.
Definition f64_emax : Z := 1024.

Definition f64_mul : f64 -> f64 -> f64 := SFmul f64_prec f64_emax.
Definition f64_div : f64 -> f64 -> f64 := SFdiv f64_prec f64_emax.
Definition f64_add : f64 -> f64 -> f64 := SFadd f64_prec f64_emax.
Definition f64_sub : f64 -> f64 -> f64 := SFsub f64_prec f64_emax.

(** [x as f64] of an unsigned integer. *)
Definition f64_of_Z (z : Z) : f64 := binary_normalize f64_prec f64_emax z 0 false.

Definition f64_zero : f64 := S754_zero false.
Definition f64_one : f64 := f64_of_Z 1.

(** Comparison operators are false on NaN. *)
Definition f64_le (x y : f64) : bool := SFleb x y.
Definition f64_lt (x y : f64) : bool := SFltb x y.
Definition f64_ge (x y : f64) : bool := SFleb y x.
Definition is_nan (x : f64) : bool := match x with S754_nan => true | _ => false end.

(** [f64::max] and [f64::min] return the other operand on NaN. *)
Definition f64_max (x y : f64) : f64 :=
  if is_nan x then y else if is_nan y then x else if SFltb x y then y else x.
Definition f64_min (x y : f64) : f64 :=
  if is_nan x then y else if is_nan y then x else if SFltb y x then y else x.
(** [f64::clamp]; NaN stays NaN. *)
Definition f64_clamp (x lo hi : f64) : f64 :=
  if SFltb x lo then lo else if SFltb hi x then hi else x.

(** A decimal literal [n / 10^k]: the quotient of two exact integers, rounded
    once, is the nearest double. *)
Definition f64_dec (n : Z) (k : nat) : f64 := f64_div (f64_of_Z n) (f64_of_Z (10 ^ Z.of_nat k)).

Example f64_point_eight : f64_dec 8 1 = S754_finite false 7205759403792794 (-53).
Proof. vm_compute. reflexivity. Qed.

(** ** Multiplying by a ratio in [[1/2, 1)] does not increase a number

    The values Rust can hold are the canonical ones. *)

Definition f64_valid (x : f64) : bool := valid_binary f64_prec f64_emax x.

Lemma digits2_pos_bounds (m : positive) :
  2 ^ (Zpos (digits2_pos m) - 1) <= Zpos m < 2 ^ Zpos (digits2_pos m).
Proof.
  induction m as [m IH|m IH|]; cbn [digits2_pos]; [| |done];
    rewrite Pos2Z.inj_succ; replace (Z.succ (Zpos (digits2_pos m)) - 1) with (Z.succ (Zpos (digits2_pos m) - 1)) by lia;
    rewrite !Z.pow_succ_r by lia; lia.
Qed.

Lemma digits2_pos_le (m : positive) (k : Z) : 0 <= k -> Zpos m < 2 ^ k -> Zpos (digits2_pos m) <= k.
Proof.
  intros Hk Hm. pose proof (digits2_pos_bounds m) as [Hl _].
  destruct (Z.le_gt_cases (Zpos (digits2_pos m)) k) as [|Hgt]; [done|].
  pose proof (Z.pow_le_mono_r 2 k (Zpos (digits2_pos m) - 1)). lia.
Qed.

Lemma digits2_pos_ge (m : positive) (k : Z) : 0 <= k -> 2 ^ k <= Zpos m -> k < Zpos (digits2_pos m).
Proof.
  intros Hk Hm. pose proof (digits2_pos_bounds m) as [_ Hu].
  destruct (Z.lt_ge_cases k (Zpos (digits2_pos m))) as [|Hge]; [done|].
  pose proof (Z.pow_le_mono_r 2 (Zpos (digits2_pos m)) k). lia.
Qed.

Lemma iter_pos_iter {A} (f : A -> A) p x : iter_pos f p x = Nat.iter (Pos.to_nat p) f x.
Proof.
  revert x. induction p as [p IH|p IH|]; intros x; cbn [iter_pos]; [| |done].
  - rewrite !IH. rewrite Pos2Nat.inj_xI. rewrite <- Nat.iter_add. rewrite <- Nat.iter_succ_r.
    f_equal. lia.
  - rewrite !IH. rewrite <- Nat.iter_add. f_equal. lia.
Qed.

Lemma shr_1_m mrs : 0 <= shr_m mrs -> shr_m (shr_1 mrs) = shr_m mrs / 2.
Proof.
  destruct mrs as [m r s]. cbn. destruct m as [|[p|p|]|p]; intros; cbn; try done; [|].
  - rewrite Pos2Z.inj_xI. replace (2 * Zpos p + 1) with (1 + Zpos p * 2) by lia. by rewrite Z.div_add by lia.
  - rewrite Pos2Z.inj_xO, Z.mul_comm. by rewrite Z.div_mul by lia.
Qed.

Lemma shr_m_div m r s e p : 0 <= m -> shr_m (fst (shr (Build_shr_record m r s) e (Zpos p))) = m / 2 ^ Zpos p.
Proof.
  intros Hm. cbn [shr fst]. rewrite iter_pos_iter. rewrite <- (positive_nat_Z p).
  induction (Pos.to_nat p) as [|n IH]; [by rewrite Z.div_1_r|].
  rewrite Nat.iter_succ, shr_1_m, IH.
  - rewrite Nat2Z.inj_succ, Z.pow_succ_r by lia. rewrite Z.mul_comm. by rewrite Z.div_div by lia.
  - rewrite IH. apply Z.div_pos; lia.
Qed.

Lemma round_nearest_even_le m l : m <= round_nearest_even m l <= m + 1.
Proof. destruct l as [|[]]; cbn; [| destruct (Z.even m)|..]; lia. Qed.

Lemma fexp_f64 e : fexp f64_prec f64_emax e = Z.max (e - 53) (-1074).
Proof. reflexivity. Qed.

(** What [binary_round_aux] does with the rounded mantissa. *)
Definition finish (sx : bool) (me : shr_record * Z) : f64 :=
  match shr_m (fst me) with
  | Z0 => S754_zero sx
  | Zpos m => if Z.leb (snd me) (f64_emax - f64_prec) then S754_finite sx m (snd me) else S754_infinity sx
  | Zneg _ => S754_nan
  end.

Lemma binary_round_aux_shift sx mx ex p :
  0 <= mx -> fexp f64_prec f64_emax (Zdigits2 mx + ex) - ex = Zpos p ->
  exists q, mx / 2 ^ Zpos p <= q <= mx / 2 ^ Zpos p + 1 /\
    binary_round_aux f64_prec f64_emax sx mx ex loc_Exact =
    finish sx (shr_fexp f64_prec f64_emax q (ex + Zpos p) loc_Exact).
Proof.
  intros Hm Hp. unfold binary_round_aux, shr_fexp at 1. rewrite Hp.
  pose proof (shr_m_div mx false false ex p Hm) as Hd. cbn [shr shr_record_of_loc fst] in *.
  set (mrs := iter_pos shr_1 p _) in *.
  exists (round_nearest_even (shr_m mrs) (loc_of_shr_record mrs)). split.
  - rewrite <- Hd. apply round_nearest_even_le.
  - unfold finish. by destruct (shr_fexp _ _ _ _ _).
Qed.

Lemma shr_fexp_none q e :
  fexp f64_prec f64_emax (Zdigits2 q + e) <= e ->
  shr_fexp f64_prec f64_emax q e loc_Exact = (Build_shr_record q false false, e).
Proof. intros He. unfold shr_fexp, shr. by destruct (fexp _ _ _ - e) eqn:E; [|lia|]. Qed.

Lemma f64_le_finite m e m' e' :
  e' < e \/ e' = e /\ Zpos m' <= Zpos m -> f64_le (S754_finite false m' e') (S754_finite false m e) = true.
Proof.
  intros Hle. unfold f64_le, SFleb, SFcompare. destruct (Z.compare_spec e' e); [|done|lia].
  change (Pos.compare_cont Eq m' m) with (m' ?= m)%positive. destruct (Pos.compare_spec m' m); [done|done|lia].
Qed.

Lemma f64_mul_ratio_le (m c : positive) (e : Z) :
  bounded f64_prec f64_emax m e = true -> 2 ^ 52 <= Zpos c < 2 ^ 53 ->
  f64_le (f64_mul (S754_finite false m e) (S754_finite false c (-53))) (S754_finite false m e) = true.
Proof.
  intros [Hcan Hmax]%andb_true_iff Hc. apply Z.eqb_eq in Hcan. apply Z.leb_le in Hmax.
  rewrite fexp_f64 in Hcan. pose proof (digits2_pos_bounds m) as Hm. set (dm := Zpos (digits2_pos m)) in *.
  assert (0 < dm) by lia.
  assert (dm + 52 <= Zpos (digits2_pos (m * c)) <= dm + 53) as Hd.
  { split.
    - enough (dm - 1 + 52 < Zpos (digits2_pos (m * c))) by lia. apply digits2_pos_ge; [lia|].
      rewrite Z.pow_add_r by lia. nia.
    - apply digits2_pos_le; [lia|]. rewrite Z.pow_add_r by lia. nia. }
  unfold f64_mul, SFmul. cbn [xorb].
  assert (fexp f64_prec f64_emax (Zdigits2 (Zpos (m * c)) + (e + -53)) - (e + -53) = 53 \/
          fexp f64_prec f64_emax (Zdigits2 (Zpos (m * c)) + (e + -53)) - (e + -53) = 52 /\ dm = 53 /\
          Zpos (digits2_pos (m * c)) = 105 /\ -1074 < e) as [Hn|(Hn & Hdm & Hdp & He)]
    by (rewrite fexp_f64; cbn [Zdigits2]; lia).
  - destruct (binary_round_aux_shift false (Zpos (m * c)) (e + -53) 53 ltac:(lia) Hn) as (q & Hq & ->).
    replace (e + -53 + 53) with e by lia.
    assert (Zpos (m * c) / 2 ^ 53 < Zpos m) as Hlt by (apply Z.div_lt_upper_bound; nia).
    assert (0 <= Zpos (m * c) / 2 ^ 53) by (apply Z.div_pos; lia).
    rewrite shr_fexp_none.
    + unfold finish. cbn [shr_m fst snd]. destruct q as [|q|q]; [done| |lia].
      rewrite (proj2 (Z.leb_le _ _) Hmax). apply f64_le_finite. lia.
    + rewrite fexp_f64. destruct q as [|q|q]; cbn [Zdigits2]; [lia| |lia].
      pose proof (digits2_pos_le q dm). lia.
  - destruct (binary_round_aux_shift false (Zpos (m * c)) (e + -53) 52 ltac:(lia) Hn) as (q & Hq & ->).
    replace (e + -53 + 52) with (e - 1) by lia.
    pose proof (digits2_pos_bounds (m * c)) as [_ Hu]. rewrite Hdp in Hu.
    assert (Zpos (m * c) / 2 ^ 52 < 2 ^ 53) as Hlt by (apply Z.div_lt_upper_bound; lia).
    assert (0 <= Zpos (m * c) / 2 ^ 52) by (apply Z.div_pos; lia).
    destruct (decide (q = 2 ^ 53)) as [->|Hne].
    + assert (shr_fexp f64_prec f64_emax (2 ^ 53) (e - 1) loc_Exact =
              shr (Build_shr_record (2 ^ 53) false false) (e - 1) 1) as ->.
      { unfold shr_fexp. rewrite fexp_f64. cbn [shr_record_of_loc]. f_equal.
        change (Zdigits2 (2 ^ 53)) with 54. lia. }
      unfold finish, shr. cbn [fst snd]. change (shr_m (iter_pos shr_1 1 _)) with (2 ^ 52).
      cbn [Z.pow Z.pow_pos Pos.iter Z.mul Pos.mul]. destruct (Z.leb_spec (e - 1 + 1) (f64_emax - f64_prec)); [|lia].
      apply f64_le_finite. rewrite Hdm in Hm. lia.
    + rewrite shr_fexp_none.
      * unfold finish. cbn [shr_m fst snd]. destruct q as [|q|q]; [done| |lia].
        destruct (Z.leb_spec (e - 1) (f64_emax - f64_prec)); [|lia]. apply f64_le_finite. lia.
      * rewrite fexp_f64. destruct q as [|q|q]; cbn [Zdigits2]; [lia| |lia].
        pose proof (digits2_pos_le q 53). lia.
Qed.

(** ** The order *)

Lemma f64_compare_finite s m e s' m' e' :
  SFcompare (S754_finite s m e) (S754_finite s' m' e') =
  Some (match s, s' with
        | true, false => Lt
        | false, true => Gt
        | false, false => match e ?= e' with Eq => (Zpos m ?= Zpos m') | c => c end
        | true, true => match e' ?= e with Eq => (Zpos m' ?= Zpos m) | c => c end
        end).
Proof.
  destruct s, s'; cbn; try done; rewrite ?(Z.compare_antisym e e'); destruct (e ?= e'); cbn; try done.
  change (Pos.compare_cont Eq m m') with (m ?= m')%positive. by rewrite <- Pos.compare_antisym.
Qed.

Lemma f64_le_refl x : is_nan x = false -> f64_le x x = true.
Proof.
  intros Hn. unfold f64_le, SFleb. destruct x as [[]|[]| |s m e]; try done.
  rewrite f64_compare_finite. destruct s; by rewrite !Z.compare_refl.
Qed.

Lemma f64_le_trans x y z : f64_le x y = true -> f64_le y z = true -> f64_le x z = true.
Proof.
  unfold f64_le, SFleb.
  destruct x as [s|s| |s m e], y as [s'|s'| |s' m' e'], z as [s''|s''| |s'' m'' e''];
    rewrite ?f64_compare_finite; cbn; try done; destruct s; try done; try destruct s'; try done;
    try destruct s''; try done.
  - destruct (Z.compare_spec e' e), (Z.compare_spec e'' e'), (Z.compare_spec e'' e); try done; try (exfalso; lia);
      destruct (Pos.compare_spec m' m), (Pos.compare_spec m'' m'),
        (Pos.compare_spec m'' m); done || (exfalso; lia).
  - destruct (Z.compare_spec e e'), (Z.compare_spec e' e''), (Z.compare_spec e e''); try done; try (exfalso; lia);
      destruct (Pos.compare_spec m m'), (Pos.compare_spec m' m''),
        (Pos.compare_spec m m''); done || (exfalso; lia).
Qed.

Lemma f64_lt_le x y : f64_lt x y = true -> f64_le x y = true.
Proof. unfold f64_lt, f64_le, SFltb, SFleb. by destruct (SFcompare x y) as [[]|]. Qed.

Lemma f64_not_lt x y : is_nan x = false -> is_nan y = false -> f64_lt x y = false -> f64_le y x = true.
Proof.
  unfold f64_lt, f64_le, SFltb, SFleb. intros Hx Hy.
  destruct x as [s|s| |s m e], y as [s'|s'| |s' m' e']; rewrite ?f64_compare_finite; cbn in *; try done;
    destruct s; try done; try destruct s'; try done.
  - rewrite (Z.compare_antisym e' e). destruct (Z.compare_spec e' e); cbn; try done.
    rewrite (Pos.compare_antisym m' m). by destruct (m' ?= m)%positive.
  - rewrite (Z.compare_antisym e e'). destruct (Z.compare_spec e e'); cbn; try done.
    rewrite (Pos.compare_antisym m m'). by destruct (m ?= m')%positive.
Qed.

(** [f64::max] picks an upper bound of both. *)
Lemma f64_max_spec x y :
  is_nan x = false -> is_nan y = false ->
  f64_le x (f64_max x y) = true /\ f64_le y (f64_max x y) = true /\ (f64_max x y = x \/ f64_max x y = y).
Proof.
  intros Hx Hy. unfold f64_max. rewrite Hx, Hy. destruct (SFltb x y) eqn:E.
  - split_and!; [by apply f64_lt_le|by apply f64_le_refl|by right].
  - split_and!; [by apply f64_le_refl|by apply f64_not_lt|by left].
Qed.

(** A positive number is at least the product with a ratio in [[1/2, 1)]. *)
Lemma f64_scaled_le x c :
  f64_valid x = true -> is_nan x = false -> f64_le x f64_zero = false -> 2 ^ 52 <= Zpos c < 2 ^ 53 ->
  f64_le (f64_mul x (S754_finite false c (-53))) x = true.
Proof.
  intros Hv Hn Hp Hc. destruct x as [s|[]| |[] m e]; try done. by apply f64_mul_ratio_le.
Qed.

(** ** Conversions *)

Open Scope string_scope.
Open Scope list_scope.
Open Scope Z_scope.

(** ** To integers *)

(** The magnitude [m * 2^e], towards zero, to the nearest integer (halves up),
    and whether it has a fraction. *)
Definition mag_trunc (m : positive) (e : Z) : Z := if 0 <=? e then Zpos m * 2 ^ e else Zpos m / 2 ^ (- e).
Definition mag_round (m : positive) (e : Z) : Z :=
  if 0 <=? e then Zpos m * 2 ^ e else (Zpos m + 2 ^ (- e - 1)) / 2 ^ (- e).
Definition mag_fraction (m : positive) (e : Z) : bool :=
  if 0 <=? e then false else negb (Zpos m mod 2 ^ (- e) =? 0).
Definition signed (s : bool) (z : Z) : Z := if s then - z else z.

(** An integer as a double; a zero keeps the sign of the number it came from. *)
Definition f64_of_signed (s : bool) (z : Z) : f64 := binary_normalize f64_prec f64_emax z 0 s.

Definition f64_round (x : f64) : f64 :=
  match x with S754_finite s m e => f64_of_signed s (signed s (mag_round m e)) | _ => x end.
Definition f64_floor (x : f64) : f64 :=
  match x with
  | S754_finite s m e =>
      let t := signed s (mag_trunc m e) in
      f64_of_signed s (if s && mag_fraction m e then t - 1 else t)
  | _ => x
  end.

(** [x as i64], [as usize] and [as u32]: NaN is 0, and values out of range
    saturate. *)
Definition f64_as (lo hi : Z) (x : f64) : Z :=
  match x with
  | S754_zero _ | S754_nan => 0
  | S754_infinity s => if s then lo else hi
  | S754_finite s m e => Z.max lo (Z.min hi (signed s (mag_trunc m e)))
  end.
Definition f64_as_i64 : f64 -> Z := f64_as i64_min i64_max.
Definition f64_as_usize : f64 -> Z := f64_as 0 (2 ^ 64 - 1).

(** ** Parsing

    [f64::from_str]: an optional sign, then [inf], [infinity] or [nan] in any
    case, or digits with an optional point and an optional exponent; at least
    one digit must be there.  The decimal is rounded once. *)

Definition digit (c : ascii) : Z := Z.of_nat (code c) - 48.
Fixpoint take_digits (l : list ascii) (acc : Z) (n : nat) : Z * nat * list ascii :=
  match l with
  | c :: l' => if is_ascii_digit c then take_digits l' (acc * 10 + digit c) (S n) else (acc, n, l)
  | [] => (acc, n, [])
  end.
Definition take_sign (l : list ascii) : bool * list ascii :=
  match l with
  | "-"%char :: l => (true, l)
  | "+"%char :: l => (false, l)
  | _ => (false, l)
  end.

(** [n * 10^k], correctly rounded. *)
Definition f64_decimal (s : bool) (n k : Z) : f64 :=
  match n with
  | Zpos p =>
      if 0 <=? k then f64_of_signed s (signed s (n * 10 ^ k))
      else
        let '(q, e, l) := SFdiv_core_binary f64_prec f64_emax n 0 (10 ^ (- k)) 0 in
        binary_round_aux f64_prec f64_emax s q e l
  | _ => S754_zero s
  end.

Definition special (l : list ascii) : option f64 :=
  let w := to_lowercase (of_bytes l) in
  if String.eqb w "inf" || String.eqb w "infinity" then Some (S754_infinity false)
  else if String.eqb w "nan" then Some S754_nan else None.
Definition negate (s : bool) (x : f64) : f64 :=
  match x with S754_infinity _ => S754_infinity s | x => x end.

Definition parse_f64 (str : string) : option f64 :=
  let '(s, l) := take_sign (bytes str) in
  match special l with
  | Some x => Some (negate s x)
  | None =>
      let '(n, whole, l) := take_digits l 0 0 in
      let '(n, frac, l) := match l with "."%char :: l => take_digits l n 0 | _ => (n, O, l) end in
      if Nat.eqb (whole + frac) 0 then None
      else
        match l with
        | [] => Some (f64_decimal s n (- Z.of_nat frac))
        | c :: l =>
            if Ascii.eqb (lower c) "e"%char then
              let '(es, l) := take_sign l in
              let '(x, digits, l) := take_digits l 0 0 in
              match digits, l with
              | S _, [] => Some (f64_decimal s n (signed es x - Z.of_nat frac))
              | _, _ => None
              end
            else None
        end
  end.

Example parse_price : parse_f64 "0.00000030" = Some (f64_dec 3 7).
Proof. vm_compute. reflexivity. Qed.
Example parse_exponent : parse_f64 "-1.5e2" = Some (f64_of_Z (-150)).
Proof. vm_compute. reflexivity. Qed.
Example parse_malformed : parse_f64 "1.2.3" = None /\ parse_f64 "." = None /\ parse_f64 "" = None /\ parse_f64 "3e" = None.
Proof. repeat split; vm_compute; reflexivity. Qed.
Example parse_words : parse_f64 "-Inf" = Some (S754_infinity true) /\ parse_f64 "NaN" = Some S754_nan.
Proof. repeat split; vm_compute; reflexivity. Qed.
Example round_half : f64_as_i64 (f64_round (f64_dec 25 1)) = 3 /\ f64_as_i64 (f64_round (f64_dec (-25) 1)) = -3.
Proof. repeat split; vm_compute; reflexivity. Qed.
Example floor_negative : f64_as_i64 (f64_floor (f64_dec (-25) 1)) = -3 /\ f64_as_i64 (f64_of_Z (2 ^ 70)) = i64_max.
Proof. repeat split; vm_compute; reflexivity. Qed.
