(* ===== verification/Registry.v ===== *)
(** * The device registry

    [gateway/src/registry.rs]: the in-memory table of connected devices, the
    reverse index from models to devices, the in-flight counters with the
    heavy hold, and the conversation affinity.  A method that locks a map and
    changes it is a function from registry to registry.  [Instant::now] is
    read once per call and passed in, in nanoseconds of a monotone clock, with
    the wall clock for the log of heavy-hold decisions.  Counters are [u32] and
    wrap like the atomics of the code.  Prometheus metrics and log lines are
    left out. *)

From S2P Require Import Prelude RustStr F64 Merkle.
From Stdlib Require Import Ascii.

Open Scope string_scope.
Open Scope Z_scope.

(** ** Unsigned 32-bit counters *)

Definition u32_max : Z := 2 ^ 32 - 1.
Definition u32_wrap (z : Z) : Z := z mod 2 ^ 32.
Definition u32_saturating_sub (a b : Z) : Z := Z.max (a - b) 0.

(** ** Time *)

Record Clock : Type := mkClock {
  instant : Z;
  unix_secs : Z
}.
Definition from_secs (s : Z) : Z := s * 1000000000.
(** [t.elapsed()] saturates at zero; [as_secs] drops the fraction. *)
Definition elapsed (clk : Clock) (t : Z) : Z := Z.max (instant clk - t) 0.
Definition as_secs (d : Z) : Z := d / 1000000000.

(** ** Models *)

(** [haystack.contains(needle)]. *)
Fixpoint is_prefix (needle haystack : list Ascii.ascii) : bool :=
  match needle, haystack with
  | [], _ => true
  | a :: needle, b :: haystack => Ascii.eqb a b && is_prefix needle haystack
  | _ :: _, [] => false
  end.
Fixpoint has_infix (needle haystack : list Ascii.ascii) : bool :=
  is_prefix needle haystack ||
  match haystack with [] => false | _ :: haystack => has_infix needle haystack end.
Definition str_contains (haystack needle : string) : bool := has_infix (bytes needle) (bytes haystack).

(** [id.rsplit('/').next()]: what follows the last slash. *)
Fixpoint after_last_slash (l acc : list Ascii.ascii) : list Ascii.ascii :=
  match l with
  | [] => acc
  | c :: l => if Ascii.eqb c "/"%char then after_last_slash l l else after_last_slash l acc
  end.
Definition normalize_model_id (id : string) : string :=
  to_lowercase (trim (of_bytes (after_last_slash (bytes id) (bytes id)))).

Definition model_matches_any (requested : string) (loaded : list string) : bool :=
  let req_norm := normalize_model_id requested in
  existsb (fun m => bool_decide (normalize_model_id m = req_norm) || str_contains m requested ||
                    str_contains requested m) loaded.

(** ** Devices *)

Record HardwareCapability : Type := mkHardware {
  chip_family : string;
  chip_name : string;
  total_ram_gb : f64;
  gpu_core_count : Z;
  memory_bandwidth_gbs : f64;
  hw_tier : Z;
  gpu_backend : option string;
  hw_platform : option string;
  gpu_vram_gb : option f64
}.

Record NodeCapabilities : Type := mkCapabilities {
  hardware : HardwareCapability;
  loaded_models : list string;
  max_model_size_gb : f64;
  is_available : bool;
  ptn_ids : option (list string);
  swappable_models : list string;
  max_concurrent_requests : option Z;
  effective_context : option Z;
  on_ac_power : option bool;
  backend_slots_busy : option Z;
  backend_slots_total : option Z
}.

Inductive ThermalLevel : Type := Nominal | Fair | Serious | Critical.
#[export] Instance ThermalLevel_eq_dec : EqDecision ThermalLevel.
Proof. solve_decision. Defined.

Definition thermal_weight (t : ThermalLevel) : f64 :=
  match t with
  | Nominal => f64_one
  | Fair => f64_dec 8 1
  | Serious => f64_dec 3 1
  | Critical => f64_zero
  end.

Record HeartbeatPayload : Type := mkHeartbeat {
  hb_device_id : string;
  hb_timestamp : f64;
  hb_thermal_level : ThermalLevel;
  hb_throttle_level : Z;
  hb_loaded_models : list string;
  hb_is_generating : bool;
  hb_queue_depth : Z;
  hb_ewma_tokens_per_second : option f64
}.

Record LiveStats : Type := mkLiveStats {
  queue_depth : Z;
  is_generating : bool;
  throttle_level : Z;
  thermal_level : ThermalLevel
}.
Definition fresh : LiveStats := mkLiveStats 0 false 100 Nominal.

Record DeviceState : Type := mkDeviceState {
  node_id : string;
  display_name : string;
  capabilities : NodeCapabilities;
  last_heartbeat : Z;
  last_seen : Z;
  quarantined_until : option Z;
  departed_at : option Z;
  ewma_tokens_per_second : f64;
  live : LiveStats;
  busy_excess_since : option Z;
  employee : bool;
  probation : bool
}.

Inductive Eligibility : Type :=
| Loaded | Swappable | Unsupported | QueueFull | Quarantined | Throttled | NotAvailable.
#[export] Instance Eligibility_eq_dec : EqDecision Eligibility.
Proof. solve_decision. Defined.

Definition is_quarantined (clk : Clock) (d : DeviceState) : bool :=
  match quarantined_until d with Some t => instant clk <? t | None => false end.

Definition heartbeat_is_stale (clk : Clock) (stale_after_secs : Z) (d : DeviceState) : bool :=
  stale_after_secs <? as_secs (elapsed clk (last_heartbeat d)).

Definition is_eligible_for (clk : Clock) (model_id : string) (max_queue : Z) (d : DeviceState) : Eligibility :=
  if is_quarantined clk d then Quarantined
  else if bool_decide (thermal_level (live d) = Critical) then Throttled
  else if max_queue <=? queue_depth (live d) then QueueFull
  else if negb (is_available (capabilities d)) then NotAvailable
  else if model_matches_any model_id (loaded_models (capabilities d)) then Loaded
  else if model_matches_any model_id (swappable_models (capabilities d)) then Swappable
  else Unsupported.

Definition is_departed (d : DeviceState) : bool := bool_decide (departed_at d <> None).

Definition catalog_visible (clk : Clock) (stale_after_secs : Z) (d : DeviceState) : bool :=
  negb (employee d) && negb (probation d) && is_available (capabilities d) &&
  negb (heartbeat_is_stale clk stale_after_secs d).

(** Field updates. *)
Definition set_loaded_models (x : list string) (c : NodeCapabilities) : NodeCapabilities :=
  mkCapabilities (hardware c) x (max_model_size_gb c) (is_available c) (ptn_ids c) (swappable_models c)
    (max_concurrent_requests c) (effective_context c) (on_ac_power c) (backend_slots_busy c)
    (backend_slots_total c).
Definition set_is_available (x : bool) (c : NodeCapabilities) : NodeCapabilities :=
  mkCapabilities (hardware c) (loaded_models c) (max_model_size_gb c) x (ptn_ids c) (swappable_models c)
    (max_concurrent_requests c) (effective_context c) (on_ac_power c) (backend_slots_busy c)
    (backend_slots_total c).
Definition set_capabilities (x : NodeCapabilities) (d : DeviceState) : DeviceState :=
  mkDeviceState (node_id d) (display_name d) x (last_heartbeat d) (last_seen d) (quarantined_until d)
    (departed_at d) (ewma_tokens_per_second d) (live d) (busy_excess_since d) (employee d) (probation d).
Definition set_quarantined (x : option Z) (d : DeviceState) : DeviceState :=
  mkDeviceState (node_id d) (display_name d) (capabilities d) (last_heartbeat d) (last_seen d) x
    (departed_at d) (ewma_tokens_per_second d) (live d) (busy_excess_since d) (employee d) (probation d).
Definition set_departed (x : option Z) (d : DeviceState) : DeviceState :=
  mkDeviceState (node_id d) (display_name d) (capabilities d) (last_heartbeat d) (last_seen d)
    (quarantined_until d) x (ewma_tokens_per_second d) (live d) (busy_excess_since d) (employee d)
    (probation d).
Definition set_busy_excess (x : option Z) (d : DeviceState) : DeviceState :=
  mkDeviceState (node_id d) (display_name d) (capabilities d) (last_heartbeat d) (last_seen d)
    (quarantined_until d) (departed_at d) (ewma_tokens_per_second d) (live d) x (employee d) (probation d).

(** [DeviceState::apply_heartbeat]. *)
Definition device_apply_heartbeat (clk : Clock) (hb : HeartbeatPayload) (d : DeviceState) : DeviceState :=
  let caps := match hb_loaded_models hb with
              | [] => capabilities d
              | models => set_loaded_models models (capabilities d)
              end in
  mkDeviceState (node_id d) (display_name d) caps (instant clk) (instant clk) (quarantined_until d) None
    (default (ewma_tokens_per_second d) (hb_ewma_tokens_per_second hb))
    (mkLiveStats (hb_queue_depth hb) (hb_is_generating hb) (hb_throttle_level hb) (hb_thermal_level hb))
    (busy_excess_since d) (employee d) (probation d).

Definition hardware_tps_prior (caps : NodeCapabilities) : f64 :=
  let bw := f64_max (memory_bandwidth_gbs (hardware caps)) (f64_of_Z 25) in
  f64_max (f64_div bw (f64_of_Z 5)) f64_one.

(** ** The registry *)

Record ReliabilityConfig : Type := mkReliability {
  request_timeout_seconds : Z;
  ttft_deadline_seconds : Z;
  small_ttft_deadline_seconds : Z;
  max_retries : Z;
  heartbeat_stale_seconds : Z;
  quarantine_seconds : Z;
  discover_interval_seconds : Z;
  busy_excess_grace_seconds : Z;
  departed_grace_seconds : Z;
  registry_warmup_seconds : Z;
  heavy_hold : bool;
  heavy_hold_prompt_tokens : Z;
  heavy_hold_max_tokens : Z;
  saturation_429 : bool;
  heavy_co_resident_ttft_bonus_seconds : Z;
  convo_stickiness_ttl_seconds : Z;
  heavy_hold_ttl_seconds : Z
}.

Definition default_reliability : ReliabilityConfig := {|
  request_timeout_seconds := 300;
  ttft_deadline_seconds := 10;
  small_ttft_deadline_seconds := 8;
  max_retries := 1;
  heartbeat_stale_seconds := 30;
  quarantine_seconds := 30;
  discover_interval_seconds := 60;
  busy_excess_grace_seconds := 180;
  departed_grace_seconds := 180;
  registry_warmup_seconds := 60;
  heavy_hold := true;
  heavy_hold_prompt_tokens := 30000;
  heavy_hold_max_tokens := 4096;
  saturation_429 := false;
  heavy_co_resident_ttft_bonus_seconds := 180;
  convo_stickiness_ttl_seconds := 1800;
  heavy_hold_ttl_seconds := 1900
|}.

Record InFlight : Type := mkInFlight {
  total : Z;
  heavy : Z;
  heavy_since : option Z;
  heavy_owner : option string;
  models : gmap string Z
}.
Definition no_flight : InFlight := mkInFlight 0 0 None None ∅.

Record HeavyEvent : Type := mkHeavyEvent {
  ts_unix : Z;
  kind : string;
  ev_device : string;
  req_owner : string;
  incumbent_owner : string
}.

Record Registry : Type := mkRegistry {
  devices : gmap string DeviceState;
  model_to_devices : gmap string (gset string);
  in_flight_table : gmap string InFlight;
  convo_affinity : gmap string (string * Z);
  reliability : ReliabilityConfig;
  heavy_events : list HeavyEvent
}.

Definition set_devices (x : gmap string DeviceState) (r : Registry) : Registry :=
  mkRegistry x (model_to_devices r) (in_flight_table r) (convo_affinity r) (reliability r) (heavy_events r).
Definition set_index (x : gmap string (gset string)) (r : Registry) : Registry :=
  mkRegistry (devices r) x (in_flight_table r) (convo_affinity r) (reliability r) (heavy_events r).
Definition set_in_flight (x : gmap string InFlight) (r : Registry) : Registry :=
  mkRegistry (devices r) (model_to_devices r) x (convo_affinity r) (reliability r) (heavy_events r).
Definition set_convo (x : gmap string (string * Z)) (r : Registry) : Registry :=
  mkRegistry (devices r) (model_to_devices r) (in_flight_table r) x (reliability r) (heavy_events r).
Definition set_events (x : list HeavyEvent) (r : Registry) : Registry :=
  mkRegistry (devices r) (model_to_devices r) (in_flight_table r) (convo_affinity r) (reliability r) x.

Definition new (cfg : ReliabilityConfig) : Registry := mkRegistry ∅ ∅ ∅ ∅ cfg [].

Definition update_device (f : DeviceState -> DeviceState) (n : string) (r : Registry) : Registry :=
  set_devices (alter f n (devices r)) r.
Definition update_flight (f : InFlight -> InFlight) (n : string) (r : Registry) : Registry :=
  set_in_flight (alter f n (in_flight_table r)) r.

(** ** Conversation affinity *)

Definition CONVO_AFFINITY_CAP : nat := 4096.

Definition convo_fresh (clk : Clock) (ttl : Z) (t : Z) : bool := elapsed clk t <=? from_secs ttl.

Definition convo_node (clk : Clock) (key : string) (r : Registry) : option string * Registry :=
  let ttl := convo_stickiness_ttl_seconds (reliability r) in
  if ttl =? 0 then (None, r)
  else
    match convo_affinity r !! key with
    | Some (n, t) =>
        if convo_fresh clk ttl t then (Some n, r)
        else (None, set_convo (delete key (convo_affinity r)) r)
    | None => (None, set_convo (delete key (convo_affinity r)) r)
    end.

Definition note_convo (clk : Clock) (key n : string) (r : Registry) : Registry :=
  let ttl := convo_stickiness_ttl_seconds (reliability r) in
  if ttl =? 0 then r
  else
    let m := convo_affinity r in
    let m :=
      if Nat.leb CONVO_AFFINITY_CAP (size m) then
        let m := filter (fun '(_, v) => convo_fresh clk ttl v.2 = true) m in
        if Nat.leb CONVO_AFFINITY_CAP (size m) then ∅ else m
      else m in
    set_convo (<[key := (n, instant clk)]> m) r.

(** ** Discovery *)

Definition device_models (d : DeviceState) : list string :=
  loaded_models (capabilities d) ++ swappable_models (capabilities d).

(** [rebuild_model_index_for]: drop the node everywhere, then enter it under
    each of its models, unless it belongs to a tier that is not listed. *)
Definition index_insert (n key : string) (idx : gmap string (gset string)) : gmap string (gset string) :=
  <[key := {[n]} ∪ default ∅ (idx !! key)]> idx.
Definition rebuild_model_index_for (n : string) (r : Registry) : Registry :=
  let idx := (fun s : gset string => s ∖ {[n]}) <$> model_to_devices r in
  match devices r !! n with
  | None => set_index idx r
  | Some d =>
      if probation d || employee d then set_index idx r
      else set_index (foldl (fun idx m => index_insert n (normalize_model_id m) idx) idx (device_models d)) r
  end.

Definition upsert_device_with_tier (clk : Clock) (n name : string) (caps : NodeCapabilities)
    (emp prob : bool) (r : Registry) : Registry :=
  let now := instant clk in
  let entry := default (mkDeviceState n name caps now now None None (hardware_tps_prior caps) fresh None
                          false false) (devices r !! n) in
  let entry := mkDeviceState (node_id entry) name caps now now (quarantined_until entry) None
    (ewma_tokens_per_second entry) (live entry) (busy_excess_since entry) emp prob in
  rebuild_model_index_for n (set_devices (<[n := entry]> (devices r)) r).

Definition upsert_device_with_class (clk : Clock) (n name : string) (caps : NodeCapabilities) (emp : bool)
    (r : Registry) : Registry := upsert_device_with_tier clk n name caps emp false r.
Definition upsert_device (clk : Clock) (n name : string) (caps : NodeCapabilities) (r : Registry) : Registry :=
  upsert_device_with_class clk n name caps false r.

Definition apply_heartbeat (clk : Clock) (n : string) (hb : HeartbeatPayload) (r : Registry) : Registry :=
  match devices r !! n with
  | Some _ => rebuild_model_index_for n (update_device (device_apply_heartbeat clk hb) n r)
  | None => r
  end.

Definition mark_departed (clk : Clock) (n : string) (r : Registry) : Registry :=
  update_device (fun d => match departed_at d with
                          | None => set_departed (Some (instant clk)) d
                          | Some _ => d
                          end) n r.

Definition remove_device (n : string) (r : Registry) : Registry :=
  set_index ((fun s : gset string => s ∖ {[n]}) <$> model_to_devices r)
    (set_devices (delete n (devices r)) r).

Definition quarantine (clk : Clock) (n : string) (duration_secs : Z) (r : Registry) : Registry :=
  update_device (set_quarantined (Some (instant clk + from_secs duration_secs))) n r.

(** [sweep]: first the devices whose grace ran out, then staleness and
    quarantine of the rest. *)
Definition grace_over (clk : Clock) (r : Registry) (d : DeviceState) : bool :=
  match departed_at d with
  | Some t => from_secs (departed_grace_seconds (reliability r)) <=? elapsed clk t
  | None => false
  end.
Definition sweep_device (clk : Clock) (stale_threshold : Z) (d : DeviceState) : DeviceState :=
  let d := if heartbeat_is_stale clk stale_threshold d
           then set_capabilities (set_is_available false (capabilities d)) d else d in
  match quarantined_until d with
  | Some t => if t <=? instant clk then set_quarantined None d else d
  | None => d
  end.
Definition sweep (clk : Clock) (r : Registry) : Registry :=
  let departed := node_id <$> (snd <$> List.filter (fun kd => grace_over clk r kd.2) (map_to_list (devices r))) in
  let r' := foldl (fun r n => remove_device n r) r departed in
  set_devices (sweep_device clk (heartbeat_stale_seconds (reliability r)) <$> devices r') r'.

(** ** Queries *)

Definition device_count (r : Registry) : nat := size (devices r).
Definition snapshot_devices (r : Registry) : list DeviceState := snd <$> map_to_list (devices r).

Definition serving (e : Eligibility) : bool :=
  match e with Loaded | Swappable => true | _ => false end.

(** The queue limit is [quarantine_seconds as u32 * 100]. *)
Definition supply_queue_limit (r : Registry) : Z :=
  u32_wrap (u32_wrap (quarantine_seconds (reliability r)) * 100).

Definition supplies (clk : Clock) (r : Registry) (model_id : string) (include_employee : bool)
    (st : DeviceState) : bool :=
  if employee st && negb include_employee then false
  else if probation st then false
  else if heartbeat_is_stale clk (heartbeat_stale_seconds (reliability r)) st then false
  else serving (is_eligible_for clk model_id (supply_queue_limit r) st).

Definition eligible_supply (clk : Clock) (model_id : string) (include_employee : bool) (r : Registry)
    : list DeviceState :=
  List.filter (supplies clk r model_id include_employee) (snapshot_devices r).
Definition eligible_devices (clk : Clock) (model_id : string) (r : Registry) : list DeviceState :=
  eligible_supply clk model_id false r.

(** The devices that count for availability. *)
Definition healthy (clk : Clock) (r : Registry) (st : DeviceState) : bool :=
  negb (probation st) && negb (employee st) && negb (is_quarantined clk st) &&
  is_available (capabilities st) &&
  negb (heartbeat_is_stale clk (heartbeat_stale_seconds (reliability r)) st).

Inductive ModelAvailability : Type := Ready | Warm | Cold | Unavailable.

Fixpoint availability_of (model_id : string) (size_gb : f64) (any_swappable any_fits : bool)
    (l : list DeviceState) : ModelAvailability :=
  match l with
  | [] => if any_swappable then Warm else if any_fits then Cold else Unavailable
  | st :: l =>
      if model_matches_any model_id (loaded_models (capabilities st)) then Ready
      else availability_of model_id size_gb
             (any_swappable || model_matches_any model_id (swappable_models (capabilities st)))
             (any_fits || f64_ge (max_model_size_gb (capabilities st)) size_gb) l
  end.
Definition model_availability (clk : Clock) (model_id : string) (size_gb : f64) (r : Registry)
    : ModelAvailability :=
  availability_of model_id size_gb false false (List.filter (healthy clk r) (snapshot_devices r)).

(** The devices that pass the tier and model gates of [deny_reason]. *)
Definition supported (model_id : string) (st : DeviceState) : bool :=
  negb (probation st || employee st) &&
  (model_matches_any model_id (loaded_models (capabilities st)) ||
   model_matches_any model_id (swappable_models (capabilities st))).
Definition deny_reason (clk : Clock) (model_id : string) (r : Registry) : string :=
  if bool_decide (devices r = ∅) then "empty_registry"
  else
    let sup := List.filter (supported model_id) (snapshot_devices r) in
    let fsh := List.filter (fun st =>
      negb (heartbeat_is_stale clk (heartbeat_stale_seconds (reliability r)) st)) sup in
    let avl := List.filter (fun st => is_available (capabilities st)) fsh in
    let unq := List.filter (fun st => negb (is_quarantined clk st)) avl in
    if bool_decide (sup = []) then "unsupported"
    else if bool_decide (fsh = []) then "stale"
    else if bool_decide (avl = []) then "unavailable"
    else if bool_decide (unq = []) then "quarantined"
    else "floor_or_other".

Definition loaded_count (clk : Clock) (model_id : string) (r : Registry) : nat :=
  length (List.filter (fun st => healthy clk r st &&
    model_matches_any model_id (loaded_models (capabilities st))) (snapshot_devices r)).
Definition supplying_device_count (clk : Clock) (r : Registry) : nat :=
  length (List.filter (fun st => healthy clk r st && bool_decide (loaded_models (capabilities st) <> []))
    (snapshot_devices r)).

(** ** In-flight counters and the heavy hold *)

Section Heavy.
Context `{Crates}.

Definition owner_tag (owner : option string) : string :=
  match owner with
  | Some o => hex_encode (take 6 (sha256 (bytes o)))
  | None => "none"
  end.

(** The ring keeps the 200 newest decisions. *)
Definition record_heavy (clk : Clock) (k dev : string) (req incumbent : option string) (r : Registry)
    : Registry :=
  let q := heavy_events r in
  let q := if Nat.leb 200 (length q) then tail q else q in
  set_events (q ++ [mkHeavyEvent (unix_secs clk) k dev (owner_tag req) (owner_tag incumbent)]) r.

Definition heavy_events_snapshot (r : Registry) : list HeavyEvent := heavy_events r.

Definition flight_of (n : string) (r : Registry) : InFlight := default no_flight (in_flight_table r !! n).

(** [self.in_flight.entry(..).or_default()]. *)
Definition ensure_flight (n : string) (r : Registry) : Registry :=
  set_in_flight (<[n := flight_of n r]> (in_flight_table r)) r.

Definition hold_is_stale (clk : Clock) (n : string) (r : Registry) : bool :=
  match heavy_since (flight_of n r) with
  | Some t => heavy_hold_ttl_seconds (reliability r) <? as_secs (elapsed clk t)
  | None => false
  end.

Definition slot_cap (n : string) (r : Registry) : Z :=
  Z.max (default 2 (devices r !! n ≫= fun d => backend_slots_total (capabilities d))) 1.

Definition expire_hold (f : InFlight) : InFlight := mkInFlight 0 0 None None (models f).

(** The hold check of [admit_request]: [Err] is [return false]. *)
Definition check_hold (clk : Clock) (n : string) (owner : option string) (r : Registry)
    : result Registry Registry :=
  let f := flight_of n r in
  if 0 <? heavy f then
    if hold_is_stale clk n r then
      Ok (record_heavy clk "expire" n None (heavy_owner f) (update_flight expire_hold n r))
    else
      let shared := bool_decide (owner <> None) && bool_decide (heavy_owner f = owner) in
      guard? shared else (record_heavy clk "refuse_different_owner" n owner (heavy_owner f) r) in
      guard? negb (slot_cap n r <=? heavy f)
        else (record_heavy clk "refuse_slots_full" n owner owner r) in
      Ok r
  else Ok r.

Definition has_excess (n : string) (accounted : Z) (r : Registry) : bool :=
  match devices r !! n ≫= fun d => backend_slots_busy (capabilities d) with
  | Some busy => accounted <? busy
  | None => false
  end.

(** The check for sessions that the gateway did not dispatch. *)
Definition check_external (clk : Clock) (n : string) (owner : option string) (r : Registry)
    : result Registry Registry :=
  match devices r !! n with
  | None => Ok r
  | Some dev =>
      if has_excess n (total (flight_of n r)) r then
        match busy_excess_since dev with
        | Some since =>
            if from_secs (busy_excess_grace_seconds (reliability r)) <=? elapsed clk since
            then Err (record_heavy clk "refuse_external_resident" n owner None r)
            else Ok (record_heavy clk "admit_grace_excess" n owner None r)
        | None =>
            Ok (record_heavy clk "observe_external_excess" n owner None
                  (update_device (set_busy_excess (Some (instant clk))) n r))
        end
      else
        match busy_excess_since dev with
        | Some _ => Ok (record_heavy clk "clear_external_excess" n owner None
                          (update_device (set_busy_excess None) n r))
        | None => Ok r
        end
  end.

(** The counters of an admitted request. *)
Definition take_flight (clk : Clock) (n : string) (hv : bool) (owner : option string) (r : Registry)
    : Registry :=
  let f := flight_of n r in
  let total' := u32_wrap (total f + 1) in
  if hv then
    let owner' := if heavy f =? 0 then owner else heavy_owner f in
    let r := update_flight (fun _ => mkInFlight total' (u32_wrap (heavy f + 1)) (Some (instant clk)) owner'
                              (models f)) n r in
    if heavy f =? 0 then record_heavy clk "acquire" n owner None r
    else record_heavy clk "share" n owner owner r
  else update_flight (fun _ => mkInFlight total' (heavy f) (heavy_since f) (heavy_owner f) (models f)) n r.

Definition admit_request (clk : Clock) (n : string) (hv : bool) (owner : option string) (r : Registry)
    : bool * Registry :=
  let r := ensure_flight n r in
  let checked :=
    if hv then let? r := check_hold clk n owner r in check_external clk n owner r else Ok r in
  match checked with
  | Err r => (false, r)
  | Ok r => (true, take_flight clk n hv owner r)
  end.

Definition release_echo_reanchor (clk : Clock) (n : string) (accounted : Z) (r : Registry)
    : bool * Registry :=
  match devices r !! n with
  | None => (false, r)
  | Some dev =>
      if has_excess n accounted r then
        match busy_excess_since dev with
        | Some _ => (true, update_device (set_busy_excess (Some (instant clk))) n r)
        | None => (false, r)
        end
      else
        match busy_excess_since dev with
        | Some _ => (false, record_heavy clk "clear_external_excess" n None None
                              (update_device (set_busy_excess None) n r))
        | None => (false, r)
        end
  end.

Definition dec_in_flight (clk : Clock) (n : string) (hv : bool) (r : Registry) : Z * Registry :=
  match in_flight_table r !! n with
  | None => (0, r)
  | Some f =>
      let prev := total f in
      let total' := if prev =? 0 then 0 else u32_wrap (prev - 1) in
      let r := update_flight (fun f => mkInFlight total' (heavy f) (heavy_since f) (heavy_owner f) (models f))
                 n r in
      let left := u32_saturating_sub prev 1 in
      if hv then
        let hprev := heavy f in
        if hprev <=? 1 then
          let r := update_flight (fun f => mkInFlight (total f) 0 None None (models f)) n r in
          let '(rearmed, r) := release_echo_reanchor clk n left r in
          let r := if rearmed then record_heavy clk "rearm_release_echo" n None None r else r in
          (left, record_heavy clk "release" n (heavy_owner f) None r)
        else
          (left, update_flight (fun f => mkInFlight (total f) (u32_wrap (hprev - 1)) (heavy_since f)
                                           (heavy_owner f) (models f)) n r)
      else (left, r)
  end.

Definition in_flight (n : string) (r : Registry) : Z := total (flight_of n r).
Definition heavy_in_flight (n : string) (r : Registry) : Z := heavy (flight_of n r).

Definition set_models (x : gmap string Z) (f : InFlight) : InFlight :=
  mkInFlight (total f) (heavy f) (heavy_since f) (heavy_owner f) x.
Definition note_model_in_flight (n model : string) (r : Registry) : Registry :=
  update_flight (fun f => set_models (<[model := u32_wrap (default 0 (models f !! model) + 1)]> (models f)) f)
    n r.
Definition release_model_in_flight (n model : string) (r : Registry) : Registry :=
  update_flight (fun f =>
    match models f !! model with
    | Some count =>
        let count := u32_saturating_sub count 1 in
        set_models (if count =? 0 then delete model (models f) else <[model := count]> (models f)) f
    | None => f
    end) n r.

Definition occupancy_at_first_token (n model : string) (r : Registry) : Z * Z * option Z :=
  let same := default 0 (in_flight_table r !! n ≫= fun f => models f !! model) in
  (u32_saturating_sub same 1, u32_saturating_sub (in_flight n r) same,
   devices r !! n ≫= fun d => backend_slots_busy (capabilities d)).
End Heavy.
