(* ===== verification/RegistryFacts.v ===== *)
(** * The registry next to the sessions it counts

    A machine that interleaves the operations of [Registry] with the sessions
    the chat handler opens and closes, and its invariant: the heavy counter of
    a node never exceeds the number of heavy sessions open on it, and is that
    number while no hold expires, two of them share one owner, and the model index lists exactly the public devices.

    A session the handler opened closes once, through the guard that owns it,
    however late.  [admit_request] drops a hold that is older than its time to live,
    since the sessions under it are taken to be gone; if they are not, the
    counters fall behind, and the equalities hold only as long as no admission
    finds such a hold. *)

From S2P Require Import Prelude RustStr F64 Merkle Registry.

Open Scope string_scope.
Open Scope list_scope.
Open Scope Z_scope.

Record Session : Type := mkSession {
  s_node : string;
  s_heavy : bool;
  s_owner : option string
}.
Record RegSystem : Type := mkRegSystem {
  reg : Registry;
  sessions : list Session
}.

Inductive RegOp : Type :=
| OpUpsert (n name : string) (caps : NodeCapabilities) (emp prob : bool)
| OpHeartbeat (n : string) (hb : HeartbeatPayload)
| OpDeparted (n : string)
| OpRemove (n : string)
| OpQuarantine (n : string) (secs : Z)
| OpSweep
| OpConvoNode (key : string)
| OpNoteConvo (key n : string)
| OpNoteModel (n model : string)
| OpReleaseModel (n model : string)
| OpAdmit (n : string) (hv : bool) (owner : option string)
| OpClose (i : nat).

Definition heavy_on (n : string) (s : Session) : bool := bool_decide (s_node s = n) && s_heavy s.
Definition heavies (n : string) (l : list Session) : list Session := List.filter (heavy_on n) l.
Definition on_node (n : string) (l : list Session) : list Session :=
  List.filter (fun s => bool_decide (s_node s = n)) l.

Definition expires (clk : Clock) (n : string) (hv : bool) (r : Registry) : bool :=
  hv && (0 <? heavy (flight_of n r)) && hold_is_stale clk n r.

Section Machine.
Context `{Crates}.

Definition apply_reg_op (clk : Clock) (op : RegOp) (s : RegSystem) : RegSystem :=
  let r := reg s in
  let with_reg r' := mkRegSystem r' (sessions s) in
  match op with
  | OpUpsert n name caps emp prob => with_reg (upsert_device_with_tier clk n name caps emp prob r)
  | OpHeartbeat n hb => with_reg (apply_heartbeat clk n hb r)
  | OpDeparted n => with_reg (mark_departed clk n r)
  | OpRemove n => with_reg (remove_device n r)
  | OpQuarantine n secs => with_reg (quarantine clk n secs r)
  | OpSweep => with_reg (sweep clk r)
  | OpConvoNode key => with_reg (convo_node clk key r).2
  | OpNoteConvo key n => with_reg (note_convo clk key n r)
  | OpNoteModel n m => with_reg (note_model_in_flight n m r)
  | OpReleaseModel n m => with_reg (release_model_in_flight n m r)
  | OpAdmit n hv owner =>
      let '(ok, r') := admit_request clk n hv owner r in
      mkRegSystem r' (if ok then sessions s ++ [mkSession n hv owner] else sessions s)
  | OpClose i =>
      match sessions s !! i with
      | Some x => mkRegSystem (dec_in_flight clk (s_node x) (s_heavy x) r).2 (delete i (sessions s))
      | None => s
      end
  end.

(** A device reports its slots as [u32]. *)
Definition op_typed (op : RegOp) : Prop :=
  match op with
  | OpUpsert _ _ caps _ _ => forall t, backend_slots_total caps = Some t -> 0 <= t <= u32_max
  | _ => True
  end.

Inductive reg_reachable (cfg : ReliabilityConfig) : RegSystem -> Prop :=
| reg_start : reg_reachable cfg (mkRegSystem (new cfg) [])
| reg_step s clk op : reg_reachable cfg s -> op_typed op -> reg_reachable cfg (apply_reg_op clk op s).

(** The step does not drop a hold that outlived its time to live. *)
Definition timely (clk : Clock) (op : RegOp) (r : Registry) : bool :=
  match op with OpAdmit n hv _ => negb (expires clk n hv r) | _ => true end.
Inductive reg_timely (cfg : ReliabilityConfig) : RegSystem -> Prop :=
| timely_start : reg_timely cfg (mkRegSystem (new cfg) [])
| timely_step s clk op : reg_timely cfg s -> op_typed op -> timely clk op (reg s) = true ->
    reg_timely cfg (apply_reg_op clk op s).
Lemma timely_reachable cfg s : reg_timely cfg s -> reg_reachable cfg s.
Proof. induction 1; by constructor. Qed.

(** ** What leaves the counters alone *)

Lemma flight_of_update n m g r :
  flight_of n (update_flight g m r) =
  if decide (n = m) then match in_flight_table r !! n with Some f => g f | None => no_flight end
  else flight_of n r.
Proof.
  unfold flight_of, update_flight. simpl. case_decide as E.
  - subst. rewrite lookup_alter_eq. by destruct (_ !! m).
  - by rewrite lookup_alter_ne.
Qed.

Lemma flight_of_ext n r r' : in_flight_table r' = in_flight_table r -> flight_of n r' = flight_of n r.
Proof. unfold flight_of. by intros ->. Qed.

Lemma flight_of_ensure n m r : flight_of n (ensure_flight m r) = flight_of n r.
Proof.
  unfold ensure_flight. unfold flight_of at 1. simpl. destruct (decide (n = m)) as [->|].
  - by rewrite lookup_insert_eq.
  - by rewrite lookup_insert_ne.
Qed.

Lemma rebuild_flights n r : in_flight_table (rebuild_model_index_for n r) = in_flight_table r.
Proof. unfold rebuild_model_index_for. destruct (_ !! n) as [d|]; [destruct (_ || _)|]; done. Qed.
Lemma rebuild_devices n r : devices (rebuild_model_index_for n r) = devices r.
Proof. unfold rebuild_model_index_for. destruct (_ !! n) as [d|]; [destruct (_ || _)|]; done. Qed.

Lemma removes_flights l r : in_flight_table (foldl (fun r n => remove_device n r) r l) = in_flight_table r.
Proof. revert r. induction l as [|n l IH]; intros r; [done|]. simpl. by rewrite IH. Qed.
Lemma removes_reliability l r : reliability (foldl (fun r n => remove_device n r) r l) = reliability r.
Proof. revert r. induction l as [|n l IH]; intros r; [done|]. simpl. by rewrite IH. Qed.

(** ** What [admit_request] does *)

(** The devices keep everything but the mark of an excess of busy slots. *)
Definition only_excess (r r' : Registry) : Prop :=
  model_to_devices r' = model_to_devices r /\ reliability r' = reliability r /\
  (devices r' = devices r \/ exists n x, devices r' = alter (set_busy_excess x) n (devices r)).

Lemma only_excess_refl r : only_excess r r.
Proof. split_and!; auto. Qed.

Lemma only_excess_same r r' :
  model_to_devices r' = model_to_devices r -> reliability r' = reliability r -> devices r' = devices r ->
  only_excess r r'.
Proof. intros. split_and!; auto. Qed.

Lemma only_excess_through r0 r1 r2 r3 :
  model_to_devices r1 = model_to_devices r0 -> reliability r1 = reliability r0 -> devices r1 = devices r0 ->
  only_excess r1 r2 ->
  model_to_devices r3 = model_to_devices r2 -> reliability r3 = reliability r2 -> devices r3 = devices r2 ->
  only_excess r0 r3.
Proof. intros E1 E2 E3 (A & B & C) E4 E5 E6. split_and!; [congruence..|]. by rewrite E6, <- E3. Qed.

Lemma check_external_effect clk n owner r :
  let r' := match check_external clk n owner r with Ok r' | Err r' => r' end in
  in_flight_table r' = in_flight_table r /\ only_excess r r'.
Proof.
  unfold check_external, record_heavy. destruct (devices r !! n) as [d|]; [|split; [done|apply only_excess_refl]].
  destruct (has_excess _ _ _), (busy_excess_since d); [destruct (_ <=? _)|..]; simpl;
    (split; [done|]); solve [by apply only_excess_same | split_and!; eauto].
Qed.

Definition expire_if (b : bool) (f : InFlight) : InFlight := if b then expire_hold f else f.

(** The four outcomes of the hold check. *)
Lemma check_hold_effect clk n owner r :
  is_Some (in_flight_table r !! n) ->
  let f := flight_of n r in
  match check_hold clk n owner r with
  | Err r' => in_flight_table r' = in_flight_table r /\ devices r' = devices r /\
      model_to_devices r' = model_to_devices r /\ reliability r' = reliability r /\
      0 < heavy f /\ hold_is_stale clk n r = false
  | Ok r' => devices r' = devices r /\ model_to_devices r' = model_to_devices r /\
      reliability r' = reliability r /\ in_flight_table r' = <[n := expire_if (expires clk n true r) f]> (in_flight_table r) /\
      (expires clk n true r = false -> 0 < heavy f ->
       owner <> None /\ heavy_owner f = owner /\ heavy f < slot_cap n r)
  end.
Proof.
  intros [f0 Hf0]. assert (flight_of n r = f0) as -> by by unfold flight_of; rewrite Hf0.
  unfold check_hold, expires, flight_of. rewrite Hf0. simpl.
  destruct (Z.ltb_spec 0 (heavy f0)); simpl; [destruct (hold_is_stale clk n r); simpl|].
  - split_and!; try done. by rewrite (alter_alt_Some _ _ _ _ Hf0).
  - destruct (bool_decide (owner <> None)) eqn:E1; simpl; [|split_and!; done].
    destruct (bool_decide (heavy_owner f0 = owner)) eqn:E2; simpl; [|split_and!; done].
    apply bool_decide_eq_true in E1, E2.
    destruct (Z.leb_spec (slot_cap n r) (heavy f0)); simpl; [split_and!; done|].
    split_and!; try done. by rewrite insert_id.
  - split_and!; try done; [by rewrite insert_id|lia].
Qed.

Definition taken (clk : Clock) (hv : bool) (owner : option string) (f : InFlight) : InFlight :=
  if hv then mkInFlight (u32_wrap (total f + 1)) (u32_wrap (heavy f + 1)) (Some (instant clk))
               (if heavy f =? 0 then owner else heavy_owner f) (models f)
  else mkInFlight (u32_wrap (total f + 1)) (heavy f) (heavy_since f) (heavy_owner f) (models f).

Lemma take_flight_effect clk n hv owner r :
  is_Some (in_flight_table r !! n) ->
  let r' := take_flight clk n hv owner r in
  in_flight_table r' = <[n := taken clk hv owner (flight_of n r)]> (in_flight_table r) /\
  devices r' = devices r /\ model_to_devices r' = model_to_devices r /\ reliability r' = reliability r.
Proof.
  intros [f Hf]. unfold take_flight, taken, update_flight, record_heavy, flight_of. rewrite Hf. simpl.
  destruct hv; [destruct (_ =? 0)|]; simpl; by rewrite (alter_alt_Some _ _ _ _ Hf).
Qed.

(** Admission touches one entry of the counters: expired if its hold was
    stale, and counted up if the request is let in. *)
Lemma admit_effect clk n hv owner r :
  let f := flight_of n r in
  let f1 := expire_if (expires clk n hv r) f in
  let r' := (admit_request clk n hv owner r).2 in
  only_excess r r' /\
  (forall m, m <> n -> flight_of m r' = flight_of m r) /\
  if (admit_request clk n hv owner r).1
  then flight_of n r' = taken clk hv owner f1 /\
       (hv = true -> expires clk n hv r = false -> 0 < heavy f ->
        owner <> None /\ heavy_owner f = owner /\ heavy f < slot_cap n r)
  else flight_of n r' = f1.
Proof.
  unfold admit_request. set (r0 := ensure_flight n r).
  assert (is_Some (in_flight_table r0 !! n)) as Hs by (subst r0; simpl; rewrite lookup_insert_eq; eauto).
  assert (forall m, m <> n -> forall f, default no_flight (<[n := f]> (in_flight_table r0) !! m) = flight_of m r)
    as Hother by (intros; rewrite lookup_insert_ne by done; apply flight_of_ensure).
  assert (forall x, only_excess r0 x -> only_excess r x) as Hoe by done.
  assert (flight_of n r0 = flight_of n r) as Hf by apply flight_of_ensure.
  assert (hold_is_stale clk n r0 = hold_is_stale clk n r) as Hst
    by (unfold hold_is_stale; by rewrite Hf).
  destruct hv.
  - pose proof (check_hold_effect clk n owner r0 Hs) as Hh. simpl in Hh.
    assert (expires clk n true r0 = expires clk n true r) as Hex by (unfold expires; by rewrite Hf, Hst).
    rewrite Hf, Hex in Hh.
    destruct (check_hold clk n owner r0) as [r1|r1]; cbn [fst snd].
    + destruct Hh as (Hd & Hm & Hr & Ht & Hsh).
      pose proof (check_external_effect clk n owner r1) as [Ht2 Hx]. 
      destruct (check_external clk n owner r1) as [r2|r2]; cbn [fst snd] in *.
      * assert (is_Some (in_flight_table r2 !! n)) as Hs2 by (rewrite Ht2, Ht, lookup_insert_eq; eauto).
        destruct (take_flight_effect clk n true owner r2 Hs2) as (Ht3 & Hd3 & Hm3 & Hr3).
        assert (flight_of n r2 = expire_if (expires clk n true r) (flight_of n r)) as Hfn
          by (unfold flight_of at 1; by rewrite Ht2, Ht, lookup_insert_eq).
        split; [|split; [|split]].
        -- apply Hoe. by apply (only_excess_through r0 r1 r2).
        -- intros m Hne. unfold flight_of at 1. rewrite Ht3, lookup_insert_ne, Ht2, Ht by done. by apply Hother.
        -- unfold flight_of at 1. by rewrite Ht3, lookup_insert_eq, Hfn.
        -- intros _. done.
      * split; [|split].
        -- apply Hoe. by apply (only_excess_through r0 r1 r2).
        -- intros m Hne. unfold flight_of at 1. rewrite Ht2, Ht. by apply Hother.
        -- unfold flight_of at 1. by rewrite Ht2, Ht, lookup_insert_eq.
    + destruct Hh as (Ht & Hd & Hm & Hr & Hpos & Hns).
      assert (expires clk n true r = false) as ->
        by (unfold expires; rewrite <- Hst, Hns; apply andb_false_r).
      split; [by apply only_excess_same|split].
      * intros m Hne. rewrite (flight_of_ext m r0 _ Ht). apply flight_of_ensure.
      * by rewrite (flight_of_ext n r0 _ Ht).
  - cbn [fst snd]. destruct (take_flight_effect clk n false owner r0 Hs) as (Ht & Hd & Hm & Hr).
    split; [by apply only_excess_same|split; [|split; [|done]]].
    + intros m Hne. unfold flight_of at 1. rewrite Ht. by apply Hother.
    + unfold flight_of at 1. by rewrite Ht, lookup_insert_eq, Hf.
Qed.

(** ** What closing a session does *)

Definition released (hv : bool) (f : InFlight) : InFlight :=
  let total' := if total f =? 0 then 0 else u32_wrap (total f - 1) in
  if hv then
    if heavy f <=? 1 then mkInFlight total' 0 None None (models f)
    else mkInFlight total' (u32_wrap (heavy f - 1)) (heavy_since f) (heavy_owner f) (models f)
  else mkInFlight total' (heavy f) (heavy_since f) (heavy_owner f) (models f).

Lemma release_echo_effect clk n acc r :
  let r' := (release_echo_reanchor clk n acc r).2 in
  in_flight_table r' = in_flight_table r /\ only_excess r r'.
Proof.
  unfold release_echo_reanchor, record_heavy.
  destruct (devices r !! n) as [d|]; [|split; [done|apply only_excess_refl]].
  destruct (has_excess _ _ _), (busy_excess_since d); simpl;
    (split; [done|]); solve [by apply only_excess_same | split_and!; eauto].
Qed.

Lemma dec_in_flight_effect clk n hv r :
  let r' := (dec_in_flight clk n hv r).2 in
  only_excess r r' /\
  forall m, flight_of m r' = if decide (m = n) then released hv (flight_of m r) else flight_of m r.
Proof.
  unfold dec_in_flight. destruct (in_flight_table r !! n) as [f|] eqn:Hf.
  2: { split; [apply only_excess_refl|]. intros m. case_decide; [|done]. subst m.
       cbn [snd]. unfold flight_of. rewrite Hf. by destruct hv. }
  assert (flight_of n r = f) as Hfl by by unfold flight_of; rewrite Hf.
  destruct hv; [destruct (Z.leb_spec (heavy f) 1)|].
  - set (r1 := update_flight _ n (update_flight _ n r)).
    pose proof (release_echo_effect clk n (u32_saturating_sub (total f) 1) r1) as [Ht Hx].
    destruct (release_echo_reanchor clk n _ r1) as [b r2]. cbn [snd] in *.
    assert (in_flight_table (record_heavy clk "release" n (heavy_owner f) None
      (if b then record_heavy clk "rearm_release_echo" n None None r2 else r2)) = in_flight_table r1) as Ht'
      by by destruct b.
    split.
    + apply (only_excess_through r r1 r2); try done; by destruct b.
    + intros m. rewrite (flight_of_ext m _ _ Ht'). subst r1. rewrite !flight_of_update.
      unfold update_flight; simpl. case_decide; [|done]. subst m.
      rewrite lookup_alter_eq, Hf, Hfl. simpl. unfold released. by destruct (Z.leb_spec (heavy f) 1); [|lia].
  - split; [by apply only_excess_same|]. intros m. cbn [snd]. rewrite !flight_of_update.
    unfold update_flight; simpl. case_decide; [|done]. subst m.
    rewrite lookup_alter_eq, Hf, Hfl. simpl. unfold released. by destruct (Z.leb_spec (heavy f) 1); [lia|].
  - split; [by apply only_excess_same|]. intros m. cbn [snd]. rewrite flight_of_update.
    case_decide; [|done]. subst m. by rewrite Hf, Hfl.
Qed.

(** ** The counters and the open sessions *)

Record hold_inv (s : RegSystem) (n : string) : Prop := {
  hold_count : heavy (flight_of n (reg s)) = Z.of_nat (length (heavies n (sessions s)));
  hold_max : heavy (flight_of n (reg s)) <= u32_max;
  hold_total : 0 <= total (flight_of n (reg s)) <= Z.of_nat (length (on_node n (sessions s)));
  hold_owner : forall x, x ∈ heavies n (sessions s) -> s_owner x = heavy_owner (flight_of n (reg s));
  hold_shared : 1 < heavy (flight_of n (reg s)) -> heavy_owner (flight_of n (reg s)) <> None
}.

Lemma filter_delete {A} (P : A -> bool) (l : list A) i x :
  l !! i = Some x ->
  exists l1 l2, List.filter P l = l1 ++ (if P x then [x] else []) ++ l2 /\
    List.filter P (delete i l) = l1 ++ l2.
Proof.
  intros Hx. exists (List.filter P (take i l)), (List.filter P (drop (S i) l)).
  rewrite delete_take_drop, List.filter_app. split; [|done].
  rewrite <- (take_drop_middle l i x Hx) at 1. rewrite List.filter_app. simpl. by destruct (P x).
Qed.

Lemma hold_inv_same s s' n :
  flight_of n (reg s') = flight_of n (reg s) -> heavies n (sessions s') = heavies n (sessions s) ->
  on_node n (sessions s') = on_node n (sessions s) -> hold_inv s n -> hold_inv s' n.
Proof. intros E1 E2 E3 []. split; by rewrite ?E1, ?E2, ?E3. Qed.

(** The invariant does not read the count per model. *)
Lemma hold_inv_models g m s n :
  (forall f, exists x, g f = set_models x f) -> hold_inv s n ->
  hold_inv (mkRegSystem (update_flight g m (reg s)) (sessions s)) n.
Proof.
  intros Hg Hi.
  assert (exists x, flight_of n (update_flight g m (reg s)) = set_models x (flight_of n (reg s))) as [x E].
  { rewrite flight_of_update. case_decide; [|exists (models (flight_of n (reg s))); by destruct (flight_of _ _)].
    unfold flight_of. destruct (_ !! n) as [f|]; [apply Hg|by exists ∅]. }
  destruct Hi. split; simpl; by rewrite E.
Qed.

Lemma heavy_on_node n x : heavy_on n x = true -> s_node x = n /\ s_heavy x = true.
Proof. unfold heavy_on. rewrite andb_true_iff, bool_decide_eq_true. done. Qed.

Lemma u32_wrap_le z : 0 <= z -> 0 <= u32_wrap z <= z.
Proof. intros. unfold u32_wrap. split; [apply Z.mod_pos_bound; lia|apply Z.mod_le; lia]. Qed.
Lemma u32_wrap_id z : 0 <= z <= u32_max -> u32_wrap z = z.
Proof. unfold u32_wrap, u32_max. intros. apply Z.mod_small. lia. Qed.

Lemma heavies_snoc n m hv owner l :
  heavies n (l ++ [mkSession m hv owner]) =
  heavies n l ++ if bool_decide (m = n) && hv then [mkSession m hv owner] else [].
Proof. unfold heavies. rewrite List.filter_app. done. Qed.
Lemma on_node_snoc n m hv owner l :
  on_node n (l ++ [mkSession m hv owner]) =
  on_node n l ++ if bool_decide (m = n) then [mkSession m hv owner] else [].
Proof. unfold on_node. rewrite List.filter_app. done. Qed.

Lemma admit_inv clk n hv owner s :
  slot_cap n (reg s) <= u32_max -> (forall m, hold_inv s m) -> expires clk n hv (reg s) = false ->
  forall m, hold_inv (apply_reg_op clk (OpAdmit n hv owner) s) m.
Proof.
  intros Hcap Hi Hex m. simpl.
  pose proof (admit_effect clk n hv owner (reg s)) as (_ & Hother & Hn). rewrite Hex in Hn.
  destruct (admit_request clk n hv owner (reg s)) as [ok r']. cbn [fst snd expire_if] in *.
  destruct (decide (m = n)) as [->|Hne].
  2: { apply (hold_inv_same s); [by apply Hother|..|apply Hi]; simpl; destruct ok; try done;
         rewrite ?heavies_snoc, ?on_node_snoc, bool_decide_eq_false_2 by congruence; by rewrite app_nil_r. }
  destruct ok; [|by apply (hold_inv_same s)].
  destruct (Hi n) as [Hc Hm Ht Ho Hs]. destruct Hn as [Hfl Hsh].
  set (f1 := flight_of n (reg s)) in *.
  pose proof (u32_wrap_le (total f1 + 1) ltac:(lia)) as Hw.
  destruct hv; [|split; simpl; rewrite ?heavies_snoc, ?on_node_snoc, ?bool_decide_eq_true_2, ?Hfl by done;
    simpl; rewrite ?app_nil_r, ?length_app; simpl; auto; lia].
  assert (heavy f1 <> 0 -> owner <> None /\ heavy_owner f1 = owner /\ heavy f1 < u32_max) as Hshare.
  { intros Hpos. destruct Hsh as (? & ? & ?); [done|done|lia|]. split_and!; [done|done|lia]. }
  assert (heavy f1 + 1 <= u32_max) as Hmax.
  { destruct (decide (heavy f1 = 0)) as [E|E]; [rewrite E; unfold u32_max; lia|]. apply Hshare in E as (_ & _ & ?). lia. }
  pose proof (u32_wrap_id (heavy f1 + 1) ltac:(lia)) as Hw2.
  split; simpl; rewrite ?heavies_snoc, ?on_node_snoc, ?bool_decide_eq_true_2, ?Hfl by done; simpl;
    rewrite ?length_app; simpl; rewrite ?Hw2; try lia.
  - intros x [Hx|Hx]%elem_of_app.
    + destruct (Z.eqb_spec (heavy f1) 0) as [E|E]; [|by apply Ho]. rewrite Hc in E.
      destruct (heavies n (sessions s)); [by apply not_elem_of_nil in Hx|simpl in E; lia].
    + apply list_elem_of_singleton in Hx as ->. simpl.
      destruct (Z.eqb_spec (heavy f1) 0) as [E|E]; [done|]. symmetry. by apply Hshare.
  - intros ?. destruct (Z.eqb_spec (heavy f1) 0) as [E|E]; [lia|].
    destruct (Hshare E) as (? & -> & _). done.
Qed.

Lemma close_inv clk i s :
  (forall m, hold_inv s m) -> forall m, hold_inv (apply_reg_op clk (OpClose i) s) m.
Proof.
  intros Hi m. simpl. destruct (sessions s !! i) as [x|] eqn:Hx; [|done].
  pose proof (dec_in_flight_effect clk (s_node x) (s_heavy x) (reg s)) as [_ Hfl]. specialize (Hfl m).
  destruct (filter_delete (heavy_on m) _ _ _ Hx) as (h1 & h2 & Eh & Eh').
  destruct (filter_delete (fun s => bool_decide (s_node s = m)) _ _ _ Hx) as (o1 & o2 & Eo & Eo').
  case_decide as Em.
  2: { apply (hold_inv_same s); [done|..|apply Hi]; simpl; unfold heavies, on_node.
       - rewrite Eh, Eh'. unfold heavy_on. by rewrite bool_decide_eq_false_2 by congruence.
       - rewrite Eo, Eo'. by rewrite bool_decide_eq_false_2 by congruence. }
  subst m. destruct (Hi (s_node x)) as [Hc Hm Ht Ho Hs]. unfold heavies, on_node in *.
  rewrite bool_decide_eq_true_2 in Eo by done.
  assert (heavy_on (s_node x) x = s_heavy x) as E by (unfold heavy_on; by rewrite bool_decide_eq_true_2).
  rewrite E in Eh. set (f := flight_of (s_node x) (reg s)) in *.
  assert (0 <= (if total f =? 0 then 0 else u32_wrap (total f - 1)) <=
          Z.of_nat (length (o1 ++ o2))) as Htot.
  { rewrite Eo, !length_app in Ht. simpl in Ht. rewrite length_app.
    destruct (Z.eqb_spec (total f) 0); [lia|]. pose proof (u32_wrap_le (total f - 1)). lia. }
  destruct (s_heavy x); rewrite Eh, !length_app in Hc; simpl in Hc.
  - unfold released in Hfl. destruct (Z.leb_spec (heavy f) 1).
    + assert (h1 = [] /\ h2 = []) as [-> ->] by (destruct h1, h2; simpl in Hc; [done|lia..]).
      split; simpl; unfold heavies, on_node; rewrite ?Hfl, ?Eh', ?Eo'; simpl;
        [done|unfold u32_max; lia|lia|by intros y ?%not_elem_of_nil|lia].
    + rewrite (u32_wrap_id (heavy f - 1)) in Hfl by lia.
      split; simpl; unfold heavies, on_node; rewrite ?Hfl, ?Eh', ?Eo'; simpl;
        [rewrite length_app; lia|lia|lia| |intros; apply Hs; lia].
      intros y Hy. apply Ho. rewrite Eh. rewrite !elem_of_app in *. tauto.
  - split; simpl; unfold heavies, on_node; rewrite ?Hfl, ?Eh', ?Eo'; simpl;
      [rewrite length_app; lia|lia|lia| |auto].
    intros y Hy. apply Ho. by rewrite Eh.
Qed.

(** ** The devices and the model index *)

Definition lists (d : DeviceState) (key : string) : Prop :=
  probation d = false /\ employee d = false /\ key ∈ normalize_model_id <$> device_models d.
Definition indexed (r : Registry) (key n : string) : Prop := n ∈ default ∅ (model_to_devices r !! key).

Record reg_wf (r : Registry) : Prop := {
  wf_ids : forall n d, devices r !! n = Some d -> node_id d = n;
  wf_slots : forall n d t, devices r !! n = Some d -> backend_slots_total (capabilities d) = Some t ->
    0 <= t <= u32_max;
  wf_index : forall key n, indexed r key n <-> exists d, devices r !! n = Some d /\ lists d key
}.

Lemma index_insert_member n models idx key m :
  m ∈ default ∅ (foldl (fun idx x => index_insert n (normalize_model_id x) idx) idx models !! key) <->
  m ∈ default ∅ (idx !! key) \/ m = n /\ key ∈ normalize_model_id <$> models.
Proof.
  revert idx. induction models as [|x l IH]; intros idx; simpl; [rewrite elem_of_nil; tauto|].
  rewrite IH. unfold index_insert. destruct (decide (normalize_model_id x = key)) as [<-|Hne].
  - rewrite lookup_insert_eq. simpl. rewrite elem_of_union, elem_of_singleton, elem_of_cons. tauto.
  - rewrite lookup_insert_ne, elem_of_cons by done. intuition congruence.
Qed.

Lemma dropped_member n (idx : gmap string (gset string)) key m :
  m ∈ default ∅ (((fun s : gset string => s ∖ {[n]}) <$> idx) !! key) <->
  m <> n /\ m ∈ default ∅ (idx !! key).
Proof. rewrite lookup_fmap. destruct (idx !! key); simpl; rewrite ?elem_of_difference, ?elem_of_singleton, ?elem_of_empty; tauto. Qed.

Lemma rebuild_member n r key m :
  indexed (rebuild_model_index_for n r) key m <->
  (m <> n /\ indexed r key m) \/ (m = n /\ exists d, devices r !! n = Some d /\ lists d key).
Proof.
  unfold indexed, rebuild_model_index_for. destruct (devices r !! n) as [d|] eqn:Hd.
  2: { simpl. rewrite dropped_member. split; [by left|]. intros [?|(_ & d & ? & _)]; done. }
  unfold lists. destruct (probation d || employee d) eqn:Ht.
  - simpl. rewrite dropped_member. split; [by left|]. intros [?|(_ & d' & [= <-] & ? & ? & _)]; [done|].
    apply orb_true_iff in Ht as [?|?]; congruence.
  - apply orb_false_iff in Ht as [Hp He]. simpl. rewrite index_insert_member, dropped_member.
    split; [intros [?|[-> ?]]; [by left|right; eauto 10]|].
    intros [?|(-> & d' & [= <-] & _ & _ & ?)]; [by left|by right].
Qed.

(** Replacing the entry of one device and rebuilding its index. *)
Lemma upsert_wf n d r :
  reg_wf r -> node_id d = n ->
  (forall t, backend_slots_total (capabilities d) = Some t -> 0 <= t <= u32_max) ->
  reg_wf (rebuild_model_index_for n (set_devices (<[n := d]> (devices r)) r)).
Proof.
  intros [Hid Hs Hx] Hn Ht. split.
  - rewrite rebuild_devices. simpl. intros m d'. destruct (decide (m = n)) as [->|].
    + rewrite lookup_insert_eq. by intros [= <-].
    + rewrite lookup_insert_ne by congruence. apply Hid.
  - rewrite rebuild_devices. simpl. intros m d' t. destruct (decide (m = n)) as [->|].
    + rewrite lookup_insert_eq. intros [= <-]. apply Ht.
    + rewrite lookup_insert_ne by congruence. apply Hs.
  - intros key m. rewrite rebuild_member, rebuild_devices. simpl.
    destruct (decide (m = n)) as [->|Hne].
    + split; [intros [[? _]|[_ ?]]; done|by right].
    + rewrite (lookup_insert_ne _ n m) by congruence. split; [intros [[_ ?]|[? _]]; [by apply Hx|done]|].
      intros. left. split; [done|by apply Hx].
Qed.

Lemma remove_wf n r : reg_wf r -> reg_wf (remove_device n r).
Proof.
  intros [Hid Hs Hx]. split; simpl.
  - intros m d [_ ?]%lookup_delete_Some. by apply Hid.
  - intros m d t [_ ?]%lookup_delete_Some. by eapply Hs.
  - intros key m. unfold indexed. simpl. rewrite dropped_member.
    setoid_rewrite lookup_delete_Some. fold (indexed r key m). rewrite Hx. naive_solver.
Qed.

Lemma removes_wf l r : reg_wf r -> reg_wf (foldl (fun r n => remove_device n r) r l).
Proof. revert r. induction l as [|n l IH]; intros r Hr; [done|]. simpl. by apply IH, remove_wf. Qed.

(** An update of devices that keeps what the index and the hold read. *)
Definition same_listing (d d' : DeviceState) : Prop :=
  node_id d' = node_id d /\ probation d' = probation d /\ employee d' = employee d /\
  device_models d' = device_models d /\
  backend_slots_total (capabilities d') = backend_slots_total (capabilities d).

Lemma same_listing_wf r r' :
  model_to_devices r' = model_to_devices r ->
  (forall n, option_Forall2 same_listing (devices r !! n) (devices r' !! n)) ->
  reg_wf r -> reg_wf r'.
Proof.
  intros Hm Hd [Hid Hs Hx].
  assert (forall n d', devices r' !! n = Some d' -> exists d, devices r !! n = Some d /\ same_listing d d') as Hb
    by (intros n d' E; specialize (Hd n); rewrite E in Hd; inversion Hd; eauto).
  split.
  - intros n d' (d & E & -> & _)%Hb. by apply Hid.
  - intros n d' t (d & E & _ & _ & _ & _ & ->)%Hb. by eapply Hs.
  - intros key n. unfold indexed. rewrite Hm. fold (indexed r key n). rewrite Hx.
    specialize (Hd n). unfold lists.
    split; intros (d & E & Hl); rewrite E in Hd; inversion Hd as [? ? (? & Ep & Ee & Em & ?)|]; subst;
      [rewrite <- Ep, <- Ee, <- Em in Hl|rewrite Ep, Ee, Em in Hl]; eauto.
Qed.

Lemma same_listing_refl d : same_listing d d.
Proof. by split_and!. Qed.

Lemma alter_wf g n r :
  (forall d, same_listing d (g d)) -> reg_wf r -> reg_wf (update_device g n r).
Proof.
  intros Hg. apply same_listing_wf; [done|]. intros m. simpl. destruct (decide (m = n)) as [->|].
  - rewrite lookup_alter_eq. destruct (devices r !! n); constructor. apply Hg.
  - rewrite lookup_alter_ne by done. destruct (devices r !! m); constructor. apply same_listing_refl.
Qed.

Lemma only_excess_wf r r' : only_excess r r' -> reg_wf r -> reg_wf r'.
Proof.
  intros (Hm & _ & [Hd|(n & x & Hd)]) Hr.
  - destruct Hr. split; unfold indexed; rewrite ?Hd, ?Hm; done.
  - apply (alter_wf (set_busy_excess x) n) in Hr; [|done]. destruct Hr as [Hid Hs Hx]. simpl in *.
    split; unfold indexed in *; rewrite ?Hd, ?Hm; done.
Qed.

(** ** Every step keeps both *)

Definition calm (op : RegOp) : bool :=
  match op with
  | OpAdmit _ _ _ | OpClose _ | OpNoteModel _ _ | OpReleaseModel _ _ => false
  | _ => true
  end.

Lemma calm_flights clk op s :
  calm op = true ->
  sessions (apply_reg_op clk op s) = sessions s /\
  in_flight_table (reg (apply_reg_op clk op s)) = in_flight_table (reg s).
Proof.
  destruct op; try done; intros _; split; try done; simpl.
  - unfold upsert_device_with_tier. by rewrite rebuild_flights.
  - unfold apply_heartbeat. destruct (_ !! n); [by rewrite rebuild_flights|done].
  - apply removes_flights.
  - unfold convo_node. destruct (_ =? 0); [done|]. destruct (_ !! key) as [[]|]; [by destruct (convo_fresh _ _ _)|done].
  - unfold note_convo. by destruct (_ =? 0).
Qed.

Lemma slot_cap_max n r : reg_wf r -> slot_cap n r <= u32_max.
Proof.
  intros [_ Hs _]. unfold slot_cap. destruct (devices r !! n) as [d|] eqn:Hd; simpl; [|unfold u32_max; lia].
  destruct (backend_slots_total (capabilities d)) as [t|] eqn:Ht; simpl; [|unfold u32_max; lia].
  specialize (Hs _ _ _ Hd Ht). unfold u32_max in *. lia.
Qed.

Lemma hold_inv_step clk op s :
  reg_wf (reg s) -> timely clk op (reg s) = true -> (forall n, hold_inv s n) ->
  forall n, hold_inv (apply_reg_op clk op s) n.
Proof.
  intros Hw Htm Hi n. destruct (calm op) eqn:Hc.
  { destruct (calm_flights clk op s Hc) as [E1 E2].
    apply (hold_inv_same s); rewrite ?E1; try done. by apply flight_of_ext. }
  destruct op; try done; simpl.
  - apply hold_inv_models; [eauto|apply Hi].
  - apply hold_inv_models; [|apply Hi]. intros f. destruct (models f !! model); [eauto|].
    exists (models f). by destruct f.
  - apply admit_inv; [by apply slot_cap_max|done|]. by apply negb_true_iff in Htm.
  - by apply close_inv.
Qed.

Lemma sweep_device_listing clk t d : same_listing d (sweep_device clk t d).
Proof.
  unfold sweep_device. destruct (heartbeat_is_stale clk t d); simpl;
    destruct (quarantined_until d) as [q|]; [destruct (_ <=? _)|..|destruct (_ <=? _)|]; by split_and!.
Qed.

Lemma reg_wf_step clk op s :
  op_typed op -> reg_wf (reg s) -> reg_wf (reg (apply_reg_op clk op s)).
Proof.
  intros Ht Hw. destruct op; simpl in *.
  - apply upsert_wf; [done| |done]. simpl. destruct (devices (reg s) !! n) eqn:E; [|done].
    simpl. by eapply wf_ids.
  - unfold apply_heartbeat, update_device. destruct (devices (reg s) !! n) as [d|] eqn:E; [|done].
    rewrite (alter_alt_Some _ _ _ _ E). apply upsert_wf; [done| |]; simpl.
    + by eapply wf_ids.
    + intros t. destruct (hb_loaded_models hb); simpl; by eapply wf_slots.
  - apply alter_wf; [|done]. intros d. by destruct (departed_at d).
  - by apply remove_wf.
  - by apply alter_wf.
  - eapply same_listing_wf; [| |by apply removes_wf]; [done|]. intros n. simpl. rewrite lookup_fmap.
    destruct (_ !! n); constructor. apply sweep_device_listing.
  - unfold convo_node. destruct (_ =? 0); [done|].
    destruct (_ !! key) as [[]|]; [destruct (convo_fresh _ _ _)|]; try done; by destruct Hw.
  - unfold note_convo. destruct (_ =? 0); [done|]. by destruct Hw.
  - by destruct Hw.
  - by destruct Hw.
  - pose proof (admit_effect clk n hv owner (reg s)) as [Hx _]. destruct (admit_request _ _ _ _ _).
    by apply (only_excess_wf (reg s)).
  - destruct (sessions s !! i) as [x|]; [|done].
    by apply (only_excess_wf (reg s)); [apply dec_in_flight_effect|].
Qed.

Lemma reachable_wf cfg s : reg_reachable cfg s -> reg_wf (reg s).
Proof.
  induction 1 as [|s clk op Hr Hw Ht]; [|by apply reg_wf_step].
  split; unfold indexed; simpl; [done|done|].
  intros key n. rewrite !lookup_empty. simpl. split; [by intros ?%elem_of_empty|by intros (? & ? & _)].
Qed.

Lemma reachable_inv cfg s : reg_timely cfg s -> forall n, hold_inv s n.
Proof.
  induction 1 as [|s clk op Hr IH Ht Htm]; [|apply hold_inv_step; [by eapply reachable_wf, timely_reachable|done|done]].
  intros n. split; simpl; unfold flight_of; simpl; rewrite ?lookup_empty; simpl;
    [done|unfold u32_max; lia|lia|by intros ? ?%not_elem_of_nil|lia].
Qed.

(** *** Whatever expires *)

(** The counters never exceed the open sessions. *)
Definition counts_below (s : RegSystem) (n : string) : Prop :=
  0 <= heavy (flight_of n (reg s)) <= Z.of_nat (length (heavies n (sessions s))) /\
  0 <= total (flight_of n (reg s)) <= Z.of_nat (length (on_node n (sessions s))).

Lemma below_step clk op s : (forall n, counts_below s n) -> forall n, counts_below (apply_reg_op clk op s) n.
Proof.
  intros Hi n. specialize (Hi n). unfold counts_below in *. destruct (calm op) eqn:Hc.
  { destruct (calm_flights clk op s Hc) as [E1 E2]. by rewrite E1, (flight_of_ext n _ _ E2). }
  destruct op as [| | | | | | | |m model|m model|m hv owner|i]; try done; simpl.
  - unfold note_model_in_flight. rewrite flight_of_update. case_decide; [|done]. subst m.
    unfold flight_of in Hi. destruct (_ !! n); simpl in *; done || lia.
  - unfold release_model_in_flight. rewrite flight_of_update. case_decide; [|done]. subst m.
    unfold flight_of in Hi. destruct (_ !! n) as [f|]; [|simpl in *; lia]. by destruct (models f !! model).
  - pose proof (admit_effect clk m hv owner (reg s)) as (_ & Hother & Hn).
    destruct (admit_request clk m hv owner (reg s)) as [ok r']. cbn [fst snd reg sessions] in *.
    destruct (decide (n = m)) as [->|Hne].
    2: { rewrite (Hother n Hne). destruct ok; [|done].
         rewrite heavies_snoc, on_node_snoc, bool_decide_eq_false_2 by congruence. by rewrite !app_nil_r. }
    assert (0 <= heavy (expire_if (expires clk m hv (reg s)) (flight_of m (reg s))) <= Z.of_nat (length (heavies m (sessions s))) /\
      0 <= total (expire_if (expires clk m hv (reg s)) (flight_of m (reg s))) <= Z.of_nat (length (on_node m (sessions s))))
      as [He1 He2] by (destruct (expires _ _ _ _); simpl; lia).
    set (f1 := expire_if _ _) in *. destruct ok; [destruct Hn as [-> _]|by rewrite Hn].
    rewrite heavies_snoc, on_node_snoc, bool_decide_eq_true_2 by done. rewrite !length_app.
    pose proof (u32_wrap_le (heavy f1 + 1) ltac:(lia)). pose proof (u32_wrap_le (total f1 + 1) ltac:(lia)).
    destruct hv; simpl; lia.
  - destruct (sessions s !! i) as [x|] eqn:Hx; [|done]. cbn [reg sessions].
    pose proof (dec_in_flight_effect clk (s_node x) (s_heavy x) (reg s)) as [_ Hfl]. rewrite (Hfl n).
    destruct (filter_delete (heavy_on n) _ _ _ Hx) as (h1 & h2 & Eh & Eh').
    destruct (filter_delete (fun s => bool_decide (s_node s = n)) _ _ _ Hx) as (o1 & o2 & Eo & Eo').
    unfold heavies, on_node in *. rewrite Eh, Eo in Hi. rewrite Eh', Eo'. unfold heavy_on in Hi.
    destruct (decide (n = s_node x)) as [En|En]; rewrite !length_app in *.
    + rewrite bool_decide_eq_true_2 in Hi by done. set (f := flight_of n (reg s)) in *. unfold released.
      pose proof (u32_wrap_le (total f - 1)). pose proof (u32_wrap_le (heavy f - 1)).
      destruct (s_heavy x); [destruct (Z.leb_spec (heavy f) 1)|]; simpl in *; destruct (Z.eqb_spec (total f) 0); lia.
    + rewrite bool_decide_eq_false_2 in Hi by congruence. simpl in Hi. lia.
Qed.

Lemma reachable_below cfg s : reg_reachable cfg s -> forall n, counts_below s n.
Proof.
  induction 1 as [|s clk op Hr IH Ht]; [|by apply below_step].
  intros n. unfold counts_below, flight_of. simpl. rewrite lookup_empty. simpl. lia.
Qed.

Lemma two_in_filter {A} (P : A -> bool) (l : list A) i j x y :
  i <> j -> l !! i = Some x -> l !! j = Some y -> P x = true -> P y = true ->
  (2 <= length (List.filter P l))%nat.
Proof.
  intros Hij Hx Hy Px Py. destruct (filter_delete P l i x Hx) as (l1 & l2 & E & E').
  assert (y ∈ l1 ++ l2) as Hin.
  { rewrite <- E'. apply list_elem_of_In, filter_In. split; [|done]. apply list_elem_of_In, list_elem_of_lookup.
    destruct (decide (j < i)%nat).
    - exists j. by rewrite list_lookup_delete_lt.
    - exists (pred j). rewrite list_lookup_delete_ge by lia. by replace (S (pred j)) with j by lia. }
  rewrite E, Px, !length_app. simpl. destruct l1; [destruct l2; [by apply not_elem_of_nil in Hin|]|]; simpl; lia.
Qed.

Lemma heavies_elem n l x : x ∈ heavies n l <-> x ∈ l /\ s_node x = n /\ s_heavy x = true.
Proof.
  unfold heavies. rewrite !list_elem_of_In, filter_In. unfold heavy_on.
  by rewrite andb_true_iff, bool_decide_eq_true, <- list_elem_of_In.
Qed.

(** A hold of somebody else that is not stale refuses without a change. *)
Lemma admit_refuses clk n owner r :
  0 < heavy (flight_of n r) -> hold_is_stale clk n r = false ->
  owner = None \/ heavy_owner (flight_of n r) <> owner \/ slot_cap n r <= heavy (flight_of n r) ->
  (admit_request clk n true owner r).1 = false /\
  forall m, flight_of m (admit_request clk n true owner r).2 = flight_of m r.
Proof.
  intros Hpos Hst Hno. pose proof (admit_effect clk n true owner r) as (_ & Hother & Hn).
  assert (expires clk n true r = false) as Hex by (unfold expires; rewrite Hst; apply andb_false_r).
  rewrite Hex in Hn. destruct (admit_request clk n true owner r) as [[|] r']; cbn [fst snd] in *.
  - destruct Hn as [_ Hsh]. destruct Hsh as (? & ? & ?); try done.
    destruct Hno as [?|[?|?]]; [done|done|lia].
  - split; [done|]. intros m. destruct (decide (m = n)) as [->|]; [done|by apply Hother].
Qed.

Lemma admit_free clk n owner r :
  heavy (flight_of n r) <= 0 -> has_excess n (total (flight_of n r)) r = false ->
  (admit_request clk n true owner r).1 = true.
Proof.
  intros Hz Hx. unfold admit_request, check_hold. rewrite flight_of_ensure.
  destruct (Z.ltb_spec 0 (heavy (flight_of n r))); [lia|]. simpl.
  unfold check_external. rewrite flight_of_ensure. change (devices (ensure_flight n r)) with (devices r).
  destruct (devices r !! n) as [d|]; [|done].
  change (has_excess n ?t (ensure_flight n r)) with (has_excess n t r). rewrite Hx.
  by destruct (busy_excess_since d).
Qed.

Lemma removes_lookup l r n :
  devices (foldl (fun r n => remove_device n r) r l) !! n = if decide (n ∈ l) then None else devices r !! n.
Proof.
  revert r. induction l as [|m l IH]; intros r; [done|]. simpl. rewrite IH. simpl.
  destruct (decide (n = m)) as [->|].
  - rewrite lookup_delete_eq. rewrite (decide_True (P := m ∈ m :: l)) by (left; done). by case_decide.
  - rewrite lookup_delete_ne by done. destruct (decide (n ∈ l)).
    + by rewrite decide_True by by right.
    + rewrite decide_False; [done|]. by intros [?|?]%elem_of_cons.
Qed.

Lemma sweep_lookup clk r n :
  (forall m d, devices r !! m = Some d -> node_id d = m) ->
  devices (sweep clk r) !! n =
    d ← devices r !! n;
    if grace_over clk r d then None
    else Some (sweep_device clk (heartbeat_stale_seconds (reliability r)) d).
Proof.
  intros Hid. unfold sweep. simpl. rewrite lookup_fmap, removes_lookup.
  set (l := node_id <$> _).
  assert (forall d, devices r !! n = Some d -> n ∈ l <-> grace_over clk r d = true) as Hl.
  { intros d Hd. subst l. rewrite list_elem_of_fmap. split.
    - intros (d' & Hn & Hin). apply list_elem_of_fmap in Hin as ([k d''] & -> & Hin).
      apply list_elem_of_In, filter_In in Hin as [Hin Hg].
      apply list_elem_of_In, elem_of_map_to_list in Hin. simpl in *.
      pose proof (Hid _ _ Hin). congruence.
    - intros Hg. exists d. split; [symmetry; by apply Hid|]. apply list_elem_of_fmap. exists (n, d).
      split; [done|]. apply list_elem_of_In, filter_In. split; [|done].
      by apply list_elem_of_In, elem_of_map_to_list. }
  destruct (devices r !! n) as [d|]; [|by case_decide]. simpl. specialize (Hl d eq_refl).
  destruct (grace_over clk r d); case_decide; naive_solver.
Qed.

(** C12: In every state that any interleaving of registry operations,
    admissions and session closes, however late, reaches: the heavy and total
    counters of a node never exceed the heavy and all sessions open on it;
    while the counter is up and the hold is not stale, a heavy request of another
    owner, of no owner, or beyond the slots of the backend is refused and leaves
    all counters alone; and a node with no open heavy session and no unexplained
    busy slot always admits.  As long as no admission has found a hold older
    than its time to live, the heavy counter is the number of open heavy
    sessions, so that two of them on one node belong to the same known owner. *)
Theorem heavy_hold_exclusive (cfg : ReliabilityConfig) (s : RegSystem) (Hs : reg_reachable cfg s) :
  (forall n, 0 <= heavy_in_flight n (reg s) <= Z.of_nat (length (heavies n (sessions s))) /\
             0 <= in_flight n (reg s) <= Z.of_nat (length (on_node n (sessions s)))) /\
  (forall clk n owner, 0 < heavy_in_flight n (reg s) -> hold_is_stale clk n (reg s) = false ->
     owner = None \/ heavy_owner (flight_of n (reg s)) <> owner \/ slot_cap n (reg s) <= heavy_in_flight n (reg s) ->
     (admit_request clk n true owner (reg s)).1 = false /\
     forall m, flight_of m (admit_request clk n true owner (reg s)).2 = flight_of m (reg s)) /\
  (forall clk n owner, heavies n (sessions s) = [] -> has_excess n (in_flight n (reg s)) (reg s) = false ->
     (admit_request clk n true owner (reg s)).1 = true) /\
  (reg_timely cfg s ->
     (forall n, heavy_in_flight n (reg s) = Z.of_nat (length (heavies n (sessions s)))) /\
     (forall x, x ∈ sessions s -> s_heavy x = true -> heavy_owner (flight_of (s_node x) (reg s)) = s_owner x) /\
     (forall i j x y, i <> j -> sessions s !! i = Some x -> sessions s !! j = Some y ->
        s_heavy x = true -> s_heavy y = true -> s_node x = s_node y ->
        exists o, s_owner x = Some o /\ s_owner y = Some o)).
Proof.
  pose proof (reachable_below _ _ Hs) as Hb. unfold heavy_in_flight, in_flight. split_and!.
  - intros n. apply Hb.
  - intros clk n owner Hpos Hst Hno. by apply admit_refuses.
  - intros clk n owner Hn Hx. destruct (Hb n) as [Hc _]. apply admit_free; [|done]. rewrite Hn in Hc. simpl in Hc. lia.
  - intros Ht. pose proof (reachable_inv _ _ Ht) as Hi. split_and!.
    + intros n. apply Hi.
    + intros x Hx Px. symmetry. apply Hi. by apply heavies_elem.
    + intros i j x y Hij Hx Hy Px Py Hn. destruct (Hi (s_node x)) as [Hc _ _ Ho Hsh].
      assert (1 < heavy (flight_of (s_node x) (reg s))) as H2.
      { rewrite Hc. pose proof (two_in_filter (heavy_on (s_node x)) (sessions s) i j x y Hij Hx Hy) as H2.
        unfold heavies. unfold heavy_on in H2 at 1 2. rewrite <- Hn, bool_decide_eq_true_2 in H2 by done.
        specialize (H2 Px Py). lia. }
      destruct (heavy_owner (flight_of (s_node x) (reg s))) as [o|] eqn:E; [|by apply Hsh in H2].
      exists o. split; apply Ho, heavies_elem; (split_and!; [|done|done]).
      * by eapply list_elem_of_lookup_2.
      * by eapply list_elem_of_lookup_2.
Qed.

(** In every reachable state the model index lists a device under a model
    exactly when the device is registered, belongs to neither the probation
    nor the employee tier, and reports the model as loaded or swappable.  A
    sweep keeps exactly the devices whose departure grace is not over, as they
    were except that stale ones become unavailable and quarantines that ran
    out are lifted. *)
Theorem model_index_exact (cfg : ReliabilityConfig) (s : RegSystem) (Hs : reg_reachable cfg s) :
  (forall key n, n ∈ default ∅ (model_to_devices (reg s) !! key) <->
     exists d, devices (reg s) !! n = Some d /\ probation d = false /\ employee d = false /\
               key ∈ normalize_model_id <$> device_models d) /\
  (forall clk n, devices (sweep clk (reg s)) !! n =
     d ← devices (reg s) !! n;
     if grace_over clk (reg s) d then None
     else Some (sweep_device clk (heartbeat_stale_seconds (reliability (reg s))) d)) /\
  (forall clk key n, n ∈ default ∅ (model_to_devices (sweep clk (reg s)) !! key) ->
     exists d, devices (sweep clk (reg s)) !! n = Some d).
Proof.
  apply reachable_wf in Hs as Hw. split_and!; [apply (wf_index _ Hw)| |].
  - intros clk n. apply sweep_lookup, Hw.
  - intros clk key n Hn. apply (reg_wf_step clk OpSweep s I) in Hw. apply (wf_index _ Hw) in Hn as (d & E & _).
    by exists d.
Qed.
End Machine.

(** ** A concrete run *)

Definition toy_reliability : ReliabilityConfig := default_reliability.
Definition toy_caps (slots : Z) : NodeCapabilities :=
  mkCapabilities (mkHardware "m" "M4" f64_one 10 f64_one 1 None None None) ["hermes-3-8b"] f64_one true None
    ["Org/Qwen3-8B"] None None None (Some 0) (Some slots).
Definition at_secs (t : Z) : Clock := mkClock (from_secs t) (1700000000 + t).

(** Two requests of one owner share the node, a light one comes beside them. *)
Definition toy_ops : list (Clock * RegOp) :=
  [(at_secs 1, OpUpsert "node" "Studio" (toy_caps 2) false false);
   (at_secs 2, OpAdmit "node" true (Some "alice"));
   (at_secs 3, OpAdmit "node" false None);
   (at_secs 4, OpAdmit "node" true (Some "alice"));
   (at_secs 5, OpAdmit "node" true (Some "bob"))].
Definition run_reg (ops : list (Clock * RegOp)) (s : RegSystem) : RegSystem :=
  foldl (fun s '(clk, op) => @apply_reg_op toy_crates clk op s) s ops.
Definition toy_start : RegSystem := mkRegSystem (new toy_reliability) [].
Definition toy_system : RegSystem := run_reg toy_ops toy_start.

Lemma run_reg_reachable ops s :
  @reg_reachable toy_crates toy_reliability s -> Forall (fun x => op_typed x.2) ops ->
  @reg_reachable toy_crates toy_reliability (run_reg ops s).
Proof.
  revert s. induction ops as [|[clk op] ops IH]; intros s Hs Ht; [done|]. apply Forall_cons in Ht as [Ht Hts].
  apply IH; [by constructor|done].
Qed.

Lemma toy_reachable : @reg_reachable toy_crates toy_reliability toy_system.
Proof.
  apply run_reg_reachable; [constructor|]. apply Forall_cons.
  split; [simpl; intros t [= <-]; unfold u32_max; lia|by repeat constructor].
Qed.

Lemma toy_timely : @reg_timely toy_crates toy_reliability toy_system.
Proof.
  unfold toy_system, run_reg, toy_ops. cbn [foldl].
  do 5 (apply timely_step; [|first [simpl; intros t [= <-]; unfold u32_max; lia|done]|vm_compute; reflexivity]).
  constructor.
Qed.

Lemma heavy_hold_exclusive_witness :
  heavies "node" (sessions toy_system) =
    [mkSession "node" true (Some "alice"); mkSession "node" true (Some "alice")] /\
  heavy_in_flight "node" (reg toy_system) = 2 /\
  (@admit_request toy_crates (at_secs 6) "node" true (Some "bob") (reg toy_system)).1 = false.
Proof.
  destruct (@heavy_hold_exclusive toy_crates toy_reliability toy_system toy_reachable) as (_ & Hr & _ & Ht).
  destruct (Ht toy_timely) as (Hc & _).
  split; [vm_compute; reflexivity|]. split; [rewrite (Hc "node"); vm_compute; reflexivity|].
  apply (Hr (at_secs 6) "node" (Some "bob")).
  - vm_compute. reflexivity.
  - vm_compute. reflexivity.
  - right. left. vm_compute. congruence.
Defined.

Lemma model_index_exact_witness :
  "node" ∈ default ∅ (model_to_devices (reg toy_system) !! "qwen3-8b") /\
  devices (@sweep (at_secs 30) (reg toy_system)) !! "node" = devices (reg toy_system) !! "node".
Proof.
  destruct (@model_index_exact toy_crates toy_reliability toy_system toy_reachable) as (Hi & Hs & _).
  split.
  - apply Hi. exists (mkDeviceState "node" "Studio" (toy_caps 2) (from_secs 1) (from_secs 1) None None
      (hardware_tps_prior (toy_caps 2)) fresh None false false).
    split_and!; [vm_compute; reflexivity..|]. vm_compute. right. left.
  - rewrite Hs. vm_compute. reflexivity.
Defined.

(** When a stale hold is dropped the total of the node is dropped with it, also
    the part of the light sessions that are still running, and the counters
    fall behind the four sessions that are open. *)
Theorem expiry_forgets_light_sessions :
  let s := run_reg [(at_secs 2000, OpAdmit "node" true (Some "bob"))] toy_system in
  length (sessions s) = 4%nat /\ heavy_in_flight "node" (reg s) = 1 /\ in_flight "node" (reg s) = 1.
Proof. vm_compute. done. Qed.
