(* ===== verification/Scheduler.v ===== *)
(** * Device selection

    [gateway/src/scheduler.rs]: the score of a device, the choice of a device
    for a request and the test for saturation.  [f64::powf] is a parameter: its
    result is the one of the platform's mathematical library.  The random
    choice inside the fast lane takes a number, reduced to the length of the
    lane. *)

From S2P Require Import Prelude RustStr F64 Registry.

Open Scope string_scope.
Open Scope list_scope.
Open Scope Z_scope.

Definition FAST_LANE_SCORE_RATIO : f64 := f64_dec 8 1.

Record PerModelFloor : Type := mkPerModelFloor {
  large : Z;
  small : Z
}.
Record SchedulerConfig : Type := mkSchedulerConfig {
  max_queue_depth : Z;
  swap_penalty : f64;
  tps_weight : f64;
  per_model_floor : PerModelFloor
}.
Definition default_scheduler : SchedulerConfig :=
  mkSchedulerConfig 8 (f64_dec 3 1) f64_one (mkPerModelFloor 3 2).

Section Scheduler.
Variable powf : f64 -> f64 -> f64.

Definition score_with_queue (cfg : SchedulerConfig) (d : DeviceState) (loaded : bool) (effective_queue : Z)
    : f64 :=
  let tps := f64_max (ewma_tokens_per_second d) f64_one in
  let queue_norm := f64_min (f64_div (f64_of_Z effective_queue) (f64_of_Z (max_queue_depth cfg))) f64_one in
  let headroom := f64_max (f64_sub f64_one queue_norm) f64_zero in
  let throttle := f64_clamp (f64_div (f64_of_Z (throttle_level (live d))) (f64_of_Z 100)) f64_zero f64_one in
  let thermal := thermal_weight (thermal_level (live d)) in
  let load_factor := if loaded then f64_one else swap_penalty cfg in
  f64_mul (f64_mul (f64_mul (f64_mul (powf tps (tps_weight cfg)) headroom) throttle) thermal) load_factor.

Definition score (cfg : SchedulerConfig) (d : DeviceState) (loaded : bool) (in_fl : Z) : f64 :=
  score_with_queue cfg d loaded (Z.max (queue_depth (live d)) in_fl).

(** The match on [Eligibility]: [None] is [continue]. *)
Definition loaded_of (e : Eligibility) : option bool :=
  match e with Loaded => Some true | Swappable => Some false | _ => None end.

Definition excluded (exclude : list string) (d : DeviceState) : bool :=
  existsb (fun e => bool_decide (e = node_id d)) exclude.
Definition too_short (min_context : option Z) (d : DeviceState) : bool :=
  match min_context, effective_context (capabilities d) with
  | Some need, Some have => have <? need
  | _, _ => false
  end.
Definition on_battery (d : DeviceState) : bool :=
  bool_decide (on_ac_power (capabilities d) = Some false).

(** The loop of [saturated]: [None] is the early [return false]. *)
Fixpoint blocked_by_depth (clk : Clock) (cfg : SchedulerConfig) (model_id : string) (exclude : list string)
    (r : Registry) (min_context : option Z) (blocked : Z) (candidates : list DeviceState) : option Z :=
  match candidates with
  | [] => Some blocked
  | d :: candidates =>
      let go b := blocked_by_depth clk cfg model_id exclude r min_context b candidates in
      if excluded exclude d then go blocked
      else
        match loaded_of (is_eligible_for clk model_id u32_max d) with
        | None => go blocked
        | Some loaded =>
            if too_short min_context d then go blocked
            else if on_battery d then go blocked
            else if f64_le (score_with_queue cfg d loaded 0) f64_zero then go blocked
            else if (max_queue_depth cfg <=? queue_depth (live d)) ||
                    (max_queue_depth cfg <=? in_flight (node_id d) r) then go (blocked + 1)
            else None
        end
  end.
Definition saturated (clk : Clock) (cfg : SchedulerConfig) (candidates : list DeviceState) (model_id : string)
    (exclude : list string) (r : Registry) (min_context : option Z) : bool :=
  match blocked_by_depth clk cfg model_id exclude r min_context 0 candidates with
  | Some blocked => 0 <? blocked
  | None => false
  end.

(** A candidate that passed every filter, with what the choice reads. *)
Record Viable : Type := mkViable {
  v_in_flight : Z;
  v_loaded : bool;
  v_score : f64;
  v_device : DeviceState
}.

Definition viable_of (clk : Clock) (cfg : SchedulerConfig) (model_id : string) (exclude : list string)
    (r : Registry) (min_context : option Z) (d : DeviceState) : option Viable :=
  if excluded exclude d then None
  else
    match loaded_of (is_eligible_for clk model_id (max_queue_depth cfg) d) with
    | None => None
    | Some loaded =>
        if too_short min_context d then None
        else if on_battery d then None
        else
          let in_fl := in_flight (node_id d) r in
          if max_queue_depth cfg <=? in_fl then None
          else
            let sc := score cfg d loaded in_fl in
            if f64_le sc f64_zero then None else Some (mkViable in_fl loaded sc d)
    end.
Definition viable_list (clk : Clock) (cfg : SchedulerConfig) (candidates : list DeviceState) (model_id : string)
    (exclude : list string) (r : Registry) (min_context : option Z) : list Viable :=
  omap (viable_of clk cfg model_id exclude r min_context) candidates.

(** [Iterator::min]. *)
Definition min_in_flight (v : Viable) (l : list Viable) : Z :=
  foldl (fun acc x => Z.min acc (v_in_flight x)) (v_in_flight v) l.

Definition tied_best (v : Viable) (l : list Viable) : list Viable :=
  let viable := v :: l in
  let min_inflight := min_in_flight v l in
  let any_loaded := existsb (fun x => (v_in_flight x =? min_inflight) && v_loaded x) viable in
  List.filter (fun x => (v_in_flight x =? min_inflight) && (negb any_loaded || v_loaded x)) viable.

Definition best_score (tied : list Viable) : f64 :=
  foldl (fun acc x => f64_max acc (v_score x)) f64_zero tied.
Definition fast_lane (tied : list Viable) : list Viable :=
  let cutoff := f64_mul (best_score tied) FAST_LANE_SCORE_RATIO in
  List.filter (fun x => f64_ge (v_score x) cutoff) tied.

(** [SliceRandom::choose]. *)
Definition choose {A} (rng : nat) (l : list A) : option A := l !! (rng `mod` length l)%nat.

Definition pick (clk : Clock) (cfg : SchedulerConfig) (candidates : list DeviceState) (model_id : string)
    (exclude : list string) (r : Registry) (min_context : option Z) (rng : nat) : option DeviceState :=
  match viable_list clk cfg candidates model_id exclude r min_context with
  | [] => None
  | v :: l =>
      match tied_best v l with
      | [t] => Some (v_device t)
      | tied => v_device <$> choose rng (fast_lane tied)
      end
  end.
End Scheduler.
