(* ===== verification/SchedulerFacts.v ===== *)
(** * What the scheduler picks

    The devices that may take a request, stated without the loop, and the
    theorems that [pick] finds one whenever there is one, that it is a least
    loaded one, with the model in memory when possible and a score near the
    best, and what [saturated] reports. *)

From S2P Require Import Prelude RustStr F64 Registry Scheduler RegistryFacts.

Open Scope string_scope.
Open Scope list_scope.
Open Scope Z_scope.

Section Pick.
Context (powf : f64 -> f64 -> f64) (clk : Clock) (cfg : SchedulerConfig).
Context (candidates : list DeviceState) (model_id : string) (exclude : list string).
Context (r : Registry) (min_context : option Z).
Implicit Types (d : DeviceState) (loaded : bool) (v w : Viable) (l : list Viable).

Definition load_of (d : DeviceState) : Z := in_flight (node_id d) r.
Definition score_of (d : DeviceState) (loaded : bool) : f64 := score powf cfg d loaded (load_of d).

(** The gates that do not look at a queue. *)
Record open_to (max_queue : Z) (d : DeviceState) (loaded : bool) : Prop := {
  open_candidate : d ∈ candidates;
  open_allowed : node_id d ∉ exclude;
  open_eligible : is_eligible_for clk model_id max_queue d = if loaded then Loaded else Swappable;
  open_context : forall need have,
    min_context = Some need -> effective_context (capabilities d) = Some have -> need <= have;
  open_power : on_ac_power (capabilities d) <> Some false
}.
(** A device [pick] may return. *)
Definition dispatchable (d : DeviceState) (loaded : bool) : Prop :=
  open_to (max_queue_depth cfg) d loaded /\ load_of d < max_queue_depth cfg /\
  f64_le (score_of d loaded) f64_zero = false.

Lemma excluded_spec d : excluded exclude d = false <-> node_id d ∉ exclude.
Proof.
  unfold excluded. rewrite <- not_true_iff_false, existsb_exists. split.
  - intros Hn Hin. apply Hn. exists (node_id d). split; [by apply list_elem_of_In|by apply bool_decide_eq_true].
  - intros Hn (x & Hx & ->%bool_decide_eq_true). by apply Hn, list_elem_of_In.
Qed.

Lemma too_short_spec d :
  too_short min_context d = false <->
  forall need have, min_context = Some need -> effective_context (capabilities d) = Some have -> need <= have.
Proof.
  unfold too_short. destruct min_context as [need|], (effective_context (capabilities d)) as [have|];
    try (split; [by intros|done]).
  rewrite Z.ltb_ge. split; [by intros ? ? ? [= <-] [= <-]|by auto].
Qed.

Lemma on_battery_spec d : on_battery d = false <-> on_ac_power (capabilities d) <> Some false.
Proof. apply bool_decide_eq_false. Qed.

Lemma loaded_of_spec e loaded : loaded_of e = Some loaded <-> e = if loaded then Loaded else Swappable.
Proof. destruct e, loaded; cbn; naive_solver. Qed.

Lemma viable_of_spec d v :
  d ∈ candidates ->
  viable_of powf clk cfg model_id exclude r min_context d = Some v <->
  dispatchable d (v_loaded v) /\ v = mkViable (load_of d) (v_loaded v) (score_of d (v_loaded v)) d.
Proof.
  intros Hd. unfold viable_of, dispatchable. split.
  - destruct (excluded exclude d) eqn:E1; [done|].
    destruct (loaded_of _) as [b|] eqn:E2; [|done]. destruct (too_short _ _) eqn:E3; [done|].
    destruct (on_battery d) eqn:E4; [done|]. destruct (Z.leb_spec (max_queue_depth cfg) (in_flight (node_id d) r)); [done|].
    destruct (f64_le _ _) eqn:E5; [done|]. intros [= <-]. cbn. split_and!; [|done|done|done].
    split; [done|by apply excluded_spec|by apply loaded_of_spec|by apply too_short_spec|by apply on_battery_spec].
  - intros ([[H1 H2 H3 H4 H5] [H6 H7]] & Hv).
    rewrite (proj2 (excluded_spec d)), (proj2 (loaded_of_spec _ _) H3), (proj2 (too_short_spec d)),
      (proj2 (on_battery_spec d)) by done.
    fold (load_of d). destruct (Z.leb_spec (max_queue_depth cfg) (load_of d)); [lia|].
    fold (score_of d (v_loaded v)). by rewrite H7, <- Hv.
Qed.

Definition viables : list Viable := viable_list powf clk cfg candidates model_id exclude r min_context.

Lemma viables_elem v :
  v ∈ viables <-> dispatchable (v_device v) (v_loaded v) /\
    v_in_flight v = load_of (v_device v) /\ v_score v = score_of (v_device v) (v_loaded v).
Proof.
  unfold viables, viable_list. rewrite list_elem_of_omap. split.
  - intros (d & Hd & Hv). apply viable_of_spec in Hv as [Hv E]; [|done]. by rewrite E.
  - intros (Hd & E1 & E2). exists (v_device v).
    assert (v_device v ∈ candidates) as Hin by apply Hd. split; [done|].
    apply viable_of_spec; [done|]. split; [done|]. rewrite <- E1, <- E2. by destruct v.
Qed.

(** ** The selection *)

Lemma min_in_flight_spec v l :
  (forall w, w ∈ v :: l -> min_in_flight v l <= v_in_flight w) /\
  exists w, w ∈ v :: l /\ v_in_flight w = min_in_flight v l.
Proof.
  unfold min_in_flight. induction l as [|x l [IHle (w & Hw & IHe)]] using rev_ind.
  { split; [by intros w ->%list_elem_of_singleton|]. exists v. split; [by left|done]. }
  rewrite foldl_app. cbn. set (m := foldl _ _ l) in *. split.
  - intros y. rewrite app_comm_cons, elem_of_app. intros [Hy| ->%list_elem_of_singleton]; [|lia].
    specialize (IHle y Hy). lia.
  - destruct (Z.le_gt_cases m (v_in_flight x)).
    + exists w. rewrite app_comm_cons, elem_of_app. split; [by left|lia].
    + exists x. rewrite app_comm_cons, elem_of_app. split; [right; by left|lia].
Qed.

(** The pool of the final choice: least in flight, and loaded if one is. *)
Lemma tied_best_spec v l t :
  t ∈ tied_best v l <-> t ∈ v :: l /\
    forall w, w ∈ v :: l -> v_in_flight t <= v_in_flight w /\
      (v_in_flight w = v_in_flight t -> v_loaded w = true -> v_loaded t = true).
Proof.
  destruct (min_in_flight_spec v l) as [Hle (m & Hm & Em)]. unfold tied_best.
  rewrite list_elem_of_In, filter_In, <- list_elem_of_In, andb_true_iff, Z.eqb_eq, orb_true_iff, negb_true_iff.
  rewrite <- not_true_iff_false, existsb_exists. split.
  - intros (Ht & Et & Hl). split; [done|]. intros w Hw. split; [rewrite Et; by apply Hle|].
    intros Ew Lw. destruct Hl as [Hl|Hl]; [|done]. destruct Hl. exists w.
    split; [by apply list_elem_of_In|]. rewrite Lw, Ew, Et, Z.eqb_refl. done.
  - intros (Ht & Hb). assert (v_in_flight t = min_in_flight v l) as Et.
    { pose proof (Hb m Hm) as [? _]. pose proof (Hle t Ht). lia. }
    split_and!; [done|done|]. destruct (v_loaded t) eqn:Lt; [by right|]. left.
    intros (w & Hw & [Ew Lw]%andb_true_iff). apply Z.eqb_eq in Ew. apply list_elem_of_In in Hw.
    destruct (Hb w Hw) as [_ Hc]. specialize (Hc ltac:(lia) Lw). congruence.
Qed.

Lemma tied_best_nonempty v l : tied_best v l <> [].
Proof.
  unfold tied_best. destruct (min_in_flight_spec v l) as [Hle (m & Hm & Em)].
  destruct (existsb _ (v :: l)) eqn:E; intros Hnil.
  - apply existsb_exists in E as (w & Hw & Hc). 
    assert (In w []) as []. rewrite <- Hnil. apply filter_In. by rewrite orb_false_l.
  - assert (In m []) as []. rewrite <- Hnil. apply filter_In. rewrite Em, Z.eqb_refl.
    split; [by apply list_elem_of_In|done].
Qed.

Definition score_typed (v : Viable) : Prop :=
  f64_valid (v_score v) = true /\ is_nan (v_score v) = false /\ f64_le (v_score v) f64_zero = false.

Lemma best_score_fold l acc :
  is_nan acc = false -> (forall v, v ∈ l -> score_typed v) ->
  let b := foldl (fun acc x => f64_max acc (v_score x)) acc l in
  is_nan b = false /\ f64_le acc b = true /\ (forall v, v ∈ l -> f64_le (v_score v) b = true) /\
  (b = acc \/ exists v, v ∈ l /\ b = v_score v).
Proof.
  revert acc. induction l as [|x l IH]; intros acc Ha Ht; cbn.
  { split_and!; [done|by apply f64_le_refl|by intros v ?%not_elem_of_nil|by left]. }
  destruct (Ht x) as (_ & Hx & _); [by left|].
  destruct (f64_max_spec acc (v_score x) Ha Hx) as (M1 & M2 & M3).
  destruct (IH (f64_max acc (v_score x))) as (B1 & B2 & B3 & B4).
  { by destruct M3 as [->| ->]. }
  { intros v Hv. apply Ht. by right. }
  split_and!; [done|by eapply f64_le_trans| |].
  - intros v [-> |Hv]%elem_of_cons; [by eapply f64_le_trans|by apply B3].
  - destruct B4 as [-> |(v & Hv & ->)]; [|right; exists v; split; [by right|done]].
    destruct M3 as [->| ->]; [by left|right; exists x; split; [by left|done]].
Qed.

Lemma ratio_le x :
  f64_valid x = true -> is_nan x = false -> f64_le x f64_zero = false ->
  f64_ge x (f64_mul x FAST_LANE_SCORE_RATIO) = true.
Proof.
  intros. unfold f64_ge. change (SFleb ?a ?b) with (f64_le a b).
  replace FAST_LANE_SCORE_RATIO with (S754_finite false 7205759403792794 (-53)) by by vm_compute.
  by apply f64_scaled_le.
Qed.

(** The fast lane of a pool holds its best, and only scores near it. *)
Lemma fast_lane_spec l :
  l <> [] -> (forall v, v ∈ l -> score_typed v) ->
  exists b, b ∈ l /\ b ∈ fast_lane l /\ (forall v, v ∈ l -> f64_le (v_score v) (v_score b) = true) /\
    forall v, v ∈ fast_lane l -> v ∈ l /\ f64_ge (v_score v) (f64_mul (v_score b) FAST_LANE_SCORE_RATIO) = true.
Proof.
  intros Hne Ht. destruct (best_score_fold l f64_zero eq_refl Ht) as (B1 & B2 & B3 & B4).
  fold (best_score l) in B1, B2, B3, B4.
  assert (exists v, v ∈ l /\ best_score l = v_score v) as (b & Hb & Eb).
  { destruct B4 as [E|?]; [|done]. destruct l as [|x l]; [done|].
    destruct (Ht x) as (_ & _ & Hx); [by left|]. rewrite E in B3. rewrite B3 in Hx; [done|by left]. }
  exists b. destruct (Ht b Hb) as (V & N & Pz). split_and!; [done| | |].
  - unfold fast_lane. rewrite list_elem_of_In, filter_In, <- list_elem_of_In, Eb. split; [done|by apply ratio_le].
  - intros v Hv. rewrite <- Eb. by apply B3.
  - intros v. unfold fast_lane. by rewrite list_elem_of_In, filter_In, <- list_elem_of_In, Eb.
Qed.

Lemma choose_some {A} rng (l : list A) : l <> [] -> exists x, choose rng l = Some x /\ x ∈ l.
Proof.
  intros Hl. unfold choose. destruct (lookup_lt_is_Some_2 l (rng `mod` length l)%nat) as [x Hx].
  - apply Nat.mod_upper_bound. by destruct l.
  - exists x. split; [done|]. by eapply list_elem_of_lookup_2.
Qed.

(** Whatever the random number, the choice comes from the fast lane. *)
Lemma pick_pool rng v l :
  (forall x, x ∈ v :: l -> score_typed x) -> viables = v :: l ->
  exists t, t ∈ fast_lane (tied_best v l) /\
    pick powf clk cfg candidates model_id exclude r min_context rng = Some (v_device t).
Proof.
  intros Ht Hv. assert (forall x, x ∈ tied_best v l -> score_typed x) as Htb.
  { intros x [Hx _]%tied_best_spec. by apply Ht. }
  destruct (fast_lane_spec (tied_best v l) (tied_best_nonempty v l) Htb) as (b & Hb & Hbf & _ & _).
  unfold pick. fold viables. rewrite Hv. destruct (tied_best v l) as [|t [|t' ts]].
  - by apply not_elem_of_nil in Hb.
  - apply list_elem_of_singleton in Hb as ->. by exists t.
  - destruct (choose_some rng (fast_lane (t :: t' :: ts))) as (x & Hx & Hin).
    { intros E. rewrite E in Hbf. by apply not_elem_of_nil in Hbf. }
    exists x. split; [done|]. by rewrite Hx.
Qed.

(** ** Saturation *)

(** A device that would take the request if no queue were full. *)
Definition would_serve (d : DeviceState) (loaded : bool) : Prop :=
  open_to u32_max d loaded /\ f64_le (score_with_queue powf cfg d loaded 0) f64_zero = false.
Definition at_cap (d : DeviceState) : bool :=
  (max_queue_depth cfg <=? queue_depth (live d)) || (max_queue_depth cfg <=? load_of d).

(** One round of the loop: [None] skips the device. *)
Definition depth_class (d : DeviceState) : option bool :=
  if excluded exclude d then None
  else
    match loaded_of (is_eligible_for clk model_id u32_max d) with
    | None => None
    | Some loaded =>
        if too_short min_context d then None
        else if on_battery d then None
        else if f64_le (score_with_queue powf cfg d loaded 0) f64_zero then None
        else Some (at_cap d)
    end.

Lemma depth_class_spec d b :
  d ∈ candidates -> depth_class d = Some b <-> (exists loaded, would_serve d loaded) /\ at_cap d = b.
Proof.
  intros Hd. unfold depth_class, would_serve. split.
  - destruct (excluded exclude d) eqn:E1; [done|].
    destruct (loaded_of _) as [loaded|] eqn:E2; [|done]. destruct (too_short _ _) eqn:E3; [done|].
    destruct (on_battery d) eqn:E4; [done|]. destruct (f64_le _ _) eqn:E5; [done|]. intros [= <-].
    split; [|done]. exists loaded. split; [|done].
    split; [done|by apply excluded_spec|by apply loaded_of_spec|by apply too_short_spec|by apply on_battery_spec].
  - intros ((loaded & [H1 H2 H3 H4 H5] & H6) & <-).
    by rewrite (proj2 (excluded_spec d)), (proj2 (loaded_of_spec _ _) H3), (proj2 (too_short_spec d)),
      (proj2 (on_battery_spec d)), H6.
Qed.

Lemma blocked_by_depth_spec b0 cands :
  0 <= b0 ->
  (exists b, blocked_by_depth powf clk cfg model_id exclude r min_context b0 cands = Some b /\ 0 < b) <->
  (forall d, d ∈ cands -> depth_class d <> Some false) /\
  (0 < b0 \/ exists d, d ∈ cands /\ depth_class d = Some true).
Proof.
  revert b0. induction cands as [|x cands IH]; intros b0 Hb.
  { cbn. setoid_rewrite elem_of_nil. split.
    - intros (b & [= ->] & ?). split; [done|by left].
    - intros (_ & [?|(? & [] & _)]). by exists b0. }
  assert (blocked_by_depth powf clk cfg model_id exclude r min_context b0 (x :: cands) =
    match depth_class x with
    | None => blocked_by_depth powf clk cfg model_id exclude r min_context b0 cands
    | Some true => blocked_by_depth powf clk cfg model_id exclude r min_context (b0 + 1) cands
    | Some false => None
    end) as ->.
  { cbn. unfold depth_class. fold (load_of x). fold (at_cap x).
    destruct (excluded exclude x); [done|]. destruct (loaded_of _); [|done].
    destruct (too_short _ _), (on_battery x); try done. destruct (f64_le _ _); [done|]. by destruct (at_cap x). }
  setoid_rewrite elem_of_cons. destruct (depth_class x) as [[]|] eqn:E.
  - rewrite IH by lia. split.
    + intros [Hf _]. split; [intros d [-> |Hd]; [by rewrite E|by apply Hf]|]. right. exists x. auto.
    + intros [Hf _]. split; [auto|]. left. lia.
  - split; [by intros (? & ? & _)|]. intros [Hf _]. by destruct (Hf x); [left|].
  - rewrite IH by lia. split.
    + intros [Hf Hs]. split; [intros d [-> |Hd]; [by rewrite E|by apply Hf]|].
      destruct Hs as [?|(d & ? & ?)]; [by left|right; exists d; auto].
    + intros [Hf Hs]. split; [auto|]. destruct Hs as [?|(d & [-> |?] & ?)]; [by left|congruence|].
      right. by exists d.
Qed.

Lemma saturated_spec :
  saturated powf clk cfg candidates model_id exclude r min_context = true <->
  (exists d loaded, would_serve d loaded) /\ (forall d loaded, would_serve d loaded -> at_cap d = true).
Proof.
  assert (saturated powf clk cfg candidates model_id exclude r min_context = true <->
    exists b, blocked_by_depth powf clk cfg model_id exclude r min_context 0 candidates = Some b /\ 0 < b) as ->.
  { unfold saturated. destruct (blocked_by_depth _ _ _ _ _ _ _ _ _) as [b|]; [rewrite Z.ltb_lt|].
    - split; [by exists b|by intros (? & [= ->] & ?)].
    - by split; [|intros (? & ? & _)]. }
  rewrite blocked_by_depth_spec by lia. split.
  - intros [Hf [?|(d & Hd & E)]]; [lia|]. split.
    + apply depth_class_spec in E as [(loaded & Hw) _]; [|done]. by exists d, loaded.
    + intros d' loaded Hw. assert (d' ∈ candidates) as Hd' by apply Hw. specialize (Hf d' Hd').
      destruct (at_cap d') eqn:Ec; [done|]. destruct Hf. apply depth_class_spec; eauto.
  - intros [(d & loaded & Hw) Hall]. split.
    + intros d' Hd' E. apply depth_class_spec in E as [(l' & Hw') E]; [|done]. apply Hall in Hw'. congruence.
    + right. assert (d ∈ candidates) as Hd by apply Hw. exists d. split; [done|].
      apply depth_class_spec; [done|]. split; [by exists loaded|by eapply Hall].
Qed.

Lemma eligible_below d q q' loaded :
  q <= q' -> is_eligible_for clk model_id q d = (if loaded then Loaded else Swappable) ->
  is_eligible_for clk model_id q' d = (if loaded then Loaded else Swappable) /\ queue_depth (live d) < q.
Proof.
  intros Hq. unfold is_eligible_for. destruct (is_quarantined clk d); [by destruct loaded|].
  destruct (bool_decide _); [by destruct loaded|].
  destruct (Z.leb_spec q (queue_depth (live d))); [by destruct loaded|].
  by destruct (Z.leb_spec q' (queue_depth (live d))); [lia|].
Qed.

(** A device that [pick] may return is not at its cap. *)
Lemma dispatchable_not_at_cap d loaded :
  max_queue_depth cfg <= u32_max -> dispatchable d loaded ->
  open_to u32_max d loaded /\ at_cap d = false.
Proof.
  intros Hm ([H1 H2 H3 H4 H5] & Hl & _). destruct (eligible_below d _ _ loaded Hm H3) as [He Hq].
  split; [by split|]. unfold at_cap. apply orb_false_iff. rewrite !Z.leb_gt. done.
Qed.
End Pick.

Section Theorems.
Context (powf : f64 -> f64 -> f64) (clk : Clock) (cfg : SchedulerConfig).
Context (candidates : list DeviceState) (model_id : string) (exclude : list string).
Context (r : Registry) (min_context : option Z).

#[local] Abbreviation dispatchable' := (dispatchable powf clk cfg candidates model_id exclude r min_context).

Lemma pick_meets_spec (rng : nat)
    (Hscore : forall d loaded, dispatchable' d loaded ->
       f64_valid (score_of powf cfg r d loaded) = true /\ is_nan (score_of powf cfg r d loaded) = false) :
  match pick powf clk cfg candidates model_id exclude r min_context rng with
  | None => forall d loaded, ~ dispatchable' d loaded
  | Some d => exists loaded, dispatchable' d loaded /\
      (forall d' loaded', dispatchable' d' loaded' ->
         load_of r d <= load_of r d' /\ (load_of r d' = load_of r d -> loaded' = true -> loaded = true)) /\
      exists b, dispatchable' b loaded /\ load_of r b = load_of r d /\
        f64_ge (score_of powf cfg r d loaded) (f64_mul (score_of powf cfg r b loaded) FAST_LANE_SCORE_RATIO) = true /\
        forall d', dispatchable' d' loaded -> load_of r d' = load_of r d ->
          f64_le (score_of powf cfg r d' loaded) (score_of powf cfg r b loaded) = true
  end.
Proof.
  set (vs := viables powf clk cfg candidates model_id exclude r min_context).
  assert (forall d loaded, dispatchable' d loaded ->
    mkViable (load_of r d) loaded (score_of powf cfg r d loaded) d ∈ vs) as Hin
    by (intros; by apply viables_elem).
  destruct vs as [|v l] eqn:Evs.
  { unfold pick. fold (viables powf clk cfg candidates model_id exclude r min_context). fold vs.
    rewrite Evs. intros d loaded Hd. by apply Hin, not_elem_of_nil in Hd. }
  assert (forall x, x ∈ v :: l -> dispatchable' (v_device x) (v_loaded x) /\
    v_in_flight x = load_of r (v_device x) /\ v_score x = score_of powf cfg r (v_device x) (v_loaded x)) as Hv
    by (rewrite <- Evs; intros x; apply viables_elem).
  assert (forall x, x ∈ v :: l -> score_typed x) as Ht.
  { intros x Hx. destruct (Hv x Hx) as (Hd & _ & E). unfold score_typed. rewrite E.
    destruct (Hscore _ _ Hd). split_and!; [done|done|apply Hd]. }
  destruct (pick_pool powf clk cfg candidates model_id exclude r min_context rng v l Ht Evs) as (t & Hf & ->).
  destruct (fast_lane_spec (tied_best v l) (tied_best_nonempty v l)) as (b & Hb & _ & Hbest & Hnear).
  { intros x [Hx _]%tied_best_spec. by apply Ht. }
  destruct (Hnear t Hf) as [Htt Hge].
  pose proof Htt as Htt'. apply tied_best_spec in Htt as [Hti Htm]. pose proof Hb as Hb'.
  apply tied_best_spec in Hb as [Hbi Hbm].
  destruct (Hv t Hti) as (Td & Tf & Ts), (Hv b Hbi) as (Bd & Bf & Bs).
  assert (v_in_flight b = v_in_flight t) as Ebt
    by (pose proof (proj1 (Htm b Hbi)); pose proof (proj1 (Hbm t Hti)); lia).
  assert (v_loaded b = v_loaded t) as Elt.
  { apply eq_true_iff_eq. split; [by apply (Htm b Hbi)|by apply (Hbm t Hti)]. }
  exists (v_loaded t). split; [done|]. split.
  - intros d' loaded' Hd'. rewrite <- Tf. apply (Htm _ (Hin _ _ Hd')).
  - exists (v_device b). rewrite <- Elt, <- Bs, <- Bf, Elt, <- Ts, <- Tf. rewrite <- Elt at 1.
    split_and!; [done|done|done|]. intros d' Hd' El.
    apply (Hbest (mkViable (load_of r d') (v_loaded t) (score_of powf cfg r d' (v_loaded t)) d')).
    apply tied_best_spec. split; [by apply Hin|]. cbn. rewrite El. apply Htm.
Qed.

(** C35: For every random number, [pick] returns a device exactly when some
    candidate is dispatchable (not excluded, eligible for the model, with
    enough context, not on battery, below its queue cap and with a positive
    score); what it returns is dispatchable, no dispatchable device carries
    fewer requests, it has the model loaded if a device as lightly loaded has,
    and its score is at least the product of 0.8 and the best score of the
    devices that tie with it.  The scores are doubles that are not NaN. *)
Theorem pick_spec (rng : nat)
    (Hscore : forall d loaded, dispatchable' d loaded ->
       f64_valid (score_of powf cfg r d loaded) = true /\ is_nan (score_of powf cfg r d loaded) = false) :
  match pick powf clk cfg candidates model_id exclude r min_context rng with
  | None => forall d loaded, ~ dispatchable' d loaded
  | Some d => exists loaded, dispatchable' d loaded /\
      (forall d' loaded', dispatchable' d' loaded' ->
         load_of r d <= load_of r d' /\ (load_of r d' = load_of r d -> loaded' = true -> loaded = true)) /\
      exists b, dispatchable' b loaded /\ load_of r b = load_of r d /\
        f64_ge (score_of powf cfg r d loaded) (f64_mul (score_of powf cfg r b loaded) FAST_LANE_SCORE_RATIO) = true /\
        forall d', dispatchable' d' loaded -> load_of r d' = load_of r d ->
          f64_le (score_of powf cfg r d' loaded) (score_of powf cfg r b loaded) = true
  end.
Proof. by apply pick_meets_spec. Qed.

(** [saturated] holds exactly when some candidate would take the request
    with empty queues and every such candidate is at its queue cap; then every
    device that [pick] could still return would score zero or less with an
    empty queue. *)
Theorem saturated_exact (Hcap : max_queue_depth cfg <= u32_max) :
  (saturated powf clk cfg candidates model_id exclude r min_context = true <->
   (exists d loaded, would_serve powf clk cfg candidates model_id exclude min_context d loaded) /\
   (forall d loaded, would_serve powf clk cfg candidates model_id exclude min_context d loaded ->
      max_queue_depth cfg <= queue_depth (live d) \/ max_queue_depth cfg <= load_of r d)) /\
  (saturated powf clk cfg candidates model_id exclude r min_context = true ->
   forall d loaded, dispatchable' d loaded ->
     f64_le (score_with_queue powf cfg d loaded 0) f64_zero = true).
Proof.
  assert (forall d, at_cap cfg r d = true <->
    max_queue_depth cfg <= queue_depth (live d) \/ max_queue_depth cfg <= load_of r d) as Hc
    by (intros d; unfold at_cap; by rewrite orb_true_iff, !Z.leb_le).
  split.
  - rewrite saturated_spec. by setoid_rewrite Hc.
  - intros [_ Hall]%saturated_spec d loaded Hd.
    destruct (dispatchable_not_at_cap _ _ _ _ _ _ _ _ d loaded Hcap Hd) as [Ho Hn].
    apply not_false_iff_true. intros Hs. specialize (Hall d loaded). rewrite Hall in Hn; [done|by split].
Qed.
End Theorems.

(** ** A concrete choice *)

Definition toy_device (n : string) (tps : Z) (models : list string) : DeviceState :=
  mkDeviceState n n (set_loaded_models models (toy_caps 2)) (from_secs 1) (from_secs 1) None None (f64_of_Z tps)
    fresh None false false.
Definition toy_candidates : list DeviceState :=
  [toy_device "node" 90 ["hermes-3-8b"]; toy_device "fast" 40 ["hermes-3-8b"];
   toy_device "slow" 10 ["hermes-3-8b"]; toy_device "cold" 99 ["hermes-3-8b-q4-other"];
   toy_device "busy" 99 []].
(** With the default weight of one the power is its base. *)
Definition toy_powf (x y : f64) : f64 := x.
Lemma toy_scores_typed d loaded :
  d ∈ toy_candidates ->
  f64_valid (score_of toy_powf default_scheduler (reg toy_system) d loaded) = true /\
  is_nan (score_of toy_powf default_scheduler (reg toy_system) d loaded) = false.
Proof.
  set (ok d b := f64_valid (score_of toy_powf default_scheduler (reg toy_system) d b) &&
                 negb (is_nan (score_of toy_powf default_scheduler (reg toy_system) d b))).
  assert (forallb (fun d => ok d true && ok d false) toy_candidates = true) as Hall
    by (vm_compute; reflexivity).
  intros Hd. rewrite forallb_forall in Hall. apply list_elem_of_In, Hall, andb_true_iff in Hd as [H1 H2].
  destruct loaded; [apply andb_true_iff in H1|apply andb_true_iff in H2]; by rewrite negb_true_iff in *.
Qed.

Lemma toy_pick_fast :
  pick toy_powf (at_secs 6) default_scheduler toy_candidates "hermes-3-8b" ["cold"] (reg toy_system) (Some 4096) 17 =
  Some (toy_device "fast" 40 ["hermes-3-8b"]).
Proof. vm_compute. reflexivity. Qed.

Lemma pick_spec_witness :
  exists d, pick toy_powf (at_secs 6) default_scheduler toy_candidates "hermes-3-8b" ["cold"] (reg toy_system)
      (Some 4096) 17 = Some d /\
    exists loaded, dispatchable toy_powf (at_secs 6) default_scheduler toy_candidates "hermes-3-8b" ["cold"]
      (reg toy_system) (Some 4096) d loaded.
Proof.
  pose proof (pick_spec toy_powf (at_secs 6) default_scheduler toy_candidates "hermes-3-8b" ["cold"]
    (reg toy_system) (Some 4096) 17) as Hp.
  rewrite toy_pick_fast in Hp. exists (toy_device "fast" 40 ["hermes-3-8b"]). split; [exact toy_pick_fast|].
  destruct Hp as (loaded & Hd & _).
  - intros d loaded [[Hin _ _ _ _] _]. exact (toy_scores_typed d loaded Hin).
  - exists loaded. exact Hd.
Defined.

Lemma saturated_exact_witness :
  saturated toy_powf (at_secs 6) (mkSchedulerConfig 1 (f64_dec 3 1) f64_one (mkPerModelFloor 3 2))
    [toy_device "node" 90 ["hermes-3-8b"]] "hermes-3-8b" [] (reg toy_system) None = true.
Proof.
  assert (1 <= u32_max) as Hcap by (unfold u32_max; lia).
  apply (proj1 (saturated_exact toy_powf (at_secs 6) (mkSchedulerConfig 1 (f64_dec 3 1) f64_one (mkPerModelFloor 3 2))
    [toy_device "node" 90 ["hermes-3-8b"]] "hermes-3-8b" [] (reg toy_system) None Hcap)). split.
  - exists (toy_device "node" 90 ["hermes-3-8b"]), true. split; [|vm_compute; reflexivity].
    split; [by left|by intros ?%not_elem_of_nil|vm_compute; reflexivity|done|done].
  - intros d loaded [[Hin _ _ _ _] _]. apply list_elem_of_singleton in Hin as ->. right. vm_compute. done.
Defined.
