(* ===== verification/Pins.v ===== *)
(** * Private inference networks: storage

    [gateway/src/pins.rs] and its tables ([db.rs], migrations 013 to 019):
    networks, roles, members, model policy and usage counts, next to the ledger
    database, of which only the account wallets are read.  Random numbers and
    the clock are arguments.  Rows a query does not order come in the order of
    the keys.  A counter is an integer; SQLite leaves the integers at 2^63,
    beyond any count a network reaches. *)

From S2P Require Import Prelude Db RustStr.
From stdpp Require Import sorting.
From Stdlib Require Import Ascii.

Open Scope string_scope.
Open Scope list_scope.
Open Scope Z_scope.

(** ** Data *)

Record PinSettings : Type := mkPinSettings {
  din_contribution_default : bool;
  priority_policy : string
}.
Definition default_pin_settings : PinSettings := mkPinSettings true "pin_first".

Record PinEndpoint : Type := mkPinEndpoint {
  pe_kind : string;
  pe_addr : string
}.

(** [serde_json], for the columns that hold JSON. *)
Class PinJson : Type := {
  json_valid : string -> bool;
  show_settings : PinSettings -> string;
  parse_settings : string -> option PinSettings;
  show_endpoints : list PinEndpoint -> string;
  parse_endpoints : string -> option (list PinEndpoint);
  show_strings : list string -> string;
  parse_strings : string -> option (list string)
}.
(** What is written reads back. *)
Class PinJsonLaws `{PinJson} : Prop := {
  settings_roundtrip : forall s, parse_settings (show_settings s) = Some s;
  endpoints_roundtrip : forall l, parse_endpoints (show_endpoints l) = Some l;
  strings_roundtrip : forall l, parse_strings (show_strings l) = Some l;
  endpoints_valid : forall l, json_valid (show_endpoints l) = true;
  strings_valid : forall l, json_valid (show_strings l) = true
}.

Inductive PinRole : Type := Admin | Modelrator.
Inductive MemberStatus : Type := Pending | Active | Disabled | Removed.
#[export] Instance PinRole_eq_dec : EqDecision PinRole.
Proof. solve_decision. Defined.
#[export] Instance MemberStatus_eq_dec : EqDecision MemberStatus.
Proof. solve_decision. Defined.

Record PinRow : Type := mkPinRow {
  pin_name : string;
  pin_join_code : string;
  pin_join_code_generation : Z;
  pin_owner_account_user_id : string;
  pin_netmap_generation : Z;
  pin_settings : string;
  pin_created_at : Z;
  pin_deleted_at : option Z
}.
Record RoleRow : Type := mkRoleRow {
  pr_role : PinRole;
  pr_granted_by : option string;
  pr_granted_at : Z
}.
Record MemberRow : Type := mkMemberRow {
  pm_node_pubkey : string;
  pm_wg_pubkey : string;
  pm_display_name : option string;
  pm_status : MemberStatus;
  pm_serves_models : bool;
  pm_allow_remote_models : bool;
  pm_offers_exit : bool;
  pm_endpoints : string;
  pm_loaded_models : string;
  pm_requested_at : Z;
  pm_approved_by : option string;
  pm_joined_at : option Z;
  pm_last_seen : option Z;
  pm_removed_at : option Z;
  pm_removed_by : option string
}.
Record PolicyRow : Type := mkPolicyRow {
  pp_desired_state : string;
  pp_set_by : string;
  pp_set_at : Z;
  pp_applied_state : option string;
  pp_applied_at : option Z;
  pp_last_error : option string
}.
Record UsageCounts : Type := mkUsageCounts {
  uc_requests : Z;
  uc_tokens_in : Z;
  uc_tokens_out : Z
}.
(** Day, provider, consumer and model. *)
Definition UsageKey : Type := string * string * string * string.

Record PinDb : Type := mkPinDb {
  p_db : Db;
  pins : gmap string PinRow;
  pin_roles : gmap (string * string) RoleRow;
  pin_members : gmap (string * string) MemberRow;
  pin_model_policy : gmap (string * string * string) PolicyRow;
  pin_usage : gmap (string * UsageKey) UsageCounts;
  pin_usage_batches : gmap (string * string * string) Z
}.

Definition set_pins (x : gmap string PinRow) (db : PinDb) : PinDb :=
  mkPinDb (p_db db) x (pin_roles db) (pin_members db) (pin_model_policy db) (pin_usage db) (pin_usage_batches db).
Definition set_roles (x : gmap (string * string) RoleRow) (db : PinDb) : PinDb :=
  mkPinDb (p_db db) (pins db) x (pin_members db) (pin_model_policy db) (pin_usage db) (pin_usage_batches db).
Definition set_members (x : gmap (string * string) MemberRow) (db : PinDb) : PinDb :=
  mkPinDb (p_db db) (pins db) (pin_roles db) x (pin_model_policy db) (pin_usage db) (pin_usage_batches db).
Definition set_policy (x : gmap (string * string * string) PolicyRow) (db : PinDb) : PinDb :=
  mkPinDb (p_db db) (pins db) (pin_roles db) (pin_members db) x (pin_usage db) (pin_usage_batches db).
Definition set_usage (x : gmap (string * UsageKey) UsageCounts) (db : PinDb) : PinDb :=
  mkPinDb (p_db db) (pins db) (pin_roles db) (pin_members db) (pin_model_policy db) x (pin_usage_batches db).
Definition set_batches (x : gmap (string * string * string) Z) (db : PinDb) : PinDb :=
  mkPinDb (p_db db) (pins db) (pin_roles db) (pin_members db) (pin_model_policy db) (pin_usage db) x.

(** [UPDATE pins SET .. WHERE pin_id = ?] and the same for a member. *)
Definition update_pin (f : PinRow -> PinRow) (pin_id : string) (db : PinDb) : PinDb :=
  set_pins (alter f pin_id (pins db)) db.
Definition update_member_row (f : MemberRow -> MemberRow) (pin_id device_id : string) (db : PinDb) : PinDb :=
  set_members (alter f (pin_id, device_id) (pin_members db)) db.

Definition pin_set_generation (x : Z) (p : PinRow) : PinRow :=
  mkPinRow (pin_name p) (pin_join_code p) (pin_join_code_generation p) (pin_owner_account_user_id p) x
    (pin_settings p) (pin_created_at p) (pin_deleted_at p).
Definition pin_set_code (code : string) (gen : Z) (p : PinRow) : PinRow :=
  mkPinRow (pin_name p) code gen (pin_owner_account_user_id p) (pin_netmap_generation p)
    (pin_settings p) (pin_created_at p) (pin_deleted_at p).
Definition pin_set_settings (x : string) (p : PinRow) : PinRow :=
  mkPinRow (pin_name p) (pin_join_code p) (pin_join_code_generation p) (pin_owner_account_user_id p)
    (pin_netmap_generation p) x (pin_created_at p) (pin_deleted_at p).
Definition pin_set_deleted (x : option Z) (p : PinRow) : PinRow :=
  mkPinRow (pin_name p) (pin_join_code p) (pin_join_code_generation p) (pin_owner_account_user_id p)
    (pin_netmap_generation p) (pin_settings p) (pin_created_at p) x.
Definition is_live (p : PinRow) : bool := bool_decide (pin_deleted_at p = None).

(** [UPDATE pins SET netmap_generation = netmap_generation + 1 WHERE pin_id = ?]. *)
Definition bump_generation (pin_id : string) (db : PinDb) : PinDb :=
  update_pin (fun p => pin_set_generation (pin_netmap_generation p + 1) p) pin_id db.

(** ** Join codes *)

Definition JOIN_CODE_ALPHABET : list ascii := bytes "ABCDEFGHJKMNPQRSTVWXYZ23456789".
Definition ROLE_ADMIN : string := "admin".
Definition ROLE_MODELRATOR : string := "modelrator".

(** [rng k] is the number drawn for the [k]-th character. *)
Definition code_char (rng : nat -> nat) (k : nat) : ascii :=
  default "A"%char (JOIN_CODE_ALPHABET !! (rng k `mod` length JOIN_CODE_ALPHABET)%nat).
Definition generate_join_code (rng : nat -> nat) : string :=
  of_bytes ((code_char rng <$> seq 0 4) ++ ["-"%char] ++ (code_char rng <$> seq 4 4) ++ ["-"%char] ++
            (code_char rng <$> seq 8 2)).

(** A code as its characters (Unicode scalar values).  [up as u8] keeps the
    low byte. *)
Definition chars (s : string) : list Z := (fun c => Z.of_nat (code c)) <$> bytes s.
Definition char_upper (c : Z) : Z := if (97 <=? c) && (c <=? 122) then c - 32 else c.
Definition in_alphabet (b : Z) : bool := existsb (fun a => Z.of_nat (code a) =? b) JOIN_CODE_ALPHABET.
Definition normalize_join_code (code : list Z) : list Z :=
  omap (fun c => let up := char_upper c in if in_alphabet (up mod 256) then Some up else None) code.

Section Pins.
Context `{PinJson}.

(** ** Networks *)

Record Pin : Type := mkPin {
  p_pin_id : string;
  p_name : string;
  p_join_code : string;
  p_join_code_generation : Z;
  p_owner_account_user_id : string;
  p_netmap_generation : Z;
  p_settings : PinSettings;
  p_created_at : Z
}.
Definition row_to_pin (pin_id : string) (p : PinRow) : Pin :=
  mkPin pin_id (pin_name p) (pin_join_code p) (pin_join_code_generation p) (pin_owner_account_user_id p)
    (pin_netmap_generation p) (default default_pin_settings (parse_settings (pin_settings p))) (pin_created_at p).

Definition live_pin (pin_id : string) (db : PinDb) : option PinRow :=
  p ← pins db !! pin_id; if is_live p then Some p else None.
Definition get_pin (pin_id : string) (db : PinDb) : option Pin := row_to_pin pin_id <$> live_pin pin_id db.

(** [pin_id] is the fresh UUID. *)
Definition create_pin (now : Z) (pin_id : string) (rng : nat -> nat) (name owner_account : string) (db : PinDb)
    : result anyhow (Pin * PinDb) :=
  let name := trim name in
  guard? negb (is_empty name) else (Bail "network name is required") in
  guard? negb (has pin_id (pins db)) else (Sql UniqueViolation) in
  guard? has owner_account (account_wallets (p_db db)) else (Sql ForeignKeyViolation) in
  let db := set_pins (<[pin_id := mkPinRow name (generate_join_code rng) 1 owner_account 1
                                   (show_settings default_pin_settings) now None]> (pins db)) db in
  guard? negb (has (pin_id, owner_account) (pin_roles db)) else (Sql UniqueViolation) in
  let db := set_roles (<[(pin_id, owner_account) := mkRoleRow Admin (Some owner_account) now]> (pin_roles db)) db in
  let? pin := ok_or (Bail "pin vanished after create") (get_pin pin_id db) in
  Ok (pin, db).

Definition find_by_join_code (code : list Z) (db : PinDb) : option Pin :=
  let normalized := normalize_join_code code in
  match normalized with
  | [] => None
  | _ => List.find (fun p => bool_decide (normalize_join_code (chars (p_join_code p)) = normalized))
           ((fun '(pin_id, p) => row_to_pin pin_id p) <$>
              List.filter (fun kp => is_live kp.2) (map_to_list (pins db)))
  end.

(** ** Members *)

Definition submit_join (now : Z) (pin_id device_id node_pubkey : string) (display_name : option string) (db : PinDb)
    : result anyhow PinDb :=
  match pin_members db !! (pin_id, device_id) with
  | None =>
      guard? has pin_id (pins db) else (Sql ForeignKeyViolation) in
      Ok (set_members (<[(pin_id, device_id) :=
            mkMemberRow node_pubkey "" display_name Pending true true false "[]" "[]" now None None None None None]>
            (pin_members db)) db)
  | Some m =>
      match pm_status m with
      | Pending | Removed =>
          Ok (update_member_row (fun m =>
            mkMemberRow node_pubkey (pm_wg_pubkey m)
              (match display_name with Some n => Some n | None => pm_display_name m end) Pending
              (pm_serves_models m) (pm_allow_remote_models m) (pm_offers_exit m) (pm_endpoints m)
              (pm_loaded_models m) now None None (pm_last_seen m) None None) pin_id device_id db)
      | Active | Disabled => Ok db
      end
  end.

Definition role_of (pin_id account : string) (db : PinDb) : option PinRole :=
  if bool_decide (pin_owner_account_user_id <$> live_pin pin_id db = Some account) then Some Admin
  else pr_role <$> pin_roles db !! (pin_id, account).

Definition require_admin (pin_id account : string) (db : PinDb) : result anyhow unit :=
  match role_of pin_id account db with
  | Some Admin => Ok tt
  | _ => Err (Bail ("account " ++ account ++ " is not an admin of this network"))
  end.

Definition pm_set_status (status : MemberStatus) (approved_by : option string) (joined_at removed_at : option Z)
    (removed_by : option string) (m : MemberRow) : MemberRow :=
  mkMemberRow (pm_node_pubkey m) (pm_wg_pubkey m) (pm_display_name m) status (pm_serves_models m)
    (pm_allow_remote_models m) (pm_offers_exit m) (pm_endpoints m) (pm_loaded_models m) (pm_requested_at m)
    approved_by joined_at (pm_last_seen m) removed_at removed_by.

(** [UPDATE pin_members SET .. WHERE .. AND status IN (..)], which has to
    change a row, and the bump that follows it. *)
Definition change_status (pin_id device_id : string) (from : list MemberStatus) (f : MemberRow -> MemberRow)
    (msg : string) (db : PinDb) : result anyhow PinDb :=
  match pin_members db !! (pin_id, device_id) with
  | Some m =>
      guard? bool_decide (pm_status m ∈ from) else (Bail msg) in
      Ok (bump_generation pin_id (update_member_row f pin_id device_id db))
  | None => Err (Bail msg)
  end.

Definition approve_member (now : Z) (pin_id device_id approver_account : string) (db : PinDb)
    : result anyhow PinDb :=
  let? _ := require_admin pin_id approver_account db in
  change_status pin_id device_id [Pending]
    (fun m => pm_set_status Active (Some approver_account) (Some now) (pm_removed_at m) (pm_removed_by m) m)
    "no pending join request for this device" db.

Definition deny_member (pin_id device_id : string) (db : PinDb) : result anyhow PinDb :=
  match pin_members db !! (pin_id, device_id) with
  | Some m =>
      guard? bool_decide (pm_status m = Pending) else (Bail "no pending join request for this device") in
      Ok (set_members (delete (pin_id, device_id) (pin_members db)) db)
  | None => Err (Bail "no pending join request for this device")
  end.

Definition remove_member (now : Z) (pin_id device_id remover : string) (db : PinDb) : result anyhow PinDb :=
  change_status pin_id device_id [Active; Disabled]
    (fun m => pm_set_status Removed (pm_approved_by m) (pm_joined_at m) (Some now) (Some remover) m)
    "device is not a member of this network" db.

Definition set_member_disabled (pin_id device_id : string) (disabled : bool) (db : PinDb)
    : result anyhow PinDb :=
  let '(from, to, name) := if disabled then (Active, Disabled, "active") else (Disabled, Active, "disabled") in
  change_status pin_id device_id [from]
    (fun m => pm_set_status to (pm_approved_by m) (pm_joined_at m) (pm_removed_at m) (pm_removed_by m) m)
    ("device is not " ++ name ++ " in this network") db.

Definition pm_set_flags (name : option string) (serves allow exit : bool) (m : MemberRow) : MemberRow :=
  mkMemberRow (pm_node_pubkey m) (pm_wg_pubkey m) name (pm_status m) serves allow exit (pm_endpoints m)
    (pm_loaded_models m) (pm_requested_at m) (pm_approved_by m) (pm_joined_at m) (pm_last_seen m)
    (pm_removed_at m) (pm_removed_by m).

Definition update_member (pin_id device_id : string) (display_name : option string) (serves_models : option bool)
    (db : PinDb) : result anyhow PinDb :=
  let? db :=
    match display_name with
    | Some name =>
        guard? has (pin_id, device_id) (pin_members db) else (Bail "device is not a member of this network") in
        Ok (update_member_row (fun m =>
              pm_set_flags (Some name) (pm_serves_models m) (pm_allow_remote_models m) (pm_offers_exit m) m)
              pin_id device_id db)
    | None => Ok db
    end in
  match serves_models with
  | Some serves =>
      match pin_members db !! (pin_id, device_id) with
      | Some m =>
          if Bool.eqb (pm_serves_models m) serves then Ok db
          else Ok (bump_generation pin_id (update_member_row (fun m =>
                     pm_set_flags (pm_display_name m) serves (pm_allow_remote_models m) (pm_offers_exit m) m)
                     pin_id device_id db))
      | None => Ok db
      end
  | None => Ok db
  end.

(** ** Codes and roles *)

Definition rotate_join_code (rng : nat -> nat) (pin_id : string) (db : PinDb) : result anyhow (string * PinDb) :=
  let code := generate_join_code rng in
  match live_pin pin_id db with
  | Some _ => Ok (code, update_pin (fun p => pin_set_code code (pin_join_code_generation p + 1) p) pin_id db)
  | None => Err (Bail "unknown network")
  end.

Definition role_parse (role : string) : option PinRole :=
  if bool_decide (role = ROLE_ADMIN) then Some Admin
  else if bool_decide (role = ROLE_MODELRATOR) then Some Modelrator
  else None.
Definition grant_role (now : Z) (pin_id account role granted_by : string) (db : PinDb) : result anyhow PinDb :=
  let? r := ok_or (Bail ("unknown role " ++ role)) (role_parse role) in
  guard? has pin_id (pins db) else (Sql ForeignKeyViolation) in
  Ok (set_roles (<[(pin_id, account) := mkRoleRow r (Some granted_by) now]> (pin_roles db)) db).

Definition is_admin_of (pin_id : string) (kr : (string * string) * RoleRow) : bool :=
  bool_decide (kr.1.1 = pin_id) && bool_decide (pr_role kr.2 = Admin).
Definition admin_count (pin_id : string) (db : PinDb) : nat :=
  length (List.filter (is_admin_of pin_id) (map_to_list (pin_roles db))).

Definition revoke_role (pin_id account : string) (db : PinDb) : result anyhow PinDb :=
  let owner := pin_owner_account_user_id <$> pins db !! pin_id in
  guard? bool_decide (owner <> None) else (Bail "unknown network") in
  guard? bool_decide (owner <> Some account)
    else (Bail "cannot revoke the owner's role; transfer ownership first") in
  guard? negb (bool_decide (pr_role <$> pin_roles db !! (pin_id, account) = Some Admin) &&
               negb (Nat.ltb 1 (admin_count pin_id db))) else (Bail "cannot remove the last admin") in
  Ok (set_roles (delete (pin_id, account) (pin_roles db)) db).

Definition delete_pin (now : Z) (pin_id : string) (db : PinDb) : result anyhow PinDb :=
  match live_pin pin_id db with
  | Some _ => Ok (update_pin (pin_set_deleted (Some now)) pin_id db)
  | None => Err (Bail "unknown network")
  end.

Definition set_settings (pin_id : string) (settings : PinSettings) (db : PinDb) : result anyhow PinDb :=
  match live_pin pin_id db with
  | Some _ => Ok (update_pin (pin_set_settings (show_settings settings)) pin_id db)
  | None => Err (Bail "unknown network")
  end.

(** ** Views *)

Record PinSummary : Type := mkPinSummary {
  ps_pin_id : string;
  ps_name : string;
  ps_role : PinRole;
  ps_active_count : Z;
  ps_pending_count : Z;
  ps_netmap_generation : Z;
  ps_created_at : Z
}.
Record PinMembershipSummary : Type := mkPinMembershipSummary {
  pms_pin_id : string;
  pms_name : string;
  pms_status : MemberStatus
}.
Record PinMember : Type := mkPinMember {
  mb_pin_id : string;
  mb_device_id : string;
  mb_node_pubkey : string;
  mb_wg_pubkey : string;
  mb_display_name : option string;
  mb_status : MemberStatus;
  mb_serves_models : bool;
  mb_allow_remote_models : bool;
  mb_offers_exit : bool;
  mb_endpoints : string;
  mb_loaded_models : string;
  mb_requested_at : Z;
  mb_approved_by : option string;
  mb_joined_at : option Z;
  mb_last_seen : option Z
}.

(** [ORDER BY]: ties keep the order of the keys. *)
Definition by_key {A} (key : A -> Z) (a b : A) : Prop := key a <= key b.
#[export] Instance by_key_dec {A} (key : A -> Z) a b : Decision (by_key key a b).
Proof. unfold by_key. apply _. Defined.

Definition rows_of (pin_id : string) (db : PinDb) : list (string * MemberRow) :=
  (fun kr : (string * string) * MemberRow => (kr.1.2, kr.2)) <$>
    List.filter (fun kr => bool_decide (kr.1.1 = pin_id)) (map_to_list (pin_members db)).
Definition count_members (pin_id : string) (st : list MemberStatus) (db : PinDb) : Z :=
  Z.of_nat (length (List.filter (fun dm => bool_decide (pm_status dm.2 ∈ st)) (rows_of pin_id db))).

Definition pins_for_account (account : string) (db : PinDb) : list PinSummary :=
  merge_sort (by_key ps_created_at)
    (omap (fun '(pin_id, p) =>
       if is_live p then
         (fun r => mkPinSummary pin_id (pin_name p) (pr_role r) (count_members pin_id [Active; Disabled] db)
                     (count_members pin_id [Pending] db) (pin_netmap_generation p) (pin_created_at p)) <$>
           pin_roles db !! (pin_id, account)
       else None) (map_to_list (pins db))).

Definition pins_for_device (device_id : string) (db : PinDb) : list PinMembershipSummary :=
  snd <$> merge_sort (by_key fst)
    (omap (fun '(pin_id, p) =>
       if is_live p then
         m ← pin_members db !! (pin_id, device_id);
         if bool_decide (pm_status m = Removed) then None
         else Some (pin_created_at p, mkPinMembershipSummary pin_id (pin_name p) (pm_status m))
       else None) (map_to_list (pins db))).

Definition member_of_row (pin_id : string) (dm : string * MemberRow) : PinMember :=
  let '(d, m) := dm in
  mkPinMember pin_id d (pm_node_pubkey m) (pm_wg_pubkey m) (pm_display_name m) (pm_status m) (pm_serves_models m)
    (pm_allow_remote_models m) (pm_offers_exit m) (pm_endpoints m) (pm_loaded_models m) (pm_requested_at m)
    (pm_approved_by m) (pm_joined_at m) (pm_last_seen m).
Definition members (pin_id : string) (db : PinDb) : list PinMember :=
  merge_sort (by_key mb_requested_at)
    (member_of_row pin_id <$>
       List.filter (fun dm => bool_decide (pm_status dm.2 <> Removed)) (rows_of pin_id db)).

Definition member_status (pin_id device_id : string) (db : PinDb) : option MemberStatus :=
  pm_status <$> pin_members db !! (pin_id, device_id).

(** ** What devices report *)

Definition pm_set_report (wg endpoints models : string) (last_seen : option Z) (m : MemberRow) : MemberRow :=
  mkMemberRow (pm_node_pubkey m) wg (pm_display_name m) (pm_status m) (pm_serves_models m)
    (pm_allow_remote_models m) (pm_offers_exit m) endpoints models (pm_requested_at m) (pm_approved_by m)
    (pm_joined_at m) last_seen (pm_removed_at m) (pm_removed_by m).

Definition touch_member_last_seen (now : Z) (pin_id device_id : string) (db : PinDb) : PinDb :=
  update_member_row (fun m => pm_set_report (pm_wg_pubkey m) (pm_endpoints m) (pm_loaded_models m) (Some now) m)
    pin_id device_id db.

Definition set_member_offers_exit (pin_id device_id : string) (offers_exit : bool) (db : PinDb) : PinDb :=
  match pin_members db !! (pin_id, device_id) with
  | Some m =>
      if Bool.eqb (pm_offers_exit m) offers_exit then db
      else bump_generation pin_id (update_member_row (fun m =>
             pm_set_flags (pm_display_name m) (pm_serves_models m) (pm_allow_remote_models m) offers_exit m)
             pin_id device_id db)
  | None => db
  end.

Definition update_member_endpoints (now : Z) (pin_id device_id endpoints_json loaded_models_json wg_pubkey : string)
    (db : PinDb) : result anyhow PinDb :=
  guard? json_valid endpoints_json else (Bail "expected value") in
  guard? json_valid loaded_models_json else (Bail "expected value") in
  Ok (update_member_row (pm_set_report wg_pubkey endpoints_json loaded_models_json (Some now)) pin_id device_id db).

Definition set_allow_remote_models (pin_id device_id : string) (allow : bool) (db : PinDb) : PinDb :=
  update_member_row (fun m =>
    pm_set_flags (pm_display_name m) (pm_serves_models m) allow (pm_offers_exit m) m) pin_id device_id db.

(** ** The netmap *)

Record PinNetmapMember : Type := mkPinNetmapMember {
  nm_device_id : string;
  nm_node_pubkey : string;
  nm_wg_pubkey : string;
  nm_display_name : option string;
  nm_serves_models : bool;
  nm_offers_exit : bool;
  nm_disabled : bool;
  nm_endpoints : list PinEndpoint;
  nm_loaded_models : list string;
  nm_last_seen : option Z
}.
Record PinNetmap : Type := mkPinNetmap {
  n_pin_id : string;
  n_name : string;
  n_generation : Z;
  n_issued_at : Z;
  n_members : list PinNetmapMember
}.

(** [live] looks up the models a connected device reports. *)
Definition netmap_member (live : string -> option (list string)) (m : PinMember) : PinNetmapMember :=
  let disabled := bool_decide (mb_status m = Disabled) in
  mkPinNetmapMember (mb_device_id m) (mb_node_pubkey m) (mb_wg_pubkey m) (mb_display_name m) (mb_serves_models m)
    (mb_offers_exit m) disabled
    (if disabled then [] else default [] (parse_endpoints (mb_endpoints m)))
    (match live (mb_node_pubkey m) with
     | Some models => models
     | None => default [] (parse_strings (mb_loaded_models m))
     end) (mb_last_seen m).
Definition listed (m : PinMember) : bool := bool_decide (mb_status m = Active \/ mb_status m = Disabled).
Definition build_netmap (now : Z) (pin_id : string) (live : string -> option (list string)) (db : PinDb)
    : result anyhow PinNetmap :=
  let? pin := ok_or (Bail "unknown network") (get_pin pin_id db) in
  Ok (mkPinNetmap (p_pin_id pin) (p_name pin) (p_netmap_generation pin) now
        (netmap_member live <$> List.filter listed (members pin_id db))).

Definition bump_netmap_generation (pin_id : string) (db : PinDb) : result anyhow (Z * PinDb) :=
  let db := bump_generation pin_id db in
  let? p := ok_or (Sql QueryReturnedNoRows) (pins db !! pin_id) in
  Ok (pin_netmap_generation p, db).
Definition netmap_generation (pin_id : string) (db : PinDb) : result anyhow Z :=
  let? p := ok_or (Sql QueryReturnedNoRows) (pins db !! pin_id) in Ok (pin_netmap_generation p).

(** ** Model policy *)

Record ModelPolicyEntry : Type := mkModelPolicyEntry {
  mp_device_id : string;
  mp_model_id : string;
  mp_desired_state : string;
  mp_applied_state : option string;
  mp_last_error : option string;
  mp_set_at : Z;
  mp_applied_at : option Z
}.

Definition desired_state_ok (state : string) : bool :=
  bool_decide (state = "loaded") || bool_decide (state = "downloaded") || bool_decide (state = "none").

Definition insert_policy (now : Z) (pin_id device_id set_by : string) (ms : string * string) (db : PinDb)
    : result anyhow PinDb :=
  let '(model_id, state) := ms in
  guard? negb (has (pin_id, device_id, model_id) (pin_model_policy db)) else (Sql UniqueViolation) in
  guard? has pin_id (pins db) else (Sql ForeignKeyViolation) in
  Ok (set_policy (<[(pin_id, device_id, model_id) := mkPolicyRow state set_by now None None None]>
                    (pin_model_policy db)) db).
Definition set_model_policy (now : Z) (pin_id device_id : string) (models : list (string * string)) (set_by : string)
    (db : PinDb) : result anyhow PinDb :=
  let? _ := fold_res (fun '(_, state) _ =>
    guard? desired_state_ok state else (Bail ("invalid desired state " ++ state)) in Ok tt) models tt in
  let cleared := filter (fun kv => (kv.1.1.1, kv.1.1.2) <> (pin_id, device_id)) (pin_model_policy db) in
  fold_res (insert_policy now pin_id device_id set_by) models (set_policy cleared db).

Definition policy_entry (kv : (string * string * string) * PolicyRow) : ModelPolicyEntry :=
  let '((_, device_id, model_id), r) := kv in
  mkModelPolicyEntry device_id model_id (pp_desired_state r) (pp_applied_state r) (pp_last_error r) (pp_set_at r)
    (pp_applied_at r).
Definition policy_before (a b : ModelPolicyEntry) : Prop :=
  if String.eqb (mp_device_id a) (mp_device_id b) then String.leb (mp_model_id a) (mp_model_id b) = true
  else String.leb (mp_device_id a) (mp_device_id b) = true.
#[export] Instance policy_before_dec a b : Decision (policy_before a b).
Proof. unfold policy_before. destruct (String.eqb _ _); apply _. Defined.
Definition model_policy (pin_id : string) (device_id : option string) (db : PinDb) : list ModelPolicyEntry :=
  let wanted := fun kv : (string * string * string) * PolicyRow =>
    bool_decide (kv.1.1.1 = pin_id) &&
    match device_id with Some d => bool_decide (kv.1.1.2 = d) | None => true end in
  merge_sort policy_before (policy_entry <$> List.filter wanted (map_to_list (pin_model_policy db))).

Definition report_model_policy_status (now : Z) (pin_id device_id : string)
    (statuses : list (string * string * option string)) (db : PinDb) : PinDb :=
  foldl (fun db '(model_id, applied, error) =>
    set_policy (alter (fun r => mkPolicyRow (pp_desired_state r) (pp_set_by r) (pp_set_at r) (Some applied)
                                  (Some now) error) (pin_id, device_id, model_id) (pin_model_policy db)) db)
    db statuses.

(** ** Usage *)

Record UsageEntry : Type := mkUsageEntry {
  ue_day : string;
  ue_consumer_device_id : string;
  ue_model_id : string;
  ue_requests : Z;
  ue_tokens_in : Z;
  ue_tokens_out : Z
}.
Record UsageRow : Type := mkUsageRow {
  ur_day : string;
  ur_provider_device_id : string;
  ur_consumer_device_id : string;
  ur_model_id : string;
  ur_requests : Z;
  ur_tokens_in : Z;
  ur_tokens_out : Z
}.

Definition usage_key (provider : string) (e : UsageEntry) : UsageKey :=
  (ue_day e, provider, ue_consumer_device_id e, ue_model_id e).
Definition add_counts (a b : UsageCounts) : UsageCounts :=
  mkUsageCounts (uc_requests a + uc_requests b) (uc_tokens_in a + uc_tokens_in b)
    (uc_tokens_out a + uc_tokens_out b).
Definition no_counts : UsageCounts := mkUsageCounts 0 0 0.
Definition counts_of (e : UsageEntry) : UsageCounts :=
  mkUsageCounts (ue_requests e) (ue_tokens_in e) (ue_tokens_out e).
Definition counts_ok (e : UsageEntry) : bool :=
  (0 <=? ue_requests e) && (0 <=? ue_tokens_in e) && (0 <=? ue_tokens_out e).

(** The upsert of one entry. *)
Definition add_usage (pin_id provider : string) (e : UsageEntry) (db : PinDb) : result anyhow PinDb :=
  guard? counts_ok e else (Bail "usage counts must be non-negative") in
  let key := (pin_id, usage_key provider e) in
  Ok (set_usage (<[key := add_counts (default no_counts (pin_usage db !! key)) (counts_of e)]> (pin_usage db)) db).
Definition record_usage_batch (now : Z) (pin_id provider_device_id batch_id : string) (entries : list UsageEntry)
    (db : PinDb) : result anyhow (bool * PinDb) :=
  let key := (pin_id, provider_device_id, batch_id) in
  if has key (pin_usage_batches db) then Ok (false, db)
  else
    guard? has pin_id (pins db) else (Sql ForeignKeyViolation) in
    let db := set_batches (<[key := now]> (pin_usage_batches db)) db in
    let? db := fold_res (add_usage pin_id provider_device_id) entries db in
    Ok (true, db).

Definition usage_row (kv : (string * UsageKey) * UsageCounts) : UsageRow :=
  let '((_, (day, provider, consumer, model)), c) := kv in
  mkUsageRow day provider consumer model (uc_requests c) (uc_tokens_in c) (uc_tokens_out c).
Definition usage_sort_key (r : UsageRow) : list string :=
  [ur_day r; ur_provider_device_id r; ur_consumer_device_id r; ur_model_id r].
Fixpoint lex_leb (a b : list string) : bool :=
  match a, b with
  | x :: a, y :: b => if String.eqb x y then lex_leb a b else String.leb x y
  | [], _ => true
  | _ :: _, [] => false
  end.
Definition usage_before (a b : UsageRow) : Prop := lex_leb (usage_sort_key a) (usage_sort_key b) = true.
#[export] Instance usage_before_dec a b : Decision (usage_before a b).
Proof. unfold usage_before. apply _. Defined.
Definition usage_rows (pin_id : string) (from to consumer_filter : option string) (db : PinDb) : list UsageRow :=
  let wanted r :=
    match from with Some d => String.leb d (ur_day r) | None => true end &&
    match to with Some d => String.leb (ur_day r) d | None => true end &&
    match consumer_filter with Some c => bool_decide (ur_consumer_device_id r = c) | None => true end in
  merge_sort usage_before
    (List.filter wanted
       (usage_row <$> List.filter (fun kv => bool_decide (kv.1.1 = pin_id)) (map_to_list (pin_usage db)))).
End Pins.
