(* ===== verification/PinsFacts.v ===== *)
(** * Networks over time

    The operations of [Pins] as steps of a machine, and what holds along every
    run: the generation of a netmap stands for its membership, only an admin
    lets a device in, a usage batch counts once, and the ledger database is
    never written. *)

From S2P Require Import Prelude Db RustStr Fixtures Pins.
From stdpp Require Import sorting.

Open Scope string_scope.
Open Scope list_scope.
Open Scope Z_scope.

Inductive PinOp : Type :=
| PCreate (pin_id : string) (rng : nat -> nat) (name owner : string)
| PJoin (pin_id device_id pubkey : string) (name : option string)
| PApprove (pin_id device_id account : string)
| PDeny (pin_id device_id : string)
| PRemove (pin_id device_id remover : string)
| PDisable (pin_id device_id : string) (disabled : bool)
| PUpdate (pin_id device_id : string) (name : option string) (serves : option bool)
| PRotate (rng : nat -> nat) (pin_id : string)
| PGrant (pin_id account role by_ : string)
| PRevoke (pin_id account : string)
| PTouch (pin_id device_id : string)
| PExit (pin_id device_id : string) (offers : bool)
| PEndpoints (pin_id device_id endpoints models wg : string)
| PAllow (pin_id device_id : string) (allow : bool)
| PPolicy (pin_id device_id : string) (models : list (string * string)) (set_by : string)
| PReport (pin_id device_id : string) (statuses : list (string * string * option string))
| PUsage (pin_id provider batch : string) (entries : list UsageEntry)
| PSettings (pin_id : string) (settings : PinSettings)
| PDelete (pin_id : string)
| PBump (pin_id : string).

(** A failed operation rolls back. *)
Definition settle_unit (r : result anyhow PinDb) (db : PinDb) : PinDb :=
  match r with Ok db' => db' | Err _ => db end.
Definition settle_with {A} (r : result anyhow (A * PinDb)) (db : PinDb) : PinDb :=
  match r with Ok (_, db') => db' | Err _ => db end.

Create HintDb pins.

Section Machine.
Context `{PinJson}.

Definition apply_pin_op (now : Z) (op : PinOp) (db : PinDb) : PinDb :=
  match op with
  | PCreate p rng name owner => settle_with (create_pin now p rng name owner db) db
  | PJoin p d key name => settle_unit (submit_join now p d key name db) db
  | PApprove p d a => settle_unit (approve_member now p d a db) db
  | PDeny p d => settle_unit (deny_member p d db) db
  | PRemove p d by_ => settle_unit (remove_member now p d by_ db) db
  | PDisable p d b => settle_unit (set_member_disabled p d b db) db
  | PUpdate p d name serves => settle_unit (update_member p d name serves db) db
  | PRotate rng p => settle_with (rotate_join_code rng p db) db
  | PGrant p a role by_ => settle_unit (grant_role now p a role by_ db) db
  | PRevoke p a => settle_unit (revoke_role p a db) db
  | PTouch p d => touch_member_last_seen now p d db
  | PExit p d b => set_member_offers_exit p d b db
  | PEndpoints p d e m wg => settle_unit (update_member_endpoints now p d e m wg db) db
  | PAllow p d b => set_allow_remote_models p d b db
  | PPolicy p d models by_ => settle_unit (set_model_policy now p d models by_ db) db
  | PReport p d st => report_model_policy_status now p d st db
  | PUsage p d b es => settle_with (record_usage_batch now p d b es db) db
  | PSettings p s => settle_unit (set_settings p s db) db
  | PDelete p => settle_unit (delete_pin now p db) db
  | PBump p => settle_with (bump_netmap_generation p db) db
  end.

Definition pin_run (ops : list (Z * PinOp)) (db : PinDb) : PinDb :=
  foldl (fun db '(now, op) => apply_pin_op now op db) db ops.

(** ** Membership and its version *)

Definition generation (p : string) (db : PinDb) : option Z := pin_netmap_generation <$> pins db !! p.

(** What peers authenticate with: key, serving, exit, disabled. *)
Definition roster_of (m : MemberRow) : option (string * bool * bool * bool) :=
  match pm_status m with
  | Active => Some (pm_node_pubkey m, pm_serves_models m, pm_offers_exit m, false)
  | Disabled => Some (pm_node_pubkey m, pm_serves_models m, pm_offers_exit m, true)
  | Pending | Removed => None
  end.
Definition roster (p d : string) (db : PinDb) : option (string * bool * bool * bool) :=
  pin_members db !! (p, d) ≫= roster_of.

(** Every member row belongs to a network. *)
Definition members_owned (db : PinDb) : Prop :=
  forall p d, is_Some (pin_members db !! (p, d)) -> is_Some (pins db !! p).

(** How a network may move in one step. *)
Definition versioned (p : string) (db db' : PinDb) : Prop :=
  forall g, generation p db = Some g -> exists g', generation p db' = Some g' /\
    (g < g' \/ g = g' /\ forall d, roster p d db' = roster p d db).

Lemma versioned_refl p db : versioned p db db.
Proof. intros g Hg. exists g. auto. Qed.

Lemma versioned_trans p a b c : versioned p a b -> versioned p b c -> versioned p a c.
Proof.
  intros Hab Hbc g Hg. destruct (Hab g Hg) as (g1 & Hg1 & H1). destruct (Hbc g1 Hg1) as (g2 & Hg2 & H2).
  exists g2. split; [done|]. destruct H1 as [?|[-> H1]], H2 as [?|[-> H2]]; [left; lia..|].
  right. split; [done|]. intros d. by rewrite H2, H1.
Qed.

Lemma update_member_lookup f p d db k :
  pin_members (update_member_row f p d db) !! k =
  if decide (k = (p, d)) then f <$> pin_members db !! k else pin_members db !! k.
Proof. simpl. case_decide; [subst; by rewrite lookup_alter_eq|by rewrite lookup_alter_ne]. Qed.

Lemma update_pin_lookup f p db q :
  pins (update_pin f p db) !! q = if decide (q = p) then f <$> pins db !! q else pins db !! q.
Proof. simpl. case_decide; [subst; by rewrite lookup_alter_eq|by rewrite lookup_alter_ne]. Qed.

(** A change of member rows that peers do not see needs no new version. *)
Lemma versioned_same p db db' :
  generation p db' = generation p db -> (forall d, roster p d db' = roster p d db) -> versioned p db db'.
Proof. intros Hg Hr g. rewrite <- Hg. intros E. exists g. auto. Qed.

Lemma versioned_silent p f q d db :
  (forall m, roster_of (f m) = roster_of m) -> versioned p db (update_member_row f q d db).
Proof.
  intros Hf. apply versioned_same; [done|]. intros d'. unfold roster. rewrite update_member_lookup.
  case_decide; [|done]. destruct (pin_members db !! (p, d')); simpl; auto.
Qed.

(** A change of the network row other than its version. *)
Lemma versioned_pin p f q db :
  (forall r, pin_netmap_generation (f r) = pin_netmap_generation r) -> versioned p db (update_pin f q db).
Proof.
  intros Hf. apply versioned_same; [|done]. unfold generation. rewrite update_pin_lookup.
  case_decide; [|done]. destruct (pins db !! p); simpl; [by rewrite Hf|done].
Qed.

(** Changing members of [q] and bumping [q]. *)
Lemma versioned_bump p q f d db : versioned p db (bump_generation q (update_member_row f q d db)).
Proof.
  unfold bump_generation, versioned, generation. rewrite update_pin_lookup. simpl.
  intros g Hg. case_decide as E.
  - subst q. destruct (pins db !! p) as [r|]; [|done]. simplify_eq/=. eexists. split; [done|]. left. lia.
  - exists g. split; [done|]. right. split; [done|]. intros d'. unfold roster. simpl.
    rewrite lookup_alter_ne by congruence. done.
Qed.

Lemma members_owned_update f p d db : members_owned db -> members_owned (update_member_row f p d db).
Proof.
  intros Ho q e. rewrite update_member_lookup. intros Hs. apply (Ho q e).
  case_decide; [|done]. by apply fmap_is_Some in Hs.
Qed.

Lemma members_owned_pins f p db : members_owned db -> members_owned (update_pin f p db).
Proof.
  intros Ho q e Hs. rewrite update_pin_lookup. apply Ho in Hs. case_decide; [|done]. by apply fmap_is_Some.
Qed.

Lemma members_owned_bump f p d db :
  members_owned db -> members_owned (bump_generation p (update_member_row f p d db)).
Proof. intros. by apply members_owned_pins, members_owned_update. Qed.

(** Who may be listed after a step: who was, and who an admin approves. *)
Definition admits (op : PinOp) (db db' : PinDb) : Prop :=
  forall p d, is_Some (roster p d db') ->
    is_Some (roster p d db) \/ exists a, op = PApprove p d a /\ role_of p a db = Some Admin.

Record step_ok (op : PinOp) (db db' : PinDb) : Prop := {
  step_owned : members_owned db';
  step_versioned : forall p, versioned p db db';
  step_admits : admits op db db';
  step_ledger : p_db db' = p_db db
}.

Lemma step_ok_refl op db : members_owned db -> step_ok op db db.
Proof. intros Ho. split; [done|intros; apply versioned_refl|intros p d ?; by left|done]. Qed.

(** Steps that leave networks and members alone. *)
Lemma step_ok_same op db db' :
  pins db' = pins db -> pin_members db' = pin_members db -> p_db db' = p_db db -> members_owned db ->
  step_ok op db db'.
Proof.
  intros E1 E2 E3 Ho. split; [| | |done].
  - intros p d. rewrite E1, E2. apply Ho.
  - intros p. apply versioned_same; [unfold generation; by rewrite E1|].
    intros d. unfold roster. by rewrite E2.
  - intros p d. unfold roster. rewrite E2. by left.
Qed.

(** Steps that change one member row without listing anybody new. *)
Lemma roster_update f p d db q e :
  (forall m, is_Some (roster_of (f m)) -> is_Some (roster_of m)) ->
  is_Some (roster q e (update_member_row f p d db)) -> is_Some (roster q e db).
Proof.
  intros Hf. unfold roster. rewrite update_member_lookup. case_decide; [|done].
  destruct (pin_members db !! (q, e)) as [m|]; simpl; [apply Hf|done].
Qed.

Lemma step_ok_silent op f p d db :
  (forall m, roster_of (f m) = roster_of m) -> members_owned db -> step_ok op db (update_member_row f p d db).
Proof.
  intros Hf Ho. split; [by apply members_owned_update|intros; by apply versioned_silent| |done].
  intros q e Hs. left. apply roster_update in Hs; [done|]. intros m. by rewrite Hf.
Qed.

Lemma step_ok_bump op f p d db :
  (forall m, is_Some (roster_of (f m)) -> is_Some (roster_of m)) -> members_owned db ->
  step_ok op db (bump_generation p (update_member_row f p d db)).
Proof.
  intros Hf Ho. split; [by apply members_owned_bump|intros; apply versioned_bump| |done].
  intros q e Hs. left. by apply roster_update in Hs.
Qed.

Lemma step_ok_pin op f p db :
  (forall r, pin_netmap_generation (f r) = pin_netmap_generation r) -> members_owned db ->
  step_ok op db (update_pin f p db).
Proof.
  intros Hf Ho. split; [by apply members_owned_pins|intros; by apply versioned_pin| |done].
  intros q e Hs. by left.
Qed.

Lemma change_status_ok op p d from f msg db :
  (forall m, pm_status m ∈ from -> is_Some (roster_of (f m)) -> is_Some (roster_of m)) -> members_owned db ->
  step_ok op db (settle_unit (change_status p d from f msg db) db).
Proof.
  intros Hf Ho. unfold change_status. destruct (pin_members db !! (p, d)) as [m|] eqn:E; [|by apply step_ok_refl].
  destruct (bool_decide _) eqn:Hb; [|by apply step_ok_refl]. apply bool_decide_eq_true in Hb. simpl.
  split; [by apply members_owned_bump|intros; apply versioned_bump| |done].
  intros q e Hs. left. revert Hs. unfold roster. simpl. destruct (decide ((q, e) = (p, d))) as [[= -> ->]|].
  - rewrite lookup_alter_eq, E. simpl. by apply Hf.
  - by rewrite lookup_alter_ne.
Qed.

(** ** The operations *)

Lemma create_ok now p rng name owner db :
  members_owned db -> step_ok (PCreate p rng name owner) db (apply_pin_op now (PCreate p rng name owner) db).
Proof.
  intros Ho. simpl. unfold create_pin. destruct (negb (is_empty _)); [|by apply step_ok_refl].
  unfold has at 1. destruct (pins db !! p) as [r|] eqn:E; [by apply step_ok_refl|]. simpl.
  destruct (has owner _); [|by apply step_ok_refl]. destruct (negb _); [|by apply step_ok_refl].
  destruct (ok_or _ _); [|by apply step_ok_refl]. simpl. split; simpl; [| |by left|done].
  - intros q e Hs%Ho. simpl. destruct (decide (q = p)) as [->|]; [by rewrite lookup_insert_eq|].
    by rewrite lookup_insert_ne.
  - intros q g. unfold generation. simpl. destruct (decide (q = p)) as [->|]; [by rewrite E|].
    rewrite lookup_insert_ne by done. intros Hg. exists g. auto.
Qed.

Lemma join_ok now p d key name db :
  members_owned db -> step_ok (PJoin p d key name) db (apply_pin_op now (PJoin p d key name) db).
Proof.
  intros Ho. simpl. unfold submit_join. destruct (pin_members db !! (p, d)) as [m|] eqn:E.
  - assert (forall g, (forall x, roster_of (g x) = None) -> roster_of m = None ->
      step_ok (PJoin p d key name) db (update_member_row g p d db)) as Hk.
    { intros g Hg Hm. split; [by apply members_owned_update| | |done].
      - intros q. apply versioned_same; [done|]. intros e. unfold roster. rewrite update_member_lookup.
        case_decide as K; [|done]. rewrite K, E. simpl. by rewrite Hg, Hm.
      - intros q e Hs. left. eapply roster_update; [|exact Hs]. intros x. rewrite Hg. by intros []. }
    destruct (pm_status m) eqn:Es; simpl; try (by apply step_ok_refl);
      (apply Hk; [done|unfold roster_of; by rewrite Es]).
  - unfold has. destruct (pins db !! p) as [r|] eqn:Ep; [|by apply step_ok_refl]. simpl.
    assert (forall q e, roster q e (set_members (<[(p, d) := mkMemberRow key "" name Pending true true false
      "[]" "[]" now None None None None None]> (pin_members db)) db) = roster q e db) as Hr.
    { intros q e. unfold roster. simpl. destruct (decide ((q, e) = (p, d))) as [K|].
      - by rewrite K, lookup_insert_eq, E.
      - by rewrite lookup_insert_ne. }
    split; [| | |done].
    + intros q e. simpl. destruct (decide ((q, e) = (p, d))) as [[= -> ->]|]; [intros _; by exists r|].
      rewrite lookup_insert_ne by done. apply Ho.
    + intros q. by apply versioned_same.
    + intros q e. rewrite Hr. by left.
Qed.

Lemma approve_ok now p d a db :
  members_owned db -> step_ok (PApprove p d a) db (apply_pin_op now (PApprove p d a) db).
Proof.
  intros Ho. simpl. unfold approve_member, require_admin.
  destruct (role_of p a db) as [[]|] eqn:Hr; try (by apply step_ok_refl). simpl.
  unfold change_status. destruct (pin_members db !! (p, d)) as [m|]; [|by apply step_ok_refl].
  destruct (bool_decide _); [|by apply step_ok_refl]. simpl.
  split; [by apply members_owned_bump|intros; apply versioned_bump| |done].
  intros q e Hs. destruct (decide ((q, e) = (p, d))) as [[= -> ->]|]; [right; by exists a|].
  left. revert Hs. unfold roster. simpl. by rewrite lookup_alter_ne.
Qed.

Lemma deny_ok p d db : members_owned db -> step_ok (PDeny p d) db (settle_unit (deny_member p d db) db).
Proof.
  intros Ho. unfold deny_member. destruct (pin_members db !! (p, d)) as [m|] eqn:E; [|by apply step_ok_refl].
  destruct (bool_decide _) eqn:Es; [|by apply step_ok_refl]. apply bool_decide_eq_true in Es. simpl.
  assert (forall q e, roster q e (set_members (delete (p, d) (pin_members db)) db) = roster q e db) as Hr.
  { intros q e. unfold roster. simpl. destruct (decide ((q, e) = (p, d))) as [K|].
    - rewrite K, lookup_delete_eq, E. simpl. unfold roster_of. by rewrite Es.
    - by rewrite lookup_delete_ne. }
  split; [| | |done].
  - intros q e. simpl. intros [x [_ Hx]%lookup_delete_Some]. by eapply Ho.
  - intros q. by apply versioned_same.
  - intros q e. rewrite Hr. by left.
Qed.

Lemma rename_silent name m :
  roster_of (pm_set_flags name (pm_serves_models m) (pm_allow_remote_models m) (pm_offers_exit m) m) = roster_of m.
Proof. done. Qed.

Lemma step_ok_trans op db1 db2 db3 :
  step_ok op db1 db2 -> (members_owned db2 -> step_ok op db2 db3) ->
  (forall p a, role_of p a db2 = role_of p a db1) -> step_ok op db1 db3.
Proof.
  intros [O1 V1 A1 L1] H2 Hr. destruct (H2 O1) as [O2 V2 A2 L2]. split; [done| | |congruence].
  - intros p. by eapply versioned_trans.
  - intros p d Hs. apply A2 in Hs as [Hs|(a & ? & Ha)]; [by apply A1|]. right. exists a. by rewrite <- Hr.
Qed.

Lemma flags_listed name serves allow exit m :
  is_Some (roster_of (pm_set_flags name serves allow exit m)) -> is_Some (roster_of m).
Proof. unfold roster_of. simpl. destruct (pm_status m); eauto. Qed.

Lemma update_ok p d name serves db :
  members_owned db -> step_ok (PUpdate p d name serves) db (settle_unit (update_member p d name serves db) db).
Proof.
  intros Ho. unfold update_member.
  assert (forall db0, members_owned db0 -> step_ok (PUpdate p d name serves) db0
    (settle_unit match serves with
     | Some b =>
         match pin_members db0 !! (p, d) with
         | Some m => if Bool.eqb (pm_serves_models m) b then Ok db0
                     else Ok (bump_generation p (update_member_row (fun m =>
                       pm_set_flags (pm_display_name m) b (pm_allow_remote_models m) (pm_offers_exit m) m) p d db0))
         | None => Ok db0
         end
     | None => Ok db0
     end db0)) as Hs.
  { intros db0 H0. destruct serves as [b|]; [|by apply step_ok_refl].
    destruct (pin_members db0 !! (p, d)) as [m|]; [|by apply step_ok_refl].
    destruct (Bool.eqb _ _); [by apply step_ok_refl|]. apply step_ok_bump; [|done]. intros x. apply flags_listed. }
  destruct name as [nm|]; [|by apply Hs]. destruct (has _ _); [|by apply step_ok_refl]. cbn [settle_unit].
  set (db1 := update_member_row _ p d db).
  match goal with |- step_ok _ _ (settle_unit ?r _) => assert (settle_unit r db = settle_unit r db1) as -> end.
  { destruct serves; [|done]. destruct (pin_members db1 !! (p, d)); [|done]. by destruct (Bool.eqb _ _). }
  apply (step_ok_trans _ db db1); [by apply step_ok_silent|apply Hs|done].
Qed.

(** ** Tables next to the members *)

Lemma policy_same now p d models by_ db db' :
  set_model_policy now p d models by_ db = Ok db' ->
  pins db' = pins db /\ pin_members db' = pin_members db /\ p_db db' = p_db db.
Proof.
  unfold set_model_policy. destruct (fold_res _ models tt); [|done].
  intros E. refine (fold_res_ind _ (fun x => pins x = pins db /\ pin_members x = pin_members db /\ p_db x = p_db db)
    _ _ _ _ E _); [|done].
  intros [m st] x x' _. unfold insert_policy. destruct (negb _); [|done]. destruct (has _ _); [|done].
  by intros [= <-].
Qed.

Lemma report_same now p d sts db :
  let db' := report_model_policy_status now p d sts db in
  pins db' = pins db /\ pin_members db' = pin_members db /\ p_db db' = p_db db.
Proof.
  unfold report_model_policy_status. revert db. induction sts as [|[[m a] e] sts IH]; intros db; [done|]. simpl.
  destruct (IH (set_policy (alter (fun r => mkPolicyRow (pp_desired_state r) (pp_set_by r) (pp_set_at r) (Some a)
    (Some now) e) (p, d, m) (pin_model_policy db)) db)) as (-> & -> & ->). done.
Qed.

Lemma usage_same now p d b es db x db' :
  record_usage_batch now p d b es db = Ok (x, db') ->
  pins db' = pins db /\ pin_members db' = pin_members db /\ p_db db' = p_db db.
Proof.
  unfold record_usage_batch. destruct (has _ (pin_usage_batches db)); [by intros [= _ <-]|].
  destruct (has _ _); [|done]. destruct (fold_res _ es _) as [db2|] eqn:E; [|done]. intros [= _ <-].
  refine (fold_res_ind _ (fun x => pins x = pins db /\ pin_members x = pin_members db /\ p_db x = p_db db)
    _ _ _ _ E _); [|done].
  intros e y y' _. unfold add_usage. destruct (counts_ok e); [|done]. by intros [= <-].
Qed.

Lemma apply_pin_op_ok now op db : members_owned db -> step_ok op db (apply_pin_op now op db).
Proof.
  intros Ho. destruct op; simpl.
  - by apply (create_ok now).
  - by apply (join_ok now).
  - by apply (approve_ok now).
  - by apply deny_ok.
  - apply change_status_ok; [|done]. intros m _. by intros [].
  - unfold set_member_disabled. destruct disabled; (apply change_status_ok; [|done]);
      intros m Hs%list_elem_of_singleton _; unfold roster_of; by rewrite Hs.
  - by apply update_ok.
  - unfold rotate_join_code. destruct (live_pin _ _); [by apply step_ok_pin|by apply step_ok_refl].
  - unfold grant_role. destruct (ok_or _ _); [|by apply step_ok_refl].
    destruct (has _ _); [by apply step_ok_same|by apply step_ok_refl].
  - unfold revoke_role. repeat (case_match; try by apply step_ok_refl). by apply step_ok_same.
  - by apply step_ok_silent.
  - unfold set_member_offers_exit. destruct (pin_members db !! _) as [m|]; [|by apply step_ok_refl].
    destruct (Bool.eqb _ _); [by apply step_ok_refl|]. apply step_ok_bump; [|done]. intros x. apply flags_listed.
  - unfold update_member_endpoints. destruct (json_valid _); [|by apply step_ok_refl].
    destruct (json_valid _); [by apply step_ok_silent|by apply step_ok_refl].
  - by apply step_ok_silent.
  - destruct (set_model_policy _ _ _ _ _ _) as [db'|] eqn:E; [|by apply step_ok_refl].
    apply policy_same in E as (? & ? & ?). by apply step_ok_same.
  - destruct (report_same now pin_id device_id statuses db) as (? & ? & ?). by apply step_ok_same.
  - destruct (record_usage_batch _ _ _ _ _ _) as [[x db']|] eqn:E; [|by apply step_ok_refl].
    apply usage_same in E as (? & ? & ?). by apply step_ok_same.
  - unfold set_settings. destruct (live_pin _ _); [by apply step_ok_pin|by apply step_ok_refl].
  - unfold delete_pin. destruct (live_pin _ _); [by apply step_ok_pin|by apply step_ok_refl].
  - unfold bump_netmap_generation. destruct (ok_or _ _); [|by apply step_ok_refl]. simpl.
    split; [by apply members_owned_pins| |by left|done].
    intros p g. unfold generation, bump_generation. rewrite update_pin_lookup.
    case_decide; [|intros Hg; exists g; auto]. destruct (pins db !! p) as [r|]; [|done].
    intros [= <-]. eexists. split; [done|]. left. simpl. lia.
Qed.

Lemma pin_run_versioned ops db :
  members_owned db -> members_owned (pin_run ops db) /\ (forall p, versioned p db (pin_run ops db)) /\
    p_db (pin_run ops db) = p_db db.
Proof.
  revert db. induction ops as [|[now op] ops IH]; intros db Ho; [split_and!; [done|intros; apply versioned_refl|done]|].
  simpl. destruct (apply_pin_op_ok now op db Ho) as [O V _ L]. destruct (IH _ O) as (O' & V' & L').
  split_and!; [done|intros p; by eapply versioned_trans|congruence].
Qed.

(** Somebody listed at the end and not at the start was approved on the way. *)
Lemma pin_run_admits ops db p d :
  members_owned db -> roster p d db = None -> is_Some (roster p d (pin_run ops db)) ->
  exists pre post now a, ops = pre ++ (now, PApprove p d a) :: post /\
    role_of p a (pin_run pre db) = Some Admin.
Proof.
  intros Ho Hn. induction ops as [|[now op] ops IH] using rev_ind; [simpl; rewrite Hn; by intros []|].
  unfold pin_run. rewrite foldl_app. fold (pin_run ops db). simpl. intros Hs.
  destruct (pin_run_versioned ops db Ho) as (O & _). destruct (apply_pin_op_ok now op _ O) as [_ _ A _].
  apply A in Hs as [Hs|(a & -> & Ha)].
  - destruct (IH Hs) as (pre & post & t & a & -> & Ha). exists pre, (post ++ [(now, op)]), t, a.
    split; [by rewrite <- app_assoc|done].
  - exists ops, [], now, a. done.
Qed.

(** ** The netmap shows the roster *)

Definition shows (n : PinNetmap) (d : string) (e : string * bool * bool * bool) : Prop :=
  exists m, m ∈ n_members n /\ nm_device_id m = d /\
    (nm_node_pubkey m, nm_serves_models m, nm_offers_exit m, nm_disabled m) = e.

Lemma rows_of_elem p db d r : (d, r) ∈ rows_of p db <-> pin_members db !! (p, d) = Some r.
Proof.
  unfold rows_of. rewrite list_elem_of_fmap. setoid_rewrite list_elem_of_In. setoid_rewrite filter_In.
  setoid_rewrite <- list_elem_of_In. split.
  - intros ([[q e] x] & [= -> ->] & Hin & Hq%bool_decide_eq_true). simpl in Hq. subst.
    by apply elem_of_map_to_list in Hin.
  - intros Hr. exists ((p, d), r). split; [done|]. split; [by apply elem_of_map_to_list|by apply bool_decide_eq_true].
Qed.

Lemma members_elem p db m :
  m ∈ members p db <->
  exists d r, pin_members db !! (p, d) = Some r /\ pm_status r <> Removed /\ m = member_of_row p (d, r).
Proof.
  unfold members. rewrite merge_sort_Permutation, list_elem_of_fmap. setoid_rewrite list_elem_of_In.
  setoid_rewrite filter_In. setoid_rewrite <- list_elem_of_In. split.
  - intros ([d r] & -> & Hin & Hs%bool_decide_eq_true). exists d, r. by rewrite <- rows_of_elem.
  - intros (d & r & Hr & Hs & ->). exists (d, r). split; [done|].
    split; [by apply rows_of_elem|by apply bool_decide_eq_true].
Qed.

Lemma build_netmap_shows now p live db n :
  build_netmap now p live db = Ok n ->
  generation p db = Some (n_generation n) /\ forall d e, shows n d e <-> roster p d db = Some e.
Proof.
  unfold build_netmap, get_pin, live_pin, generation, shows. destruct (pins db !! p) as [r|]; [|done]. simpl.
  destruct (is_live r); [|done]. intros [= <-]. split; [done|]. intros d e. simpl.
  setoid_rewrite list_elem_of_fmap. setoid_rewrite list_elem_of_In. setoid_rewrite filter_In.
  setoid_rewrite <- list_elem_of_In. unfold roster. split.
  - intros (m & (x & -> & Hx & Hl%bool_decide_eq_true) & <- & <-).
    apply members_elem in Hx as (d & row & Hrow & _ & ->). simpl in *. rewrite Hrow. simpl.
    unfold roster_of. by destruct Hl as [-> | ->].
  - destruct (pin_members db !! (p, d)) as [row|] eqn:Hrow; [|done]. simpl. intros He.
    assert (pm_status row = Active \/ pm_status row = Disabled) as Hs
      by (unfold roster_of in He; destruct (pm_status row); auto; done).
    exists (netmap_member live (member_of_row p (d, row))). split_and!; [|done|].
    + exists (member_of_row p (d, row)). split_and!; [done| |by apply bool_decide_eq_true].
      apply members_elem. exists d, row. split_and!; [done| |done]. by destruct Hs as [-> | ->].
    + unfold roster_of in He. simpl. by destruct Hs as [E|E]; rewrite E in *; simplify_eq/=.
Qed.

Definition pin_genesis (x : Db) : PinDb := mkPinDb x ∅ ∅ ∅ ∅ ∅ ∅.

Lemma genesis_owned x : members_owned (pin_genesis x).
Proof. intros p d. simpl. rewrite lookup_empty. by intros []. Qed.

(** ** Batches are never forgotten *)

Lemma batches_kept now op db k :
  has k (pin_usage_batches db) = true -> has k (pin_usage_batches (apply_pin_op now op db)) = true.
Proof.
  intros Hk. destruct op; simpl; try done;
    unfold settle_with, settle_unit, create_pin, submit_join, approve_member, deny_member, remove_member,
      set_member_disabled, update_member, rotate_join_code, grant_role, revoke_role, set_member_offers_exit,
      update_member_endpoints, set_settings, delete_pin, bump_netmap_generation, change_status;
    try (repeat case_match; simplify_eq/=; done).
  - destruct (set_model_policy _ _ _ _ _ _) as [db'|] eqn:E; [|done]. revert E. unfold set_model_policy.
    destruct (fold_res _ models tt); [|done]. intros E.
    refine (fold_res_ind _ (fun x => has k (pin_usage_batches x) = true) _ _ _ _ E _); [|done].
    intros [m st] x x' _. unfold insert_policy. destruct (negb _); [|done]. destruct (has pin_id _); [|done].
    by intros [= <-].
  - unfold report_model_policy_status. revert db Hk. induction statuses as [|[[m a] e] sts IH]; intros db Hk; [done|].
    simpl. by apply IH.
  - unfold record_usage_batch. destruct (has (pin_id, provider, batch) _) eqn:Eb; [done|].
    destruct (has pin_id _); [|done]. destruct (fold_res _ entries _) as [db2|] eqn:E; [|done].
    refine (fold_res_ind _ (fun x => has k (pin_usage_batches x) = true) _ _ _ _ E _).
    + intros e y y' _. unfold add_usage. destruct (counts_ok e); [|done]. by intros [= <-].
    + simpl. unfold has in *. destruct (decide (k = (pin_id, provider, batch))) as [->|].
      * by rewrite lookup_insert_eq.
      * by rewrite lookup_insert_ne.
Qed.

Lemma pin_run_batches ops db k :
  has k (pin_usage_batches db) = true -> has k (pin_usage_batches (pin_run ops db)) = true.
Proof.
  revert db. induction ops as [|[now op] ops IH]; intros db Hk; [done|]. simpl. by apply IH, batches_kept.
Qed.

(** ** What a batch adds *)

Definition usage_of (p : string) (key : UsageKey) (db : PinDb) : UsageCounts :=
  default no_counts (pin_usage db !! (p, key)).
Definition batch_counts (provider : string) (key : UsageKey) (entries : list UsageEntry) : UsageCounts :=
  foldr (fun e acc => if decide (usage_key provider e = key) then add_counts (counts_of e) acc else acc)
    no_counts entries.

Lemma add_counts_assoc a b c : add_counts (add_counts a b) c = add_counts a (add_counts b c).
Proof. unfold add_counts. simpl. f_equal; lia. Qed.
Lemma add_counts_none a : add_counts a no_counts = a.
Proof. destruct a. unfold add_counts. simpl. f_equal; lia. Qed.

Lemma add_usage_all p provider entries db :
  match fold_res (add_usage p provider) entries db with
  | Ok db' => forallb counts_ok entries = true /\ pin_usage_batches db' = pin_usage_batches db /\
      forall q key, usage_of q key db' =
        if decide (q = p) then add_counts (usage_of q key db) (batch_counts provider key entries)
        else usage_of q key db
  | Err _ => forallb counts_ok entries = false
  end.
Proof.
  revert db. induction entries as [|e es IH]; intros db; simpl.
  { split_and!; [done|done|]. intros q key. case_decide; [by rewrite add_counts_none|done]. }
  unfold add_usage at 1. destruct (counts_ok e); [|done]. simpl. set (db1 := set_usage _ db).
  specialize (IH db1). destruct (fold_res _ es db1) as [db'|]; [|done]. destruct IH as (H1 & H2 & H3).
  split_and!; [done|done|]. intros q key. rewrite H3.
  assert (usage_of q key db1 = if decide ((q, key) = (p, usage_key provider e))
    then add_counts (usage_of q key db) (counts_of e) else usage_of q key db) as E1.
  { unfold usage_of. simpl. case_decide as K; [rewrite K, lookup_insert_eq; by simplify_eq|].
    by rewrite lookup_insert_ne. }
  rewrite E1. destruct (decide (q = p)) as [->|].
  - destruct (decide (usage_key provider e = key)) as [<-|].
    + rewrite decide_True by done. apply add_counts_assoc.
    + rewrite decide_False by congruence. done.
  - by rewrite decide_False by congruence.
Qed.

(** ** Theorems *)

(** Along every run of network operations, the generation a netmap is
    published with stands for its membership: it never decreases, and two
    netmaps of a network with the same generation list the same devices with
    the same keys, serving, exit and disabled flags, whatever happened in
    between. *)
Theorem netmap_generation_versions_membership (x : Db) (ops ops' : list (Z * PinOp)) (p : string)
    (now now' : Z) (live live' : string -> option (list string)) (n n' : PinNetmap)
    (Hn : build_netmap now p live (pin_run ops (pin_genesis x)) = Ok n)
    (Hn' : build_netmap now' p live' (pin_run ops' (pin_run ops (pin_genesis x))) = Ok n') :
  n_generation n <= n_generation n' /\
  (n_generation n = n_generation n' -> forall d e, shows n d e <-> shows n' d e).
Proof.
  destruct (pin_run_versioned ops _ (genesis_owned x)) as (Ho & _).
  destruct (pin_run_versioned ops' _ Ho) as (_ & Hv & _).
  apply build_netmap_shows in Hn as [Hg Hs]. apply build_netmap_shows in Hn' as [Hg' Hs'].
  destruct (Hv p _ Hg) as (g' & Eg & Hcase). assert (g' = n_generation n') as -> by congruence.
  destruct Hcase as [?|[Eq Hr]]; split; [lia|lia|lia|]. intros _ d e. by rewrite Hs, Hs', Hr.
Qed.

(** A device that a network lists and did not list at an earlier point was
    approved in between by an account that was an admin at that moment; and no
    network operation writes the ledger database. *)
Theorem membership_needs_admin (x : Db) (ops ops' : list (Z * PinOp)) (p d : string)
    (Hbefore : roster p d (pin_run ops (pin_genesis x)) = None)
    (Hafter : is_Some (roster p d (pin_run ops' (pin_run ops (pin_genesis x))))) :
  (exists pre post now a, ops' = pre ++ (now, PApprove p d a) :: post /\
     role_of p a (pin_run pre (pin_run ops (pin_genesis x))) = Some Admin) /\
  p_db (pin_run ops' (pin_run ops (pin_genesis x))) = x.
Proof.
  destruct (pin_run_versioned ops _ (genesis_owned x)) as (Ho & _ & Hx).
  destruct (pin_run_versioned ops' _ Ho) as (_ & _ & Hx'). split; [by apply pin_run_admits|].
  by rewrite Hx', Hx.
Qed.

(** A usage batch with a new id for a known network is applied whole or not
    at all: it succeeds exactly when no count is negative, adds to every key
    the sum of its entries and changes no other count; after that the same
    batch id is a duplicate for ever, whatever runs in between and whatever it
    carries. *)
Theorem usage_batch_counts_once (now : Z) (p provider batch : string) (entries : list UsageEntry) (db : PinDb)
    (Hnew : has (p, provider, batch) (pin_usage_batches db) = false) (Hpin : has p (pins db) = true) :
  match record_usage_batch now p provider batch entries db with
  | Ok (applied, db') => applied = true /\ forallb counts_ok entries = true /\
      (forall q key, usage_of q key db' =
         if decide (q = p) then add_counts (usage_of q key db) (batch_counts provider key entries)
         else usage_of q key db) /\
      forall ops later entries', record_usage_batch later p provider batch entries' (pin_run ops db') =
        Ok (false, pin_run ops db')
  | Err _ => forallb counts_ok entries = false
  end.
Proof.
  unfold record_usage_batch at 1. rewrite Hnew, Hpin. set (db0 := set_batches _ db).
  pose proof (add_usage_all p provider entries db0) as Ha.
  destruct (fold_res (add_usage p provider) entries db0) as [db'|]; [|done].
  destruct Ha as (Hok & Hb & Hu). split_and!; [done|done|done|].
  intros ops later entries'. unfold record_usage_batch. rewrite pin_run_batches; [done|].
  rewrite Hb. subst db0. simpl. unfold has. by rewrite lookup_insert_eq.
Qed.

(** Only the low byte of a character is looked up in the alphabet: U+0141 stays
    in a normalized code. *)
Theorem wide_character_survives : normalize_join_code [321] = [321].
Proof. vm_compute. reflexivity. Qed.

(** A network that was deleted keeps its roles: its admins still let devices
    in. *)
Theorem deleted_network_still_approves now db p d a :
  pin_roles db !! (p, a) = Some (mkRoleRow Admin (Some a) now) -> live_pin p db = None ->
  member_status p d db = Some Pending ->
  exists db', approve_member now p d a db = Ok db' /\ member_status p d db' = Some Active.
Proof.
  intros Hr Hl Hs. unfold approve_member, require_admin, role_of. rewrite Hl, bool_decide_eq_false_2, Hr by done.
  simpl.  unfold change_status. unfold member_status in Hs. destruct (pin_members db !! (p, d)) as [m|] eqn:E; [|done].
  simpl in Hs. injection Hs as Hs. rewrite bool_decide_eq_true_2 by (rewrite Hs; by left).
  eexists. split; [done|]. unfold member_status. simpl. by rewrite lookup_alter_eq, E.
Qed.
End Machine.

(** ** A concrete network *)

Definition toy_json : PinJson := {|
  json_valid := fun _ => true;
  show_settings := fun s => priority_policy s;
  parse_settings := fun _ => None;
  show_endpoints := fun _ => "[]";
  parse_endpoints := fun _ => Some [];
  show_strings := fun _ => "[]";
  parse_strings := fun _ => Some []
|}.
#[local] Existing Instance toy_json.

Definition toy_founding : list (Z * PinOp) :=
  [(10, PCreate "net" (fun k => k) " Home " ann);
   (11, PJoin "net" "laptop" "key1" None);
   (12, PApprove "net" "laptop" ann)].
Definition toy_growth : list (Z * PinOp) :=
  [(20, PEndpoints "net" "laptop" "[]" "[]" "wg");
   (21, PJoin "net" "phone" "key2" (Some "Phone"));
   (22, PApprove "net" "phone" ann)].
#[local] Abbreviation toy_pins := (pin_run toy_founding (pin_genesis demo)).

Lemma netmap_generation_versions_membership_witness :
  exists n n', build_netmap 15 "net" (fun _ => None) toy_pins = Ok n /\
    build_netmap 25 "net" (fun _ => None) (pin_run toy_growth toy_pins) = Ok n' /\
    n_generation n = 2 /\ n_generation n' = 3 /\ n_generation n <= n_generation n'.
Proof.
  destruct (build_netmap 15 "net" (fun _ => None) toy_pins) as [n|] eqn:E; [|vm_compute in E; discriminate].
  destruct (build_netmap 25 "net" (fun _ => None) (pin_run toy_growth toy_pins)) as [n'|] eqn:E';
    [|vm_compute in E'; discriminate].
  exists n, n'.
  pose proof (netmap_generation_versions_membership demo toy_founding toy_growth "net" 15 25 (fun _ => None)
    (fun _ => None) n n' E E') as [Hle _].
  split; [done|]. split; [done|].
  split; [vm_compute in E; injection E as <-; reflexivity|].
  split; [vm_compute in E'; injection E' as <-; reflexivity|]. exact Hle.
Defined.

Lemma membership_needs_admin_witness :
  exists pre post now a, toy_growth = pre ++ (now, PApprove "net" "phone" a) :: post /\
    role_of "net" a (pin_run pre toy_pins) = Some Admin.
Proof.
  assert (roster "net" "phone" toy_pins = None) as H1 by (vm_compute; reflexivity).
  assert (is_Some (roster "net" "phone" (pin_run toy_growth toy_pins))) as H2
    by (eexists; vm_compute; reflexivity).
  exact (proj1 (membership_needs_admin demo toy_founding toy_growth "net" "phone" H1 H2)).
Defined.

Lemma usage_batch_counts_once_witness :
  exists db', record_usage_batch 30 "net" "laptop" "b1" [mkUsageEntry "2026-01-01" "phone" "qwen3-8b" 1 10 20] toy_pins =
      Ok (true, db') /\
    usage_of "net" ("2026-01-01", "laptop", "phone", "qwen3-8b") db' = mkUsageCounts 1 10 20 /\
    record_usage_batch 31 "net" "laptop" "b1" [] db' = Ok (false, db').
Proof.
  set (es := [mkUsageEntry "2026-01-01" "phone" "qwen3-8b" 1 10 20]).
  assert (has ("net", "laptop", "b1") (pin_usage_batches toy_pins) = false) as H1 by (vm_compute; reflexivity).
  assert (has "net" (pins toy_pins) = true) as H2 by (vm_compute; reflexivity).
  pose proof (usage_batch_counts_once 30 "net" "laptop" "b1" es toy_pins H1 H2) as H3.
  destruct (record_usage_batch 30 "net" "laptop" "b1" es toy_pins) as [[b db']|] eqn:E.
  - destruct H3 as (-> & _ & Hu & Hd). exists db'. split; [done|]. split.
    + rewrite Hu. vm_compute. reflexivity.
    + exact (Hd [] 31 []).
  - vm_compute in E. discriminate.
Defined.
