(* ===== verification/Auth.v ===== *)
(** * Errors, principals and rate limits

    What every request passes before a handler sees it: the errors of
    [gateway/src/error.rs], the bearer-token middleware of [auth.rs] and the
    rate limiters of [state.rs].  A header that is not visible ASCII counts as
    absent, as [to_str().ok()] has it.  The two hash functions are parameters,
    as in [ApiKeys] and [Sessions]. *)

From S2P Require Import Prelude Db RustStr Wallet ShareKeys ApiKeys Sessions.
From Stdlib Require Import Ascii.

Open Scope string_scope.
Open Scope list_scope.
Open Scope Z_scope.

(** ** Errors *)

Inductive GatewayError : Type :=
| Unauthorized (msg : string)
| BadRequest (msg : string)
| NotFound (msg : string)
| Forbidden (msg : string)
| Conflict (msg : string)
| BudgetExhausted
| RateLimited (msg : string)
| InsufficientCredits (balance required : Z)
| ModelNotFound (model : string)
| NoEligibleDevice (model : string)
| HeavyContention (model : string)
| PromptExceedsContext (model : string) (estimated ceiling : Z)
| Upstream (msg : string)
| AllUpstreamsFailed (msg : string)
| UpstreamTimeout
| AtCapacity (model : string)
| RelayUnavailable (msg : string)
| Other (e : anyhow).

(** [GatewayError::status], as a number. *)
Definition status (e : GatewayError) : Z :=
  match e with
  | Unauthorized _ => 401
  | BadRequest _ => 400
  | NotFound _ => 404
  | Forbidden _ => 403
  | Conflict _ => 409
  | BudgetExhausted => 402
  | RateLimited _ => 429
  | InsufficientCredits _ _ => 402
  | ModelNotFound _ => 404
  | NoEligibleDevice _ => 503
  | HeavyContention _ => 503
  | AtCapacity _ => 429
  | PromptExceedsContext _ _ _ => 400
  | Upstream _ => 502
  | AllUpstreamsFailed _ => 502
  | UpstreamTimeout => 504
  | RelayUnavailable _ => 503
  | Other _ => 500
  end.

Definition error_code (e : GatewayError) : string :=
  match e with
  | Unauthorized _ => "unauthorized"
  | BadRequest _ => "invalid_request"
  | NotFound _ => "not_found"
  | Forbidden _ => "forbidden"
  | Conflict _ => "conflict"
  | BudgetExhausted => "budget_exhausted"
  | RateLimited _ => "rate_limited"
  | InsufficientCredits _ _ => "insufficient_credits"
  | ModelNotFound _ => "model_not_found"
  | NoEligibleDevice _ => "model_unavailable"
  | HeavyContention _ => "heavy_contention"
  | AtCapacity _ => "at_capacity"
  | PromptExceedsContext _ _ _ => "prompt_exceeds_context"
  | Upstream _ => "upstream_error"
  | AllUpstreamsFailed _ => "upstream_failed"
  | UpstreamTimeout => "timeout"
  | RelayUnavailable _ => "relay_unavailable"
  | Other _ => "internal_error"
  end.

(** ** Principals *)

Inductive PrincipalKind : Type :=
| PStatic (scope : string)
| PDevice (device_id : string)
| PShare (issuer_device_id key_id : string) (budget_remaining : Z)
| PApiKey (key_id account_user_id : string) (role : ApiKeyRole) (credit_limit : option Z) (usage_credits : Z)
| PAccountSession (account_user_id session_id : string).
Definition AuthPrincipal : Type := PrincipalKind.

Definition device_id (p : AuthPrincipal) : option string :=
  match p with PDevice d => Some d | _ => None end.
Definition share_key (p : AuthPrincipal) : option (string * string) :=
  match p with PShare d k _ => Some (d, k) | _ => None end.
Definition account_session (p : AuthPrincipal) : option (string * string) :=
  match p with PAccountSession a s => Some (a, s) | _ => None end.
Definition api_key (p : AuthPrincipal) : option (string * string * ApiKeyRole) :=
  match p with PApiKey k a r _ _ => Some (k, a, r) | _ => None end.

(** ** Static tokens *)

Definition TokenTable : Type := gmap string string.

(** [raw.split(',')]. *)
Fixpoint split_on (c : ascii) (l cur : list ascii) : list string :=
  match l with
  | [] => [of_bytes (rev cur)]
  | b :: l => if Ascii.eqb b c then of_bytes (rev cur) :: split_on c l [] else split_on c l (b :: cur)
  end.
(** [entry.split_once(':')]. *)
Fixpoint split_once (c : ascii) (l acc : list ascii) : option (string * string) :=
  match l with
  | [] => None
  | b :: l => if Ascii.eqb b c then Some (of_bytes (rev acc), of_bytes l) else split_once c l (b :: acc)
  end.

(** [TokenTable::from_env] on the value of the variable. *)
Definition from_env (raw : string) : TokenTable :=
  foldl (fun m entry =>
    match split_once ":"%char (bytes entry) [] with
    | Some (tok, scope) => <[trim tok := trim scope]> m
    | None => <[entry := "default"]> m
    end) ∅ (List.filter (fun s => negb (is_empty s)) (trim <$> split_on ","%char (bytes raw) [])).

Definition lookup_static (token : string) (t : TokenTable) : option string := t !! token.

(** [token_from_headers] on the two header values. *)
Definition token_from_headers (authorization x_api_key : option string) : string :=
  let header_val := default "" authorization in
  let bearer_token := trim (default "" (strip_prefix "Bearer " header_val)) in
  if negb (is_empty bearer_token) then bearer_token else trim (default "" x_api_key).

(** ** The middleware *)

Section Bearer.
Context (hash_token sha256_hex : string -> string).

(** Which lookup settles the request: a principal, or a status. *)
Definition share_principal (now : Z) (token : string) (db : Db) : option (result Z AuthPrincipal) :=
  match resolve_share_key now token db with
  | Ok (Some r) => Some (Ok (PShare (rsk_issuer_device_id r) (rsk_key_id r) (rsk_remaining r)))
  | Ok None => None
  | Err RejExhausted => Some (Err 402)
  | Err RejExpired | Err RejRevoked => Some (Err 401)
  end.

(** The branches that read the database, in the order of the code. *)
Definition db_principal (now : Z) (token : string) (db : Db) : option (result Z AuthPrincipal) * Db :=
  match resolve_token now token db with
  | Some d => (Some (Ok (PDevice d)), db)
  | None =>
      match resolve_api_key hash_token token db with
      | Some r =>
          if rak_disabled r then (Some (Err 401), db)
          else (Some (Ok (PApiKey (rak_key_id r) (rak_account_user_id r) (rak_role r) (rak_credit_limit r)
                            (rak_usage_credits r))), touch_last_used now (rak_key_id r) db)
      | None =>
          if starts_with "tsess_" token then
            match resolve_account_session sha256_hex now token db with
            | (Some s, db) => (Some (Ok (PAccountSession (as_account_user_id s) (as_session_id s))), db)
            | (None, db) => (Some (Err 401), db)
            end
          else (share_principal now token db, db)
      end
  end.

(** [require_bearer]: [db] is [None] when no database is configured. *)
Definition require_bearer (now : Z) (tokens : TokenTable) (authorization x_api_key : option string) (db : option Db)
    : result Z AuthPrincipal * option Db :=
  let token := token_from_headers authorization x_api_key in
  if is_empty token then (Err 401, db)
  else
    match lookup_static token tokens with
    | Some scope => (Ok (PStatic scope), db)
    | None =>
        match db with
        | Some db0 =>
            let '(r, db1) := db_principal now token db0 in
            (default (Err 401) r, Some db1)
        | None => if bool_decide (tokens = ∅) then (Ok (PStatic "dev-open"), None) else (Err 401, None)
        end
    end.
End Bearer.

(** ** Rate limits *)

(** [PinJoinLimiter]: attempts per device in a sliding window. *)
Definition PinJoinLimiter : Type := gmap string (list Z).
Definition MAX_PER_WINDOW : nat := 5.
Definition WINDOW_SECONDS : Z := 3600.
Definition in_window (now t : Z) : bool := i64_sub now t <? WINDOW_SECONDS.
Definition join_allow (key : string) (now_unix : Z) (m : PinJoinLimiter) : bool * PinJoinLimiter :=
  let attempts := List.filter (in_window now_unix) (default [] (m !! key)) in
  if Nat.leb MAX_PER_WINDOW (length attempts) then (false, <[key := attempts]> m)
  else (true, <[key := attempts ++ [now_unix]]> m).

(** [ChallengeLimiter]: distinct devices per client address. *)
Inductive ChallengeLimitDecision : Type := NewDevice | Retry | Denied.
Definition ChallengeLimiter : Type := gmap string (gmap string Z).
Definition MAX_UNIQUE_PER_WINDOW : nat := 10.
Definition challenge_allow (key dev : string) (now_unix : Z) (m : ChallengeLimiter)
    : ChallengeLimitDecision * ChallengeLimiter :=
  let seen := filter (fun '(_, first_seen) => in_window now_unix first_seen = true) (default ∅ (m !! key)) in
  if has dev seen then (Retry, <[key := seen]> m)
  else if Nat.leb MAX_UNIQUE_PER_WINDOW (size seen) then (Denied, <[key := seen]> m)
  else (NewDevice, <[key := <[dev := now_unix]> seen]> m).

(** [ShareKeyIssuers]: the devices that may mint share keys. *)
Definition ShareKeyIssuers : Type := gset string.
Definition issuers_from_env (raw : string) : ShareKeyIssuers :=
  list_to_set (C := gset string) (List.filter (fun s => negb (is_empty s)) (trim <$> split_on ","%char (bytes raw) [])).
Definition is_allowed (dev : string) (s : ShareKeyIssuers) : bool := bool_decide (dev ∈ (s : gset string)).

Example issuers_parse :
  (fun d => is_allowed d (issuers_from_env "  dev_a ,dev_b,  , dev_c ")) <$> ["dev_a"; "dev_b"; "dev_c"; "dev_d"; ""] =
  [true; true; true; false; false].
Proof. vm_compute. reflexivity. Qed.
Example tokens_parse :
  (fun k => lookup_static k (from_env " a:dev , b,:x,")) <$> ["a"; "b"; ""; "c"] =
  [Some "dev"; Some "default"; Some "x"; None].
Proof. vm_compute. reflexivity. Qed.
