(* ===== verification/AuthFacts.v ===== *)
(** * Who a bearer token speaks for, and how often a device may knock *)

From S2P Require Import Prelude Db RustStr Wallet ShareKeys ApiKeys Sessions Fixtures Auth.

Open Scope string_scope.
Open Scope list_scope.
Open Scope Z_scope.

(** ** The middleware *)

Section Bearer.
Context (hash_token sha256_hex : string -> string).
Implicit Types (db : Db) (p : AuthPrincipal).

(** The credential a principal stands for, in the database. *)
Definition credential (now : Z) (token : string) (db : Db) (p : AuthPrincipal) : Prop :=
  match p with
  | PStatic _ => False
  | PDevice d => exists r, tokens db !! token = Some r /\ tok_device_id r = d /\ now < tok_expires_at r
  | PApiKey k a role limit used => exists r, api_keys db !! k = Some r /\ ak_key_hash r = hash_token token /\
      ak_account_user_id r = a /\ role_parse (ak_role r) = Some role /\ ak_credit_limit r = limit /\
      ak_usage_credits r = used /\ ak_disabled r = 0
  | PAccountSession a s => exists r, account_sessions db !! s = Some r /\
      ase_token_hash r = hash_account_session_token sha256_hex token /\
      ase_account_user_id r = a /\ ase_revoked_at r = None /\ now <= ase_expires_at r
  | PShare d k rest => exists r, share_keys db !! k = Some r /\ sk_token r = token /\
      sk_issuer_device_id r = d /\ sk_revoked_at r = None /\ now < sk_expires_at r /\
      sk_consumed_credits r < sk_budget_credits r /\
      rest = Z.max (i64_sub (sk_budget_credits r) (sk_consumed_credits r)) 0
  end.

Lemma share_principal_spec now token db :
  match share_principal now token db with
  | Some (Ok p) => credential now token db p
  | Some (Err st) => st = 401 \/ st = 402
  | None => True
  end.
Proof.
  unfold share_principal, resolve_share_key.
  destruct (select_one _ (share_keys db)) as [[k r]|] eqn:E; [|done].
  apply select_one_Some in E as [Hk Ht]. apply bool_decide_eq_true in Ht.
  destruct (bool_decide (sk_revoked_at r = None)) eqn:Er; simpl; [|by left].
  destruct (Z.ltb_spec now (sk_expires_at r)); simpl; [|by left].
  destruct (Z.ltb_spec (sk_consumed_credits r) (sk_budget_credits r)); simpl; [|by right].
  apply bool_decide_eq_true in Er. exists r. done.
Qed.

Lemma db_principal_spec now token db :
  same_money db (db_principal hash_token sha256_hex now token db).2 /\
  match (db_principal hash_token sha256_hex now token db).1 with
  | Some (Ok p) => credential now token db p
  | Some (Err st) => st = 401 \/ st = 402
  | None => True
  end.
Proof.
  unfold db_principal. destruct (resolve_token now token db) as [d|] eqn:Et.
  { split; [by apply same_money_refl|]. unfold resolve_token in Et.
    destruct (tokens db !! token) as [r|] eqn:E; [|done]. destruct (Z.ltb_spec now (tok_expires_at r)); [|done].
    injection Et as <-. by exists r. }
  destruct (resolve_api_key hash_token token db) as [k|] eqn:Ek.
  { unfold resolve_api_key in Ek. destruct (looks_like_api_key token); simpl in Ek; [|done].
    destruct (select_one _ (api_keys db)) as [[id r]|] eqn:E; simpl in Ek; [|done].
    destruct (role_parse (ak_role r)) as [role|] eqn:Hr; simpl in Ek; [|done]. injection Ek as <-. simpl.
    apply select_one_Some in E as [Hid Hh]. apply bool_decide_eq_true in Hh.
    destruct (Z.eqb_spec (ak_disabled r) 0); simpl; (split; [by apply same_money_refl|]); [|by left].
    by exists r. }
  destruct (starts_with "tsess_" token) eqn:Es.
  - unfold resolve_account_session. rewrite Es. simpl.
    destruct (live_session sha256_hex token db) as [[sid r]|] eqn:El; simpl;
      [|split; [by apply same_money_refl|by left]].
    apply live_session_Some in El as (Hs & Hh & Hv).
    destruct (Z.ltb_spec (ase_expires_at r) now); simpl; (split; [by apply same_money_refl|]); [by left|].
    by exists r.
  - simpl. split; [by apply same_money_refl|apply share_principal_spec].
Qed.

(** C31: With a database configured, a bearer token is accepted only as what it
    is: a configured static token, or an unexpired device token, an enabled API
    key with that hash, a live session with that hash, or a funded share key
    that is neither revoked, expired nor spent.  The principal carries the
    identity stored with the credential, anything else is answered with 401 or
    402, and authentication moves no credits. *)
Theorem require_bearer_sound (now : Z) (table : TokenTable) (authorization x_api_key : option string) (db : Db)
    (r : result Z AuthPrincipal) (db' : option Db)
    (Hr : require_bearer hash_token sha256_hex now table authorization x_api_key (Some db) = (r, db')) :
  (exists db1, db' = Some db1 /\ same_money db db1) /\
  match r with
  | Ok p =>
      let token := token_from_headers authorization x_api_key in
      token <> "" /\
      ((exists scope, p = PStatic scope /\ table !! token = Some scope) \/
       (table !! token = None /\ credential now token db p))
  | Err st => st = 401 \/ st = 402
  end.
Proof.
  unfold require_bearer, lookup_static, is_empty in Hr.
  destruct (bool_decide (token_from_headers authorization x_api_key = "")) eqn:Ee.
  { simplify_eq. split; [exists db; split; [done|by apply same_money_refl]|by left]. }
  apply bool_decide_eq_false in Ee.
  destruct (table !! token_from_headers authorization x_api_key) as [scope|] eqn:Es.
  { simplify_eq. split; [exists db; split; [done|by apply same_money_refl]|]. split; [done|]. left. by exists scope. }
  destruct (db_principal_spec now (token_from_headers authorization x_api_key) db) as [Hm Hp].
  destruct (db_principal _ _ _ _ _) as [o db1]. simplify_eq. split; [by exists db1|].
  destruct o as [[p|st]|]; simpl in *; [|done|by left]. split; [done|]. by right.
Qed.
End Bearer.

Definition toy_tokens_db : Db := set_tokens {["tok" := mkTokenRow "dev" 50]} genesis.
Definition no_tokens : TokenTable := (∅ : gmap string string).

Lemma require_bearer_sound_witness :
  exists r, tokens toy_tokens_db !! "tok" = Some r /\ tok_device_id r = "dev" /\ 40 < tok_expires_at r.
Proof.
  pose proof (require_bearer_sound (fun s => s) (fun s => s) 40 no_tokens (Some "Bearer tok") None
    toy_tokens_db (Ok (PDevice "dev")) (Some toy_tokens_db) ltac:(vm_compute; reflexivity)) as (_ & _ & [Hs|[_ Hc]]).
  - destruct Hs as (scope & Hs & _). discriminate.
  - exact Hc.
Defined.

(** ** The knock limiter *)

(** The calls that were let through for one device, in order, and the state
    after them. *)
Fixpoint join_accepted (k : string) (calls : list (string * Z)) (m : PinJoinLimiter) : list Z :=
  match calls with
  | [] => []
  | (key, now) :: calls =>
      let '(ok, m') := join_allow key now m in
      (if ok && bool_decide (key = k) then [now] else []) ++ join_accepted k calls m'
  end.
Definition join_state (calls : list (string * Z)) (m : PinJoinLimiter) : PinJoinLimiter :=
  foldl (fun m '(key, now) => (join_allow key now m).2) m calls.

(** Times since the epoch, in order. *)
Fixpoint ordered_from (t : Z) (calls : list (string * Z)) : Prop :=
  match calls with
  | [] => True
  | (_, now) :: calls => t <= now <= 2 ^ 62 /\ ordered_from now calls
  end.

Definition within (t a : Z) : bool := (t - WINDOW_SECONDS <? a) && (a <=? t).

(** What is stored for [k] stands for what was accepted. *)
Record stored (k : string) (m : PinJoinLimiter) (acc : list Z) (t : Z) : Prop := {
  stored_window : forall u, t <= u <= 2 ^ 62 ->
    List.filter (in_window u) (default [] (m !! k)) = List.filter (in_window u) acc;
  stored_past : Forall (fun a => 0 <= a <= t) acc;
  stored_bound : forall u, (length (List.filter (within u) acc) <= MAX_PER_WINDOW)%nat
}.

Lemma in_window_spec u a : 0 <= a <= 2 ^ 62 -> 0 <= u <= 2 ^ 62 -> in_window u a = (u - WINDOW_SECONDS <? a).
Proof.
  intros. unfold in_window. rewrite i64_sub_id by range.
  destruct (Z.ltb_spec (u - a) WINDOW_SECONDS), (Z.ltb_spec (u - WINDOW_SECONDS) a); done || lia.
Qed.

Lemma filter_filter_imp {A} (P Q : A -> bool) l :
  (forall x, x ∈ l -> P x = true -> Q x = true) -> List.filter P (List.filter Q l) = List.filter P l.
Proof.
  induction l as [|x l IH]; intros Hpq; [done|]. simpl. destruct (Q x) eqn:Eq; simpl.
  - rewrite IH; [done|]. intros y Hy. apply Hpq. by right.
  - destruct (P x) eqn:Ep; [rewrite (Hpq x) in Eq; [done|by left|done]|]. apply IH. intros y Hy. apply Hpq. by right.
Qed.

Lemma filter_length_imp {A} (P Q : A -> bool) l :
  (forall x, x ∈ l -> P x = true -> Q x = true) -> (length (List.filter P l) <= length (List.filter Q l))%nat.
Proof.
  induction l as [|x l IH]; intros Hpq; [done|]. simpl.
  assert (length (List.filter P l) <= length (List.filter Q l))%nat by (apply IH; intros y Hy; apply Hpq; by right).
  destruct (P x) eqn:Ep; [rewrite (Hpq x) by (done || by left)|destruct (Q x)]; simpl; lia.
Qed.

Lemma retained_window (l : list Z) now u :
  Forall (fun a => 0 <= a <= now) l -> 0 <= now <= u -> u <= 2 ^ 62 ->
  List.filter (in_window u) (List.filter (in_window now) l) = List.filter (in_window u) l.
Proof.
  intros Hl Hn Hu. apply filter_filter_imp. intros a Ha. rewrite Forall_forall in Hl. specialize (Hl a Ha).
  rewrite !in_window_spec by lia. rewrite !Z.ltb_lt. lia.
Qed.

Lemma stored_other k m acc t key now :
  key <> k -> t <= now -> stored k m acc t -> stored k (join_allow key now m).2 acc now.
Proof.
  intros Hne Ht [Hw Hp Hb]. split; [|by eapply Forall_impl; [exact Hp|simpl; lia]|done].
  intros u Hu. rewrite <- (Hw u) by lia. unfold join_allow.
  destruct (Nat.leb _ _); cbn [snd]; unfold PinJoinLimiter in *; by rewrite lookup_insert_ne.
Qed.

(** A call is let through exactly when fewer than five were in the last hour. *)
Lemma join_allow_spec k m acc t now :
  stored k m acc t -> 0 <= t <= now -> now <= 2 ^ 62 ->
  (join_allow k now m).1 = negb (Nat.leb MAX_PER_WINDOW (length (List.filter (within now) acc))) /\
  stored k (join_allow k now m).2 (acc ++ if (join_allow k now m).1 then [now] else []) now.
Proof.
  intros [Hw Hp Hb] Ht Hn. unfold join_allow. rewrite (Hw now) by lia.
  assert (Forall (fun a => 0 <= a <= now) acc) as Hp' by (eapply Forall_impl; [exact Hp|simpl; lia]).
  assert (List.filter (in_window now) acc = List.filter (within now) acc) as Ew.
  { apply List.filter_ext_in. intros a Ha%list_elem_of_In. rewrite Forall_forall in Hp'. specialize (Hp' a Ha).
    rewrite in_window_spec by lia. unfold within. destruct (Z.leb_spec a now); [by rewrite andb_true_r|lia]. }
  destruct (Nat.leb_spec MAX_PER_WINDOW (length (List.filter (in_window now) acc))) as [Hfull|Hroom]; cbn [fst snd].
  - rewrite <- Ew, (proj2 (Nat.leb_le _ _)) by done. split; [done|]. rewrite app_nil_r.
    split; [|done|done]. intros u Hu. unfold PinJoinLimiter in *. rewrite lookup_insert_eq. simpl. apply retained_window; [done|lia|lia].
  - rewrite <- Ew, (proj2 (Nat.leb_gt _ _)) by done. split; [done|]. split.
    + intros u Hu. unfold PinJoinLimiter in *. rewrite lookup_insert_eq. simpl. rewrite !List.filter_app. f_equal.
      apply retained_window; [done|lia|lia].
    + apply Forall_app. split; [done|]. constructor; [lia|constructor].
    + intros u. rewrite List.filter_app, length_app. simpl. unfold within at 2.
      destruct (Z.leb_spec now u); [|rewrite andb_false_r; simpl; specialize (Hb u); lia].
      assert (length (List.filter (within u) acc) <= length (List.filter (in_window now) acc))%nat.
      { apply filter_length_imp. intros a Ha. rewrite Forall_forall in Hp'. specialize (Hp' a Ha).
        rewrite in_window_spec by lia. unfold within. rewrite andb_true_iff, !Z.ltb_lt. lia. }
      destruct (_ <? _); simpl; unfold MAX_PER_WINDOW in *; lia.
Qed.

Lemma join_stored k calls m acc t :
  stored k m acc t -> 0 <= t -> ordered_from t calls ->
  exists t', 0 <= t' /\ stored k (join_state calls m) (acc ++ join_accepted k calls m) t' /\
    forall c, ordered_from t (calls ++ [c]) -> t' <= c.2 <= 2 ^ 62.
Proof.
  revert m acc t. induction calls as [|[key now] calls IH]; intros m acc t Hs H0 Ho.
  { exists t. split; [lia|]. split; [by rewrite app_nil_r|]. intros [? c] [Hc _]. exact Hc. }
  destruct Ho as [Hn Ho]. simpl.
  assert (stored k (join_allow key now m).2
    (acc ++ if (join_allow key now m).1 && bool_decide (key = k) then [now] else []) now) as Hs'.
  { destruct (bool_decide_reflect (key = k)) as [->|Hne].
    - rewrite andb_true_r. apply (join_allow_spec k m acc t now Hs); lia.
    - rewrite andb_false_r, app_nil_r. apply (stored_other k m acc t); [done|lia|done]. }
  destruct (IH _ _ now Hs' ltac:(lia) Ho) as (t' & Ht' & Hst & Hc).
  destruct (join_allow key now m) as [ok m']. exists t'. split; [lia|].
  rewrite <- app_assoc in Hst. split; [done|]. intros c [_ Hoc]. by apply Hc.
Qed.

Definition no_knocks : PinJoinLimiter := (∅ : gmap string (list Z)).
Lemma no_knocks_stored k : stored k no_knocks [] 0.
Proof. split; [intros u _; unfold no_knocks, PinJoinLimiter; by rewrite lookup_empty|constructor|simpl; unfold MAX_PER_WINDOW; lia]. Qed.

(** A device never gets more than five knocks through in any window of an
    hour, whatever it and others send; and the next knock gets through exactly
    when fewer than five of its own did in the last hour, so refused knocks and
    other devices cost it nothing. *)
Theorem join_limit (k : string) (calls : list (string * Z)) (Hcalls : ordered_from 0 calls) :
  (forall u, (length (List.filter (within u) (join_accepted k calls no_knocks)) <= MAX_PER_WINDOW)%nat) /\
  (forall now, ordered_from 0 (calls ++ [(k, now)]) ->
     (join_allow k now (join_state calls no_knocks)).1 = true <->
     (length (List.filter (within now) (join_accepted k calls no_knocks)) < MAX_PER_WINDOW)%nat).
Proof.
  destruct (join_stored k calls no_knocks [] 0 (no_knocks_stored k) ltac:(lia) Hcalls) as (t & Ht & Hs & Hc).
  split; [apply (stored_bound _ _ _ _ Hs)|]. intros now Hn. specialize (Hc _ Hn). simpl in Hc.
  destruct (join_allow_spec k _ _ t now Hs) as [-> _]; [lia|lia|].
  rewrite negb_true_iff, Nat.leb_gt. done.
Qed.

Definition toy_knocks : list (string * Z) :=
  [("d", 1); ("d", 2); ("e", 2); ("d", 3); ("d", 4); ("d", 5); ("d", 6); ("d", 3602)].

Lemma join_limit_witness :
  join_accepted "d" toy_knocks no_knocks = [1; 2; 3; 4; 5; 3602] /\
  (length (List.filter (within 3602) (join_accepted "d" toy_knocks no_knocks)) <= MAX_PER_WINDOW)%nat.
Proof.
  split; [vm_compute; reflexivity|].
  refine (proj1 (join_limit "d" toy_knocks _) 3602). simpl. lia.
Defined.
