(* ===== verification/Noise.v ===== *)
(** * The data plane: Noise handshake and session

    [node/src/pin/noise.rs]: the IK handshake of two devices of a network and
    the session that follows, with its window against replayed packets.  The
    primitives come from crates (BLAKE2s, X25519, HKDF-SHA256,
    ChaCha20-Poly1305) and are the operations of the class [NoiseCrates];
    [NoiseLaws] states what the code relies on.  A [u64] is a [Z] below 2^64;
    the send counter is the packets sent, which never reach 2^64. *)

From S2P Require Import Prelude Db RustStr Merkle.
From Stdlib Require Import Ascii.

Open Scope string_scope.
Open Scope list_scope.
Open Scope Z_scope.

(** ** Primitives *)

Class NoiseCrates : Type := {
  blake2s : list byte -> list byte;
  (** [PublicKey::from(&secret)] and [secret.diffie_hellman(&public)]. *)
  x25519_public : list byte -> list byte;
  x25519 : list byte -> list byte -> list byte;
  (** [Hkdf::<Sha256>::new(None, ikm).expand(&[], 32 bytes)]. *)
  hkdf_sha256 : list byte -> list byte;
  (** [ChaCha20Poly1305]: key, nonce, associated data, text. *)
  aead_seal : list byte -> list byte -> list byte -> list byte -> list byte;
  aead_open : list byte -> list byte -> list byte -> list byte -> option (list byte)
}.

Definition PROTOCOL_NAME : list byte := bytes "Noise_IK_25519_ChaChaPoly_BLAKE2s".
Definition BLAKE2S_BLOCK_SIZE : nat := 64.
Definition TAG_LEN : nat := 16.
Definition REPLAY_WINDOW : Z := 2048.

Class NoiseLaws `{NoiseCrates} : Prop := {
  blake2s_length : forall m, length (blake2s m) = 32%nat;
  x25519_public_length : forall s, length (x25519_public s) = 32%nat;
  x25519_agree : forall a b, x25519 a (x25519_public b) = x25519 b (x25519_public a);
  aead_seal_length : forall k n ad m, length (aead_seal k n ad m) = (length m + TAG_LEN)%nat;
  aead_open_seal : forall k n ad m, aead_open k n ad (aead_seal k n ad m) = Some m
}.

Section Noise.
Context `{NoiseCrates}.

Definition mix_hash (h data : list byte) : list byte := blake2s (h ++ data).

Definition xor_byte (k : Z) (b : byte) : byte := u8 (Z.lxor (Z.of_nat (code b)) k).
Definition hmac_blake2s (key data : list byte) : list byte :=
  let normalized := if Nat.ltb BLAKE2S_BLOCK_SIZE (length key) then blake2s key else key in
  let normalized := normalized ++ replicate (BLAKE2S_BLOCK_SIZE - length normalized) (u8 0) in
  let ipad := xor_byte 54 <$> normalized in
  let opad := xor_byte 92 <$> normalized in
  let inner := blake2s (ipad ++ data) in
  blake2s (opad ++ inner).

Definition noise_hkdf (chaining_key ikm : list byte) : list byte * list byte :=
  let temp := hmac_blake2s chaining_key ikm in
  let out1 := hmac_blake2s temp [u8 1] in
  let out2 := hmac_blake2s temp (out1 ++ [u8 2]) in
  (out1, out2).

Definition dh (private public : list byte) : list byte := hkdf_sha256 (x25519 private public).

Definition aead_nonce (counter : Z) : list byte := replicate 4 (u8 0) ++ le_bytes 8 counter.
Definition encrypt (key : list byte) (counter : Z) (ad plaintext : list byte) : list byte :=
  aead_seal key (aead_nonce counter) ad plaintext.
Definition decrypt (key : list byte) (counter : Z) (ad ciphertext_and_tag : list byte)
    : result anyhow (list byte) :=
  guard? negb (Nat.ltb (length ciphertext_and_tag) TAG_LEN) else (Bail "ciphertext shorter than tag") in
  ok_or (Bail "AEAD decryption failed") (aead_open key (aead_nonce counter) ad ciphertext_and_tag).
(** [Result::context]. *)
Definition context {A} (msg : string) (r : result anyhow A) : result anyhow A := map_err (fun _ => Bail msg) r.

(** ** Handshake *)

Definition initialize_symmetric : list byte * list byte :=
  let h := if Nat.leb (length PROTOCOL_NAME) 32
           then PROTOCOL_NAME ++ replicate (32 - length PROTOCOL_NAME) (u8 0)
           else blake2s PROTOCOL_NAME in
  (h, h).

Record TransportKeys : Type := mkTransportKeys {
  tk_send_key : list byte;
  tk_receive_key : list byte;
  tk_handshake_hash : list byte
}.
Record InitiatorState : Type := mkInitiatorState {
  is_ck : list byte;
  is_h : list byte;
  is_local_ephemeral : list byte;
  is_remote_static : list byte
}.

Definition initiator_begin (local_static remote_static ephemeral payload : list byte)
    : list byte * InitiatorState :=
  let '(ck, h) := initialize_symmetric in
  let h := mix_hash h remote_static in
  let eph_pub := x25519_public ephemeral in
  let h := mix_hash h eph_pub in
  let '(ck, k1) := noise_hkdf ck (dh ephemeral remote_static) in
  let encrypted_static := encrypt k1 0 h (x25519_public local_static) in
  let h := mix_hash h encrypted_static in
  let '(ck, k2) := noise_hkdf ck (dh local_static remote_static) in
  let encrypted_payload := encrypt k2 0 h payload in
  let h := mix_hash h encrypted_payload in
  (eph_pub ++ encrypted_static ++ encrypted_payload, mkInitiatorState ck h ephemeral remote_static).

(** Reading a payload, which may be absent: the new hash. *)
Definition read_payload (k h encrypted_payload : list byte) (msg : string) : result anyhow (list byte) :=
  match encrypted_payload with
  | [] => Ok h
  | _ => let? _ := context msg (decrypt k 0 h encrypted_payload) in Ok (mix_hash h encrypted_payload)
  end.

Definition initiator_finish (state : InitiatorState) (message2 : list byte) : result anyhow TransportKeys :=
  guard? negb (Nat.ltb (length message2) 32) else (Bail "message2 too short") in
  let remote_eph := take 32 message2 in
  let h := mix_hash (is_h state) remote_eph in
  let '(ck, _) := noise_hkdf (is_ck state) (dh (is_local_ephemeral state) remote_eph) in
  let '(ck, k2) := noise_hkdf ck (dh (is_local_ephemeral state) (is_remote_static state)) in
  let? h := read_payload k2 h (drop 32 message2) "msg2 payload decryption failed" in
  let '(send_key, receive_key) := noise_hkdf ck [] in
  Ok (mkTransportKeys send_key receive_key h).

Definition responder_complete (local_static message1 ephemeral payload : list byte)
    : result anyhow (list byte * TransportKeys * list byte) :=
  guard? negb (Nat.ltb (length message1) (32 + 32 + TAG_LEN)) else (Bail "message1 too short") in
  let '(ck, h) := initialize_symmetric in
  let h := mix_hash h (x25519_public local_static) in
  let remote_eph := take 32 message1 in
  let h := mix_hash h remote_eph in
  let '(ck, k1) := noise_hkdf ck (dh local_static remote_eph) in
  let encrypted_static := take (32 + TAG_LEN) (drop 32 message1) in
  let? remote_static := context "initiator static key decryption failed" (decrypt k1 0 h encrypted_static) in
  guard? Nat.eqb (length remote_static) 32 else (Bail "initiator static key has wrong length") in
  let h := mix_hash h encrypted_static in
  let '(ck, k2) := noise_hkdf ck (dh local_static remote_static) in
  let? h := read_payload k2 h (drop (32 + 32 + TAG_LEN) message1) "msg1 payload decryption failed" in
  let eph_pub := x25519_public ephemeral in
  let h := mix_hash h eph_pub in
  let '(ck, _) := noise_hkdf ck (dh ephemeral remote_eph) in
  let '(ck, k4) := noise_hkdf ck (dh local_static remote_eph) in
  let encrypted_reply_payload := encrypt k4 0 h payload in
  let h := mix_hash h encrypted_reply_payload in
  let '(initiator_send, initiator_receive) := noise_hkdf ck [] in
  Ok (eph_pub ++ encrypted_reply_payload, mkTransportKeys initiator_receive initiator_send h, remote_static).

(** [timestamp_payload]; the clock is an argument. *)
Definition be_bytes (n : nat) (z : Z) : list byte := rev (le_bytes n z).
Definition timestamp_payload (secs nanos : Z) : list byte := be_bytes 8 secs ++ be_bytes 4 nanos.

(** ** Session *)

Record NoiseSession : Type := mkNoiseSession {
  send_key : list byte;
  receive_key : list byte;
  handshake_hash : list byte;
  send_counter : Z;
  replay_high_water : Z;
  replay_bitmap : list Z
}.
Definition new_session (keys : TransportKeys) : NoiseSession :=
  mkNoiseSession (tk_send_key keys) (tk_receive_key keys) (tk_handshake_hash keys) 0 0 (replicate 32 0).

Definition session_encrypt (plaintext : list byte) (s : NoiseSession) : list byte * NoiseSession :=
  let counter := send_counter s in
  (le_bytes 8 counter ++ encrypt (send_key s) counter [] plaintext,
   mkNoiseSession (send_key s) (receive_key s) (handshake_hash s) ((counter + 1) mod 2 ^ 64)
     (replay_high_water s) (replay_bitmap s)).

(** A word of the bitmap, and a shift of a [u64] to the left. *)
Definition word_at (bm : list Z) (i : nat) : Z := default 0 (bm !! i).
Definition shl64 (x n : Z) : Z := Z.land (Z.shiftl x n) (Z.ones 64).

(** [for i in (lo..hi).rev() { bm[i] = f(bm, i) }]. *)
Definition down_loop (lo hi : nat) (f : list Z -> nat -> Z) (bm : list Z) : list Z :=
  foldl (fun bm i => <[i := f bm i]> bm) bm (rev (seq lo (hi - lo))).

Definition shift_window (count : Z) (bm : list Z) : list Z :=
  let word_shift := Z.to_nat (count / 64) in
  let bit_shift := count mod 64 in
  let bm :=
    if Nat.ltb 0 word_shift then
      let bm := down_loop word_shift 32 (fun bm i => word_at bm (i - word_shift)) bm in
      imap (fun i w => if Nat.ltb i (Nat.min word_shift 32) then 0 else w) bm
    else bm in
  if 0 <? bit_shift then
    let bm := down_loop 1 32 (fun bm i =>
      Z.lor (shl64 (word_at bm i) bit_shift) (Z.shiftr (word_at bm (i - 1)) (64 - bit_shift))) bm in
    <[O := shl64 (word_at bm 0) bit_shift]> bm
  else bm.

Definition is_replay (counter : Z) (s : NoiseSession) : bool :=
  if replay_high_water s <? counter then false
  else
    let distance := replay_high_water s - counter in
    if REPLAY_WINDOW <=? distance then true
    else negb (Z.land (word_at (replay_bitmap s) (Z.to_nat (distance / 64))) (Z.shiftl 1 (distance mod 64)) =? 0).

Definition set_replay (high : Z) (bm : list Z) (s : NoiseSession) : NoiseSession :=
  mkNoiseSession (send_key s) (receive_key s) (handshake_hash s) (send_counter s) high bm.
(** [bm[word] |= mask]. *)
Definition or_word (i : nat) (mask : Z) (bm : list Z) : list Z := <[i := Z.lor (word_at bm i) mask]> bm.
Definition mark_received (counter : Z) (s : NoiseSession) : NoiseSession :=
  if replay_high_water s <? counter then
    let shift := counter - replay_high_water s in
    let bm := if REPLAY_WINDOW <=? shift then replicate 32 0 else shift_window shift (replay_bitmap s) in
    set_replay counter (or_word 0 1 bm) s
  else
    let distance := replay_high_water s - counter in
    set_replay (replay_high_water s)
      (or_word (Z.to_nat (distance / 64)) (Z.shiftl 1 (distance mod 64)) (replay_bitmap s)) s.

Definition session_decrypt (packet : list byte) (s : NoiseSession) : result anyhow (list byte) * NoiseSession :=
  if Nat.ltb (length packet) (8 + TAG_LEN) then (Err (Bail "packet too short"), s)
  else
    let counter := le_value (take 8 packet) in
    if is_replay counter s then (Err (Bail "replayed packet"), s)
    else
      match decrypt (receive_key s) counter [] (drop 8 packet) with
      | Ok plaintext => (Ok plaintext, mark_received counter s)
      | Err e => (Err e, s)
      end.
End Noise.
