(* ===== verification/NoiseFacts.v ===== *)
(** * Handshake agreement and the replay window

    The bitmap of a session is a window of 2048 bits over the counters received;
    [fresh] is the reference definition it is compared with. *)

From S2P Require Import Prelude Db RustStr Merkle Noise.
From Stdlib Require Import Ascii.

Open Scope string_scope.
Open Scope list_scope.
Open Scope Z_scope.

(** ** The bitmap *)

Lemma down_loop_lookup lo n (f : list Z -> nat -> Z) bm j :
  (forall bm1 i, (lo <= i < lo + n)%nat -> (forall k, (k <= i)%nat -> bm1 !! k = bm !! k) -> f bm1 i = f bm i) ->
  (lo + n <= length bm)%nat ->
  down_loop lo (lo + n) f bm !! j = if decide (lo <= j < lo + n)%nat then Some (f bm j) else bm !! j.
Proof.
  unfold down_loop. replace (lo + n - lo)%nat with n by lia. revert bm.
  induction n as [|n IH]; intros bm Hf Hl; [simpl; rewrite decide_False by lia; done|].
  rewrite seq_S, rev_unit. simpl. set (bm1 := <[(lo + n)%nat := f bm (lo + n)%nat]> bm).
  assert (forall k, (k < lo + n)%nat -> bm1 !! k = bm !! k) as Hk
    by (intros k Hk; unfold bm1; by rewrite list_lookup_insert_ne by lia).
  rewrite IH.
  - case_decide; [rewrite decide_True by lia; f_equal; apply Hf; [lia|intros; apply Hk; lia]|].
    destruct (decide (j = lo + n)%nat) as [-> |Hj].
    + rewrite decide_True by lia. unfold bm1. apply list_lookup_insert_eq. lia.
    + rewrite decide_False by lia. unfold bm1. by rewrite list_lookup_insert_ne by lia.
  - intros bm2 i Hi H2. rewrite (Hf bm2 i), (Hf bm1 i); [done|lia| |lia|].
    + intros k Hle. apply Hk. lia.
    + intros k Hle. rewrite H2 by lia. apply Hk. lia.
  - unfold bm1. rewrite length_insert. lia.
Qed.

Lemma down_loop_at lo hi (f : list Z -> nat -> Z) bm j :
  (forall bm1 i, (lo <= i < hi)%nat -> (forall k, (k <= i)%nat -> bm1 !! k = bm !! k) -> f bm1 i = f bm i) ->
  (lo <= hi <= length bm)%nat ->
  down_loop lo hi f bm !! j = if decide (lo <= j < hi)%nat then Some (f bm j) else bm !! j.
Proof.
  intros Hf Hl. replace hi with (lo + (hi - lo))%nat in * by lia. apply down_loop_lookup; [done|lia].
Qed.

Definition word_ok (w : Z) : Prop := 0 <= w < 2 ^ 64.
Definition words_ok (bm : list Z) : Prop := length bm = 32%nat /\ Forall word_ok bm.
(** The bit of the window at a distance. *)
Definition window_bit (bm : list Z) (d : Z) : bool := Z.testbit (word_at bm (Z.to_nat (d / 64))) (d mod 64).

Lemma word_at_ok bm i : words_ok bm -> word_ok (word_at bm i).
Proof.
  intros [_ Hw]. unfold word_at. destruct (bm !! i) as [w|] eqn:E; simpl; [by eapply Forall_lookup_1|].
  unfold word_ok. lia.
Qed.

Lemma word_ok_bits w : word_ok w <-> 0 <= w /\ forall i, 64 <= i -> Z.testbit w i = false.
Proof.
  unfold word_ok. split.
  - intros Hw. split; [lia|]. intros i Hi. rewrite <- (Z.mod_small w (2 ^ 64)) by lia. apply Z.mod_pow2_bits_high. lia.
  - intros [H0 Hb]. split; [done|].
    assert (w mod 2 ^ 64 = w) as <-; [|apply Z.mod_pos_bound; lia].
    apply Z.bits_inj'. intros i Hi. destruct (Z.ltb_spec i 64).
    + apply Z.mod_pow2_bits_low. lia.
    + rewrite Z.mod_pow2_bits_high by lia. symmetry. apply Hb. lia.
Qed.

Lemma shl64_testbit w b i : 0 <= b -> 0 <= i < 64 -> Z.testbit (shl64 w b) i = (b <=? i) && Z.testbit w (i - b).
Proof.
  intros Hb Hi. unfold shl64. rewrite Z.land_spec, Z.shiftl_spec, Z.testbit_ones_nonneg by lia.
  destruct (Z.ltb_spec i 64); [|lia]. rewrite andb_true_r. destruct (Z.leb_spec b i); [done|].
  simpl. apply Z.testbit_neg_r. lia.
Qed.

Lemma shl64_ok w b : word_ok (shl64 w b).
Proof. unfold shl64, word_ok. rewrite Z.land_ones by lia. apply Z.mod_pos_bound. lia. Qed.

Lemma lor_ok a b : word_ok a -> word_ok b -> word_ok (Z.lor a b).
Proof.
  rewrite !word_ok_bits. intros [Ha Ba] [Hb Bb]. split; [by apply Z.lor_nonneg|].
  intros i Hi. by rewrite Z.lor_spec, Ba, Bb.
Qed.

Lemma shiftr_ok a n : 0 <= n -> word_ok a -> word_ok (Z.shiftr a n).
Proof.
  rewrite !word_ok_bits. intros Hn [Ha Ba]. split; [by apply Z.shiftr_nonneg|].
  intros i Hi. rewrite Z.shiftr_spec by lia. apply Ba. lia.
Qed.

Lemma words_ok_lookup bm :
  length bm = 32%nat -> (forall i, (i < 32)%nat -> word_ok (word_at bm i)) -> words_ok bm.
Proof.
  intros Hl Hw. split; [done|]. apply Forall_lookup_2. intros i w Hi.
  assert (i < 32)%nat as Hlt by (rewrite <- Hl; by eapply lookup_lt_Some).
  specialize (Hw i Hlt). unfold word_at in Hw. by rewrite Hi in Hw.
Qed.

Lemma length_down_loop lo hi f bm : length (down_loop lo hi f bm) = length bm.
Proof.
  unfold down_loop. generalize (rev (seq lo (hi - lo))) as l. intros l. revert bm.
  induction l as [|i l IH]; intros bm; [done|]. simpl. by rewrite IH, length_insert.
Qed.

(** Moving whole words. *)
Definition shift_words (ws : nat) (bm : list Z) : list Z :=
  if Nat.ltb 0 ws then
    imap (fun i w => if Nat.ltb i (Nat.min ws 32) then 0 else w)
      (down_loop ws 32 (fun bm i => word_at bm (i - ws)) bm)
  else bm.
(** Moving bits across words. *)
Definition shift_bits (b : Z) (bm : list Z) : list Z :=
  if 0 <? b then
    let bm := down_loop 1 32 (fun bm i =>
      Z.lor (shl64 (word_at bm i) b) (Z.shiftr (word_at bm (i - 1)) (64 - b))) bm in
    <[O := shl64 (word_at bm 0) b]> bm
  else bm.
Lemma shift_window_split n bm : shift_window n bm = shift_bits (n mod 64) (shift_words (Z.to_nat (n / 64)) bm).
Proof. done. Qed.

Lemma shift_words_at ws bm i :
  (ws < 32)%nat -> length bm = 32%nat -> (i < 32)%nat ->
  word_at (shift_words ws bm) i = if Nat.ltb i ws then 0 else word_at bm (i - ws).
Proof.
  intros Hws Hl Hi. unfold shift_words. destruct (Nat.ltb_spec 0 ws).
  - unfold word_at at 1. rewrite list_lookup_imap.
    rewrite down_loop_at; [|intros bm1 k Hk He; unfold word_at; by rewrite He by lia|lia].
    rewrite Nat.min_l by lia. destruct (Nat.ltb_spec i ws).
    + rewrite decide_False by lia. destruct (bm !! i); done.
    + rewrite decide_True by lia. done.
  - replace (i - ws)%nat with i by lia. destruct (Nat.ltb_spec i ws); [lia|done].
Qed.

Lemma length_shift_words ws bm : length (shift_words ws bm) = length bm.
Proof. unfold shift_words. destruct (Nat.ltb 0 ws); [by rewrite length_imap, length_down_loop|done]. Qed.

Lemma shift_words_ok ws bm : (ws < 32)%nat -> words_ok bm -> words_ok (shift_words ws bm).
Proof.
  intros Hws Hw. apply words_ok_lookup; [rewrite length_shift_words; apply Hw|].
  intros i Hi. rewrite shift_words_at by (lia || apply Hw).
  destruct (Nat.ltb i ws); [unfold word_ok; lia|by apply word_at_ok].
Qed.

Lemma shift_bits_at b bm i :
  0 < b < 64 -> length bm = 32%nat -> (i < 32)%nat ->
  word_at (shift_bits b bm) i =
    if Nat.eqb i 0 then shl64 (word_at bm 0) b
    else Z.lor (shl64 (word_at bm i) b) (Z.shiftr (word_at bm (i - 1)) (64 - b)).
Proof.
  intros Hb Hl Hi. unfold shift_bits. rewrite (proj2 (Z.ltb_lt 0 b)) by lia.
  set (f := fun bm i => Z.lor (shl64 (word_at bm i) b) (Z.shiftr (word_at bm (i - 1)) (64 - b))).
  assert (forall j, down_loop 1 32 f bm !! j = if decide (1 <= j < 32)%nat then Some (f bm j) else bm !! j) as Hd.
  { intros j. apply down_loop_at; [|lia]. intros bm1 k Hk He. unfold f, word_at. rewrite !He by lia. done. }
  unfold word_at at 1. destruct (Nat.eqb_spec i 0) as [-> |Hn].
  - rewrite list_lookup_insert_eq by (rewrite length_down_loop; lia). simpl. f_equal.
    unfold word_at. rewrite Hd, decide_False by lia. done.
  - rewrite list_lookup_insert_ne, Hd, decide_True by lia. done.
Qed.

Lemma shift_bits_ok b bm : 0 <= b < 64 -> words_ok bm -> words_ok (shift_bits b bm).
Proof.
  intros Hb Hw. destruct (Z.ltb_spec 0 b).
  - apply words_ok_lookup.
    + unfold shift_bits. rewrite (proj2 (Z.ltb_lt 0 b)) by lia. rewrite length_insert, length_down_loop. apply Hw.
    + intros i Hi. rewrite shift_bits_at by (lia || apply Hw). destruct (Nat.eqb i 0); [apply shl64_ok|].
      apply lor_ok; [apply shl64_ok|]. apply shiftr_ok; [lia|by apply word_at_ok].
  - unfold shift_bits. by replace (0 <? b) with false by (symmetry; apply Z.ltb_ge; lia).
Qed.

(** ** Distances *)

Lemma split_distance d : d = 64 * (d / 64) + d mod 64 /\ 0 <= d mod 64 < 64.
Proof. split; [apply Z.div_mod; lia|apply Z.mod_pos_bound; lia]. Qed.

Lemma window_bit_words bm q r : 0 <= q -> 0 <= r < 64 -> window_bit bm (64 * q + r) = Z.testbit (word_at bm (Z.to_nat q)) r.
Proof.
  intros Hq Hr. unfold window_bit.
  replace ((64 * q + r) / 64) with q by (Z.to_euclidean_division_equations; lia).
  by replace ((64 * q + r) mod 64) with r by (Z.to_euclidean_division_equations; lia).
Qed.

Lemma shift_words_bit ws bm d :
  (ws < 32)%nat -> words_ok bm -> 0 <= d < REPLAY_WINDOW ->
  window_bit (shift_words ws bm) d = negb (d <? 64 * Z.of_nat ws) && window_bit bm (d - 64 * Z.of_nat ws).
Proof.
  unfold REPLAY_WINDOW. intros Hws [Hl _] Hd. destruct (split_distance d) as [E Hr].
  unfold window_bit at 1. rewrite shift_words_at by lia.
  destruct (Nat.ltb_spec (Z.to_nat (d / 64)) ws), (Z.ltb_spec d (64 * Z.of_nat ws)); try lia; simpl.
  - apply Z.testbit_0_l.
  - replace (d - 64 * Z.of_nat ws) with (64 * (d / 64 - Z.of_nat ws) + d mod 64) by lia.
    rewrite window_bit_words by lia. do 2 f_equal. lia.
Qed.

Lemma shift_bits_bit b bm d :
  0 <= b < 64 -> words_ok bm -> 0 <= d < REPLAY_WINDOW ->
  window_bit (shift_bits b bm) d = negb (d <? b) && window_bit bm (d - b).
Proof.
  unfold REPLAY_WINDOW. intros Hb Hw Hd. destruct (Z.eqb_spec b 0) as [-> |Hb0].
  { unfold shift_bits. simpl. rewrite Z.sub_0_r. destruct (Z.ltb_spec d 0); [lia|done]. }
  destruct (split_distance d) as [E Hr].
  unfold window_bit at 1. rewrite shift_bits_at by (lia || apply Hw).
  destruct (Nat.eqb_spec (Z.to_nat (d / 64)) 0) as [E0|E0].
  - rewrite shl64_testbit by lia.
    destruct (Z.leb_spec b (d mod 64)), (Z.ltb_spec d b); try lia. cbn [andb negb].
    replace (d - b) with (64 * 0 + (d mod 64 - b)) by lia. rewrite window_bit_words by lia. done.
  - rewrite Z.lor_spec, shl64_testbit, Z.shiftr_spec by lia.
    destruct (Z.ltb_spec d b); [lia|]. simpl. destruct (Z.leb_spec b (d mod 64)); simpl.
    + replace (d - b) with (64 * (d / 64) + (d mod 64 - b)) by lia. rewrite window_bit_words by lia.
      replace (Z.testbit (word_at bm _) (d mod 64 + (64 - b))) with false; [by rewrite orb_false_r|].
      symmetry. apply word_ok_bits; [by apply word_at_ok|lia].
    + replace (d - b) with (64 * (d / 64 - 1) + (d mod 64 + (64 - b))) by lia. rewrite window_bit_words by lia.
      do 2 f_equal. lia.
Qed.

(** The shift loops move every bit of the window, and nothing else. *)
Lemma shift_window_bit n bm d :
  words_ok bm -> 0 <= n < REPLAY_WINDOW -> 0 <= d < REPLAY_WINDOW ->
  window_bit (shift_window n bm) d = negb (d <? n) && window_bit bm (d - n).
Proof.
  intros Hw Hn Hd. rewrite shift_window_split. destruct (split_distance n) as [E Hr]. unfold REPLAY_WINDOW in *.
  assert (Z.to_nat (n / 64) < 32)%nat as Hws by lia.
  rewrite shift_bits_bit; [|lia|by apply shift_words_ok|done]. destruct (Z.ltb_spec d (n mod 64)); simpl.
  - destruct (Z.ltb_spec d n); [done|lia].
  - rewrite shift_words_bit; [|done|done|unfold REPLAY_WINDOW; lia]. rewrite Z2Nat.id by lia.
    destruct (Z.ltb_spec (d - n mod 64) (64 * (n / 64))), (Z.ltb_spec d n); try lia. cbn [andb negb]. f_equal. lia.
Qed.

Lemma shift_window_ok n bm : words_ok bm -> 0 <= n < REPLAY_WINDOW -> words_ok (shift_window n bm).
Proof.
  intros Hw Hn. rewrite shift_window_split. destruct (split_distance n) as [E Hr]. unfold REPLAY_WINDOW in *.
  apply shift_bits_ok; [lia|]. apply shift_words_ok; [lia|done].
Qed.

Lemma or_word_bit bm i b d :
  length bm = 32%nat -> 0 <= i < REPLAY_WINDOW -> 0 <= d < REPLAY_WINDOW -> b = i mod 64 ->
  window_bit (or_word (Z.to_nat (i / 64)) (Z.shiftl 1 b) bm) d = (d =? i) || window_bit bm d.
Proof.
  unfold REPLAY_WINDOW. intros Hl Hi Hd ->. destruct (split_distance i) as [Ei Hri], (split_distance d) as [Ed Hrd].
  unfold window_bit, or_word. unfold word_at at 1.
  destruct (Z.eqb_spec (d / 64) (i / 64)) as [E|E].
  - rewrite E, list_lookup_insert_eq by lia. cbn [default]. unfold default, from_option, id.
    rewrite Z.lor_spec, orb_comm. f_equal. rewrite Z.shiftl_spec by lia.
    destruct (Z.eqb_spec d i) as [-> |Hn]; [by rewrite Z.sub_diag|].
    assert (d mod 64 - i mod 64 <> 0) by lia.
    change 1 with (2 ^ 0). rewrite Z.pow2_bits_eqb by lia. apply Z.eqb_neq. lia.
  - rewrite list_lookup_insert_ne by lia. destruct (Z.eqb_spec d i); [congruence|]. done.
Qed.

Lemma or_word_ok bm i m : words_ok bm -> word_ok m -> words_ok (or_word i m bm).
Proof.
  intros Hw Hm. split; [unfold or_word; rewrite length_insert; apply Hw|].
  apply Forall_insert; [apply Hw|]. apply lor_ok; [by apply word_at_ok|done].
Qed.

Lemma mask_ok b : 0 <= b < 64 -> word_ok (Z.shiftl 1 b).
Proof.
  intros Hb. unfold word_ok. rewrite Z.shiftl_1_l. split; [apply Z.pow_nonneg; lia|].
  apply Z.pow_lt_mono_r; lia.
Qed.

(** ** The reference: a list of the counters received *)

Definition highest (acc : list Z) : Z := foldr Z.max 0 acc.
Definition received (acc : list Z) (c : Z) : bool := existsb (Z.eqb c) acc.
(** A counter may be accepted: not yet received, and not behind the window. *)
Definition fresh (acc : list Z) (c : Z) : bool := negb (received acc c) && (highest acc - c <? REPLAY_WINDOW).

Lemma received_In acc c : received acc c = true <-> c ∈ acc.
Proof.
  unfold received. rewrite existsb_exists. split.
  - intros (x & Hx & E). apply Z.eqb_eq in E as ->. by apply list_elem_of_In.
  - intros Hc. exists c. split; [by apply list_elem_of_In|apply Z.eqb_refl].
Qed.

Lemma received_above acc c : highest acc < c -> received acc c = false.
Proof.
  intros Hc. apply not_true_iff_false. rewrite received_In. intros Hin. revert Hc. unfold highest.
  induction acc as [|a acc IH]; [by apply not_elem_of_nil in Hin|]. simpl.
  apply elem_of_cons in Hin as [-> |Hin]; [lia|]. specialize (IH Hin). lia.
Qed.

Lemma highest_nonneg acc : 0 <= highest acc.
Proof. unfold highest. induction acc; simpl; lia. Qed.

(** What the session keeps of the counters received. *)
Record tracks (s : NoiseSession) (acc : list Z) : Prop := {
  tracks_words : words_ok (replay_bitmap s);
  tracks_high : replay_high_water s = highest acc;
  tracks_bits : forall d, 0 <= d < REPLAY_WINDOW ->
    window_bit (replay_bitmap s) d = received acc (highest acc - d)
}.

Lemma tracks_new keys : tracks (new_session keys) [].
Proof.
  split; [|done|].
  - split; [done|]. apply Forall_replicate. unfold word_ok. lia.
  - intros d Hd. unfold window_bit, word_at, new_session, REPLAY_WINDOW in *. cbn [replay_bitmap].
    rewrite lookup_replicate_2 by (Z.to_euclidean_division_equations; lia). apply Z.testbit_0_l.
Qed.

Lemma land_mask w b : 0 <= b -> negb (Z.land w (Z.shiftl 1 b) =? 0) = Z.testbit w b.
Proof.
  intros Hb. rewrite Z.shiftl_1_l. destruct (Z.testbit w b) eqn:E.
  - apply negb_true_iff, Z.eqb_neq. intros H0. assert (Z.testbit (Z.land w (2 ^ b)) b = false) as H1
      by (rewrite H0; apply Z.testbit_0_l). rewrite Z.land_spec, E, Z.pow2_bits_true in H1 by lia. done.
  - apply negb_false_iff, Z.eqb_eq. apply Z.bits_inj'. intros i Hi. rewrite Z.land_spec, Z.testbit_0_l.
    destruct (Z.eqb_spec b i) as [<- |Hn]; [by rewrite E|]. rewrite Z.pow2_bits_false by lia. apply andb_false_r.
Qed.

Lemma is_replay_spec s acc c : tracks s acc -> 0 <= c -> is_replay c s = negb (fresh acc c).
Proof.
  intros [Hw Hh Hb] Hc. unfold is_replay, fresh. rewrite Hh.
  destruct (Z.ltb_spec (highest acc) c).
  { rewrite received_above by done. unfold REPLAY_WINDOW. destruct (Z.ltb_spec (highest acc - c) 2048); [done|lia]. }
  destruct (Z.leb_spec REPLAY_WINDOW (highest acc - c)), (Z.ltb_spec (highest acc - c) REPLAY_WINDOW); try lia.
  rewrite land_mask by (apply Z.mod_pos_bound; lia). rewrite andb_true_r, negb_involutive.
  specialize (Hb (highest acc - c) ltac:(lia)). unfold window_bit in Hb. rewrite Hb. f_equal. lia.
Qed.

Lemma mark_received_tracks s acc c :
  tracks s acc -> 0 <= c -> fresh acc c = true -> tracks (mark_received c s) (c :: acc).
Proof.
  intros [Hw Hh Hb] Hc Hf. unfold mark_received. rewrite Hh. pose proof (highest_nonneg acc).
  destruct (Z.ltb_spec (highest acc) c) as [Hup|Hup].
  - set (bm := if REPLAY_WINDOW <=? c - highest acc then _ else _).
    assert (words_ok bm /\ forall d, 0 <= d < REPLAY_WINDOW -> window_bit bm d = received acc (c - d)) as [Hwb Hbb].
    { unfold bm. destruct (Z.leb_spec REPLAY_WINDOW (c - highest acc)).
      - destruct (tracks_new (mkTransportKeys [] [] [])) as [H1 _ H3]. split; [done|]. intros d Hd.
        etransitivity; [exact (H3 d Hd)|]. symmetry. apply received_above. lia.
      - split; [by apply shift_window_ok; [|lia]|]. intros d Hd. rewrite shift_window_bit by (done || lia).
        destruct (Z.ltb_spec d (c - highest acc)); simpl; [symmetry; apply received_above; lia|].
        rewrite Hb by lia. f_equal. lia. }
    assert (highest (c :: acc) = c) as Eh by (simpl; lia).
    split; [apply or_word_ok; [done|unfold word_ok; lia]|by rewrite Eh|].
    intros d Hd. rewrite Eh. change (or_word 0 1 bm) with (or_word (Z.to_nat (0 / 64)) (Z.shiftl 1 0) bm).
    cbn [set_replay replay_bitmap]. rewrite or_word_bit by (apply Hwb || (unfold REPLAY_WINDOW in *; lia) || done).
    rewrite Hbb by done. simpl. f_equal. apply eq_true_iff_eq. rewrite !Z.eqb_eq. lia.
  - unfold fresh in Hf. apply andb_true_iff in Hf as [_ Hlt%Z.ltb_lt].
    assert (highest (c :: acc) = highest acc) as Eh by (simpl; unfold highest in *; lia).
    split; [apply or_word_ok; [done|apply mask_ok, Z.mod_pos_bound; lia]|by rewrite Eh|].
    intros d Hd. rewrite Eh. cbn [set_replay replay_bitmap].
    rewrite or_word_bit by (apply Hw || lia || done). rewrite Hb by done. simpl. f_equal.
    apply eq_true_iff_eq. rewrite !Z.eqb_eq. lia.
Qed.

Section Sessions.
Context `{NoiseCrates}.

Definition counter_of (packet : list byte) : Z := le_value (take 8 packet).

(** [decrypt] over the reference. *)
Definition spec_decrypt (key packet : list byte) (acc : list Z) : result anyhow (list byte) * list Z :=
  if Nat.ltb (length packet) (8 + TAG_LEN) then (Err (Bail "packet too short"), acc)
  else if fresh acc (counter_of packet) then
    match decrypt key (counter_of packet) [] (drop 8 packet) with
    | Ok plaintext => (Ok plaintext, counter_of packet :: acc)
    | Err e => (Err e, acc)
    end
  else (Err (Bail "replayed packet"), acc).

Fixpoint receive_all (packets : list (list byte)) (s : NoiseSession) : list (result anyhow (list byte)) :=
  match packets with
  | [] => []
  | p :: packets => let '(r, s) := session_decrypt p s in r :: receive_all packets s
  end.
Fixpoint spec_receive_all (key : list byte) (packets : list (list byte)) (acc : list Z)
    : list (result anyhow (list byte)) :=
  match packets with
  | [] => []
  | p :: packets => let '(r, acc) := spec_decrypt key p acc in r :: spec_receive_all key packets acc
  end.

Lemma le_value_nonneg l : 0 <= le_value l.
Proof. induction l as [|b l IH]; simpl; lia. Qed.

Lemma session_decrypt_spec packet s acc :
  tracks s acc ->
  exists acc', spec_decrypt (receive_key s) packet acc = ((session_decrypt packet s).1, acc') /\
    tracks (session_decrypt packet s).2 acc' /\ receive_key (session_decrypt packet s).2 = receive_key s.
Proof.
  intros Ht. unfold session_decrypt, spec_decrypt. destruct (Nat.ltb _ _); [by exists acc|].
  pose proof (le_value_nonneg (take 8 packet)). rewrite (is_replay_spec s acc) by done. fold (counter_of packet).
  destruct (fresh acc (counter_of packet)) eqn:Ef; simpl; [|by exists acc].
  destruct (decrypt _ _ _ _) as [m|e]; [|by exists acc]. eexists. split; [done|].
  split; [by apply mark_received_tracks|]. unfold mark_received. simpl. by destruct (_ <? _).
Qed.

Lemma receive_all_spec packets s acc :
  tracks s acc -> receive_all packets s = spec_receive_all (receive_key s) packets acc.
Proof.
  revert s acc. induction packets as [|p packets IH]; intros s acc Ht; [done|]. simpl.
  destruct (session_decrypt_spec p s acc Ht) as (acc' & -> & Ht' & Hk).
  destruct (session_decrypt p s) as [r s']. simpl in *. f_equal. rewrite (IH s' acc' Ht'). by rewrite Hk.
Qed.

(** ** Sending *)

Fixpoint send_all (msgs : list (list byte)) (s : NoiseSession) : list (list byte) :=
  match msgs with
  | [] => []
  | m :: msgs => let '(p, s) := session_encrypt m s in p :: send_all msgs s
  end.
Definition packet (key : list byte) (c : Z) (m : list byte) : list byte := le_bytes 8 c ++ encrypt key c [] m.

Lemma send_all_lookup msgs s i m :
  0 <= send_counter s -> send_counter s + Z.of_nat (length msgs) <= 2 ^ 64 -> msgs !! i = Some m ->
  send_all msgs s !! i = Some (packet (send_key s) (send_counter s + Z.of_nat i) m).
Proof.
  revert s i. induction msgs as [|m' msgs IH]; intros s i H0 Hl Hi; [done|]. simpl in Hl.
  destruct i as [|i]; simpl in *; [simplify_eq; by rewrite Z.add_0_r|].
  assert (i < length msgs)%nat by (by eapply lookup_lt_Some).
  rewrite (IH _ _); cbn [send_counter send_key]; [|apply Z.mod_pos_bound; lia| |done].
  - do 2 f_equal. rewrite Z.mod_small by lia. lia.
  - rewrite Z.mod_small by lia. lia.
Qed.

(** What the receiver answers when the packets of [msgs] arrive in the order of
    [schedule], lost, repeated and reordered at will. *)
Fixpoint expected (msgs : list (list byte)) (schedule : list nat) (acc : list Z) : list (result anyhow (list byte)) :=
  match schedule with
  | [] => []
  | i :: schedule =>
      if fresh acc (Z.of_nat i) then Ok (default [] (msgs !! i)) :: expected msgs schedule (Z.of_nat i :: acc)
      else Err (Bail "replayed packet") :: expected msgs schedule acc
  end.
Definition arrivals (packets : list (list byte)) (schedule : list nat) : list (list byte) :=
  (fun i => default [] (packets !! i)) <$> schedule.

Context `{!NoiseLaws}.

Lemma decrypt_encrypt k c ad m : decrypt k c ad (encrypt k c ad m) = Ok m.
Proof.
  unfold decrypt, encrypt. rewrite aead_seal_length, aead_open_seal.
  destruct (Nat.ltb_spec (length m + TAG_LEN) TAG_LEN); [lia|done].
Qed.

Lemma spec_decrypt_packet key c m acc :
  0 <= c < 2 ^ 64 ->
  spec_decrypt key (packet key c m) acc =
    if fresh acc c then (Ok m, c :: acc) else (Err (Bail "replayed packet"), acc).
Proof.
  intros Hc. unfold spec_decrypt, packet, counter_of.
  rewrite length_app, le_bytes_length. unfold encrypt at 1. rewrite aead_seal_length.
  destruct (Nat.ltb_spec (8 + (length m + TAG_LEN)) (8 + TAG_LEN)); [lia|].
  rewrite take_app_le, take_ge, drop_app_ge, le_bytes_length by (rewrite le_bytes_length; lia).
  rewrite le_value_bytes, Z.mod_small by (change (256 ^ Z.of_nat 8) with (2 ^ 64); lia).
  rewrite Nat.sub_diag, drop_0, decrypt_encrypt. done.
Qed.

Lemma receive_arrivals ki kr msgs schedule :
  tk_send_key ki = tk_receive_key kr -> Z.of_nat (length msgs) <= 2 ^ 64 ->
  Forall (fun i => (i < length msgs)%nat) schedule ->
  receive_all (arrivals (send_all msgs (new_session ki)) schedule) (new_session kr) = expected msgs schedule [].
Proof.
  intros Hk Hl Hs. rewrite (receive_all_spec _ _ [] (tracks_new kr)). simpl receive_key. unfold arrivals. generalize (@nil Z) as acc.
  induction Hs as [|i schedule Hi Hs IH]; intros acc; [done|]. rewrite fmap_cons. cbn [spec_receive_all expected].
  destruct (lookup_lt_is_Some_2 msgs i Hi) as [m Hm].
  rewrite (send_all_lookup msgs (new_session ki) i m); [|simpl; lia|simpl; lia|done].
  cbn [default new_session send_key send_counter]. unfold default, from_option, id. rewrite Z.add_0_l, Hk, spec_decrypt_packet by lia. rewrite Hm. destruct (fresh acc (Z.of_nat i)); by rewrite IH.
Qed.

(** ** The handshake *)

Lemma read_payload_encrypt k h m msg :
  read_payload k h (encrypt k 0 h m) msg = Ok (mix_hash h (encrypt k 0 h m)).
Proof.
  unfold read_payload. destruct (encrypt k 0 h m) as [|b l] eqn:E.
  - assert (length (encrypt k 0 h m) = 0%nat) as Hz by (by rewrite E). unfold encrypt in Hz.
    rewrite aead_seal_length in Hz. unfold TAG_LEN in Hz. lia.
  - rewrite <- E, decrypt_encrypt. done.
Qed.

Lemma dh_agree a b : dh a (x25519_public b) = dh b (x25519_public a).
Proof. unfold dh. by rewrite x25519_agree. Qed.

Lemma take_public k l : take 32 (x25519_public k ++ l) = x25519_public k.
Proof. rewrite <- (x25519_public_length k) at 1. apply take_app_length. Qed.
Lemma drop_public k l : drop 32 (x25519_public k ++ l) = l.
Proof. rewrite <- (x25519_public_length k). apply drop_app_length. Qed.

Lemma handshake_agrees (si sr ei er p1 p2 : list byte) :
  exists reply ki kr,
    responder_complete sr (initiator_begin si (x25519_public sr) ei p1).1 er p2 = Ok (reply, kr, x25519_public si) /\
    initiator_finish (initiator_begin si (x25519_public sr) ei p1).2 reply = Ok ki /\
    tk_send_key ki = tk_receive_key kr /\ tk_send_key kr = tk_receive_key ki /\
    tk_handshake_hash ki = tk_handshake_hash kr.
Proof.
  unfold initiator_begin. destruct initialize_symmetric as [ck0 h0] eqn:E0.
  set (h1 := mix_hash (mix_hash h0 (x25519_public sr)) (x25519_public ei)).
  destruct (noise_hkdf ck0 (dh ei (x25519_public sr))) as [ck1 k1] eqn:E1.
  set (es := encrypt k1 0 h1 (x25519_public si)).
  destruct (noise_hkdf ck1 (dh si (x25519_public sr))) as [ck2 k2] eqn:E2.
  set (h2 := mix_hash h1 es). set (ep := encrypt k2 0 h2 p1). cbn [fst snd].
  assert (length es = (32 + TAG_LEN)%nat) as Hes
    by (unfold es, encrypt; by rewrite aead_seal_length, x25519_public_length).
  unfold responder_complete. rewrite !length_app, x25519_public_length, Hes.
  destruct (Nat.ltb_spec (32 + (32 + TAG_LEN + length ep)) (32 + 32 + TAG_LEN)); [lia|]. cbn [negb].
  rewrite take_public, drop_public. rewrite <- Hes, take_app_length.
  assert (drop (32 + 32 + TAG_LEN) (x25519_public ei ++ es ++ ep) = ep) as ->.
  { rewrite app_assoc. replace (32 + 32 + TAG_LEN)%nat with (length (x25519_public ei ++ es));
      [apply drop_app_length|]. rewrite length_app, x25519_public_length, Hes. lia. }
  rewrite E0. fold h1. rewrite (dh_agree sr ei), E1. unfold context, es at 1. rewrite decrypt_encrypt.
  cbn [map_err]. rewrite x25519_public_length, Nat.eqb_refl. fold h2.
  rewrite (dh_agree sr si), E2. unfold ep at 1. rewrite read_payload_encrypt. fold ep.
  set (h3 := mix_hash h2 ep). set (h4 := mix_hash h3 (x25519_public er)).
  destruct (noise_hkdf ck2 (dh er (x25519_public ei))) as [ck3 k3] eqn:E3.
  destruct (noise_hkdf ck3 (dh ei (x25519_public sr))) as [ck4 k4] eqn:E4.
  destruct (noise_hkdf ck4 []) as [ka kb] eqn:E5.
  set (er' := encrypt k4 0 h4 p2).
  eexists _, _, _. split; [reflexivity|]. unfold initiator_finish. cbn [is_h is_ck is_local_ephemeral is_remote_static].
  rewrite length_app, x25519_public_length. destruct (Nat.ltb_spec (32 + length er') 32); [lia|]. cbn [negb].
  rewrite take_public, drop_public. fold h4. rewrite (dh_agree ei er), E3, E4. unfold er' at 1. rewrite read_payload_encrypt. fold er'. rewrite E5.
  split; [reflexivity|done].
Qed.

(** C36: For all static and ephemeral keys and payloads the handshake completes:
    the responder learns the static key of the initiator, both derive the same
    keys and the same handshake hash; and after it the packets of either side,
    lost, repeated and reordered at will by the network, are answered with their
    own text the first time they arrive and refused afterwards, the only other
    loss being a packet that arrives 2048 or more behind the highest. *)
Theorem pin_channel (si sr ei er p1 p2 : list byte) :
  exists reply ki kr,
    responder_complete sr (initiator_begin si (x25519_public sr) ei p1).1 er p2 = Ok (reply, kr, x25519_public si) /\
    initiator_finish (initiator_begin si (x25519_public sr) ei p1).2 reply = Ok ki /\
    tk_handshake_hash ki = tk_handshake_hash kr /\
    forall (msgs : list (list byte)) (schedule : list nat),
      Z.of_nat (length msgs) <= 2 ^ 64 -> Forall (fun i => (i < length msgs)%nat) schedule ->
      receive_all (arrivals (send_all msgs (new_session ki)) schedule) (new_session kr) = expected msgs schedule [] /\
      receive_all (arrivals (send_all msgs (new_session kr)) schedule) (new_session ki) = expected msgs schedule [].
Proof.
  destruct (handshake_agrees si sr ei er p1 p2) as (reply & ki & kr & Hr & Hi & Hs & Hs' & Hh).
  exists reply, ki, kr. split_and!; [done..|]. intros msgs schedule Hl Hsch.
  split; by apply receive_arrivals.
Qed.
End Sessions.

(** C27: Whatever packets arrive, forged ones included, a session answers as if
    it kept the list of all counters it accepted and took a counter exactly when
    it is not in the list and less than 2048 behind the highest; the 32 words of
    its bitmap and the loops that shift them are that list. *)
Theorem session_refines_window `{NoiseCrates} (keys : TransportKeys) (packets : list (list byte)) :
  receive_all packets (new_session keys) = spec_receive_all (tk_receive_key keys) packets [].
Proof. apply (receive_all_spec packets (new_session keys) [] (tracks_new keys)). Qed.

(** ** An instance *)

Definition xor_bytes (a b : byte) : byte := u8 (Z.lxor (Z.of_nat (code a)) (Z.of_nat (code b))).
Definition toy_tag (k n ad m : list byte) : list byte := take 16 (toy_hash (k ++ n ++ ad ++ m)).
#[local] Instance toy_noise : NoiseCrates := {|
  blake2s := toy_hash;
  x25519_public := toy_hash;
  x25519 := fun s p => zip_with xor_bytes (toy_hash s) p;
  hkdf_sha256 := fun m => m;
  aead_seal := fun k n ad m => m ++ toy_tag k n ad m;
  aead_open := fun k n ad c =>
    let m := take (length c - 16) c in
    if bool_decide (drop (length c - 16) c = toy_tag k n ad m) then Some m else None
|}.

Lemma toy_tag_length k n ad m : length (toy_tag k n ad m) = 16%nat.
Proof. unfold toy_tag, toy_hash. rewrite length_take, le_bytes_length. lia. Qed.

#[local] Instance toy_noise_laws : NoiseLaws.
Proof.
  split; cbn [blake2s x25519_public x25519 hkdf_sha256 aead_seal aead_open toy_noise].
  - intros m. apply le_bytes_length.
  - intros m. apply le_bytes_length.
  - intros a b. rewrite <- zip_with_flip. apply zip_with_ext; [|done..]. intros x y. unfold flip, xor_bytes.
    by rewrite Z.lxor_comm.
  - intros k n ad m. by rewrite length_app, toy_tag_length.
  - intros k n ad m. rewrite length_app, toy_tag_length, Nat.add_sub, take_app_length, drop_app_length.
    by rewrite bool_decide_eq_true_2.
Qed.

Lemma pin_channel_witness :
  exists reply ki kr,
    @responder_complete toy_noise [] (@initiator_begin toy_noise [u8 1] (@x25519_public toy_noise []) [u8 2] []).1
      [u8 3] [] = Ok (reply, kr, @x25519_public toy_noise [u8 1]) /\
    @initiator_finish toy_noise (@initiator_begin toy_noise [u8 1] (@x25519_public toy_noise []) [u8 2] []).2 reply =
      Ok ki /\
    @receive_all toy_noise (arrivals (@send_all toy_noise [bytes "a"; bytes "b"] (new_session ki)) [1%nat; 0%nat; 1%nat])
      (new_session kr) = [Ok (bytes "b"); Ok (bytes "a"); Err (Bail "replayed packet")].
Proof.
  destruct (@pin_channel toy_noise toy_noise_laws [u8 1] [] [u8 2] [u8 3] [] []) as (reply & ki & kr & Hr & Hi & _ & Hd).
  exists reply, ki, kr. split; [exact Hr|]. split; [exact Hi|].
  etransitivity; [apply (Hd [bytes "a"; bytes "b"] [1%nat; 0%nat; 1%nat])|vm_compute; reflexivity].
  - simpl. lia.
  - repeat constructor; simpl; lia.
Defined.
