(* ===== verification/PinWire.v ===== *)
(** * Signed netmaps

    [protocol/src/pin.rs], [gateway/src/identity.rs] and [pins::sign_netmap]: a
    netmap as JSON, its canonical bytes and the Ed25519 signature over them.
    The text of a JSON value ([serde_json]) and Ed25519 come from crates and are
    the operations of [WireCrates]; hexadecimal text is that of [Crates].  An
    object is the list of its entries, with distinct keys; the numbers of the
    types signed here are integers. *)

From S2P Require Import Prelude Db RustStr Merkle Pins.
From stdpp Require Import sorting.
From Stdlib Require Import Ascii.

Open Scope string_scope.
Open Scope list_scope.
Open Scope Z_scope.

(** ** JSON values *)

Inductive Json : Type :=
| JNull
| JBool (b : bool)
| JNumber (z : Z)
| JString (s : string)
| JArray (l : list Json)
| JObject (entries : list (string * Json)).

Definition key_le (a b : string * Json) : Prop := String.leb a.1 b.1 = true.
#[export] Instance key_le_dec a b : Decision (key_le a b).
Proof. unfold key_le. apply _. Defined.

(** The values are sorted first and the keys then, which no comparison sees. *)
Fixpoint sort_json (value : Json) : Json :=
  match value with
  | JObject map => JObject (merge_sort key_le (List.map (fun e => (e.1, sort_json e.2)) map))
  | JArray items => JArray (List.map sort_json items)
  | other => other
  end.

(** ** The derived [Serialize]: fields in order, names in camel case *)

Definition optional (key : string) (o : option Json) : list (string * Json) :=
  match o with Some v => [(key, v)] | None => [] end.
Definition endpoint_value (e : PinEndpoint) : Json :=
  JObject [("kind", JString (pe_kind e)); ("addr", JString (pe_addr e))].
Definition member_value (m : PinNetmapMember) : Json :=
  JObject ([("deviceId", JString (nm_device_id m)); ("nodePubkey", JString (nm_node_pubkey m));
            ("wgPubkey", JString (nm_wg_pubkey m))] ++
           optional "displayName" (JString <$> nm_display_name m) ++
           [("servesModels", JBool (nm_serves_models m))] ++
           optional "offersExit" (if nm_offers_exit m then Some (JBool true) else None) ++
           [("disabled", JBool (nm_disabled m));
            ("endpoints", JArray (endpoint_value <$> nm_endpoints m));
            ("loadedModels", JArray (JString <$> nm_loaded_models m))] ++
           optional "lastSeen" (JNumber <$> nm_last_seen m)).
Definition netmap_value (n : PinNetmap) : Json :=
  JObject [("pinId", JString (n_pin_id n)); ("name", JString (n_name n)); ("generation", JNumber (n_generation n));
           ("issuedAt", JNumber (n_issued_at n)); ("members", JArray (member_value <$> n_members n))].

(** ** The derived [Deserialize] *)

Definition field (key : string) (o : list (string * Json)) : option Json :=
  snd <$> List.find (fun e => String.eqb e.1 key) o.
Definition as_string (j : Json) : option string := match j with JString s => Some s | _ => None end.
Definition as_bool (j : Json) : option bool := match j with JBool b => Some b | _ => None end.
Definition as_i64 (j : Json) : option Z :=
  match j with JNumber z => if decide (in_i64 z) then Some z else None | _ => None end.
Definition as_array {A} (f : Json -> option A) (j : Json) : option (list A) :=
  match j with JArray l => mapM f l | _ => None end.
(** [Option<T>]: [null] is [None]. *)
Definition as_option {A} (f : Json -> option A) (j : Json) : option (option A) :=
  match j with JNull => Some None | _ => Some <$> f j end.
(** A field of its own, and one with [#[serde(default)]]. *)
Definition required {A} (key : string) (f : Json -> option A) (o : list (string * Json)) : option A :=
  field key o ≫= f.
Definition defaulted {A} (key : string) (d : A) (f : Json -> option A) (o : list (string * Json)) : option A :=
  match field key o with Some j => f j | None => Some d end.

Definition endpoint_of (j : Json) : option PinEndpoint :=
  match j with
  | JObject o => k ← required "kind" as_string o; a ← required "addr" as_string o; Some (mkPinEndpoint k a)
  | _ => None
  end.
Definition member_of (j : Json) : option PinNetmapMember :=
  match j with
  | JObject o =>
      device ← required "deviceId" as_string o;
      node ← required "nodePubkey" as_string o;
      wg ← defaulted "wgPubkey" "" as_string o;
      name ← defaulted "displayName" None (as_option as_string) o;
      serves ← required "servesModels" as_bool o;
      exit ← defaulted "offersExit" false as_bool o;
      disabled ← required "disabled" as_bool o;
      endpoints ← defaulted "endpoints" [] (as_array endpoint_of) o;
      models ← defaulted "loadedModels" [] (as_array as_string) o;
      seen ← defaulted "lastSeen" None (as_option as_i64) o;
      Some (mkPinNetmapMember device node wg name serves exit disabled endpoints models seen)
  | _ => None
  end.
Definition netmap_of (j : Json) : option PinNetmap :=
  match j with
  | JObject o =>
      id ← required "pinId" as_string o;
      name ← required "name" as_string o;
      gen ← required "generation" as_i64 o;
      issued ← required "issuedAt" as_i64 o;
      members ← required "members" (as_array member_of) o;
      Some (mkPinNetmap id name gen issued members)
  | _ => None
  end.

(** ** Signatures *)

Class WireCrates : Type := {
  json_text : Json -> list byte;
  json_parse : list byte -> option Json;
  SigningKey : Type;
  VerifyingKey : Type;
  verifying_key : SigningKey -> VerifyingKey;
  vk_bytes : VerifyingKey -> list byte;
  vk_from_bytes : list byte -> option VerifyingKey;
  sign : SigningKey -> list byte -> list byte;
  vk_verify : VerifyingKey -> list byte -> list byte -> bool
}.
Class WireLaws `{WireCrates} `{Crates} : Prop := {
  json_parse_text : forall j, json_parse (json_text j) = Some j;
  vk_bytes_length : forall v, length (vk_bytes v) = 32%nat;
  vk_from_bytes_bytes : forall v, vk_from_bytes (vk_bytes v) = Some v;
  sign_length : forall k m, length (sign k m) = 64%nat;
  sign_verifies : forall k m, vk_verify (verifying_key k) m (sign k m) = true;
  hex_decode_case : forall s t, map_str lower s = map_str lower t -> hex_decode s = hex_decode t
}.

Record SignedPinNetmap : Type := mkSignedPinNetmap {
  sn_netmap : PinNetmap;
  sn_gateway_pubkey : string;
  sn_signature : string
}.
Definition NETMAP_MAX_AGE_SECONDS : Z := 24 * 60 * 60.

Definition eq_ignore_ascii_case (a b : string) : bool := bool_decide (map_str lower a = map_str lower b).

Section Wire.
Context `{WireCrates} `{Crates}.

Definition canonical_json (value : Json) : list byte := json_text (sort_json value).

Definition public_key_hex (k : SigningKey) : string := hex_encode (vk_bytes (verifying_key k)).
Definition sign_hex (k : SigningKey) (data : list byte) : string := hex_encode (sign k data).
Definition sign_netmap (netmap : PinNetmap) (k : SigningKey) : SignedPinNetmap :=
  let message := canonical_json (netmap_value netmap) in
  mkSignedPinNetmap netmap (public_key_hex k) (sign_hex k message).

Definition verify (pinned_gateway_pubkey : string) (s : SignedPinNetmap) : bool :=
  if negb (eq_ignore_ascii_case (sn_gateway_pubkey s) pinned_gateway_pubkey) then false
  else
    match hex_decode (sn_gateway_pubkey s) with
    | Some pubkey_bytes =>
        if negb (Nat.eqb (length pubkey_bytes) 32) then false
        else
          match vk_from_bytes pubkey_bytes with
          | Some vk =>
              match hex_decode (sn_signature s) with
              | Some sig_bytes =>
                  if negb (Nat.eqb (length sig_bytes) 64) then false
                  else vk_verify vk (canonical_json (netmap_value (sn_netmap s))) sig_bytes
              | None => false
              end
          | None => false
          end
    | None => false
    end.

Definition is_stale (now_unix : Z) (s : SignedPinNetmap) : bool :=
  NETMAP_MAX_AGE_SECONDS <? i64_sub now_unix (n_issued_at (sn_netmap s)).
End Wire.
