(* ===== verification/PinWireFacts.v ===== *)
(** * Canonical bytes and what a signature binds

    Canonical JSON does not depend on the order of fields, can be read back, and
    a netmap a device accepts is one whose canonical bytes the gateway signed. *)

From S2P Require Import Prelude Db RustStr Merkle Pins PinWire.
From stdpp Require Import sorting.
From Stdlib Require Import Ascii.

Open Scope string_scope.
Open Scope list_scope.
Open Scope Z_scope.

(** ** Values up to the order of fields *)

Section JsonInd.
Context (P : Json -> Prop) (Hnull : P JNull) (Hbool : forall b, P (JBool b)) (Hnum : forall z, P (JNumber z))
  (Hstr : forall s, P (JString s)) (Harr : forall l, Forall P l -> P (JArray l))
  (Hobj : forall o, Forall (fun e => P e.2) o -> P (JObject o)).
Fixpoint Json_nested_ind (j : Json) : P j :=
  match j with
  | JNull => Hnull
  | JBool b => Hbool b
  | JNumber z => Hnum z
  | JString s => Hstr s
  | JArray l => Harr l ((fix go l : Forall P l :=
      match l with [] => Forall_nil_2 _ | j :: l => Forall_cons_2 _ _ _ (Json_nested_ind j) (go l) end) l)
  | JObject o => Hobj o ((fix go o : Forall (fun e : string * Json => P e.2) o :=
      match o with [] => Forall_nil_2 _ | e :: o => Forall_cons_2 _ e o (Json_nested_ind e.2) (go o) end) o)
  end.
End JsonInd.

Unset Elimination Schemes.
(** The same value: objects list the same entries in some order. *)
Inductive json_eqv : Json -> Json -> Prop :=
| eqv_refl j : json_eqv j j
| eqv_array l l' : Forall2 json_eqv l l' -> json_eqv (JArray l) (JArray l')
| eqv_object o o' o'' :
    Forall2 (fun e e' => e.1 = e'.1 /\ json_eqv e.2 e'.2) o o' -> Permutation o' o'' ->
    json_eqv (JObject o) (JObject o'').
Set Elimination Schemes.

(** No object lists a key twice, as in [serde_json::Map]. *)
Fixpoint distinct_keys (j : Json) : Prop :=
  match j with
  | JArray l => Forall id (List.map distinct_keys l)
  | JObject o => NoDup o.*1 /\ Forall id (List.map (fun e => distinct_keys e.2) o)
  | _ => True
  end.

(** ** Sorting by key *)

Lemma leb_cons a b s t :
  String.leb (String.String a s) (String.String b t) = true <->
  (N_of_ascii a < N_of_ascii b)%N \/ a = b /\ String.leb s t = true.
Proof.
  unfold String.leb. simpl. unfold Ascii.compare. destruct (N.compare_spec (N_of_ascii a) (N_of_ascii b)) as [E|E|E].
  - assert (a = b) as -> by (rewrite <- (ascii_N_embedding a), <- (ascii_N_embedding b); by rewrite E).
    split; [intros; by right|]. intros [?|[_ ?]]; [lia|done].
  - split; [intros _; by left|done].
  - split; [done|]. intros [?|[-> _]]; lia.
Qed.

Lemma leb_trans a b c : String.leb a b = true -> String.leb b c = true -> String.leb a c = true.
Proof.
  revert b c. induction a as [|x a IH]; intros [|y b] [|z c] Hab Hbc; try done.
  rewrite leb_cons in *. destruct Hab as [?|[-> Hab]], Hbc as [?|[-> Hbc]]; [left; lia|by left|by left|].
  right. split; [done|]. by apply (IH b).
Qed.

#[local] Instance key_le_total : Total key_le.
Proof. intros a b. apply String.leb_total. Qed.
#[local] Instance key_le_trans : Transitive key_le.
Proof. intros a b c. apply leb_trans. Qed.

(** Lists with distinct keys that hold the same entries sort alike. *)
Lemma merge_sort_unique (o o' : list (string * Json)) :
  NoDup o.*1 -> Permutation o o' -> merge_sort key_le o = merge_sort key_le o'.
Proof.
  intros Hd Hp. apply (StronglySorted_unique_strong key_le); [|apply StronglySorted_merge_sort; apply _..|].
  - intros [k v] [k' v']. rewrite !merge_sort_Permutation, <- Hp. intros H1 H2 Hle Hge.
    assert (k = k') as <- by (by apply String.leb_antisym). f_equal.
    apply list_elem_of_lookup in H1 as [i Hi], H2 as [j Hj].
    assert (i = j) as <-; [|congruence].
    apply (NoDup_lookup o.*1 i j k Hd); rewrite list_lookup_fmap; [by rewrite Hi|by rewrite Hj].
  - by rewrite !merge_sort_Permutation.
Qed.

Definition sort_entry (e : string * Json) : string * Json := (e.1, sort_json e.2).

Lemma keys_sort_entry (o : list (string * Json)) : (List.map sort_entry o).*1 = o.*1.
Proof. induction o as [|[k v] o IH]; [done|]. cbn [List.map]. rewrite !fmap_cons. by rewrite IH. Qed.

Lemma sort_json_eqv a b : json_eqv a b -> distinct_keys a -> sort_json a = sort_json b.
Proof.
  revert b. induction a as [| | | |l IH|o IH] using Json_nested_ind; intros j' Hab Hd; inversion Hab; try done; subst.
  - simpl. f_equal. simpl in Hd. clear Hab. match goal with H : Forall2 json_eqv _ _ |- _ => rename H into H2 end.
    induction H2 as [|j j' l l' Hj H2 IH2]; [done|]. simpl in *.
    apply Forall_cons in IH as [IHj IHl], Hd as [Hdj Hdl]. f_equal; [by apply IHj|by apply IH2].
  - simpl. f_equal. destruct Hd as [Hn Hd].
    match goal with H : Forall2 _ _ _ |- _ => rename H into H2 end.
    assert (List.map sort_entry o = List.map sort_entry o') as E.
    { clear -H2 IH Hd. induction H2 as [|[k j] [k' j'] l l' [Hk Hj] H2 IH2]; [done|]. simpl in *. subst.
      apply Forall_cons in IH as [IHj IHl], Hd as [Hdj Hdl]. simpl in *.
      assert (sort_json j = sort_json j') as Ej by exact (IHj _ Hj Hdj).
      f_equal; [unfold sort_entry; simpl; by rewrite Ej|by apply IH2]. }
    fold sort_entry. change (fun e : string * Json => (e.1, sort_json e.2)) with sort_entry. rewrite E.
    apply merge_sort_unique.
    + rewrite <- E. by rewrite keys_sort_entry.
    + by apply Permutation_map.
Qed.

(** ** Reading a sorted value *)

Lemma field_Some k v (o : list (string * Json)) : NoDup o.*1 -> field k o = Some v <-> (k, v) ∈ o.
Proof.
  unfold field. induction o as [|[k' v'] o IH]; intros Hd.
  { split; [done|]. by intros ?%not_elem_of_nil. }
  rewrite fmap_cons in Hd. apply NoDup_cons in Hd as [Hk Hd]. simpl. rewrite elem_of_cons.
  destruct (String.eqb_spec k' k) as [-> |Hne]; simpl.
  - split; [intros [= ->]; by left|]. intros [[= ->]|Hin]; [done|]. destruct Hk.
    apply list_elem_of_fmap. by exists (k, v).
  - rewrite IH by done. split; [by right|]. intros [[= -> ->]|?]; done.
Qed.

Lemma field_perm k (o o' : list (string * Json)) : NoDup o.*1 -> Permutation o o' -> field k o = field k o'.
Proof.
  intros Hd Hp. assert (NoDup o'.*1) by (by rewrite <- Hp). apply option_eq. intros v.
  by rewrite !field_Some, Hp.
Qed.

Lemma field_sorted k (o : list (string * Json)) :
  NoDup o.*1 -> field k (merge_sort key_le (List.map (fun e => (e.1, sort_json e.2)) o)) = sort_json <$> field k o.
Proof.
  intros Hd. change (fun e : string * Json => (e.1, sort_json e.2)) with sort_entry.
  rewrite <- (field_perm k (List.map sort_entry o));
    [|by rewrite keys_sort_entry|by rewrite merge_sort_Permutation].
  clear Hd. unfold field. induction o as [|[k' v'] o IH]; [done|]. simpl. by destruct (String.eqb k' k).
Qed.

Lemma required_sorted {A} k (f : Json -> option A) o :
  NoDup o.*1 -> required k f (merge_sort key_le (List.map (fun e => (e.1, sort_json e.2)) o)) =
    required k (fun j => f (sort_json j)) o.
Proof. intros Hd. unfold required. rewrite field_sorted by done. by destruct (field k o). Qed.
Lemma defaulted_sorted {A} k (d : A) (f : Json -> option A) o :
  NoDup o.*1 -> defaulted k d f (merge_sort key_le (List.map (fun e => (e.1, sort_json e.2)) o)) =
    defaulted k d (fun j => f (sort_json j)) o.
Proof. intros Hd. unfold defaulted. rewrite field_sorted by done. by destruct (field k o). Qed.

Lemma as_array_sorted {A} (f : Json -> option A) (g : A -> Json) l :
  Forall (fun x => f (sort_json (g x)) = Some x) l -> as_array f (sort_json (JArray (g <$> l))) = Some l.
Proof.
  intros Hl. change (mapM f (sort_json <$> (g <$> l)) = Some l). rewrite <- list_fmap_compose.
  apply mapM_Some. induction Hl; constructor; done.
Qed.

(** [serde] writes and reads an [i64]. *)
Definition member_typed (m : PinNetmapMember) : Prop := forall t, nm_last_seen m = Some t -> in_i64 t.
Definition netmap_typed (n : PinNetmap) : Prop :=
  in_i64 (n_generation n) /\ in_i64 (n_issued_at n) /\ Forall member_typed (n_members n).

Ltac distinct := apply (bool_decide_unpack _); vm_compute; exact I.

Lemma endpoint_roundtrip e : endpoint_of (sort_json (endpoint_value e)) = Some e.
Proof. by destruct e. Qed.

Lemma strings_sorted l : as_array as_string (sort_json (JArray (JString <$> l))) = Some l.
Proof. apply as_array_sorted. by apply Forall_true. Qed.
Lemma endpoints_sorted l : as_array endpoint_of (sort_json (JArray (endpoint_value <$> l))) = Some l.
Proof. apply as_array_sorted, Forall_true, endpoint_roundtrip. Qed.

Lemma as_i64_typed z : in_i64 z -> as_i64 (JNumber z) = Some z.
Proof. intros Hz. unfold as_i64. by rewrite decide_True. Qed.

Lemma member_roundtrip m : member_typed m -> member_of (sort_json (member_value m)) = Some m.
Proof.
  destruct m as [dev node wg name serves exit disabled eps models seen]. unfold member_typed, member_value. cbn [nm_last_seen].
  intros Ht. match goal with |- context [JObject ?l] => set (o := l) end. cbn [sort_json member_of].
  assert (NoDup o.*1) as Hd by (unfold o; destruct name, exit, seen; distinct).
  rewrite !required_sorted, !defaulted_sorted by done. unfold o. clear o Hd.
  unfold required, defaulted, field, optional.
  destruct name, exit, seen as [t|]; cbn -[as_array sort_json as_i64];
    rewrite ?endpoints_sorted; cbn -[as_array sort_json as_i64]; rewrite ?strings_sorted; cbn -[as_i64];
    rewrite ?as_i64_typed by (by apply Ht); done.
Qed.

Lemma netmap_roundtrip n : netmap_typed n -> netmap_of (sort_json (netmap_value n)) = Some n.
Proof.
  destruct n as [id name gen issued members]. intros (Hg & Hi & Hm). unfold netmap_value. simpl in Hg, Hi, Hm.
  match goal with |- context [JObject ?l] => set (o := l) end. cbn [sort_json netmap_of].
  assert (NoDup o.*1) as Hd by (unfold o; distinct).
  assert (as_array member_of (sort_json (JArray (member_value <$> members))) = Some members) as Ha
    by (apply as_array_sorted; eapply Forall_impl; [exact Hm|apply member_roundtrip]).
  rewrite !required_sorted by done. unfold o, required, field. cbn -[as_array sort_json as_i64].
  change (sort_json (JNumber gen)) with (JNumber gen). change (sort_json (JNumber issued)) with (JNumber issued).
  rewrite !as_i64_typed by done. cbn -[as_array sort_json]. rewrite Ha. done.
Qed.

(** ** Signatures *)

Section Signatures.
Context `{WireCrates} `{Crates} `{!WireLaws} `{!CrateLaws}.

(** Canonical bytes belong to one netmap. *)
Lemma canonical_inj n n' :
  netmap_typed n -> netmap_typed n' ->
  canonical_json (netmap_value n) = canonical_json (netmap_value n') -> n = n'.
Proof.
  intros Hn Hn' E. unfold canonical_json in E.
  assert (sort_json (netmap_value n) = sort_json (netmap_value n')) as Es
    by (apply (inj Some); rewrite <- !json_parse_text; by rewrite E).
  apply (inj Some). by rewrite <- !netmap_roundtrip, Es.
Qed.

(** Verifying against the key of [k]. *)
Lemma verify_spec k s :
  verify (public_key_hex k) s = true <->
  eq_ignore_ascii_case (sn_gateway_pubkey s) (public_key_hex k) = true /\
  exists sig, hex_decode (sn_signature s) = Some sig /\ length sig = 64%nat /\
    vk_verify (verifying_key k) (canonical_json (netmap_value (sn_netmap s))) sig = true.
Proof.
  unfold verify. destruct (eq_ignore_ascii_case _ _) eqn:Ee; cbn [negb]; [|split; [done|by intros [? _]]].
  apply bool_decide_eq_true in Ee.
  rewrite (hex_decode_case _ _ Ee). unfold public_key_hex.
  rewrite hex_decode_encode, vk_bytes_length, vk_from_bytes_bytes. cbn [negb Nat.eqb].
  destruct (hex_decode (sn_signature s)) as [sig|]; [|split; [done|by intros (_ & ? & ? & _)]].
  destruct (Nat.eqb_spec (length sig) 64) as [El|El]; cbn [negb].
  - split; [intros Hv; split; [done|by exists sig]|]. by intros (_ & ? & [= <-] & _ & ?).
  - split; [done|]. by intros (_ & ? & [= <-] & ? & _).
Qed.

(** C29: A netmap the gateway signed verifies against the pinned key, written in
    upper or lower case; a netmap that verifies embeds that key and carries a
    valid signature of the gateway over its own canonical bytes; and a signature
    belongs to one netmap: if it verifies for two, the gateway key has accepted
    one signature for two different messages. *)
Theorem netmap_signature_binds (k : SigningKey) (n : PinNetmap) (pinned : string)
    (Hpinned : eq_ignore_ascii_case (public_key_hex k) pinned = true) :
  verify pinned (sign_netmap n k) = true /\
  (forall s, verify (public_key_hex k) s = true ->
     hex_decode (sn_gateway_pubkey s) = Some (vk_bytes (verifying_key k)) /\
     exists sig, hex_decode (sn_signature s) = Some sig /\
       vk_verify (verifying_key k) (canonical_json (netmap_value (sn_netmap s))) sig = true) /\
  (forall s s', netmap_typed (sn_netmap s) -> netmap_typed (sn_netmap s') -> sn_signature s = sn_signature s' ->
     verify (public_key_hex k) s = true -> verify (public_key_hex k) s' = true ->
     sn_netmap s = sn_netmap s' \/
     exists m m' sig, m <> m' /\ vk_verify (verifying_key k) m sig = true /\ vk_verify (verifying_key k) m' sig = true).
Proof.
  split_and!.
  - unfold verify, sign_netmap. cbn [sn_gateway_pubkey sn_signature sn_netmap]. rewrite Hpinned. cbn [negb].
    unfold public_key_hex, sign_hex. rewrite !hex_decode_encode, vk_bytes_length, vk_from_bytes_bytes, sign_length.
    apply sign_verifies.
  - intros s [Hc (sig & Hs & _ & Hv)]%verify_spec. apply bool_decide_eq_true in Hc. split.
    + rewrite (hex_decode_case _ _ Hc). apply hex_decode_encode.
    + by exists sig.
  - intros s s' Ht Ht' Es (_ & sig & Hs & _ & Hv)%verify_spec (_ & sig' & Hs' & _ & Hv')%verify_spec.
    rewrite Es, Hs' in Hs. injection Hs as <-.
    destruct (decide (canonical_json (netmap_value (sn_netmap s)) = canonical_json (netmap_value (sn_netmap s'))));
      [left; by apply canonical_inj|right]. by eexists _, _, _.
Qed.
End Signatures.

(** Canonical JSON does not depend on the order in which objects list their
    fields, at any depth: values that are the same up to that order, with no key
    twice in an object, have the same canonical bytes. *)
Theorem canonical_json_order_free `{WireCrates} (a b : Json) (Hab : json_eqv a b) (Hkeys : distinct_keys a) :
  canonical_json a = canonical_json b.
Proof. unfold canonical_json. by rewrite (sort_json_eqv a b). Qed.

(** ** An instance

    JSON text as the bits of a code number, and a keyed hash in the place of
    Ed25519, to run the definitions on. *)

Definition Tree : Type := gen_tree (bool + Z + string).
Fixpoint to_tree (j : Json) : Tree :=
  match j with
  | JNull => GenNode 0 []
  | JBool b => GenLeaf (inl (inl b))
  | JNumber z => GenLeaf (inl (inr z))
  | JString s => GenLeaf (inr s)
  | JArray l => GenNode 1 (List.map to_tree l)
  | JObject o => GenNode 2 (List.map (fun e => GenNode 3 [GenLeaf (inr e.1); to_tree e.2]) o)
  end.
Fixpoint of_tree (t : Tree) : Json :=
  match t with
  | GenLeaf (inl (inl b)) => JBool b
  | GenLeaf (inl (inr z)) => JNumber z
  | GenLeaf (inr s) => JString s
  | GenNode 1 l => JArray (List.map of_tree l)
  | GenNode 2 l => JObject (List.map (fun t =>
      match t with GenNode _ [GenLeaf (inr k); v] => (k, of_tree v) | _ => ("", JNull) end) l)
  | GenNode _ _ => JNull
  end.
Lemma of_to_tree j : of_tree (to_tree j) = j.
Proof.
  induction j as [| | | |l IH|o IH] using Json_nested_ind; try done; simpl; f_equal.
  - induction IH as [|j l Hj Hl IH]; [done|]. simpl. by rewrite Hj, IH.
  - induction IH as [|[k j] o Hj Ho IH]; [done|]. simpl in *. by rewrite Hj, IH.
Qed.

Fixpoint bits_of (p : positive) : list byte :=
  match p with xH => [] | xO p => u8 0 :: bits_of p | xI p => u8 1 :: bits_of p end.
Fixpoint of_bits (l : list byte) : positive :=
  match l with [] => xH | b :: l => if Ascii.eqb b (u8 0) then xO (of_bits l) else xI (of_bits l) end.
Lemma of_bits_of p : of_bits (bits_of p) = p.
Proof. induction p as [p IH|p IH|]; simpl; [| |done]; by rewrite IH. Qed.

Definition toy_digest (l : list byte) : list byte :=
  le_bytes 32 (foldl (fun acc c => Z.land (acc * 65537 + Z.of_nat (code c) + 1) (Z.ones 64)) 7 l).
Definition toy_signature (k : bool) (m : list byte) : list byte :=
  toy_digest (u8 (if k then 1 else 0) :: m) ++ toy_digest m.
Definition toy_key_bytes (k : bool) : list byte := replicate 32 (u8 (if k then 171 else 1)).
#[export] Instance toy_wire : WireCrates := {|
  json_text := fun j => bits_of (encode (to_tree j));
  json_parse := fun l => of_tree <$> decode (of_bits l);
  SigningKey := bool;
  VerifyingKey := bool;
  verifying_key := fun k => k;
  vk_bytes := toy_key_bytes;
  vk_from_bytes := fun l => if bool_decide (l = toy_key_bytes true) then Some true
                            else if bool_decide (l = toy_key_bytes false) then Some false else None;
  sign := toy_signature;
  vk_verify := fun k m sig => bool_decide (sig = toy_signature k m)
|}.

Lemma hex_value_lower c : hex_value (lower c) = hex_value c.
Proof. revert c. by_bytes. Qed.
Lemma unhex_lower l : unhex (lower <$> l) = unhex l.
Proof.
  enough (forall n l, (length l <= n)%nat -> unhex (lower <$> l) = unhex l) as Hn by by eapply Hn.
  clear l. induction n as [|n IH]; intros [|a [|b l]] Hl; simpl in *; try done; [lia|].
  unfold byte_of_hex. by rewrite !hex_value_lower, IH by lia.
Qed.

#[export] Instance toy_wire_laws : WireLaws.
Proof.
  split; cbn [json_text json_parse vk_bytes vk_from_bytes verifying_key sign vk_verify hex_decode toy_wire toy_crates].
  - intros j. rewrite of_bits_of, decode_encode. simpl. by rewrite of_to_tree.
  - intros v. apply length_replicate.
  - intros []; vm_compute; reflexivity.
  - intros k m. unfold toy_signature, toy_digest. by rewrite length_app, !le_bytes_length.
  - intros k m. by apply bool_decide_eq_true_2.
  - intros s t E. apply (f_equal bytes) in E. unfold map_str in E. rewrite !bytes_of_bytes in E.
    by rewrite <- (unhex_lower (bytes s)), <- (unhex_lower (bytes t)), E.
Qed.

Definition toy_netmap : PinNetmap :=
  mkPinNetmap "pin-1" "hq" 7 1750000000
    [mkPinNetmapMember "dev" "aa" "bb" (Some "Desk") true true false [mkPinEndpoint "lan" "10.0.0.2:1"] ["m"] None].

Lemma netmap_signature_binds_witness :
  verify (to_ascii_uppercase (public_key_hex true)) (sign_netmap toy_netmap true) = true.
Proof.
  refine (proj1 (netmap_signature_binds true toy_netmap (to_ascii_uppercase (public_key_hex true)) _)).
  vm_compute. reflexivity.
Defined.

Lemma canonical_json_order_free_witness :
  canonical_json (JObject [("b", JNull); ("a", JBool true)]) = canonical_json (JObject [("a", JBool true); ("b", JNull)]).
Proof.
  apply canonical_json_order_free.
  - apply (eqv_object _ [("b", JNull); ("a", JBool true)]); [|apply perm_swap].
    repeat constructor.
  - simpl. split; [distinct|repeat constructor].
Defined.
