(* ===== verification/PinHandlers.v ===== *)
(** * Private networks: the HTTP handlers

    [gateway/src/handlers/pins.rs]: who may do what to a network, and what is
    answered.  A handler runs over the database and may leave changes behind
    when it fails later on, so it is a state transformer with an error; the
    statements of [Pins] are called as the code calls them.  The clock, fresh
    identifiers, random numbers and the text of an SQL error are arguments. *)

From S2P Require Import Prelude Db RustStr Merkle Accounts ApiKeys F64 Registry Scheduler Pins Auth PinWire.
From stdpp Require Import sorting.

Open Scope string_scope.
Open Scope list_scope.
Open Scope Z_scope.

(** ** Handlers as computations *)

Definition Handler (A : Type) : Type := PinDb -> result GatewayError A * PinDb.
#[export] Instance handler_ret : MRet Handler := fun A a db => (Ok a, db).
#[export] Instance handler_bind : MBind Handler := fun A B k m db =>
  match m db with
  | (Ok a, db) => k a db
  | (Err e, db) => (Err e, db)
  end.
Definition fails {A} (e : GatewayError) : Handler A := fun db => (Err e, db).
(** Reading the database. *)
Definition reads {A} (f : PinDb -> result GatewayError A) : Handler A := fun db => (f db, db).
(** A statement that commits or rolls back, with the error mapped. *)
Definition runs {A} (err : anyhow -> GatewayError) (f : PinDb -> result anyhow (A * PinDb)) : Handler A := fun db =>
  match f db with Ok (a, db') => (Ok a, db') | Err e => (Err (err e), db) end.
Definition runs_ (err : anyhow -> GatewayError) (f : PinDb -> result anyhow PinDb) : Handler unit :=
  runs err (fun db => let? db' := f db in Ok (tt, db')).
(** A statement that cannot fail. *)
Definition writes (f : PinDb -> PinDb) : Handler unit := fun db => (Ok tt, f db).

(** ** State *)

Section State.
Context `{WireCrates}.
Record AppState : Type := mkAppState {
  st_db : option PinDb;
  st_registry : Registry;
  st_scheduler : SchedulerConfig;
  st_identity : option SigningKey;
  st_pin_join_limiter : PinJoinLimiter
}.
Definition set_db (x : option PinDb) (st : AppState) : AppState :=
  mkAppState x (st_registry st) (st_scheduler st) (st_identity st) (st_pin_join_limiter st).
Definition set_limiter (x : PinJoinLimiter) (st : AppState) : AppState :=
  mkAppState (st_db st) (st_registry st) (st_scheduler st) (st_identity st) x.

Definition require_pool (st : AppState) : result GatewayError PinDb :=
  ok_or (Other (Bail "db not initialized")) (st_db st).
(** A handler over the pool of the state. *)
Definition with_pool {A} (h : Handler A) (st : AppState) : result GatewayError A * AppState :=
  match require_pool st with
  | Ok db => let '(r, db) := h db in (r, set_db (Some db) st)
  | Err e => (Err e, st)
  end.
End State.

Definition require_device (principal : AuthPrincipal) : result GatewayError string :=
  ok_or (Unauthorized "PIN endpoints require a device token") (device_id principal).

Definition account_of (principal : AuthPrincipal) (db : PinDb) : option string :=
  match device_id principal with
  | Some d => account_user_id_for_device d (p_db db)
  | None => match principal with PApiKey _ a _ _ _ => Some a | _ => None end
  end.

Inductive PinActor : Type :=
| Staff (account : string) (role : PinRole)
| Member (dev : string).
Definition is_staff (a : PinActor) : bool := match a with Staff _ _ => true | Member _ => false end.

Definition unknown_network : GatewayError := NotFound "unknown network".

Definition resolve_actor (principal : AuthPrincipal) (pin_id : string) (db : PinDb) : result GatewayError PinActor :=
  match (a ← account_of principal db; r ← role_of pin_id a db; Some (Staff a r)) with
  | Some actor => Ok actor
  | None =>
      match device_id principal with
      | Some d =>
          if bool_decide (member_status pin_id d db = Some Active) then Ok (Member d) else Err unknown_network
      | None => Err unknown_network
      end
  end.

Definition require_admin_actor (principal : AuthPrincipal) (pin_id : string) (db : PinDb)
    : result GatewayError string :=
  let? actor := resolve_actor principal pin_id db in
  match actor with
  | Staff account Admin => Ok account
  | Staff _ _ | Member _ => Err (Forbidden "requires the admin role")
  end.
Definition require_staff_actor (principal : AuthPrincipal) (pin_id : string) (db : PinDb)
    : result GatewayError string :=
  let? actor := resolve_actor principal pin_id db in
  match actor with
  | Staff account _ => Ok account
  | Member _ => Err (Forbidden "requires the admin or modelrator role")
  end.

(** ** Requests and answers *)

Record MyPinsResponse : Type := mkMyPinsResponse {
  my_staff : list PinSummary;
  my_memberships : list PinMembershipSummary
}.
Record JoinReq : Type := mkJoinReq {
  jr_join_code : list Z;
  jr_display_name : option string;
  jr_node_pubkey : string
}.
Record PinDetail : Type := mkPinDetail {
  pd_pin_id : string;
  pd_name : string;
  pd_settings : PinSettings;
  pd_netmap_generation : Z;
  pd_created_at : Z;
  pd_your_role : string;
  pd_pending_count : option Z
}.
Record PatchMemberReq : Type := mkPatchMemberReq {
  pmr_display_name : option string;
  pmr_serves_models : option bool;
  pmr_disabled : option bool
}.
Record SettingsReq : Type := mkSettingsReq {
  sr_din_contribution_default : option bool;
  sr_priority_policy : option string
}.
Record ModelPolicyStatusReq : Type := mkModelPolicyStatusReq {
  mps_model_id : string;
  mps_applied_state : string;
  mps_error : option string
}.
Record SyncReq : Type := mkSyncReq {
  sq_endpoints : list PinEndpoint;
  sq_wg_pubkey : string;
  sq_loaded_models : list string;
  sq_known_generation : option Z;
  sq_offers_exit : option bool;
  sq_model_policy_status : list ModelPolicyStatusReq
}.
Record SyncResponse : Type := mkSyncResponse {
  sy_membership : string;
  sy_netmap : option SignedPinNetmap;
  sy_model_policy : list ModelPolicyEntry;
  sy_settings : option PinSettings
}.
Record ScheduleReq : Type := mkScheduleReq {
  sc_model : string;
  sc_ctx_estimate : option Z;
  sc_exclude : list string
}.
Record ScheduleResponse : Type := mkScheduleResponse {
  sc_device_id : string;
  sc_node_pubkey : string;
  sc_display_name : option string;
  sc_endpoints : list PinEndpoint
}.
Record UsageQuery : Type := mkUsageQuery {
  uq_from : option string;
  uq_to : option string;
  uq_by : option string
}.
Record UsageTotal : Type := mkUsageTotal {
  ut_key : string;
  ut_counts : UsageCounts
}.
Record UsageResponse : Type := mkUsageResponse {
  us_rows : list UsageRow;
  us_totals : list UsageTotal
}.

Definition role_text (r : PinRole) : string := match r with Admin => ROLE_ADMIN | Modelrator => ROLE_MODELRATOR end.
Definition status_text (s : MemberStatus) : string :=
  match s with Pending => "pending" | Active => "active" | Disabled => "disabled" | Removed => "removed" end.

(** ** The handlers *)

Section Handlers.
Context `{PinJson} `{WireCrates} `{Crates} (powf : f64 -> f64 -> f64) (sql_text : SqlError -> string).

(** [e.to_string()]. *)
Definition to_string (e : anyhow) : string := match e with Bail msg => msg | Sql e => sql_text e end.
Definition conflict (e : anyhow) : GatewayError := Conflict (to_string e).
Definition bad_request (e : anyhow) : GatewayError := BadRequest (to_string e).

Definition create_pin_handler (now : Z) (fresh_id : string) (rng : nat -> nat) (principal : AuthPrincipal)
    (name : string) : Handler Pin :=
  account ← reads (fun db =>
    ok_or (Forbidden "creating a network requires a device linked to a Teale account") (account_of principal db));
  runs Other (create_pin now fresh_id rng name account).

Definition list_pins (principal : AuthPrincipal) : Handler MyPinsResponse :=
  reads (fun db =>
    let staff := match account_of principal db with Some a => pins_for_account a db | None => [] end in
    let memberships := match device_id principal with Some d => pins_for_device d db | None => [] end in
    Ok (mkMyPinsResponse staff memberships)).

(** The answer is 202 with a body that is always the same. *)
Definition submitted : string := "submitted".
Definition join (now : Z) (principal : AuthPrincipal) (req : JoinReq) (st : AppState)
    : result GatewayError string * AppState :=
  match require_device principal with
  | Err e => (Err e, st)
  | Ok dev =>
      match require_pool st with
      | Err e => (Err e, st)
      | Ok db =>
          let '(allowed, limiter) := join_allow dev now (st_pin_join_limiter st) in
          let st := set_limiter limiter st in
          if negb allowed then (Ok submitted, st)
          else
            with_pool
              (found ← reads (fun db => Ok (find_by_join_code (jr_join_code req) db));
               _ ← match found with
                   | Some pin => runs_ Other (submit_join now (p_pin_id pin) dev (jr_node_pubkey req) (jr_display_name req))
                   | None => mret tt
                   end;
               mret submitted) st
      end
  end.

(** [pins::get_pin(..)?.ok_or_else(unknown network)]. *)
Definition known_pin (pin_id : string) (db : PinDb) : result GatewayError Pin := ok_or unknown_network (get_pin pin_id db).

Definition get_pin_handler (principal : AuthPrincipal) (pin_id : string) : Handler PinDetail :=
  reads (fun db =>
    let? actor := resolve_actor principal pin_id db in
    let? pin := known_pin pin_id db in
    let pending := if is_staff actor
      then Some (Z.of_nat (length (List.filter (fun m => bool_decide (mb_status m = Pending)) (members pin_id db))))
      else None in
    let role := match actor with Staff _ r => role_text r | Member _ => "member" end in
    Ok (mkPinDetail (p_pin_id pin) (p_name pin) (p_settings pin) (p_netmap_generation pin) (p_created_at pin) role
          pending)).

Definition list_members (principal : AuthPrincipal) (pin_id : string) : Handler (list PinMember) :=
  reads (fun db =>
    let? actor := resolve_actor principal pin_id db in
    let all := members pin_id db in
    Ok (if is_staff actor then all else List.filter (fun m => bool_decide (mb_status m <> Pending)) all)).

Definition approve_member_handler (now : Z) (principal : AuthPrincipal) (pin_id dev : string) : Handler string :=
  account ← reads (require_admin_actor principal pin_id);
  _ ← runs_ conflict (approve_member now pin_id dev account);
  mret "active".

Definition deny_member_handler (principal : AuthPrincipal) (pin_id dev : string) : Handler string :=
  _ ← reads (require_admin_actor principal pin_id);
  _ ← runs_ conflict (deny_member pin_id dev);
  mret "denied".

Definition patch_member (principal : AuthPrincipal) (pin_id dev : string) (req : PatchMemberReq) : Handler string :=
  _ ← (if bool_decide (pmr_disabled req <> None) then reads (require_admin_actor principal pin_id)
       else reads (require_staff_actor principal pin_id));
  _ ← (if bool_decide (pmr_display_name req <> None) || bool_decide (pmr_serves_models req <> None)
       then runs_ conflict (update_member pin_id dev (pmr_display_name req) (pmr_serves_models req))
       else mret tt);
  _ ← match pmr_disabled req with
      | Some disabled => runs_ conflict (set_member_disabled pin_id dev disabled)
      | None => mret tt
      end;
  mret "ok".

Definition remove_member_handler (now : Z) (principal : AuthPrincipal) (pin_id dev : string) : Handler string :=
  account ← reads (require_admin_actor principal pin_id);
  _ ← runs_ conflict (remove_member now pin_id dev account);
  mret "removed".

(** [require_device] comes before [require_pool]. *)
Definition leave (now : Z) (principal : AuthPrincipal) (pin_id : string) (st : AppState)
    : result GatewayError string * AppState :=
  match require_device principal with
  | Err e => (Err e, st)
  | Ok dev => with_pool (_ ← runs_ conflict (remove_member now pin_id dev dev); mret "left") st
  end.

Definition rotate_code (rng : nat -> nat) (principal : AuthPrincipal) (pin_id : string) : Handler string :=
  _ ← reads (require_admin_actor principal pin_id);
  runs Other (rotate_join_code rng pin_id).

Definition get_join_code (principal : AuthPrincipal) (pin_id : string) : Handler string :=
  _ ← reads (require_admin_actor principal pin_id);
  pin ← reads (known_pin pin_id);
  mret (p_join_code pin).

Definition set_role (now : Z) (principal : AuthPrincipal) (pin_id account : string) (role : option string)
    : Handler string :=
  granter ← reads (require_admin_actor principal pin_id);
  _ ← match role with
      | Some role => runs_ bad_request (grant_role now pin_id account role granter)
      | None => runs_ conflict (revoke_role pin_id account)
      end;
  mret "ok".

Definition put_settings (principal : AuthPrincipal) (pin_id : string) (req : SettingsReq) : Handler PinSettings :=
  _ ← reads (require_staff_actor principal pin_id);
  pin ← reads (known_pin pin_id);
  let settings := p_settings pin in
  let settings := match sr_din_contribution_default req with
                  | Some v => mkPinSettings v (priority_policy settings)
                  | None => settings
                  end in
  settings ← match sr_priority_policy req with
             | Some v =>
                 if negb (String.eqb v "pin_first") && negb (String.eqb v "equal")
                 then fails (BadRequest "priorityPolicy must be pin_first or equal")
                 else mret (mkPinSettings (din_contribution_default settings) v)
             | None => mret settings
             end;
  _ ← runs_ Other (set_settings pin_id settings);
  mret settings.

Definition delete_pin_handler (now : Z) (principal : AuthPrincipal) (pin_id : string) : Handler string :=
  account ← reads (require_admin_actor principal pin_id);
  pin ← reads (known_pin pin_id);
  if bool_decide (p_owner_account_user_id pin <> account)
  then fails (Forbidden "only the owner can delete a network")
  else _ ← runs_ Other (delete_pin now pin_id); mret "deleted".

(** The models that connected devices report, by relay key. *)
Definition by_pubkey (r : Registry) : gmap string (list string) :=
  foldl (fun m d => <[node_id d := loaded_models (capabilities d)]> m) ∅ (snapshot_devices r).

Definition sync_active (now : Z) (identity : option SigningKey) (r : Registry) (pin_id dev : string) (req : SyncReq)
    : Handler SyncResponse :=
  _ ← runs_ Other (update_member_endpoints now pin_id dev (show_endpoints (sq_endpoints req))
                     (show_strings (sq_loaded_models req)) (sq_wg_pubkey req));
  _ ← match sq_offers_exit req with
      | Some offers => writes (set_member_offers_exit pin_id dev offers)
      | None => mret tt
      end;
  _ ← (if bool_decide (sq_model_policy_status req = []) then mret tt
       else writes (report_model_policy_status now pin_id dev
                      ((fun s => (mps_model_id s, mps_applied_state s, mps_error s)) <$> sq_model_policy_status req)));
  pin ← reads (known_pin pin_id);
  key ← reads (fun _ => ok_or (Other (Bail "gateway identity unavailable")) identity);
  netmap ← reads (fun db => map_err Other (build_netmap now pin_id (fun k => by_pubkey r !! k) db));
  policy ← reads (fun db => Ok (model_policy pin_id (Some dev) db));
  mret (mkSyncResponse "active" (Some (sign_netmap netmap key)) policy (Some (p_settings pin))).

Definition sync (now : Z) (principal : AuthPrincipal) (pin_id : string) (req : SyncReq) (st : AppState)
    : result GatewayError SyncResponse * AppState :=
  match require_device principal with
  | Err e => (Err e, st)
  | Ok dev =>
      with_pool
        (status ← reads (fun db => Ok (member_status pin_id dev db));
         match status with
         | Some Active => sync_active now (st_identity st) (st_registry st) pin_id dev req
         | None | Some Removed => mret (mkSyncResponse "none" None [] None)
         | Some s => mret (mkSyncResponse (status_text s) None [] None)
         end) st
  end.

(** [HashMap] keyed by relay key: of two members with one key the later stays. *)
Definition serving_members (pin_id : string) (db : PinDb) : gmap string PinMember :=
  foldl (fun m x => <[mb_node_pubkey x := x]> m) ∅
    (List.filter (fun m => bool_decide (mb_status m = Active) && mb_serves_models m) (members pin_id db)).
(** [expect]: the [None] of the outer option is a panic. *)
Definition schedule (clk : Clock) (rng : nat) (principal : AuthPrincipal) (pin_id : string) (req : ScheduleReq)
    (r : Registry) (cfg : SchedulerConfig) (db : PinDb) : option (result GatewayError ScheduleResponse) :=
  match resolve_actor principal pin_id db with
  | Err e => Some (Err e)
  | Ok _ =>
      let serving := serving_members pin_id db in
      let candidates := List.filter (fun d => has (node_id d) serving) (snapshot_devices r) in
      match pick powf clk cfg candidates (sc_model req) (sc_exclude req) r (sc_ctx_estimate req) rng with
      | None => Some (Err (NoEligibleDevice (sc_model req)))
      | Some picked =>
          member ← serving !! node_id picked;
          Some (Ok (mkScheduleResponse (mb_device_id member) (mb_node_pubkey member) (mb_display_name member)
                      (default [] (parse_endpoints (mb_endpoints member)))))
      end
  end.

Definition set_device_models (now : Z) (principal : AuthPrincipal) (pin_id dev : string)
    (models : list (string * string)) : Handler (list ModelPolicyEntry) :=
  account ← reads (require_staff_actor principal pin_id);
  status ← reads (fun db => Ok (member_status pin_id dev db));
  if negb (bool_decide (status = Some Active) || bool_decide (status = Some Disabled))
  then fails (NotFound "unknown device")
  else
    _ ← runs_ bad_request (set_model_policy now pin_id dev models account);
    reads (fun db => Ok (model_policy pin_id (Some dev) db)).

Definition get_models (principal : AuthPrincipal) (pin_id : string) : Handler (list ModelPolicyEntry) :=
  reads (fun db => let? _ := resolve_actor principal pin_id db in Ok (model_policy pin_id None db)).

Definition usage_report (now : Z) (principal : AuthPrincipal) (pin_id batch_id : string) (entries : list UsageEntry)
    (st : AppState) : result GatewayError string * AppState :=
  match require_device principal with
  | Err e => (Err e, st)
  | Ok dev =>
      with_pool
        (status ← reads (fun db => Ok (member_status pin_id dev db));
         if bool_decide (status <> Some Active) then fails unknown_network
         else if is_empty (trim batch_id) then fails (BadRequest "batchId is required")
         else
           applied ← runs bad_request (record_usage_batch now pin_id dev batch_id entries);
           mret (if (applied : bool) then "applied" else "duplicate")) st
  end.

Definition group_key (by_ : string) (r : UsageRow) : string :=
  if String.eqb by_ "device" then ur_provider_device_id r
  else if String.eqb by_ "model" then ur_model_id r
  else if String.eqb by_ "consumer" then ur_consumer_device_id r
  else ur_day r.
Definition row_counts (r : UsageRow) : UsageCounts := mkUsageCounts (ur_requests r) (ur_tokens_in r) (ur_tokens_out r).
Definition grouped (by_ : string) (rows : list UsageRow) : gmap string UsageCounts :=
  foldl (fun m r => let k := group_key by_ r in
                    <[k := add_counts (default no_counts (m !! k)) (row_counts r)]> m) ∅ rows.
Definition total_before (a b : UsageTotal) : Prop := String.leb (ut_key a) (ut_key b) = true.
#[export] Instance total_before_dec a b : Decision (total_before a b).
Proof. unfold total_before. apply _. Defined.
Definition usage (principal : AuthPrincipal) (pin_id : string) (q : UsageQuery) : Handler UsageResponse :=
  reads (fun db =>
    let? actor := resolve_actor principal pin_id db in
    let consumer := match actor with Staff _ _ => None | Member d => Some d end in
    let rows := usage_rows pin_id (uq_from q) (uq_to q) consumer db in
    let totals := (fun kv => mkUsageTotal kv.1 kv.2) <$> map_to_list (grouped (default "day" (uq_by q)) rows) in
    Ok (mkUsageResponse rows (merge_sort total_before totals))).
End Handlers.
