(* ===== verification/PinHandlersFacts.v ===== *)
(** * Authority in private networks

    Every request as a call on the state of the gateway, and what a caller can
    change with it: nothing of the ledger, nothing of a network without standing
    in it but its own knock and its own leaving, and no roles, codes or
    memberships of others without the admin role. *)

From stdpp Require Import sorting.
From S2P Require Import Prelude Db RustStr Merkle Accounts ApiKeys F64 Registry RegistryFacts Scheduler SchedulerFacts Fixtures Pins PinsFacts Auth PinWire PinWireFacts PinHandlers.

Open Scope string_scope.
Open Scope list_scope.
Open Scope Z_scope.

(** ** What an operation on one network leaves alone *)

(** The rows of a network. *)
Record same_network (p : string) (db db' : PinDb) : Prop := {
  sn_pin : pins db' !! p = pins db !! p;
  sn_roles : forall a, pin_roles db' !! (p, a) = pin_roles db !! (p, a);
  sn_members : forall d, pin_members db' !! (p, d) = pin_members db !! (p, d);
  sn_policy : forall d m, pin_model_policy db' !! (p, d, m) = pin_model_policy db !! (p, d, m);
  sn_usage : forall k, pin_usage db' !! (p, k) = pin_usage db !! (p, k);
  sn_batches : forall d b, pin_usage_batches db' !! (p, d, b) = pin_usage_batches db !! (p, d, b)
}.
Lemma same_network_refl p db : same_network p db db.
Proof. done. Qed.
Lemma same_network_trans p a b c : same_network p a b -> same_network p b c -> same_network p a c.
Proof. intros [] []. split; intros; etransitivity; eauto. Qed.

(** Only network [q] is written, and never the ledger. *)
Definition touches (q : string) (db db' : PinDb) : Prop :=
  p_db db' = p_db db /\ forall p, p <> q -> same_network p db db'.
Lemma touches_refl q db : touches q db db.
Proof. split; [done|]. intros. apply same_network_refl. Qed.
Lemma touches_trans q a b c : touches q a b -> touches q b c -> touches q a c.
Proof. intros [E H] [E' H']. split; [congruence|]. intros p Hp. by eapply same_network_trans; [apply H|apply H']. Qed.

Lemma touches_pins q x db : (forall p, p <> q -> x !! p = pins db !! p) -> touches q db (set_pins x db).
Proof. intros Hx. split; [done|]. intros p Hp. split; try done. by apply Hx. Qed.
Lemma touches_roles q x db : (forall p a, p <> q -> x !! (p, a) = pin_roles db !! (p, a)) -> touches q db (set_roles x db).
Proof. intros Hx. split; [done|]. intros p Hp. split; try done. intros a. by apply Hx. Qed.
Lemma touches_members q x db :
  (forall p d, p <> q -> x !! (p, d) = pin_members db !! (p, d)) -> touches q db (set_members x db).
Proof. intros Hx. split; [done|]. intros p Hp. split; try done. intros d. by apply Hx. Qed.
Lemma touches_policy q x db :
  (forall p d m, p <> q -> x !! (p, d, m) = pin_model_policy db !! (p, d, m)) -> touches q db (set_policy x db).
Proof. intros Hx. split; [done|]. intros p Hp. split; try done. intros d m. by apply Hx. Qed.
Lemma touches_usage q x db :
  (forall p k, p <> q -> x !! (p, k) = pin_usage db !! (p, k)) -> touches q db (set_usage x db).
Proof. intros Hx. split; [done|]. intros p Hp. split; try done. intros k. by apply Hx. Qed.
Lemma touches_batches q x db :
  (forall p d b, p <> q -> x !! (p, d, b) = pin_usage_batches db !! (p, d, b)) -> touches q db (set_batches x db).
Proof. intros Hx. split; [done|]. intros p Hp. split; try done. intros d b. by apply Hx. Qed.

Lemma touches_pin q f db : touches q db (update_pin f q db).
Proof. apply touches_pins. intros p Hp. by rewrite lookup_alter_ne. Qed.
Lemma touches_member q d f db : touches q db (update_member_row f q d db).
Proof. apply touches_members. intros p e Hp. rewrite lookup_alter_ne by congruence. done. Qed.
Lemma touches_bump q d f db : touches q db (bump_generation q (update_member_row f q d db)).
Proof. eapply touches_trans; [apply touches_member|apply touches_pin]. Qed.

Create HintDb networks.
#[local] Hint Resolve touches_refl touches_pin touches_member touches_bump : networks.

Section Statements.
Context `{PinJson}.

Lemma change_status_touches p d from f msg db db' : change_status p d from f msg db = Ok db' -> touches p db db'.
Proof.
  unfold change_status. destruct (pin_members db !! (p, d)); [|done]. destruct (bool_decide _); [|done].
  intros [= <-]. eauto with networks.
Qed.

Lemma approve_touches now p d a db db' : approve_member now p d a db = Ok db' -> touches p db db'.
Proof. unfold approve_member. destruct (require_admin p a db); [apply change_status_touches|done]. Qed.
Lemma disabled_touches p d b db db' : set_member_disabled p d b db = Ok db' -> touches p db db'.
Proof. unfold set_member_disabled. destruct b; apply change_status_touches. Qed.

Lemma create_touches now id rng name owner db pin db' :
  create_pin now id rng name owner db = Ok (pin, db') -> touches id db db' /\ pins db !! id = None.
Proof.
  unfold create_pin. destruct (negb (is_empty _)); [|done]. unfold has at 1.
  destruct (pins db !! id) eqn:E; [done|]. simpl. destruct (has owner _); [|done]. destruct (negb _); [|done].
  destruct (ok_or _ _); [|done]. intros [= _ <-]. split; [|done]. eapply touches_trans.
  - apply touches_pins. intros p Hp. by rewrite lookup_insert_ne.
  - apply touches_roles. intros p b Hp. simpl. rewrite lookup_insert_ne by congruence. done.
Qed.

Lemma join_touches now p d key name db db' : submit_join now p d key name db = Ok db' -> touches p db db'.
Proof.
  unfold submit_join. destruct (pin_members db !! (p, d)) as [m|].
  - destruct (pm_status m); intros [= <-]; eauto with networks.
  - destruct (has p _); [|done]. intros [= <-]. apply touches_members. intros q e Hq.
    rewrite lookup_insert_ne by congruence. done.
Qed.

Lemma deny_touches p d db db' : deny_member p d db = Ok db' -> touches p db db'.
Proof.
  unfold deny_member. destruct (pin_members db !! (p, d)); [|done]. destruct (bool_decide _); [|done].
  intros [= <-]. apply touches_members. intros q e Hq. rewrite lookup_delete_ne by congruence. done.
Qed.

(** The two statements of [update_member]. *)
Definition rename_member (p d : string) (name : option string) (db : PinDb) : result anyhow PinDb :=
  match name with
  | Some name =>
      guard? has (p, d) (pin_members db) else (Bail "device is not a member of this network") in
      Ok (update_member_row (fun m =>
            pm_set_flags (Some name) (pm_serves_models m) (pm_allow_remote_models m) (pm_offers_exit m) m) p d db)
  | None => Ok db
  end.
Definition set_serves (p d : string) (serves : option bool) (db : PinDb) : PinDb :=
  match serves, pin_members db !! (p, d) with
  | Some s, Some m =>
      if Bool.eqb (pm_serves_models m) s then db
      else bump_generation p (update_member_row (fun m =>
             pm_set_flags (pm_display_name m) s (pm_allow_remote_models m) (pm_offers_exit m) m) p d db)
  | _, _ => db
  end.
Lemma update_member_split p d name serves db db' :
  update_member p d name serves db = Ok db' ->
  exists db1, rename_member p d name db = Ok db1 /\ db' = set_serves p d serves db1.
Proof.
  unfold update_member, rename_member, set_serves. intros E.
  destruct (match name with Some _ => _ | None => _ end) as [db1|]; [|done]. exists db1. split; [done|].
  destruct serves; [|congruence]. destruct (pin_members db1 !! (p, d)); [|congruence].
  destruct (Bool.eqb _ _); congruence.
Qed.

Lemma update_touches p d name serves db db' : update_member p d name serves db = Ok db' -> touches p db db'.
Proof.
  intros (db1 & E & ->)%update_member_split. eapply (touches_trans _ _ db1).
  - unfold rename_member in E. destruct name; [|injection E as <-; auto with networks].
    destruct (has (p, d) _); [|done]. injection E as <-. auto with networks.
  - unfold set_serves. destruct serves; [|auto with networks].
    destruct (pin_members db1 !! (p, d)); [|auto with networks]. destruct (Bool.eqb _ _); auto with networks.
Qed.

Lemma rotate_touches rng p db code db' : rotate_join_code rng p db = Ok (code, db') -> touches p db db'.
Proof. unfold rotate_join_code. destruct (live_pin p db); [|done]. intros [= _ <-]. auto with networks. Qed.
Lemma settings_touches p s db db' : set_settings p s db = Ok db' -> touches p db db'.
Proof. unfold set_settings. destruct (live_pin p db); [|done]. intros [= <-]. auto with networks. Qed.
Lemma delete_touches now p db db' : delete_pin now p db = Ok db' -> touches p db db'.
Proof. unfold delete_pin. destruct (live_pin p db); [|done]. intros [= <-]. auto with networks. Qed.

Lemma grant_touches now p a role by_ db db' : grant_role now p a role by_ db = Ok db' -> touches p db db'.
Proof.
  unfold grant_role. destruct (ok_or _ _); [|done]. destruct (has p _); [|done]. intros [= <-].
  apply touches_roles. intros q b Hq. rewrite lookup_insert_ne by congruence. done.
Qed.
Lemma revoke_touches p a db db' : revoke_role p a db = Ok db' -> touches p db db'.
Proof.
  unfold revoke_role. destruct (bool_decide _); [|done]. destruct (bool_decide _); [|done]. destruct (negb _); [|done].
  intros [= <-]. apply touches_roles. intros q b Hq. rewrite lookup_delete_ne by congruence. done.
Qed.

Lemma endpoints_touches now p d e m wg db db' : update_member_endpoints now p d e m wg db = Ok db' -> touches p db db'.
Proof.
  unfold update_member_endpoints. destruct (json_valid e); [|done]. destruct (json_valid m); [|done].
  intros [= <-]. auto with networks.
Qed.
Lemma exit_touches p d b db : touches p db (set_member_offers_exit p d b db).
Proof.
  unfold set_member_offers_exit. destruct (pin_members db !! (p, d)); [|auto with networks].
  destruct (Bool.eqb _ _); auto with networks.
Qed.
Lemma report_touches now p d st db : touches p db (report_model_policy_status now p d st db).
Proof.
  unfold report_model_policy_status. revert db. induction st as [|[[m a] e] st IH]; intros db; [apply touches_refl|].
  simpl. eapply touches_trans; [|apply IH]. apply touches_policy. intros q d' m' Hq.
  rewrite lookup_alter_ne by congruence. done.
Qed.

Lemma policy_touches now p d models by_ db db' : set_model_policy now p d models by_ db = Ok db' -> touches p db db'.
Proof.
  unfold set_model_policy. destruct (fold_res _ _ _); [|done]. intros E.
  eapply (touches_trans _ _ (set_policy (filter (fun kv => (kv.1.1.1, kv.1.1.2) <> (p, d)) (pin_model_policy db)) db)).
  - apply touches_policy. intros q d' m' Hq. apply option_eq. intros x. rewrite map_lookup_filter_Some.
    split; [by intros [? _]|]. intros Hx. split; [done|]. simpl. congruence.
  - refine (fold_res_ind _ (touches p _) _ _ _ _ E (touches_refl _ _)). intros [m s] db1 db2 _. unfold insert_policy.
    destruct (negb _); [|done]. destruct (has p _); [|done]. intros [= <-] Ht. eapply touches_trans; [exact Ht|].
    apply touches_policy. intros q d' m' Hq. rewrite lookup_insert_ne by congruence. done.
Qed.

Lemma batch_touches now p d b es db r db' : record_usage_batch now p d b es db = Ok (r, db') -> touches p db db'.
Proof.
  unfold record_usage_batch. destruct (has _ (pin_usage_batches db)); [intros [= _ <-]; apply touches_refl|].
  destruct (has p _); [|done]. destruct (fold_res _ _ _) as [db1|] eqn:E; [|done]. intros [= _ <-].
  eapply (touches_trans _ _ (set_batches (<[(p, d, b) := now]> (pin_usage_batches db)) db)).
  - apply touches_batches. intros q d' b' Hq. rewrite lookup_insert_ne by congruence. done.
  - refine (fold_res_ind _ (touches p _) _ _ _ _ E (touches_refl _ _)). intros e db2 db3 _. unfold add_usage.
    destruct (counts_ok e); [|done]. intros [= <-] Ht. eapply touches_trans; [exact Ht|].
    apply touches_usage. intros q k Hq. rewrite lookup_insert_ne by congruence. done.
Qed.
End Statements.

(** ** What needs the admin role *)

(** Who a network is, without its version and settings. *)
Definition ident (r : PinRow) : string * string * Z * string * Z * option Z :=
  (pin_name r, pin_join_code r, pin_join_code_generation r, pin_owner_account_user_id r, pin_created_at r,
   pin_deleted_at r).
Definition status_of (p d : string) (db : PinDb) : option MemberStatus := pm_status <$> pin_members db !! (p, d).

(** What a member row says without its name and whether it serves. *)
Definition kept (m : MemberRow) : string * string * MemberStatus * bool * bool * string * string * Z * list (option string)
    * list (option Z) :=
  (pm_node_pubkey m, pm_wg_pubkey m, pm_status m, pm_allow_remote_models m, pm_offers_exit m, pm_endpoints m,
   pm_loaded_models m, pm_requested_at m, [pm_approved_by m; pm_removed_by m], [pm_joined_at m; pm_last_seen m; pm_removed_at m]).
(** What is wanted of a device, as opposed to what it reports. *)
Definition wanted (r : PolicyRow) : string * string * Z := (pp_desired_state r, pp_set_by r, pp_set_at r).

(** Roles and the identity of the network stay; of the other members at most the
    name and whether they serve change; nobody becomes active; and usage is
    counted for the own device only. *)
Record powerless (p : string) (own : option string) (db db' : PinDb) : Prop := {
  pl_roles : forall a, pin_roles db' !! (p, a) = pin_roles db !! (p, a);
  pl_ident : ident <$> pins db' !! p = ident <$> pins db !! p;
  pl_others : forall d, own <> Some d -> kept <$> pin_members db' !! (p, d) = kept <$> pin_members db !! (p, d);
  pl_active : forall d, status_of p d db' = Some Active -> status_of p d db = Some Active;
  pl_usage : forall day d consumer model, own <> Some d ->
    pin_usage db' !! (p, (day, d, consumer, model)) = pin_usage db !! (p, (day, d, consumer, model))
}.
Lemma powerless_refl p own db : powerless p own db db.
Proof. done. Qed.
Lemma powerless_trans p own a b c : powerless p own a b -> powerless p own b c -> powerless p own a c.
Proof.
  intros [R1 I1 O1 A1 U1] [R2 I2 O2 A2 U2]. split; [intros; by rewrite R2|congruence| |auto|].
  - intros d Hd. by rewrite O2, O1.
  - intros day d co mo Hd. by rewrite U2, U1.
Qed.
Lemma powerless_same p own db db' : same_network p db db' -> powerless p own db db'.
Proof.
  intros [E1 E2 E3 _ E5 _]. split; [done|by rewrite E1| | |done]; intros d; unfold status_of; by rewrite E3.
Qed.
Lemma powerless_elsewhere p q own db db' : p <> q -> touches q db db' -> powerless p own db db'.
Proof. intros Hn [_ Ht]. by apply powerless_same, Ht. Qed.

Lemma powerless_pin p q own f db : (forall r, ident (f r) = ident r) -> powerless p own db (update_pin f q db).
Proof.
  intros Hf. split; [done| |done|done|done]. simpl. destruct (decide (p = q)) as [-> |].
  - rewrite lookup_alter_eq. destruct (pins db !! q); simpl; [by rewrite Hf|done].
  - by rewrite lookup_alter_ne.
Qed.
(** A row loses its name or its serving, or the own row what it reports. *)
Lemma powerless_member p q own d f db :
  (forall m, pm_status (f m) = pm_status m) -> own = Some d \/ (forall m, kept (f m) = kept m) ->
  powerless p own db (update_member_row f q d db).
Proof.
  intros Hs Hf. split; [done|done| | |done].
  - intros e He. simpl. destruct (decide ((q, d) = (p, e))) as [[= -> ->]|]; [|by rewrite lookup_alter_ne].
    destruct Hf as [Hf|Hf]; [congruence|]. rewrite lookup_alter_eq.
    destruct (pin_members db !! (p, e)); simpl; [by rewrite Hf|done].
  - intros e. unfold status_of. simpl. destruct (decide ((q, d) = (p, e))) as [-> |]; [|by rewrite lookup_alter_ne].
    rewrite lookup_alter_eq. destruct (pin_members db !! (p, e)); simpl; [by rewrite Hs|done].
Qed.
Lemma powerless_bump p q own d f db :
  (forall m, pm_status (f m) = pm_status m) -> own = Some d \/ (forall m, kept (f m) = kept m) ->
  powerless p own db (bump_generation q (update_member_row f q d db)).
Proof. intros Hs Hf. eapply powerless_trans; [by apply powerless_member|by apply powerless_pin]. Qed.

(** The own row, to a status that is not active. *)
Lemma powerless_own p d db db' :
  (forall a, pin_roles db' !! (p, a) = pin_roles db !! (p, a)) -> ident <$> pins db' !! p = ident <$> pins db !! p ->
  (forall e, e <> d -> pin_members db' !! (p, e) = pin_members db !! (p, e)) ->
  status_of p d db' <> Some Active \/ status_of p d db' = status_of p d db ->
  pin_usage db' = pin_usage db ->
  powerless p (Some d) db db'.
Proof.
  intros Hr Hi Ho Hs Hu. split; [done|done| | |by rewrite Hu].
  - intros e He. rewrite Ho; [done|congruence].
  - intros e Ha. destruct (decide (e = d)) as [-> |Hn]; [destruct Hs; congruence|].
    revert Ha. unfold status_of. by rewrite Ho.
Qed.

(** Nor does anything of the other members change, of the settings, of what is
    wanted of a device, or of which devices serve. *)
Record bystander (p : string) (own : option string) (db db' : PinDb) : Prop := {
  by_settings : pin_settings <$> pins db' !! p = pin_settings <$> pins db !! p;
  by_members : forall d, own <> Some d -> pin_members db' !! (p, d) = pin_members db !! (p, d);
  by_serves : forall d, is_Some (pin_members db !! (p, d)) ->
    pm_serves_models <$> pin_members db' !! (p, d) = pm_serves_models <$> pin_members db !! (p, d);
  by_policy : forall d m, own <> Some d -> pin_model_policy db' !! (p, d, m) = pin_model_policy db !! (p, d, m);
  by_wanted : forall d m, wanted <$> pin_model_policy db' !! (p, d, m) = wanted <$> pin_model_policy db !! (p, d, m)
}.
Lemma bystander_same p own db db' : same_network p db db' -> bystander p own db db'.
Proof. intros [E1 E2 E3 E4 _ _]. split; [by rewrite E1|done|intros; by rewrite E3|done|intros; by rewrite E4]. Qed.
Lemma bystander_refl p own db : bystander p own db db.
Proof. by apply bystander_same, same_network_refl. Qed.
Lemma bystander_trans p own a b c : bystander p own a b -> bystander p own b c -> bystander p own a c.
Proof.
  intros [S1 M1 V1 P1 W1] [S2 M2 V2 P2 W2]. split.
  - congruence.
  - intros d Hd. by rewrite M2, M1.
  - intros d Hd. rewrite V2, V1; [done..|]. apply (fmap_is_Some pm_serves_models). rewrite V1 by done. by apply fmap_is_Some.
  - intros d m Hd. by rewrite P2, P1.
  - intros d m. by rewrite W2, W1.
Qed.
Lemma bystander_elsewhere p q own db db' : p <> q -> touches q db db' -> bystander p own db db'.
Proof. intros Hn [_ Ht]. by apply bystander_same, Ht. Qed.
Lemma bystander_pin p q own f db :
  (forall r, pin_settings (f r) = pin_settings r) -> bystander p own db (update_pin f q db).
Proof.
  intros Hf. split; [|done..]. simpl. destruct (decide (p = q)) as [-> |].
  - rewrite lookup_alter_eq. destruct (pins db !! q); simpl; [by rewrite Hf|done].
  - by rewrite lookup_alter_ne.
Qed.
Lemma bystander_member p q d f db :
  (forall m, pm_serves_models (f m) = pm_serves_models m) -> bystander p (Some d) db (update_member_row f q d db).
Proof.
  intros Hf. split; [done| | |done|done].
  - intros e He. simpl. rewrite lookup_alter_ne by congruence. done.
  - intros e _. simpl. destruct (decide ((q, d) = (p, e))) as [-> |]; [|by rewrite lookup_alter_ne].
    rewrite lookup_alter_eq. destruct (pin_members db !! (p, e)); simpl; [by rewrite Hf|done].
Qed.
Lemma bystander_bump p q d f db :
  (forall m, pm_serves_models (f m) = pm_serves_models m) ->
  bystander p (Some d) db (bump_generation q (update_member_row f q d db)).
Proof. intros Hf. eapply bystander_trans; [by apply bystander_member|by apply bystander_pin]. Qed.

Section Powerless.
Context `{PinJson}.

Lemma update_powerless p q own d name serves db db' :
  update_member q d name serves db = Ok db' -> powerless p own db db'.
Proof.
  intros (db1 & E & ->)%update_member_split. eapply (powerless_trans _ _ _ db1).
  - unfold rename_member in E. destruct name; [|injection E as <-; apply powerless_refl].
    destruct (has (q, d) _); [|done]. injection E as <-. apply powerless_member; [done|by right].
  - unfold set_serves. destruct serves; [|apply powerless_refl].
    destruct (pin_members db1 !! (q, d)); [|apply powerless_refl].
    destruct (Bool.eqb _ _); [apply powerless_refl|apply powerless_bump; [done|by right]].
Qed.
Lemma endpoints_powerless p now q d e m wg db db' :
  update_member_endpoints now q d e m wg db = Ok db' -> powerless p (Some d) db db' /\ bystander p (Some d) db db'.
Proof.
  unfold update_member_endpoints. destruct (json_valid e); [|done]. destruct (json_valid m); [|done].
  intros [= <-]. split; [apply powerless_member; [done|by left]|by apply bystander_member].
Qed.
Lemma exit_powerless p q d b db :
  powerless p (Some d) db (set_member_offers_exit q d b db) /\ bystander p (Some d) db (set_member_offers_exit q d b db).
Proof.
  unfold set_member_offers_exit. destruct (pin_members db !! (q, d)); [|by split; [|apply bystander_refl]].
  destruct (Bool.eqb _ _); [by split; [|apply bystander_refl]|].
  split; [apply powerless_bump; [done|by left]|by apply bystander_bump].
Qed.
Lemma settings_powerless p own q st db db' : set_settings q st db = Ok db' -> powerless p own db db'.
Proof. unfold set_settings. destruct (live_pin q db); [|done]. intros [= <-]. by apply powerless_pin. Qed.

(** Statements on model policy and usage write neither networks nor members. *)
Lemma powerless_policy p own x db : powerless p own db (set_policy x db).
Proof. done. Qed.
Lemma report_powerless p now q d st db :
  powerless p (Some d) db (report_model_policy_status now q d st db) /\
  bystander p (Some d) db (report_model_policy_status now q d st db).
Proof.
  unfold report_model_policy_status. revert db.
  induction st as [|[[m a] e] st IH]; intros db; [by split; [|apply bystander_refl]|]. simpl.
  destruct (IH (set_policy (alter (fun r => mkPolicyRow (pp_desired_state r) (pp_set_by r) (pp_set_at r) (Some a)
    (Some now) e) (q, d, m) (pin_model_policy db)) db)) as [Hp Hb].
  split; [eapply powerless_trans; [apply powerless_policy|exact Hp]|eapply bystander_trans; [|exact Hb]].
  split; [done|done|done| |].
  - intros d' m' Hd. simpl. rewrite lookup_alter_ne by congruence. done.
  - intros d' m'. simpl. destruct (decide ((q, d, m) = (p, d', m'))) as [-> |]; [|by rewrite lookup_alter_ne].
    rewrite lookup_alter_eq. by destruct (pin_model_policy db !! (p, d', m')).
Qed.
Lemma policy_powerless p own now q d models by_ db db' :
  set_model_policy now q d models by_ db = Ok db' -> powerless p own db db'.
Proof.
  unfold set_model_policy. destruct (fold_res _ _ _); [|done]. intros E.
  refine (fold_res_ind _ (powerless p own db) _ _ _ _ E _); [|apply powerless_policy].
  intros [m s] db1 db2 _. unfold insert_policy. destruct (negb _); [|done]. destruct (has q _); [|done].
  intros [= <-] Ht. eapply powerless_trans; [exact Ht|apply powerless_policy].
Qed.
Lemma batch_powerless p now q d b es db r db' :
  record_usage_batch now q d b es db = Ok (r, db') -> powerless p (Some d) db db' /\ bystander p (Some d) db db'.
Proof.
  unfold record_usage_batch. destruct (has _ (pin_usage_batches db)); [intros [= _ <-]; by split; [|apply bystander_refl]|].
  destruct (has q _); [|done]. destruct (fold_res _ _ _) as [db1|] eqn:E; [|done]. intros [= _ <-].
  refine (fold_res_ind _ (fun db1 => powerless p (Some d) db db1 /\ bystander p (Some d) db db1) _ _ _ _ E _); [|done].
  intros e db2 db3 _. unfold add_usage. destruct (counts_ok e); [|done]. intros [= <-] [Hp Hb].
  split; [eapply powerless_trans; [exact Hp|]|by eapply bystander_trans; [exact Hb|]].
  split; [done|done|done|done|]. intros day d' co mo Hd. simpl. unfold usage_key. rewrite lookup_insert_ne by congruence. done.
Qed.
End Powerless.

(** ** Handlers *)

#[export] Instance touches_preorder q : PreOrder (touches q).
Proof. split; [exact (touches_refl q)|exact (touches_trans q)]. Qed.
#[export] Instance powerless_preorder p own : PreOrder (powerless p own).
Proof. split; [exact (powerless_refl p own)|exact (powerless_trans p own)]. Qed.
#[export] Instance bystander_preorder p own : PreOrder (bystander p own).
Proof. split; [exact (bystander_refl p own)|exact (bystander_trans p own)]. Qed.

(** What a handler may do to the database it starts from. *)
Definition effect {A} (R : PinDb -> PinDb -> Prop) (h : Handler A) (db : PinDb) : Prop := R db (h db).2.

Section Effects.
Context {R : PinDb -> PinDb -> Prop} `{!PreOrder R}.

Lemma effect_ret {A} (a : A) db : effect R (mret a) db.
Proof. unfold effect. reflexivity. Qed.
Lemma effect_fails {A} e db : effect R (fails (A := A) e) db.
Proof. unfold effect. reflexivity. Qed.
Lemma effect_reads {A} (f : PinDb -> result GatewayError A) db : effect R (reads f) db.
Proof. unfold effect. reflexivity. Qed.
Lemma effect_bind {A B} (m : Handler A) (k : A -> Handler B) db :
  effect R m db -> (forall a db1, effect R (k a) db1) -> effect R (m ≫= k) db.
Proof.
  unfold effect, mbind, handler_bind. intros Hm Hk. destruct (m db) as [[a|e] db1]; [|done].
  etransitivity; [exact Hm|apply Hk].
Qed.
Lemma effect_guard {A B} (g : PinDb -> result GatewayError A) (k : A -> Handler B) db :
  (forall a, g db = Ok a -> effect R (k a) db) -> effect R (reads g ≫= k) db.
Proof.
  unfold effect, mbind, handler_bind, reads. intros Hk. destruct (g db) as [a|e]; [by apply Hk|reflexivity].
Qed.
Lemma effect_runs {A} err (f : PinDb -> result anyhow (A * PinDb)) db :
  (forall a db', f db = Ok (a, db') -> R db db') -> effect R (runs err f) db.
Proof. unfold effect, runs. intros Hf. destruct (f db) as [[a db']|e]; [by eapply Hf|reflexivity]. Qed.
Lemma effect_runs_ err f db : (forall db', f db = Ok db' -> R db db') -> effect R (runs_ err f) db.
Proof.
  intros Hf. apply effect_runs. intros [] db'. destruct (f db) as [db1|] eqn:E; [|done]. intros [= <-]. by apply Hf.
Qed.
Lemma effect_writes f db : (forall db0, R db0 (f db0)) -> effect R (writes f) db.
Proof. intros Hf. apply Hf. Qed.
End Effects.

(** Follow a handler to its statements, which are left to the hints. *)
Ltac effects :=
  cbv zeta;
  repeat first
    [ apply effect_ret | apply effect_fails | apply effect_reads
    | apply effect_runs_; intros ? ? | apply effect_runs; intros ? ? ? | apply effect_writes; intros
    | apply effect_bind; [|intros ? ?; cbv zeta]
    | match goal with |- effect _ (match ?x with _ => _ end) _ => destruct x end ];
  eauto with networks.

Section Calls.
Context `{PinJson} `{WireCrates} `{Crates} (sql_text : SqlError -> string).

Inductive PinCall : Type :=
| CallCreate (fresh_id : string) (rng : nat -> nat) (name : string)
| CallList
| CallJoin (req : JoinReq)
| CallGet (p : string)
| CallMembers (p : string)
| CallApprove (p d : string)
| CallDeny (p d : string)
| CallPatch (p d : string) (req : PatchMemberReq)
| CallRemove (p d : string)
| CallLeave (p : string)
| CallRotate (rng : nat -> nat) (p : string)
| CallCode (p : string)
| CallSetRole (p account : string) (role : option string)
| CallSettings (p : string) (req : SettingsReq)
| CallDelete (p : string)
| CallSync (p : string) (req : SyncReq)
| CallSetModels (p d : string) (models : list (string * string))
| CallModels (p : string)
| CallReport (p batch_id : string) (entries : list UsageEntry)
| CallUsage (p : string) (q : UsageQuery).

Definition void {A} (x : result GatewayError A * AppState) : result GatewayError unit * AppState :=
  (match x.1 with Ok _ => Ok tt | Err e => Err e end, x.2).

(** The route table of the networks. *)
Definition perform (now : Z) (who : AuthPrincipal) (call : PinCall) (st : AppState) : result GatewayError unit * AppState :=
  match call with
  | CallCreate id rng name => void (with_pool (create_pin_handler now id rng who name) st)
  | CallList => void (with_pool (list_pins who) st)
  | CallJoin req => void (join now who req st)
  | CallGet p => void (with_pool (get_pin_handler who p) st)
  | CallMembers p => void (with_pool (list_members who p) st)
  | CallApprove p d => void (with_pool (approve_member_handler sql_text now who p d) st)
  | CallDeny p d => void (with_pool (deny_member_handler sql_text who p d) st)
  | CallPatch p d req => void (with_pool (patch_member sql_text who p d req) st)
  | CallRemove p d => void (with_pool (remove_member_handler sql_text now who p d) st)
  | CallLeave p => void (leave sql_text now who p st)
  | CallRotate rng p => void (with_pool (rotate_code rng who p) st)
  | CallCode p => void (with_pool (get_join_code who p) st)
  | CallSetRole p a role => void (with_pool (set_role sql_text now who p a role) st)
  | CallSettings p req => void (with_pool (put_settings who p req) st)
  | CallDelete p => void (with_pool (delete_pin_handler now who p) st)
  | CallSync p req => void (sync now who p req st)
  | CallSetModels p d models => void (with_pool (set_device_models sql_text now who p d models) st)
  | CallModels p => void (with_pool (get_models who p) st)
  | CallReport p batch entries => void (usage_report sql_text now who p batch entries st)
  | CallUsage p q => void (with_pool (usage who p q) st)
  end.

(** The handler of a call that goes straight to the pool. *)
Lemma with_pool_db {A} (h : Handler A) st db :
  st_db st = Some db -> with_pool h st = ((h db).1, set_db (Some (h db).2) st).
Proof. intros E. unfold with_pool, require_pool. rewrite E. simpl. by destruct (h db). Qed.

(** ** Joining and leaving *)

Lemma join_powerless now p q d key name db db' :
  submit_join now q d key name db = Ok db' -> powerless p (Some d) db db'.
Proof.
  intros E. destruct (decide (p = q)) as [-> |Hn]; [|by eapply powerless_elsewhere, join_touches].
  unfold submit_join in E. destruct (pin_members db !! (q, d)) as [m|] eqn:Em.
  - assert (forall f, (forall x, pm_status (f x) = Pending) -> powerless q (Some d) db (update_member_row f q d db)) as Hp.
    { intros f Hf. apply powerless_own; [done|done| | |].
      - intros e He. simpl. rewrite lookup_alter_ne by congruence. done.
      - left. unfold status_of. simpl. rewrite lookup_alter_eq, Em. simpl. by rewrite Hf.
      - done. }
    destruct (pm_status m); injection E as <-; (by apply Hp) || apply powerless_refl.
  - destruct (has q _); [|done]. injection E as <-. apply powerless_own; [done|done| | |].
    + intros e He. simpl. rewrite lookup_insert_ne by congruence. done.
    + left. unfold status_of. simpl. by rewrite lookup_insert_eq.
    + done.
Qed.
Lemma join_bystander now p q d key name db db' :
  submit_join now q d key name db = Ok db' -> bystander p (Some d) db db'.
Proof.
  unfold submit_join. destruct (pin_members db !! (q, d)) as [m|] eqn:Em.
  - destruct (pm_status m); intros [= <-]; try apply bystander_refl; by apply bystander_member.
  - destruct (has q _); [|done]. intros [= <-]. split; [done| | |done|done].
    + intros e He. simpl. rewrite lookup_insert_ne by congruence. done.
    + intros e [r Hr]. simpl. rewrite lookup_insert_ne by congruence. done.
Qed.

Lemma remove_powerless now p q d by_ db db' :
  remove_member now q d by_ db = Ok db' -> powerless p (Some d) db db'.
Proof.
  intros E. destruct (decide (p = q)) as [-> |Hn]; [|by eapply powerless_elsewhere, change_status_touches].
  unfold remove_member, change_status in E. destruct (pin_members db !! (q, d)) as [m|] eqn:Em; [|done].
  destruct (bool_decide _); [|done]. injection E as <-. apply powerless_own.
  - done.
  - simpl. rewrite lookup_alter_eq. by destruct (pins db !! q).
  - intros e He. simpl. rewrite lookup_alter_ne by congruence. done.
  - left. unfold status_of. simpl. by rewrite lookup_alter_eq, Em.
  - done.
Qed.
Lemma remove_bystander now p q d by_ db db' :
  remove_member now q d by_ db = Ok db' -> bystander p (Some d) db db'.
Proof.
  unfold remove_member, change_status. destruct (pin_members db !! (q, d)); [|done].
  destruct (bool_decide _); [|done]. intros [= <-]. by apply bystander_bump.
Qed.

(** ** Outsiders *)

(** Everything of the network but the own member row and the version. *)
Record outsider (p : string) (own : option string) (db db' : PinDb) : Prop := {
  out_roles : forall a, pin_roles db' !! (p, a) = pin_roles db !! (p, a);
  out_pin : (fun r => (ident r, pin_settings r)) <$> pins db' !! p = (fun r => (ident r, pin_settings r)) <$> pins db !! p;
  out_members : forall d, own <> Some d -> pin_members db' !! (p, d) = pin_members db !! (p, d);
  out_policy : forall d m, pin_model_policy db' !! (p, d, m) = pin_model_policy db !! (p, d, m);
  out_usage : forall k, pin_usage db' !! (p, k) = pin_usage db !! (p, k)
}.
Lemma outsider_same p own db db' : same_network p db db' -> outsider p own db db'.
Proof. intros [E1 E2 E3 E4 E5 _]. split; [done|by rewrite E1|intros; apply E3|done|done]. Qed.
Lemma outsider_elsewhere p q own db db' : p <> q -> touches q db db' -> outsider p own db db'.
Proof. intros Hn [_ Ht]. by apply outsider_same, Ht. Qed.
Lemma outsider_refl p own db : outsider p own db db.
Proof. by apply outsider_same, same_network_refl. Qed.

Lemma join_outsider now p q d key name db db' :
  submit_join now q d key name db = Ok db' -> outsider p (Some d) db db'.
Proof.
  intros E. destruct (decide (p = q)) as [-> |Hn]; [|by eapply outsider_elsewhere, join_touches].
  unfold submit_join in E. destruct (pin_members db !! (q, d)) as [m|] eqn:Em.
  - destruct (pm_status m); injection E as <-; try apply outsider_refl;
      (split; [done|done| |done|done]; intros e He; simpl; rewrite lookup_alter_ne by congruence; done).
  - destruct (has q _); [|done]. injection E as <-. split; [done|done| |done|done].
    intros e He. simpl. rewrite lookup_insert_ne by congruence. done.
Qed.
Lemma remove_outsider now p q d by_ db db' :
  remove_member now q d by_ db = Ok db' -> outsider p (Some d) db db'.
Proof.
  intros E. destruct (decide (p = q)) as [-> |Hn]; [|by eapply outsider_elsewhere, change_status_touches].
  unfold remove_member, change_status in E. destruct (pin_members db !! (q, d)) as [m|]; [|done].
  destruct (bool_decide _); [|done]. injection E as <-. split; [done| | |done|done].
  - simpl. rewrite lookup_alter_eq. by destruct (pins db !! q).
  - intros e He. simpl. rewrite lookup_alter_ne by congruence. done.
Qed.

(** ** Guards *)

Section Guards.
Context (who : AuthPrincipal) (p : string) (db : PinDb).

Lemma no_standing_admin e : resolve_actor who p db = Err e -> require_admin_actor who p db = Err e.
Proof. intros E. unfold require_admin_actor. by rewrite E. Qed.
Lemma no_standing_staff e : resolve_actor who p db = Err e -> require_staff_actor who p db = Err e.
Proof. intros E. unfold require_staff_actor. by rewrite E. Qed.
(** An active member has standing. *)
Lemma active_standing d :
  device_id who = Some d -> member_status p d db = Some Active -> exists a, resolve_actor who p db = Ok a.
Proof.
  intros Hd Hs. unfold resolve_actor. destruct (_ ≫= _) as [a|]; [by exists a|].
  rewrite Hd, bool_decide_eq_true_2 by done. by exists (Member d).
Qed.
End Guards.

#[local] Hint Resolve approve_touches disabled_touches deny_touches update_touches rotate_touches settings_touches
  delete_touches grant_touches revoke_touches endpoints_touches exit_touches report_touches policy_touches
  batch_touches join_touches change_status_touches : networks.
#[local] Hint Resolve update_powerless policy_powerless settings_powerless join_powerless remove_powerless : networks.
(** A device that reports on itself. *)
#[local] Hint Extern 2 (powerless _ (Some ?d) _ _) => eapply endpoints_powerless; eassumption : networks.
#[local] Hint Extern 2 (bystander _ (Some ?d) _ _) => eapply endpoints_powerless; eassumption : networks.
#[local] Hint Extern 1 (powerless _ (Some ?d) _ (set_member_offers_exit _ _ _ _)) => apply exit_powerless : networks.
#[local] Hint Extern 1 (bystander _ (Some ?d) _ (set_member_offers_exit _ _ _ _)) => apply exit_powerless : networks.
#[local] Hint Extern 1 (powerless _ (Some ?d) _ (report_model_policy_status _ _ _ _ _)) => apply report_powerless : networks.
#[local] Hint Extern 1 (bystander _ (Some ?d) _ (report_model_policy_status _ _ _ _ _)) => apply report_powerless : networks.

(** Each handler writes its own network only. *)
Lemma approve_handler_touches now who p d db : effect (touches p) (approve_member_handler sql_text now who p d) db.
Proof. unfold approve_member_handler. effects. Qed.
Lemma deny_handler_touches who p d db : effect (touches p) (deny_member_handler sql_text who p d) db.
Proof. unfold deny_member_handler. effects. Qed.
Lemma patch_touches who p d req db : effect (touches p) (patch_member sql_text who p d req) db.
Proof. unfold patch_member. effects. Qed.
Lemma remove_handler_touches now who p d db : effect (touches p) (remove_member_handler sql_text now who p d) db.
Proof. unfold remove_member_handler, remove_member. effects. Qed.
Lemma rotate_handler_touches rng who p db : effect (touches p) (rotate_code rng who p) db.
Proof. unfold rotate_code. effects. Qed.
Lemma set_role_touches now who p a role db : effect (touches p) (set_role sql_text now who p a role) db.
Proof. unfold set_role. effects. Qed.
Lemma delete_handler_touches now who p db : effect (touches p) (delete_pin_handler now who p) db.
Proof. unfold delete_pin_handler. effects. Qed.
Lemma put_settings_touches who p req db : effect (touches p) (put_settings who p req) db.
Proof. unfold put_settings. effects. Qed.
Lemma set_models_touches now who p d models db : effect (touches p) (set_device_models sql_text now who p d models) db.
Proof. unfold set_device_models. effects. Qed.
Lemma sync_active_touches now key r p d req db : effect (touches p) (sync_active now key r p d req) db.
Proof. unfold sync_active. effects. Qed.

(** ** Confinement *)

Section Confined.
Context (who : AuthPrincipal) (db : PinDb).

Definition has_standing (p : string) : Prop := exists a, resolve_actor who p db = Ok a.
Definition is_admin (p : string) : Prop := exists a, require_admin_actor who p db = Ok a.
Definition has_role (p : string) : Prop := exists a, require_staff_actor who p db = Ok a.

(** What the caller may have done to the networks there are. *)
Definition confined (db' : PinDb) : Prop :=
  p_db db' = p_db db /\ forall p, is_Some (pins db !! p) ->
    (~ has_standing p -> outsider p (device_id who) db db') /\
    (~ has_role p -> bystander p (device_id who) db db') /\
    (~ is_admin p -> powerless p (device_id who) db db').

Lemma role_standing p : has_role p -> has_standing p.
Proof.
  intros [a Ha]. unfold require_staff_actor in Ha. destruct (resolve_actor who p db) as [x|] eqn:E; [|done]. by exists x.
Qed.
Lemma admin_role p : is_admin p -> has_role p.
Proof.
  intros [a Ha]. unfold require_admin_actor in Ha. unfold has_role, require_staff_actor.
  destruct (resolve_actor who p db) as [[acc role|]|]; [by exists acc|done..].
Qed.
Lemma admin_standing p : is_admin p -> has_standing p.
Proof. intros Ha. by apply role_standing, admin_role. Qed.

(** It is enough to look at the network that is written. *)
Lemma confined_at q db' :
  touches q db db' ->
  (is_Some (pins db !! q) ->
   (~ has_standing q -> outsider q (device_id who) db db') /\
   (~ has_role q -> bystander q (device_id who) db db') /\
   (~ is_admin q -> powerless q (device_id who) db db')) ->
  confined db'.
Proof.
  intros Ht Hq. split; [apply Ht|]. intros p Hp. destruct (decide (p = q)) as [-> |Hn]; [by apply Hq|].
  split_and!; intros _; [by eapply outsider_elsewhere|by eapply bystander_elsewhere|by eapply powerless_elsewhere].
Qed.

Lemma confined_refl : confined db.
Proof. split; [done|]. intros p _. split_and!; intros _; [apply outsider_refl|apply bystander_refl|apply powerless_refl]. Qed.

Lemma confined_admin q db' : touches q db db' -> is_admin q -> confined db'.
Proof.
  intros Ht Ha. apply (confined_at q); [done|]. intros _. split_and!; intros Hno; destruct Hno; [by apply admin_standing|by apply admin_role|done].
Qed.
Lemma confined_role q db' :
  touches q db db' -> has_role q -> powerless q (device_id who) db db' -> confined db'.
Proof.
  intros Ht Hr Hp. apply (confined_at q); [done|]. intros _. split_and!; [|..]; intros Hno; [|by destruct Hno|done].
  destruct Hno. by apply role_standing.
Qed.
Lemma confined_member q db' :
  touches q db db' -> has_standing q -> bystander q (device_id who) db db' -> powerless q (device_id who) db db' -> confined db'.
Proof. intros Ht Hs Hb Hp. apply (confined_at q); [done|]. intros _. split_and!; intros Hno; [by destruct Hno|done..]. Qed.

(** A handler behind the admin guard, and one behind the staff guard. *)
Lemma guarded_admin {A} q (k : string -> Handler A) :
  effect (touches q) (reads (require_admin_actor who q) ≫= k) db -> confined ((reads (require_admin_actor who q) ≫= k) db).2.
Proof.
  intros Ht. destruct (require_admin_actor who q db) as [a|e] eqn:E; [apply (confined_admin q); [exact Ht|by exists a]|].
  unfold mbind, handler_bind, reads. rewrite E. apply confined_refl.
Qed.
Lemma guarded_staff {A} q (k : string -> Handler A) :
  effect (touches q) (reads (require_staff_actor who q) ≫= k) db ->
  effect (powerless q (device_id who)) (reads (require_staff_actor who q) ≫= k) db ->
  confined ((reads (require_staff_actor who q) ≫= k) db).2.
Proof.
  intros Ht Hp. destruct (require_staff_actor who q db) as [a|e] eqn:E.
  - apply (confined_role q); [exact Ht|by exists a|exact Hp].
  - unfold mbind, handler_bind, reads. rewrite E. apply confined_refl.
Qed.

Lemma create_confined now id rng name : confined (create_pin_handler now id rng who name db).2.
Proof.
  unfold create_pin_handler, mbind, handler_bind, reads. destruct (ok_or _ _) as [a|]; [|apply confined_refl].
  unfold runs. destruct (create_pin now id rng name a db) as [[pin db']|] eqn:E; [|apply confined_refl].
  apply create_touches in E as [Ht Hid]. apply (confined_at id); [done|]. intros [r Hr]. cbn [snd] in *. congruence.
Qed.

Lemma patch_confined p d req : confined (patch_member sql_text who p d req db).2.
Proof.
  pose proof (patch_touches who p d req db) as Ht. unfold patch_member in *.
  destruct (bool_decide (pmr_disabled req <> None)) eqn:Eb; [by apply guarded_admin|].
  apply bool_decide_eq_false, dec_stable in Eb. rewrite Eb in *. apply guarded_staff; [done|]. effects.
Qed.

Lemma own_confined q d db' :
  device_id who = Some d -> touches q db db' -> outsider q (Some d) db db' -> bystander q (Some d) db db' ->
  powerless q (Some d) db db' -> confined db'.
Proof. intros Hd Ht Ho Hb Hp. apply (confined_at q); [done|]. intros _. by rewrite Hd. Qed.

Lemma sync_confined now key r p d req :
  device_id who = Some d -> member_status p d db = Some Active -> confined (sync_active now key r p d req db).2.
Proof.
  intros Hd Hs. apply (confined_member p); [apply sync_active_touches| |rewrite Hd..].
  - by apply (active_standing who p db d).
  - change (effect (bystander p (Some d)) (sync_active now key r p d req) db). unfold sync_active. effects.
  - change (effect (powerless p (Some d)) (sync_active now key r p d req) db). unfold sync_active. effects.
Qed.
End Confined.

Lemma void_db {A} (x : result GatewayError A * AppState) : st_db (void x).2 = st_db x.2.
Proof. done. Qed.

Lemma perform_confined now who call st db :
  st_db st = Some db -> exists db', st_db (perform now who call st).2 = Some db' /\ confined who db db'.
Proof.
  intros E. destruct call; simpl perform; rewrite void_db;
    try (rewrite (with_pool_db _ st db E); eexists; split; [reflexivity|]); cbn [fst snd].
  - apply create_confined.
  - apply confined_refl.
  - unfold join. destruct (require_device who) as [d|] eqn:Ed; [|by exists db; split; [|apply confined_refl]].
    unfold require_pool. rewrite E. cbn [ok_or]. destruct (join_allow d now _) as [ok lim]. destruct ok; cbn [negb].
    + rewrite (with_pool_db _ _ db) by done. eexists. split; [reflexivity|]. cbn [snd].
      unfold mbind, handler_bind, reads. destruct (find_by_join_code _ db) as [pin|]; [|apply confined_refl].
      unfold runs_, runs. destruct (submit_join _ _ _ _ _ db) as [db'|] eqn:Ej; [|apply confined_refl]. cbn [snd].
      assert (device_id who = Some d) as Hd by (unfold require_device in Ed; by destruct (device_id who); simplify_eq/=).
      eapply own_confined; [done|by eapply join_touches|by eapply join_outsider|by eapply join_bystander|by eapply join_powerless].
    + exists db. split; [done|apply confined_refl].
  - apply confined_refl.
  - apply confined_refl.
  - apply guarded_admin, approve_handler_touches.
  - apply guarded_admin, deny_handler_touches.
  - apply patch_confined.
  - apply guarded_admin, remove_handler_touches.
  - unfold leave. destruct (require_device who) as [d|] eqn:Ed; [|by exists db; split; [|apply confined_refl]].
    rewrite (with_pool_db _ st db E). eexists. split; [reflexivity|]. cbn [snd].
    unfold mbind, handler_bind, runs_, runs. destruct (remove_member _ _ _ _ db) as [db'|] eqn:Er; [|apply confined_refl].
    assert (device_id who = Some d) as Hd by (unfold require_device in Ed; by destruct (device_id who); simplify_eq/=).
    cbn [snd mret handler_ret].
    eapply own_confined; [done|by eapply change_status_touches|by eapply remove_outsider|by eapply remove_bystander|by eapply remove_powerless].
  - apply guarded_admin, rotate_handler_touches.
  - apply (guarded_admin who db p (fun _ => reads (known_pin p) ≫= (fun pin => mret (p_join_code pin)))). effects.
  - apply guarded_admin, set_role_touches.
  - apply guarded_staff; [apply put_settings_touches|]. effects.
  - apply guarded_admin, delete_handler_touches.
  - unfold sync. destruct (require_device who) as [d|] eqn:Ed; [|by exists db; split; [|apply confined_refl]].
    rewrite (with_pool_db _ st db E). eexists. split; [reflexivity|]. cbn [snd].
    assert (device_id who = Some d) as Hd by (unfold require_device in Ed; by destruct (device_id who); simplify_eq/=).
    unfold mbind at 1, handler_bind at 1, reads at 1. destruct (member_status p d db) as [[]|] eqn:Em;
      try apply confined_refl. by apply sync_confined.
  - apply guarded_staff; [apply set_models_touches|]. effects.
  - apply confined_refl.
  - unfold usage_report. destruct (require_device who) as [d|] eqn:Ed; [|by exists db; split; [|apply confined_refl]].
    rewrite (with_pool_db _ st db E). eexists. split; [reflexivity|]. cbn [snd].
    assert (device_id who = Some d) as Hd by (unfold require_device in Ed; by destruct (device_id who); simplify_eq/=).
    unfold mbind at 1, handler_bind at 1, reads at 1. case_bool_decide as Hs; [apply confined_refl|].
    destruct (is_empty _); [apply confined_refl|].
    unfold mbind, handler_bind, runs. destruct (record_usage_batch _ _ _ _ _ db) as [[b db']|] eqn:Eb; [|apply confined_refl].
    cbn [snd mret handler_ret]. apply (confined_member _ _ p); [by eapply batch_touches| |rewrite Hd; by eapply batch_powerless..].
    apply (active_standing who p db d); [done|]. destruct (decide (member_status p d db = Some Active)); [done|by destruct Hs].
  - apply confined_refl.
Qed.

Lemma resolve_actor_err who p db e : resolve_actor who p db = Err e -> e = unknown_network.
Proof.
  unfold resolve_actor. destruct (_ ≫= _); [done|]. destruct (device_id who); [|by intros [= <-]].
  case_bool_decide; [done|]. by intros [= <-].
Qed.

(** The calls that ask for standing in a network before anything else. *)
Definition asks (call : PinCall) : option string :=
  match call with
  | CallGet p | CallMembers p | CallApprove p _ | CallDeny p _ | CallPatch p _ _ | CallRemove p _ | CallRotate _ p
  | CallCode p | CallSetRole p _ _ | CallSettings p _ | CallDelete p | CallSetModels p _ _ | CallModels p
  | CallUsage p _ => Some p
  | CallCreate _ _ _ | CallList | CallJoin _ | CallLeave _ | CallSync _ _ | CallReport _ _ _ => None
  end.

Lemma perform_unknown now who call st db p :
  st_db st = Some db -> asks call = Some p -> ~ has_standing who db p ->
  (perform now who call st).1 = Err unknown_network.
Proof.
  intros E Ha Hn. destruct (resolve_actor who p db) as [a|e] eqn:Er; [destruct Hn; by exists a|].
  pose proof (resolve_actor_err _ _ _ _ Er) as ->.
  destruct call; simpl in Ha; simplify_eq; simpl perform; rewrite (with_pool_db _ st db E); unfold void; cbn [fst];
    unfold get_pin_handler, list_members, approve_member_handler, deny_member_handler, patch_member,
      remove_member_handler, rotate_code, get_join_code, set_role, put_settings, delete_pin_handler,
      set_device_models, get_models, usage, mbind, handler_bind, reads, require_admin_actor, require_staff_actor;
    rewrite ?Er; try done.
  destruct (bool_decide _); by rewrite Er.
Qed.


(** ** Knocking *)

Lemma find_by_join_code_live code db pin : find_by_join_code code db = Some pin -> is_Some (pins db !! p_pin_id pin).
Proof.
  unfold find_by_join_code. destruct (normalize_join_code code); [done|]. intros Hf.
  apply List.find_some in Hf as [Hin _]. apply list_elem_of_In, list_elem_of_fmap in Hin as ([id r] & -> & Hin).
  apply list_elem_of_In, filter_In in Hin as [Hin _].
  apply list_elem_of_In, elem_of_map_to_list in Hin. simpl. by exists r.
Qed.
Lemma submit_join_ok now p d key name db : is_Some (pins db !! p) -> exists db', submit_join now p d key name db = Ok db'.
Proof.
  intros [r Hr]. unfold submit_join, has. rewrite Hr.
  destruct (pin_members db !! (p, d)) as [m|]; [destruct (pm_status m)|]; eauto.
Qed.

(** A knock is answered the same way whatever the code: a device learns
    neither whether a network has the code nor whether it was over its limit.  It
    is recorded exactly when the limiter lets it through and a live network has
    the code. *)
Theorem join_is_no_oracle (now : Z) (who : AuthPrincipal) (d : string) (req : JoinReq) (st : AppState) (db : PinDb)
    (Hdevice : device_id who = Some d) (Hdb : st_db st = Some db) :
  (join now who req st).1 = Ok submitted /\
  st_db (join now who req st).2 =
    match (join_allow d now (st_pin_join_limiter st)).1, find_by_join_code (jr_join_code req) db with
    | true, Some pin => ok (submit_join now (p_pin_id pin) d (jr_node_pubkey req) (jr_display_name req) db)
    | _, _ => Some db
    end /\
  st_pin_join_limiter (join now who req st).2 = (join_allow d now (st_pin_join_limiter st)).2.
Proof.
  unfold join, require_device, require_pool. rewrite Hdevice, Hdb. cbn [ok_or].
  destruct (join_allow d now _) as [[] lim]; cbn [negb fst snd]; [|by split_and!].
  rewrite (with_pool_db _ _ db) by done. unfold mbind, handler_bind, reads, runs_, runs.
  destruct (find_by_join_code _ db) as [pin|] eqn:Ef; [|by split_and!].
  destruct (submit_join_ok now (p_pin_id pin) d (jr_node_pubkey req) (jr_display_name req) db) as [db' ->];
    [by apply (find_by_join_code_live (jr_join_code req))|]. by split_and!.
Qed.
End Calls.

(** ** Scheduling *)

Section Schedule.
Context `{PinJson} (powf : f64 -> f64 -> f64).

(** A device of the registry that is an active, serving member of the network. *)
Definition serves_network (p : string) (db : PinDb) (d : DeviceState) (m : PinMember) : Prop :=
  m ∈ members p db /\ mb_status m = Active /\ mb_serves_models m = true /\ mb_node_pubkey m = node_id d.
Definition network_devices (p : string) (r : Registry) (db : PinDb) : list DeviceState :=
  List.filter (fun d => has (node_id d) (serving_members p db)) (snapshot_devices r).

(** Keyed by relay key, the later entry winning. *)
Definition keyed (l : list PinMember) (m0 : gmap string PinMember) : gmap string PinMember :=
  foldl (fun m x => <[mb_node_pubkey x := x]> m) m0 l.

Lemma keyed_lookup (l : list PinMember) (m0 : gmap string PinMember) k x :
  keyed l m0 !! k = Some x -> m0 !! k = Some x \/ x ∈ l /\ mb_node_pubkey x = k.
Proof.
  revert m0. induction l as [|y l IH]; intros m0; simpl; [by left|]. intros [Hx|[Hx Hk]]%IH.
  - apply lookup_insert_Some in Hx as [[Hk <-]|[_ Hx]]; [|by left]. right. split; [by left|done].
  - right. split; [by right|done].
Qed.
Lemma keyed_keep (l : list PinMember) (m0 : gmap string PinMember) k : is_Some (m0 !! k) -> is_Some (keyed l m0 !! k).
Proof.
  revert m0. induction l as [|y l IH]; intros m0 Hm; [done|]. simpl. apply IH.
  destruct (decide (mb_node_pubkey y = k)) as [<- |]; [by rewrite lookup_insert_eq|by rewrite lookup_insert_ne].
Qed.
Lemma keyed_dom (l : list PinMember) (m0 : gmap string PinMember) x :
  x ∈ l -> is_Some (keyed l m0 !! mb_node_pubkey x).
Proof.
  revert m0. induction l as [|y l IH]; intros m0 Hx; [by apply not_elem_of_nil in Hx|]. simpl.
  apply elem_of_cons in Hx as [-> |Hx]; [|by apply IH]. apply keyed_keep. by rewrite lookup_insert_eq.
Qed.

Lemma serving_members_Some p db k m :
  serving_members p db !! k = Some m ->
  m ∈ members p db /\ mb_status m = Active /\ mb_serves_models m = true /\ mb_node_pubkey m = k.
Proof.
  intros [Hm|[Hm Hk]]%(keyed_lookup _ ∅ k m); [done|]. apply list_elem_of_In, filter_In in Hm as [Hm Hb].
  apply andb_true_iff in Hb as [Ha%bool_decide_eq_true Hs]. by rewrite list_elem_of_In.
Qed.

(** The candidates are the connected devices of serving members. *)
Lemma network_devices_spec p r db d :
  d ∈ network_devices p r db <-> d ∈ snapshot_devices r /\ exists m, serves_network p db d m.
Proof.
  unfold network_devices. rewrite !list_elem_of_In, filter_In, <- !list_elem_of_In. split.
  - intros [Hd Hh]. split; [done|]. unfold has in Hh.
    destruct (serving_members p db !! node_id d) as [m|] eqn:E; [|done]. exists m. by apply serving_members_Some.
  - intros [Hd (m & Hm & Ha & Hs & Hk)]. split; [done|]. unfold has. rewrite <- Hk.
    destruct (keyed_dom (List.filter (fun m => bool_decide (mb_status m = Active) && mb_serves_models m) (members p db)) ∅ m)
      as [m' Hm']; [|unfold keyed in Hm'; unfold serving_members; by rewrite Hm'].
    apply list_elem_of_In, filter_In. split; [by apply list_elem_of_In|]. by rewrite bool_decide_eq_true_2, Hs.
Qed.

(** Scheduling in a network never panics and answers only callers with
    standing.  It picks a connected device of an active, serving member that is
    dispatchable, as lightly loaded as any of those, and answers with that
    member; it reports that there is no device exactly when no device of a
    serving member is dispatchable. *)
Theorem schedule_sound (clk : Clock) (rng : nat) (who : AuthPrincipal) (p : string) (req : ScheduleReq) (r : Registry)
    (cfg : SchedulerConfig) (db : PinDb)
    (Hscore : forall d loaded,
       dispatchable powf clk cfg (network_devices p r db) (sc_model req) (sc_exclude req) r (sc_ctx_estimate req) d loaded ->
       f64_valid (score_of powf cfg r d loaded) = true /\ is_nan (score_of powf cfg r d loaded) = false) :
  let can := dispatchable powf clk cfg (network_devices p r db) (sc_model req) (sc_exclude req) r (sc_ctx_estimate req) in
  match schedule powf clk rng who p req r cfg db with
  | None => False
  | Some (Err e) =>
      (~ has_standing who db p /\ e = unknown_network) \/
      (has_standing who db p /\ e = NoEligibleDevice (sc_model req) /\ forall d loaded, ~ can d loaded)
  | Some (Ok a) =>
      has_standing who db p /\ exists d loaded m, can d loaded /\ serves_network p db d m /\
        (forall d' loaded', can d' loaded' -> load_of r d <= load_of r d') /\
        a = mkScheduleResponse (mb_device_id m) (node_id d) (mb_display_name m)
              (default [] (parse_endpoints (mb_endpoints m)))
  end.
Proof.
  pose proof (pick_meets_spec powf clk cfg _ _ _ _ _ rng Hscore) as Hp. unfold schedule.
  fold (network_devices p r db). destruct (resolve_actor who p db) as [actor|e] eqn:Er.
  - assert (has_standing who db p) as Hst by (by exists actor).
    destruct (pick _ _ _ _ _ _ _ _ _) as [d|]; [|by right].
    destruct Hp as (loaded & Hd & Hmin & _).
    assert (d ∈ network_devices p r db) as Hin by apply Hd.
    apply list_elem_of_In, filter_In in Hin as [_ Hh]. unfold has in Hh.
    destruct (serving_members p db !! node_id d) as [m|] eqn:Em; [|done]. simpl. split; [done|].
    apply serving_members_Some in Em as (Hm & Ha & Hs & Hk).
    exists d, loaded, m. split_and!; [done|by split_and!| |by rewrite Hk]. intros d' loaded' Hd'. by destruct (Hmin _ _ Hd').
  - left. split; [intros [a Ha]; congruence|by apply (resolve_actor_err who p db)].
Qed.
End Schedule.

(** ** A concrete gateway *)

#[local] Existing Instance toy_json.

Definition founded : PinDb :=
  pin_run [(10, PCreate "net" (fun k => k) " Home " ann); (11, PJoin "net" "laptop" "fast" None);
           (12, PApprove "net" "laptop" ann)] (pin_genesis demo).
Definition one_device : Registry :=
  Registry.set_devices {["fast" := toy_device "fast" 40 ["hermes-3-8b"]]} (reg toy_system).
Definition toy_gateway : AppState := mkAppState (Some founded) one_device default_scheduler (Some true) ∅.
Definition toy_sql_text (e : SqlError) : string := "sql".
Definition mallory : AuthPrincipal := PDevice "mallory".


Lemma join_is_no_oracle_witness :
  (join 30 mallory (mkJoinReq (chars "abcd-efgh-jk") None "k") toy_gateway).1 = Ok submitted /\
  (join 30 mallory (mkJoinReq (chars "nothing") None "k") toy_gateway).1 = Ok submitted.
Proof.
  split.
  - exact (proj1 (join_is_no_oracle 30 mallory "mallory" (mkJoinReq (chars "abcd-efgh-jk") None "k") toy_gateway founded
             eq_refl eq_refl)).
  - exact (proj1 (join_is_no_oracle 30 mallory "mallory" (mkJoinReq (chars "nothing") None "k") toy_gateway founded
             eq_refl eq_refl)).
Defined.

Definition toy_request : ScheduleReq := mkScheduleReq "hermes-3-8b" (Some 4096) [].

Lemma schedule_sound_witness :
  schedule toy_powf (at_secs 6) 17 (PDevice "laptop") "net" toy_request one_device default_scheduler founded =
    Some (Ok (mkScheduleResponse "laptop" "fast" None [])) /\
  exists d loaded m, dispatchable toy_powf (at_secs 6) default_scheduler (network_devices "net" one_device founded)
    "hermes-3-8b" [] one_device (Some 4096) d loaded /\ serves_network "net" founded d m.
Proof.
  assert (schedule toy_powf (at_secs 6) 17 (PDevice "laptop") "net" toy_request one_device default_scheduler founded =
    Some (Ok (mkScheduleResponse "laptop" "fast" None []))) as E by (vm_compute; reflexivity).
  split; [exact E|].
  pose proof (schedule_sound toy_powf (at_secs 6) 17 (PDevice "laptop") "net" toy_request one_device default_scheduler
    founded) as Hs. cbv zeta in Hs. rewrite E in Hs. destruct Hs as (_ & d & loaded & m & Hd & Hm & _).
  - intros d loaded [[Hin _ _ _ _] _]. apply network_devices_spec in Hin as [Hin _].
    assert (d = toy_device "fast" 40 ["hermes-3-8b"]) as ->.
    { apply list_elem_of_fmap in Hin as ([k x] & -> & Hk). apply elem_of_map_to_list in Hk.
      simpl in Hk. apply lookup_singleton_Some in Hk as [_ <-]. done. }
    destruct loaded; split; vm_compute; reflexivity.
  - exists d, loaded, m. split; [exact Hd|exact Hm].
Defined.

(** A network that was deleted still schedules for its members. *)
Lemma deleted_network_schedules :
  exists db', delete_pin 40 "net" founded = Ok db' /\ get_pin "net" db' = None /\
    schedule toy_powf (at_secs 6) 17 (PDevice "laptop") "net" toy_request one_device default_scheduler db' =
      Some (Ok (mkScheduleResponse "laptop" "fast" None [])).
Proof. eexists. split; [vm_compute; reflexivity|]. split; vm_compute; reflexivity. Qed.

(** A failed [disabled] change leaves the rename of the same request behind. *)
Lemma patch_is_not_atomic :
  let r := patch_member toy_sql_text (PApiKey "k" ann Live None 0) "net" "laptop"
             (mkPatchMemberReq (Some "Renamed") None (Some false)) founded in
  r.1 = Err (Conflict "device is not disabled in this network") /\
  pm_display_name <$> pin_members r.2 !! ("net", "laptop") = Some (Some "Renamed").
Proof. split; vm_compute; reflexivity. Qed.
