(* ===== verification/PinNode.v ===== *)
(** * A device in its networks

    [node/src/pin/manager.rs]: the pinned gateway key, the verified netmaps in
    memory and on disk, and who may connect.  Answers of the gateway and the
    outcome of file writes are arguments; a cached file is the netmap that was
    written to it, or unreadable.  [HashMap] iteration is in the order of the
    keys. *)

From S2P Require Import Prelude Db RustStr Merkle Pins PinWire.
From stdpp Require Import sorting.

Open Scope string_scope.
Open Scope list_scope.
Open Scope Z_scope.

Record PinMembership : Type := mkPinMembership {
  pmb_pin_id : string;
  pmb_name : string;
  pmb_status : string
}.
Record PinState : Type := mkPinState {
  nst_pin_id : string;
  nst_name : string;
  nst_membership : string;
  nst_netmap : option SignedPinNetmap;
  nst_settings : option Json;
  nst_model_policy : list Json
}.
(** The answer of [/v1/pins/:id/sync]. *)
Record SyncAnswer : Type := mkSyncAnswer {
  sa_membership : string;
  sa_netmap : option SignedPinNetmap;
  sa_model_policy : list Json;
  sa_settings : option Json
}.

(** [PinManager] with the files of its data directory. *)
Record PinManager : Type := mkPinManager {
  pinned_gateway_key : option string;
  node_state : gmap string PinState;
  key_file : option string;
  netmap_files : gmap string (option SignedPinNetmap)
}.
Definition set_pinned (key : string) (m : PinManager) : PinManager :=
  mkPinManager (Some key) (node_state m) (Some key) (netmap_files m).
Definition set_state (x : gmap string PinState) (m : PinManager) : PinManager :=
  mkPinManager (pinned_gateway_key m) x (key_file m) (netmap_files m).
Definition set_file (pin_id : string) (s : SignedPinNetmap) (m : PinManager) : PinManager :=
  mkPinManager (pinned_gateway_key m) (node_state m) (key_file m) (<[pin_id := Some s]> (netmap_files m)).
Definition with_netmap (s : SignedPinNetmap) (st : PinState) : PinState :=
  mkPinState (nst_pin_id st) (nst_name st) (nst_membership st) (Some s) (nst_settings st) (nst_model_policy st).

Section Node.
Context `{WireCrates} `{Crates}.

(** ** Start *)

Definition cached_state (now : Z) (pinned : string) (f : option SignedPinNetmap) : option PinState :=
  signed ← f;
  if negb (verify pinned signed) || is_stale now signed then None
  else Some (mkPinState (n_pin_id (sn_netmap signed)) (n_name (sn_netmap signed)) "active" (Some signed) None []).
Definition load_cached_netmaps (now : Z) (m : PinManager) : PinManager :=
  match pinned_gateway_key m with
  | None => m
  | Some pinned =>
      set_state (foldl (fun state f =>
        match cached_state now pinned f with
        | Some st => <[nst_pin_id st := st]> state
        | None => state
        end) (node_state m) (map_to_list (netmap_files m)).*2) m
  end.
Definition new_manager (now : Z) (configured_gateway_pubkey key_file : option string)
    (files : gmap string (option SignedPinNetmap)) : PinManager :=
  let pinned := match configured_gateway_pubkey with
                | Some k => Some k
                | None => s ← key_file; if is_empty (trim s) then None else Some (trim s)
                end in
  load_cached_netmaps now (mkPinManager pinned ∅ key_file files).

(** ** Netmaps *)

(** [io] tells which writes succeed. *)
Definition accept_netmap (now : Z) (io : string -> bool) (pin_id : string) (signed : SignedPinNetmap) (m : PinManager)
    : result anyhow unit * PinManager :=
  match (match pinned_gateway_key m with
         | Some key => Ok (key, m)
         | None =>
             let key := sn_gateway_pubkey signed in
             if io "gateway.pub" then Ok (key, set_pinned key m) else Err (Bail "persist pinned gateway key")
         end) with
  | Err e => (Err e, m)
  | Ok (pinned, m) =>
      if negb (verify pinned signed) then
        (Err (Bail ("netmap signature verification failed for network " ++ pin_id)), m)
      else if is_stale now signed then (Err (Bail ("netmap for network " ++ pin_id ++ " is stale")), m)
      else if negb (io pin_id) then (Err (Bail "persist netmap"), m)
      else
        let m := set_file pin_id signed m in
        (Ok tt, set_state (alter (with_netmap signed) pin_id (node_state m)) m)
  end.

(** One turn of the loop of [sync_once]. *)
Definition sync_one (now : Z) (io : string -> bool) (mb : PinMembership) (answer : result anyhow SyncAnswer)
    (m : PinManager) : result anyhow unit * PinManager :=
  match answer with
  | Err e => (Err e, m)
  | Ok resp =>
      let id := pmb_pin_id mb in
      let netmap := node_state m !! id ≫= nst_netmap in
      let entry := mkPinState (default id (nst_pin_id <$> node_state m !! id)) (pmb_name mb) (sa_membership resp) netmap
                     (sa_settings resp) (sa_model_policy resp) in
      let m := set_state (<[id := entry]> (node_state m)) m in
      match sa_netmap resp with
      | Some signed => accept_netmap now io id signed m
      | None => (Ok tt, m)
      end
  end.
Fixpoint sync_networks (now : Z) (io : string -> bool) (answers : string -> result anyhow SyncAnswer)
    (memberships : list PinMembership) (synced : nat) (m : PinManager) : result anyhow nat * PinManager :=
  match memberships with
  | [] => (Ok synced, m)
  | mb :: memberships =>
      match sync_one now io mb (answers (pmb_pin_id mb)) m with
      | (Ok _, m) => sync_networks now io answers memberships (S synced) m
      | (Err e, m) => (Err e, m)
      end
  end.
(** [fetched] is the answer of [GET /v1/pins]. *)
Definition sync_once (now : Z) (io : string -> bool) (fetched : result anyhow (list PinMembership))
    (answers : string -> result anyhow SyncAnswer) (m : PinManager) : result anyhow nat * PinManager :=
  match fetched with
  | Err e => (Err e, m)
  | Ok memberships =>
      let known := list_to_set (C := gset string) (pmb_pin_id <$> memberships) in
      let m := set_state (filter (fun kv => kv.1 ∈ known) (node_state m)) m in
      sync_networks now io answers memberships 0 m
  end.

(** ** Who may connect *)

Definition live_member (key : string) (mb : PinNetmapMember) : bool :=
  negb (nm_disabled mb) && eq_ignore_ascii_case (nm_wg_pubkey mb) key.
Definition active_netmap (st : PinState) : option PinNetmap :=
  if String.eqb (nst_membership st) "active" then sn_netmap <$> nst_netmap st else None.

(** [peer] is the static key of the peer. *)
Definition authorizer (peer : list byte) (m : PinManager) : bool :=
  existsb (fun st =>
    match active_netmap st with
    | Some n => existsb (live_member (hex_encode peer)) (n_members n)
    | None => false
    end) (map_to_list (node_state m)).*2.

Definition serves_model (own_wg model_id : string) (mb : PinNetmapMember) : bool :=
  negb (nm_disabled mb || negb (nm_serves_models mb) || eq_ignore_ascii_case (nm_wg_pubkey mb) own_wg ||
        negb (existsb (String.eqb model_id) (nm_loaded_models mb))).
Definition serving_peers_for_model (own_wg model_id : string) (m : PinManager) : list (string * PinNetmapMember) :=
  (map_to_list (node_state m)).*2 ≫= (fun st =>
    match active_netmap st with
    | Some n => (fun mb => (nst_pin_id st, mb)) <$> List.filter (serves_model own_wg model_id) (n_members n)
    | None => []
    end).

Fixpoint find_member (key : string) (states : list PinState) : option (string * PinNetmapMember) :=
  match states with
  | [] => None
  | st :: states =>
      match active_netmap st ≫= (fun n => List.find (live_member key) (n_members n)) with
      | Some mb => Some (nst_pin_id st, mb)
      | None => find_member key states
      end
  end.
Definition member_for_wg_key (wg_pubkey_hex : string) (m : PinManager) : option (string * PinNetmapMember) :=
  find_member wg_pubkey_hex (map_to_list (node_state m)).*2.

Definition name_before (a b : PinState) : Prop := String.leb (nst_name a) (nst_name b) = true.
#[export] Instance name_before_dec a b : Decision (name_before a b).
Proof. unfold name_before. apply _. Defined.
Definition snapshot (m : PinManager) : list PinState := merge_sort name_before (map_to_list (node_state m)).*2.
End Node.
