(* ===== verification/PinNodeFacts.v ===== *)
(** * Who a device lets in

    Along every run of a device the netmaps it holds carry a valid signature of
    the pinned gateway key and were fresh when it took them in, and only their
    members may connect; what the gateway answers to a sync is accepted. *)

From stdpp Require Import sorting.
From S2P Require Import Prelude Db RustStr Merkle Registry Scheduler RegistryFacts SchedulerFacts Pins PinsFacts Auth PinWire PinWireFacts PinHandlers PinHandlersFacts PinNode.

Open Scope string_scope.
Open Scope list_scope.
Open Scope Z_scope.

Section Node.
Context `{WireCrates} `{Crates}.

(** A device with a configured gateway key, its syncs and its restarts, with the
    times of them, the last first. *)
Inductive node_reachable (key : string) : list Z -> PinManager -> Prop :=
| node_start now file files : node_reachable key [now] (new_manager now (Some key) file files)
| node_sync times m now io fetched answers :
    node_reachable key times m -> node_reachable key (now :: times) (sync_once now io fetched answers m).2
| node_restart times m now :
    node_reachable key times m -> node_reachable key (now :: times) (new_manager now (Some key) (key_file m) (netmap_files m)).

(** Issued at most 24 hours before. *)
Definition a_day_old_at_most (now : Z) (s : SignedPinNetmap) : Prop :=
  i64_sub now (n_issued_at (sn_netmap s)) <= 24 * 60 * 60.
Lemma fresh_day now s : is_stale now s = false -> a_day_old_at_most now s.
Proof. by intros Hs%Z.ltb_ge. Qed.

Definition vetted (key : string) (times : list Z) (s : SignedPinNetmap) : Prop :=
  verify key s = true /\ exists t, t ∈ times /\ a_day_old_at_most t s.
Definition all_vetted (key : string) (times : list Z) (states : gmap string PinState) : Prop :=
  forall id st s, states !! id = Some st -> nst_netmap st = Some s -> vetted key times s.
Definition node_ok (key : string) (times : list Z) (m : PinManager) : Prop :=
  pinned_gateway_key m = Some key /\ all_vetted key times (node_state m).

Lemma vetted_now key now times s : verify key s = true -> is_stale now s = false -> vetted key (now :: times) s.
Proof. intros Hv Hs. split; [done|]. exists now. split; [by left|by apply fresh_day]. Qed.
Lemma node_ok_later key now times m : node_ok key times m -> node_ok key (now :: times) m.
Proof.
  intros [Hp Hv]. split; [done|]. intros id st s Hi Hs. destruct (Hv id st s Hi Hs) as (Hk & t & Ht & Hd).
  split; [done|]. exists t. split; [by right|done].
Qed.

Lemma all_vetted_insert key times id st states :
  (forall s, nst_netmap st = Some s -> vetted key times s) -> all_vetted key times states ->
  all_vetted key times (<[id := st]> states).
Proof.
  intros Hst Hs i x s Hi. apply lookup_insert_Some in Hi as [[_ <-]|[_ Hi]]; [apply Hst|by eapply Hs].
Qed.

Lemma new_manager_ok key now times file files : node_ok key (now :: times) (new_manager now (Some key) file files).
Proof.
  split; [done|]. unfold new_manager, load_cached_netmaps. simpl.
  generalize (map_to_list files).*2 as l. intros l.
  assert (all_vetted key (now :: times) ∅) as H0' by (intros ? ? ? Hn; by rewrite lookup_empty in Hn).
  revert H0'. generalize (∅ : gmap string PinState) as states. induction l as [|f l IH]; intros states Hs; [done|].
  simpl. apply IH. unfold cached_state. destruct f as [signed|]; [|done]. simpl.
  destruct (verify key signed) eqn:Ev; simpl; [|done]. destruct (is_stale now signed) eqn:Es; [done|].
  apply all_vetted_insert; [|done]. simpl. intros s [= <-]. by apply vetted_now.
Qed.

Lemma accept_netmap_ok key now times io id signed m :
  node_ok key (now :: times) m -> node_ok key (now :: times) (accept_netmap now io id signed m).2.
Proof.
  intros [Hp Hv]. unfold accept_netmap. rewrite Hp. destruct (verify key signed) eqn:Ev; [|done]. cbn [negb].
  destruct (is_stale now signed) eqn:Es; [done|]. destruct (io id); [|done]. cbn [negb]. split; [done|]. simpl.
  intros i st s Hi Hs. destruct (decide (i = id)) as [-> |Hn].
  - rewrite lookup_alter_eq in Hi. destruct (node_state m !! id); simplify_eq/=. by apply vetted_now.
  - rewrite lookup_alter_ne in Hi by done. by eapply Hv.
Qed.

Lemma sync_networks_ok key now times io answers mbs n m :
  node_ok key (now :: times) m -> node_ok key (now :: times) (sync_networks now io answers mbs n m).2.
Proof.
  revert n m. induction mbs as [|mb mbs IH]; intros n m Hm; [done|]. simpl.
  assert (node_ok key (now :: times) (sync_one now io mb (answers (pmb_pin_id mb)) m).2) as Hone.
  { unfold sync_one. destruct (answers _) as [resp|]; [|done].
    set (entry := mkPinState _ _ _ _ _ _).
    assert (node_ok key (now :: times) (set_state (<[pmb_pin_id mb := entry]> (node_state m)) m)) as Hm'.
    { destruct Hm as [Hp Hv]. split; [done|]. apply all_vetted_insert; [|done]. simpl. intros s Hs.
      destruct (node_state m !! pmb_pin_id mb) as [st|] eqn:E; simpl in Hs; [|done]. by eapply Hv. }
    destruct (sa_netmap resp); [by apply accept_netmap_ok|done]. }
  destruct (sync_one _ _ _ _ _) as [[|] m']; simpl in *; [by apply IH|done].
Qed.

Lemma node_reachable_ok key times m : node_reachable key times m -> node_ok key times m.
Proof.
  induction 1 as [now file files|times m now io fetched answers _ IH|times m now _ IH]; try apply new_manager_ok.
  apply (node_ok_later _ now) in IH. unfold sync_once. destruct fetched; [|done]. apply sync_networks_ok.
  destruct IH as [Hp Hv]. split; [done|].
  intros id st s Hi. simpl in Hi. apply map_lookup_filter_Some in Hi as [Hi _]. by eapply Hv.
Qed.

(** ** Peers *)

(** A member that an active, held netmap lists, by the key of the peer. *)
Definition lists_peer (m : PinManager) (hexkey : string) (id : string) (s : SignedPinNetmap) (mb : PinNetmapMember) : Prop :=
  exists st, node_state m !! id = Some st /\ nst_membership st = "active" /\ nst_netmap st = Some s /\
    mb ∈ n_members (sn_netmap s) /\ nm_disabled mb = false /\ eq_ignore_ascii_case (nm_wg_pubkey mb) hexkey = true.

Lemma active_netmap_Some st n :
  active_netmap st = Some n <-> nst_membership st = "active" /\ exists s, nst_netmap st = Some s /\ sn_netmap s = n.
Proof.
  unfold active_netmap. destruct (String.eqb_spec (nst_membership st) "active"); [|by split; [|intros []]].
  destruct (nst_netmap st) as [s|]; simpl; split; [intros [= <-]; eauto|intros (_ & ? & [= <-] & <-); done|done|].
  by intros (_ & ? & ? & _).
Qed.

Lemma authorizer_spec peer m :
  authorizer peer m = true <-> exists id s mb, lists_peer m (hex_encode peer) id s mb.
Proof.
  unfold authorizer. rewrite existsb_exists. split.
  - intros (st & Hst & Ha). apply list_elem_of_In, list_elem_of_fmap in Hst as ([id st'] & -> & Hid).
    apply elem_of_map_to_list in Hid. simpl in Ha. destruct (active_netmap st') as [n|] eqn:E; [|done].
    apply active_netmap_Some in E as (Hm & s & Hs & <-). apply existsb_exists in Ha as (mb & Hmb & Hl).
    unfold live_member in Hl. apply andb_true_iff in Hl as [Hd He]. apply negb_true_iff in Hd.
    exists id, s, mb, st'. rewrite list_elem_of_In. by split_and!.
  - intros (id & s & mb & st & Hid & Hm & Hs & Hmb & Hd & He). exists st. split.
    + apply list_elem_of_In, list_elem_of_fmap. exists (id, st). split; [done|]. by apply elem_of_map_to_list.
    + rewrite (proj2 (active_netmap_Some st (sn_netmap s))) by eauto. apply existsb_exists. exists mb.
      split; [by apply list_elem_of_In|]. unfold live_member. by rewrite Hd, He.
Qed.

(** The lookup that follows an authorized connection finds a member. *)
Lemma member_for_authorized peer m : is_Some (member_for_wg_key (hex_encode peer) m) <-> authorizer peer m = true.
Proof.
  unfold member_for_wg_key, authorizer. induction ((map_to_list (node_state m)).*2) as [|st l IH]; simpl.
  { split; [by intros []|done]. }
  rewrite orb_true_iff, <- IH. destruct (active_netmap st) as [n|]; simpl; [|split; [by right|by intros [|]]].
  destruct (List.find (live_member (hex_encode peer)) (n_members n)) as [mb|] eqn:Ef.
  - split; [intros _; left|by eauto]. apply List.find_some in Ef. apply existsb_exists. by exists mb.
  - assert (existsb (live_member (hex_encode peer)) (n_members n) = false) as ->; [|by split; [right|intros [|]]].
    apply not_true_iff_false. intros (mb & Hmb & Hl)%existsb_exists. by rewrite (List.find_none _ _ Ef mb Hmb) in Hl.
Qed.
End Node.

Section Claims.
Context `{WireCrates} `{Crates} `{!WireLaws} `{!CrateLaws}.

(** C37: In every state a device with the gateway key configured can reach,
    through syncs with any answers and restarts from any files it wrote, a peer
    may connect only when the netmap it holds for an active network lists the
    peer's key for a member that is not disabled; that netmap carries a valid
    signature of the gateway over its canonical bytes, and was at most 24 hours
    old when the device took it in, at one of its syncs or starts.  As long as that netmap is
    at most 24 hours old the peers it lists may connect, and the lookup that
    follows finds who a peer is whenever it may.  (Whether a peer of a netmap
    that has grown older may still connect is not claimed: the code lets it,
    [stale_netmap_admits].) *)
Theorem peer_admission_authentic (k : SigningKey) (times : list Z) (m : PinManager) (peer : list byte)
    (Hreach : node_reachable (public_key_hex k) times m) :
  (authorizer peer m = true -> exists id s mb, lists_peer m (hex_encode peer) id s mb) /\
  (forall now id s mb, lists_peer m (hex_encode peer) id s mb -> a_day_old_at_most now s -> authorizer peer m = true) /\
  (is_Some (member_for_wg_key (hex_encode peer) m) <-> authorizer peer m = true) /\
  (forall id s mb, lists_peer m (hex_encode peer) id s mb ->
     hex_decode (nm_wg_pubkey mb) = Some peer /\
     (exists t, t ∈ times /\ a_day_old_at_most t s) /\
     exists sig, hex_decode (sn_signature s) = Some sig /\
       vk_verify (verifying_key k) (canonical_json (netmap_value (sn_netmap s))) sig = true).
Proof.
  split; [apply authorizer_spec|]. split; [intros now id s mb Hl _; apply authorizer_spec; by exists id, s, mb|].
  split; [apply member_for_authorized|].
  intros id s mb (st & Hid & _ & Hs & _ & _ & He). split.
  - apply bool_decide_eq_true in He. rewrite (hex_decode_case _ _ He). apply hex_decode_encode.
  - destruct (node_reachable_ok _ _ _ Hreach) as [_ Hv]. destruct (Hv id st s Hid Hs) as [Hk Ht]. split; [exact Ht|].
    apply verify_spec in Hk as (_ & sig & Hd & _ & Hsig). by exists sig.
Qed.

(** ** The gateway and the device *)

Lemma sign_netmap_verifies n k : verify (public_key_hex k) (sign_netmap n k) = true.
Proof.
  apply verify_spec. unfold sign_netmap. cbn [sn_gateway_pubkey sn_signature sn_netmap]. split.
  - by apply bool_decide_eq_true_2.
  - exists (sign k (canonical_json (netmap_value n))). unfold sign_hex.
    by rewrite hex_decode_encode, sign_length, sign_verifies.
Qed.

Context `{PinJson}.

Lemma bind_ok {A B} (h : Handler A) (f : A -> Handler B) db b db' :
  (h ≫= f) db = (Ok b, db') -> exists a db1, h db = (Ok a, db1) /\ f a db1 = (Ok b, db').
Proof. unfold mbind, handler_bind. destruct (h db) as [[a|] db1]; [|done]. eauto. Qed.

Lemma sync_active_signed now k r p d req db resp db' :
  sync_active now (Some k) r p d req db = (Ok resp, db') ->
  exists n, sy_netmap resp = Some (sign_netmap n k) /\ n_issued_at n = now /\ n_pin_id n = p.
Proof.
  unfold sync_active. intros E. apply bind_ok in E as (_ & db1 & _ & E). apply bind_ok in E as (_ & db2 & _ & E).
  apply bind_ok in E as (_ & db3 & _ & E). apply bind_ok in E as (pin & db4 & _ & E).
  apply bind_ok in E as (key & db5 & Ek & E). apply bind_ok in E as (n & db6 & En & E).
  apply bind_ok in E as (policy & db7 & _ & E). unfold reads in Ek, En. unfold mret, handler_ret in E.
  cbn [ok_or] in Ek. injection Ek as <- <-. injection E as <- _. injection En as En _. unfold build_netmap in En.
  destruct (get_pin p db4) as [pin'|] eqn:Ep; [|done]. cbn [ok_or map_err] in En. injection En as <-.
  eexists. split; [reflexivity|]. split; [done|]. simpl.
  unfold get_pin in Ep. destruct (live_pin p db4); [|done]. by injection Ep as <-.
Qed.

(** The answer of the gateway to a sync of an active member is accepted by
    the device within the lifetime of a netmap, if the device pinned the key of
    this gateway or none yet: the netmap is stored, and the pinned key is that of
    the gateway. *)
Theorem synced_netmap_accepted (now t : Z) (who : AuthPrincipal) (p : string) (req : SyncReq) (st st' : AppState)
    (resp : SyncResponse) (k : SigningKey) (m : PinManager) (entry : PinState)
    (Hkey : st_identity st = Some k) (Hsync : sync now who p req st = (Ok resp, st'))
    (Hactive : sy_membership resp = "active")
    (Hpin : pinned_gateway_key m = None \/ pinned_gateway_key m = Some (public_key_hex k))
    (Htime : 0 <= now <= t) (Hage : t <= now + NETMAP_MAX_AGE_SECONDS) (Hrange : t <= 2 ^ 62)
    (Hentry : node_state m !! p = Some entry) :
  exists s m', sy_netmap resp = Some s /\ n_pin_id (sn_netmap s) = p /\
    accept_netmap t (fun _ => true) p s m = (Ok tt, m') /\ pinned_gateway_key m' = Some (public_key_hex k) /\
    node_state m' !! p = Some (with_netmap s entry).
Proof.
  unfold sync in Hsync. destruct (require_device who) as [d|]; [|done].
  unfold with_pool in Hsync. destruct (require_pool st) as [db|]; [|done].
  unfold mbind at 1, handler_bind at 1, reads at 1 in Hsync.
  assert (exists db', sync_active now (Some k) (st_registry st) p d req db = (Ok resp, db')) as [db' Ha].
  { rewrite Hkey in Hsync. destruct (member_status p d db) as [[]|]; unfold mret, handler_ret in Hsync; simplify_eq/=;
      destruct (sync_active _ _ _ _ _ _ _) as [ra dba]; simplify_eq. by eexists. }
  destruct (sync_active_signed _ _ _ _ _ _ _ _ _ Ha) as (n & Hs & Hi & Hid).
  exists (sign_netmap n k). eexists. split; [done|]. split; [done|].
  assert (is_stale t (sign_netmap n k) = false) as Hst.
  { unfold is_stale. cbn [sn_netmap sign_netmap]. rewrite Hi, i64_sub_id by range. apply Z.ltb_ge. lia. }
  assert (accept_netmap t (fun _ => true) p (sign_netmap n k) m =
    (Ok tt, set_state (alter (with_netmap (sign_netmap n k)) p (node_state m))
       (set_file p (sign_netmap n k) (match pinned_gateway_key m with Some _ => m | None => set_pinned (public_key_hex k) m end))))
    as ->.
  { unfold accept_netmap. destruct Hpin as [-> | ->]; cbn [sn_gateway_pubkey sign_netmap];
      fold (sign_netmap n k); rewrite sign_netmap_verifies, Hst; done. }
  split; [reflexivity|]. split; [destruct Hpin as [E|E]; simpl; by rewrite E|].
  simpl. by rewrite lookup_alter_eq, Hentry.
Qed.
End Claims.

(** ** First contact *)

(** Without a configured key the device pins the key of the first netmap it is
    handed before it looks at the signature: a netmap that does not verify is
    rejected, but its key stays, and the netmaps of the gateway are rejected from
    then on. *)
Lemma first_contact_pins_unverified :
  let forged := mkSignedPinNetmap toy_netmap (public_key_hex false) "" in
  let fresh := mkPinManager None ∅ None ∅ in
  let m := (accept_netmap 1750000100 (fun _ => true) "pin-1" forged fresh).2 in
  (accept_netmap 1750000100 (fun _ => true) "pin-1" forged fresh).1 =
    Err (Bail "netmap signature verification failed for network pin-1") /\
  (accept_netmap 1750000100 (fun _ => true) "pin-1" (sign_netmap toy_netmap true) fresh).1 = Ok tt /\
  (accept_netmap 1750000100 (fun _ => true) "pin-1" (sign_netmap toy_netmap true) m).1 =
    Err (Bail "netmap signature verification failed for network pin-1").
Proof. cbv zeta. split; [vm_compute; reflexivity|]. split; vm_compute; reflexivity. Qed.

(** The network a netmap is stored for is not compared with the one it is about. *)
Lemma netmap_of_another_network :
  let entry := mkPinState "pin-2" "other" "active" None None [] in
  let m := mkPinManager (Some (public_key_hex true)) {["pin-2" := entry]} None ∅ in
  let r := accept_netmap 1750000100 (fun _ => true) "pin-2" (sign_netmap toy_netmap true) m in
  r.1 = Ok tt /\ authorizer [u8 187] r.2 = true /\
  node_state r.2 !! "pin-2" = Some (with_netmap (sign_netmap toy_netmap true) entry).
Proof. cbv zeta. split; [vm_compute; reflexivity|]. split; vm_compute; reflexivity. Qed.

(** ** Concrete runs *)

Definition toy_membership : PinMembership := mkPinMembership "pin-1" "hq" "active".
Definition toy_answers (id : string) : result anyhow SyncAnswer :=
  Ok (mkSyncAnswer "active" (Some (sign_netmap toy_netmap true)) [] None).
Definition toy_node : PinManager :=
  (sync_once 1750000100 (fun _ => true) (Ok [toy_membership]) toy_answers
     (new_manager 1750000000 (Some (public_key_hex true)) None ∅)).2.

Lemma peer_admission_authentic_witness :
  authorizer [u8 187] toy_node = true /\ authorizer [u8 188] toy_node = false /\
  exists id s mb t, lists_peer toy_node (hex_encode [u8 187]) id s mb /\ t ∈ [1750000100; 1750000000] /\ a_day_old_at_most t s.
Proof.
  assert (node_reachable (public_key_hex true) [1750000100; 1750000000] toy_node) as Hr by (apply node_sync, node_start).
  destruct (@peer_admission_authentic toy_wire toy_crates toy_wire_laws toy_laws true _ toy_node [u8 187] Hr)
    as (Ha & _ & _ & Hv).
  assert (authorizer [u8 187] toy_node = true) as E by (vm_compute; reflexivity).
  split; [exact E|]. split; [vm_compute; reflexivity|]. destruct (Ha E) as (id & s & mb & Hl).
  destruct (Hv id s mb Hl) as (_ & (t & Ht & Hd) & _). exists id, s, mb, t. split; [exact Hl|]. split; [exact Ht|exact Hd].
Defined.

(** A netmap that grew stale in memory goes on admitting its peers until the
    device is restarted. *)
Lemma stale_netmap_admits :
  let three_days_later := 1750000100 + 3 * 24 * 60 * 60 in
  let idle := (sync_once three_days_later (fun _ => true) (Err (Bail "gateway unreachable")) toy_answers toy_node).2 in
  is_stale three_days_later (sign_netmap toy_netmap true) = true /\ authorizer [u8 187] idle = true /\
  authorizer [u8 187] (new_manager three_days_later (Some (public_key_hex true)) None (netmap_files idle)) = false.
Proof. cbv zeta. split; [vm_compute; reflexivity|]. split; vm_compute; reflexivity. Qed.

#[local] Existing Instance toy_json.
Definition laptop_sync : SyncReq := mkSyncReq [] "bb" [] None None [].
Definition laptop_entry : PinState := mkPinState "net" "Home" "active" None None [].
Definition laptop_node : PinManager := mkPinManager None {["net" := laptop_entry]} None ∅.

Lemma synced_netmap_accepted_witness :
  exists resp s m', (sync 100 (PDevice "laptop") "net" laptop_sync toy_gateway).1 = Ok resp /\ sy_netmap resp = Some s /\
    accept_netmap 200 (fun _ => true) "net" s laptop_node = (Ok tt, m') /\
    node_state m' !! "net" = Some (with_netmap s laptop_entry).
Proof.
  assert (match (sync 100 (PDevice "laptop") "net" laptop_sync toy_gateway).1 with
          | Ok resp => sy_membership resp | Err _ => "" end = "active") as Hm by (vm_compute; reflexivity).
  destruct (sync 100 (PDevice "laptop") "net" laptop_sync toy_gateway) as [[resp|e] st'] eqn:E; [|discriminate Hm].
  cbn [fst] in Hm.
  destruct (@synced_netmap_accepted toy_wire toy_crates toy_wire_laws toy_laws toy_json 100 200 (PDevice "laptop") "net" laptop_sync toy_gateway st' resp true laptop_node
    laptop_entry) as (s & m' & Hs & _ & Ha & _ & Hn).
  - reflexivity.
  - exact E.
  - exact Hm.
  - left. reflexivity.
  - lia.
  - unfold NETMAP_MAX_AGE_SECONDS. lia.
  - lia.
  - vm_compute. reflexivity.
  - exists resp, s, m'. split; [reflexivity|]. split; [exact Hs|]. split; [exact Ha|exact Hn].
Defined.
