(* ===== verification/PinUsage.v ===== *)
(** * Usage reports of a device

    [node/src/pin/usage.rs]: one record per served request in a file, batches of
    records in an outbox, and their delivery to the gateway; and the date of a
    record.  A line or a file that does not parse is [None].  Counts are
    integers: an [i64] holds more tokens than a device serves.  The dates
    are compared with the Gregorian calendar, stepped day by day. *)

From S2P Require Import Prelude Db RustStr Pins.
From Stdlib Require Import Ascii.

Open Scope string_scope.
Open Scope list_scope.
Open Scope Z_scope.

Definition FLUSH_THRESHOLD : nat := 50.

Record UsageRecord : Type := mkUsageRecord {
  rec_pin_id : string;
  rec_day : string;
  rec_consumer_device_id : string;
  rec_model_id : string;
  rec_tokens_in : Z;
  rec_tokens_out : Z;
  rec_bytes_in : option Z;
  rec_bytes_out : option Z
}.
Record BatchEntry : Type := mkBatchEntry {
  be_day : string;
  be_consumer_device_id : string;
  be_model_id : string;
  be_requests : Z;
  be_tokens_in : Z;
  be_tokens_out : Z;
  be_bytes_in : option Z;
  be_bytes_out : option Z
}.
Record Batch : Type := mkBatch {
  ba_pin_id : string;
  ba_batch_id : string;
  ba_entries : list BatchEntry
}.
(** [UsageBatcher] with its directory: [records.jsonl], [outbox/*.json] and the
    count in memory. *)
Record UsageBatcher : Type := mkUsageBatcher {
  ub_records : list (option UsageRecord);
  ub_outbox : gmap string (option Batch);
  ub_count : nat
}.

(** ** Dates *)

(** Howard Hinnant's algorithm: year, month and day of a day number. *)
Definition civil_of_days (z : Z) : Z * Z * Z :=
  let z := z + 719468 in
  let era := z / 146097 in
  let doe := z mod 146097 in
  let yoe := Z.quot (doe - Z.quot doe 1460 + Z.quot doe 36524 - Z.quot doe 146096) 365 in
  let y := yoe + era * 400 in
  let doy := doe - (365 * yoe + Z.quot yoe 4 - Z.quot yoe 100) in
  let mp := Z.quot (5 * doy + 2) 153 in
  let d := doy - Z.quot (153 * mp + 2) 5 + 1 in
  let m := if mp <? 10 then mp + 3 else mp - 9 in
  let y := if m <=? 2 then y + 1 else y in
  (y, m, d).

(** [{y:04}-{m:02}-{d:02}], for the years after the epoch. *)
Definition padded (width : nat) (z : Z) : string :=
  of_bytes (replicate (width - length (bytes (show_z z))) "0"%char) ++ show_z z.
Definition civil_from_days (z : Z) : string :=
  let '(y, m, d) := civil_of_days z in padded 4 y ++ "-" ++ padded 2 m ++ "-" ++ padded 2 d.
Definition today_utc (now_unix_secs : Z) : string := civil_from_days (now_unix_secs / 86400).

(** ** Records *)

(** [new]: the lines that are not blank are counted. *)
Definition open_batcher (lines : list (option UsageRecord)) (outbox : gmap string (option Batch)) : UsageBatcher :=
  mkUsageBatcher lines outbox (length lines).
Definition record_usage (r : UsageRecord) (u : UsageBatcher) : bool * UsageBatcher :=
  let count := S (ub_count u) in
  (Nat.leb FLUSH_THRESHOLD count, mkUsageBatcher (ub_records u ++ [Some r]) (ub_outbox u) count).

Abbreviation EntryKey := (string * string * string)%type.
Definition record_key (r : UsageRecord) : EntryKey := (rec_day r, rec_consumer_device_id r, rec_model_id r).
Definition new_entry (r : UsageRecord) : BatchEntry :=
  mkBatchEntry (rec_day r) (rec_consumer_device_id r) (rec_model_id r) 0 0 0 None None.
(** [*slot.get_or_insert(0) += b]. *)
Definition add_bytes (slot b : option Z) : option Z :=
  match b with Some b => Some (default 0 slot + b) | None => slot end.
Definition add_record (r : UsageRecord) (e : BatchEntry) : BatchEntry :=
  mkBatchEntry (be_day e) (be_consumer_device_id e) (be_model_id e) (be_requests e + 1)
    (be_tokens_in e + rec_tokens_in r) (be_tokens_out e + rec_tokens_out r)
    (add_bytes (be_bytes_in e) (rec_bytes_in r)) (add_bytes (be_bytes_out e) (rec_bytes_out r)).
Abbreviation ByPin := (gmap string (gmap EntryKey BatchEntry)).
Definition aggregate_one (by_pin : ByPin) (r : UsageRecord) : ByPin :=
  let entries : gmap EntryKey BatchEntry := default ∅ (by_pin !! rec_pin_id r) in
  let entry := default (new_entry r) (entries !! record_key r) in
  <[rec_pin_id r := <[record_key r := add_record r entry]> entries]> by_pin.
Definition aggregate (records : list UsageRecord) : ByPin := foldl aggregate_one ∅ records.

(** [uuid i] is the identifier drawn for the [i]-th batch. *)
Definition batches_of (uuid : nat -> string) (by_pin : ByPin) : list Batch :=
  imap (fun i pe => mkBatch pe.1 (uuid i) (map_to_list pe.2).*2)
    (map_to_list by_pin).
Definition put_batch (outbox : gmap string (option Batch)) (b : Batch) : gmap string (option Batch) :=
  <[ba_batch_id b := Some b]> outbox.
(** [stop] is the number of batch files after which a write fails or the device
    stops; the records are then left as they are. *)
Definition seal_batches (uuid : nat -> string) (stop : option nat) (u : UsageBatcher) : UsageBatcher :=
  match omap id (ub_records u) with
  | [] => u
  | records =>
      let batches := batches_of uuid (aggregate records) in
      match stop with
      | Some n => mkUsageBatcher (ub_records u) (foldl put_batch (ub_outbox u) (take n batches)) (ub_count u)
      | None => mkUsageBatcher [] (foldl put_batch (ub_outbox u) batches) 0
      end
  end.

(** ** Delivery *)

(** A status, or [None] when there was no answer. *)
Definition is_success (status : Z) : bool := (200 <=? status) && (status <? 300).
Definition drop_file (id : string) (u : UsageBatcher) : UsageBatcher :=
  mkUsageBatcher (ub_records u) (delete id (ub_outbox u)) (ub_count u).
Definition settle_file (answer : option Z) (id : string) (u : UsageBatcher) : nat * UsageBatcher :=
  match answer with
  | Some status =>
      if is_success status then (1%nat, drop_file id u)
      else if status =? 404 then (O, drop_file id u)
      else (O, u)
  | None => (O, u)
  end.
(** [answers] is what the gateway says to each batch. *)
Definition flush (uuid : nat -> string) (answers : Batch -> option Z) (u : UsageBatcher) : nat * UsageBatcher :=
  let u := seal_batches uuid None u in
  foldl (fun '(delivered, u) '(id, f) =>
    match f with
    | None => (delivered, drop_file id u)
    | Some batch => let '(n, u) := settle_file (answers batch) id u in ((delivered + n)%nat, u)
    end) (O, u) (map_to_list (ub_outbox u)).
Definition pending_batches (u : UsageBatcher) : nat := size (ub_outbox u).

(** An entry as the gateway reads it; the byte counts are unknown to it. *)
Definition wire_entry (e : BatchEntry) : UsageEntry :=
  mkUsageEntry (be_day e) (be_consumer_device_id e) (be_model_id e) (be_requests e) (be_tokens_in e) (be_tokens_out e).

(** ** Dates *)

(** ** The calendar *)

Definition leap_year (y : Z) : bool := (y mod 4 =? 0) && (negb (y mod 100 =? 0) || (y mod 400 =? 0)).
Definition month_length (y m : Z) : Z :=
  if m =? 2 then (if leap_year y then 29 else 28)
  else if (m =? 4) || (m =? 6) || (m =? 9) || (m =? 11) then 30 else 31.
(** The day after. *)
Definition next_day (x : Z * Z * Z) : Z * Z * Z :=
  let '(y, m, d) := x in
  if d <? month_length y m then (y, m, d + 1)
  else if m <? 12 then (y, m + 1, 1)
  else (y + 1, 1, 1).

(** Within an era of 400 years. *)
Definition civil_of_doe (doe : Z) : Z * Z * Z := civil_of_days (doe - 719468).
Definition later (years : Z) (x : Z * Z * Z) : Z * Z * Z := let '(y, m, d) := x in (y + years, m, d).

Lemma civil_era era doe : 0 <= doe < 146097 ->
  civil_of_days (146097 * era + doe - 719468) = later (400 * era) (civil_of_doe doe).
Proof.
  intros Hd. unfold civil_of_doe, civil_of_days.
  replace (146097 * era + doe - 719468 + 719468) with (146097 * era + doe) by lia.
  replace (doe - 719468 + 719468) with doe by lia.
  replace ((146097 * era + doe) / 146097) with era by (Z.to_euclidean_division_equations; lia).
  replace ((146097 * era + doe) mod 146097) with doe by (Z.to_euclidean_division_equations; lia).
  replace (doe / 146097) with 0 by (Z.to_euclidean_division_equations; lia).
  rewrite (Z.mod_small doe) by lia. cbv zeta. unfold later.
  destruct (_ <=? 2); f_equal; f_equal; lia.
Qed.

Lemma leap_year_later y e : leap_year (y + 400 * e) = leap_year y.
Proof.
  unfold leap_year. replace (y + 400 * e) with (y + (100 * e) * 4) at 1 by lia. rewrite Z.mod_add by lia.
  replace (y + 400 * e) with (y + (4 * e) * 100) at 1 by lia. rewrite Z.mod_add by lia.
  replace (y + 400 * e) with (y + e * 400) by lia. by rewrite Z.mod_add by lia.
Qed.
Lemma next_day_later e x : next_day (later (400 * e) x) = later (400 * e) (next_day x).
Proof.
  destruct x as [[y m] d]. unfold next_day, later, month_length. rewrite leap_year_later.
  destruct (d <? _); [done|]. destruct (m <? 12); [done|]. f_equal. f_equal. lia.
Qed.

(** *** Years that start in March *)

Definition year_start (yoe : Z) : Z := 365 * yoe + Z.quot yoe 4 - Z.quot yoe 100.
Definition year_length (yoe : Z) : Z := if leap_year (yoe + 1) then 366 else 365.
Definition year_of (doe : Z) : Z := Z.quot (doe - Z.quot doe 1460 + Z.quot doe 36524 - Z.quot doe 146096) 365.
Definition month_day (doy : Z) : Z * Z :=
  let mp := Z.quot (5 * doy + 2) 153 in
  (if mp <? 10 then mp + 3 else mp - 9, doy - Z.quot (153 * mp + 2) 5 + 1).
Definition calendar_day (yoe doy : Z) : Z * Z * Z :=
  let '(m, d) := month_day doy in (if m <=? 2 then yoe + 1 else yoe, m, d).

Definition upto (n : nat) : list Z := Z.of_nat <$> seq 0 n.
Lemma upto_spec (P : Z -> bool) n i : forallb P (upto n) = true -> 0 <= i < Z.of_nat n -> P i = true.
Proof.
  intros Hf Hi. rewrite forallb_forall in Hf. apply Hf, list_elem_of_In, list_elem_of_fmap. exists (Z.to_nat i).
  split; [lia|]. apply elem_of_seq. lia.
Qed.

(** Each of the 400 years begins and ends where [year_of] says. *)
Lemma years_checked :
  forallb (fun y => (year_of (year_start y) =? y) && (year_of (year_start y + year_length y - 1) =? y) &&
                    ((year_start (y + 1) =? year_start y + year_length y) || (y =? 399))) (upto 400) = true.
Proof. vm_compute. reflexivity. Qed.
Lemma year_facts y : 0 <= y < 400 ->
  year_of (year_start y) = y /\ year_of (year_start y + year_length y - 1) = y /\
  (year_start (y + 1) = year_start y + year_length y \/ y = 399).
Proof.
  intros Hy. pose proof (upto_spec _ _ y years_checked Hy) as Hc. simpl in Hc.
  rewrite !andb_true_iff, orb_true_iff, !Z.eqb_eq in Hc. tauto.
Qed.

Lemma year_of_mono a b : 0 <= a <= b -> b < 146097 -> year_of a <= year_of b.
Proof.
  intros Ha Hb. unfold year_of.
  rewrite !(Z.quot_div_nonneg _ 1460), !(Z.quot_div_nonneg _ 36524), !(Z.quot_div_nonneg _ 146096) by lia.
  assert (a - a / 1460 + a / 36524 - a / 146096 <= b - b / 1460 + b / 36524 - b / 146096 /\
          0 <= a - a / 1460 + a / 36524 - a / 146096) as [H1 H2].
  { Z.to_euclidean_division_equations. lia. }
  rewrite !Z.quot_div_nonneg by lia. by apply Z.div_le_mono.
Qed.

Lemma year_of_start y doy : 0 <= y < 400 -> 0 <= doy < year_length y -> year_of (year_start y + doy) = y.
Proof.
  intros Hy Hd. destruct (year_facts y Hy) as (H1 & H2 & H3).
  assert (0 <= year_start y) as H0 by (unfold year_start; Z.to_euclidean_division_equations; lia).
  assert (year_start y + year_length y <= 146097) as Hle.
  { unfold year_start, year_length. destruct (leap_year (y + 1)) eqn:El; [Z.to_euclidean_division_equations; lia|].
    Z.to_euclidean_division_equations; lia. }
  pose proof (year_of_mono (year_start y) (year_start y + doy) ltac:(lia) ltac:(lia)).
  pose proof (year_of_mono (year_start y + doy) (year_start y + year_length y - 1) ltac:(lia) ltac:(lia)). lia.
Qed.

(** Every day of an era lies in one of its years. *)
Lemma year_split doe : 0 <= doe < 146097 ->
  exists y doy, 0 <= y < 400 /\ 0 <= doy < year_length y /\ doe = year_start y + doy.
Proof.
  intros Hd.
  enough (forall n, (n <= 400)%nat -> doe < year_start (Z.of_nat n) \/ n = 400%nat ->
    exists y doy, 0 <= y < 400 /\ 0 <= doy < year_length y /\ doe = year_start y + doy) as Hn
    by (apply (Hn 400%nat); [lia|by right]).
  induction n as [|n IH]; intros Hn Hlt; [change (year_start (Z.of_nat 0)) with 0 in Hlt; lia|].
  destruct (decide (doe < year_start (Z.of_nat n))) as [Hb|Hb]; [apply IH; [lia|by left]|].
  exists (Z.of_nat n), (doe - year_start (Z.of_nat n)). split; [lia|]. split; [|lia]. split; [lia|].
  destruct (year_facts (Z.of_nat n) ltac:(lia)) as (_ & _ & [He|He]).
  - destruct Hlt as [Hlt|Hlt]; [rewrite Nat2Z.inj_succ in Hlt; unfold Z.succ in Hlt; lia|].
    assert (Z.of_nat n = 399) as E by lia. rewrite E. vm_compute (year_length 399). vm_compute (year_start 399). lia.
  - rewrite He. vm_compute (year_length 399). vm_compute (year_start 399). lia.
Qed.

Lemma civil_of_year y doy : 0 <= y < 400 -> 0 <= doy < year_length y ->
  civil_of_doe (year_start y + doy) = calendar_day y doy.
Proof.
  intros Hy Hd. pose proof (year_of_start y doy Hy Hd) as Hyear.
  assert (0 <= year_start y + doy < 146097) as Hr.
  { unfold year_start, year_length in *. destruct (leap_year (y + 1)); Z.to_euclidean_division_equations; lia. }
  unfold civil_of_doe, civil_of_days. set (doe := year_start y + doy) in *.
  replace (doe - 719468 + 719468) with doe by lia.
  replace (doe / 146097) with 0 by (Z.to_euclidean_division_equations; lia). rewrite (Z.mod_small doe) by lia.
  fold (year_of doe). rewrite Hyear. cbv zeta. fold (year_start y).
  replace (doe - year_start y) with doy by lia. rewrite Z.mul_0_l, Z.add_0_r.
  unfold calendar_day, month_day. done.
Qed.

(** *** The day after, within a year that starts in March *)

Definition month_len (leap : bool) (m : Z) : Z :=
  if m =? 2 then (if leap then 29 else 28)
  else if (m =? 4) || (m =? 6) || (m =? 9) || (m =? 11) then 30 else 31.
(** Years to add, month and day. *)
Definition month_step (leap : bool) (md : Z * Z) : Z * Z * Z :=
  let '(m, d) := md in
  if d <? month_len leap m then (0, m, d + 1) else if m <? 12 then (0, m + 1, 1) else (1, 1, 1).
Lemma next_day_step y m d :
  next_day (y, m, d) = (let '(dy, m', d') := month_step (leap_year y) (m, d) in (y + dy, m', d')).
Proof.
  unfold next_day, month_step, month_length, month_len.
  destruct (d <? _); [by rewrite Z.add_0_r|]. destruct (m <? 12); [by rewrite Z.add_0_r|done].
Qed.

Definition january (m : Z) : Z := if m <=? 2 then 1 else 0.
Definition step_checked (leap : bool) (doy : Z) : bool :=
  let '(m, d) := month_day doy in
  if doy + 1 <? (if leap then 366 else 365) then
    let '(m', d') := month_day (doy + 1) in
    forallb (fun l : bool => bool_decide (month_step l (m, d) = (january m' - january m, m', d')) ||
                      ((m =? 2) && negb (Bool.eqb l leap))) [true; false]
  else (m =? 2) && bool_decide (month_step leap (m, d) = (0, 3, 1)).
Lemma steps_checked :
  forallb (fun doy => step_checked true doy && ((365 <=? doy) || step_checked false doy)) (upto 366) = true.
Proof. vm_compute. reflexivity. Qed.
Lemma step_facts (leap : bool) doy : 0 <= doy < (if leap then 366 else 365) -> step_checked leap doy = true.
Proof.
  intros Hd. pose proof (upto_spec _ 366 doy steps_checked ltac:(destruct leap; lia)) as Hc. simpl in Hc.
  apply andb_true_iff in Hc as [H1 H2]. destruct leap; [done|]. apply orb_true_iff in H2 as [H2|H2]; [|done].
  apply Z.leb_le in H2. lia.
Qed.

Lemma calendar_next y doy : 0 <= doy < year_length y ->
  next_day (calendar_day y doy) =
    if doy + 1 <? year_length y then calendar_day y (doy + 1) else calendar_day (y + 1) 0.
Proof.
  intros Hd. pose proof (step_facts (leap_year (y + 1)) doy Hd) as Hc. unfold step_checked in Hc.
  unfold calendar_day, year_length. destruct (month_day doy) as [m d].
  rewrite next_day_step. destruct (doy + 1 <? (if leap_year (y + 1) then 366 else 365)).
  - destruct (month_day (doy + 1)) as [m' d']. unfold january in Hc.
    assert (forall l, (m = 2 -> l = leap_year (y + 1)) -> month_step l (m, d) =
      ((if m' <=? 2 then 1 else 0) - (if m <=? 2 then 1 else 0), m', d')) as Hs.
    { intros l Hl. simpl in Hc. rewrite !andb_true_iff, !orb_true_iff, !bool_decide_eq_true in Hc.
      destruct Hc as (H1 & H2 & _).
      destruct l; [destruct H1 as [H1|[Em En]%andb_true_iff]|destruct H2 as [H2|[Em En]%andb_true_iff]]; try done;
        apply Z.eqb_eq in Em; by rewrite <- (Hl Em) in En. }
    rewrite Hs.
    + f_equal. f_equal. destruct (m' <=? 2), (m <=? 2); lia.
    + intros ->. done.
  - apply andb_true_iff in Hc as [->%Z.eqb_eq Hs%bool_decide_eq_true]. change (2 <=? 2) with true. cbv iota. rewrite Hs.
    change (month_day 0) with (3, 1). simpl. by rewrite Z.add_0_r.
Qed.

(** Day numbers name the days of the Gregorian calendar: day 0 is the first of
    January 1970, and each day number names the day after the one before. *)
Theorem civil_from_days_gregorian (z : Z) :
  civil_of_days 0 = (1970, 1, 1) /\ civil_of_days (z + 1) = next_day (civil_of_days z).
Proof.
  split; [reflexivity|]. pose proof (Z.div_mod (z + 719468) 146097 ltac:(lia)) as Ez.
  pose proof (Z.mod_pos_bound (z + 719468) 146097 ltac:(lia)) as Hr.
  set (era := (z + 719468) / 146097) in *. set (doe := (z + 719468) mod 146097) in *.
  replace z with (146097 * era + doe - 719468) by lia. rewrite civil_era by done.
  destruct (year_split doe Hr) as (y & doy & Hy & Hd & E).
  rewrite next_day_later, E, civil_of_year, calendar_next by done.
  destruct (Z.ltb_spec (doy + 1) (year_length y)) as [Hl|Hl].
  - replace (146097 * era + (year_start y + doy) - 719468 + 1)
      with (146097 * era + (year_start y + (doy + 1)) - 719468) by lia.
    rewrite civil_era, civil_of_year by lia || (unfold year_start, year_length in *; destruct (leap_year (y + 1)); Z.to_euclidean_division_equations; lia).
    done.
  - destruct (year_facts y Hy) as (_ & _ & [He|He]).
    + destruct (decide (y = 399)) as [-> |Hn]; [vm_compute in He; discriminate|].
      replace (146097 * era + (year_start y + doy) - 719468 + 1)
        with (146097 * era + (year_start (y + 1) + 0) - 719468) by lia.
      assert (0 < year_length (y + 1)) by (unfold year_length; destruct (leap_year _); lia).
      rewrite civil_era, civil_of_year by lia || (unfold year_start; Z.to_euclidean_division_equations; lia). done.
    + subst y. assert (doy = 365) as -> by (revert Hl Hd; vm_compute (year_length 399); lia).
      replace (146097 * era + (year_start 399 + 365) - 719468 + 1) with (146097 * (era + 1) + 0 - 719468)
        by (vm_compute (year_start 399); lia).
      rewrite civil_era by lia. change (civil_of_doe 0) with (0, 3, 1). change (calendar_day (399 + 1) 0) with (400, 3, 1).
      unfold later. f_equal. f_equal. lia.
Qed.
