(* ===== verification/PinUsageFacts.v ===== *)
(** * Every served request is counted once

    The records of a device, its outbox and the gateway together: what was
    recorded is counted at the gateway, waits on the device, or was refused for
    good. *)

From stdpp Require Import sorting.
From S2P Require Import Prelude Db RustStr Merkle Registry Scheduler Pins PinsFacts Auth PinWire PinHandlers PinHandlersFacts PinUsage.

Open Scope string_scope.
Open Scope list_scope.
Open Scope Z_scope.

(** ** Delivery *)

(** What is summed: requests or tokens. *)
Definition measures : list (UsageCounts -> Z) := [uc_requests; uc_tokens_in; uc_tokens_out].
Definition additive (f : UsageCounts -> Z) : Prop :=
  f no_counts = 0 /\ forall a b, f (add_counts a b) = f a + f b.
Lemma measures_additive f : f ∈ measures -> additive f.
Proof.
  unfold measures. rewrite !elem_of_cons. intros [-> |[-> |[-> |Hf]]]; try by apply not_elem_of_nil in Hf.
  all: split; [done|]; intros a b; destruct a, b; simpl; lia.
Qed.

Definition sum_list {A} (f : A -> Z) (l : list A) : Z := foldr (fun a acc => f a + acc) 0 l.
Lemma sum_list_app {A} (f : A -> Z) l l' : sum_list f (l ++ l') = sum_list f l + sum_list f l'.
Proof. induction l as [|a l IH]; simpl; [done|lia]. Qed.
Lemma sum_list_perm {A} (f : A -> Z) l l' : Permutation l l' -> sum_list f l = sum_list f l'.
Proof. induction 1; simpl; lia. Qed.
Lemma sum_list_imap {A B} (f : B -> Z) (g : A -> Z) (h : nat -> A -> B) l :
  (forall i a, f (h i a) = g a) -> sum_list f (imap h l) = sum_list g l.
Proof.
  revert h. induction l as [|a l IH]; intros h Hh; [done|]. rewrite imap_cons. simpl. rewrite Hh.
  rewrite (IH (h ∘ S)); [done|]. intros i b. apply Hh.
Qed.
Lemma sum_list_snd {K V} `{Countable K} (f : V -> Z) (m : gmap K V) : sum_list f (map_to_list m).*2 = map_sum f m.
Proof.
  unfold map_sum. rewrite map_fold_foldr. induction (map_to_list m) as [|[k v] l IH]; [done|].
  rewrite fmap_cons. simpl. rewrite IH. simpl. lia.
Qed.
(** A sum over a map in which one key counts. *)
Lemma sum_list_key {K V} `{Countable K} (f : V -> Z) (k : K) (m : gmap K V) :
  sum_list (fun kv => if decide (kv.1 = k) then f kv.2 else 0) (map_to_list m) = default 0 (f <$> m !! k).
Proof.
  induction m as [|i v m Hi IH] using map_ind; [by rewrite map_to_list_empty, lookup_empty|].
  rewrite (sum_list_perm _ _ _ (map_to_list_insert m i v Hi)). simpl. rewrite IH. destruct (decide (i = k)) as [-> |Hn].
  - rewrite lookup_insert_eq, Hi. simpl. lia.
  - rewrite lookup_insert_ne by done. lia.
Qed.

Section Delivery.
Context `{PinJson} `{WireCrates} (sql_text : SqlError -> string) (provider : string).

(** One use of the network: day, consumer and model. *)
Definition usage_at (k : EntryKey) : UsageKey := let '(day, consumer, model) := k in (day, provider, consumer, model).
Definition entry_key (e : BatchEntry) : EntryKey := (be_day e, be_consumer_device_id e, be_model_id e).
Definition entry_counts (e : BatchEntry) : UsageCounts := counts_of (wire_entry e).
Definition record_counts (r : UsageRecord) : UsageCounts := mkUsageCounts 1 (rec_tokens_in r) (rec_tokens_out r).

Section Sums.
Context (f : UsageCounts -> Z) (p : string) (k : EntryKey).
Definition record_sum (r : UsageRecord) : Z :=
  if decide (rec_pin_id r = p /\ record_key r = k) then f (record_counts r) else 0.
Definition line_sum (l : option UsageRecord) : Z := match l with Some r => record_sum r | None => 0 end.
Definition entry_sum (e : BatchEntry) : Z := if decide (entry_key e = k) then f (entry_counts e) else 0.
Definition batch_sum (b : Batch) : Z := if decide (ba_pin_id b = p) then sum_list entry_sum (ba_entries b) else 0.

Context (Hf : additive f).

(** What the gateway adds for a batch. *)
Lemma batch_counts_sum es : f (batch_counts provider (usage_at k) (wire_entry <$> es)) = sum_list entry_sum es.
Proof.
  destruct Hf as [H0' Hadd]. induction es as [|e es IH]; [done|]. rewrite fmap_cons. simpl. rewrite <- IH.
  unfold entry_sum. assert (usage_key provider (wire_entry e) = usage_at k <-> entry_key e = k) as Hk.
  { destruct k as [[day consumer] model]. unfold usage_key, entry_key. simpl. split; intros; simplify_eq; done. }
  destruct (decide (entry_key e = k)) as [E|E].
  - rewrite decide_True by (by apply Hk). apply Hadd.
  - rewrite decide_False by (by rewrite Hk). lia.
Qed.

(** *** Aggregation *)

Definition keys_agree (by_pin : ByPin) : Prop :=
  forall q (m : gmap EntryKey BatchEntry) i e, by_pin !! q = Some m -> m !! i = Some e -> entry_key e = i.
Definition pin_sum (by_pin : ByPin) : Z := default 0 (map_sum entry_sum <$> by_pin !! p).

Lemma aggregate_one_sum by_pin r :
  keys_agree by_pin -> keys_agree (aggregate_one by_pin r) /\ pin_sum (aggregate_one by_pin r) = pin_sum by_pin + record_sum r.
Proof.
  intros Hk. destruct Hf as [Hz Hadd]. unfold aggregate_one.
  set (entries := default ∅ (by_pin !! rec_pin_id r)).
  set (entry := default (new_entry r) (entries !! record_key r)).
  assert (forall i e, entries !! i = Some e -> entry_key e = i) as He.
  { intros i e. unfold entries. destruct (by_pin !! rec_pin_id r) as [m|] eqn:E; simpl; [by eapply Hk|].
    by rewrite lookup_empty. }
  assert (entry_key (add_record r entry) = record_key r) as Hent.
  { unfold entry. destruct (entries !! record_key r) as [e|] eqn:E; simpl; [|done]. by apply He in E. }
  split.
  - intros q m i e Hq Hi. apply lookup_insert_Some in Hq as [[_ <-]|[_ Hq]]; [|by eapply Hk].
    apply lookup_insert_Some in Hi as [[<- <-]|[_ Hi]]; [done|by apply He].
  - unfold pin_sum, record_sum. destruct (decide (rec_pin_id r = p)) as [Ep|Ep].
    + rewrite Ep, lookup_insert_eq. simpl. rewrite map_sum_insert.
      assert (map_sum entry_sum entries = default 0 (map_sum entry_sum <$> by_pin !! p)) as <-.
      { unfold entries. rewrite Ep. destruct (by_pin !! p); simpl; [done|by rewrite map_sum_empty]. }
      assert (entry_sum (add_record r entry) =
        if decide (record_key r = k) then f (entry_counts entry) + f (record_counts r) else 0) as ->
        by (unfold entry_sum; rewrite Hent; case_decide; [exact (Hadd (entry_counts entry) (record_counts r))|done]).
      set (old := default 0 (entry_sum <$> _)).
      assert (old = if decide (record_key r = k) then f (entry_counts entry) else 0) as ->.
      { unfold old, entry. destruct (entries !! record_key r) as [e|] eqn:E; simpl.
        - unfold entry_sum. apply He in E. by rewrite E.
        - case_decide; [symmetry; exact Hz|done]. }
      destruct (decide (record_key r = k)); [rewrite decide_True by done|rewrite decide_False by tauto]; lia.
    + rewrite lookup_insert_ne by done. rewrite decide_False by tauto. lia.
Qed.

Lemma aggregate_sum rs : pin_sum (aggregate rs) = sum_list record_sum rs.
Proof.
  enough (forall by_pin, keys_agree by_pin -> pin_sum (foldl aggregate_one by_pin rs) = pin_sum by_pin + sum_list record_sum rs)
    as Hg.
  { unfold aggregate. rewrite Hg; [unfold pin_sum; by rewrite lookup_empty|].
    intros q m i e Hq. by rewrite lookup_empty in Hq. }
  induction rs as [|r rs IH]; intros by_pin Hk; simpl; [lia|].
  destruct (aggregate_one_sum by_pin r Hk) as [Hk' Es]. rewrite IH, Es by done. lia.
Qed.

(** Sealing puts every record into one batch. *)
Lemma batches_of_sum uuid rs : sum_list batch_sum (batches_of uuid (aggregate rs)) = sum_list record_sum rs.
Proof.
  rewrite <- aggregate_sum. unfold batches_of, pin_sum.
  rewrite (sum_list_imap _ (fun kv => if decide (kv.1 = p) then map_sum entry_sum kv.2 else 0)).
  - apply sum_list_key.
  - intros i [q m]. unfold batch_sum. simpl. by rewrite sum_list_snd.
Qed.
End Sums.

(** *** The device and the gateway *)

(** [seen] is all that was recorded, [refused] what the gateway refused for good. *)
Record UsageSystem : Type := mkUsageSystem {
  x_node : UsageBatcher;
  x_gateway : PinDb;
  x_seen : list UsageRecord;
  x_refused : list Batch
}.

Definition applied (db : PinDb) (b : Batch) : bool := has (ba_pin_id b, provider, ba_batch_id b) (pin_usage_batches db).
(** The report of a batch, as [usage_report] answers it. *)
Definition report_handler (now : Z) (b : Batch) : Handler string :=
  status ← reads (fun db => Ok (member_status (ba_pin_id b) provider db));
  if bool_decide (status <> Some Active) then fails unknown_network
  else if is_empty (trim (ba_batch_id b)) then fails (BadRequest "batchId is required")
  else
    applied ← runs (bad_request sql_text)
      (record_usage_batch now (ba_pin_id b) provider (ba_batch_id b) (wire_entry <$> ba_entries b));
    mret (if (applied : bool) then "applied" else "duplicate").
Lemma report_handler_usage now b st :
  usage_report sql_text now (PDevice provider) (ba_pin_id b) (ba_batch_id b) (wire_entry <$> ba_entries b) st =
  with_pool (report_handler now b) st.
Proof. done. Qed.
Definition answer_status {A} (r : result GatewayError A) : Z := match r with Ok _ => 200 | Err e => status e end.

(** A batch is sent; the request may be lost, and so may the answer. *)
Definition send (now : Z) (arrives answered : bool) (id : string) (b : Batch) (x : UsageSystem) : UsageSystem :=
  if arrives then
    let '(r, db) := report_handler now b (x_gateway x) in
    if answered then
      mkUsageSystem (settle_file (Some (answer_status r)) id (x_node x)).2 db (x_seen x)
        (if (answer_status r =? 404) && negb (applied (x_gateway x) b) then b :: x_refused x else x_refused x)
    else mkUsageSystem (x_node x) db (x_seen x) (x_refused x)
  else x.

(** What else the gateway does: anything but usage reports of this device. *)
Definition foreign (op : PinOp) : Prop := match op with PUsage _ d _ _ => d <> provider | _ => True end.

Definition fresh_ids (uuid : nat -> string) (x : UsageSystem) : Prop :=
  (forall i j, uuid i = uuid j -> i = j) /\
  forall i, ub_outbox (x_node x) !! uuid i = None /\
    forall p, has (p, provider, uuid i) (pin_usage_batches (x_gateway x)) = false.

Inductive usage_step : UsageSystem -> UsageSystem -> Prop :=
| step_record r x :
    usage_step x (mkUsageSystem (record_usage r (x_node x)).2 (x_gateway x) (x_seen x ++ [r]) (x_refused x))
| step_seal uuid x :
    fresh_ids uuid x ->
    usage_step x (mkUsageSystem (seal_batches uuid None (x_node x)) (x_gateway x) (x_seen x) (x_refused x))
| step_send now arrives answered id b x :
    ub_outbox (x_node x) !! id = Some (Some b) -> usage_step x (send now arrives answered id b x)
| step_unreadable id x :
    ub_outbox (x_node x) !! id = Some None ->
    usage_step x (mkUsageSystem (drop_file id (x_node x)) (x_gateway x) (x_seen x) (x_refused x))
| step_gateway now op x :
    foreign op -> usage_step x (mkUsageSystem (x_node x) (apply_pin_op now op (x_gateway x)) (x_seen x) (x_refused x)).

Inductive usage_reachable : UsageSystem -> Prop :=
| usage_start db :
    (forall p k, usage_of p (usage_at k) db = no_counts) ->
    usage_reachable (mkUsageSystem (open_batcher [] ∅) db [] [])
| usage_next x y : usage_reachable x -> usage_step x y -> usage_reachable y.

(** *** The invariant *)

Definition file_sum (f : UsageCounts -> Z) (p : string) (k : EntryKey) (db : PinDb) (file : option Batch) : Z :=
  match file with
  | Some b => if applied db b then 0 else batch_sum f p k b
  | None => 0
  end.
(** What waits on the device. *)
Definition waiting (f : UsageCounts -> Z) (p : string) (k : EntryKey) (x : UsageSystem) : Z :=
  sum_list (line_sum f p k) (ub_records (x_node x)) +
  map_sum (file_sum f p k (x_gateway x)) (ub_outbox (x_node x)).

Record usage_ok (x : UsageSystem) : Prop := {
  ok_ids : forall id b, ub_outbox (x_node x) !! id = Some (Some b) -> ba_batch_id b = id;
  ok_sum : forall f p k, additive f ->
    sum_list (record_sum f p k) (x_seen x) =
    f (usage_of p (usage_at k) (x_gateway x)) + waiting f p k x + sum_list (batch_sum f p k) (x_refused x)
}.

Lemma record_ok r x :
  usage_ok x -> usage_ok (mkUsageSystem (record_usage r (x_node x)).2 (x_gateway x) (x_seen x ++ [r]) (x_refused x)).
Proof.
  intros [Hid Hs]. split; [done|]. intros f p k Hf. unfold waiting. simpl. rewrite !sum_list_app, (Hs f p k Hf).
  unfold waiting. simpl. lia.
Qed.

Lemma omap_id_sum f p k l : sum_list (record_sum f p k) (omap id l) = sum_list (line_sum f p k) l.
Proof. induction l as [|[r|] l IH]; [done|simpl; f_equal; exact IH|exact IH]. Qed.

Lemma put_batches_sum f p k db bs outbox :
  NoDup (ba_batch_id <$> bs) ->
  (forall b, b ∈ bs -> outbox !! ba_batch_id b = None /\ applied db b = false) ->
  map_sum (file_sum f p k db) (foldl put_batch outbox bs) =
  map_sum (file_sum f p k db) outbox + sum_list (batch_sum f p k) bs.
Proof.
  revert outbox. induction bs as [|b bs IH]; intros outbox Hd Hb; simpl; [lia|].
  rewrite fmap_cons in Hd. apply NoDup_cons in Hd as [Hn Hd]. destruct (Hb b) as [Hfree Ha]; [by left|].
  rewrite IH; [|done|].
  - unfold put_batch. rewrite map_sum_insert_new by done. simpl. rewrite Ha. lia.
  - intros c Hc. destruct (Hb c) as [Hfc Hac]; [by right|]. split; [|done]. unfold put_batch.
    rewrite lookup_insert_ne; [done|]. intros E. apply Hn. rewrite E. apply list_elem_of_fmap. by exists c.
Qed.

Lemma put_batches_lookup bs outbox id file :
  foldl put_batch outbox bs !! id = Some file ->
  outbox !! id = Some file \/ exists b, b ∈ bs /\ file = Some b /\ ba_batch_id b = id.
Proof.
  revert outbox. induction bs as [|b bs IH]; intros outbox; simpl; [by left|].
  intros [Hl|(c & Hc & -> & E)]%IH; [|right; exists c; split; [by right|done]].
  unfold put_batch in Hl. apply lookup_insert_Some in Hl as [[E <-]|[_ Hl]]; [|by left].
  right. exists b. split; [by left|done].
Qed.

Lemma batches_of_ids uuid by_pin b : b ∈ batches_of uuid by_pin -> exists i, ba_batch_id b = uuid i.
Proof.
  unfold batches_of. intros Hb. apply list_elem_of_lookup in Hb as [i Hi]. rewrite list_lookup_imap in Hi.
  destruct (map_to_list by_pin !! i) as [pe|]; [|done]. simpl in Hi. injection Hi as <-. by exists i.
Qed.
Lemma batches_of_nodup uuid by_pin :
  (forall i j, uuid i = uuid j -> i = j) -> NoDup (ba_batch_id <$> batches_of uuid by_pin).
Proof.
  intros Hu. apply NoDup_alt. intros i j id. rewrite !list_lookup_fmap. unfold batches_of. rewrite !list_lookup_imap.
  destruct (map_to_list by_pin !! i) as [a|]; [|done]. destruct (map_to_list by_pin !! j) as [b|]; [|done]. simpl.
  intros [= <-] [= E]. by apply Hu.
Qed.

Lemma seal_ok uuid x :
  fresh_ids uuid x -> usage_ok x ->
  usage_ok (mkUsageSystem (seal_batches uuid None (x_node x)) (x_gateway x) (x_seen x) (x_refused x)).
Proof.
  intros [Hu Hfresh] [Hid Hs]. unfold seal_batches. destruct (omap id (ub_records (x_node x))) as [|r0 rs0] eqn:E; [by split|].
  set (rs := r0 :: rs0) in *. split.
  - simpl. intros i b [Hi|(c & Hc & [= <-] & Ec)]%put_batches_lookup; [by apply Hid|done].
  - intros f p k Hf. unfold waiting. cbn [x_node x_gateway x_seen x_refused ub_records ub_outbox].
    rewrite (Hs f p k Hf). unfold waiting.
    rewrite put_batches_sum; [|by apply batches_of_nodup|].
    2: { intros b [i Ei]%batches_of_ids. unfold applied. rewrite Ei. split; apply Hfresh. }
    rewrite (batches_of_sum f p k Hf).
    rewrite <- (omap_id_sum f p k (ub_records (x_node x))), E. simpl sum_list. lia.
Qed.

(** The files other than one, when the gateway takes that one. *)
Lemma outbox_without f p k db (id : string) file outbox :
  outbox !! id = Some file ->
  map_sum (file_sum f p k db) outbox = map_sum (file_sum f p k db) (delete id outbox) + file_sum f p k db file.
Proof. intros Hi. rewrite (map_sum_delete _ _ _ _ Hi). lia. Qed.

Lemma drop_ids id u :
  (forall i b, ub_outbox u !! i = Some (Some b) -> ba_batch_id b = i) ->
  forall i b, ub_outbox (drop_file id u) !! i = Some (Some b) -> ba_batch_id b = i.
Proof. intros Hid i b Hi. simpl in Hi. apply lookup_delete_Some in Hi as [_ Hi]. by apply Hid. Qed.

(** What a report does to the gateway. *)
Lemma report_effect now b db r db' :
  report_handler now b db = (r, db') ->
  (db' = db /\ (answer_status r = 404 \/ is_success (answer_status r) = false \/ applied db b = true)) \/
  (applied db b = false /\ is_success (answer_status r) = true /\
   (forall c, applied db' c = applied db c || bool_decide ((ba_pin_id c, ba_batch_id c) = (ba_pin_id b, ba_batch_id b))) /\
   forall p k, usage_of p (usage_at k) db' =
     if decide (p = ba_pin_id b)
     then add_counts (usage_of p (usage_at k) db) (batch_counts provider (usage_at k) (wire_entry <$> ba_entries b))
     else usage_of p (usage_at k) db).
Proof.
  unfold report_handler, mbind, handler_bind, reads. case_bool_decide; [intros [= <- <-]; left; split; [done|by left]|].
  destruct (is_empty _); [intros [= <- <-]; left; split; [done|right; by left]|].
  unfold runs, record_usage_batch. fold (applied db b). destruct (applied db b) eqn:Ea.
  { intros [= <- <-]. left. split; [done|by right; right]. }
  destruct (has _ (pins db)); [|intros [= <- <-]; left; split; [done|right; by left]].
  set (db0 := set_batches _ db). pose proof (add_usage_all (ba_pin_id b) provider (wire_entry <$> ba_entries b) db0) as Hu.
  destruct (fold_res _ _ db0) as [db1|]; [|intros [= <- <-]; left; split; [done|right; by left]].
  destruct Hu as (_ & Hb & Hu). intros [= <- <-]. right. split_and!; [done|done| |].
  - intros c. unfold applied. rewrite Hb. unfold db0, has. simpl.
    destruct (decide ((ba_pin_id b, provider, ba_batch_id b) = (ba_pin_id c, provider, ba_batch_id c))) as [E|E].
    + rewrite E, lookup_insert_eq, bool_decide_eq_true_2 by congruence. by rewrite orb_true_r.
    + rewrite lookup_insert_ne, bool_decide_eq_false_2 by congruence. by rewrite orb_false_r.
  - intros p k. rewrite (Hu p (usage_at k)). done.
Qed.

Lemma send_ok now arrives answered id b x :
  ub_outbox (x_node x) !! id = Some (Some b) -> usage_ok x -> usage_ok (send now arrives answered id b x).
Proof.
  intros Hb [Hid Hs]. unfold send. destruct arrives; [|by split].
  destruct (report_handler now b (x_gateway x)) as [r db'] eqn:Er.
  pose proof (Hid id b Hb) as Eid. apply report_effect in Er as [[-> Hr]|(Ha & Hr & Happ & Hu)].
  - destruct answered; [|by split]. unfold settle_file.
    destruct (is_success (answer_status r)) eqn:Esucc; [|destruct (Z.eqb_spec (answer_status r) 404) as [E|E]; [|by split]].
    + assert (applied (x_gateway x) b = true) as Ha.
      { destruct Hr as [E|[E|E]]; [rewrite E in Esucc; discriminate|congruence|done]. }
      split; [by apply drop_ids|]. intros f p k Hf. unfold waiting. cbn [x_node x_gateway x_seen x_refused ub_records ub_outbox drop_file snd].
      rewrite (Hs f p k Hf). unfold waiting. rewrite (outbox_without _ _ _ _ _ _ _ Hb). simpl file_sum. rewrite Ha.
      rewrite andb_false_r. lia.
    + split; [by apply drop_ids|]. intros f p k Hf. unfold waiting. cbn [x_node x_gateway x_seen x_refused ub_records ub_outbox drop_file snd].
      rewrite (Hs f p k Hf). unfold waiting. rewrite (outbox_without _ _ _ _ _ _ _ Hb). simpl file_sum.
      destruct (applied (x_gateway x) b); simpl; lia.
  - assert (forall f p k, additive f ->
      f (usage_of p (usage_at k) db') + map_sum (file_sum f p k db') (delete id (ub_outbox (x_node x))) =
      f (usage_of p (usage_at k) (x_gateway x)) + map_sum (file_sum f p k (x_gateway x)) (ub_outbox (x_node x))) as Hmove.
    { intros f p k Hf. rewrite (outbox_without _ _ _ _ _ _ _ Hb). simpl file_sum. rewrite Ha, Hu.
      rewrite (map_sum_ext _ (file_sum f p k (x_gateway x))).
      - unfold batch_sum. destruct (decide (p = ba_pin_id b)) as [-> |Hn].
        + rewrite decide_True by done. rewrite (proj2 Hf), (batch_counts_sum f k Hf). lia.
        + rewrite decide_False by done. lia.
      - intros i [c|] Hi; [|done]. apply lookup_delete_Some in Hi as [Hne Hi]. simpl. rewrite Happ.
        rewrite bool_decide_eq_false_2, orb_false_r; [done|]. intros [= _ E]. apply Hne.
        rewrite <- Eid, <- E. by apply Hid. }
    assert (applied db' b = true) as Hab by (rewrite Happ, bool_decide_eq_true_2 by done; by rewrite orb_true_r).
    destruct answered.
    + unfold settle_file. rewrite Hr. replace (answer_status r =? 404) with false
        by (symmetry; apply Z.eqb_neq; intros E; rewrite E in Hr; discriminate).
      split; [by apply drop_ids|]. intros f p k Hf. unfold waiting. cbn [x_node x_gateway x_seen x_refused ub_records ub_outbox drop_file snd].
      rewrite (Hs f p k Hf). unfold waiting. specialize (Hmove f p k Hf). simpl. lia.
    + split; [done|]. intros f p k Hf. unfold waiting. cbn [x_node x_gateway x_seen x_refused].
      rewrite (Hs f p k Hf). unfold waiting. specialize (Hmove f p k Hf).
      rewrite (outbox_without f p k db' _ _ _ Hb). simpl file_sum. rewrite Hab. lia.
Qed.

(** *** The rest of the gateway *)

(** The counts and batch ids of this device. *)
Definition same_usage (db db' : PinDb) : Prop :=
  (forall p k, usage_of p (usage_at k) db' = usage_of p (usage_at k) db) /\ (forall b, applied db' b = applied db b).
Lemma same_usage_tables db db' :
  pin_usage db' = pin_usage db -> pin_usage_batches db' = pin_usage_batches db -> same_usage db db'.
Proof. intros E1 E2. split; [intros; unfold usage_of; by rewrite E1|intros; unfold applied; by rewrite E2]. Qed.

Lemma batch_counts_foreign d k es : d <> provider -> batch_counts d (usage_at k) es = no_counts.
Proof.
  intros Hd. destruct k as [[day consumer] model]. induction es as [|e es IH]; [done|].
  unfold batch_counts. cbn [foldr]. rewrite decide_False by (unfold usage_key, usage_at; congruence). exact IH.
Qed.

Lemma policy_usage now p d models by_ db db' :
  set_model_policy now p d models by_ db = Ok db' ->
  pin_usage db' = pin_usage db /\ pin_usage_batches db' = pin_usage_batches db.
Proof.
  unfold set_model_policy. destruct (fold_res _ _ _); [|done]. intros E.
  refine (fold_res_ind _ (fun x => pin_usage x = pin_usage db /\ pin_usage_batches x = pin_usage_batches db) _ _ _ _ E _);
    [|done]. intros [m st] db1 db2 _. unfold insert_policy. destruct (negb _); [|done]. destruct (has p _); [|done].
  by intros [= <-].
Qed.
Lemma report_usage now p d st db :
  pin_usage (report_model_policy_status now p d st db) = pin_usage db /\
  pin_usage_batches (report_model_policy_status now p d st db) = pin_usage_batches db.
Proof.
  unfold report_model_policy_status. revert db. induction st as [|[[m a] e] st IH]; intros db; [done|]. simpl.
  destruct (IH (set_policy (alter (fun r => mkPolicyRow (pp_desired_state r) (pp_set_by r) (pp_set_at r) (Some a)
    (Some now) e) (p, d, m) (pin_model_policy db)) db)) as [-> ->]. done.
Qed.

Lemma foreign_usage now p d batch es db :
  d <> provider -> same_usage db (settle_with (record_usage_batch now p d batch es db) db).
Proof.
  intros Hd. unfold record_usage_batch. destruct (has _ (pin_usage_batches db)); [by apply same_usage_tables|].
  destruct (has p _); [|by apply same_usage_tables]. set (db0 := set_batches _ db).
  pose proof (add_usage_all p d es db0) as Hu. destruct (fold_res _ _ db0) as [db1|]; [|by apply same_usage_tables].
  destruct Hu as (_ & Hb & Hu). simpl. split.
  - intros q k. rewrite Hu, batch_counts_foreign, add_counts_none by done. by case_decide.
  - intros b. unfold applied. rewrite Hb. unfold db0, has. simpl. rewrite lookup_insert_ne by congruence. done.
Qed.

Lemma gateway_usage now op db : foreign op -> same_usage db (apply_pin_op now op db).
Proof.
  intros Hop. destruct op; try (by apply foreign_usage);
    unfold apply_pin_op, settle_unit, settle_with, create_pin, submit_join, approve_member, require_admin, deny_member,
      remove_member, set_member_disabled, change_status, rotate_join_code, grant_role, revoke_role,
      set_member_offers_exit, update_member_endpoints, set_settings, delete_pin, bump_netmap_generation;
    try (repeat case_match; simplify_eq; by apply same_usage_tables).
  - destruct (update_member _ _ _ _ db) as [db'|] eqn:E; [|by apply same_usage_tables].
    apply update_member_split in E as (db1 & E & ->). unfold rename_member, set_serves in *.
    repeat case_match; simplify_eq; by apply same_usage_tables.
  - destruct (set_model_policy _ _ _ _ _ db) as [db'|] eqn:E; [|by apply same_usage_tables].
    apply policy_usage in E as [? ?]. by apply same_usage_tables.
  - apply same_usage_tables; apply report_usage.
Qed.

Lemma gateway_ok now op x :
  foreign op -> usage_ok x ->
  usage_ok (mkUsageSystem (x_node x) (apply_pin_op now op (x_gateway x)) (x_seen x) (x_refused x)).
Proof.
  intros Hop [Hid Hs]. destruct (gateway_usage now op (x_gateway x) Hop) as [Hu Ha]. split; [done|].
  intros f p k Hf. unfold waiting. cbn [x_node x_gateway x_seen x_refused]. rewrite Hu, (Hs f p k Hf). unfold waiting.
  rewrite (map_sum_ext (file_sum f p k (apply_pin_op now op (x_gateway x))) (file_sum f p k (x_gateway x)));
    [done|]. intros i [b|] _; [|done]. simpl. by rewrite Ha.
Qed.

Lemma unreadable_ok id x :
  ub_outbox (x_node x) !! id = Some None -> usage_ok x ->
  usage_ok (mkUsageSystem (drop_file id (x_node x)) (x_gateway x) (x_seen x) (x_refused x)).
Proof.
  intros Hn [Hid Hs]. split; [by apply drop_ids|]. intros f p k Hf. unfold waiting.
  cbn [x_node x_gateway x_seen x_refused ub_records ub_outbox drop_file]. rewrite (Hs f p k Hf). unfold waiting.
  rewrite (outbox_without _ _ _ _ _ _ _ Hn). simpl file_sum. lia.
Qed.

Lemma usage_reachable_ok x : usage_reachable x -> usage_ok x.
Proof.
  induction 1 as [db Hdb|x y _ IH Hstep].
  - split; [by intros id b Hn|]. intros f p k [Hz _]. unfold waiting. simpl. rewrite Hdb, map_sum_empty, Hz. done.
  - destruct Hstep; [by apply record_ok|by apply seal_ok|by apply send_ok|by apply unreadable_ok|by apply gateway_ok].
Qed.

(** C30: However requests and answers are lost and repeated and whatever else the
    gateway does, for every network, day, consumer and model the requests and
    tokens a device recorded are what the gateway counted for it, plus what waits
    on the device, plus what the gateway refused with 404; nothing is counted
    twice.  When nothing waits and nothing was refused, the gateway counted
    exactly what was recorded. *)
Theorem usage_exactly_once (x : UsageSystem) (f : UsageCounts -> Z) (p : string) (k : EntryKey)
    (Hx : usage_reachable x) (Hf : f ∈ measures) :
  sum_list (record_sum f p k) (x_seen x) =
    f (usage_of p (usage_at k) (x_gateway x)) + waiting f p k x + sum_list (batch_sum f p k) (x_refused x) /\
  (ub_records (x_node x) = [] -> ub_outbox (x_node x) = ∅ -> x_refused x = [] ->
   f (usage_of p (usage_at k) (x_gateway x)) = sum_list (record_sum f p k) (x_seen x)).
Proof.
  pose proof (ok_sum x (usage_reachable_ok x Hx) f p k (measures_additive f Hf)) as Hs. split; [done|].
  intros Er Eo Ef. rewrite Hs. unfold waiting. rewrite Er, Eo, Ef, map_sum_empty. simpl. lia.
Qed.

(** A batch that reaches the gateway while the device is an active member of
    a known network leaves the outbox and is counted: at once, whatever happened
    to earlier attempts. *)
Theorem batch_lands (x : UsageSystem) (now : Z) (id : string) (b : Batch)
    (Hx : usage_reachable x) (Hfile : ub_outbox (x_node x) !! id = Some (Some b))
    (Hactive : member_status (ba_pin_id b) provider (x_gateway x) = Some Active)
    (Hpin : has (ba_pin_id b) (pins (x_gateway x)) = true) (Hid : is_empty (trim id) = false)
    (Hcounts : forallb counts_ok (wire_entry <$> ba_entries b) = true) :
  let y := send now true true id b x in
  ub_outbox (x_node y) !! id = None /\ x_refused y = x_refused x /\ applied (x_gateway y) b = true.
Proof.
  pose proof (ok_ids x (usage_reachable_ok x Hx) id b Hfile) as Eid. unfold send.
  assert (exists s db', report_handler now b (x_gateway x) = (Ok s, db') /\ applied db' b = true) as (s & db' & -> & Ha).
  { unfold report_handler, mbind, handler_bind, reads. rewrite bool_decide_eq_false_2 by (rewrite Hactive; auto).
    rewrite Eid, Hid. unfold runs, record_usage_batch. destruct (has (ba_pin_id b, provider, id) _) eqn:Ea.
    { eexists _, _. split; [reflexivity|]. unfold applied. by rewrite Eid. }
    rewrite Hpin. set (db0 := set_batches _ _).
    pose proof (add_usage_all (ba_pin_id b) provider (wire_entry <$> ba_entries b) db0) as Hu.
    destruct (fold_res _ _ db0) as [db1|]; [|by rewrite Hcounts in Hu]. destruct Hu as (_ & Hb & _).
    eexists _, _. split; [reflexivity|]. unfold applied, has. rewrite Hb, Eid. unfold db0. simpl.
    by rewrite lookup_insert_eq. }
  cbn [answer_status settle_file is_success]. split_and!; [by simpl; rewrite lookup_delete_eq|done|done].
Qed.
End Delivery.

(** ** A concrete device *)

#[local] Existing Instance toy_json.

Definition toy_use : UsageRecord := mkUsageRecord "net" "2026-07-04" "phone" "qwen3-4b" 100 20 None None.
Definition toy_uuid (i : nat) : string := "batch" ++ pretty i.
Definition served : UsageSystem :=
  mkUsageSystem (record_usage toy_use (open_batcher [] ∅)).2 founded [toy_use] [].
Definition sealed : UsageSystem := mkUsageSystem (seal_batches toy_uuid None (x_node served)) founded [toy_use] [].
Definition toy_batch : Batch := mkBatch "net" "batch0" [mkBatchEntry "2026-07-04" "phone" "qwen3-4b" 1 100 20 None None].
(** The answer to the first attempt is lost. *)
Definition retried : UsageSystem := send toy_sql_text "laptop" 50 true false "batch0" toy_batch sealed.
Definition landed : UsageSystem := send toy_sql_text "laptop" 60 true true "batch0" toy_batch retried.

Lemma toy_uuid_inj i j : toy_uuid i = toy_uuid j -> i = j.
Proof. unfold toy_uuid. intros E. apply (inj (String.append "batch")) in E. by apply (inj pretty) in E. Qed.

Lemma sealed_reachable : usage_reachable toy_sql_text "laptop" sealed.
Proof.
  eapply usage_next; [|apply (step_seal _ _ toy_uuid)].
  - eapply usage_next; [apply (usage_start _ _ founded)|apply step_record].
    intros p k. unfold usage_of. by replace (pin_usage founded) with (∅ : gmap (string * UsageKey) UsageCounts)
      by (vm_compute; reflexivity).
  - split; [exact toy_uuid_inj|]. intros i. split; [apply lookup_empty|]. intros p. unfold has.
    by replace (pin_usage_batches (x_gateway served)) with (∅ : gmap (string * string * string) Z)
      by (vm_compute; reflexivity).
Qed.
Lemma retried_reachable : usage_reachable toy_sql_text "laptop" retried.
Proof. eapply usage_next; [apply sealed_reachable|]. apply step_send. vm_compute. reflexivity. Qed.
Lemma landed_reachable : usage_reachable toy_sql_text "laptop" landed.
Proof. eapply usage_next; [apply retried_reachable|]. apply step_send. vm_compute. reflexivity. Qed.

Lemma usage_exactly_once_witness :
  uc_tokens_in (usage_of "net" ("2026-07-04", "laptop", "phone", "qwen3-4b") (x_gateway landed)) = 100.
Proof.
  etransitivity.
  - refine (proj2 (usage_exactly_once toy_sql_text "laptop" landed uc_tokens_in "net" ("2026-07-04", "phone", "qwen3-4b")
      landed_reachable _) _ _ _).
    + right. left.
    + vm_compute. reflexivity.
    + vm_compute. reflexivity.
    + vm_compute. reflexivity.
  - vm_compute. reflexivity.
Defined.

Lemma batch_lands_witness :
  ub_outbox (x_node (send toy_sql_text "laptop" 60 true true "batch0" toy_batch retried)) !! "batch0" = None.
Proof.
  refine (proj1 (batch_lands toy_sql_text "laptop" retried 60 "batch0" toy_batch retried_reachable _ _ _ _ _));
    vm_compute; reflexivity.
Defined.

(** A device that stops after a batch file was written and before the records
    were cleared seals the same records again under a new id, which the gateway
    does not recognise: the request is counted twice. *)
Definition toy_uuid2 (i : nat) : string := "again" ++ pretty i.
Lemma crash_counts_twice :
  let stopped := seal_batches toy_uuid (Some 1%nat) (x_node served) in
  let node := seal_batches toy_uuid2 None stopped in
  let x := mkUsageSystem node founded [toy_use] [] in
  let again := mkBatch "net" "again0" (ba_entries toy_batch) in
  let y := send toy_sql_text "laptop" 60 true true "again0" again
             (send toy_sql_text "laptop" 50 true true "batch0" toy_batch x) in
  ub_outbox node !! "batch0" = Some (Some toy_batch) /\ ub_outbox node !! "again0" = Some (Some again) /\
  usage_of "net" ("2026-07-04", "laptop", "phone", "qwen3-4b") (x_gateway y) = mkUsageCounts 2 200 40.
Proof. cbv zeta. split; [vm_compute; reflexivity|]. split; vm_compute; reflexivity. Qed.
