(* ===== verification/Catalog.v ===== *)
(** * The model catalog and prices

    [gateway/src/catalog.rs]: the models the gateway offers, the entries made up
    for live models, and the choice of a concrete model for a virtual one; and
    the pricing functions of [ledger.rs] ([cost_credits],
    [availability_credits_per_tick], [apply_demand_weighting]).  Prices are
    decimal strings; a malformed one counts as free. *)

From S2P Require Import Prelude RustStr F64 Registry Scheduler PinWire Availability.
From stdpp Require Import sorting.
From Stdlib Require Import Ascii.

Open Scope string_scope.
Open Scope list_scope.
Open Scope Z_scope.

(** ** Models *)

Definition LIVE_MODEL_DEFAULT_PROMPT_PRICE : string := "0.00000030".
Definition LIVE_MODEL_DEFAULT_COMPLETION_PRICE : string := "0.00000120".
Definition LIVE_MODEL_DEFAULT_CONTEXT_LENGTH : Z := 32768.
Definition LIVE_MODEL_DEFAULT_MAX_OUTPUT_TOKENS : Z := 8192.

Record CatalogModel : Type := mkCatalogModel {
  cm_id : string;
  cm_display_name : string;
  cm_owned_by : string;
  cm_context_length : Z;
  cm_max_output_tokens : Z;
  cm_params_b : f64;
  cm_pricing_prompt : string;
  cm_pricing_completion : string;
  cm_quantization : option string;
  cm_supported_parameters : list string;
  cm_description : option string;
  cm_aliases : list string;
  cm_is_virtual : bool;
  cm_routing_tags : list string;
  cm_estimated_ttft_ms : option Z;
  cm_estimated_tps : option f64
}.

Definition matches (id : string) (m : CatalogModel) : bool :=
  eq_ignore_ascii_case (cm_id m) id || existsb (fun a => eq_ignore_ascii_case a id) (cm_aliases m).
Definition price_of (s : string) : f64 := default f64_zero (parse_f64 s).
Definition prompt_price_usd (m : CatalogModel) : f64 := price_of (cm_pricing_prompt m).
Definition completion_price_usd (m : CatalogModel) : f64 := price_of (cm_pricing_completion m).
Definition has_routing_tag (tag : string) (m : CatalogModel) : bool :=
  existsb (fun t => eq_ignore_ascii_case t tag) (cm_routing_tags m).
Definition supports_all_parameters (required : list string) (m : CatalogModel) : bool :=
  forallb (fun p => existsb (fun c => eq_ignore_ascii_case c p) (cm_supported_parameters m)) required.

Inductive AutoRouteProfile : Type := Generic | AgentHarness.

(** The first and the last part of an id between slashes. *)
Fixpoint before_slash (l : list ascii) : list ascii :=
  match l with
  | [] => []
  | c :: l => if Ascii.eqb c "/"%char then [] else c :: before_slash l
  end.
Definition non_empty (s d : string) : string := if is_empty s then d else s.
Definition to_space (c : ascii) : ascii :=
  if Ascii.eqb c "-"%char || Ascii.eqb c "_"%char then " "%char else c.
Definition u32_clamp (lo hi x : Z) : Z := Z.max lo (Z.min hi x).

Definition synthesize_live_model (model_id : string) (effective_context : option Z) : CatalogModel :=
  let context_length := default LIVE_MODEL_DEFAULT_CONTEXT_LENGTH effective_context in
  let max_output_tokens := u32_clamp 1024 (Z.max LIVE_MODEL_DEFAULT_MAX_OUTPUT_TOKENS 1024) (context_length / 4) in
  let name := non_empty (of_bytes (after_last_slash (bytes model_id) (bytes model_id))) model_id in
  let owner := non_empty (of_bytes (before_slash (bytes model_id))) "teale" in
  mkCatalogModel model_id (map_str to_space name) owner context_length max_output_tokens f64_one
    LIVE_MODEL_DEFAULT_PROMPT_PRICE LIVE_MODEL_DEFAULT_COMPLETION_PRICE None
    ["temperature"; "top_p"; "max_tokens"; "stop"; "stream"; "seed"]
    (Some "Live Teale network model discovered from active supply. Gateway default pricing applies.")
    [] false [] None None.

Definition is_large (params_b : f64) : bool := f64_ge params_b (f64_of_Z 50).

(** [q.contains(w)] for one of the words. *)
Definition mentions (q : string) (ws : list string) : bool := existsb (str_contains q) ws.
Definition estimated_size_gb (params_b : f64) (quantization : option string) : f64 :=
  let bytes_per_param :=
    match to_ascii_uppercase <$> quantization with
    | Some q =>
        if mentions q ["FP16"; "BF16"] then f64_of_Z 2
        else if mentions q ["Q8"; "8BIT"] then f64_dec 11 1
        else if mentions q ["Q6"] then f64_dec 75 2
        else if mentions q ["Q5"] then f64_dec 65 2
        else if mentions q ["Q4"] then f64_dec 55 2
        else if mentions q ["MXFP4"] then f64_dec 55 2
        else if mentions q ["Q3"] then f64_dec 40 2
        else if mentions q ["Q2"] then f64_dec 30 2
        else f64_dec 6 1
    | None => f64_dec 6 1
    end in
  f64_mul params_b bytes_per_param.

(** ** Virtual models *)

(** [a.params_b.partial_cmp(&b.params_b).unwrap_or(Equal).then(b.context_length.cmp(&a.context_length))]. *)
Definition smaller_first (a b : CatalogModel) : bool :=
  match default Eq (SFcompare (cm_params_b a) (cm_params_b b)) with
  | Lt => true
  | Gt => false
  | Eq => cm_context_length b <=? cm_context_length a
  end.
Definition auto_before (a b : CatalogModel) : Prop := smaller_first a b = true.
#[export] Instance auto_before_dec a b : Decision (auto_before a b).
Proof. unfold auto_before. apply _. Defined.

Section Auto.
Variables (catalog : list CatalogModel) (required_ctx : Z) (profile : AutoRouteProfile)
  (required_supported_parameters : list string) (eligible_count : string -> Z -> Z) (floors : Z * Z)
  (exclude_model_ids : list string).

Definition floor_of (floors : Z * Z) (m : CatalogModel) : Z := if is_large (cm_params_b m) then floors.2 else floors.1.
Definition auto_candidate (prefer_agent_harness : bool) (m : CatalogModel) : bool :=
  negb (cm_is_virtual m) &&
  negb (existsb (fun x => bool_decide (x = cm_id m)) exclude_model_ids) &&
  (required_ctx <=? cm_context_length m) &&
  supports_all_parameters required_supported_parameters m &&
  match profile, prefer_agent_harness with
  | AgentHarness, true => has_routing_tag "agent-harness" m
  | _, _ => true
  end &&
  (floor_of floors m <=? eligible_count (cm_id m) required_ctx).
Definition build_candidates (prefer_agent_harness : bool) : list CatalogModel :=
  List.filter (auto_candidate prefer_agent_harness) catalog.
Definition resolve_auto : option CatalogModel :=
  let candidates := build_candidates true in
  let candidates :=
    match profile, candidates with
    | AgentHarness, [] => build_candidates false
    | _, _ => candidates
    end in
  head (merge_sort auto_before candidates).
End Auto.

(** ** Prices *)

Definition HERMES_REFERENCE_PROMPT_PRICE_USD : f64 := f64_dec 10 8.
Definition HERMES_REFERENCE_COMPLETION_PRICE_USD : f64 := f64_dec 20 8.
Definition DRIP_DEAD_MODEL_FLOOR : f64 := f64_dec 5 2.

Definition availability_credits_per_tick (prompt_price completion_price : f64) : Z :=
  let combined_price := f64_add (f64_max prompt_price f64_zero) (f64_max completion_price f64_zero) in
  let hermes_reference := f64_add HERMES_REFERENCE_PROMPT_PRICE_USD HERMES_REFERENCE_COMPLETION_PRICE_USD in
  if f64_le combined_price f64_zero then 1
  else Z.max (f64_as_i64 (f64_round (f64_div combined_price hermes_reference))) 1.

(** The tokens are [u64]. *)
Definition cost_credits (tokens_in tokens_out : Z) (prompt_price completion_price : f64) : Z :=
  let usd := f64_add (f64_mul (f64_of_Z tokens_in) (f64_max prompt_price f64_zero))
               (f64_mul (f64_of_Z tokens_out) (f64_max completion_price f64_zero)) in
  Z.max (f64_as_i64 (f64_round (f64_mul usd (f64_of_Z 1000000)))) 1.

Definition demand_of (catalog : list CatalogModel) (demand_counts : list (string * Z)) (r : DripRecipient) : Z :=
  let catalog_model := mid ← dr_model_id r; List.find (matches mid) catalog in
  zsum (snd <$> List.filter (fun '(key, _) =>
    match catalog_model with
    | Some m => matches key m
    | None => bool_decide (dr_model_id r = Some key)
    end) demand_counts).
Definition with_credits (c : Z) (r : DripRecipient) : DripRecipient :=
  mkDripRecipient (dr_device_id r) c (dr_model_id r).
Definition demand_weight (catalog : list CatalogModel) (demand_counts : list (string * Z)) (total_demand : Z)
    (r : DripRecipient) : f64 :=
  let share := f64_div (f64_of_Z (demand_of catalog demand_counts r)) (f64_of_Z total_demand) in
  f64_mul (f64_of_Z (Z.max (dr_credits r) 0))
    (f64_add DRIP_DEAD_MODEL_FLOOR (f64_mul (f64_sub f64_one DRIP_DEAD_MODEL_FLOOR) share)).
(** The counts are [usize] and the base rates [i64], both far from overflow. *)
Definition apply_demand_weighting (recipients : list DripRecipient) (demand_counts : list (string * Z))
    (catalog : list CatalogModel) : list DripRecipient :=
  let total_demand := zsum (snd <$> demand_counts) in
  if total_demand =? 0 then recipients
  else
    let base_total := zsum ((fun r => Z.max (dr_credits r) 0) <$> recipients) in
    if base_total <=? 0 then recipients
    else
      let weights := demand_weight catalog demand_counts total_demand <$> recipients in
      let weight_total := foldl f64_add f64_zero weights in
      if f64_le weight_total f64_zero then recipients
      else
        zip_with (fun r w =>
          with_credits (Z.max (f64_as_i64 (f64_round (f64_div (f64_mul (f64_of_Z base_total) w) weight_total))) 0) r)
          recipients weights.
