(* ===== verification/ChatPrepare.v ===== *)
(** * Chat completions: preparing a request

    The first half of [gateway/src/handlers/chat.rs]: reading the request,
    resolving the model it names, the supply floor, the budget of the caller and
    the clamp of the answer to it, and the deadlines.  The registry, the catalog
    and the database are arguments; JSON numbers are integers. *)

From S2P Require Import Prelude Db RustStr Merkle Wallet Settlement Accounts ApiKeys F64 Registry Scheduler.
From S2P Require Import Pins Auth PinWire Catalog.
From Stdlib Require Import Ascii.

Open Scope string_scope.
Open Scope list_scope.
Open Scope Z_scope.

(** ** Requests *)

(** [value.get(key)] and [value.get(0)]. *)
Definition get (key : string) (j : Json) : option Json :=
  match j with JObject o => field key o | _ => None end.
Definition nth (i : nat) (j : Json) : option Json := match j with JArray l => l !! i | _ => None end.
Definition as_list (j : Json) : option (list Json) := match j with JArray l => Some l | _ => None end.
Definition as_u64 (j : Json) : option Z :=
  match j with JNumber z => if (0 <=? z) && (z <? 2 ^ 64) then Some z else None | _ => None end.
Definition as_u32 (j : Json) : option Z :=
  match j with JNumber z => if (0 <=? z) && (z <? 2 ^ 32) then Some z else None | _ => None end.
Definition as_number (j : Json) : option Z := match j with JNumber z => Some z | _ => None end.
Definition any_value (j : Json) : option Json := Some j.

Record ApiMessage : Type := mkApiMessage {
  msg_role : string;
  msg_content : Json
}.
Record ChatCompletionRequest : Type := mkChatCompletionRequest {
  cr_model : option string;
  cr_messages : list ApiMessage;
  cr_max_tokens : option Z;
  cr_stream : option bool;
  cr_tools : option Json;
  cr_tool_choice : option Json
}.

(** A field [Option<T>]: absent and [null] are [None]. *)
Definition opt_field {A} (key : string) (f : Json -> option A) (o : list (string * Json)) : option (option A) :=
  defaulted key None (as_option f) o.

Definition message_of (j : Json) : option ApiMessage :=
  match j with
  | JObject o =>
      role ← required "role" as_string o;
      content ← required "content" any_value o;
      _ ← opt_field "name" as_string o;
      _ ← opt_field "tool_call_id" as_string o;
      Some (mkApiMessage role content)
  | _ => None
  end.
(** The derived [Deserialize]: the fields the gateway does not read must have
    their types too. *)
Definition request_of (j : Json) : option ChatCompletionRequest :=
  match j with
  | JObject o =>
      model ← opt_field "model" as_string o;
      messages ← required "messages" (as_array message_of) o;
      _ ← opt_field "temperature" as_number o;
      _ ← opt_field "top_p" as_number o;
      max_tokens ← opt_field "max_tokens" as_u32 o;
      stream ← opt_field "stream" as_bool o;
      _ ← opt_field "stop" (as_array as_string) o;
      _ ← opt_field "presence_penalty" as_number o;
      _ ← opt_field "frequency_penalty" as_number o;
      tools ← opt_field "tools" any_value o;
      tool_choice ← opt_field "tool_choice" any_value o;
      _ ← opt_field "seed" as_i64 o;
      _ ← opt_field "user" as_string o;
      Some (mkChatCompletionRequest model messages max_tokens stream tools tool_choice)
  | _ => None
  end.

(** [obj.insert(key, v)]: replaces the value of a key that is there. *)
Fixpoint insert_key (key : string) (v : Json) (o : list (string * Json)) : list (string * Json) :=
  match o with
  | [] => [(key, v)]
  | (k, w) :: o => if String.eqb k key then (k, v) :: o else (k, w) :: insert_key key v o
  end.
Definition set_key (key : string) (v : Json) (j : Json) : Json :=
  match j with JObject o => JObject (insert_key key v o) | j => j end.

(** ** Configuration *)

Record ChatConfig : Type := mkChatConfig {
  cc_scheduler : SchedulerConfig;
  cc_catalog : list CatalogModel;
  cc_apmhelp_pin_id : string;
  cc_started_at : Z
}.
Record ChatHeaders : Type := mkChatHeaders {
  ch_user_agent : option string;
  ch_prefer_linked_device : option string
}.

(** ** Models *)

Definition HIDDEN_MODEL_IDS : list string := ["moonshotai/kimi-k2"; "moonshotai/kimi-k2.6"].
Definition is_hidden_model_id (model_id : string) : bool :=
  existsb (fun hidden => model_matches_any model_id [hidden]) HIDDEN_MODEL_IDS.

Definition unresolved_model_error (clk : Clock) (cfg : ChatConfig) (r : Registry) (requested : string) : GatewayError :=
  if elapsed clk (cc_started_at cfg) <? from_secs (registry_warmup_seconds (reliability r))
  then NoEligibleDevice requested else ModelNotFound requested.

(** [Iterator::max] of an iterator of [u32]. *)
Definition max_of (l : list Z) : option Z := match l with [] => None | x :: l => Some (foldl Z.max x l) end.

Definition resolve_requested_model (clk : Clock) (cfg : ChatConfig) (r : Registry) (requested : string)
    : option CatalogModel :=
  match List.find (matches requested) (cc_catalog cfg) with
  | Some m => if is_hidden_model_id (cm_id m) then None else Some m
  | None =>
      if is_hidden_model_id requested then None
      else
        let live := List.filter (fun d =>
          catalog_visible clk (heartbeat_stale_seconds (reliability r)) d &&
          model_matches_any requested (loaded_models (capabilities d))) (snapshot_devices r) in
        match live with
        | [] => None
        | _ => Some (synthesize_live_model requested (max_of (omap (fun d => effective_context (capabilities d)) live)))
        end
  end.

(** ** Deadlines, in seconds *)

Definition ttft_deadline_seconds_for_model (rel : ReliabilityConfig) (m : CatalogModel) : Z :=
  if is_large (cm_params_b m) then ttft_deadline_seconds rel
  else Z.min (small_ttft_deadline_seconds rel) (ttft_deadline_seconds rel).

Definition single_supplier_large_cold_start_grace (clk : Clock) (r : Registry) (m : CatalogModel) : bool :=
  if negb (is_large (cm_params_b m)) then false
  else if Nat.ltb 0 (loaded_count clk (cm_id m) r) then false
  else Nat.leb (length (eligible_devices clk (cm_id m) r)) 1.

Definition PREFILL_TPS_FLOOR_SHORT : Z := 200.
Definition PREFILL_TPS_FLOOR_LONG : Z := 100.
Definition PREFILL_LONG_CTX_THRESHOLD : Z := 8192.
Definition prefill_floor_tps (required_ctx : Z) : Z :=
  if PREFILL_LONG_CTX_THRESHOLD <? required_ctx then PREFILL_TPS_FLOOR_LONG else PREFILL_TPS_FLOOR_SHORT.
Definition SOLE_SUPPLIER_TTFT_CEILING_SECONDS : Z := 1500.

Definition pre_first_token_deadline (clk : Clock) (r : Registry) (m : CatalogModel) (prompt_tokens : Z) : Z :=
  let cap := request_timeout_seconds (reliability r) in
  if single_supplier_large_cold_start_grace clk r m then cap
  else
    let base := ttft_deadline_seconds_for_model (reliability r) m in
    let prompt_aware := base + prompt_tokens / prefill_floor_tps prompt_tokens in
    if Nat.leb (length (eligible_devices clk (cm_id m) r)) 1
    then Z.min prompt_aware SOLE_SUPPLIER_TTFT_CEILING_SECONDS
    else Z.min prompt_aware cap.
Definition co_resident_ttft_adjust (deadline : Z) (beside_heavy : bool) (rel : ReliabilityConfig) : Z :=
  if beside_heavy then deadline + heavy_co_resident_ttft_bonus_seconds rel else deadline.

Definition is_transient_warmup_error (message : string) : bool :=
  let lower := to_lowercase message in
  str_contains lower "loading model" || (str_contains lower "unavailable_error" && str_contains lower "503").
Definition is_backend_client_error (message : string) : bool :=
  str_contains message "exceed_context_size" || str_contains message "backend returned 4".

Section Prepare.
Context `{WireCrates}.

(** ** Estimates *)

Definition content_length (m : ApiMessage) : Z :=
  match msg_content m with
  | JString s => Z.of_nat (String.length s)
  | other => Z.of_nat (length (json_text other))
  end.
Definition prompt_bytes (req : ChatCompletionRequest) : Z := zsum (content_length <$> cr_messages req).
(** [div_ceil(4) + 16]. *)
Definition prompt_tokens_estimate (req : ChatCompletionRequest) : Z := (prompt_bytes req + 3) / 4 + 16.
Definition estimate_prompt_tokens (req : ChatCompletionRequest) : Z := u32_wrap (prompt_bytes req / 4).
Definition estimate_required_context (req : ChatCompletionRequest) : Z :=
  Z.min u32_max (estimate_prompt_tokens req + default 4096 (cr_max_tokens req)).

Definition is_heavy_request (prompt_tokens : Z) (max_tokens : option Z) (rel : ReliabilityConfig) : bool :=
  if negb (heavy_hold rel) then false
  else (heavy_hold_prompt_tokens rel <=? prompt_tokens) || (heavy_hold_max_tokens rel <=? default 0 max_tokens).

Definition AGENT_NAMES : list string := ["openclaw"; "hermes"; "codex"; "claude-code"; "cline"; "roo"; "aider"].
Definition AGENT_MARKERS : list string :=
  ["AGENTS.md"; "TOOLS.md"; "SOUL.md"; "HEARTBEAT.md"; "workspace"; "repo-level reasoning"].
Definition is_some {A} (o : option A) : bool := match o with Some _ => true | None => false end.
Definition infer_auto_route_profile (headers : ChatHeaders) (req : ChatCompletionRequest) : AutoRouteProfile :=
  let user_agent := to_lowercase (default "" (ch_user_agent headers)) in
  let has_agent_user_agent := existsb (str_contains user_agent) AGENT_NAMES in
  let has_agent_bootstrap_marker := existsb (fun m =>
    match msg_content m with JString s => existsb (str_contains s) AGENT_MARKERS | _ => false end) (cr_messages req) in
  if has_agent_bootstrap_marker || is_some (cr_tools req) || is_some (cr_tool_choice req) ||
     ((12000 <=? prompt_bytes req) && (4096 <=? default 4096 (cr_max_tokens req))) ||
     (has_agent_user_agent && (4000 <=? prompt_bytes req))
  then AgentHarness else Generic.

Definition required_auto_supported_parameters (req : ChatCompletionRequest) : list string :=
  (if match cr_tools req with
      | Some (JArray items) => bool_decide (items <> [])
      | Some JNull | None => false
      | Some _ => true
      end then ["tools"] else []) ++
  (if is_some (cr_tool_choice req) then ["tool_choice"] else []).

(** ** The caller *)

Definition reject_account_session (p : AuthPrincipal) : result GatewayError unit :=
  match account_session p with
  | Some _ => Err (Forbidden "account sessions cannot run inference; create an API key with /v1/keys")
  | None => Ok tt
  end.
Definition consumer_principal (p : AuthPrincipal) : option ConsumerPrincipal :=
  match share_key p with
  | Some (issuer, key_id) => Some (Share issuer key_id)
  | None =>
      match api_key p with
      | Some (key_id, account, _) => Some (Account account (Some key_id))
      | None => Device <$> device_id p
      end
  end.

Definition preferred_linked_node_ids (headers : ChatHeaders) (p : AuthPrincipal) (db : option PinDb) : list string :=
  let enabled := match ch_prefer_linked_device headers with
                 | Some v => let v := to_lowercase (trim v) in
                             String.eqb v "1" || String.eqb v "true" || String.eqb v "yes"
                 | None => false
                 end in
  if negb enabled then []
  else
    match p, db with
    | PApiKey _ account _ _ _, Some db => account_device_ids account (p_db db)
    | _, _ => []
    end.

Definition apmhelp_lane_request (cfg : ChatConfig) (p : AuthPrincipal) (db : option PinDb) : bool :=
  if is_empty (cc_apmhelp_pin_id cfg) then false
  else
    match db with
    | None => false
    | Some db =>
        let account := match account_session p with
                       | Some (a, _) => Some a
                       | None => match api_key p with Some (_, a, _) => Some a | None => None end
                       end in
        match a ← account; role_of (cc_apmhelp_pin_id cfg) a db with
        | Some _ => true
        | None =>
            match d ← device_id p; member_status (cc_apmhelp_pin_id cfg) d db with
            | Some s => bool_decide (s = Pins.Active)
            | None => false
            end
        end
    end.

(** ** The budget *)

Definition share_key_remaining (key_id : string) (db : Db) : option Z :=
  (fun k => sk_budget_credits k - sk_consumed_credits k) <$> share_keys db !! key_id.
Definition share_key_is_funded (key_id : string) (db : Db) : bool :=
  match share_keys db !! key_id with Some k => sk_funded k =? 1 | None => false end.
Definition effective_budget (c : ConsumerPrincipal) (db : Db) : Z :=
  match c with
  | Share issuer key_id =>
      let pool_remaining := default 0 (share_key_remaining key_id db) in
      if share_key_is_funded key_id db then pool_remaining
      else Z.min pool_remaining (snap_balance_credits (get_balance issuer db))
  | Device d => snap_balance_credits (get_balance d db)
  | Account account key =>
      let key_remaining := default i64_max (k ← key; api_key_remaining_limit k db) in
      Z.min (account_balance_credits account db) key_remaining
  end.

Record ClampDecision : Type := mkClampDecision {
  effective_max : Z;
  client_max : Z;
  clamped : bool
}.
Definition affordable_out_tokens (m : CatalogModel) (remaining_after_prompt : Z) : Z :=
  if remaining_after_prompt <=? 0 then 1
  else
    let completion_price_credits := f64_mul (completion_price_usd m) (f64_of_Z 1000000) in
    if f64_le completion_price_credits f64_zero then 2 ^ 64 - 1
    else
      let affordable := f64_floor (f64_div (f64_of_Z remaining_after_prompt) completion_price_credits) in
      Z.max (f64_as_i64 affordable) 1.
(** [saturating_add] on costs that are at least 1. *)
Definition compute_clamp (m : CatalogModel) (req : ChatCompletionRequest) (budget : Z) : result Z ClampDecision :=
  let prompt_cost := cost_credits (prompt_tokens_estimate req) 0 (prompt_price_usd m) (completion_price_usd m) in
  let one_out_cost := cost_credits 0 1 (prompt_price_usd m) (completion_price_usd m) in
  let min_required := Z.min i64_max (prompt_cost + one_out_cost) in
  guard? negb (budget <? min_required) else min_required in
  let catalog_max := cm_max_output_tokens m in
  let client_max := Z.max (Z.min (default catalog_max (cr_max_tokens req)) catalog_max) 1 in
  let affordable_out := affordable_out_tokens m (i64_sub budget prompt_cost) in
  let effective_max := Z.max (Z.min client_max affordable_out) 1 in
  Ok (mkClampDecision effective_max client_max (effective_max <? client_max)).

(** ** Preparing *)

Record PreparedChatRequest : Type := mkPrepared {
  pr_catalog_model : CatalogModel;
  pr_req_body : Json;
  pr_consumer : option ConsumerPrincipal;
  pr_required_ctx : Z;
  pr_prompt_tokens : Z;
  pr_preferred_node_ids : list string;
  pr_streaming : bool;
  pr_tools_lane_fallback : bool;
  pr_was_virtual_resolution : bool;
  pr_apmhelp_lane : bool
}.

(** Devices that have the model loaded and enough context. *)
Definition loaded_supply (clk : Clock) (r : Registry) (id : string) (need_ctx : Z) : Z :=
  Z.of_nat (length (List.filter (fun d =>
    model_matches_any id (loaded_models (capabilities d)) &&
    match effective_context (capabilities d) with Some have => need_ctx <=? have | None => true end)
    (eligible_devices clk id r))).
(** The concrete model, and whether the tools lane was given up. *)
Definition resolve_virtual (clk : Clock) (cfg : ChatConfig) (r : Registry) (headers : ChatHeaders)
    (parsed : ChatCompletionRequest) (excluded : list string) (m : CatalogModel)
    : result GatewayError (CatalogModel * bool) :=
  if negb (cm_is_virtual m) then Ok (m, false)
  else
    let required_ctx := estimate_required_context parsed in
    let profile := infer_auto_route_profile headers parsed in
    let params := required_auto_supported_parameters parsed in
    let excluded_with_hidden := excluded ++ HIDDEN_MODEL_IDS in
    let floors := (small (per_model_floor (cc_scheduler cfg)), large (per_model_floor (cc_scheduler cfg))) in
    let resolve params := resolve_auto (cc_catalog cfg) required_ctx profile params (loaded_supply clk r) floors
                            excluded_with_hidden in
    match resolve params with
    | Some m' => Ok (m', false)
    | None =>
        match (match params with [] => None | _ => resolve [] end) with
        | Some m' => Ok (m', true)
        | None => Err (NoEligibleDevice (cm_id m ++ " (required_ctx=" ++ show_z required_ctx ++ ")"))
        end
    end.
Definition with_max_tokens (n : Z) (req : ChatCompletionRequest) : ChatCompletionRequest :=
  mkChatCompletionRequest (cr_model req) (cr_messages req) (Some n) (cr_stream req) (cr_tools req) (cr_tool_choice req).

(** [invalid] is the text of the parse error. *)
Definition prepare_chat_request_excluding (clk : Clock) (cfg : ChatConfig) (r : Registry) (db : option PinDb)
    (headers : ChatHeaders) (p : AuthPrincipal) (req : Json) (excluded : list string) (invalid : string)
    : result GatewayError PreparedChatRequest :=
  let? parsed := ok_or (BadRequest ("invalid request body: " ++ invalid)) (request_of req) in
  let? requested := ok_or (BadRequest "`model` is required") (cr_model parsed) in
  let? named := ok_or (unresolved_model_error clk cfg r requested) (resolve_requested_model clk cfg r requested) in
  let? (m, fallback) := resolve_virtual clk cfg r headers parsed excluded named in
  let floors := (small (per_model_floor (cc_scheduler cfg)), large (per_model_floor (cc_scheduler cfg))) in
  guard? negb (Z.of_nat (loaded_count clk (cm_id m) r) <? floor_of floors m) else (NoEligibleDevice (cm_id m)) in
  let consumer := consumer_principal p in
  let? (req, parsed) :=
    match consumer, db with
    | Some c, Some db =>
        let budget := effective_budget c (p_db db) in
        match compute_clamp m parsed budget with
        | Ok decision =>
            Ok (set_key "max_tokens" (JNumber (effective_max decision)) req, with_max_tokens (effective_max decision) parsed)
        | Err required => Err (InsufficientCredits budget required)
        end
    | _, _ => Ok (req, parsed)
    end in
  Ok (mkPrepared m req consumer (estimate_required_context parsed) (estimate_prompt_tokens parsed)
        (preferred_linked_node_ids headers p db) (default false (cr_stream parsed)) fallback (cm_is_virtual named)
        (apmhelp_lane_request cfg p db)).

(** ** The cascade over virtual models *)

Definition MAX_AUTO_CASCADE_RETRIES : nat := 3.
Definition should_cascade (err : GatewayError) (was_virtual : bool) (excluded : list string) : bool :=
  if negb was_virtual || Nat.leb MAX_AUTO_CASCADE_RETRIES (length excluded) then false
  else match err with NoEligibleDevice _ | AtCapacity _ | AllUpstreamsFailed _ => true | _ => false end.

(** ** Conversations *)

Fixpoint join_text (parts : list Json) : string :=
  match parts with
  | [] => ""
  | p :: parts => default "" (get "text" p ≫= as_string) ++ join_text parts
  end.
Definition first_user_text (content : Json) : option string :=
  match content with
  | JString s => Some s
  | JArray parts => Some (join_text parts)
  | _ => None
  end.
Fixpoint user_text (messages : list Json) : option string :=
  match messages with
  | [] => None
  | m :: messages =>
      role ← get "role" m ≫= as_string;
      if negb (String.eqb role "user") then user_text messages
      else
        text ← get "content" m ≫= first_user_text;
        if is_empty text then None else Some text
  end.
Definition convo_stickiness_key `{Crates} (model_id : string) (req_body : Json) : option string :=
  messages ← get "messages" req_body ≫= as_list;
  text ← user_text messages;
  Some (hex_encode (sha256 (bytes model_id ++ [ascii_of_nat 10] ++ bytes text))).
End Prepare.
