(* ===== verification/Chat.v ===== *)
(** * Chat completions: dispatch, streaming and settlement

    The second half of [gateway/src/handlers/chat.rs].  A request is a process:
    its phases are the points at which the code awaits or at which another
    request may run in between, and a step takes what the world answers (the
    clock, random numbers, the relay, the events of the session).  The registry
    and the database are shared.  Deadlines show up as the event [TimedOut];
    metrics, log lines, the shadow replay and the bytes of the relay are left
    out. *)

From S2P Require Import Prelude Db RustStr Merkle Wallet Settlement Accounts ApiKeys F64 Registry Scheduler.
From S2P Require Import Pins Auth PinWire Catalog ChatPrepare.
From Stdlib Require Import Ascii.

Open Scope string_scope.
Open Scope list_scope.
Open Scope Z_scope.

(** ** What the world answers *)

Record Env : Type := mkEnv {
  e_clk : Clock;
  e_rng : nat;
  e_rng' : nat;
  e_uuid : nat -> string;
  e_uuid_simple : nat -> string
}.
(** [e_uuid k] is the [k]-th identifier drawn in the step. *)

(** [relay.open_session] and [relay.send_cluster]. *)
Inductive RelayOutcome : Type :=
| OpenFailed (e : string)
| SendFailed (e : string)
| HandedOff.
(** [SessionEvent], with the two ways [timeout(deadline, rx.recv())] ends
    otherwise. *)
Inductive SessionEvent : Type :=
| Chunk (c : Json)
| Complete (tokens_out : option Z)
| SessionError (message : string) (code : option string)
| Disconnect (reason : string)
| ChannelClosed
| TimedOut.
Inductive Input : Type :=
| Tick
| Relay (o : RelayOutcome)
| Received (e : SessionEvent)
| ClientGone.

(** What a stream yields. *)
Inductive SseEvent : Type :=
| Data (j : Json)
| ErrorEvent (e : GatewayError)
| DoneEvent.

(** ** State *)

(** The variables of the loop of [pick_and_dispatch_inner]. *)
Record Dispatch : Type := mkDispatch {
  dx_excluded : list string;
  dx_last_error : option string;
  dx_heavy_refused : bool;
  dx_grace_failures : Z;
  dx_cold_start_grace : bool
}.
(** The variables of one turn of the loop of [run_streaming] or [run_buffered]
    after the hand-off. *)
Record Attempt : Type := mkAttempt {
  at_node : string;
  at_heavy : bool;
  at_cold_start_grace : bool;
  at_beside_heavy : bool;
  at_sole_supplier : bool;
  at_got_first : bool
}.

Record BufferedToolCall : Type := mkBufferedToolCall {
  tc_id : option string;
  tc_kind : option string;
  tc_name : option string;
  tc_arguments : string
}.
Definition empty_call : BufferedToolCall := mkBufferedToolCall None None None "".
(** A [BTreeMap] by index: an association list in the order of the indices. *)
Definition BufferedToolCalls : Type := list (Z * BufferedToolCall).

(** The variables that live across attempts. *)
Record Progress : Type := mkProgress {
  pg_excluded : list string;
  pg_tried : Z;
  pg_tokens_out : Z;
  pg_usage : option Json;
  pg_request_id : option string;
  pg_out : list SseEvent;
  pg_text : string;
  pg_last_chunk : option (list (string * Json));
  pg_tool_calls : BufferedToolCalls;
  pg_finish_reason : string
}.
Definition no_progress : Progress := mkProgress [] 0 0 None None [] "" None [] "stop".

Inductive Outcome : Type :=
| Streamed
| Replied (reply : Json)
| Failed (e : GatewayError)
| Dropped.
Inductive Phase : Type :=
| Starting
| Selecting (cold : bool) (dx : Dispatch)
| Admitting (cold : bool) (dx : Dispatch) (node : string)
| Opening (cold : bool) (dx : Dispatch) (node : string)
| Pausing (cold : bool) (dx : Dispatch) (node : string)
| Receiving (a : Attempt)
| Closing (a : Attempt) (ev : SessionEvent)
| Settling (node : string) (reported : option Z)
| Finished (o : Outcome).

Record Request : Type := mkRequest {
  q_prepared : PreparedChatRequest;
  q_progress : Progress;
  q_phase : Phase
}.
Record Shared : Type := mkShared {
  sh_reg : Registry;
  sh_db : option PinDb
}.

Definition set_phase (ph : Phase) (q : Request) : Request := mkRequest (q_prepared q) (q_progress q) ph.
Definition set_progress (pg : Progress) (q : Request) : Request := mkRequest (q_prepared q) pg (q_phase q).
Definition with_reg (r : Registry) (s : Shared) : Shared := mkShared r (sh_db s).
Definition q_model (q : Request) : CatalogModel := pr_catalog_model (q_prepared q).
Definition q_model_id (q : Request) : string := cm_id (q_model q).

(** [excluded.push(node)], [tried += 1] and [yield]. *)
Definition exclude (node : string) (pg : Progress) : Progress :=
  mkProgress (pg_excluded pg ++ [node]) (pg_tried pg) (pg_tokens_out pg) (pg_usage pg) (pg_request_id pg) (pg_out pg)
    (pg_text pg) (pg_last_chunk pg) (pg_tool_calls pg) (pg_finish_reason pg).
Definition try_again (pg : Progress) : Progress :=
  mkProgress (pg_excluded pg) (pg_tried pg + 1) (pg_tokens_out pg) (pg_usage pg) (pg_request_id pg) (pg_out pg)
    (pg_text pg) (pg_last_chunk pg) (pg_tool_calls pg) (pg_finish_reason pg).
Definition emit (l : list SseEvent) (pg : Progress) : Progress :=
  mkProgress (pg_excluded pg) (pg_tried pg) (pg_tokens_out pg) (pg_usage pg) (pg_request_id pg) (pg_out pg ++ l)
    (pg_text pg) (pg_last_chunk pg) (pg_tool_calls pg) (pg_finish_reason pg).

(** The ledger is one part of the database. *)
Definition set_p_db (x : Db) (db : PinDb) : PinDb :=
  mkPinDb x (pins db) (pin_roles db) (pin_members db) (pin_model_policy db) (pin_usage db) (pin_usage_batches db).

(** ** Chunks *)

Definition first_choice (chunk : Json) : option Json := get "choices" chunk ≫= nth 0.
(** [v.get(k1).and_then(|v| v.get(k2)) ...]. *)
Fixpoint get_path (keys : list string) (j : Json) : option Json :=
  match keys with [] => Some j | k :: rest => get k j ≫= get_path rest end.
Definition extract_delta_content (chunk : Json) : option string :=
  (first_choice chunk ≫= get_path ["delta"; "content"]) ≫= as_string.
Definition extract_finish_reason (chunk : Json) : option string :=
  (first_choice chunk ≫= get "finish_reason") ≫= as_string.

(** [calls.entry(index).or_default()], then the update. *)
Fixpoint update_call (index : Z) (f : BufferedToolCall -> BufferedToolCall) (calls : BufferedToolCalls)
    : BufferedToolCalls :=
  match calls with
  | [] => [(index, f empty_call)]
  | (i, c) :: rest =>
      if index =? i then (i, f c) :: rest
      else if index <? i then (index, f empty_call) :: calls
      else (i, c) :: update_call index f rest
  end.
Definition or_keep {A} (o old : option A) : option A := match o with Some _ => o | None => old end.
Definition merge_call (call : Json) (st : BufferedToolCall) : BufferedToolCall :=
  let function := get "function" call in
  mkBufferedToolCall (or_keep (get "id" call ≫= as_string) (tc_id st))
    (or_keep (get "type" call ≫= as_string) (tc_kind st))
    (or_keep ((function ≫= get "name") ≫= as_string) (tc_name st))
    (tc_arguments st ++ default "" ((function ≫= get "arguments") ≫= as_string))%string.
Definition merge_chunk (chunk : Json) (calls : BufferedToolCalls) : BufferedToolCalls :=
  match (first_choice chunk ≫= get_path ["delta"; "tool_calls"]) ≫= as_list with
  | Some tool_calls =>
      foldl (fun calls '(fallback_index, call) =>
        let index := default (Z.of_nat fallback_index) (get "index" call ≫= as_u64) in
        update_call index (merge_call call) calls) calls (imap pair tool_calls)
  | None => calls
  end.
Definition materialize (env : Env) (calls : BufferedToolCalls) : list Json :=
  imap (fun k '(_, c) =>
     JObject [("id", JString (default ("call_" ++ e_uuid_simple env k)%string (tc_id c)));
              ("type", JString (default "function" (tc_kind c)));
              ("function", JObject [("name", JString (default "" (tc_name c)));
                                    ("arguments", JString (tc_arguments c))])]) calls.

(** A usage object that is there and not [null]. *)
Definition usage_in (chunk : Json) : option Json :=
  match get "usage" chunk with Some JNull => None | u => u end.

(** The body of [SessionEvent::Chunk] in [run_streaming]. *)
Definition stream_chunk (model_id : string) (chunk : Json) (pg : Progress) : Progress :=
  let chunk := set_key "model" (JString model_id) chunk in
  mkProgress (pg_excluded pg) (pg_tried pg) (pg_tokens_out pg + 1) (or_keep (usage_in chunk) (pg_usage pg))
    (or_keep (pg_request_id pg) (get "id" chunk ≫= as_string)) (pg_out pg ++ [Data chunk])
    (pg_text pg) (pg_last_chunk pg) (pg_tool_calls pg) (pg_finish_reason pg).
(** The body of [SessionEvent::Chunk] in [run_buffered]. *)
Definition buffer_chunk (chunk : Json) (pg : Progress) : Progress :=
  mkProgress (pg_excluded pg) (pg_tried pg) (pg_tokens_out pg + 1) (or_keep (usage_in chunk) (pg_usage pg))
    (pg_request_id pg) (pg_out pg) (pg_text pg ++ default "" (extract_delta_content chunk))%string
    (match chunk with JObject o => Some o | _ => pg_last_chunk pg end) (merge_chunk chunk (pg_tool_calls pg))
    (default (pg_finish_reason pg) (extract_finish_reason chunk)).

Definition build_non_stream_response (env : Env) (model_id : string) (pg : Progress) : Json :=
  let last key := pg_last_chunk pg ≫= field key in
  let id := default ("chatcmpl-" ++ e_uuid env 1)%string (last "id" ≫= as_string) in
  let created := default (unix_secs (e_clk env)) (last "created" ≫= as_u64) in
  let calls := materialize env (pg_tool_calls pg) in
  let message := [("role", JString "assistant"); ("content", JString (pg_text pg))] ++
                 match calls with [] => [] | _ => [("tool_calls", JArray calls)] end in
  JObject [("id", JString id); ("object", JString "chat.completion"); ("created", JNumber created);
           ("model", JString model_id);
           ("choices", JArray [JObject [("index", JNumber 0); ("message", JObject message);
                                        ("finish_reason", JString (pg_finish_reason pg))]]);
           ("usage", JObject [("prompt_tokens", JNumber 0); ("completion_tokens", JNumber (pg_tokens_out pg));
                              ("total_tokens", JNumber (pg_tokens_out pg))])].

(** The last chunk of a stream, with the usage. *)
Definition final_chunk (env : Env) (model_id : string) (pg : Progress) : Json :=
  let usage := default (JObject [("prompt_tokens", JNumber 0); ("completion_tokens", JNumber (pg_tokens_out pg));
                                 ("total_tokens", JNumber (pg_tokens_out pg))]) (pg_usage pg) in
  JObject [("id", JString (default ("chatcmpl-" ++ e_uuid env 0)%string (pg_request_id pg)));
           ("object", JString "chat.completion.chunk"); ("created", JNumber (unix_secs (e_clk env)));
           ("model", JString model_id); ("choices", JArray []); ("usage", usage)].

Section Chat.
Context `{Crates} `{WireCrates} (powf : f64 -> f64 -> f64) (cfg : ChatConfig).

(** ** Choosing a device *)

(** A preference: the devices that satisfy it, or all when none does. *)
Definition prefer (P : DeviceState -> bool) (l : list DeviceState) : list DeviceState :=
  match List.filter P l with [] => l | free => free end.

Definition supply_pool (clk : Clock) (p : PreparedChatRequest) (r : Registry) : list DeviceState :=
  let id := cm_id (pr_catalog_model p) in
  if pr_apmhelp_lane p then prefer employee (eligible_supply clk id true r) else eligible_devices clk id r.

Definition below_claim (claim : Z) (d : DeviceState) : bool :=
  match effective_context (capabilities d) with Some ctx => ctx <? claim | None => false end.
Definition max_ceiling (claim : Z) (l : list DeviceState) : Z :=
  foldl Z.max 0 (omap (fun d => effective_context (capabilities d)) (List.filter (below_claim claim) l)).

Definition slot_is_free (d : DeviceState) : bool :=
  match backend_slots_busy (capabilities d), backend_slots_total (capabilities d) with
  | Some busy, Some tot => busy <? tot
  | _, _ => true
  end.
Definition narrow (r : Registry) (sticky : option string) (l : list DeviceState) : list DeviceState :=
  let l := if heavy_hold (reliability r) then prefer (fun d => heavy_in_flight (node_id d) r =? 0) l else l in
  let l := prefer slot_is_free l in
  match sticky with
  | Some n => prefer (fun d => bool_decide (node_id d = n)) l
  | None => l
  end.

(** Why no device was left. *)
Definition exhausted (clk : Clock) (p : PreparedChatRequest) (dx : Dispatch) (candidates : list DeviceState)
    (min_context : option Z) (r : Registry) : GatewayError :=
  let id := cm_id (pr_catalog_model p) in
  match dx_last_error dx with
  | Some message => AllUpstreamsFailed message
  | None =>
      if dx_heavy_refused dx then HeavyContention id
      else if saturation_429 (reliability r) &&
              saturated powf clk (cc_scheduler cfg) candidates id (dx_excluded dx) r min_context
           then AtCapacity id
      else NoEligibleDevice id
  end.

Definition convo_key (p : PreparedChatRequest) : option string :=
  convo_stickiness_key (cm_id (pr_catalog_model p)) (pr_req_body p).
(** [state.registry.convo_node(key)], which drops an old entry. *)
Definition sticky_node (clk : Clock) (p : PreparedChatRequest) (dx : Dispatch) (r : Registry)
    : option string * Registry :=
  match convo_key p with
  | Some key =>
      let '(o, r) := convo_node clk key r in
      (o ≫= (fun n => if existsb (fun e => bool_decide (e = n)) (dx_excluded dx) then None else Some n), r)
  | None => (None, r)
  end.

(** One turn of the loop up to the choice of the node. *)
Definition select (env : Env) (p : PreparedChatRequest) (dx : Dispatch) (r : Registry)
    : result GatewayError string * Registry :=
  let clk := e_clk env in
  let id := cm_id (pr_catalog_model p) in
  let min_context := Some (pr_required_ctx p) in
  let pool := supply_pool clk p r in
  let claim := pr_required_ctx p in
  let fits := List.filter (fun d => negb (below_claim claim d)) pool in
  if bool_decide (fits = []) && existsb (below_claim claim) pool
  then (Err (PromptExceedsContext id claim (max_ceiling claim pool)), r)
  else
    let preferred := match pr_preferred_node_ids p with
                     | [] => []
                     | ids => List.filter (fun d => existsb (fun n => bool_decide (n = node_id d)) ids) fits
                     end in
    let '(sticky, r') := sticky_node clk p dx r in
    let candidates := narrow r sticky fits in
    let preferred := narrow r sticky preferred in
    let picked :=
      match pick powf clk (cc_scheduler cfg) preferred id (dx_excluded dx) r min_context (e_rng env) with
      | Some d => Some d
      | None => pick powf clk (cc_scheduler cfg) candidates id (dx_excluded dx) r min_context (e_rng' env)
      end in
    match picked with
    | Some d => (Ok (node_id d), r')
    | None => (Err (exhausted clk p dx candidates min_context r), r')
    end.

(** ** Admission and the relay *)

Definition outbound (p : PreparedChatRequest) : option ChatCompletionRequest := request_of (pr_req_body p).
Definition request_heavy (p : PreparedChatRequest) (rel : ReliabilityConfig) : bool :=
  match outbound p with
  | Some req => is_heavy_request (estimate_prompt_tokens req) (cr_max_tokens req) rel
  | None => false
  end.
Definition owner_key (p : PreparedChatRequest) : option string :=
  match pr_consumer p with Some c => Some (ledger_actor_id c) | None => convo_key p end.
Definition max_dispatch_grace_retries (rel : ReliabilityConfig) : Z := Z.max (request_timeout_seconds rel / 5) 1.

(** The drop of [InFlightGuard] and of [SessionCleanup]. *)
Definition release (clk : Clock) (node model : string) (hv : bool) (r : Registry) : Registry :=
  (dec_in_flight clk node hv (release_model_in_flight node model r)).2.

Definition refused (node : string) (dx : Dispatch) : Dispatch :=
  mkDispatch (dx_excluded dx ++ [node]) (dx_last_error dx) true (dx_grace_failures dx) (dx_cold_start_grace dx).
Definition gave_up_on (node message : string) (dx : Dispatch) : Dispatch :=
  mkDispatch (dx_excluded dx ++ [node]) (Some message) (dx_heavy_refused dx) (dx_grace_failures dx)
    (dx_cold_start_grace dx).
Definition graced (message : string) (dx : Dispatch) : Dispatch :=
  mkDispatch (dx_excluded dx) (Some message) (dx_heavy_refused dx) (dx_grace_failures dx + 1) (dx_cold_start_grace dx).

(** The first failure of the attempt: the cold-start grace keeps the guard for
    the length of a pause, otherwise the node is quarantined and left out. *)
Definition relay_failed (clk : Clock) (cold : bool) (dx : Dispatch) (node message : string) (q : Request) (r : Registry)
    : Phase * Registry :=
  let hv := request_heavy (q_prepared q) (reliability r) in
  if dx_cold_start_grace dx && (dx_grace_failures dx <? max_dispatch_grace_retries (reliability r))
  then (Pausing cold (graced message dx) node, r)
  else
    let r' := quarantine clk node (quarantine_seconds (reliability r)) r in
    (Selecting cold (gave_up_on node message dx), release clk node (q_model_id q) hv r').

(** ** The end of an attempt *)

(** The node is only quarantined when it had no other work. *)
Definition quarantine_if (b : bool) (clk : Clock) (node : string) (r : Registry) : Registry :=
  if b && (in_flight node r =? 0) then quarantine clk node (quarantine_seconds (reliability r)) r else r.

(** How a session ended without completing: the message, whether the node
    reported a full queue, whether the request itself is at fault. *)
Record Failure : Type := mkFailure {
  f_message : string;
  f_queue_full : bool;
  f_client_error : bool
}.
Definition failure_of (got_first : bool) (ev : SessionEvent) : Failure :=
  match ev with
  | SessionError m code => mkFailure m (bool_decide (code = Some "queuefull")) (is_backend_client_error m)
  | Disconnect reason => mkFailure reason false false
  | TimedOut => mkFailure (if got_first then "timeout mid-stream" else "ttft timeout") false false
  | _ => mkFailure "channel closed" false false
  end.
(** The error a stream reports. *)
Definition stream_error (ev : SessionEvent) : GatewayError :=
  match ev with
  | SessionError m _ => if is_backend_client_error m then BadRequest m else Upstream m
  | Disconnect reason => Upstream reason
  | TimedOut => UpstreamTimeout
  | _ => Upstream "channel closed before completion"
  end.
Definition is_retriable (a : Attempt) (f : Failure) (pg : Progress) (r : Registry) : bool :=
  negb (f_client_error f) && negb (at_got_first a) && (pg_tried pg <=? max_retries (reliability r)).

(** [run_streaming] after the inner loop: the session is closed and the node
    may be quarantined.  An error is yielded before that, with the session
    still open. *)
Definition stream_close (env : Env) (a : Attempt) (f : Failure) (q : Request) (r : Registry) : Registry :=
  let clk := e_clk env in
  quarantine_if (negb (at_got_first a) && negb (at_cold_start_grace a) && negb (f_queue_full f) &&
                 negb (f_client_error f) && negb (at_beside_heavy a) && negb (at_sole_supplier a))
    clk (at_node a) (release clk (at_node a) (q_model_id q) (at_heavy a) r).
Definition stream_failed (env : Env) (a : Attempt) (ev : SessionEvent) (q : Request) (r : Registry) : Request * Registry :=
  let clk := e_clk env in
  let f := failure_of (at_got_first a) ev in
  let r2 := stream_close env a f q r in
  if negb (is_retriable a f (q_progress q) r) then
    (set_phase (Closing a ev) (set_progress (emit [ErrorEvent (stream_error ev)] (q_progress q)) q), r)
  else if at_cold_start_grace a then (set_phase Starting q, r2)
  else
    let r3 := if at_beside_heavy a then r2 else quarantine clk (at_node a) (quarantine_seconds (reliability r2)) r2 in
    (set_phase Starting (set_progress (exclude (at_node a) (q_progress q)) q), r3).

Definition stream_closed (env : Env) (a : Attempt) (ev : SessionEvent) (q : Request) (r : Registry)
    : Request * Registry :=
  (set_phase (Finished Streamed) (set_progress (emit [DoneEvent] (q_progress q)) q),
   stream_close env a (failure_of (at_got_first a) ev) q r).

Definition stream_completed (env : Env) (a : Attempt) (reported : option Z) (q : Request) (r : Registry)
    : Request * Registry :=
  let pg := emit [Data (final_chunk env (q_model_id q) (q_progress q)); DoneEvent] (q_progress q) in
  (set_phase (Settling (at_node a) reported) (set_progress pg q),
   release (e_clk env) (at_node a) (q_model_id q) (at_heavy a) r).

Definition buffer_failed (env : Env) (a : Attempt) (ev : SessionEvent) (q : Request) (r : Registry) : Request * Registry :=
  let clk := e_clk env in
  let f := failure_of (at_got_first a) ev in
  let retriable := is_retriable a f (q_progress q) r in
  let r1 := release clk (at_node a) (q_model_id q) (at_heavy a) r in
  let single_supplier := single_supplier_large_cold_start_grace clk r1 (q_model q) ||
                         Nat.leb (length (eligible_devices clk (q_model_id q) r1)) 1 in
  let warmup_retry := negb (at_got_first a) && single_supplier && is_transient_warmup_error (f_message f) in
  let r2 := quarantine_if (negb (at_got_first a) && negb warmup_retry && negb (at_cold_start_grace a) &&
                           negb (f_queue_full f) && negb (f_client_error f) && negb (at_beside_heavy a) &&
                           negb (at_sole_supplier a))
              clk (at_node a) r1 in
  if retriable then
    if warmup_retry || at_cold_start_grace a then (set_phase Starting q, r2)
    else
      let r3 := if negb (f_queue_full f) && negb (at_beside_heavy a)
                then quarantine clk (at_node a) (quarantine_seconds (reliability r2)) r2 else r2 in
      (set_phase Starting (set_progress (exclude (at_node a) (q_progress q)) q), r3)
  else
    let e := if f_client_error f then BadRequest (f_message f) else AllUpstreamsFailed (f_message f) in
    (set_phase (Finished (Failed e)) q, r2).

(** ** Settlement *)

Definition reported_prompt_tokens (pg : Progress) : Z :=
  default 0 ((pg_usage pg ≫= get "prompt_tokens") ≫= as_u64).
Definition request_cost (q : Request) (tokens_out : Z) : Z :=
  cost_credits (reported_prompt_tokens (q_progress q)) (Z.max tokens_out 1) (prompt_price_usd (q_model q))
    (completion_price_usd (q_model q)).
(** An error of [settle_request] is logged. *)
Definition settle (env : Env) (q : Request) (node : string) (tokens_out : Z) (s : Shared) : Shared :=
  match pr_consumer (q_prepared q), sh_db s with
  | Some consumer, Some db =>
      match settle_request (unix_secs (e_clk env)) consumer (Some node) (node_id <$> snapshot_devices (sh_reg s))
              (request_cost q tokens_out) (e_uuid env 0) (q_model_id q) (p_db db) with
      | Ok ledger => mkShared (sh_reg s) (Some (set_p_db ledger db))
      | Err _ => s
      end
  | _, _ => s
  end.

(** ** Steps *)

(** A dispatch error ends the request. *)
Definition dispatch_error (e : GatewayError) (q : Request) : Request :=
  if pr_streaming (q_prepared q)
  then set_phase (Finished Streamed) (set_progress (emit [ErrorEvent e; DoneEvent] (q_progress q)) q)
  else set_phase (Finished (Failed e)) q.

Definition start_attempt (env : Env) (q : Request) (r : Registry) : Request :=
  let pg := try_again (q_progress q) in
  let q := set_progress pg q in
  match outbound (q_prepared q) with
  | None => dispatch_error (BadRequest "invalid request body") q
  | Some _ =>
      let cold := single_supplier_large_cold_start_grace (e_clk env) r (q_model q) in
      set_phase (Selecting cold (mkDispatch (pg_excluded pg) None false 0 cold)) q
  end.

Definition admit_step (env : Env) (cold : bool) (dx : Dispatch) (node : string) (q : Request) (r : Registry)
    : Request * Registry :=
  let '(ok, r') := admit_request (e_clk env) node (request_heavy (q_prepared q) (reliability r)) (owner_key (q_prepared q)) r in
  if ok then (set_phase (Opening cold dx node) q, note_model_in_flight node (q_model_id q) r')
  else (set_phase (Selecting cold (refused node dx)) q, r').

Definition opened (env : Env) (cold : bool) (node : string) (q : Request) (r : Registry) : Request * Registry :=
  let hv := request_heavy (q_prepared q) (reliability r) in
  let r' := match convo_key (q_prepared q) with Some key => note_convo (e_clk env) key node r | None => r end in
  let beside_heavy := negb hv && (0 <? heavy_in_flight node r') in
  let sole_supplier := Nat.leb (length (eligible_devices (e_clk env) (q_model_id q) r')) 1 in
  (set_phase (Receiving (mkAttempt node hv cold beside_heavy sole_supplier false)) q, r').

Definition got_chunk (c : Json) (a : Attempt) (q : Request) : Request :=
  let pg := if pr_streaming (q_prepared q) then stream_chunk (q_model_id q) c (q_progress q)
            else buffer_chunk c (q_progress q) in
  set_phase (Receiving (mkAttempt (at_node a) (at_heavy a) (at_cold_start_grace a) (at_beside_heavy a)
                          (at_sole_supplier a) true)) (set_progress pg q).

Definition session_step (env : Env) (ev : SessionEvent) (a : Attempt) (q : Request) (s : Shared) : Request * Shared :=
  let r := sh_reg s in
  match ev with
  | Chunk c => (got_chunk c a q, s)
  | Complete reported =>
      if pr_streaming (q_prepared q) then
        let '(q', r') := stream_completed env a reported q r in (q', with_reg r' s)
      else
        let s' := with_reg (release (e_clk env) (at_node a) (q_model_id q) (at_heavy a) r) s in
        (set_phase (Finished (Replied (build_non_stream_response env (q_model_id q) (q_progress q)))) q,
         settle env q (at_node a) (pg_tokens_out (q_progress q)) s')
  | _ =>
      let '(q', r') := (if pr_streaming (q_prepared q) then stream_failed env a ev q r
                        else buffer_failed env a ev q r) in
      (q', with_reg r' s)
  end.

(** The future or the stream is dropped: the guards release what is held. *)
Definition client_gone (env : Env) (q : Request) (r : Registry) : Request * Registry :=
  let hv := request_heavy (q_prepared q) (reliability r) in
  (set_phase (Finished Dropped) q,
   match q_phase q with
   | Opening _ _ node | Pausing _ _ node => release (e_clk env) node (q_model_id q) hv r
   | Receiving a | Closing a _ => release (e_clk env) (at_node a) (q_model_id q) (at_heavy a) r
   | _ => r
   end).

(** [None] when the input is not one the request waits for. *)
Definition request_step (env : Env) (i : Input) (q : Request) (s : Shared) : option (Request * Shared) :=
  let r := sh_reg s in
  match q_phase q, i with
  | Finished _, _ => None
  | _, ClientGone => let '(q', r') := client_gone env q r in Some (q', with_reg r' s)
  | Starting, Tick => Some (start_attempt env q r, s)
  | Selecting cold dx, Tick =>
      let '(res, r') := select env (q_prepared q) dx r in
      Some (match res with
            | Ok node => set_phase (Admitting cold dx node) q
            | Err e => dispatch_error e q
            end, with_reg r' s)
  | Admitting cold dx node, Tick => let '(q', r') := admit_step env cold dx node q r in Some (q', with_reg r' s)
  | Opening cold dx node, Relay o =>
      match o with
      | HandedOff => let '(q', r') := opened env cold node q r in Some (q', with_reg r' s)
      | OpenFailed e =>
          let '(ph, r') := relay_failed (e_clk env) cold dx node ("relay open: " ++ e)%string q r in
          Some (set_phase ph q, with_reg r' s)
      | SendFailed e =>
          let '(ph, r') := relay_failed (e_clk env) cold dx node ("relay send: " ++ e)%string q r in
          Some (set_phase ph q, with_reg r' s)
      end
  | Pausing cold dx node, Tick =>
      Some (set_phase (Selecting cold dx) q,
            with_reg (release (e_clk env) node (q_model_id q) (request_heavy (q_prepared q) (reliability r)) r) s)
  | Receiving a, Received ev => Some (session_step env ev a q s)
  | Closing a ev, Tick => let '(q', r') := stream_closed env a ev q r in Some (q', with_reg r' s)
  | Settling node reported, Tick =>
      let tokens := default (pg_tokens_out (q_progress q)) reported in
      Some (set_phase (Finished Streamed) q, settle env q node tokens s)
  | _, _ => None
  end.

Definition new_request (p : PreparedChatRequest) : Request := mkRequest p no_progress Starting.

(** ** The cascade of a virtual model

    [attempt] is what [run_streaming] or [run_buffered] answered for the prepared
    request; [None] is running out of [fuel]. *)
Fixpoint cascade (fuel : nat) (prepare : list string -> result GatewayError PreparedChatRequest)
    (attempt : PreparedChatRequest -> result GatewayError Json) (excluded : list string)
    : option (result GatewayError (Json * bool)) :=
  match fuel with
  | O => None
  | S fuel =>
      match prepare excluded with
      | Err e => Some (Err e)
      | Ok p =>
          match attempt p with
          | Ok reply => Some (Ok (reply, pr_tools_lane_fallback p))
          | Err e =>
              if should_cascade e (pr_was_virtual_resolution p) excluded
              then cascade fuel prepare attempt (excluded ++ [cm_id (pr_catalog_model p)])
              else Some (Err e)
          end
      end
  end.
End Chat.
