(* ===== verification/ChatFixtures.v ===== *)
(** * Concrete chat requests

    A catalog with one model, a registry with one device that has it loaded, a
    request, and a runner for sequences of steps.  Used by the witnesses. *)

From S2P Require Import Prelude Db RustStr Merkle Fixtures F64 Wallet Settlement Accounts ApiKeys Registry RegistryFacts Scheduler SchedulerFacts.
From S2P Require Import Pins Auth PinWire PinWireFacts Catalog ChatPrepare Chat.

Open Scope string_scope.
Open Scope list_scope.
Open Scope Z_scope.

Definition toy_env (t : Z) : Env := mkEnv (at_secs t) 0 0 (fun _ => "11112222") (fun _ => "33334444").
Definition toy_model : CatalogModel :=
  mkCatalogModel "hermes-3-8b" "Hermes 3 8B" "nous" 32768 8192 (f64_of_Z 8) "0.0000005" "0.000001" None [] None [] false
    [] None None.
Definition toy_chat_config : ChatConfig := mkChatConfig (mkSchedulerConfig 8 (f64_dec 3 1) f64_one (mkPerModelFloor 1 1)) [toy_model] "" 0.
Definition toy_body (max_tokens : Z) (stream : bool) : Json :=
  JObject [("model", JString "hermes-3-8b");
           ("messages", JArray [JObject [("role", JString "user"); ("content", JString "hello")]]);
           ("max_tokens", JNumber max_tokens); ("stream", JBool stream)].
Definition toy_prepared (max_tokens : Z) (stream : bool) : PreparedChatRequest :=
  mkPrepared toy_model (toy_body max_tokens stream) (Some (Device "alice")) (max_tokens + 1) 1 [] stream false false false.
Definition toy_one_device : Registry :=
  upsert_device_with_tier (at_secs 1) "node" "Studio" (toy_caps 2) false false (new toy_reliability).
Definition toy_chunk (text : string) : Json :=
  JObject [("id", JString "cmpl-1");
           ("choices", JArray [JObject [("delta", JObject [("content", JString text)])]])].

(** The steps of one request, each with the clock of its turn. *)
Fixpoint run_request (t : Z) (inputs : list Input) (q : Request) (s : Shared) : option (Request * Shared) :=
  match inputs with
  | [] => Some (q, s)
  | i :: inputs =>
      match @request_step toy_crates toy_wire toy_powf toy_chat_config (toy_env t) i q s with
      | Some (q, s) => run_request (t + 1) inputs q s
      | None => None
      end
  end.

Definition dispatched : list Input := [Tick; Tick; Tick; Relay HandedOff].
