(* ===== verification/Gateway.v ===== *)
(** * The gateway: many chat requests over one registry

    The requests of [Chat] interleave at their await points with one another,
    with arrivals and with the maintenance of the registry.  The machine
    refines the registry with its open sessions ([RegistryFacts]): what the
    requests hold is what the registry counts. *)

From S2P Require Import Prelude Db RustStr Merkle F64 Registry RegistryFacts Scheduler.
From S2P Require Import Pins Auth PinWire Catalog ChatPrepare Chat.
From S2P Require Import Fixtures SchedulerFacts PinWireFacts ChatFixtures.

Open Scope string_scope.
Open Scope list_scope.
Open Scope Z_scope.

Record Gateway : Type := mkGateway {
  g_shared : Shared;
  g_requests : list Request
}.

(** Registry operations that are not admissions or ends of sessions. *)
Definition maintenance (op : RegOp) : bool :=
  match op with OpAdmit _ _ _ | OpClose _ => false | _ => true end.
Definition maintain `{Crates} (clk : Clock) (op : RegOp) (r : Registry) : Registry :=
  reg (apply_reg_op clk op (mkRegSystem r [])).

Section Gateway.
Context `{Crates} `{WireCrates} (powf : f64 -> f64 -> f64) (cfg : ChatConfig) (rel : ReliabilityConfig).

(** The admission does not find a hold that outlived its time to live. *)
Definition no_expiry (env : Env) (q : Request) (r : Registry) : bool :=
  match q_phase q with
  | Admitting _ _ n => negb (expires (e_clk env) n (request_heavy (q_prepared q) (reliability r)) r)
  | _ => true
  end.

Inductive gw_step : Gateway -> Gateway -> Prop :=
| gw_request g i env inp q q' s' :
    g_requests g !! i = Some q -> no_expiry env q (sh_reg (g_shared g)) = true ->
    request_step powf cfg env inp q (g_shared g) = Some (q', s') ->
    gw_step g (mkGateway s' (<[i := q']> (g_requests g)))
| gw_arrive g p : gw_step g (mkGateway (g_shared g) (g_requests g ++ [new_request p]))
| gw_maintain g clk op :
    maintenance op = true -> op_typed op ->
    gw_step g (mkGateway (with_reg (maintain clk op (sh_reg (g_shared g))) (g_shared g)) (g_requests g))
| gw_database g db : gw_step g (mkGateway (mkShared (sh_reg (g_shared g)) db) (g_requests g)).
Inductive gw_reachable : Gateway -> Prop :=
| gw_start db : gw_reachable (mkGateway (mkShared (new rel) db) [])
| gw_next g g' : gw_reachable g -> gw_step g g' -> gw_reachable g'.

(** What a request holds on a device. *)
Definition held (q : Request) : option Session :=
  match q_phase q with
  | Opening _ _ n | Pausing _ _ n =>
      Some (mkSession n (request_heavy (q_prepared q) rel) (owner_key (q_prepared q)))
  | Receiving a | Closing a _ => Some (mkSession (at_node a) (at_heavy a) (owner_key (q_prepared q)))
  | _ => None
  end.
Definition holds (g : Gateway) : list Session := omap held (g_requests g).

(** ** What a step of a request does to the registry *)

Inductive quiet : Registry -> Registry -> Prop :=
| quiet_refl r : quiet r r
| quiet_step r r' clk op : quiet r r' -> maintenance op = true -> op_typed op -> quiet r (maintain clk op r').

Lemma quiet_one clk op r : maintenance op = true -> op_typed op -> quiet r (maintain clk op r).
Proof. intros. by constructor; [constructor|..]. Qed.
Lemma quiet_trans r1 r2 r3 : quiet r1 r2 -> quiet r2 r3 -> quiet r1 r3.
Proof. intros H12 H23. induction H23; [done|]. by constructor; auto. Qed.

Lemma quiet_quarantine clk n secs r : quiet r (quarantine clk n secs r).
Proof. by apply (quiet_one clk (OpQuarantine n secs)). Qed.
Lemma quiet_quarantine_if b clk n r : quiet r (quarantine_if b clk n r).
Proof. unfold quarantine_if. destruct (_ && _); [apply quiet_quarantine|constructor]. Qed.
Lemma quiet_convo clk key r : quiet r (convo_node clk key r).2.
Proof. by apply (quiet_one clk (OpConvoNode key)). Qed.
Lemma quiet_note_convo clk key n r : quiet r (note_convo clk key n r).
Proof. by apply (quiet_one clk (OpNoteConvo key n)). Qed.
Lemma quiet_note_model n m r : quiet r (note_model_in_flight n m r).
Proof. by apply (quiet_one (mkClock 0 0) (OpNoteModel n m)). Qed.
Lemma quiet_release_model n m r : quiet r (release_model_in_flight n m r).
Proof. by apply (quiet_one (mkClock 0 0) (OpReleaseModel n m)). Qed.

(** A session ends between maintenance. *)
Definition closes (x : Session) (r r' : Registry) : Prop :=
  exists clk r1, quiet r r1 /\ quiet (dec_in_flight clk (s_node x) (s_heavy x) r1).2 r'.

(** What the step makes of the hold of the request. *)
Inductive hold_step (env : Env) (q : Request) (r : Registry) : option Session -> option Session -> Registry -> Prop :=
| hold_keep h r' : quiet r r' -> hold_step env q r h h r'
| hold_refused n :
    let x := mkSession n (request_heavy (q_prepared q) (reliability r)) (owner_key (q_prepared q)) in
    (admit_request (e_clk env) n (s_heavy x) (s_owner x) r).1 = false ->
    expires (e_clk env) n (s_heavy x) r = false ->
    hold_step env q r None None (admit_request (e_clk env) n (s_heavy x) (s_owner x) r).2
| hold_taken n r' :
    let x := mkSession n (request_heavy (q_prepared q) (reliability r)) (owner_key (q_prepared q)) in
    (admit_request (e_clk env) n (s_heavy x) (s_owner x) r).1 = true ->
    expires (e_clk env) n (s_heavy x) r = false ->
    quiet (admit_request (e_clk env) n (s_heavy x) (s_owner x) r).2 r' ->
    hold_step env q r None (Some x) r'
| hold_closed x r' : closes x r r' -> hold_step env q r (Some x) None r'.

Lemma release_closes clk n model hv owner r r' :
  quiet (release clk n model hv r) r' -> closes (mkSession n hv owner) r r'.
Proof. exists clk, (release_model_in_flight n model r). split; [apply quiet_release_model|done]. Qed.
Lemma closes_after x r r1 r' : quiet r r1 -> closes x r1 r' -> closes x r r'.
Proof. intros Hq (clk & r2 & H1 & H2). exists clk, r2. split; [by eapply quiet_trans|done]. Qed.

Lemma select_quiet env p dx r : quiet r (select powf cfg env p dx r).2.
Proof.
  unfold select. destruct (_ && _); [apply quiet_refl|]. unfold sticky_node.
  destruct (convo_key p) as [key|].
  - pose proof (quiet_convo (e_clk env) key r) as Hq. destruct (convo_node (e_clk env) key r) as [o r'].
    simpl in *. by destruct (pick _ _ _ _ _ _ _ _ _); [|destruct (pick _ _ _ _ _ _ _ _ _)].
  - simpl. destruct (pick _ _ _ _ _ _ _ _ _); [|destruct (pick _ _ _ _ _ _ _ _ _)]; apply quiet_refl.
Qed.

Definition step_holds (env : Env) (q : Request) (r : Registry) (q' : Request) (r' : Registry) : Prop :=
  hold_step env q r (held q) (held q') r' /\ q_prepared q' = q_prepared q.

Lemma relay_failed_holds env cold dx n message q r :
  reliability r = rel -> q_phase q = Opening cold dx n ->
  let '(ph, r') := relay_failed (e_clk env) cold dx n message q r in step_holds env q r (set_phase ph q) r'.
Proof.
  intros Hr Hph. unfold relay_failed. destruct (_ && _); split; try done; unfold held; rewrite Hph; simpl.
  - apply hold_keep, quiet_refl.
  - rewrite Hr. apply hold_closed. eapply closes_after; [apply quiet_quarantine|].
    eapply release_closes, quiet_refl.
Qed.

Lemma stream_close_closes env a f q r owner :
  closes (mkSession (at_node a) (at_heavy a) owner) r (stream_close env a f q r).
Proof. eapply release_closes, quiet_quarantine_if. Qed.
Lemma closes_then x r r1 r2 : closes x r r1 -> quiet r1 r2 -> closes x r r2.
Proof. intros (clk & r0 & H1 & H2) Hq. exists clk, r0. split; [done|by eapply quiet_trans]. Qed.

Lemma stream_failed_holds env a ev q r :
  q_phase q = Receiving a ->
  let '(q', r') := stream_failed env a ev q r in step_holds env q r q' r'.
Proof.
  intros Hph. unfold stream_failed.
  pose proof (stream_close_closes env a (failure_of (at_got_first a) ev) q r (owner_key (q_prepared q))) as Hc.
  destruct (negb _); [|destruct (at_cold_start_grace a)]; split; try done; unfold held; rewrite Hph; simpl.
  - apply hold_keep, quiet_refl.
  - by apply hold_closed.
  - apply hold_closed. eapply closes_then; [apply Hc|].
    destruct (at_beside_heavy a); [apply quiet_refl|apply quiet_quarantine].
Qed.

Lemma buffer_failed_holds env a ev q r :
  q_phase q = Receiving a ->
  let '(q', r') := buffer_failed env a ev q r in step_holds env q r q' r'.
Proof.
  intros Hph. unfold buffer_failed. cbv zeta.
  set (r1 := release _ _ _ _ r). set (b := negb (at_got_first a) && _ && _).
  set (r2 := quarantine_if _ _ _ r1).
  assert (closes (mkSession (at_node a) (at_heavy a) (owner_key (q_prepared q))) r r2) as Hc
    by (eapply release_closes, quiet_quarantine_if).
  destruct (is_retriable _ _ _ _); [destruct (b || _)|]; split; try done; unfold held; rewrite Hph; simpl;
    apply hold_closed; try done.
  eapply closes_then; [apply Hc|]. clearbody r2.
  destruct (negb (f_queue_full _) && _); [apply quiet_quarantine|apply quiet_refl].
Qed.

Lemma settle_reg env q n tokens s : sh_reg (settle env q n tokens s) = sh_reg s.
Proof.
  unfold settle. destruct (pr_consumer _), (sh_db s); try done. by destruct (Settlement.settle_request _ _ _ _ _ _ _ _).
Qed.

Lemma client_gone_holds env q r :
  reliability r = rel -> let '(q', r') := client_gone env q r in step_holds env q r q' r'.
Proof.
  intros Hr. unfold client_gone. split; [|done]. unfold held. rewrite Hr.
  destruct (q_phase q); simpl; try apply hold_keep, quiet_refl; apply hold_closed; eapply release_closes, quiet_refl.
Qed.

Lemma admit_holds env cold dx n q r :
  reliability r = rel -> no_expiry env q r = true -> q_phase q = Admitting cold dx n ->
  let '(q', r') := admit_step env cold dx n q r in step_holds env q r q' r'.
Proof.
  unfold no_expiry, admit_step. intros Hr Hx Hph. rewrite Hph in Hx. apply negb_true_iff in Hx.
  pose proof (hold_refused env q r n) as Hf. pose proof (fun r' => hold_taken env q r n r') as Ht. cbv zeta in *.
  simpl in *. destruct (admit_request _ _ _ _ _) as [[|] r1]; split; try done; unfold held; rewrite Hph; simpl in *.
  - rewrite <- Hr. apply Ht; [done|done|apply quiet_note_model].
  - by apply Hf.
Qed.

Lemma request_step_holds env inp q s q' s' :
  reliability (sh_reg s) = rel -> no_expiry env q (sh_reg s) = true ->
  request_step powf cfg env inp q s = Some (q', s') -> step_holds env q (sh_reg s) q' (sh_reg s').
Proof.
  intros Hr Hx. unfold request_step. pose proof (client_gone_holds env q (sh_reg s) Hr) as Hg.
  destruct (client_gone env q (sh_reg s)) as [qg rg].
  destruct (q_phase q) as [|cold dx|cold dx n|cold dx n|cold dx n|a|a ev|n rep|o] eqn:Hph;
    destruct inp as [|o'|e|]; try done; try (by intros [= <- <-]).
  - intros [= <- <-]. unfold start_attempt, dispatch_error.
    destruct (outbound _); [|destruct (pr_streaming _)]; split; try done; unfold held; rewrite Hph;
      apply hold_keep, quiet_refl.
  - pose proof (select_quiet env (q_prepared q) dx (sh_reg s)) as Hq.
    destruct (select _ _ _ _ _ _) as [[n|e] r']; intros [= <- <-]; unfold dispatch_error;
      [|destruct (pr_streaming _)]; split; try done; unfold held; rewrite Hph; by apply hold_keep.
  - pose proof (admit_holds env cold dx n q (sh_reg s) Hr Hx Hph) as Ha.
    destruct (admit_step _ _ _ _ _ _). by intros [= <- <-].
  - destruct o' as [e|e|].
    + pose proof (relay_failed_holds env cold dx n ("relay open: " ++ e) q (sh_reg s) Hr Hph) as Ha.
      destruct (relay_failed _ _ _ _ _ _ _). by intros [= <- <-].
    + pose proof (relay_failed_holds env cold dx n ("relay send: " ++ e) q (sh_reg s) Hr Hph) as Ha.
      destruct (relay_failed _ _ _ _ _ _ _). by intros [= <- <-].
    + intros [= <- <-]. split; [|done]. unfold held. rewrite Hph, Hr. simpl. apply hold_keep.
      destruct (convo_key _); [apply quiet_note_convo|apply quiet_refl].
  - intros [= <- <-]. split; [|done]. unfold held. rewrite Hph, Hr. simpl.
    apply hold_closed. eapply release_closes, quiet_refl.
  - pose proof (stream_failed_holds env a e q (sh_reg s) Hph) as Hs.
    pose proof (buffer_failed_holds env a e q (sh_reg s) Hph) as Hb.
    unfold session_step. destruct (stream_failed _ _ _ _ _) as [qs rs], (buffer_failed _ _ _ _ _) as [qb rb].
    destruct e; destruct (pr_streaming (q_prepared q)) eqn:Hst; intros [= <- <-]; try done;
      split; try done; unfold held; rewrite Hph; simpl; try apply hold_keep, quiet_refl;
      rewrite ?settle_reg; apply hold_closed; eapply release_closes, quiet_refl.
  - intros [= <- <-]. split; [|done]. unfold held. rewrite Hph. simpl. apply hold_closed, stream_close_closes.
  - intros [= <- <-]. split; [|done]. unfold held. rewrite Hph, settle_reg. simpl. apply hold_keep, quiet_refl.
Qed.

(** ** The refinement *)

Lemma maintain_system clk op r l :
  maintenance op = true -> apply_reg_op clk op (mkRegSystem r l) = mkRegSystem (maintain clk op r) l.
Proof. by destruct op. Qed.

Lemma maintain_keeps clk op r n :
  maintenance op = true ->
  reliability (maintain clk op r) = reliability r /\ total (flight_of n (maintain clk op r)) = total (flight_of n r).
Proof.
  intros Hm. split.
  - destruct op; try done; unfold maintain; simpl.
    + unfold upsert_device_with_tier, rebuild_model_index_for. simpl. rewrite lookup_insert_eq. by destruct (_ || _).
    + unfold apply_heartbeat, rebuild_model_index_for. destruct (devices r !! n0) eqn:E; [|done].
      simpl. rewrite lookup_alter_eq, E. simpl. by destruct (_ || _).
    + apply removes_reliability.
    + unfold convo_node. destruct (_ =? 0); [done|]. destruct (_ !! key) as [[]|]; [by destruct (convo_fresh _ _ _)|done].
    + unfold note_convo. by destruct (_ =? 0).
  - destruct (calm op) eqn:Hc.
    { unfold maintain. by rewrite (flight_of_ext n r _ (proj2 (calm_flights clk op (mkRegSystem r []) Hc))). }
    destruct op as [| | | | | | | |m model|m model| |]; try done; unfold maintain, apply_reg_op; cbn [reg];
      unfold note_model_in_flight, release_model_in_flight; rewrite flight_of_update;
      (case_decide; [|done]); unfold flight_of; destruct (_ !! n) as [f|]; try done.
    by destruct (models f !! model).
Qed.

Lemma quiet_keeps r r' n :
  quiet r r' -> reliability r' = reliability r /\ total (flight_of n r') = total (flight_of n r).
Proof.
  induction 1 as [|r r' clk op Hq [IH1 IH2] Hm Ht]; [done|].
  destruct (maintain_keeps clk op r' n Hm) as [E1 E2]. by rewrite E1, E2.
Qed.

Definition exact (r : Registry) (l : list Session) : Prop :=
  forall n, total (flight_of n r) = Z.of_nat (length (on_node n l)).
(** The registry with the sessions [l], as [RegistryFacts] has it; [N] bounds
    the number of sessions. *)
Record tracked (N : nat) (r : Registry) (l : list Session) : Prop := {
  tracked_reach : exists l', l' ≡ₚ l /\ reg_timely rel (mkRegSystem r l');
  tracked_rel : reliability r = rel;
  tracked_len : (length l <= N)%nat;
  tracked_exact : Z.of_nat N <= u32_max -> exact r l
}.

Lemma on_node_perm n l l' : l ≡ₚ l' -> length (on_node n l) = length (on_node n l').
Proof.
  intros Hp. apply Permutation_length. unfold on_node.
  induction Hp; simpl; repeat case_bool_decide; try done; [by constructor|by constructor|by etrans].
Qed.

Lemma tracked_perm N r l l' : l ≡ₚ l' -> tracked N r l -> tracked N r l'.
Proof.
  intros Hp [(l0 & Hl & Hr) ? ? He]. split; [|done|by rewrite <- Hp|].
  - exists l0. split; [by etrans|done].
  - intros Hf n. by rewrite (He Hf n), (on_node_perm n l l').
Qed.

Lemma tracked_quiet N r r' l : tracked N r l -> quiet r r' -> tracked N r' l.
Proof.
  intros [(l' & Hl & Hr) Hc ? He] Hq. split; [| |done|].
  - exists l'. split; [done|]. clear He Hc. induction Hq as [|r r' clk op Hq IH Hm Ht]; [done|].
    rewrite <- maintain_system by done. constructor; [auto|done|by destruct op].
  - by rewrite (proj1 (quiet_keeps r r' "" Hq)).
  - intros Hf n. rewrite (proj2 (quiet_keeps r r' n Hq)). by apply He.
Qed.

Lemma on_node_cons n x l :
  length (on_node n (x :: l)) = ((if decide (s_node x = n) then 1 else 0) + length (on_node n l))%nat.
Proof. unfold on_node. simpl. case_decide; [by rewrite bool_decide_eq_true_2|by rewrite bool_decide_eq_false_2]. Qed.
Lemma on_node_len n l : (length (on_node n l) <= length l)%nat.
Proof. apply List.filter_length_le. Qed.

Lemma tracked_close N x l r r' : tracked N r (x :: l) -> closes x r r' -> tracked N r' l.
Proof.
  intros Ht (clk & r1 & Hq1 & Hq2). apply (tracked_quiet _ _ _ _ Ht) in Hq1. clear Ht r.
  apply (tracked_quiet N (dec_in_flight clk (s_node x) (s_heavy x) r1).2); [|done]. clear Hq2 r'.
  destruct Hq1 as [(l' & Hl & Hr) Hc Hlen He].
  destruct (dec_in_flight_effect clk (s_node x) (s_heavy x) r1) as [Hx Hfl]. simpl in Hlen.
  split; [| |lia|].
  - assert (x ∈ l') as [i Hi]%list_elem_of_lookup by (rewrite Hl; left).
    exists (delete i l'). split.
    + rewrite (delete_Permutation _ _ _ Hi) in Hl. by apply (inj (cons x)) in Hl.
    + apply (timely_step _ _ clk (OpClose i)) in Hr; [|done..]. simpl in Hr. by rewrite Hi in Hr.
  - destruct Hx as (_ & -> & _). done.
  - intros Hf n. rewrite Hfl. specialize (He Hf n). rewrite on_node_cons in He. pose proof (on_node_len n l).
    destruct (decide (n = s_node x)) as [->|E]; [rewrite decide_True in He by done|rewrite decide_False in He by congruence; lia].
    assert (total (released (s_heavy x) (flight_of (s_node x) r1)) = u32_wrap (total (flight_of (s_node x) r1) - 1))
      as ->.
    { unfold released. rewrite (proj2 (Z.eqb_neq _ 0)) by lia. by destruct (s_heavy x); [destruct (_ <=? _)|]. }
    rewrite u32_wrap_id; lia.
Qed.

Lemma tracked_take N x l clk r :
  tracked N r l -> (S (length l) <= N)%nat -> expires clk (s_node x) (s_heavy x) r = false ->
  let '(ok, r') := admit_request clk (s_node x) (s_heavy x) (s_owner x) r in
  tracked N r' (if ok then x :: l else l).
Proof.
  intros [(l' & Hl & Hr) Hc Hlen He] Hn Hx.
  pose proof (admit_effect clk (s_node x) (s_heavy x) (s_owner x) r) as (Ho & Hother & Hthis).
  apply (timely_step _ _ clk (OpAdmit (s_node x) (s_heavy x) (s_owner x))) in Hr; [|done|by simpl; rewrite Hx].
  simpl in Hr. rewrite Hx in Hthis.
  destruct (admit_request clk (s_node x) (s_heavy x) (s_owner x) r) as [ok r']. cbn [fst snd expire_if] in *.
  assert (mkSession (s_node x) (s_heavy x) (s_owner x) = x) as Ex by by destruct x. rewrite Ex in Hr.
  split.
  - eexists. split; [|exact Hr]. destruct ok; [|done]. by rewrite Hl, <- Permutation_cons_append.
  - by destruct Ho as (_ & -> & _).
  - destruct ok; simpl; lia.
  - intros Hf n. specialize (He Hf). pose proof (on_node_len n l).
    destruct (decide (n = s_node x)) as [->|Hne].
    + destruct ok; [|by rewrite Hthis]. destruct Hthis as [-> _].
      assert (forall f, total (taken clk (s_heavy x) (s_owner x) f) = u32_wrap (total f + 1)) as ->
        by by intros f; unfold taken; destruct (s_heavy x).
      rewrite He, on_node_cons, decide_True, u32_wrap_id by (done || lia). lia.
    + rewrite Hother, He by done. destruct ok; [|done]. rewrite on_node_cons, decide_False by congruence. done.
Qed.

Lemma tracked_more N N' r l : tracked N r l -> (N <= N')%nat -> tracked N' r l.
Proof. intros [? ? ? He] Hn. split; [done|done|lia|]. intros. apply He. lia. Qed.

Lemma omap_focus (l : list Request) i q q' :
  l !! i = Some q ->
  exists rest, omap held l ≡ₚ option_list (held q) ++ rest /\ (length (omap held l) <= length l)%nat /\
    (length rest < length l)%nat /\ omap held (<[i := q']> l) ≡ₚ option_list (held q') ++ rest.
Proof.
  intros Hi. exists (omap held (take i l ++ drop (S i) l)).
  assert (forall l : list Request, (length (omap held l) <= length l)%nat) as Hlen.
  { clear. induction l as [|x l IH]; [done|]. csimpl. destruct (held x); csimpl; lia. }
  split_and!; [|apply Hlen| |].
  - rewrite <- (take_drop_middle l i q Hi) at 1. rewrite !omap_app. csimpl.
    destruct (held q); simpl; [by rewrite Permutation_middle|done].
  - apply lookup_lt_Some in Hi. pose proof (Hlen (take i l ++ drop (S i) l)) as H1.
    rewrite length_app, length_take, length_drop in H1. lia.
  - apply lookup_lt_Some in Hi. rewrite insert_take_drop by done. rewrite !omap_app. csimpl.
    destruct (held q'); simpl; [by rewrite Permutation_middle|done].
Qed.

Lemma reachable_tracked g :
  gw_reachable g -> tracked (length (g_requests g)) (sh_reg (g_shared g)) (holds g).
Proof.
  induction 1 as [db|g g' Hr IH Hs].
  - split; [|done|simpl; lia|]; simpl.
    + exists []. split; [done|constructor].
    + intros _ n. unfold flight_of. simpl. by rewrite lookup_empty.
  - destruct Hs as [g i env inp q q' s' Hi Hx Hstep|g p|g clk op Hm Ht|g db]; simpl.
    + apply request_step_holds in Hstep as [Hh Hp]; [|apply IH|done].
      destruct (omap_focus _ _ _ q' Hi) as (rest & E1 & E2 & E3 & E4). unfold holds in *. simpl. rewrite length_insert.
      apply (tracked_perm _ _ _ _ E1) in IH. eapply tracked_perm; [symmetry; apply E4|].
      destruct Hh as [h r' Hq|n x Hadm Hex|n r' x Hadm Hex Hq|x r' Hc]; simpl in *.
      * by eapply tracked_quiet.
      * pose proof (tracked_take _ x _ (e_clk env) _ IH E3 Hex) as Hk. subst x. simpl in *.
        by destruct (admit_request _ _ _ _ _) as [[|] r1].
      * pose proof (tracked_take _ x _ (e_clk env) _ IH E3 Hex) as Hk. subst x. simpl in *.
        destruct (admit_request _ _ _ _ _) as [[|] r1]; [|done]. by eapply tracked_quiet.
      * by eapply tracked_close.
    + unfold holds in *. simpl. rewrite omap_app. simpl. rewrite app_nil_r, length_app. eapply tracked_more; [done|lia].
    + eapply tracked_quiet; [done|]. by apply quiet_one.
    + done.
Qed.

Lemma heavies_perm n l l' : l ≡ₚ l' -> length (heavies n l) = length (heavies n l').
Proof.
  intros Hp. apply Permutation_length. unfold heavies.
  induction Hp; simpl; repeat case_match; try done; [by constructor|by constructor|by etrans].
Qed.

Lemma held_owner q x : held q = Some x -> s_owner x = owner_key (q_prepared q).
Proof. unfold held. destruct (q_phase q); try done; by intros [= <-]. Qed.

Lemma two_held g i j q q' x y :
  i <> j -> g_requests g !! i = Some q -> g_requests g !! j = Some q' -> held q = Some x -> held q' = Some y ->
  s_heavy x = true -> s_heavy y = true -> s_node x = s_node y ->
  (2 <= length (heavies (s_node x) (holds g)))%nat.
Proof.
  intros Hij Hq Hq' Hx Hy Px Py Hn.
  pose proof (two_in_filter (fun q => match held q with Some z => heavy_on (s_node x) z | None => false end)
                (g_requests g) i j q q' Hij Hq Hq') as H2. simpl in H2. rewrite Hx, Hy in H2.
  unfold heavy_on in H2 at 1 2. rewrite <- Hn, bool_decide_eq_true_2, Px, Py in H2 by done. specialize (H2 eq_refl eq_refl).
  etrans; [exact H2|]. clear. unfold heavies, holds. induction (g_requests g) as [|z l IH]; [done|]. csimpl.
  destruct (held z) as [h|]; csimpl; [|done]. destruct (heavy_on (s_node x) h); csimpl; lia.
Qed.

(** C13: The chat handler's sessions are exactly what the registry counts.  Take
    any interleaving of requests (each stopping at every await, failing, being
    retried or dropped by its client at any point), arrivals, registry
    maintenance and database changes in which no admission finds a hold older
    than its time to live.  Then the registry is one that [RegistryFacts]
    reaches with the sessions the requests hold; the heavy counter of every
    node is the number of requests that hold a heavy session there, and, as
    long as no more than [u32_max] requests arrived, the in-flight counter is
    the number of those that hold a session there; two requests with heavy
    sessions on one node have the same known owner; and when no request holds a session every counter is zero. *)
Theorem gateway_counts_sessions (g : Gateway) (Hg : gw_reachable g) :
  let r := sh_reg (g_shared g) in
  (exists l, l ≡ₚ holds g /\ reg_timely rel (mkRegSystem r l)) /\
  (forall n, heavy_in_flight n r = Z.of_nat (length (heavies n (holds g))) /\
     (Z.of_nat (length (g_requests g)) <= u32_max ->
      in_flight n r = Z.of_nat (length (on_node n (holds g))))) /\
  (forall i j q q' x y, i <> j -> g_requests g !! i = Some q -> g_requests g !! j = Some q' ->
     held q = Some x -> held q' = Some y -> s_heavy x = true -> s_heavy y = true -> s_node x = s_node y ->
     exists o, owner_key (q_prepared q) = Some o /\ owner_key (q_prepared q') = Some o) /\
  (holds g = [] -> forall n, in_flight n r = 0 /\ heavy_in_flight n r = 0).
Proof.
  destruct (reachable_tracked g Hg) as [(l & Hl & Hr) Hrel Hlen He]. cbv zeta.
  pose proof (reachable_inv _ _ Hr) as Hi.
  assert (forall n, heavy_in_flight n (sh_reg (g_shared g)) = Z.of_nat (length (heavies n (holds g)))) as Hcount.
  { intros n. destruct (Hi n) as [Hc _ _ _ _]. unfold heavy_in_flight. simpl in Hc. rewrite Hc. f_equal.
    by apply heavies_perm. }
  split_and!.
  - by exists l.
  - intros n. split; [done|]. intros Hn. by apply He.
  - intros i j q q' x y Hij Hq Hq' Hx Hy Px Py Hn.
    destruct (Hi (s_node x)) as [Hc _ _ Ho Hsh]. simpl in *.
    assert (2 <= length (heavies (s_node x) l))%nat as H2.
    { rewrite (heavies_perm _ _ _ Hl). by apply (two_held g i j q q' x y). }
    destruct (heavy_owner _) as [o|]; [|by destruct Hsh; [lia|]].
    exists o. split; [rewrite <- (held_owner q x Hx)|rewrite <- (held_owner q' y Hy)];
      apply Ho, heavies_elem; (split_and!; [rewrite Hl; unfold holds; apply list_elem_of_omap|done|done]);
      eauto using list_elem_of_lookup_2.
  - intros H0' n. split; [|by rewrite Hcount, H0'].
    destruct (Hi n) as [_ _ Ht _ _]. simpl in Ht. rewrite (on_node_perm n l (holds g) Hl), H0' in Ht. simpl in Ht.
    unfold in_flight. lia.
Qed.
End Gateway.

(** ** A concrete run *)

Inductive GwAct : Type :=
| ActRequest (i : nat) (t : Z) (inp : Input)
| ActArrive (p : PreparedChatRequest)
| ActMaintain (t : Z) (op : RegOp).
Definition toy_act (a : GwAct) (g : Gateway) : option Gateway :=
  match a with
  | ActRequest i t inp =>
      q ← g_requests g !! i;
      if @no_expiry toy_wire (toy_env t) q (sh_reg (g_shared g)) then
        '(q', s') ← @request_step toy_crates toy_wire toy_powf toy_chat_config (toy_env t) inp q (g_shared g);
        Some (mkGateway s' (<[i := q']> (g_requests g)))
      else None
  | ActArrive p => Some (mkGateway (g_shared g) (g_requests g ++ [new_request p]))
  | ActMaintain t op =>
      if maintenance op then
        Some (mkGateway (with_reg (@maintain toy_crates (at_secs t) op (sh_reg (g_shared g))) (g_shared g)) (g_requests g))
      else None
  end.
Definition toy_gw_reachable : Gateway -> Prop := @gw_reachable toy_crates toy_wire toy_powf toy_chat_config toy_reliability.

Lemma toy_act_reachable a g g' :
  toy_gw_reachable g -> match a with ActMaintain _ op => op_typed op | _ => True end -> toy_act a g = Some g' ->
  toy_gw_reachable g'.
Proof.
  intros Hg Ht Ha. eapply gw_next; [exact Hg|]. destruct a as [i t inp|p|t op]; simpl in Ha.
  - destruct (g_requests g !! i) as [q|] eqn:Hq; [|done]. simpl in Ha. destruct (no_expiry _ _ _) eqn:Hx; [|done].
    destruct (request_step _ _ _ _ _ _) as [[q' s']|] eqn:Hs; [|done]. injection Ha as <-. by econstructor.
  - injection Ha as <-. constructor.
  - destruct (maintenance op) eqn:Hm; [|done]. injection Ha as <-. by constructor.
Qed.

Lemma toy_acts_reachable acts g g' :
  toy_gw_reachable g -> Forall (fun a => match a with ActMaintain _ op => op_typed op | _ => True end) acts ->
  foldl (fun g a => g ≫= toy_act a) (Some g) acts = Some g' -> toy_gw_reachable g'.
Proof.
  revert g. induction acts as [|a acts IH]; intros g Hg Ht; simpl; [by intros [= <-]|].
  apply Forall_cons in Ht as [Ha Hts]. destruct (toy_act a g) as [g1|] eqn:E.
  - apply IH; [|done]. by eapply toy_act_reachable.
  - intros Hn. exfalso. clear -Hn. induction acts as [|b acts IH]; [done|]. by apply IH.
Qed.

(** Two heavy requests of one caller share a device. *)
Definition toy_acts : list GwAct :=
  [ActMaintain 1 (OpUpsert "node" "Studio" (toy_caps 2) false false);
   ActArrive (toy_prepared 5000 true); ActArrive (toy_prepared 5000 false);
   ActRequest 0 2 Tick; ActRequest 1 2 Tick; ActRequest 0 3 Tick; ActRequest 1 3 Tick;
   ActRequest 0 4 Tick; ActRequest 1 4 Tick; ActRequest 0 5 (Relay HandedOff); ActRequest 1 5 (Relay HandedOff)].
Definition toy_gw_start : Gateway := mkGateway (mkShared (new toy_reliability) None) [].
Definition toy_gw : Gateway :=
  default toy_gw_start (foldl (fun g a => g ≫= toy_act a) (Some toy_gw_start) toy_acts).

Lemma toy_gw_ok : toy_gw_reachable toy_gw.
Proof.
  eapply (toy_acts_reachable toy_acts toy_gw_start); [constructor| |vm_compute; reflexivity].
  apply Forall_cons. split; [simpl; intros t [= <-]; unfold u32_max; lia|by repeat constructor].
Qed.

Lemma gateway_counts_sessions_witness :
  in_flight "node" (sh_reg (g_shared toy_gw)) = 2 /\ heavy_in_flight "node" (sh_reg (g_shared toy_gw)) = 2.
Proof.
  destruct (@gateway_counts_sessions toy_crates toy_wire toy_powf toy_chat_config toy_reliability toy_gw toy_gw_ok)
    as (_ & Hc & _).
  destruct (Hc "node") as [-> Ht]. rewrite Ht by (vm_compute; discriminate).
  split; vm_compute; reflexivity.
Defined.

(** A hold that outlived its time to live is given to the next caller; when the
    first session ends after all, its guard frees the hold of the second, and a
    third caller is let in beside it. *)
Theorem late_close_frees_other_hold :
  let a := @admit_request toy_crates (at_secs 2) "node" true (Some "alice") toy_one_device in
  let b := @admit_request toy_crates (at_secs 2000) "node" true (Some "bob") a.2 in
  let early := @admit_request toy_crates (at_secs 2001) "node" true (Some "carol") b.2 in
  let closed := (@dec_in_flight toy_crates (at_secs 2002) "node" true b.2).2 in
  let c := @admit_request toy_crates (at_secs 2003) "node" true (Some "carol") closed in
  a.1 = true /\ b.1 = true /\ early.1 = false /\ c.1 = true.
Proof. vm_compute. done. Qed.
