(* ===== verification/ChatDispatch.v ===== *)
(** * The device a chat request is sent to

    What [select] promises about the device it names and about the error it
    gives when it names none. *)

From S2P Require Import Prelude Db RustStr Merkle F64 Wallet Settlement Accounts ApiKeys Registry RegistryFacts Scheduler SchedulerFacts.
From S2P Require Import Pins Auth PinWire Catalog ChatPrepare Chat.
From S2P Require Import Fixtures PinWireFacts ChatFixtures.

Open Scope string_scope.
Open Scope list_scope.
Open Scope Z_scope.

Lemma filter_elem {A} (P : A -> bool) (l : list A) x : x ∈ List.filter P l <-> x ∈ l /\ P x = true.
Proof. by rewrite !list_elem_of_In, filter_In. Qed.

Section Select.
Context `{Crates} `{WireCrates} (powf : f64 -> f64 -> f64) (cfg : ChatConfig).
Context (env : Env) (p : PreparedChatRequest) (dx : Dispatch) (r : Registry).

Abbreviation id := (cm_id (pr_catalog_model p)).
Abbreviation claim := (pr_required_ctx p).
Abbreviation pool := (supply_pool (e_clk env) p r).
(** The devices that may hold the whole request. *)
Definition fits : list DeviceState := List.filter (fun d => negb (below_claim claim d)) pool.
(** The devices of the caller among them. *)
Definition asked_for (d : DeviceState) : bool := existsb (fun n => bool_decide (n = node_id d)) (pr_preferred_node_ids p).
Definition asked : list DeviceState := List.filter asked_for fits.

Lemma pick_sound clk scfg cands mid excl rg mc rng d :
  pick powf clk scfg cands mid excl rg mc rng = Some d ->
  exists loaded, dispatchable powf clk scfg cands mid excl rg mc d loaded.
Proof.
  unfold pick. destruct (viable_list _ _ _ _ _ _ _ _) as [|v l] eqn:Hv; [done|].
  assert (forall t, t ∈ tied_best v l ->
    exists loaded, dispatchable powf clk scfg cands mid excl rg mc (v_device t) loaded) as Ht.
  { intros t [Hin _]%tied_best_spec. rewrite <- Hv in Hin. apply viables_elem in Hin as [Hd _]. by eexists. }
  assert (forall t, t ∈ fast_lane (tied_best v l) -> t ∈ tied_best v l) as Hf by by intros t [? _]%filter_elem.
  destruct (tied_best v l) as [|t [|t' ts]]; [done| |].
  - intros [= <-]. apply Ht. by left.
  - unfold choose. destruct (_ !! _) as [x|] eqn:E; [|done]. intros [= <-]. apply Ht, Hf.
    by eapply list_elem_of_lookup_2.
Qed.

Lemma prefer_sub P (l : list DeviceState) d : d ∈ prefer P l -> d ∈ l.
Proof. unfold prefer. destruct (List.filter P l) eqn:E; [done|]. rewrite <- E. by intros [? _]%filter_elem. Qed.
Lemma prefer_only P (l : list DeviceState) d :
  d ∈ prefer P l -> P d = true \/ forall x, x ∈ l -> P x = false.
Proof.
  unfold prefer. destruct (List.filter P l) as [|y l'] eqn:E.
  - intros _. right. intros x Hx. destruct (P x) eqn:Px; [|done].
    assert (x ∈ List.filter P l) as Hin by by apply filter_elem. rewrite E in Hin. by apply not_elem_of_nil in Hin.
  - rewrite <- E. intros [_ ?]%filter_elem. by left.
Qed.

Lemma narrow_sub rg sticky l d : d ∈ narrow rg sticky l -> d ∈ l.
Proof.
  unfold narrow. intros Hd.
  assert (d ∈ prefer slot_is_free (if heavy_hold (reliability rg)
            then prefer (fun d => heavy_in_flight (node_id d) rg =? 0) l else l)) as Hs
    by (destruct sticky; [by eapply prefer_sub|done]).
  apply prefer_sub in Hs. destruct (heavy_hold _); [by eapply prefer_sub|done].
Qed.
(** A device that carries heavy work is only left when all do. *)
Lemma narrow_heavy rg sticky l d :
  heavy_hold (reliability rg) = true -> d ∈ narrow rg sticky l -> heavy_in_flight (node_id d) rg <> 0 ->
  forall x, x ∈ l -> heavy_in_flight (node_id x) rg <> 0.
Proof.
  unfold narrow. intros -> Hd Hn x Hx.
  assert (d ∈ prefer slot_is_free (prefer (fun d => heavy_in_flight (node_id d) rg =? 0) l)) as Hs
    by (destruct sticky; [by eapply prefer_sub|done]).
  apply prefer_sub, prefer_only in Hs as [Hs|Hs]; [apply Z.eqb_eq in Hs; done|].
  apply Hs, Z.eqb_neq in Hx. done.
Qed.

Lemma supply_spec d :
  d ∈ pool ->
  d ∈ snapshot_devices r /\ probation d = false /\ (employee d = true -> pr_apmhelp_lane p = true) /\
  heartbeat_is_stale (e_clk env) (heartbeat_stale_seconds (reliability r)) d = false /\
  (pr_apmhelp_lane p = true -> employee d = false ->
   forall x, x ∈ eligible_supply (e_clk env) id true r -> employee x = false).
Proof.
  unfold supply_pool. intros Hd.
  assert (d ∈ eligible_supply (e_clk env) id (pr_apmhelp_lane p) r) as Hs
    by (destruct (pr_apmhelp_lane p); [by eapply prefer_sub|done]).
  apply filter_elem in Hs as [Hin Hs]. split; [done|]. unfold supplies in Hs.
  destruct (employee d) eqn:He; simpl in Hs.
  - destruct (pr_apmhelp_lane p) eqn:Hl; simpl in Hs; [|done].
    destruct (probation d); [done|]. destruct (heartbeat_is_stale _ _ _) eqn:E; [done|]. by split_and!.
  - destruct (probation d); [done|]. destruct (heartbeat_is_stale _ _ _) eqn:E; [done|]. split_and!; try done.
    intros Hl _. rewrite Hl in Hd. apply prefer_only in Hd as [Hd|Hd]; [congruence|done].
Qed.

Lemma picked_from_fits sticky l rng d :
  (forall x, x ∈ l -> x ∈ fits) ->
  pick powf (e_clk env) (cc_scheduler cfg) (narrow r sticky l) id (dx_excluded dx) r (Some claim) rng = Some d ->
  exists loaded, dispatchable powf (e_clk env) (cc_scheduler cfg) fits id (dx_excluded dx) r (Some claim) d loaded /\
    d ∈ l /\
    (heavy_hold (reliability r) = true -> heavy_in_flight (node_id d) r <> 0 ->
     forall x, x ∈ l -> heavy_in_flight (node_id x) r <> 0).
Proof.
  intros Hl (loaded & [[H1 H2 H3 H4 H5] H6])%pick_sound. exists loaded. apply narrow_sub in H1 as Hin. split_and!.
  - split; [|done]. split; try done. by apply Hl.
  - done.
  - intros Hh Hn. by eapply narrow_heavy.
Qed.

Record target (n : string) (d : DeviceState) (loaded : bool) : Prop := {
  target_registered : d ∈ snapshot_devices r /\ node_id d = n;
  target_new : n ∉ dx_excluded dx;
  target_tier : probation d = false;
  target_fresh : heartbeat_is_stale (e_clk env) (heartbeat_stale_seconds (reliability r)) d = false;
  target_serves :
    is_eligible_for (e_clk env) id (max_queue_depth (cc_scheduler cfg)) d = (if loaded then Loaded else Swappable);
  target_room : in_flight n r < max_queue_depth (cc_scheduler cfg);
  target_power : on_ac_power (capabilities d) <> Some false;
  target_context : forall have, effective_context (capabilities d) = Some have -> claim <= have;
  target_lane : employee d = true -> pr_apmhelp_lane p = true;
  target_employee : pr_apmhelp_lane p = true -> employee d = false ->
    forall x, x ∈ eligible_supply (e_clk env) id true r -> employee x = false;
  target_heavy : heavy_hold (reliability r) = true -> heavy_in_flight n r <> 0 ->
    (d ∈ asked /\ forall x, x ∈ asked -> heavy_in_flight (node_id x) r <> 0) \/
    (forall x, x ∈ fits -> heavy_in_flight (node_id x) r <> 0)
}.

Lemma dispatchable_target d loaded :
  dispatchable powf (e_clk env) (cc_scheduler cfg) fits id (dx_excluded dx) r (Some claim) d loaded ->
  (heavy_hold (reliability r) = true -> heavy_in_flight (node_id d) r <> 0 ->
    (d ∈ asked /\ forall x, x ∈ asked -> heavy_in_flight (node_id x) r <> 0) \/
    (forall x, x ∈ fits -> heavy_in_flight (node_id x) r <> 0)) ->
  target (node_id d) d loaded.
Proof.
  intros [[H1 H2 H3 H4 H5] [H6 _]] Hh. unfold fits in H1. apply filter_elem in H1 as [Hp _].
  apply supply_spec in Hp as (Hs & Hpr & Hl & Hf & He). split; try done. intros have. by apply H4.
Qed.

(** What [select] names was picked from the devices that fit. *)
Lemma select_picks (n : string) (r' : Registry) :
  select powf cfg env p dx r = (Ok n, r') -> exists d loaded, node_id d = n /\
    dispatchable powf (e_clk env) (cc_scheduler cfg) fits id (dx_excluded dx) r (Some claim) d loaded /\
    (heavy_hold (reliability r) = true -> heavy_in_flight (node_id d) r <> 0 ->
      (d ∈ asked /\ forall x, x ∈ asked -> heavy_in_flight (node_id x) r <> 0) \/
      (forall x, x ∈ fits -> heavy_in_flight (node_id x) r <> 0)).
Proof.
  unfold select. cbv zeta. fold fits. destruct (_ && _); [done|]. destruct (sticky_node _ _ _ _) as [sticky r1].
  set (mine := match pr_preferred_node_ids p with [] => _ | _ => _ end).
  assert (forall x, x ∈ mine -> x ∈ fits) as Hsub.
  { subst mine. intros x. destruct (pr_preferred_node_ids p); [by intros ?%not_elem_of_nil|].
    by intros [? _]%filter_elem. }
  assert (forall x, x ∈ asked <-> x ∈ mine) as Hasked.
  { intros x. subst mine. unfold asked, asked_for. destruct (pr_preferred_node_ids p); [|done].
    rewrite filter_elem. simpl. split; [by intros [_ ?]|by intros ?%not_elem_of_nil]. }
  destruct (pick _ _ _ (narrow r sticky mine) _ _ _ _ _) as [d|] eqn:E1.
  - intros [= <- _]. apply picked_from_fits in E1 as (loaded & Hd & Hin & Hh); [|done]. exists d, loaded.
    split; [done|]. split; [done|]. intros A B. left. split; [by apply Hasked|]. intros x Hx. apply Hh; [done|done|by apply Hasked].
  - destruct (pick _ _ _ (narrow r sticky fits) _ _ _ _ _) as [d|] eqn:E2; [intros [= <- _]|done].
    apply picked_from_fits in E2 as (loaded & Hd & _ & Hh); [|done]. exists d, loaded.
    split; [done|]. split; [done|]. intros A B. right. by apply Hh.
Qed.

(** C23: The device [select] names is registered, has a fresh heartbeat, is not
    on probation, not one the request has given up (a device that only failed
    during its cold-start grace is not), serves
    the model (loaded or swappable) with room in its own queue and in the
    gateway's counters, runs on mains power as far as known, and its context
    holds prompt and completion if it reports one.  Employee devices are used
    only in the employee lane, and there whenever one serves the model.  Where
    heavy holds are configured, a device that carries heavy work is named only
    when all devices that fit carry some, or when it is one of those the caller
    asked for and all of these that fit carry some. *)
Theorem dispatch_target (n : string) (r' : Registry) :
  select powf cfg env p dx r = (Ok n, r') -> exists d loaded, target n d loaded.
Proof.
  intros (d & loaded & <- & Hd & Hh)%select_picks. exists d, loaded. by apply dispatchable_target.
Qed.

(** ** Refusals *)

Lemma below_claim_spec d :
  below_claim claim d = true <-> exists have, effective_context (capabilities d) = Some have /\ have < claim.
Proof.
  unfold below_claim. destruct (effective_context _) as [c|]; [|split; [done|by intros (? & ? & _)]].
  rewrite Z.ltb_lt. split; [by exists c|by intros (? & [= <-] & ?)].
Qed.

Lemma foldl_max_spec (l : list Z) acc :
  acc <= foldl Z.max acc l /\ (forall x, x ∈ l -> x <= foldl Z.max acc l) /\
  (foldl Z.max acc l = acc \/ foldl Z.max acc l ∈ l).
Proof.
  revert acc. induction l as [|y l IH]; intros acc; simpl.
  - split_and!; [lia|by intros ? ?%not_elem_of_nil|by left].
  - destruct (IH (Z.max acc y)) as (I1 & I2 & I3). split_and!; [lia| |].
    + intros x [->|Hx]%elem_of_cons; [lia|by apply I2].
    + rewrite elem_of_cons. destruct I3 as [->|?]; [|by right; right]. destruct (Z.max_spec acc y) as [[? ->]|[? ->]]; auto.
Qed.

(** The request is longer than what any device of the pool holds. *)
Definition beyond_supply (ceiling : Z) : Prop :=
  pool <> [] /\
  (forall d, d ∈ pool -> exists have, effective_context (capabilities d) = Some have /\ have < claim /\ have <= ceiling) /\
  (ceiling = 0 \/ exists d, d ∈ pool /\ effective_context (capabilities d) = Some ceiling).

Lemma max_ceiling_spec :
  fits = [] -> existsb (below_claim claim) pool = true -> beyond_supply (max_ceiling claim pool).
Proof.
  intros Hf Hx.
  assert (forall d, d ∈ pool -> below_claim claim d = true) as Hb.
  { intros d Hd. destruct (below_claim claim d) eqn:E; [done|].
    assert (d ∈ fits) as Hin by (unfold fits; apply filter_elem; by rewrite E). rewrite Hf in Hin.
    by apply not_elem_of_nil in Hin. }
  unfold max_ceiling. set (cs := omap _ _).
  assert (forall c, c ∈ cs <-> exists d, d ∈ pool /\ effective_context (capabilities d) = Some c) as Hcs.
  { intros c. subst cs. rewrite list_elem_of_omap. split.
    - intros (d & [Hd _]%filter_elem & Hc). eauto.
    - intros (d & Hd & Hc). exists d. split; [apply filter_elem; split; [done|by apply Hb]|done]. }
  destruct (foldl_max_spec cs 0) as (M0 & M1 & M2). split_and!.
  - intros E. by rewrite E in Hx.
  - intros d Hd. destruct (proj1 (below_claim_spec d) (Hb d Hd)) as (have & Hh & Hlt).
    exists have. split_and!; [done|done|]. apply M1, Hcs. eauto.
  - destruct M2 as [->|M2]; [by left|]. right. by apply Hcs.
Qed.

(** C24: The errors of a dispatch.  [PromptExceedsContext] is given exactly when
    there are devices for the model and every one reports a context below prompt
    and completion together; it then names the largest of these contexts.
    Otherwise an error means that the scheduler found no device: it is the last
    relay error if there was one, else the contention of a heavy request that
    was refused, else (when the configuration asks for it) saturation, which
    is only reported when some device would serve the request and all such
    devices are at their queue limit, else the absence of an eligible device.
    A refusal leaves the devices and the counters as they are. *)
Theorem dispatch_refusal (e : GatewayError) (r' : Registry) :
  select powf cfg env p dx r = (Err e, r') ->
  devices r' = devices r /\ in_flight_table r' = in_flight_table r /\
  ((exists c, e = PromptExceedsContext id claim c /\ beyond_supply c /\ c < Z.max claim 1) \/
   (forall c, ~ beyond_supply c) /\
   match dx_last_error dx with
   | Some message => e = AllUpstreamsFailed message
   | None =>
       if dx_heavy_refused dx then e = HeavyContention id
       else e = NoEligibleDevice id \/
            e = AtCapacity id /\ saturation_429 (reliability r) = true /\
            exists cands, (forall d, d ∈ cands -> d ∈ fits) /\
              (exists d loaded, would_serve powf (e_clk env) (cc_scheduler cfg) cands id (dx_excluded dx) (Some claim) d loaded) /\
              forall d loaded, would_serve powf (e_clk env) (cc_scheduler cfg) cands id (dx_excluded dx) (Some claim) d loaded ->
                at_cap (cc_scheduler cfg) r d = true
   end).
Proof.
  unfold select. cbv zeta. fold fits. destruct (bool_decide (fits = []) && existsb (below_claim claim) pool) eqn:Hx.
  - intros [= <- <-]. apply andb_true_iff in Hx as [Hf%bool_decide_eq_true Hx]. split_and!; [done|done|]. left.
    pose proof (max_ceiling_spec Hf Hx) as Hb. exists (max_ceiling claim pool). split_and!; [done|done|].
    destruct Hb as (_ & Hb & [->|(d & Hd & Hc)]); [lia|]. destruct (Hb d Hd) as (have & ? & ? & _).
    simplify_eq. lia.
  - assert (forall c, ~ beyond_supply c) as Hno.
    { intros c (Hp & Hb & _). apply andb_false_iff in Hx as [Hx|Hx].
      - apply bool_decide_eq_false in Hx. destruct fits as [|d l] eqn:E; [done|].
        assert (d ∈ fits) as Hd by (rewrite E; by left). unfold fits in Hd. apply filter_elem in Hd as [Hd Hn].
        destruct (Hb d Hd) as (have & Hc & Hlt & _).
        by rewrite (proj2 (below_claim_spec d)) in Hn by by exists have.
      - destruct (supply_pool _ _ _) as [|d l]; [done|]. destruct (Hb d) as (have & Hc & Hlt & _); [by left|].
        simpl in Hx. by rewrite (proj2 (below_claim_spec d)) in Hx by by exists have. }
    assert (devices (sticky_node (e_clk env) p dx r).2 = devices r /\
            in_flight_table (sticky_node (e_clk env) p dx r).2 = in_flight_table r) as [Ed Et].
    { unfold sticky_node. destruct (convo_key p); [|done]. unfold convo_node. destruct (_ =? 0); [done|].
      destruct (_ !! _) as [[]|]; [by destruct (convo_fresh _ _ _)|done]. }
    destruct (sticky_node (e_clk env) p dx r) as [sticky r1]. cbn [snd] in *.
    destruct (pick _ _ _ _ _ _ _ _ _); [done|]. destruct (pick _ _ _ (narrow r sticky fits) _ _ _ _ _); [done|].
    intros [= <- <-]. split_and!; [done|done|]. right. split; [done|]. unfold exhausted.
    destruct (dx_last_error dx); [done|]. destruct (dx_heavy_refused dx); [done|].
    destruct (saturation_429 _ && _) eqn:Hs; [right|by left]. apply andb_true_iff in Hs as [Hs1 Hs2].
    split_and!; [done|done|]. exists (narrow r sticky fits). apply saturated_spec in Hs2 as [Hs2 Hs3].
    split_and!; [apply narrow_sub|done|done].
Qed.
End Select.

(** ** Concrete dispatches *)

Definition caps_with (ctx : option Z) (ac : option bool) (busy : Z) : NodeCapabilities :=
  mkCapabilities (hardware (toy_caps 2)) ["hermes-3-8b"] f64_one true None [] None ctx ac (Some busy) (Some 2).
Definition registry_of (l : list (string * NodeCapabilities)) : Registry :=
  foldl (fun r '(n, c) => upsert_device_with_tier (at_secs 1) n n c false false r) (new toy_reliability) l.
Definition first_try : Dispatch := mkDispatch [] None false 0 false.
Definition toy_select (r : Registry) : result GatewayError string * Registry :=
  @select toy_crates toy_powf toy_chat_config (toy_env 2) (toy_prepared 100 true) first_try r.

Lemma dispatch_target_witness :
  (toy_select toy_one_device).1 = Ok "node" /\ exists d, d ∈ snapshot_devices toy_one_device /\ node_id d = "node".
Proof.
  split; [vm_compute; reflexivity|].
  destruct (@dispatch_target toy_crates toy_powf toy_chat_config (toy_env 2) (toy_prepared 100 true) first_try
              toy_one_device "node" toy_one_device) as (d & loaded & [Hd _ _ _ _ _ _ _ _ _ _]).
  - vm_compute. reflexivity.
  - by exists d.
Defined.

Definition small_context : Registry := registry_of [("a", caps_with (Some 64) None 0); ("b", caps_with (Some 96) None 0)].
Lemma dispatch_refusal_witness :
  (toy_select small_context).1 = Err (PromptExceedsContext "hermes-3-8b" 101 96) /\ 96 < 101.
Proof.
  split; [vm_compute; reflexivity|].
  destruct (@dispatch_refusal toy_crates toy_powf toy_chat_config (toy_env 2) (toy_prepared 100 true) first_try
              small_context (PromptExceedsContext "hermes-3-8b" 101 96) small_context) as (_ & _ & [(c & [= <-] & _ & Hc)|[_ Hc]]).
  - vm_compute. reflexivity.
  - exact Hc.
  - exfalso. destruct Hc as [Hc|[Hc _]]; discriminate Hc.
Defined.

(** The preference for a free slot can refuse a request: a device that is left
    out for another reason (here: it runs on battery) but has a free slot hides
    the one that would take it. *)
Theorem slot_preference_refuses :
  let battery := ("a", caps_with None (Some false) 0) in
  let busy := ("b", caps_with None (Some true) 2) in
  (toy_select (registry_of [busy])).1 = Ok "b" /\
  (toy_select (registry_of [battery; busy])).1 = Err (NoEligibleDevice "hermes-3-8b").
Proof. vm_compute. done. Qed.
