(* ===== verification/ChatRuns.v ===== *)
(** * Runs of one chat request

    A request on its own, in a world that others change between its steps: what
    it sends, what it bills, and that it ends. *)

From S2P Require Import Prelude Db RustStr Merkle F64 Wallet Settlement Accounts ApiKeys Registry RegistryFacts Scheduler SchedulerFacts.
From S2P Require Import Pins Auth PinWire Catalog ChatPrepare Chat ChatDispatch.
From S2P Require Import Fixtures PinWireFacts ChatFixtures.

Open Scope string_scope.
Open Scope list_scope.
Open Scope Z_scope.

Section Runs.
Context `{Crates} `{WireCrates} (powf : f64 -> f64 -> f64) (cfg : ChatConfig) (rel : ReliabilityConfig).
(** The names of the devices that ever register. *)
Context (U : list string).

Record world (s : Shared) : Prop := {
  world_rel : reliability (sh_reg s) = rel;
  world_nodes : forall d, d ∈ snapshot_devices (sh_reg s) -> node_id d ∈ U
}.

(** The trace lists the state before each step and the input of the step. *)
Inductive chat_run : Request -> list (Request * Input) -> Request -> Prop :=
| run_nil q : chat_run q [] q
| run_snoc q0 tr q env inp s q' s' :
    chat_run q0 tr q -> world s -> request_step powf cfg env inp q s = Some (q', s') ->
    chat_run q0 (tr ++ [(q, inp)]) q'.

Definition chunk_of (x : Request * Input) : option Json :=
  match x.2 with Received (Chunk c) => Some c | _ => None end.
Definition chunks (tr : list (Request * Input)) : list Json := omap chunk_of tr.
(** What a step settles: the serving node and the number of tokens. *)
Definition bill (x : Request * Input) : option (string * Z) :=
  match q_phase x.1, x.2 with
  | Settling n reported, Tick => Some (n, default (pg_tokens_out (q_progress x.1)) reported)
  | Receiving a, Received (Complete _) =>
      if pr_streaming (q_prepared x.1) then None else Some (at_node a, pg_tokens_out (q_progress x.1))
  | _, _ => None
  end.
Definition bills (tr : list (Request * Input)) : list (string * Z) := omap bill tr.

Lemma chunks_snoc tr x : chunks (tr ++ [x]) = chunks tr ++ option_list (chunk_of x).
Proof. unfold chunks. rewrite omap_app. simpl. by destruct (chunk_of x). Qed.
Lemma bills_snoc tr x : bills (tr ++ [x]) = bills tr ++ option_list (bill x).
Proof. unfold bills. rewrite omap_app. simpl. by destruct (bill x). Qed.

(** The sessions that completed, with the tokens their nodes reported. *)
Definition completion (x : Request * Input) : option (string * option Z) :=
  match q_phase x.1, x.2 with
  | Receiving a, Received (Complete reported) => Some (at_node a, reported)
  | _, _ => None
  end.
Definition completions (tr : list (Request * Input)) : list (string * option Z) := omap completion tr.
Lemma completions_snoc tr x : completions (tr ++ [x]) = completions tr ++ option_list (completion x).
Proof. unfold completions. rewrite omap_app. simpl. by destruct (completion x). Qed.

(** ** The request as an automaton

    What a step does to the request, without the registry and the database. *)

Inductive move (q : Request) : Input -> Request -> Prop :=
| move_start cold :
    q_phase q = Starting ->
    move q Tick (set_phase (Selecting cold (mkDispatch (pg_excluded (q_progress q)) None false 0 cold))
                   (set_progress (try_again (q_progress q)) q))
| move_unreadable e :
    q_phase q = Starting -> move q Tick (dispatch_error e (set_progress (try_again (q_progress q)) q))
| move_select cold dx n :
    q_phase q = Selecting cold dx -> n ∉ dx_excluded dx -> n ∈ U -> move q Tick (set_phase (Admitting cold dx n) q)
| move_none_left cold dx e : q_phase q = Selecting cold dx -> move q Tick (dispatch_error e q)
| move_admitted cold dx n : q_phase q = Admitting cold dx n -> move q Tick (set_phase (Opening cold dx n) q)
| move_refused cold dx n :
    q_phase q = Admitting cold dx n -> move q Tick (set_phase (Selecting cold (refused n dx)) q)
| move_open cold dx n a :
    q_phase q = Opening cold dx n -> at_node a = n -> at_got_first a = false ->
    move q (Relay HandedOff) (set_phase (Receiving a) q)
| move_grace cold dx n o m :
    q_phase q = Opening cold dx n -> dx_grace_failures dx < max_dispatch_grace_retries rel ->
    move q (Relay o) (set_phase (Pausing cold (graced m dx) n) q)
| move_give_up cold dx n o m :
    q_phase q = Opening cold dx n -> move q (Relay o) (set_phase (Selecting cold (gave_up_on n m dx)) q)
| move_resume cold dx n : q_phase q = Pausing cold dx n -> move q Tick (set_phase (Selecting cold dx) q)
| move_chunk a c : q_phase q = Receiving a -> move q (Received (Chunk c)) (got_chunk c a q)
| move_streamed a t env :
    q_phase q = Receiving a -> pr_streaming (q_prepared q) = true ->
    move q (Received (Complete t)) (set_phase (Settling (at_node a) t)
      (set_progress (emit [Data (final_chunk env (q_model_id q) (q_progress q)); DoneEvent] (q_progress q)) q))
| move_replied a t env :
    q_phase q = Receiving a -> pr_streaming (q_prepared q) = false ->
    move q (Received (Complete t))
      (set_phase (Finished (Replied (build_non_stream_response env (q_model_id q) (q_progress q)))) q)
| move_retry a ev (same : bool) :
    q_phase q = Receiving a -> at_got_first a = false -> pg_tried (q_progress q) <= max_retries rel ->
    chunk_of (q, Received ev) = None -> completion (q, Received ev) = None ->
    move q (Received ev)
      (set_phase Starting (set_progress (if same then q_progress q else exclude (at_node a) (q_progress q)) q))
| move_stream_failed a ev :
    q_phase q = Receiving a -> pr_streaming (q_prepared q) = true -> chunk_of (q, Received ev) = None ->
    completion (q, Received ev) = None ->
    move q (Received ev) (set_phase (Closing a ev) (set_progress (emit [ErrorEvent (stream_error ev)] (q_progress q)) q))
| move_buffer_failed a ev e :
    q_phase q = Receiving a -> pr_streaming (q_prepared q) = false ->
    chunk_of (q, Received ev) = None -> completion (q, Received ev) = None ->
    move q (Received ev) (set_phase (Finished (Failed e)) q)
| move_closed a ev :
    q_phase q = Closing a ev ->
    move q Tick (set_phase (Finished Streamed) (set_progress (emit [DoneEvent] (q_progress q)) q))
| move_settled n t : q_phase q = Settling n t -> move q Tick (set_phase (Finished Streamed) q)
| move_dropped : (forall o, q_phase q <> Finished o) -> move q ClientGone (set_phase (Finished Dropped) q).

Lemma set_progress_same q : set_progress (q_progress q) q = q.
Proof. by destruct q. Qed.

Lemma stream_failed_moves env a ev q r :
  reliability r = rel -> q_phase q = Receiving a -> pr_streaming (q_prepared q) = true ->
  chunk_of (q, Received ev) = None -> completion (q, Received ev) = None ->
  move q (Received ev) (stream_failed env a ev q r).1.
Proof.
  intros Hr Hph Hs Hc Hb. unfold stream_failed. destruct (is_retriable _ _ _ _) eqn:Hre; simpl.
  - unfold is_retriable in Hre. apply andb_true_iff in Hre as [[_ Hg]%andb_true_iff Ht%Z.leb_le].
    apply negb_true_iff in Hg. rewrite Hr in Ht.
    destruct (at_cold_start_grace a); simpl.
    + pose proof (move_retry q a ev true Hph Hg Ht Hc Hb) as Hm. simpl in Hm. by rewrite set_progress_same in Hm.
    + by apply (move_retry q a ev false).
  - by apply move_stream_failed.
Qed.

Lemma buffer_failed_moves env a ev q r :
  reliability r = rel -> q_phase q = Receiving a -> pr_streaming (q_prepared q) = false ->
  chunk_of (q, Received ev) = None -> completion (q, Received ev) = None ->
  move q (Received ev) (buffer_failed env a ev q r).1.
Proof.
  intros Hr Hph Hs Hc Hb. unfold buffer_failed. destruct (is_retriable _ _ _ _) eqn:Hre; simpl.
  - unfold is_retriable in Hre. apply andb_true_iff in Hre as [[_ Hg]%andb_true_iff Ht%Z.leb_le].
    apply negb_true_iff in Hg. rewrite Hr in Ht. destruct (_ || at_cold_start_grace a); simpl.
    + pose proof (move_retry q a ev true Hph Hg Ht Hc Hb) as Hm. simpl in Hm. by rewrite set_progress_same in Hm.
    + by apply (move_retry q a ev false).
  - by eapply move_buffer_failed.
Qed.

Lemma relay_failed_moves clk cold dx n m q r o :
  reliability r = rel -> q_phase q = Opening cold dx n ->
  move q (Relay o) (set_phase (relay_failed clk cold dx n m q r).1 q).
Proof.
  intros Hr Hph. unfold relay_failed. destruct (_ && _) eqn:E; simpl; [|by eapply move_give_up].
  apply andb_true_iff in E as [_ E%Z.ltb_lt]. rewrite Hr in E. by eapply move_grace.
Qed.

Lemma step_moves env inp q s q' s' :
  world s -> request_step powf cfg env inp q s = Some (q', s') -> move q inp q'.
Proof.
  intros [Hr HU]. unfold request_step.
  destruct (q_phase q) as [|cold dx|cold dx n|cold dx n|cold dx n|a|a ev|n rep|o] eqn:Hph;
    destruct inp as [|o'|e|]; try done; try (intros [= <- _]; apply move_dropped; by rewrite Hph).
  - intros [= <- _]. unfold start_attempt. destruct (outbound _); [by eapply move_start|by apply move_unreadable].
  - destruct (select _ _ _ _ _ _) as [[n|e] r'] eqn:Hs; intros [= <- _]; [|by eapply move_none_left].
    apply select_picks in Hs as (d & loaded & <- & Hd & Hh).
    destruct (dispatchable_target _ _ _ _ _ _ _ _ Hd Hh) as [[Hin E] Hn _ _ _ _ _ _ _ _ _]. eapply move_select; eauto.
  - unfold admit_step. destruct (admit_request _ _ _ _ _) as [[|] r1]; intros [= <- _];
      [by eapply move_admitted|by eapply move_refused].
  - destruct o' as [e|e|].
    + pose proof (relay_failed_moves (e_clk env) cold dx n ("relay open: " ++ e) q (sh_reg s) (OpenFailed e) Hr Hph) as Hm.
      destruct (relay_failed _ _ _ _ _ _ _). by intros [= <- _].
    + pose proof (relay_failed_moves (e_clk env) cold dx n ("relay send: " ++ e) q (sh_reg s) (SendFailed e) Hr Hph) as Hm.
      destruct (relay_failed _ _ _ _ _ _ _). by intros [= <- _].
    + intros [= <- _]. by eapply move_open.
  - intros [= <- _]. by eapply move_resume.
  - pose proof (fun Hs => stream_failed_moves env a e q (sh_reg s) Hr Hph Hs) as Hsf.
    pose proof (fun Hs => buffer_failed_moves env a e q (sh_reg s) Hr Hph Hs) as Hbf.
    unfold session_step. destruct (stream_failed _ _ _ _ _) as [qs rs], (buffer_failed _ _ _ _ _) as [qb rb].
    simpl in Hsf, Hbf. unfold completion in Hsf, Hbf; simpl in Hsf, Hbf; rewrite Hph in Hsf, Hbf.
    destruct e; destruct (pr_streaming (q_prepared q)) eqn:Hst; intros [= <- _];
      first [by apply Hsf|by apply Hbf|by eapply move_chunk|by eapply move_streamed|by eapply move_replied].
  - intros [= <- _]. by eapply move_closed.
  - intros [= <- _]. by eapply move_settled.
Qed.

(** ** What the client receives *)

(** The phases before the session with a device is open. *)
Definition dispatching (ph : Phase) : bool :=
  match ph with Starting | Selecting _ _ | Admitting _ _ _ | Opening _ _ _ | Pausing _ _ _ => true | _ => false end.

Section Output.
Variable p : PreparedChatRequest.
Abbreviation id := (cm_id (pr_catalog_model p)).

Definition named (c : Json) : Json := set_key "model" (JString id) c.
(** The events after the chunks, by phase. *)
Inductive tail_of : Phase -> list SseEvent -> Prop :=
| tail_dispatching ph : dispatching ph = true -> tail_of ph []
| tail_receiving a : tail_of (Receiving a) []
| tail_closing a ev : tail_of (Closing a ev) [ErrorEvent (stream_error ev)]
| tail_settling n t env pg : tail_of (Settling n t) [Data (final_chunk env id pg); DoneEvent]
| tail_complete env pg : tail_of (Finished Streamed) [Data (final_chunk env id pg); DoneEvent]
| tail_error e : tail_of (Finished Streamed) [ErrorEvent e; DoneEvent]
| tail_dropped l : tail_of (Finished Dropped) l.
(** The phases of a buffered request, which streams nothing. *)
Inductive buffered_phase : Phase -> string -> list Json -> Prop :=
| buffered_dispatching ph t cs : dispatching ph = true -> buffered_phase ph t cs
| buffered_receiving a t cs : buffered_phase (Receiving a) t cs
| buffered_failed e t cs : buffered_phase (Finished (Failed e)) t cs
| buffered_dropped t cs : buffered_phase (Finished Dropped) t cs
| buffered_replied env pg t cs :
    pg_text pg = t -> pg_tokens_out pg = Z.of_nat (length cs) ->
    pg_tool_calls pg = foldl (fun calls c => merge_chunk c calls) [] cs ->
    buffered_phase (Finished (Replied (build_non_stream_response env id pg))) t cs.
Definition text_of (cs : list Json) : string :=
  foldl (fun t c => t ++ default "" (extract_delta_content c))%string "" cs.

Record output_inv (cs : list Json) (q : Request) : Prop := {
  out_prepared : q_prepared q = p;
  out_tokens : pg_tokens_out (q_progress q) = Z.of_nat (length cs);
  out_first : match q_phase q with
              | Receiving a => at_got_first a = false -> cs = []
              | ph => dispatching ph = true -> cs = []
              end;
  out_stream : pr_streaming p = true ->
    exists t, pg_out (q_progress q) = (Data ∘ named <$> cs) ++ t /\ tail_of (q_phase q) t;
  out_buffered : pr_streaming p = false ->
    pg_out (q_progress q) = [] /\ pg_text (q_progress q) = text_of cs /\
    pg_tool_calls (q_progress q) = foldl (fun calls c => merge_chunk c calls) [] cs /\
    buffered_phase (q_phase q) (text_of cs) cs
}.

Lemma text_of_snoc cs c : text_of (cs ++ [c]) = (text_of cs ++ default "" (extract_delta_content c))%string.
Proof. unfold text_of. by rewrite foldl_app. Qed.

(** A step among the dispatching phases keeps what was sent: nothing. *)
Lemma output_dispatch cs q ph pg :
  output_inv cs q -> cs = [] -> pg_out pg = pg_out (q_progress q) -> pg_text pg = pg_text (q_progress q) ->
  pg_tokens_out pg = pg_tokens_out (q_progress q) -> pg_tool_calls pg = pg_tool_calls (q_progress q) ->
  (pr_streaming p = true -> pg_out (q_progress q) = []) -> (ph = Starting \/ dispatching ph = true \/ exists a, ph = Receiving a) ->
  output_inv cs (mkRequest (q_prepared q) pg ph).
Proof.
  intros [Hp Ht Hf Hs Hb] -> E1 E2 E3 E4 Hn Hph. split; simpl; rewrite ?E1, ?E2, ?E3, ?E4; try done.
  - by destruct ph.
  - intros Hst. exists []. split; [by rewrite Hn|]. destruct Hph as [->|[?|[a ->]]]; by constructor.
  - intros Hst. destruct (Hb Hst) as (? & ? & ? & _). split_and!; try done.
    destruct Hph as [->|[?|[a ->]]]; by constructor.
Qed.

Lemma output_error cs q e pg :
  output_inv cs q -> cs = [] -> pg_out pg = pg_out (q_progress q) -> pg_text pg = pg_text (q_progress q) ->
  pg_tokens_out pg = pg_tokens_out (q_progress q) -> pg_tool_calls pg = pg_tool_calls (q_progress q) ->
  (pr_streaming p = true -> pg_out (q_progress q) = []) ->
  output_inv cs (dispatch_error e (set_progress pg q)).
Proof.
  intros [Hp Ht Hf Hs Hb] -> E1 E2 E3 E4 Hn. unfold dispatch_error. simpl. rewrite Hp.
  destruct (pr_streaming p) eqn:Hst; (split; simpl; rewrite ?E1, ?E2, ?E3, ?E4, ?Hst; try done).
  - intros _. exists [ErrorEvent e; DoneEvent]. rewrite Hn by done. split; [done|constructor].
  - intros _. destruct (Hb eq_refl) as (? & ? & ? & _). split_and!; try done. apply buffered_failed.
Qed.

Lemma output_sent cs q a :
  output_inv cs q -> q_phase q = Receiving a -> pr_streaming p = true -> pg_out (q_progress q) = Data ∘ named <$> cs.
Proof.
  intros [_ _ _ Hs _] Hph Hst. destruct (Hs Hst) as (t & -> & Ht). rewrite Hph in Ht. inversion Ht; [done|].
  apply app_nil_r.
Qed.

Lemma output_chunk cs q a c :
  output_inv cs q -> q_phase q = Receiving a -> output_inv (cs ++ [c]) (got_chunk c a q).
Proof.
  intros Hi Hph. pose proof (output_sent cs q a Hi Hph) as Hs. destruct Hi as [Hp Ht _ _ Hb].
  unfold got_chunk, q_model_id, q_model. rewrite Hp. destruct (pr_streaming p) eqn:Hst; (split; simpl; rewrite ?Hst; try done).
  - rewrite Ht, length_app. simpl. lia.
  - intros _. exists []. rewrite Hs, fmap_app, app_nil_r by done. split; [done|apply tail_receiving].
  - rewrite Ht, length_app. simpl. lia.
  - intros _. destruct (Hb eq_refl) as (Ho & Htx & Htc & _). rewrite Ho, Htx, Htc, text_of_snoc, foldl_app.
    split_and!; [done..|apply buffered_receiving].
Qed.

Lemma output_retry cs q a pg :
  output_inv cs q -> q_phase q = Receiving a -> at_got_first a = false ->
  pg = q_progress q \/ pg = exclude (at_node a) (q_progress q) -> output_inv cs (set_phase Starting (set_progress pg q)).
Proof.
  intros Hi Hph Hg Hpg. pose proof (out_first _ _ Hi) as Hcs. rewrite Hph in Hcs. specialize (Hcs Hg). subst cs.
  pose proof (output_sent [] q a Hi Hph) as Hs.
  apply (output_dispatch [] q); try done; try (by destruct Hpg as [->| ->]). by left.
Qed.

Lemma output_end cs q l ph :
  output_inv cs q -> pr_streaming p = true ->
  (forall t, tail_of (q_phase q) t -> tail_of ph (t ++ l)) ->
  match ph with Closing _ _ | Settling _ _ | Finished _ => True | _ => False end ->
  output_inv cs (set_phase ph (set_progress (emit l (q_progress q)) q)).
Proof.
  intros [Hp Ht Hf Hs Hb] Hst Htl Hph. split; simpl; rewrite ?Hst; try done.
  - by destruct ph.
  - intros _. destruct (Hs Hst) as (t & -> & Htail). exists (t ++ l). rewrite app_assoc. auto.
Qed.

Lemma output_finish cs q o :
  output_inv cs q -> (pr_streaming p = true -> forall t, tail_of (q_phase q) t -> tail_of (Finished o) t) ->
  (pr_streaming p = false -> buffered_phase (Finished o) (text_of cs) cs) ->
  output_inv cs (set_phase (Finished o) q).
Proof.
  intros [Hp Ht Hf Hs Hb] Htl Hbp. split; simpl; try done.
  - intros Hst. destruct (Hs Hst) as (t & Ho & Htail). exists t. auto.
  - intros Hst. destruct (Hb Hst) as (? & ? & ? & _). split_and!; auto.
Qed.

Lemma output_step cs q inp q' :
  output_inv cs q -> move q inp q' -> output_inv (cs ++ option_list (chunk_of (q, inp))) q'.
Proof.
  intros Hi Hm. pose proof Hi as [Hp Ht Hf Hs Hb].
  assert (dispatching (q_phase q) = true -> cs = [] /\ (pr_streaming p = true -> pg_out (q_progress q) = [])) as Hd.
  { intros Hd. assert (cs = []) as -> by (revert Hf Hd; by destruct (q_phase q); auto). split; [done|]. intros Hst.
    destruct (Hs Hst) as (t & -> & Htl). by destruct Htl. }
  destruct Hm; try match goal with Hc : chunk_of _ = None |- _ => rewrite Hc end;
    try (rewrite app_nil_r);
    try match goal with Hph : q_phase q = _ |- _ => pose proof Hd as Hd'; rewrite Hph in Hd'; destruct (Hd' eq_refl) as [Hcs Hn] end;
    try (by apply output_error; auto); try (by apply (output_dispatch cs q); eauto).
  - by eapply output_chunk.
  - apply output_end; [done|by rewrite <- Hp| |done]. rewrite H1. intros l Hl. inversion Hl; [done|].
    unfold q_model_id, q_model. rewrite Hp. constructor.
  - apply output_finish; [done|rewrite <- Hp; congruence|]. intros Hst. destruct (Hb Hst) as (_ & Htx & Htc & _).
    unfold q_model_id, q_model. rewrite Hp. by constructor.
  - eapply output_retry; [done|done|done|]. destruct same; auto.
  - apply output_end; [done|by rewrite <- Hp| |done]. rewrite H1. intros l Hl. inversion Hl; [done|]. constructor.
  - apply output_finish; [done|rewrite <- Hp; congruence|]. intros _. apply buffered_failed.
  - destruct (pr_streaming p) eqn:Hst.
    + apply output_end; [done|done| |done]. rewrite H1. intros l Hl. inversion Hl; [done|]. simpl. constructor.
    + exfalso. destruct (Hb eq_refl) as (_ & _ & _ & Hbp). rewrite H1 in Hbp. inversion Hbp. done.
  - destruct (pr_streaming p) eqn:Hst.
    + apply output_finish; [done| |congruence]. intros _. rewrite H1. intros l Hl. inversion Hl; [done|]. constructor.
    + exfalso. destruct (Hb eq_refl) as (_ & _ & _ & Hbp). rewrite H1 in Hbp. inversion Hbp. done.
  - apply output_finish; [done|by constructor|]. intros _. apply buffered_dropped.
Qed.

Lemma output_run tr q : chat_run (new_request p) tr q -> output_inv (chunks tr) q.
Proof.
  intros Hr. remember (new_request p) as q0. induction Hr as [q|q0 tr q env inp s q' s' Hr IH Hw Hs]; subst.
  - split; try done.
    + intros _. exists []. split; [done|]. by apply tail_dispatching.
    + intros _. split_and!; try done. by apply buffered_dispatching.
  - rewrite chunks_snoc. eapply output_step; [by apply IH|]. by eapply step_moves.
Qed.

(** C16: What a streaming client receives.  In every run of a streaming request,
    however often it is retried, the stream is the chunks of the upstream in
    order, each once and with the requested model's name, and then by phase:
    nothing while the session is open; the error, then the error and [[DONE]]
    when the session failed or no device was found; the usage chunk and
    [[DONE]] when it completed.  While the request is dispatched or
    re-dispatched nothing has been sent. *)
Theorem stream_output (tr : list (Request * Input)) (q : Request) :
  pr_streaming p = true -> chat_run (new_request p) tr q ->
  (exists t, pg_out (q_progress q) = (Data ∘ named <$> chunks tr) ++ t /\ tail_of (q_phase q) t) /\
  (dispatching (q_phase q) = true -> pg_out (q_progress q) = []).
Proof.
  intros Hst Hr. apply output_run in Hr as [Hp Ht Hf Hs _]. destruct (Hs Hst) as (t & Ho & Htl). split; [by exists t|].
  intros Hd. assert (chunks tr = []) as E by (revert Hf Hd; by destruct (q_phase q); auto).
  rewrite E in Ho. rewrite Ho. by destruct Htl.
Qed.

(** What a buffered client receives.  A buffered request streams nothing;
    when it is answered, the answer is the requested model's, its text is the
    texts of all chunks in order, its tool calls are those of all chunks
    merged by index, and the completion tokens it reports are the number of
    chunks. *)
Theorem buffered_reply (tr : list (Request * Input)) (q : Request) (reply : Json) :
  pr_streaming p = false -> chat_run (new_request p) tr q -> q_phase q = Finished (Replied reply) ->
  pg_out (q_progress q) = [] /\
  get "model" reply = Some (JString id) /\
  (exists message, (get "choices" reply ≫= nth 0) ≫= get "message" = Some message /\
     get "content" message = Some (JString (text_of (chunks tr))) /\
     exists env, get "tool_calls" message =
       match foldl (fun calls c => merge_chunk c calls) [] (chunks tr) with
       | [] => None
       | calls => Some (JArray (materialize env calls))
       end) /\
  get "usage" reply ≫= get "completion_tokens" = Some (JNumber (Z.of_nat (length (chunks tr)))).
Proof.
  intros Hst Hr Hph. apply output_run in Hr as [_ _ _ _ Hb]. destruct (Hb Hst) as (Ho & _ & _ & Hbp).
  split; [done|]. rewrite Hph in Hbp. inversion Hbp as [? ? ? Hd| | | |env pg t cs Htx Htk Htc]; [done|]. subst.
  unfold build_non_stream_response. rewrite Htx, Htk, Htc. split; [done|]. split; [|done].
  set (calls := foldl (fun calls c => merge_chunk c calls) [] (chunks tr)).
  eexists. split; [done|]. split; [by destruct (materialize _ _)|]. exists env. by destruct calls as [|[]].
Qed.
End Output.

(** ** What is billed *)

Lemma step_bill env inp q s q' s' :
  request_step powf cfg env inp q s = Some (q', s') ->
  sh_db s' = match bill (q, inp) with
             | Some (n, t) => sh_db (settle env q n t (with_reg (sh_reg s') s))
             | None => sh_db s
             end.
Proof.
  assert (forall n t s, sh_reg (settle env q n t s) = sh_reg s) as Hsettle.
  { intros n t s0. unfold settle. destruct (pr_consumer _), (sh_db s0); try done. by destruct (settle_request _ _ _ _ _ _ _ _). }
  unfold request_step, bill. simpl.
  destruct (q_phase q) as [|cold dx|cold dx n|cold dx n|cold dx n|a|a ev|n rep|o];
    destruct inp as [|o'|e|]; try done; try (by intros [= _ <-]).
  - by destruct (select _ _ _ _ _ _) as [[|] r']; intros [= _ <-].
  - by destruct (admit_step _ _ _ _ _ _); intros [= _ <-].
  - destruct o'; [by destruct (relay_failed _ _ _ _ _ _ _); intros [= _ <-]..|by intros [= _ <-]].
  - unfold session_step. destruct (stream_failed _ _ _ _ _) as [qs rs], (buffer_failed _ _ _ _ _) as [qb rb].
    destruct e; destruct (pr_streaming (q_prepared q)); intros [= _ <-]; try done. by rewrite Hsettle.
  - intros [= _ <-]. rewrite Hsettle. by destruct s.
Qed.

(** The stream ended with its usage, or with an error. *)
Definition ended_well (q : Request) : Prop := exists l j, pg_out (q_progress q) = l ++ [Data j; DoneEvent].
Definition ended_badly (q : Request) : Prop := exists l e, pg_out (q_progress q) = l ++ [ErrorEvent e; DoneEvent].

Section Billing.
Variable p : PreparedChatRequest.

(** One session completed and is billed, to its node: a stream for what the node
    reports, or failing that, like any other answer, for a token per chunk. *)
Definition billed (tr : list (Request * Input)) : Prop :=
  exists n reported, completions tr = [(n, reported)] /\
    bills tr = [(n, let counted := Z.of_nat (length (chunks tr)) in
                    if pr_streaming p then default counted reported else counted)].
Definition unbilled (tr : list (Request * Input)) : Prop := bills tr = [] /\ completions tr = [].
Definition billing (tr : list (Request * Input)) (q : Request) : Prop :=
  match q_phase q with
  | Closing _ _ => unbilled tr /\ exists l e, pg_out (q_progress q) = l ++ [ErrorEvent e]
  | Settling n t => pr_streaming p = true /\ bills tr = [] /\ completions tr = [(n, t)] /\ ended_well q
  | Finished (Replied _) => billed tr
  | Finished Streamed => unbilled tr /\ ended_badly q \/ billed tr /\ ended_well q
  | Finished Dropped => bills tr = []
  | _ => unbilled tr
  end.

Lemma unbilled_snoc tr x : bill x = None -> completion x = None -> unbilled tr -> unbilled (tr ++ [x]).
Proof. intros E1 E2 [E3 E4]. split; [by rewrite bills_snoc, E1, E3|by rewrite completions_snoc, E2, E4]. Qed.

Lemma billing_error tr q e pg :
  bill (q, Tick) = None -> unbilled tr -> billing (tr ++ [(q, Tick)]) (dispatch_error e (set_progress pg q)).
Proof.
  intros E1 E2. unfold billing, dispatch_error.
  assert (unbilled (tr ++ [(q, Tick)])) by (apply unbilled_snoc; [done| |done]; unfold completion; simpl; by destruct (q_phase q)).
  destruct (pr_streaming _); simpl; [|done]. left. split; [done|]. by exists (pg_out pg), e.
Qed.

Lemma billing_dropped tr q :
  billing tr q -> (forall o, q_phase q <> Finished o) -> bills (tr ++ [(q, ClientGone)]) = [].
Proof.
  intros Hb Hf. rewrite bills_snoc.
  assert (bill (q, ClientGone) = None) as -> by (unfold bill; simpl; by destruct (q_phase q)).
  unfold billing in Hb. destruct (q_phase q) as [| | | | | | | |o]; try (by destruct Hb as [-> _]);
    [by destruct Hb as ((-> & _) & _)|by destruct Hb as (_ & -> & _)|by destruct (Hf o)].
Qed.

Lemma billing_step tr q inp q' :
  q_prepared q = p -> pg_tokens_out (q_progress q) = Z.of_nat (length (chunks tr)) ->
  billing tr q -> move q inp q' -> billing (tr ++ [(q, inp)]) q'.
Proof.
  intros Hp Ht Hb Hm.
  assert (forall i, completion (q, i) = None -> bill (q, i) = None -> dispatching (q_phase q) = true \/ (exists a, q_phase q = Receiving a) ->
    unbilled (tr ++ [(q, i)])) as Hnone.
  { intros i Hc Hi Hph. apply unbilled_snoc; [done|done|]. unfold billing in Hb.
    destruct (q_phase q); destruct Hph as [Hph|[a' Hph]]; try discriminate Hph; done. }
  assert (chunks (tr ++ [(q, Tick)]) = chunks tr) as Htick by (rewrite chunks_snoc; apply app_nil_r).
  destruct Hm;
    try match goal with Hph : q_phase q = _ |- _ => rewrite Hph in Hnone; unfold billing in Hb; rewrite Hph in Hb end;
    try (by apply Hnone; [unfold completion; simpl; match goal with Hph : q_phase q = _ |- _ => by rewrite Hph end
                         |unfold bill; simpl; match goal with Hph : q_phase q = _ |- _ => by rewrite Hph end|eauto]).
  - apply billing_error; [|done]. unfold bill. simpl. by rewrite H1.
  - rewrite <- (set_progress_same q) at 2. apply billing_error; [|done]. unfold bill. simpl. by rewrite H1.
  - destruct Hb as [Hb Hcs]. unfold billing. simpl. rewrite bills_snoc, completions_snoc, Hb, Hcs.
    unfold bill, completion. simpl. rewrite H1, H2. split_and!; [by rewrite <- Hp|done|done|]. by eexists _, _.
  - destruct Hb as [Hb Hcs]. exists (at_node a), t. rewrite bills_snoc, completions_snoc, chunks_snoc, Hb, Hcs.
    unfold bill, completion, chunk_of. simpl. rewrite H1, H2, app_nil_r, <- Hp, H2, Ht. done.
  - apply Hnone; [done|unfold bill; simpl; rewrite H1|eauto]. revert H5. unfold completion. simpl. rewrite H1. by destruct ev.
  - split; [|by eexists _, _]. apply Hnone; [done|unfold bill; simpl; by rewrite H1, H2; destruct ev|eauto].
  - apply Hnone; [done|unfold bill; simpl; rewrite H1|eauto]. revert H4. unfold completion. simpl. rewrite H1. by destruct ev.
  - destruct Hb as [Hb (l & e & Ho)]. left. split.
    + apply unbilled_snoc; [unfold bill; simpl; by rewrite H1|unfold completion; simpl; by rewrite H1|done].
    + exists l, e. simpl. by rewrite Ho, <- app_assoc.
  - destruct Hb as (Hst & Hb & Hcs & Hw). right. split; [|done]. exists n, t. rewrite Htick, bills_snoc, completions_snoc, Hb, Hcs.
    unfold bill, completion. simpl. rewrite H1, Hst, <- Ht. done.
  - unfold billing. simpl. by apply billing_dropped.
Qed.
End Billing.

(** C15: Who is billed for a request, and when.  A step changes the database
    only by settling what [bill] says: the cost of the tokens (never less than
    one of output), for the node that served, if the request has a consumer, the
    gateway a database, and the ledger accepts; its errors are dropped.  In every run of a
    request at most one session completes, and only that is billed, at most
    once, to its node: a stream for the tokens the node reports with the
    completion (not what was delivered), an answer in one piece, or a stream
    whose node reports none, for as many tokens as chunks were received.  A
    request that is answered in one piece has been billed when it is; a stream
    that ended with its usage chunk has been billed, one that ended with an
    error has not; and a request that failed, is under way or was dropped by
    its client has not been billed. *)
Theorem billed_once (p : PreparedChatRequest) (tr : list (Request * Input)) (q : Request) :
  chat_run (new_request p) tr q ->
  (forall env inp s q' s', request_step powf cfg env inp q s = Some (q', s') ->
     sh_db s' =
     match bill (q, inp), pr_consumer (q_prepared q), sh_db s with
     | Some (n, t), Some consumer, Some db =>
         let cost := cost_credits (reported_prompt_tokens (q_progress q)) (Z.max t 1)
           (prompt_price_usd (pr_catalog_model (q_prepared q))) (completion_price_usd (pr_catalog_model (q_prepared q))) in
         match settle_request (unix_secs (e_clk env)) consumer (Some n) (node_id <$> snapshot_devices (sh_reg s'))
                 cost (e_uuid env 0) (cm_id (pr_catalog_model (q_prepared q))) (p_db db) with
         | Ok ledger => Some (set_p_db ledger db)
         | Err _ => Some db
         end
     | _, _, _ => sh_db s
     end) /\
  (bills tr = [] \/ billed p tr) /\
  match q_phase q with
  | Finished (Replied _) => billed p tr
  | Finished Streamed => bills tr = [] /\ ended_badly q \/ billed p tr /\ ended_well q
  | _ => bills tr = []
  end.
Proof.
  intros Hr. split.
  { intros env inp s q' s' Hs. apply step_bill in Hs as ->. destruct (bill (q, inp)) as [[n t]|]; [|done].
    unfold settle, request_cost. simpl. destruct (pr_consumer _) as [c|]; [|done]. destruct (sh_db s) as [db|] eqn:E; simpl; [|done].
    by destruct (settle_request _ _ _ _ _ _ _ _). }
  assert (billing p tr q) as Hb.
  { remember (new_request p) as q0. induction Hr as [q|q0 tr q env inp s q' s' Hr IH Hw Hs]; subst; [done|].
    pose proof (output_run p tr q Hr) as [Hp Ht _ _ _].
    apply billing_step; [done|done|by apply IH|]. by eapply step_moves. }
  unfold billing, unbilled in Hb. destruct (q_phase q) as [| | | | | | | |[| | |]]; tauto.
Qed.

(** ** Requests end *)

(** The devices the dispatch has not given up. *)
Definition fresh_nodes (excl : list string) : nat := length (List.filter (fun n => bool_decide (n ∉ excl)) U).
Definition grace_left (dx : Dispatch) : nat := Z.to_nat (max_dispatch_grace_retries rel - dx_grace_failures dx).
Definition tries_left (dx : Dispatch) : nat := fresh_nodes (dx_excluded dx) + grace_left dx.
(** More than the steps of one attempt. *)
Definition attempt_steps : nat := 4 * (length U + Z.to_nat (max_dispatch_grace_retries rel)) + 8.
Definition attempts_left (q : Request) : nat := Z.to_nat (max_retries rel + 1 - pg_tried (q_progress q)).
Definition phase_rank (ph : Phase) : nat :=
  match ph with
  | Starting | Finished _ => 0
  | Selecting _ dx => 4 * tries_left dx + 6
  | Admitting _ dx _ => 4 * tries_left dx + 5
  | Opening _ dx _ => 4 * tries_left dx + 4
  | Pausing _ dx _ => 4 * tries_left dx + 7
  | Receiving _ => 2
  | Closing _ _ | Settling _ _ => 1
  end.
Definition rank (q : Request) : nat :=
  match q_phase q with Finished _ => 0 | ph => attempts_left q * attempt_steps + phase_rank ph end.
Definition on_course (q : Request) : Prop :=
  match q_phase q with
  | Starting => pg_tried (q_progress q) <= max_retries rel
  | Admitting _ dx n | Opening _ dx n => n ∈ U /\ n ∉ dx_excluded dx
  | _ => True
  end.

Lemma filter_length_mono {A} (P Q : A -> bool) (l : list A) :
  (forall x, Q x = true -> P x = true) -> (length (List.filter Q l) <= length (List.filter P l))%nat.
Proof.
  intros HQ. induction l as [|x l IH]; [done|]. simpl. destruct (Q x) eqn:E; [rewrite (HQ x E); simpl; lia|].
  destruct (P x); simpl; lia.
Qed.
Lemma fresh_snoc excl n : n ∈ U -> n ∉ excl -> (fresh_nodes (excl ++ [n]) < fresh_nodes excl)%nat.
Proof.
  intros [l1 [l2 HU]]%list_elem_of_split Hn. unfold fresh_nodes. rewrite HU, !List.filter_app, !length_app. simpl.
  rewrite (bool_decide_eq_false_2 (n ∉ excl ++ [n])) by (intros Hx; apply Hx, elem_of_app; right; by left).
  rewrite (bool_decide_eq_true_2 (n ∉ excl)) by done. simpl.
  assert (forall l, (length (List.filter (fun x => bool_decide (x ∉ excl ++ [n])) l) <=
                     length (List.filter (fun x => bool_decide (x ∉ excl)) l))%nat) as Hm.
  { intros l. apply filter_length_mono. intros x. rewrite !bool_decide_eq_true, elem_of_app. tauto. }
  pose proof (Hm l1). pose proof (Hm l2). lia.
Qed.
Lemma fresh_le excl : (fresh_nodes excl <= length U)%nat.
Proof. apply List.filter_length_le. Qed.

Lemma rank_unfinished q : match q_phase q with Finished _ => False | _ => True end ->
  rank q = (attempts_left q * attempt_steps + phase_rank (q_phase q))%nat.
Proof. unfold rank. by destruct (q_phase q). Qed.
Lemma rank_step q ph pg :
  pg_tried pg = pg_tried (q_progress q) -> match q_phase q with Finished _ => False | _ => True end ->
  (phase_rank ph < phase_rank (q_phase q))%nat ->
  (rank (set_phase ph (set_progress pg q)) < rank q)%nat.
Proof.
  intros Hp Hf Hlt. rewrite (rank_unfinished q Hf). unfold rank.
  assert (attempts_left (set_phase ph (set_progress pg q)) = attempts_left q) as -> by (unfold attempts_left; simpl; by rewrite Hp).
  change (q_phase (set_phase ph (set_progress pg q))) with ph. set (m := (attempts_left q * attempt_steps)%nat).
  destruct ph; lia.
Qed.
Lemma rank_here q ph :
  match q_phase q with Finished _ => False | _ => True end -> (phase_rank ph < phase_rank (q_phase q))%nat ->
  (rank (set_phase ph q) < rank q)%nat.
Proof. intros Hf Hlt. pose proof (rank_step q ph (q_progress q) eq_refl Hf Hlt) as Hx. by rewrite set_progress_same in Hx. Qed.

Lemma rank_pos q : on_course q -> match q_phase q with Finished _ => False | _ => True end -> (0 < rank q)%nat.
Proof.
  intros Hc Hf. rewrite (rank_unfinished q Hf). unfold on_course in Hc.
  destruct (q_phase q); simpl in *; try lia. unfold attempts_left, attempt_steps. nia.
Qed.
Lemma rank_finish q q' o :
  on_course q -> match q_phase q with Finished _ => False | _ => True end -> q_phase q' = Finished o ->
  on_course q' /\ (rank q' < rank q)%nat.
Proof. intros Hc Hf Hq. pose proof (rank_pos q Hc Hf). unfold on_course, rank. rewrite Hq. by split. Qed.
Lemma error_finishes e q : exists o, q_phase (dispatch_error e q) = Finished o.
Proof. unfold dispatch_error. destruct (pr_streaming _); by eexists. Qed.

Lemma tries_excluded n dx dx' :
  n ∈ U -> n ∉ dx_excluded dx -> dx_excluded dx' = dx_excluded dx ++ [n] ->
  dx_grace_failures dx' = dx_grace_failures dx -> (tries_left dx' < tries_left dx)%nat.
Proof.
  intros HU Hn E1 E2. unfold tries_left, grace_left. rewrite E1, E2. pose proof (fresh_snoc _ n HU Hn). lia.
Qed.
Lemma tries_graced m dx :
  dx_grace_failures dx < max_dispatch_grace_retries rel -> (tries_left (graced m dx) < tries_left dx)%nat.
Proof. intros Hg. unfold tries_left, grace_left. simpl. lia. Qed.

Lemma rank_start q cold :
  q_phase q = Starting -> on_course q ->
  (rank (set_phase (Selecting cold (mkDispatch (pg_excluded (q_progress q)) None false 0 cold))
           (set_progress (try_again (q_progress q)) q)) < rank q)%nat.
Proof.
  intros Hph Hc. unfold on_course in Hc. rewrite Hph in Hc. unfold rank. rewrite Hph. unfold attempts_left. simpl.
  replace (Z.to_nat (max_retries rel + 1 - pg_tried (q_progress q)))
    with (S (Z.to_nat (max_retries rel + 1 - (pg_tried (q_progress q) + 1)))) by lia.
  unfold tries_left, grace_left, attempt_steps. simpl. pose proof (fresh_le (pg_excluded (q_progress q))). nia.
Qed.

(** Every move but the receipt of a chunk brings the request closer to its end. *)
Lemma move_progress q inp q' :
  move q inp q' -> on_course q ->
  on_course q' /\ (if is_some (chunk_of (q, inp)) then rank q' = rank q else rank q' < rank q)%nat.
Proof.
  intros Hm Hc.
  destruct Hm as [cold H1|e H1|cold dx n H1 Hn HU|cold dx e H1|cold dx n H1|cold dx n H1|cold dx n a H1 Hn Hg
    |cold dx n o m H1 Hg|cold dx n o m H1|cold dx n H1|a c H1|a t env H1 Hs|a t env H1 Hs|a ev same H1 Hg Ht Hk Hb
    |a ev H1 Hs Hk Hb|a ev e H1 Hs Hk Hb|a ev H1|n t H1|H1]; rewrite ?Hk; cbn [is_some chunk_of snd];
    try (pose proof Hc as Hc'; unfold on_course in Hc'; rewrite H1 in Hc');
    try (by eapply rank_finish; [done|by rewrite H1|]);
    try (destruct (error_finishes e q) as [o Ho]; by eapply rank_finish; [done|by rewrite H1|]).
  - split; [done|by apply rank_start].
  - destruct (error_finishes e (set_progress (try_again (q_progress q)) q)) as [o Ho].
    by eapply rank_finish; [done|by rewrite H1|].
  - split; [done|]. apply rank_here; rewrite H1; [done|simpl; lia].
  - split; [done|]. apply rank_here; rewrite H1; [done|simpl; lia].
  - split; [done|]. apply rank_here; rewrite H1; [done|]. destruct Hc' as [HU Hn].
    pose proof (tries_excluded n dx (refused n dx) HU Hn eq_refl eq_refl). cbn [phase_rank]. lia.
  - split; [done|]. apply rank_here; rewrite H1; [done|simpl; lia].
  - split; [done|]. apply rank_here; rewrite H1; [done|]. pose proof (tries_graced m dx Hg). cbn [phase_rank]. lia.
  - split; [done|]. apply rank_here; rewrite H1; [done|]. destruct Hc' as [HU Hn].
    pose proof (tries_excluded n dx (gave_up_on n m dx) HU Hn eq_refl eq_refl). cbn [phase_rank]. lia.
  - split; [done|]. apply rank_here; rewrite H1; [done|simpl; lia].
  - split; [done|]. unfold rank, attempts_left, got_chunk. simpl. rewrite H1. by destruct (pr_streaming _).
  - split; [done|]. apply rank_step; [done|by rewrite H1|rewrite H1; simpl; lia].
  - split; [simpl; by destruct same|]. apply rank_step; [by destruct same|by rewrite H1|rewrite H1; simpl; lia].
  - split; [done|]. apply rank_step; [done|by rewrite H1|rewrite H1; simpl; lia].
  - eapply rank_finish; [done| |done]. destruct (q_phase q) as [| | | | | | | |o]; try done. by destruct (H1 o).
Qed.

(** C17: Every request ends.  If the devices that ever register are the ones in
    [U], a request takes at most
    [(max_retries + 1) * (4 * (|U| + grace retries) + 8)] steps besides the
    chunks it receives, whatever the devices, the relay and the other requests
    do; and as long as it is not finished, a step other than receiving a chunk
    or losing its client is possible. *)
Theorem chat_terminates (p : PreparedChatRequest) (tr : list (Request * Input)) (q : Request) :
  0 <= max_retries rel -> chat_run (new_request p) tr q ->
  (length (List.filter (fun x => negb (is_some (chunk_of x))) tr) <=
     Z.to_nat (max_retries rel + 1) * (4 * (length U + Z.to_nat (max_dispatch_grace_retries rel)) + 8))%nat /\
  ((forall o, q_phase q <> Finished o) ->
   forall env s, exists inp q' s', inp <> ClientGone /\ chunk_of (q, inp) = None /\
     request_step powf cfg env inp q s = Some (q', s')).
Proof.
  intros Hm Hr. split.
  - assert (on_course q /\ (length (List.filter (fun x => negb (is_some (chunk_of x))) tr) + rank q <= rank (new_request p))%nat)
      as [_ Hle].
    { remember (new_request p) as q0. induction Hr as [q|q0 tr q env inp s q' s' Hr IH Hw Hs]; subst.
      - split; [exact Hm|done].
      - destruct (IH eq_refl) as [Hc Hle]. apply step_moves, move_progress in Hs as [Hc' Hlt]; [|done|done].
        split; [done|]. rewrite List.filter_app, length_app. simpl. destruct (is_some _); simpl; lia. }
    assert (rank (new_request p) = (Z.to_nat (max_retries rel + 1) * attempt_steps)%nat) as E.
    { unfold rank, attempts_left. cbn [q_phase new_request q_progress no_progress pg_tried phase_rank].
      by rewrite Z.sub_0_r, Nat.add_0_r. }
    rewrite E in Hle. unfold attempt_steps in Hle. lia.
  - intros Hf env s. unfold request_step.
    destruct (q_phase q) as [|cold dx|cold dx n|cold dx n|cold dx n|a|a ev|n rep|o] eqn:Hph.
    + by exists Tick; eexists _, _.
    + exists Tick. destruct (select _ _ _ _ _ _). by eexists _, _.
    + exists Tick. destruct (admit_step _ _ _ _ _ _). by eexists _, _.
    + exists (Relay HandedOff). by eexists _, _.
    + exists Tick. by eexists _, _.
    + exists (Received TimedOut). destruct (session_step _ _ _ _ _) as [q' s'] eqn:E. by exists q', s'.
    + exists Tick. by eexists _, _.
    + exists Tick. by eexists _, _.
    + by destruct (Hf o).
Qed.
End Runs.

(** ** Concrete runs *)

Definition toy_world : Shared := mkShared toy_one_device None.
Definition toy_chat_run : Request -> list (Request * Input) -> Request -> Prop :=
  @chat_run toy_crates toy_wire toy_powf toy_chat_config toy_reliability ["node"].
Fixpoint steps (inputs : list Input) (tr : list (Request * Input)) (q : Request)
    : option (list (Request * Input) * Request) :=
  match inputs with
  | [] => Some (tr, q)
  | i :: inputs =>
      match @request_step toy_crates toy_wire toy_powf toy_chat_config (toy_env 2) i q toy_world with
      | Some (q', _) => steps inputs (tr ++ [(q, i)]) q'
      | None => None
      end
  end.

Lemma toy_world_ok : @world toy_reliability ["node"] toy_world.
Proof.
  split; [done|]. intros d Hd. assert (node_id <$> snapshot_devices (sh_reg toy_world) = ["node"]) as E by (vm_compute; done).
  rewrite <- E. by apply list_elem_of_fmap_2.
Qed.
Lemma steps_run inputs q0 tr q tr' q' :
  toy_chat_run q0 tr q -> steps inputs tr q = Some (tr', q') -> toy_chat_run q0 tr' q'.
Proof.
  revert tr q. induction inputs as [|i inputs IH]; intros tr q Hr; simpl; [by intros [= <- <-]|].
  destruct (request_step _ _ _ _ _ _) as [[q1 s1]|] eqn:E; [|done]. apply IH.
  eapply run_snoc; [exact Hr|apply toy_world_ok|exact E].
Qed.

Definition answered : list Input :=
  dispatched ++ [Received (Chunk (toy_chunk "hel")); Received (Chunk (toy_chunk "lo")); Received (Complete (Some 2))].
(** The end of a run, given its inputs. *)
Definition toy_end (stream : bool) (inputs : list Input) : list (Request * Input) * Request :=
  default ([], new_request (toy_prepared 100 stream)) (steps inputs [] (new_request (toy_prepared 100 stream))).
Lemma toy_end_run stream inputs :
  is_some (steps inputs [] (new_request (toy_prepared 100 stream))) = true ->
  toy_chat_run (new_request (toy_prepared 100 stream)) (toy_end stream inputs).1 (toy_end stream inputs).2.
Proof.
  unfold toy_end. destruct (steps _ _ _) as [[tr q]|] eqn:E; [intros _|done].
  eapply steps_run; [apply run_nil|exact E].
Qed.

Lemma stream_output_witness :
  let q := (toy_end true (answered ++ [Tick])).2 in
  q_phase q = Finished Streamed /\
  exists t, pg_out (q_progress q) = [Data (named (toy_prepared 100 true) (toy_chunk "hel"));
                                     Data (named (toy_prepared 100 true) (toy_chunk "lo"))] ++ t.
Proof.
  split; [vm_compute; reflexivity|].
  destruct (@stream_output toy_crates toy_wire toy_powf toy_chat_config toy_reliability ["node"] (toy_prepared 100 true)
    (toy_end true (answered ++ [Tick])).1 (toy_end true (answered ++ [Tick])).2 eq_refl) as [(t & E & _) _].
  - apply toy_end_run. vm_compute. reflexivity.
  - exists t. rewrite E. f_equal.
Defined.

Lemma buffered_reply_witness :
  exists reply, q_phase (toy_end false answered).2 = Finished (Replied reply) /\
    get "usage" reply ≫= get "completion_tokens" = Some (JNumber 2).
Proof.
  eexists. split; [vm_compute; reflexivity|].
  apply (@buffered_reply toy_crates toy_wire toy_powf toy_chat_config toy_reliability ["node"] (toy_prepared 100 false)
    (toy_end false answered).1 (toy_end false answered).2 _ eq_refl).
  - apply toy_end_run. vm_compute. reflexivity.
  - vm_compute. reflexivity.
Defined.

(** The node delivers two chunks and reports nine tokens, and the books are
    there when the stream settles. *)
Definition overreported : list Input :=
  dispatched ++ [Received (Chunk (toy_chunk "hel")); Received (Chunk (toy_chunk "lo")); Received (Complete (Some 9))].
Definition toy_shop : Shared := mkShared toy_one_device (Some (mkPinDb demo ∅ ∅ ∅ ∅ ∅ ∅)).
Definition toy_paid : option (Request * Shared) :=
  @request_step toy_crates toy_wire toy_powf toy_chat_config (toy_env 2) Tick (toy_end true overreported).2 toy_shop.

Lemma billed_once_witness :
  billed (toy_prepared 100 true) (toy_end true (overreported ++ [Tick])).1 /\
  bills (toy_end true (overreported ++ [Tick])).1 = [("node", 9)] /\
  exists q s db, toy_paid = Some (q, s) /\ sh_db s = Some db /\ balance_of "alice" (p_db db) < balance_of "alice" demo.
Proof.
  destruct (@billed_once toy_crates toy_wire toy_powf toy_chat_config toy_reliability ["node"] (toy_prepared 100 true)
    (toy_end true (overreported ++ [Tick])).1 (toy_end true (overreported ++ [Tick])).2) as (_ & Hb & _).
  { apply toy_end_run. vm_compute. reflexivity. }
  split; [destruct Hb as [Hb|Hb]; [vm_compute in Hb; discriminate Hb|exact Hb]|].
  split; [vm_compute; reflexivity|].
  destruct (@billed_once toy_crates toy_wire toy_powf toy_chat_config toy_reliability ["node"] (toy_prepared 100 true)
    (toy_end true overreported).1 (toy_end true overreported).2) as (Hs & _).
  { apply toy_end_run. vm_compute. reflexivity. }
  destruct toy_paid as [[q s]|] eqn:E; [|vm_compute in E; discriminate E].
  pose proof (Hs _ _ _ _ _ E) as Hd. vm_compute in E. injection E as <- <-.
  eexists _, _, _. split; [reflexivity|]. split; [rewrite Hd; vm_compute; reflexivity|]. vm_compute. reflexivity.
Defined.

Lemma chat_terminates_witness :
  (length (List.filter (fun x => negb (is_some (chunk_of x))) (toy_end true (answered ++ [Tick])).1) <= 504)%nat.
Proof.
  assert (Z.to_nat (max_retries toy_reliability + 1) *
          (4 * (length ["node"] + Z.to_nat (max_dispatch_grace_retries toy_reliability)) + 8) = 504)%nat as E
    by (vm_compute; reflexivity).
  destruct (@chat_terminates toy_crates toy_wire toy_powf toy_chat_config toy_reliability ["node"] (toy_prepared 100 true)
    (toy_end true (answered ++ [Tick])).1 (toy_end true (answered ++ [Tick])).2) as [Hle _].
  - vm_compute. discriminate.
  - apply toy_end_run. vm_compute. reflexivity.
  - rewrite E in Hle. exact Hle.
Defined.

(** A client that has read the whole stream and hangs up at [[DONE]] does not
    pay: the settlement comes after the last event. *)
Theorem hang_up_after_done :
  let q := (toy_end true (answered ++ [ClientGone])).2 in
  q_phase q = Finished Dropped /\ last (pg_out (q_progress q)) = Some DoneEvent /\
  bills (toy_end true (answered ++ [ClientGone])).1 = [].
Proof. vm_compute. done. Qed.

(** A retry of a stream quarantines the device after a full queue, and though
    it is the only supplier; a buffered request leaves it alone after a full
    queue. *)
Theorem queue_full_quarantines :
  let full := Received (SessionError "busy" (Some "queuefull")) in
  let after stream :=
    (fun x => (q_phase x.1, quarantined_until <$> snapshot_devices (sh_reg x.2))) <$>
    run_request 2 (dispatched ++ [full]) (new_request (toy_prepared 100 stream)) toy_world in
  after true = Some (Starting, [Some (from_secs 36)]) /\ after false = Some (Starting, [None]).
Proof. vm_compute. done. Qed.
