(* ===== verification/ChatBudget.v ===== *)
(** * What a prepared chat request promises

    The types of a prepared request, the gates it passed, the choice of a
    concrete model for a virtual one, and the cascade over models. *)

From S2P Require Import Prelude Db RustStr Merkle Fixtures F64 Wallet Settlement Accounts ApiKeys Registry RegistryFacts Scheduler SchedulerFacts.
From S2P Require Import Pins Auth PinWire PinWireFacts Catalog ChatPrepare Chat ChatFixtures ChatDispatch.
From stdpp Require Import sorting.

Open Scope string_scope.
Open Scope list_scope.
Open Scope Z_scope.

(** ** Rewriting a field of the body *)

Lemma field_insert k v o : field k (insert_key k v o) = Some v.
Proof.
  unfold field. induction o as [|[k' w] o IH]; simpl; [by rewrite String.eqb_refl|].
  destruct (String.eqb k' k) eqn:E; simpl; by rewrite E.
Qed.
Lemma field_insert_ne k k' v o : String.eqb k k' = false -> field k' (insert_key k v o) = field k' o.
Proof.
  unfold field. intros Hne. induction o as [|[a w] o IH]; simpl; [by rewrite Hne|].
  destruct (String.eqb a k) eqn:E; simpl.
  - apply String.eqb_eq in E as ->. by rewrite Hne.
  - destruct (String.eqb a k'); [done|]. exact IH.
Qed.

Lemma request_of_max_tokens n req parsed :
  0 <= n <= u32_max -> request_of req = Some parsed ->
  request_of (set_key "max_tokens" (JNumber n) req) = Some (with_max_tokens n parsed).
Proof.
  intros Hn. destruct req as [| | | | |o]; try done. unfold request_of, set_key, opt_field, defaulted, required.
  rewrite field_insert, !(field_insert_ne "max_tokens") by done.
  assert (as_option as_u32 (JNumber n) = Some (Some n)) as ->.
  { simpl. destruct (Z.leb_spec 0 n), (Z.ltb_spec n (2 ^ 32)); simpl; unfold u32_max in *; try lia. done. }
  intros Hr. repeat (apply bind_Some in Hr as (? & E & Hr); rewrite ?E; simpl; clear E).
  injection Hr as <-. done.
Qed.

Lemma request_typed req parsed n : request_of req = Some parsed -> cr_max_tokens parsed = Some n -> 0 <= n <= u32_max.
Proof.
  destruct req as [| | | | |o]; try done. unfold request_of. intros Hr.
  do 4 (apply bind_Some in Hr as (? & ? & Hr)). apply bind_Some in Hr as (mt & Hm & Hr).
  repeat (apply bind_Some in Hr as (? & ? & Hr)). injection Hr as <-. simpl. intros ->.
  unfold opt_field, defaulted in Hm. destruct (field "max_tokens" o) as [[| |z| | |]|]; try done.
  simpl in Hm. destruct (_ && _) eqn:E; [|done]. injection Hm as <-. unfold u32_max. lia.
Qed.

Lemma u32_wrap_range z : 0 <= u32_wrap z <= u32_max.
Proof. unfold u32_wrap, u32_max. pose proof (Z.mod_pos_bound z (2 ^ 32)). lia. Qed.

(** ** The clamp *)

Lemma cost_credits_pos a b c d : 1 <= cost_credits a b c d.
Proof. unfold cost_credits. lia. Qed.

Section Clamp.
Context `{WireCrates}.

Lemma compute_clamp_spec m req budget :
  match compute_clamp m req budget with
  | Ok d => 1 <= effective_max d <= client_max d /\ client_max d <= Z.max (cm_max_output_tokens m) 1 /\
      (forall n, cr_max_tokens req = Some n -> client_max d <= Z.max n 1) /\
      (clamped d = true <-> effective_max d < client_max d) /\
      1 <= budget /\
      Z.min i64_max (cost_credits (prompt_tokens_estimate req) 0 (prompt_price_usd m) (completion_price_usd m) +
        cost_credits 0 1 (prompt_price_usd m) (completion_price_usd m)) <= budget
  | Err needed => budget < needed
  end.
Proof.
  unfold compute_clamp.
  pose proof (cost_credits_pos (prompt_tokens_estimate req) 0 (prompt_price_usd m) (completion_price_usd m)) as H1.
  pose proof (cost_credits_pos 0 1 (prompt_price_usd m) (completion_price_usd m)) as H2.
  set (a := cost_credits _ 0 _ _) in *. set (b := cost_credits 0 1 _ _) in *.
  destruct (Z.ltb_spec budget (Z.min i64_max (a + b))); cbn [negb]; [done|]. cbn [effective_max client_max clamped].
  set (aff := affordable_out_tokens _ _). rewrite Z.ltb_lt. unfold i64_max in *.
  split_and!; try lia. destruct (cr_max_tokens req); simpl; [intros ? [= <-]; lia|done].
Qed.
End Clamp.

(** ** The gates *)

Lemma ok_or_Ok {E A} (e : E) (o : option A) x : ok_or e o = Ok x -> o = Some x.
Proof. by destruct o; intros [= ->]. Qed.

Section Prepared.
Context `{WireCrates} (clk : Clock) (cfg : ChatConfig) (r : Registry) (db : option PinDb).
Context (headers : ChatHeaders) (who : AuthPrincipal) (req : Json) (excluded : list string) (invalid : string).

Definition floors : Z * Z := (small (per_model_floor (cc_scheduler cfg)), large (per_model_floor (cc_scheduler cfg))).
Definition prepare : result GatewayError PreparedChatRequest :=
  prepare_chat_request_excluding clk cfg r db headers who req excluded invalid.

(** How a successful preparation went. *)
Inductive prepared_by (p : PreparedChatRequest) : Prop :=
| prepared_by_intro parsed requested named m fallback req' parsed' :
    request_of req = Some parsed -> cr_model parsed = Some requested ->
    resolve_requested_model clk cfg r requested = Some named ->
    resolve_virtual clk cfg r headers parsed excluded named = Ok (m, fallback) ->
    floor_of floors m <= Z.of_nat (loaded_count clk (cm_id m) r) ->
    (match consumer_principal who, db with
     | Some c, Some db =>
         exists d, compute_clamp m parsed (effective_budget c (p_db db)) = Ok d /\
           req' = set_key "max_tokens" (JNumber (effective_max d)) req /\ parsed' = with_max_tokens (effective_max d) parsed
     | _, _ => req' = req /\ parsed' = parsed
     end) ->
    p = mkPrepared m req' (consumer_principal who) (estimate_required_context parsed') (estimate_prompt_tokens parsed')
          (preferred_linked_node_ids headers who db) (default false (cr_stream parsed')) fallback (cm_is_virtual named)
          (apmhelp_lane_request cfg who db) ->
    prepared_by p.

Lemma prepare_inv p : prepare = Ok p -> prepared_by p.
Proof.
  unfold prepare, prepare_chat_request_excluding.
  destruct (request_of req) as [parsed|] eqn:E1; [|done]. cbn [ok_or].
  destruct (cr_model parsed) as [requested|] eqn:E2; [|done]. cbn [ok_or].
  destruct (resolve_requested_model clk cfg r requested) as [named|] eqn:E3; [|done]. cbn [ok_or].
  destruct (resolve_virtual _ _ _ _ _ _ _) as [[m fallback]|] eqn:E4; [|done].
  destruct (Z.ltb_spec (Z.of_nat (loaded_count clk (cm_id m) r))
    (floor_of (small (per_model_floor (cc_scheduler cfg)), large (per_model_floor (cc_scheduler cfg))) m));
    cbn [negb]; [done|].
  pose proof (prepared_by_intro p parsed requested named m fallback) as Hi.
  destruct (consumer_principal who) as [c|], db as [d|]; try (intros [= <-]; by eapply Hi).
  destruct (compute_clamp _ _ _) as [dec|] eqn:Ec; [|done]. intros [= <-]. eapply Hi; eauto.
Qed.

Definition catalog_typed : Prop := forall m, m ∈ cc_catalog cfg -> 0 <= cm_max_output_tokens m <= u32_max.

Lemma auto_spec cat ctx prof params count fl excl m :
  resolve_auto cat ctx prof params count fl excl = Some m ->
  exists pref, m ∈ build_candidates cat ctx prof params count fl excl pref.
Proof.
  unfold resolve_auto. set (cands := match prof with Generic => _ | AgentHarness => _ end). intros Hh.
  assert (m ∈ cands) as Hm.
  { rewrite <- (merge_sort_Permutation auto_before cands). destruct (merge_sort auto_before cands); [done|].
    injection Hh as ->. by left. }
  subst cands. destruct prof; [by exists true|]. destruct (build_candidates _ _ _ _ _ _ _ true) eqn:E; [by exists false|].
  exists true. by rewrite E.
Qed.

(** What a model chosen for a virtual one satisfies. *)
Record chosen (ctx : Z) (m : CatalogModel) : Prop := {
  chosen_catalog : m ∈ cc_catalog cfg;
  chosen_concrete : cm_is_virtual m = false;
  chosen_new : cm_id m ∉ excluded ++ HIDDEN_MODEL_IDS;
  chosen_context : ctx <= cm_context_length m;
  chosen_supply : floor_of floors m <= loaded_supply clk r (cm_id m) ctx
}.

Lemma candidate_chosen ctx prof params pref m :
  m ∈ build_candidates (cc_catalog cfg) ctx prof params (loaded_supply clk r) floors (excluded ++ HIDDEN_MODEL_IDS) pref ->
  chosen ctx m /\ supports_all_parameters params m = true.
Proof.
  unfold build_candidates, auto_candidate. intros [Hin Hc]%filter_elem.
  apply andb_true_iff in Hc as [Hc Hfl]. apply andb_true_iff in Hc as [Hc _]. apply andb_true_iff in Hc as [Hc Hp].
  apply andb_true_iff in Hc as [Hc Hctx]. apply andb_true_iff in Hc as [Hv Hex].
  apply negb_true_iff in Hv, Hex. split; [|done]. split; try done; try (by apply Z.leb_le).
  intros Hm. apply not_true_iff_false in Hex. apply Hex, existsb_exists. exists (cm_id m).
  split; [by apply list_elem_of_In|by apply bool_decide_eq_true].
Qed.

Lemma resolve_virtual_spec parsed named m fallback :
  resolve_virtual clk cfg r headers parsed excluded named = Ok (m, fallback) ->
  if cm_is_virtual named
  then chosen (estimate_required_context parsed) m /\
       (fallback = false -> supports_all_parameters (required_auto_supported_parameters parsed) m = true)
  else m = named /\ fallback = false.
Proof.
  unfold resolve_virtual. destruct (cm_is_virtual named); cbn [negb]; [|by intros [= <- <-]].
  fold floors. destruct (resolve_auto _ _ _ _ _ _ _) as [m'|] eqn:E1.
  - intros [= <- <-]. apply auto_spec in E1 as [pref Hc]. by apply candidate_chosen in Hc as [? ?].
  - destruct (required_auto_supported_parameters parsed) as [|x xs]; [done|].
    destruct (resolve_auto _ _ _ [] _ _ _) as [m'|] eqn:E2; [|done]. intros [= <- <-].
    apply auto_spec in E2 as [pref Hc]. by apply candidate_chosen in Hc as [? _].
Qed.

Lemma find_elem {A} (P : A -> bool) l x : List.find P l = Some x -> x ∈ l /\ P x = true.
Proof. intros Hf. apply List.find_some in Hf as [Hi Hp]. split; [by apply list_elem_of_In|done]. Qed.

Lemma requested_spec requested m :
  resolve_requested_model clk cfg r requested = Some m ->
  is_hidden_model_id (cm_id m) = false /\
  (m ∈ cc_catalog cfg /\ matches requested m = true \/ cm_is_virtual m = false /\ cm_id m = requested /\ 0 <= cm_max_output_tokens m <= u32_max).
Proof.
  unfold resolve_requested_model. destruct (List.find _ _) as [m'|] eqn:Hf.
  - destruct (is_hidden_model_id (cm_id m')) eqn:Hh; [done|]. intros [= <-]. split; [done|]. left. by apply find_elem.
  - destruct (is_hidden_model_id requested) eqn:Hh; [done|]. set (l := List.filter _ _). destruct l; [done|].
    intros [= <-]. split; [done|]. right. split_and!; try done;
    unfold synthesize_live_model, u32_clamp, LIVE_MODEL_DEFAULT_MAX_OUTPUT_TOKENS, u32_max; simpl; lia.
Qed.

(** A prepared request is well typed.  If the catalog's output limits are
    [u32], the body a preparation hands on still reads as a request, with the
    [max_tokens] the budget leaves when the caller pays; the context claim and
    the prompt estimate are those of that body and fit [u32]. *)
Theorem prepared_typed (p : PreparedChatRequest) :
  catalog_typed -> prepare = Ok p ->
  exists parsed, request_of (pr_req_body p) = Some parsed /\
    pr_required_ctx p = estimate_required_context parsed /\ pr_prompt_tokens p = estimate_prompt_tokens parsed /\
    0 <= pr_required_ctx p <= u32_max /\ 0 <= pr_prompt_tokens p <= u32_max /\
    pr_streaming p = default false (cr_stream parsed) /\
    (pr_consumer p <> None -> db <> None ->
     exists n, cr_max_tokens parsed = Some n /\ 1 <= n <= Z.max (cm_max_output_tokens (pr_catalog_model p)) 1).
Proof.
  intros Hcat [parsed requested named m fb req' parsed' Hp Hm Hn Hv Hfl Hc ->]%prepare_inv. simpl.
  assert (0 <= cm_max_output_tokens m <= u32_max) as Hmax.
  { apply resolve_virtual_spec in Hv. destruct (cm_is_virtual named).
    - destruct Hv as [[Hin _ _ _ _] _]. by apply Hcat.
    - destruct Hv as [-> _]. apply requested_spec in Hn as [_ [[Hin _]|(_ & _ & ?)]]; [by apply Hcat|done]. }
  assert (request_of req' = Some parsed' /\
    (consumer_principal who <> None -> db <> None -> exists n, cr_max_tokens parsed' = Some n /\ 1 <= n <= Z.max (cm_max_output_tokens m) 1))
    as [Hr Hmt].
  { destruct (consumer_principal who) as [c|], db as [d|]; try (by destruct Hc as [-> ->]).
    destruct Hc as (dec & Hd & -> & ->). pose proof (compute_clamp_spec m parsed (effective_budget c (p_db d))) as Hk.
    rewrite Hd in Hk. destruct Hk as (Hk1 & Hk2 & _). split.
    - apply request_of_max_tokens; [unfold u32_max in *; lia|done].
    - intros _ _. exists (effective_max dec). split; [done|lia]. }
  exists parsed'. split_and!; try done; try apply u32_wrap_range.
  - unfold estimate_required_context. pose proof (u32_wrap_range (prompt_bytes parsed' / 4)) as Hw.
    unfold estimate_prompt_tokens. destruct (cr_max_tokens parsed') as [n|] eqn:E; simpl; [|unfold u32_max in *; lia].
    pose proof (request_typed _ _ _ Hr E). unfold u32_max in *. lia.
  - unfold estimate_required_context. lia.
Qed.

(** C25: What a prepared request has passed.  The model is concrete when the
    request named a virtual one, and then it is in the catalog, not among the
    models already tried or hidden by name, has the context and (unless the
    tools lane was given up) the parameters the request needs and enough
    devices that have it loaded; a model named directly is never a hidden one.
    Either way the floor of loaded devices holds.  A caller that pays has a
    budget of at least one credit, which covers the estimated prompt and one
    token, and the answer is limited to what the caller asked for and to the
    model's limit. *)
Theorem prepared_sound (p : PreparedChatRequest) :
  prepare = Ok p ->
  let m := pr_catalog_model p in
  floor_of floors m <= Z.of_nat (loaded_count clk (cm_id m) r) /\
  pr_consumer p = consumer_principal who /\
  exists parsed, request_of req = Some parsed /\
    (if pr_was_virtual_resolution p
     then chosen (estimate_required_context parsed) m /\
          (pr_tools_lane_fallback p = false ->
           supports_all_parameters (required_auto_supported_parameters parsed) m = true)
     else is_hidden_model_id (cm_id m) = false) /\
    (forall c d, consumer_principal who = Some c -> db = Some d ->
       1 <= effective_budget c (p_db d) /\
       Z.min i64_max (cost_credits (prompt_tokens_estimate parsed) 0 (prompt_price_usd m) (completion_price_usd m) +
         cost_credits 0 1 (prompt_price_usd m) (completion_price_usd m)) <= effective_budget c (p_db d) /\
       exists n, pr_req_body p = set_key "max_tokens" (JNumber n) req /\ 1 <= n <= Z.max (cm_max_output_tokens m) 1 /\
         forall asked, cr_max_tokens parsed = Some asked -> n <= Z.max asked 1).
Proof.
  intros [parsed requested named m fb req' parsed' Hp Hm Hn Hv Hfl Hc ->]%prepare_inv. simpl.
  split_and!; [done|done|]. exists parsed. split; [done|]. split.
  - apply resolve_virtual_spec in Hv. destruct (cm_is_virtual named); [done|]. destruct Hv as [-> _].
    by apply requested_spec in Hn as [? _].
  - intros c d Ec Ed. rewrite Ec, Ed in Hc. destruct Hc as (dec & Hd & -> & ->).
    pose proof (compute_clamp_spec m parsed (effective_budget c (p_db d))) as Hk. rewrite Hd in Hk.
    destruct Hk as (K1 & K2 & K3 & _ & K5 & K6). split_and!; [done|done|]. exists (effective_max dec). split_and!; try done; try lia.
    intros asked Ha. specialize (K3 asked Ha). lia.
Qed.
End Prepared.

(** ** The smallest model wins *)

Lemma compare_swap x y : SFcompare y x = CompOpp <$> SFcompare x y.
Proof.
  destruct x as [[]|[]| |s m e], y as [[]|[]| |s' m' e']; rewrite ?f64_compare_finite; try done;
    try (by destruct s); try (by destruct s').
  simpl. destruct s, s'; try done; f_equal.
  - rewrite (Z.compare_antisym e' e). destruct (e' ?= e); try done. simpl. apply Pos.compare_antisym.
  - rewrite (Z.compare_antisym e e'). destruct (e ?= e'); try done. simpl. apply Pos.compare_antisym.
Qed.
Lemma smaller_total a b : smaller_first a b = true \/ smaller_first b a = true.
Proof.
  unfold smaller_first. rewrite (compare_swap (cm_params_b a)). destruct (SFcompare (cm_params_b a) (cm_params_b b)) as [[]|]; simpl; auto;
    rewrite !Z.leb_le; lia.
Qed.
Lemma smaller_trans a b c :
  is_nan (cm_params_b a) = false -> is_nan (cm_params_b b) = false -> is_nan (cm_params_b c) = false ->
  smaller_first a b = true -> smaller_first b c = true -> smaller_first a c = true.
Proof.
  assert (forall x y, is_nan x = false -> is_nan y = false -> exists o, SFcompare x y = Some o /\ f64_le x y = match o with Gt => false | _ => true end /\
    f64_le y x = match o with Lt => false | _ => true end) as Hc.
  { intros x y Hx Hy. unfold f64_le, SFleb. rewrite (compare_swap x y). destruct (SFcompare x y) as [o|] eqn:E.
    - exists o. by destruct o.
    - exfalso. destruct x as [[]|[]| |[] m e], y as [[]|[]| |[] m' e']; done. }
  intros Ha Hb Hcn. unfold smaller_first.
  destruct (Hc _ _ Ha Hb) as (o1 & -> & L1 & G1), (Hc _ _ Hb Hcn) as (o2 & -> & L2 & G2), (Hc _ _ Ha Hcn) as (o3 & -> & L3 & G3).
  simpl. pose proof (f64_le_trans (cm_params_b a) (cm_params_b b) (cm_params_b c)) as T1.
  pose proof (f64_le_trans (cm_params_b c) (cm_params_b a) (cm_params_b b)) as T2.
  pose proof (f64_le_trans (cm_params_b b) (cm_params_b c) (cm_params_b a)) as T3.
  rewrite L1, L2, L3 in T1. rewrite G3, L1, G2 in T2. rewrite L2, G3, G1 in T3.
  destruct o1, o2, o3; intros H1 H2; try done; try (specialize (T1 eq_refl eq_refl); done);
    try (specialize (T2 eq_refl eq_refl); done); try (specialize (T3 eq_refl eq_refl); done).
  rewrite !Z.leb_le in *. lia.
Qed.
#[local] Instance auto_before_total : Total auto_before.
Proof. intros a b. apply smaller_total. Qed.

Lemma sorted_head_least l x :
  Forall (fun m => is_nan (cm_params_b m) = false) l -> Sorted auto_before l -> head l = Some x ->
  forall y, y ∈ l -> y = x \/ smaller_first x y = true.
Proof.
  intros Hn Hs. revert x. induction Hs as [|a l Hs IH Hh]; [done|]. apply Forall_cons in Hn as [Ha Hn].
  intros x [= <-] y [->|Hy]%elem_of_cons; [by left|]. right. specialize (IH Hn).
  destruct l as [|b l]; [by apply not_elem_of_nil in Hy|]. apply HdRel_inv in Hh. unfold auto_before in Hh.
  destruct (IH b eq_refl y Hy) as [->|Hb]; [done|]. apply Forall_cons in Hn as [Hb' Hn'].
  eapply smaller_trans; [done|exact Hb'| |done|done].
  apply elem_of_cons in Hy as [->|Hy]; [done|]. rewrite Forall_forall in Hn'. by apply Hn'.
Qed.

(** A virtual model resolves exactly when some candidate exists (for an
    agent: a tagged one, or any if no tagged one does), to a candidate with
    the fewest parameters, and among those to the longest context. *)
Theorem auto_smallest (cat : list CatalogModel) (ctx : Z) (prof : AutoRouteProfile) (params : list string)
    (count : string -> Z -> Z) (fl : Z * Z) (excl : list string) :
  Forall (fun m => is_nan (cm_params_b m) = false) cat ->
  let tagged := build_candidates cat ctx prof params count fl excl true in
  let pool := if bool_decide (tagged = []) then build_candidates cat ctx prof params count fl excl false else tagged in
  match resolve_auto cat ctx prof params count fl excl with
  | Some m => m ∈ pool /\ forall y, y ∈ pool -> y = m \/ smaller_first m y = true
  | None => pool = []
  end.
Proof.
  intros Hn. cbv zeta. unfold resolve_auto. set (cands := match prof with Generic => _ | AgentHarness => _ end).
  assert (cands = if bool_decide (build_candidates cat ctx prof params count fl excl true = [])
                  then build_candidates cat ctx prof params count fl excl false
                  else build_candidates cat ctx prof params count fl excl true) as <-.
  { subst cands. destruct prof; [by case_bool_decide|]. by destruct (build_candidates _ _ AgentHarness _ _ _ _ true). }
  assert (Forall (fun m => is_nan (cm_params_b m) = false) (merge_sort auto_before cands)) as Hf.
  { rewrite merge_sort_Permutation. subst cands. rewrite Forall_forall in *. intros x Hx. apply Hn.
    destruct prof; [by apply filter_elem in Hx as [? _]|].
    destruct (build_candidates _ _ _ _ _ _ _ true) eqn:E; [by apply filter_elem in Hx as [? _]|].
    rewrite <- E in Hx. by apply filter_elem in Hx as [? _]. }
  pose proof (Sorted_merge_sort auto_before cands) as Hs. pose proof (merge_sort_Permutation auto_before cands) as Hp.
  destruct (head (merge_sort auto_before cands)) as [m|] eqn:E.
  - split.
    + rewrite <- Hp. destruct (merge_sort _ _); [done|]. injection E as ->. by left.
    + intros y. rewrite <- Hp. by apply sorted_head_least.
  - destruct (merge_sort auto_before cands); [|done]. by apply Permutation_nil_l in Hp.
Qed.

(** ** The cascade *)

(** The models [cascade] attempts, in order. *)
Fixpoint attempted (fuel : nat) (prep : list string -> result GatewayError PreparedChatRequest)
    (attempt : PreparedChatRequest -> result GatewayError Json) (excluded : list string) : list string :=
  match fuel with
  | O => []
  | S fuel =>
      match prep excluded with
      | Err _ => []
      | Ok p =>
          cm_id (pr_catalog_model p) ::
          match attempt p with
          | Ok _ => []
          | Err e =>
              if should_cascade e (pr_was_virtual_resolution p) excluded
              then attempted fuel prep attempt (excluded ++ [cm_id (pr_catalog_model p)])
              else []
          end
      end
  end.

Section Cascade.
Context `{WireCrates} (cfg : ChatConfig) (headers : ChatHeaders) (who : AuthPrincipal) (req : Json) (invalid : string).
(** The gateway may change between attempts. *)
Context (clk_at : list string -> Clock) (reg_at : list string -> Registry) (db_at : list string -> option PinDb).
Context (attempt : PreparedChatRequest -> result GatewayError Json).

Definition prep (excluded : list string) : result GatewayError PreparedChatRequest :=
  prepare_chat_request_excluding (clk_at excluded) cfg (reg_at excluded) (db_at excluded) headers who req excluded invalid.

Lemma prep_new excl p : prep excl = Ok p -> pr_was_virtual_resolution p = true -> cm_id (pr_catalog_model p) ∉ excl.
Proof.
  intros [parsed requested named m fb req' parsed' _ _ _ Hv _ _ ->]%prepare_inv. simpl. intros Hvirt.
  apply resolve_virtual_spec in Hv. rewrite Hvirt in Hv. destruct Hv as [[_ _ Hn _ _] _].
  intros Hin. apply Hn, elem_of_app. by left.
Qed.

(** Whether the request names a virtual model. *)
Definition names_virtual : bool :=
  match parsed ← request_of req; requested ← cr_model parsed; List.find (matches requested) (cc_catalog cfg) with
  | Some m => cm_is_virtual m
  | None => false
  end.
Lemma prep_virtual excl p : prep excl = Ok p -> pr_was_virtual_resolution p = names_virtual.
Proof.
  intros [parsed requested named m fb req' parsed' Hp Hm Hn _ _ _ ->]%prepare_inv. simpl. unfold names_virtual.
  rewrite Hp. simpl. rewrite Hm. simpl. unfold resolve_requested_model in Hn. destruct (List.find _ _) as [m'|].
  - destruct (is_hidden_model_id _); [done|]. by injection Hn as ->.
  - destruct (is_hidden_model_id _); [done|]. destruct (List.filter _ _); [done|]. by injection Hn as <-.
Qed.

Lemma cascade_returns fuel excl :
  (MAX_AUTO_CASCADE_RETRIES - length excl < fuel)%nat -> is_Some (cascade fuel prep attempt excl).
Proof.
  revert excl. induction fuel as [|fuel IH]; intros excl Hf; [lia|]. simpl.
  destruct (prep excl) as [p|]; [|by eexists]. destruct (attempt p) as [|e]; [by eexists|].
  unfold should_cascade. destruct (negb _ || Nat.leb MAX_AUTO_CASCADE_RETRIES (length excl)) eqn:E; [by eexists|].
  apply orb_false_iff in E as [_ E]. apply Nat.leb_gt in E.
  assert (is_Some (cascade fuel prep attempt (excl ++ [cm_id (pr_catalog_model p)]))) as Hrec.
  { apply IH. rewrite length_app. simpl. lia. }
  by destruct e; try (by eexists).
Qed.
Lemma attempted_length fuel excl :
  (length (attempted fuel prep attempt excl) <= MAX_AUTO_CASCADE_RETRIES - length excl + 1)%nat.
Proof.
  revert excl. induction fuel as [|fuel IH]; intros excl; simpl; [lia|].
  destruct (prep excl) as [p|]; simpl; [|lia]. destruct (attempt p) as [|e]; simpl; [lia|].
  destruct (should_cascade _ _ _) eqn:E; simpl; [|lia]. unfold should_cascade in E.
  destruct (negb _ || Nat.leb MAX_AUTO_CASCADE_RETRIES (length excl)) eqn:E'; [done|].
  apply orb_false_iff in E' as [_ E']. apply Nat.leb_gt in E'.
  specialize (IH (excl ++ [cm_id (pr_catalog_model p)])). rewrite length_app in IH. simpl in IH. lia.
Qed.
Lemma attempted_new fuel excl :
  names_virtual = true -> NoDup (attempted fuel prep attempt excl) /\ forall x, x ∈ attempted fuel prep attempt excl -> x ∉ excl.
Proof.
  intros Hv. revert excl. induction fuel as [|fuel IH]; intros excl; simpl; [split; [constructor|by intros ? ?%not_elem_of_nil]|].
  destruct (prep excl) as [p|] eqn:Hp; [|split; [constructor|by intros ? ?%not_elem_of_nil]].
  assert (cm_id (pr_catalog_model p) ∉ excl) as Hn by (eapply prep_new; [done|by erewrite prep_virtual]).
  set (rest := match attempt p with Ok _ => [] | Err _ => _ end).
  assert (NoDup rest /\ forall x, x ∈ rest -> x ∉ excl ++ [cm_id (pr_catalog_model p)]) as [Hnd Hx].
  { subst rest. destruct (attempt p) as [|e]; [split; [constructor|by intros ? ?%not_elem_of_nil]|].
    destruct (should_cascade _ _ _); [apply IH|split; [constructor|by intros ? ?%not_elem_of_nil]]. }
  split.
  - apply NoDup_cons. split; [|done]. intros Hin. apply (Hx _ Hin), elem_of_app. right. by left.
  - intros x [->|Hin]%elem_of_cons; [done|]. intros Hex. apply (Hx x Hin), elem_of_app. by left.
Qed.

(** The cascade of a virtual model ends after at most four attempts,
    whatever the attempts answer and however the gateway changes in between;
    no concrete model is attempted twice, and a request that names a concrete
    model is attempted at most once. *)
Theorem cascade_bounded :
  is_Some (cascade 4 prep attempt []) /\
  (length (attempted 4 prep attempt []) <= 4)%nat /\ NoDup (attempted 4 prep attempt []) /\
  (names_virtual = false -> (length (attempted 4 prep attempt []) <= 1)%nat).
Proof.
  split; [apply cascade_returns; unfold MAX_AUTO_CASCADE_RETRIES; simpl; lia|].
  split; [apply (attempted_length 4 [])|].
  assert (names_virtual = false -> (length (attempted 4 prep attempt []) <= 1)%nat) as Hone.
  { intros Hv. simpl. destruct (prep []) as [p|] eqn:Hp; simpl; [|lia]. destruct (attempt p); simpl; [lia|].
    unfold should_cascade. rewrite (prep_virtual _ _ Hp), Hv. simpl. lia. }
  split; [|done]. destruct names_virtual eqn:Hv; [by apply (attempted_new 4 [])|]. specialize (Hone eq_refl).
  destruct (attempted 4 prep attempt []) as [|x [|y l]]; [constructor|apply NoDup_singleton|simpl in Hone; lia].
Qed.
End Cascade.

(** ** Witnesses *)

Definition toy_headers : ChatHeaders := mkChatHeaders None None.
Definition toy_ledger : PinDb := mkPinDb demo ∅ ∅ ∅ ∅ ∅ ∅.
Definition toy_prepare (who : AuthPrincipal) (max_tokens : Z) : result GatewayError PreparedChatRequest :=
  @prepare toy_wire (at_secs 2) toy_chat_config toy_one_device (Some toy_ledger) toy_headers who (toy_body max_tokens true) [] "".
Definition bob_prepared : PreparedChatRequest :=
  match toy_prepare (PDevice "bob") 10000 with Ok p => p | Err _ => toy_prepared 1 true end.

(** Bob's balance of 4899 credits leaves 4890 of the 8192 tokens of the model. *)
Lemma prepared_typed_witness :
  exists parsed, request_of (pr_req_body bob_prepared) = Some parsed /\ 0 <= pr_required_ctx bob_prepared <= u32_max.
Proof.
  destruct (@prepared_typed toy_wire (at_secs 2) toy_chat_config toy_one_device (Some toy_ledger) toy_headers
    (PDevice "bob") (toy_body 10000 true) [] "" bob_prepared) as (parsed & Hp & _ & _ & Hc & _).
  - intros m [->|?%not_elem_of_nil]%elem_of_cons; [vm_compute; split; discriminate|done].
  - vm_compute. reflexivity.
  - exists parsed. split; [exact Hp|exact Hc].
Defined.

Lemma prepared_sound_witness :
  get "max_tokens" (pr_req_body bob_prepared) = Some (JNumber 4890) /\ 1 <= 4899 /\
  pr_consumer bob_prepared = consumer_principal (PDevice "bob").
Proof.
  split; [vm_compute; reflexivity|]. split; [lia|].
  destruct (@prepared_sound toy_wire (at_secs 2) toy_chat_config toy_one_device (Some toy_ledger) toy_headers
    (PDevice "bob") (toy_body 10000 true) [] "" bob_prepared) as (_ & Hc & _); [vm_compute; reflexivity|exact Hc].
Defined.

(** Carol has no credits. *)
Example carol_is_refused : toy_prepare (PDevice "carol") 100 = Err (InsufficientCredits 0 10).
Proof. vm_compute. reflexivity. Qed.

Definition sized (id : string) (params ctx : Z) : CatalogModel :=
  mkCatalogModel id id "toy" ctx 1024 (f64_of_Z params) "0" "0" None [] None [] false [] None None.
Definition toy_sizes : list CatalogModel := [sized "big" 70 32768; sized "short" 8 4096; sized "long" 8 16384].
Lemma auto_smallest_witness :
  resolve_auto toy_sizes 4096 Generic [] (fun _ _ => 1) (1, 1) [] = Some (sized "long" 8 16384) /\
  (forall y, y ∈ toy_sizes -> y = sized "long" 8 16384 \/ smaller_first (sized "long" 8 16384) y = true).
Proof.
  split; [vm_compute; reflexivity|].
  pose proof (auto_smallest toy_sizes 4096 Generic [] (fun _ _ => 1) (1, 1) [] ltac:(by repeat constructor)) as Ha.
  exact (proj2 Ha).
Defined.

(** A model whose name only contains a hidden one cannot be asked for, but a
    virtual model may resolve to it. *)
Theorem hidden_by_name_only :
  let id := "moonshotai/kimi-k2.6-turbo" in
  is_hidden_model_id id = true /\
  resolve_auto [sized id 8 8192] 4096 Generic [] (fun _ _ => 1) (1, 1) HIDDEN_MODEL_IDS = Some (sized id 8 8192).
Proof. vm_compute. done. Qed.
