(* ===== verification/ProviderHealth.v ===== *)
(** * Health of the centralized providers

    [gateway/src/providers/health.rs] and the error classes of
    [gateway/src/providers/mod.rs]: a window of samples per provider and model,
    its percentiles and its tier.  The times are instants of [Registry]. *)

From S2P Require Import Prelude RustStr F64 Registry.
From stdpp Require Import sorting.

Open Scope string_scope.
Open Scope list_scope.
Open Scope Z_scope.

Inductive ProviderError : Type :=
| PHttp (code : Z) (message : string)
| PMidStream (m : string)
| PNetwork (m : string)
| PInvalid (m : string)
| PUnavailable.
Definition counts_against_uptime (e : ProviderError) : bool :=
  match e with
  | PHttp code _ => (code =? 401) || (code =? 402) || (code =? 404) || (500 <=? code)
  | _ => true
  end.
Record UsageReport : Type := mkUsageReport {
  u_prompt_tokens : Z;
  u_completion_tokens : Z;
  u_ttft_ms : option Z
}.

(** ** Samples *)

Definition WINDOW : Z := from_secs 300.
Definition MAX_SAMPLES : nat := 2000.

Record Sample : Type := mkSample {
  sm_at : Z;
  sm_success : bool;
  sm_counts : bool;
  sm_ttft_ms : option Z;
  sm_tps : option f64
}.
Record Bucket : Type := mkBucket {
  bk_samples : list Sample;
  bk_last_outage : option Z
}.
Definition empty_bucket : Bucket := mkBucket [] None.

(** [now.duration_since(t)], which saturates. *)
Definition duration_since (now t : Z) : Z := Z.max (now - t) 0.
Definition in_window (now : Z) (s : Sample) : bool := duration_since now (sm_at s) <=? WINDOW.
Fixpoint evict_samples (now : Z) (l : list Sample) : list Sample :=
  match l with
  | [] => []
  | s :: l' => if in_window now s then l else evict_samples now l'
  end.
Definition evict (now : Z) (b : Bucket) : Bucket := mkBucket (evict_samples now (bk_samples b)) (bk_last_outage b).
Definition push (s : Sample) (b : Bucket) : Bucket :=
  let l := bk_samples b ++ [s] in
  let l := if Nat.ltb MAX_SAMPLES (length l) then tail l else l in
  let outage := if negb (sm_success s) && sm_counts s then Some (sm_at s) else bk_last_outage b in
  evict (sm_at s) (mkBucket l outage).

(** ** Snapshots *)

Record HealthSnapshot : Type := mkHealthSnapshot {
  success_ratio : f64;
  sample_count : Z;
  ttft_p50_ms : option Z;
  ttft_p90_ms : option Z;
  ttft_p99_ms : option Z;
  tps_p50 : option f64;
  tps_p90 : option f64;
  tps_p99 : option f64;
  seconds_since_outage : option Z
}.
(** The derived [Default]. *)
Definition no_health : HealthSnapshot := mkHealthSnapshot f64_zero 0 None None None None None None None.

Definition P50 : f64 := f64_dec 50 2.
Definition P90 : f64 := f64_dec 90 2.
Definition P99 : f64 := f64_dec 99 2.
Definition percentile_index (n : nat) (p : f64) : nat :=
  Z.to_nat (f64_as_usize (f64_round (f64_mul (f64_sub (f64_of_Z (Z.of_nat n)) f64_one) p))).
Definition percentile {A} (sorted : list A) (p : f64) : option A :=
  match sorted with [] => None | _ => sorted !! percentile_index (length sorted) p end.

(** [partial_cmp] with [unwrap_or(Equal)]. *)
Definition f64_before (a b : f64) : Prop := default Eq (SFcompare a b) <> Gt.
#[export] Instance f64_before_dec a b : Decision (f64_before a b).
Proof. unfold f64_before. apply _. Defined.

Definition counted (s : Sample) : bool := sm_counts s || sm_success s.
Definition snapshot (now : Z) (b : Bucket) : HealthSnapshot * Bucket :=
  let b := evict now b in
  let samples := bk_samples b in
  let counted_total := Z.of_nat (length (List.filter counted samples)) in
  let success := Z.of_nat (length (List.filter sm_success samples)) in
  let ttfts := merge_sort Z.le (omap sm_ttft_ms samples) in
  let tpss := merge_sort f64_before (omap sm_tps samples) in
  let ratio := if counted_total =? 0 then f64_one else f64_div (f64_of_Z success) (f64_of_Z counted_total) in
  (mkHealthSnapshot ratio (Z.of_nat (length samples)) (percentile ttfts P50) (percentile ttfts P90)
     (percentile ttfts P99) (percentile tpss P50) (percentile tpss P90) (percentile tpss P99)
     ((fun t => as_secs (duration_since now t)) <$> bk_last_outage b), b).

Inductive HealthTier : Type := TNormal | TDegraded | TFallback | TUntracked.
Definition tier (h : HealthSnapshot) : HealthTier :=
  if sample_count h <? 100 then TUntracked
  else
    let pct := f64_mul (success_ratio h) (f64_of_Z 100) in
    if f64_ge pct (f64_of_Z 95) then TNormal
    else if f64_ge pct (f64_of_Z 80) then TDegraded
    else TFallback.
Definition recently_unstable (h : HealthSnapshot) : bool :=
  match seconds_since_outage h with Some s => s <? 30 | None => false end.

(** ** The tracker *)

Definition HealthTracker : Type := gmap (string * string) Bucket.
Definition push_sample (key : string * string) (s : Sample) (t : HealthTracker) : HealthTracker :=
  <[key := push s (default empty_bucket (t !! key))]> t.
Definition record_success (now : Z) (provider_id model_id : string) (ttft_ms : option Z) (tps : option f64)
    (t : HealthTracker) : HealthTracker :=
  push_sample (provider_id, model_id) (mkSample now true true ttft_ms tps) t.
Definition record_failure (now : Z) (provider_id model_id : string) (counts : bool) (t : HealthTracker) : HealthTracker :=
  push_sample (provider_id, model_id) (mkSample now false counts None None) t.
Definition tracker_snapshot (now : Z) (provider_id model_id : string) (t : HealthTracker)
    : HealthSnapshot * HealthTracker :=
  match t !! (provider_id, model_id) with
  | Some b => let '(h, b') := snapshot now b in (h, <[(provider_id, model_id) := b']> t)
  | None => (no_health, t)
  end.
