(* ===== verification/ProviderHealthFacts.v ===== *)
(** * What the health tracker reports

    After any history of samples a bucket holds exactly the newest samples of
    its window, and its snapshot reports their statistics. *)

From S2P Require Import Prelude RustStr F64 Registry ProviderHealth.
From stdpp Require Import sorting.

Open Scope string_scope.
Open Scope list_scope.
Open Scope Z_scope.

(** ** Percentiles *)

Fixpoint check_upto (k : nat) (f : Z -> bool) (n : Z) : bool :=
  match k with O => true | S k => f n && check_upto k f (n + 1) end.
Lemma check_upto_spec k f n : check_upto k f n = true -> forall i, n <= i < n + Z.of_nat k -> f i = true.
Proof.
  revert n. induction k as [|k IH]; intros n Hc i Hi; [lia|]. simpl in Hc. apply andb_true_iff in Hc as [Hf Hc].
  destruct (decide (i = n)) as [->|]; [done|]. apply (IH (n + 1)); [done|lia].
Qed.

Definition index_ok (num den : Z) (p : f64) (n : Z) : bool :=
  f64_as_usize (f64_round (f64_mul (f64_sub (f64_of_Z n) f64_one) p)) =? (num * (n - 1) + den / 2) / den.

Lemma index_check (num den : Z) (p : f64) (n : nat) :
  check_upto MAX_SAMPLES (index_ok num den p) 1 = true -> (1 <= n <= MAX_SAMPLES)%nat ->
  percentile_index n p = Z.to_nat ((num * (Z.of_nat n - 1) + den / 2) / den).
Proof.
  intros Hc Hn. unfold percentile_index. f_equal. apply Z.eqb_eq.
  apply (check_upto_spec _ _ _ Hc). unfold MAX_SAMPLES in *. lia.
Qed.

Lemma check_p50 : check_upto MAX_SAMPLES (index_ok 1 2 P50) 1 = true.
Proof. vm_compute. reflexivity. Qed.
Lemma check_p90 : check_upto MAX_SAMPLES (index_ok 9 10 P90) 1 = true.
Proof. vm_compute. reflexivity. Qed.
Lemma check_p99 : check_upto MAX_SAMPLES (index_ok 99 100 P99) 1 = true.
Proof. vm_compute. reflexivity. Qed.

(** The index is the exact rank, rounded to the nearest integer: the product of
    doubles loses nothing that matters. *)
Definition rank (num den : Z) (n : nat) : nat := Z.to_nat ((num * (Z.of_nat n - 1) + den / 2) / den).

Lemma rank_order n :
  (1 <= n)%nat -> (rank 1 2 n <= rank 9 10 n)%nat /\ (rank 9 10 n <= rank 99 100 n)%nat /\ (rank 99 100 n < n)%nat.
Proof.
  intros Hn. unfold rank. change (2 / 2) with 1. change (10 / 2) with 5. change (100 / 2) with 50.
  rewrite <- !Z2Nat.inj_le by (apply Z.div_pos; lia). split_and!; [Z.to_euclidean_division_equations; lia..|].
  apply Nat2Z.inj_lt. rewrite Z2Nat.id by (apply Z.div_pos; lia). Z.to_euclidean_division_equations; lia.
Qed.

Section Percentile.
Context {A : Type} (l : list A).
Hypothesis Hl : (1 <= length l <= MAX_SAMPLES)%nat.
Lemma percentile_p50 : percentile l P50 = l !! rank 1 2 (length l).
Proof. unfold percentile. rewrite (index_check 1 2 P50 _ check_p50 Hl). by destruct l. Qed.
Lemma percentile_p90 : percentile l P90 = l !! rank 9 10 (length l).
Proof. unfold percentile. rewrite (index_check 9 10 P90 _ check_p90 Hl). by destruct l. Qed.
Lemma percentile_p99 : percentile l P99 = l !! rank 99 100 (length l).
Proof. unfold percentile. rewrite (index_check 99 100 P99 _ check_p99 Hl). by destruct l. Qed.
End Percentile.

Lemma sorted_lookup_le (l : list Z) i j x y :
  Sorted Z.le l -> (i <= j)%nat -> l !! i = Some x -> l !! j = Some y -> x <= y.
Proof.
  intros Hs Hij Hi Hj. apply Sorted_StronglySorted in Hs; [|intros a b c; lia].
  destruct (decide (i = j)) as [->|]; [simplify_eq; lia|].
  eapply StronglySorted_app_1_elem_of; [rewrite <- (take_drop j l) in Hs; exact Hs| |].
  - apply list_elem_of_lookup. exists i. rewrite lookup_take_lt by lia. exact Hi.
  - apply list_elem_of_lookup. exists 0%nat. rewrite lookup_drop, Nat.add_0_r. exact Hj.
Qed.

(** ** The window *)

Definition lastn {A} (n : nat) (l : list A) : list A := drop (length l - n) l.
(** The bucket after a history of samples, oldest first. *)
Definition bucket_of (h : list Sample) : Bucket := foldl (fun b s => push s b) empty_bucket h.
Definition ordered (h : list Sample) : Prop := Sorted (fun a b => sm_at a <= sm_at b) h.
(** The samples of the last five minutes among the newest 2000. *)
Definition window (now : Z) (h : list Sample) : list Sample := List.filter (in_window now) (lastn MAX_SAMPLES h).
Definition outage (s : Sample) : bool := negb (sm_success s) && sm_counts s.

Lemma tail_drop_S {A} n (l : list A) : tail (drop n l) = drop (S n) l.
Proof. revert l. induction n as [|n IH]; intros [|x l]; try done. apply IH. Qed.
Lemma lastn_snoc {A} n (l : list A) x :
  (0 < n)%nat -> lastn n (l ++ [x]) = (if Nat.ltb (length (lastn n l)) n then lastn n l else tail (lastn n l)) ++ [x].
Proof.
  intros Hn. unfold lastn. rewrite length_app, length_drop. simpl.
  destruct (Nat.ltb_spec (length l - (length l - n)) n).
  - replace (length l + 1 - n)%nat with 0%nat by lia. replace (length l - n)%nat with 0%nat by lia. by rewrite !drop_0.
  - replace (length l + 1 - n)%nat with (S (length l - n)) by lia.
    rewrite drop_app_le by lia. f_equal. symmetry. apply tail_drop_S.
Qed.

Lemma evict_samples_filter now l :
  ordered l -> (forall s, s ∈ l -> sm_at s <= now) -> evict_samples now l = List.filter (in_window now) l.
Proof.
  intros Ho Hle. induction l as [|s l IH]; [done|]. simpl. 
  apply Sorted_StronglySorted in Ho as Hss; [|intros a b c; lia]. apply StronglySorted_inv in Hss as [_ Hf].
  assert (ordered l) as Ho' by (by inversion Ho).
  destruct (in_window now s) eqn:E.
  - f_equal. assert (forall x, x ∈ l -> in_window now x = true) as Hin.
    { intros x Hx. rewrite Forall_forall in Hf. specialize (Hf x Hx). specialize (Hle s ltac:(by left)).
      unfold in_window, duration_since in *. apply Z.leb_le in E. apply Z.leb_le. lia. }
    clear -Hin. induction l as [|x l IH]; [done|]. simpl. rewrite (Hin x) by by left. f_equal. apply IH.
    intros y Hy. apply Hin. by right.
  - apply IH; [done|]. intros x Hx. apply Hle. by right.
Qed.

Lemma ordered_sub h n : ordered h -> ordered (drop n h).
Proof.
  intros Ho. apply StronglySorted_Sorted. apply Sorted_StronglySorted in Ho; [|intros a b c; lia].
  rewrite <- (take_drop n h) in Ho. by apply StronglySorted_app_1_r in Ho.
Qed.
Lemma ordered_snoc h s : ordered (h ++ [s]) -> ordered h /\ forall x, x ∈ h -> sm_at x <= sm_at s.
Proof.
  intros Ho. apply Sorted_StronglySorted in Ho; [|intros a b c; lia]. split.
  - by apply StronglySorted_Sorted, (StronglySorted_app_1_l _ _ [s]).
  - intros x Hx. by apply (StronglySorted_app_1_elem_of _ _ _ x s Ho); [|left].
Qed.

Lemma filter_all {A} (P : A -> bool) l : (forall x, x ∈ l -> P x = true) -> List.filter P l = l.
Proof.
  intros HP. induction l as [|x l IH]; [done|]. simpl. rewrite (HP x) by by left. f_equal. apply IH.
  intros y Hy. apply HP. by right.
Qed.
Lemma filter_sub {A} (P Q : A -> bool) l :
  (forall x, x ∈ l -> Q x = true -> P x = true) -> List.filter Q (List.filter P l) = List.filter Q l.
Proof.
  intros HPQ. induction l as [|x l IH]; [done|]. simpl.
  assert (forall y, y ∈ l -> Q y = true -> P y = true) as Hl by (intros y Hy; apply HPQ; by right).
  destruct (P x) eqn:E; simpl; rewrite IH by done; [done|]. destruct (Q x) eqn:EQ; [|done].
  specialize (HPQ x ltac:(by left) EQ). congruence.
Qed.

(** The window only shrinks with time. *)
Lemma in_window_mono t now s : sm_at s <= t -> t <= now -> in_window now s = true -> in_window t s = true.
Proof. unfold in_window, duration_since. rewrite !Z.leb_le. lia. Qed.

Lemma trim_window (l : list Sample) s t :
  ordered (l ++ [s]) -> (forall x, x ∈ l -> sm_at x <= t) -> t <= sm_at s -> (length l <= MAX_SAMPLES)%nat ->
  let f := List.filter (in_window t) l ++ [s] in
  List.filter (in_window (sm_at s)) (if Nat.ltb MAX_SAMPLES (length f) then tail f else f) =
  List.filter (in_window (sm_at s)) ((if Nat.ltb (length l) MAX_SAMPLES then l else tail l) ++ [s]).
Proof.
  intros Ho Ht Hts Hlen. cbv zeta. rewrite length_app. simpl.
  pose proof (List.filter_length_le (in_window t) l) as Hfl.
  assert (forall x, x ∈ l -> in_window (sm_at s) x = true -> in_window t x = true) as Hsub
    by (intros x Hx; apply in_window_mono; auto).
  destruct (Nat.ltb_spec MAX_SAMPLES (length (List.filter (in_window t) l) + 1)).
  - assert (List.filter (in_window t) l = l) as ->.
    { apply filter_all. assert (length (List.filter (in_window t) l) = length l) as Hfa by lia.
      apply List.filter_length_forallb in Hfa. rewrite forallb_forall in Hfa. intros x Hx. by apply Hfa, list_elem_of_In. }
    destruct (Nat.ltb_spec (length l) MAX_SAMPLES); [lia|]. destruct l; [unfold MAX_SAMPLES in *; simpl in *; lia|done].
  - rewrite !List.filter_app. f_equal. rewrite filter_sub by done.
    destruct (Nat.ltb_spec (length l) MAX_SAMPLES); [done|].
    destruct l as [|x l]; [done|]. simpl tail. simpl. destruct (in_window (sm_at s) x) eqn:Ex; [|done]. exfalso.
    assert (List.filter (in_window t) (x :: l) = x :: l) as Eall.
    { apply filter_all. apply ordered_snoc in Ho as [Ho _]. apply Sorted_StronglySorted in Ho; [|intros a b c; lia].
      apply StronglySorted_inv in Ho as [_ Hf]. rewrite Forall_forall in Hf. intros y Hy.
      assert (in_window t x = true) as Hx by (apply Hsub; [by left|done]).
      pose proof (Ht y Hy). apply elem_of_cons in Hy as [->|Hy]; [done|]. specialize (Hf y Hy).
      unfold in_window, duration_since in *. rewrite Z.leb_le in *. lia. }
    rewrite Eall in *. simpl in *. lia.
Qed.

Lemma filter_member {A} (P : A -> bool) (l : list A) x : x ∈ List.filter P l <-> x ∈ l /\ P x = true.
Proof. by rewrite !list_elem_of_In, filter_In. Qed.
Lemma ordered_filter P l : ordered l -> ordered (List.filter P l).
Proof.
  intros Ho. apply Sorted_StronglySorted in Ho; [|intros a b c; lia]. apply StronglySorted_Sorted.
  induction l as [|a l IH]; [done|]. apply StronglySorted_inv in Ho as [Ho Hf]. simpl.
  destruct (P a); [|by apply IH]. constructor; [by apply IH|]. rewrite Forall_forall in *.
  intros y [Hy _]%filter_member. by apply Hf.
Qed.
Lemma evict_later t now l :
  ordered l -> (forall x, x ∈ l -> sm_at x <= t) -> t <= now ->
  evict_samples now (List.filter (in_window t) l) = List.filter (in_window now) l.
Proof.
  intros Ho Hle Ht. rewrite evict_samples_filter.
  - apply filter_sub. intros x Hx. apply in_window_mono; auto.
  - by apply ordered_filter.
  - intros x [Hx _]%filter_member. specialize (Hle x Hx). lia.
Qed.

Lemma last_time h s : last h = Some s -> ordered h -> forall x, x ∈ h -> sm_at x <= sm_at s.
Proof.
  intros Hl Ho x Hx. apply last_Some in Hl as [l ->]. apply ordered_snoc in Ho as [_ Ho].
  apply elem_of_app in Hx as [Hx|Hx%list_elem_of_singleton]; [by apply Ho|by subst].
Qed.
Lemma lastn_elem {A} n (l : list A) x : x ∈ lastn n l -> x ∈ l.
Proof. intros Hx. rewrite <- (take_drop (length l - n) l). apply elem_of_app. by right. Qed.
Lemma lastn_length {A} n (l : list A) : (length (lastn n l) <= n)%nat.
Proof. unfold lastn. rewrite length_drop. lia. Qed.

Lemma bucket_snoc h s : bucket_of (h ++ [s]) = push s (bucket_of h).
Proof. unfold bucket_of. by rewrite foldl_app. Qed.
Lemma bucket_outage h : bk_last_outage (bucket_of h) = sm_at <$> last (List.filter outage h).
Proof.
  induction h as [|s h IH] using rev_ind; [done|]. rewrite bucket_snoc, List.filter_app. simpl.
  fold (outage s). destruct (outage s); [by rewrite last_snoc|]. by rewrite app_nil_r, IH.
Qed.

Lemma bucket_samples h s : ordered h -> last h = Some s -> bk_samples (bucket_of h) = window (sm_at s) h.
Proof.
  revert s. induction h as [|s h IH] using rev_ind; [done|]. intros s' Ho Hl. rewrite last_snoc in Hl. injection Hl as <-.
  apply ordered_snoc in Ho as Hh. destruct Hh as [Hh Hle].
  rewrite bucket_snoc. unfold push, evict. cbn [bk_samples].
  unfold window. rewrite lastn_snoc by (unfold MAX_SAMPLES; lia).
  assert (ordered (lastn MAX_SAMPLES h ++ [s])) as Hol.
  { pose proof (ordered_sub (h ++ [s]) (length h - MAX_SAMPLES) Ho) as Hd. rewrite drop_app_le in Hd by lia. exact Hd. }
  destruct (last h) as [s0|] eqn:E0.
  - assert (sm_at s0 <= sm_at s) as Hs0.
    { apply Hle. apply last_Some in E0 as [l ->]. apply elem_of_app. right. by left. }
    rewrite (IH s0 Hh eq_refl). unfold window.
    assert (forall x, x ∈ lastn MAX_SAMPLES h -> sm_at x <= sm_at s0) as Hx
      by (intros x Hx; apply (last_time h); [done|done|by eapply lastn_elem]).
    pose proof (trim_window (lastn MAX_SAMPLES h) s (sm_at s0) Hol Hx Hs0 (lastn_length _ _)) as Htw. cbv zeta in Htw.
    rewrite <- Htw. set (f := List.filter (in_window (sm_at s0)) (lastn MAX_SAMPLES h)).
    assert (ordered (f ++ [s])) as Hof.
    { subst f. clear -Hol.
      apply Sorted_StronglySorted in Hol; [|intros a b c; lia]. apply StronglySorted_Sorted.
      apply StronglySorted_app in Hol as (H1 & H2 & H3). apply StronglySorted_app. split_and!; [| |done].
      - intros x y Hx Hy. apply H1; [|done]. by apply filter_member in Hx as [? _].
      - apply Sorted_StronglySorted, ordered_filter; [intros a b c; lia|]. by apply StronglySorted_Sorted. }
    assert (forall x, x ∈ f ++ [s] -> sm_at x <= sm_at s) as Hfs.
    { intros x [Hx'|Hx'%list_elem_of_singleton]%elem_of_app; [|subst; lia].
      apply filter_member in Hx' as [Hx' _]. apply lastn_elem in Hx'. by apply Hle. }
    apply evict_samples_filter.
    + destruct (Nat.ltb _ _); [|done]. pose proof (ordered_sub (f ++ [s]) 1 Hof) as Hd. by destruct (f ++ [s]).
    + intros x Hx'. apply Hfs. destruct (Nat.ltb _ _); [|done]. destruct (f ++ [s]); [done|]. by right.
  - apply last_None in E0 as ->. simpl. unfold in_window, duration_since.
    destruct (Z.leb_spec (Z.max (sm_at s - sm_at s) 0) WINDOW); [done|]. unfold WINDOW, from_secs in *. lia.
Qed.

(** What the health tracker reports.  After any history of samples with
    non-decreasing times, and at any later time, a bucket's snapshot counts
    exactly the samples of the last five minutes among the newest 2000; it
    reports latency percentiles as soon as one of them has a latency, each one
    of these latencies, in order; and the provider counts as recently unstable
    exactly when its latest counted failure is less than 30 whole seconds old. *)
Theorem health_snapshot (h : list Sample) (s : Sample) (now : Z) :
  ordered h -> last h = Some s -> sm_at s <= now ->
  let b := bucket_of h in
  let r := (snapshot now b).1 in
  let seen := window now h in
  sample_count r = Z.of_nat (length seen) /\ 0 <= sample_count r <= 2000 /\
  (forall p, p ∈ [ttft_p50_ms r; ttft_p90_ms r; ttft_p99_ms r] ->
     is_Some p <-> exists x, x ∈ omap sm_ttft_ms seen) /\
  (forall a b c, ttft_p50_ms r = Some a -> ttft_p90_ms r = Some b -> ttft_p99_ms r = Some c ->
     a <= b <= c /\ a ∈ omap sm_ttft_ms seen /\ b ∈ omap sm_ttft_ms seen /\ c ∈ omap sm_ttft_ms seen) /\
  (recently_unstable r = true <-> exists x, last (List.filter outage h) = Some x /\ as_secs (duration_since now (sm_at x)) < 30).
Proof.
  intros Ho Hl Hnow. cbv zeta.
  assert (bk_samples (evict now (bucket_of h)) = window now h) as Hs.
  { unfold evict. cbn [bk_samples]. rewrite (bucket_samples h s Ho Hl). unfold window.
    assert (forall x, x ∈ lastn MAX_SAMPLES h -> sm_at x <= sm_at s) as Hx
      by (intros x Hx; apply (last_time h); [done|done|by eapply lastn_elem]).
    apply evict_later; [|done|done]. by apply ordered_sub. }
  assert (length (window now h) <= MAX_SAMPLES)%nat as Hlen.
  { unfold window. etrans; [apply List.filter_length_le|apply lastn_length]. }
  unfold snapshot. rewrite Hs. cbn [fst sample_count ttft_p50_ms ttft_p90_ms ttft_p99_ms].
  set (ts := omap sm_ttft_ms (window now h)).
  assert (length ts <= MAX_SAMPLES)%nat as Hts.
  { subst ts. etrans; [|exact Hlen]. clear. induction (window now h) as [|x l IH]; [done|]. csimpl.
    destruct (sm_ttft_ms x); csimpl; lia. }
  pose proof (merge_sort_Permutation Z.le ts) as Hp. pose proof (Sorted_merge_sort Z.le ts) as Hsort.
  set (sorted := merge_sort Z.le ts) in *.
  assert (forall x, x ∈ sorted <-> x ∈ ts) as Hmem by (intros x; by rewrite Hp).
  assert (length sorted = length ts) as Hls by by apply Permutation_length.
  split_and!; [done|lia|unfold MAX_SAMPLES in *; lia| | |].
  - intros p Hpin. destruct (decide (ts = [])) as [E|E].
    + assert (sorted = []) as E' by (apply Permutation_nil_r; by rewrite <- E).
      rewrite E', E in *. simpl in Hpin. split; [|by intros (x & ?%not_elem_of_nil)].
      intros [x ->]. repeat (apply elem_of_cons in Hpin as [?|Hpin]; [done|]). by apply not_elem_of_nil in Hpin.
    + assert (1 <= length sorted <= MAX_SAMPLES)%nat as Hr by (rewrite Hls; destruct ts; [done|simpl in *; lia]).
      rewrite (percentile_p50 sorted Hr), (percentile_p90 sorted Hr), (percentile_p99 sorted Hr) in Hpin.
      destruct (rank_order (length sorted)) as (R1 & R2 & R3); [lia|].
      split; [intros _; destruct ts as [|t ts']; [done|]; exists t; by left|]. intros _.
      repeat (apply elem_of_cons in Hpin as [->|Hpin]; [apply lookup_lt_is_Some; lia|]). by apply not_elem_of_nil in Hpin.
  - intros a b c Ha Hb Hc.
    assert (1 <= length sorted <= MAX_SAMPLES)%nat as Hr by (split; [destruct sorted; [done|simpl; lia]|lia]).
    rewrite (percentile_p50 sorted Hr) in Ha. rewrite (percentile_p90 sorted Hr) in Hb. rewrite (percentile_p99 sorted Hr) in Hc.
    destruct (rank_order (length sorted)) as (R1 & R2 & R3); [lia|].
    split_and!; try (by apply Hmem; eapply list_elem_of_lookup_2); [by eapply (sorted_lookup_le sorted _ _ _ _ Hsort R1)|].
    by eapply (sorted_lookup_le sorted _ _ _ _ Hsort R2).
  - unfold recently_unstable. cbn [seconds_since_outage bk_last_outage evict]. rewrite bucket_outage.
    destruct (last (List.filter outage h)) as [x|]; simpl; [|split; [done|by intros (? & ? & _)]].
    rewrite Z.ltb_lt. split; [by exists x|by intros (? & [= <-] & ?)].
Qed.

Definition sample_at (t : Z) (ok : bool) (ms : option Z) : Sample := mkSample (from_secs t) ok true ms None.
Definition toy_history : list Sample :=
  [sample_at 0 true (Some 900); sample_at 200 true (Some 300); sample_at 250 false None; sample_at 290 true (Some 100)].
Lemma health_snapshot_witness :
  sample_count (snapshot (from_secs 310) (bucket_of toy_history)).1 = 3 /\
  recently_unstable (snapshot (from_secs 310) (bucket_of toy_history)).1 = false.
Proof.
  destruct (health_snapshot toy_history (sample_at 290 true (Some 100)) (from_secs 310)) as (Hc & _ & _ & _ & Hu).
  - repeat constructor; vm_compute; discriminate.
  - reflexivity.
  - vm_compute. discriminate.
  - split; [rewrite Hc; vm_compute; reflexivity|]. apply not_true_iff_false. rewrite Hu.
    intros (x & Hx & Hlt). vm_compute in Hx. injection Hx as <-. vm_compute in Hlt. discriminate.
Defined.
