(* ===== verification/Market.v ===== *)
(** * The provider marketplace

    The in-memory snapshot of [gateway/src/providers/registry.rs], the
    preferences, filters and orders of [gateway/src/router.rs], and the dispatch
    to centralized providers of [gateway/src/handlers/centralized.rs].  The
    providers themselves (the HTTP client) are a parameter: what each answers.
    JSON numbers are integers; the lists a model row stores as JSON text are
    lists.  The rows of [provider_models] are kept in the order of the table. *)

From S2P Require Import Prelude Db RustStr Merkle F64 Wallet ShareKeys Settlement Accounts ApiKeys Providers Registry.
From S2P Require Import Pins Auth PinWire Catalog ChatPrepare Chat ProviderHealth.
From Stdlib Require Import Ascii.

Open Scope string_scope.
Open Scope list_scope.
Open Scope Z_scope.

(** ** Rows and the snapshot *)

#[export] Instance ProviderStatus_eq_dec : EqDecision ProviderStatus.
Proof. solve_decision. Defined.

(** [ProviderRow] of the code: a row of the table with its types. *)
Record Provider : Type := mkProvider {
  pv_provider_id : string;
  pv_slug : string;
  pv_display_name : string;
  pv_base_url : string;
  pv_wire_format : ProviderWireFormat;
  pv_auth_header_name : string;
  pv_auth_secret_ref : string;
  pv_status : ProviderStatus;
  pv_data_collection : string;
  pv_zdr : bool;
  pv_quantization : option string;
  pv_created_at : Z;
  pv_updated_at : Z
}.
Record ProviderModelRow : Type := mkProviderModelRow {
  pm_provider_id : string;
  pm_model_id : string;
  pm_pricing_prompt_usd : string;
  pm_pricing_completion_usd : string;
  pm_pricing_request_usd : option string;
  pm_min_context : option Z;
  pm_context_length : Z;
  pm_max_output_tokens : option Z;
  pm_supported_features : list string;
  pm_input_modalities : list string;
  pm_deprecation_date : option string
}.
Definition pm_prompt_price_usd (m : ProviderModelRow) : f64 := price_of (pm_pricing_prompt_usd m).
Definition pm_completion_price_usd (m : ProviderModelRow) : f64 := price_of (pm_pricing_completion_usd m).
Definition pm_request_price_usd (m : ProviderModelRow) : f64 :=
  match pm_pricing_request_usd m with Some s => price_of s | None => f64_zero end.

(** The two tables. *)
Record MarketDb : Type := mkMarketDb {
  mk_db : Db;
  mk_models : list ProviderModelRow
}.
Definition same_key (provider_id model_id : string) (m : ProviderModelRow) : bool :=
  bool_decide (pm_provider_id m = provider_id) && bool_decide (pm_model_id m = model_id).
(** [INSERT ... ON CONFLICT(provider_id, model_id) DO UPDATE], with the foreign
    key to [providers]. *)
Definition upsert_provider_model (row : ProviderModelRow) (db : MarketDb) : result anyhow MarketDb :=
  let at_key := same_key (pm_provider_id row) (pm_model_id row) in
  guard? bool_decide (is_Some (providers (mk_db db) !! pm_provider_id row)) else (Sql ForeignKeyViolation) in
  Ok (mkMarketDb (mk_db db)
        (if existsb at_key (mk_models db) then (fun m => if at_key m then row else m) <$> mk_models db
         else mk_models db ++ [row])).
Definition delete_provider_model (provider_id model_id : string) (db : MarketDb) : MarketDb :=
  mkMarketDb (mk_db db) (List.filter (fun m => negb (same_key provider_id model_id m)) (mk_models db)).

(** [Inner]. *)
Record ProviderRegistry : Type := mkProviderRegistry {
  rg_providers : gmap string Provider;
  rg_by_slug : gmap string string;
  rg_by_model : gmap string (list ProviderModelRow)
}.
Definition provider_of (provider_id : string) (row : ProviderRow) : Provider :=
  mkProvider provider_id (prv_slug row) (prv_display_name row) (prv_base_url row) (wire_format_parse (prv_wire_format row))
    (prv_auth_header_name row) (prv_auth_secret_ref row) (default Providers.Disabled (provider_status_parse (prv_status row)))
    (prv_data_collection row) (negb (prv_zdr row =? 0)) (prv_quantization row) (prv_created_at row) (prv_updated_at row).
Definition push_model (by_model : gmap string (list ProviderModelRow)) (m : ProviderModelRow)
    : gmap string (list ProviderModelRow) :=
  <[pm_model_id m := default [] (by_model !! pm_model_id m) ++ [m]]> by_model.
Definition refresh (db : MarketDb) : ProviderRegistry :=
  mkProviderRegistry (map_imap (fun id row => Some (provider_of id row)) (providers (mk_db db)))
    (foldl (fun m '(id, row) => <[prv_slug row := id]> m) ∅ (map_to_list (providers (mk_db db))))
    (foldl push_model ∅ (mk_models db)).

Definition get_provider (provider_id : string) (r : ProviderRegistry) : option Provider := rg_providers r !! provider_id.
Definition by_slug (slug : string) (r : ProviderRegistry) : option Provider :=
  rg_by_slug r !! slug ≫= fun id => rg_providers r !! id.
Definition active_pair (r : ProviderRegistry) (m : ProviderModelRow) : option (Provider * ProviderModelRow) :=
  p ← rg_providers r !! pm_provider_id m;
  if bool_decide (pv_status p = Providers.Active) then Some (p, m) else None.
Definition lookup_model (model_id : string) (r : ProviderRegistry) : list (Provider * ProviderModelRow) :=
  omap (active_pair r) (default [] (rg_by_model r !! model_id)).
Definition list_active_providers (r : ProviderRegistry) : list Provider :=
  List.filter (fun p => bool_decide (pv_status p = Providers.Active)) (snd <$> map_to_list (rg_providers r)).
Definition list_models_for (provider_id : string) (r : ProviderRegistry) : list ProviderModelRow :=
  List.filter (fun m => bool_decide (pm_provider_id m = provider_id)) (concat (snd <$> map_to_list (rg_by_model r))).

(** ** Preferences *)

Inductive SortKey : Type := SPrice | SThroughput | SLatency.
Record MaxPrice : Type := mkMaxPrice {
  mp_prompt : option f64;
  mp_completion : option f64;
  mp_request : option f64
}.
Record PercentilePref : Type := mkPercentilePref {
  pp_p50 : option f64;
  pp_p90 : option f64;
  pp_p99 : option f64
}.
Record ProviderPreferences : Type := mkPreferences {
  pf_order : option (list string);
  pf_allow_fallbacks : bool;
  pf_only : option (list string);
  pf_ignore : option (list string);
  pf_quantizations : option (list string);
  pf_sort : option SortKey;
  pf_max_price : option MaxPrice;
  pf_min_throughput : option PercentilePref;
  pf_max_latency : option PercentilePref;
  pf_require_parameters : bool;
  pf_data_collection : option string;
  pf_zdr : option bool
}.
(** The derived [Default]: every field is that of its type. *)
Definition default_preferences : ProviderPreferences :=
  mkPreferences None false None None None None None None None false None None.

Definition sort_key_of (j : Json) : option SortKey :=
  match j with
  | JString "price" => Some SPrice
  | JString "throughput" => Some SThroughput
  | JString "latency" => Some SLatency
  | _ => None
  end.
(** Untagged: a key, or an object with [by] and [partition]. *)
Definition sort_pref_of (j : Json) : option SortKey :=
  match sort_key_of j, j with
  | Some k, _ => Some k
  | None, JObject o => k ← required "by" sort_key_of o; _ ← opt_field "partition" as_string o; Some k
  | None, _ => None
  end.
Definition as_f64 (j : Json) : option f64 := f64_of_Z <$> as_number j.
Definition max_price_of (j : Json) : option MaxPrice :=
  match j with
  | JObject o =>
      p ← opt_field "prompt" as_f64 o;
      c ← opt_field "completion" as_f64 o;
      r ← opt_field "request" as_f64 o;
      _ ← opt_field "image" as_f64 o;
      Some (mkMaxPrice p c r)
  | _ => None
  end.
Definition percentile_pref_of (j : Json) : option PercentilePref :=
  match j with
  | JObject o =>
      a ← opt_field "p50" as_f64 o;
      _ ← opt_field "p75" as_f64 o;
      b ← opt_field "p90" as_f64 o;
      c ← opt_field "p99" as_f64 o;
      Some (mkPercentilePref a b c)
  | _ => None
  end.
Definition preferences_of (j : Json) : option ProviderPreferences :=
  match j with
  | JObject o =>
      let strings := as_array as_string in
      order ← opt_field "order" strings o;
      fallbacks ← defaulted "allow_fallbacks" true as_bool o;
      only ← opt_field "only" strings o;
      ignore ← opt_field "ignore" strings o;
      quants ← opt_field "quantizations" strings o;
      sort ← opt_field "sort" sort_pref_of o;
      price ← opt_field "max_price" max_price_of o;
      tput ← opt_field "preferred_min_throughput" percentile_pref_of o;
      lat ← opt_field "preferred_max_latency" percentile_pref_of o;
      params ← defaulted "require_parameters" false as_bool o;
      dc ← opt_field "data_collection" as_string o;
      zdr ← opt_field "zdr" as_bool o;
      Some (mkPreferences order fallbacks only ignore quants sort price tput lat params dc zdr)
  | _ => None
  end.

Definition remove_key (key : string) (j : Json) : Json :=
  match j with JObject o => JObject (List.filter (fun e => negb (String.eqb e.1 key)) o) | j => j end.
Definition extract_preferences (body : Json) : ProviderPreferences * Json :=
  (match get "provider" body with
   | None | Some JNull => default_preferences
   | Some raw => default default_preferences (preferences_of raw)
   end, remove_key "provider" body).
Definition with_sort (k : SortKey) (p : ProviderPreferences) : ProviderPreferences :=
  mkPreferences (pf_order p) (pf_allow_fallbacks p) (pf_only p) (pf_ignore p) (pf_quantizations p) (Some k)
    (pf_max_price p) (pf_min_throughput p) (pf_max_latency p) (pf_require_parameters p) (pf_data_collection p) (pf_zdr p).

(** A shortcut sorts when the preferences do not. *)
Definition with_shortcut (slug_sort : option SortKey) (p : ProviderPreferences) : ProviderPreferences :=
  match pf_sort p, slug_sort with None, Some s => with_sort s p | _, _ => p end.

(** [model.strip_suffix(suffix)]. *)
Definition strip_suffix (suffix s : string) : option string :=
  let n := (String.length s - String.length suffix)%nat in
  if String.eqb (String.substring n (String.length suffix) s) suffix && Nat.leb (String.length suffix) (String.length s)
  then Some (String.substring 0 n s) else None.
Definition parse_slug_shortcut (model : string) : string * option SortKey :=
  match strip_suffix ":nitro" model with
  | Some rest => (rest, Some SThroughput)
  | None =>
      match strip_suffix ":floor" model with
      | Some rest => (rest, Some SPrice)
      | None => (model, None)
      end
  end.

(** ** Candidates *)

Record ProviderCandidate : Type := mkCandidate {
  pc_provider : Provider;
  pc_model : ProviderModelRow;
  pc_prompt_price : f64;
  pc_completion_price : f64;
  pc_health : HealthSnapshot
}.
(** The fleet as a whole is one candidate, at price zero. *)
Inductive Candidate : Type :=
| LocalDistributed
| Centralized (c : ProviderCandidate).
Definition slug_of (c : Candidate) : string :=
  match c with LocalDistributed => "teale-distributed" | Centralized c => pv_slug (pc_provider c) end.
Definition prompt_price (c : Candidate) : f64 :=
  match c with LocalDistributed => f64_zero | Centralized c => pc_prompt_price c end.
Definition completion_price (c : Candidate) : f64 :=
  match c with LocalDistributed => f64_zero | Centralized c => pc_completion_price c end.
Definition blended_price (c : Candidate) : f64 :=
  f64_div (f64_add (prompt_price c) (completion_price c)) (f64_of_Z 2).

Definition contains (l : list string) (s : string) : bool := existsb (String.eqb s) l.
(** The price filter; the caps are per million tokens. *)
Definition within_price (m : ProviderModelRow) (cap : MaxPrice) : bool :=
  match mp_prompt cap with Some p => negb (f64_lt p (f64_mul (pm_prompt_price_usd m) (f64_of_Z 1000000))) | None => true end &&
  match mp_completion cap with Some c => negb (f64_lt c (f64_mul (pm_completion_price_usd m) (f64_of_Z 1000000))) | None => true end &&
  match mp_request cap with Some r => negb (f64_lt r (pm_request_price_usd m)) | None => true end.
(** The body of the loop of [rank_provider_candidates] up to the health. *)
Definition acceptable (request_context : Z) (features : list string) (prefs : ProviderPreferences)
    (row : Provider * ProviderModelRow) : bool :=
  let '(p, m) := row in
  bool_decide (pv_status p = Providers.Active) &&
  match pf_only prefs with Some only => contains only (pv_slug p) | None => true end &&
  negb (contains (default [] (pf_ignore prefs)) (pv_slug p)) &&
  match pf_quantizations prefs with
  | Some allowed => match pv_quantization p with Some q => contains allowed q | None => false end
  | None => true
  end &&
  match pf_zdr prefs with Some zdr => negb (zdr && negb (pv_zdr p)) | None => true end &&
  match pf_data_collection prefs with
  | Some dc => negb (String.eqb dc "deny" && negb (String.eqb (pv_data_collection p) "deny"))
  | None => true
  end &&
  negb ((0 <? request_context) && (pm_context_length m <? request_context)) &&
  (if pf_require_parameters prefs then forallb (contains (pm_supported_features m)) features else true) &&
  match pf_max_price prefs with Some cap => within_price m cap | None => true end.

(** [health.snapshot] drops old samples as it reads. *)
Fixpoint rank_provider_candidates (now : Z) (model_id : string) (request_context : Z) (features : list string)
    (prefs : ProviderPreferences) (health : HealthTracker) (rows : list (Provider * ProviderModelRow))
    : list ProviderCandidate * HealthTracker :=
  match rows with
  | [] => ([], health)
  | (p, m) :: rows =>
      if acceptable request_context features prefs (p, m) then
        let '(h, health) := tracker_snapshot now (pv_provider_id p) model_id health in
        let '(out, health) := rank_provider_candidates now model_id request_context features prefs health rows in
        (mkCandidate p m (pm_prompt_price_usd m) (pm_completion_price_usd m) h :: out, health)
      else rank_provider_candidates now model_id request_context features prefs health rows
  end.

(** ** Orders *)

(** A stable sort, as [sort_by] is. *)
Section StableSort.
Context {A : Type} (before : A -> A -> bool).
Fixpoint insert_stable (x : A) (l : list A) : list A :=
  match l with
  | [] => [x]
  | y :: l' => if before x y then x :: l else y :: insert_stable x l'
  end.
Definition stable_sort (l : list A) : list A := foldr insert_stable [] l.
End StableSort.

Definition check_min (actual target : option f64) : bool :=
  match actual, target with
  | _, None => true
  | Some a, Some t => f64_ge a t
  | None, Some _ => false
  end.
Definition meets_min_throughput (h : HealthSnapshot) (p : PercentilePref) : bool :=
  check_min (tps_p50 h) (pp_p50 p) && check_min (tps_p90 h) (pp_p90 p) && check_min (tps_p99 h) (pp_p99 p).
Definition check_max (actual : option Z) (target : option f64) : bool :=
  match actual, target with
  | _, None => true
  | Some a, Some t => f64_le (f64_of_Z a) (f64_mul t (f64_of_Z 1000))
  | None, Some _ => false
  end.
Definition meets_max_latency (h : HealthSnapshot) (p : PercentilePref) : bool :=
  check_max (ttft_p50_ms h) (pp_p50 p) && check_max (ttft_p90_ms h) (pp_p90 p) && check_max (ttft_p99_ms h) (pp_p99 p).

(** [bx.cmp(&ax)]: those that meet the preference first. *)
Definition meets_first (meets : ProviderCandidate -> bool) (a b : ProviderCandidate) : bool := implb (meets b) (meets a).
Definition f64_ascending (a b : f64) : bool := bool_decide (f64_before a b).
Definition price_first (a b : Candidate) : bool := f64_ascending (blended_price a) (blended_price b).
Definition throughput_of (c : Candidate) : f64 :=
  match c with Centralized c => default f64_zero (tps_p50 (pc_health c)) | LocalDistributed => f64_zero end.
Definition throughput_first (a b : Candidate) : bool := f64_ascending (throughput_of b) (throughput_of a).
Definition latency_of (c : Candidate) : Z :=
  match c with Centralized c => default (2 ^ 64 - 1) (ttft_p50_ms (pc_health c)) | LocalDistributed => 2 ^ 64 - 1 end.
Definition latency_first (a b : Candidate) : bool := latency_of a <=? latency_of b.
(** [order.iter().position(..).unwrap_or(usize::MAX)]. *)
Fixpoint position (slug : string) (order : list string) (i : Z) : Z :=
  match order with
  | [] => 2 ^ 64 - 1
  | s :: order => if eq_ignore_ascii_case s slug then i else position slug order (i + 1)
  end.
Definition order_first (order : list string) (a b : Candidate) : bool :=
  position (slug_of a) order 0 <=? position (slug_of b) order 0.
Definition is_stable (c : Candidate) : bool :=
  match c with Centralized c => negb (recently_unstable (pc_health c)) | LocalDistributed => true end.

Definition order_candidates (candidates : list ProviderCandidate) (local : bool) (prefs : ProviderPreferences)
    : list Candidate :=
  let l := match pf_min_throughput prefs with
           | Some t => stable_sort (meets_first (fun c => meets_min_throughput (pc_health c) t)) candidates
           | None => candidates
           end in
  let l := match pf_max_latency prefs with
           | Some t => stable_sort (meets_first (fun c => meets_max_latency (pc_health c) t)) l
           | None => l
           end in
  let all := (Centralized <$> l) ++ (if local then [LocalDistributed] else []) in
  match pf_order prefs, pf_sort prefs with
  | Some order, _ => stable_sort (order_first order) all
  | None, Some SPrice => stable_sort price_first all
  | None, Some SThroughput => stable_sort throughput_first all
  | None, Some SLatency => stable_sort latency_first all
  | None, None => stable_sort price_first (List.filter is_stable all) ++ List.filter (fun c => negb (is_stable c)) all
  end.

(** ** Dispatch *)

Definition not_null (j : option Json) : bool := match j with Some JNull | None => false | Some _ => true end.
Definition features_from_body (body : Json) : list string :=
  let format := (get "response_format" body ≫= get "type") ≫= as_string in
  (if not_null (get "tools" body) || not_null (get "functions" body) then ["tools"] else []) ++
  (if bool_decide (format = Some "json_object") then ["json_mode"] else []) ++
  (if bool_decide (format = Some "json_schema") then ["structured_outputs"] else []).

(** The centralized candidates before the fleet. *)
Fixpoint before_local (l : list Candidate) : list ProviderCandidate :=
  match l with
  | Centralized c :: l => c :: before_local l
  | _ => []
  end.

(** What the dispatch decided before it contacts anybody: [None] leaves the
    request to the fleet. *)
Record Plan : Type := mkPlan {
  pl_tried : list ProviderCandidate;
  pl_prefs : ProviderPreferences;
  pl_body : Json;
  pl_stream : bool
}.
Definition plan (now : Z) (local_loaded : nat) (registry : ProviderRegistry) (health : HealthTracker) (body : Json)
    : option Plan * Json * HealthTracker :=
  match get "model" body ≫= as_string with
  | None => (None, body, health)
  | Some raw_model =>
      let '(clean_model, slug_sort) := parse_slug_shortcut raw_model in
      let body := if String.eqb clean_model raw_model then body else set_key "model" (JString clean_model) body in
      let '(prefs, body) := extract_preferences body in
      let prefs := with_shortcut slug_sort prefs in
      let rows := lookup_model clean_model registry in
      if Nat.eqb (length rows) 0 then (None, body, health)
      else
        let '(candidates, health) :=
          rank_provider_candidates now clean_model 0 (features_from_body body) prefs health rows in
        let first_in_order :=
          match pf_order prefs with
          | Some (first :: _) => existsb (fun c => String.eqb (pv_slug (pc_provider c)) first) candidates
          | _ => false
          end in
        let only_supply := Nat.eqb local_loaded 0 && negb (Nat.eqb (length candidates) 0) in
        if negb first_in_order && negb only_supply then (None, body, health)
        else
          let tried := before_local (order_candidates candidates (Nat.ltb 0 local_loaded) prefs) in
          if Nat.eqb (length tried) 0 then (None, body, health)
          else (Some (mkPlan tried prefs body (default false (get "stream" body ≫= as_bool))), body, health)
  end.

(** The body that is sent: the model under the provider's name for it. *)
Definition upstream_body (pc : ProviderCandidate) (body : Json) : Json :=
  set_key "model" (JString (pm_model_id (pc_model pc))) body.

Definition provider_gateway_error (e : ProviderError) : GatewayError :=
  Upstream (match e with
            | PHttp code m => "provider HTTP " ++ show_z code ++ ": " ++ m
            | PMidStream m => "mid-stream: " ++ m
            | PNetwork m => "network: " ++ m
            | PInvalid m => "invalid: " ++ m
            | PUnavailable => "provider unavailable"
            end)%string.

Record MarketState : Type := mkMarketState {
  ms_health : HealthTracker;
  ms_db : option Db
}.
(** What a provider answered to an attempt: when, after how many milliseconds,
    with what, and the identifier of the request. *)
Record Answer : Type := mkAnswer {
  an_now : Clock;
  an_total_ms : Z;
  an_result : result ProviderError (Json * UsageReport);
  an_request_id : string
}.

(** A failed settlement is logged. *)
Definition settle_provider (now : Z) (consumer : option ConsumerPrincipal) (pc : ProviderCandidate) (u : UsageReport)
    (request_id : string) (db : option Db) : option Db :=
  match consumer, db with
  | Some c, Some d =>
      let cost := cost_credits (u_prompt_tokens u) (u_completion_tokens u) (pc_prompt_price pc) (pc_completion_price pc) in
      match settle_provider_request now c (pv_provider_id (pc_provider pc)) cost request_id (pm_model_id (pc_model pc)) d with
      | Ok d' => Some d'
      | Err _ => Some d
      end
  | _, _ => db
  end.
(** [completion_tokens.checked_div((total_ms as u32).max(1) / 1000).max(1))]. *)
Definition buffered_tps (u : UsageReport) (total_ms : Z) : f64 :=
  f64_of_Z (u_completion_tokens u / Z.max (Z.max (u32_wrap total_ms) 1 / 1000) 1).
Definition streaming_tps (u : UsageReport) (total_ms : Z) : option f64 :=
  if 0 <? total_ms
  then Some (f64_div (f64_of_Z (u_completion_tokens u)) (f64_div (f64_of_Z total_ms) (f64_of_Z 1000)))
  else None.

(** A provider answered: [dispatch_buffered] after the call, and the end of the
    task of [dispatch_streaming]. *)
Definition answered_ok (stream : bool) (consumer : option ConsumerPrincipal) (pc : ProviderCandidate) (a : Answer)
    (u : UsageReport) (s : MarketState) : MarketState :=
  let tps := if stream then streaming_tps u (an_total_ms a) else Some (buffered_tps u (an_total_ms a)) in
  mkMarketState
    (record_success (instant (an_now a)) (pv_provider_id (pc_provider pc)) (pm_model_id (pc_model pc)) (u_ttft_ms u) tps
       (ms_health s))
    (settle_provider (unix_secs (an_now a)) consumer pc u (an_request_id a) (ms_db s)).
Definition answered_err (pc : ProviderCandidate) (a : Answer) (e : ProviderError) (s : MarketState) : MarketState :=
  mkMarketState
    (record_failure (instant (an_now a)) (pv_provider_id (pc_provider pc)) (pm_model_id (pc_model pc))
       (counts_against_uptime e) (ms_health s))
    (ms_db s).

Inductive DispatchResult : Type :=
| Answered (reply : Json)
| StreamingFrom (pc : ProviderCandidate)
| DispatchFailed (e : GatewayError).

Section Dispatch.
(** The upstream: what it answers to the [k]-th attempt of the request. *)
Variable upstream : nat -> ProviderCandidate -> Json -> Answer.

(** The loop over the candidates, for a buffered request.  Returns the
    providers that were contacted, too. *)
Fixpoint walk (k : nat) (fallbacks : bool) (consumer : option ConsumerPrincipal) (body : Json)
    (last_err : option ProviderError) (tried : list ProviderCandidate) (s : MarketState)
    : DispatchResult * list ProviderCandidate * MarketState :=
  match tried with
  | [] =>
      (DispatchFailed (match last_err with
                       | Some e => provider_gateway_error e
                       | None => Upstream "no centralized provider candidates"
                       end), [], s)
  | pc :: rest =>
      let a := upstream k pc (upstream_body pc body) in
      match an_result a with
      | Ok (reply, u) => (Answered reply, [pc], answered_ok false consumer pc a u s)
      | Err e =>
          let s := answered_err pc a e s in
          if fallbacks then
            let '(r, contacted, s) := walk (S k) fallbacks consumer body (Some e) rest s in (r, pc :: contacted, s)
          else (DispatchFailed (provider_gateway_error e), [pc], s)
      end
  end.

(** A stream is answered at once; the pump reports its end later. *)
Definition run_plan (p : Plan) (consumer : option ConsumerPrincipal) (s : MarketState)
    : DispatchResult * list ProviderCandidate * MarketState :=
  if pl_stream p then
    match pl_tried p with
    | pc :: _ => (StreamingFrom pc, [pc], s)
    | [] => (DispatchFailed (Upstream "no centralized provider candidates"), [], s)
    end
  else walk 0 (pf_allow_fallbacks (pl_prefs p)) consumer (pl_body p) None (pl_tried p) s.
Definition pump_done (pc : ProviderCandidate) (consumer : option ConsumerPrincipal) (a : Answer) (s : MarketState)
    : MarketState :=
  match an_result a with
  | Ok (_, u) => answered_ok true consumer pc a u s
  | Err e => answered_err pc a e s
  end.

(** [None] leaves the request to the fleet, with the body as it then is. *)
Definition try_centralized_dispatch (now : Z) (local_loaded : nat) (registry : ProviderRegistry) (who : AuthPrincipal)
    (body : Json) (s : MarketState) : option (DispatchResult * list ProviderCandidate) * Json * MarketState :=
  let '(p, body', health) := plan now local_loaded registry (ms_health s) body in
  let s := mkMarketState health (ms_db s) in
  match p with
  | None => (None, body', s)
  | Some p => let '(r, contacted, s) := run_plan p (consumer_principal who) s in (Some (r, contacted), body', s)
  end.
End Dispatch.
