(* ===== verification/MarketFacts.v ===== *)
(** * What the marketplace promises

    The snapshot of the providers agrees with the tables, the order of the
    candidates is the one asked for, and whoever is contacted satisfies the
    preferences of the request. *)

From S2P Require Import Prelude Db RustStr Merkle Fixtures F64 Wallet ShareKeys Settlement Accounts ApiKeys Providers Registry RegistryFacts.
From S2P Require Import SettlementFacts.
From S2P Require Import Pins Auth PinWire Catalog ChatPrepare Chat ChatBudget ProviderHealth ProviderHealthFacts Market.

From stdpp Require Import sorting.

Open Scope string_scope.
Open Scope list_scope.
Open Scope Z_scope.

(** ** The snapshot *)

Lemma push_models_spec l acc id :
  default [] (foldl push_model acc l !! id) =
  default [] (acc !! id) ++ List.filter (fun m => bool_decide (pm_model_id m = id)) l.
Proof.
  revert acc. induction l as [|m l IH]; intros acc; simpl; [by rewrite app_nil_r|]. rewrite IH. unfold push_model.
  destruct (decide (pm_model_id m = id)) as [<-|Hne].
  - rewrite lookup_insert_eq, bool_decide_eq_true_2 by done. simpl. by rewrite <- app_assoc.
  - rewrite lookup_insert_ne, bool_decide_eq_false_2 by done. done.
Qed.

Lemma refresh_get db id : get_provider id (refresh db) = provider_of id <$> providers (mk_db db) !! id.
Proof. unfold get_provider, refresh. simpl. rewrite map_lookup_imap. by destruct (_ !! id). Qed.

Lemma refresh_lookup db id : rg_providers (refresh db) !! id = provider_of id <$> providers (mk_db db) !! id.
Proof. apply refresh_get. Qed.

Lemma status_active row :
  default Providers.Disabled (provider_status_parse (prv_status row)) = Providers.Active <-> prv_status row = "active".
Proof.
  unfold provider_status_parse. destruct (decide (prv_status row = "active")) as [E|E].
  - by rewrite bool_decide_eq_true_2 by done.
  - rewrite bool_decide_eq_false_2 by done. split; [|done]. repeat case_bool_decide; done.
Qed.

Definition slugs_unique (db : MarketDb) : Prop :=
  forall i j r r', providers (mk_db db) !! i = Some r -> providers (mk_db db) !! j = Some r' -> prv_slug r = prv_slug r' -> i = j.

Lemma slug_fold (l : list (string * ProviderRow)) acc slug :
  (forall i j r r', (i, r) ∈ l -> (j, r') ∈ l -> prv_slug r = prv_slug r' -> i = j) ->
  foldl (fun m '(id, row) => <[prv_slug row := id]> m) acc l !! slug =
  match List.find (fun '(_, row) => bool_decide (prv_slug row = slug)) l with
  | Some (id, _) => Some id
  | None => (acc : gmap string string) !! slug
  end.
Proof.
  revert acc. induction l as [|[id row] l IH]; intros acc Hu; [done|]. simpl.
  assert (forall i j r r', (i, r) ∈ l -> (j, r') ∈ l -> prv_slug r = prv_slug r' -> i = j) as Hu'
    by (intros i j r r' Hi Hj; apply Hu; by right).
  rewrite IH by done. destruct (decide (prv_slug row = slug)) as [E|E].
  - rewrite bool_decide_eq_true_2 by done. destruct (List.find _ l) as [[id' row']|] eqn:Hf; [|by rewrite E, lookup_insert_eq].
    apply List.find_some in Hf as [Hin Hs%bool_decide_eq_true]. f_equal. apply (Hu id' id row' row).
    + right. by apply list_elem_of_In.
    + by left.
    + congruence.
  - rewrite bool_decide_eq_false_2 by done. destruct (List.find _ l) as [[]|]; [done|]. by rewrite lookup_insert_ne.
Qed.

(** The snapshot of the providers agrees with the tables it was read from:
    a provider is found under its id and, slugs being unique, under its slug;
    and routing a model sees exactly the rows of that model whose provider is
    active, in the order of the table. *)
Theorem snapshot_exact (db : MarketDb) :
  slugs_unique db ->
  (forall id, get_provider id (refresh db) = provider_of id <$> providers (mk_db db) !! id) /\
  (forall slug p, by_slug slug (refresh db) = Some p <->
     exists id row, providers (mk_db db) !! id = Some row /\ prv_slug row = slug /\ p = provider_of id row) /\
  (forall model p m, (p, m) ∈ lookup_model model (refresh db) <->
     m ∈ mk_models db /\ pm_model_id m = model /\
     exists row, providers (mk_db db) !! pm_provider_id m = Some row /\ prv_status row = "active" /\
       p = provider_of (pm_provider_id m) row) /\
  (forall model, sublist (snd <$> lookup_model model (refresh db)) (mk_models db)).
Proof.
  intros Hu. split; [apply refresh_get|].
  assert (forall model, default [] (rg_by_model (refresh db) !! model) =
    List.filter (fun m => bool_decide (pm_model_id m = model)) (mk_models db)) as Hm.
  { intros model. unfold refresh. simpl. rewrite push_models_spec, lookup_empty. done. }
  split_and!.
  - intros slug p. unfold by_slug.
    assert (rg_by_slug (refresh db) !! slug =
      match List.find (fun '(_, row) => bool_decide (prv_slug row = slug)) (map_to_list (providers (mk_db db))) with
      | Some (id, _) => Some id
      | None => (∅ : gmap string string) !! slug
      end) as ->.
    { unfold refresh. simpl. apply slug_fold. intros i j r r' Hi%elem_of_map_to_list Hj%elem_of_map_to_list. by eapply Hu. }
    destruct (List.find _ _) as [[id row]|] eqn:Hf.
    + apply List.find_some in Hf as [Hin%list_elem_of_In%elem_of_map_to_list Hs%bool_decide_eq_true].
      change (Some id ≫= (fun id => rg_providers (refresh db) !! id)) with (rg_providers (refresh db) !! id).
      rewrite refresh_lookup, Hin. simpl. split.
      * intros [= <-]. by exists id, row.
      * intros (id' & row' & Hr' & Hs' & ->). assert (id = id') as -> by (eapply Hu; [done|done|congruence]). congruence.
    + rewrite lookup_empty. simpl. split; [done|]. intros (id & row & Hr & Hs & _). exfalso.
      assert (In (id, row) (map_to_list (providers (mk_db db)))) as Hin by by apply list_elem_of_In, elem_of_map_to_list.
      apply (List.find_none _ _ Hf) in Hin. simpl in Hin. by apply bool_decide_eq_false in Hin.
  - intros model p m. unfold lookup_model. rewrite Hm, list_elem_of_omap. unfold active_pair.
    setoid_rewrite refresh_lookup. split.
    + intros (m' & [Hin Hid]%filter_member & Ha). apply bool_decide_eq_true in Hid.
      destruct (providers (mk_db db) !! pm_provider_id m') as [row|] eqn:Hr; [|done]. simpl in Ha.
      destruct (bool_decide _) eqn:Hst; [|done]. injection Ha as <- <-. apply bool_decide_eq_true in Hst.
      split_and!; [done|done|]. exists row. split_and!; [done|by apply status_active|done].
    + intros (Hin & Hid & row & Hr & Hst & ->). exists m. split; [apply filter_member; by rewrite bool_decide_eq_true|].
      rewrite Hr. simpl. rewrite bool_decide_eq_true_2; [done|]. by apply status_active.
  - intros model. unfold lookup_model. rewrite Hm. clear. induction (mk_models db) as [|m l IH]; [constructor|]. simpl.
    destruct (bool_decide _); [|by apply sublist_cons]. csimpl.
    unfold active_pair at 1. destruct (rg_providers (refresh db) !! pm_provider_id m) as [p|]; simpl; [|by apply sublist_cons].
    destruct (bool_decide _); [by apply sublist_skip|by apply sublist_cons].
Qed.

(** ** Orders *)

Section Sorts.
Context {A : Type} (before : A -> A -> bool) (P : A -> Prop).
Hypothesis before_total : forall x y, P x -> P y -> before x y = true \/ before y x = true.
Hypothesis before_trans : forall x y z, P x -> P y -> P z -> before x y = true -> before y z = true -> before x z = true.

Lemma insert_permutation x l : insert_stable before x l ≡ₚ x :: l.
Proof. induction l as [|y l IH]; [done|]. simpl. destruct (before x y); [done|]. rewrite IH. constructor. Qed.
Lemma stable_permutation l : stable_sort before l ≡ₚ l.
Proof. induction l as [|x l IH]; [done|]. simpl. by rewrite insert_permutation, IH. Qed.

Lemma insert_sorted x l :
  P x -> Forall P l -> StronglySorted (fun a b => before a b = true) l ->
  StronglySorted (fun a b => before a b = true) (insert_stable before x l).
Proof.
  intros Hx Hl Hs. induction Hs as [|y l Hs IH Hf]; [repeat constructor|]. apply Forall_cons in Hl as [Hy Hl]. simpl.
  destruct (before x y) eqn:E.
  - constructor; [by constructor|]. constructor; [done|]. rewrite !Forall_forall in *. intros z Hz.
    eapply (before_trans x y z); auto.
  - constructor; [by apply IH|]. rewrite insert_permutation. constructor; [|done].
    destruct (before_total x y) as [?|?]; [done|done|congruence|done].
Qed.
Lemma stable_sorted l : Forall P l -> StronglySorted (fun a b => before a b = true) (stable_sort before l).
Proof.
  induction l as [|x l IH]; intros Hl; [constructor|]. apply Forall_cons in Hl as [Hx Hl]. simpl.
  apply insert_sorted; [done| |by apply IH]. by rewrite stable_permutation.
Qed.
End Sorts.

Lemma by_key_sorted {A} (key : A -> Z) l :
  StronglySorted (fun a b => (key a <=? key b) = true) (stable_sort (fun a b => key a <=? key b) l).
Proof.
  apply (stable_sorted _ (fun _ => True)); [|intros x y z _ _ _; rewrite !Z.leb_le; lia|by apply Forall_true].
  intros x y _ _. rewrite !Z.leb_le. lia.
Qed.

Definition priced (c : Candidate) : Prop := is_nan (blended_price c) = false.
Lemma ascending_spec x y : is_nan x = false -> is_nan y = false -> f64_ascending x y = f64_le x y.
Proof.
  intros Hx Hy. unfold f64_ascending. apply eq_true_iff_eq. rewrite bool_decide_eq_true. unfold f64_le, SFleb, f64_before.
  destruct (SFcompare x y) as [[]|] eqn:E; simpl; try done.
  exfalso. destruct x as [[]|[]| |[] ? ?], y as [[]|[]| |[] ? ?]; done.
Qed.
Lemma price_sorted l :
  Forall priced l -> StronglySorted (fun a b => price_first a b = true) (stable_sort price_first l).
Proof.
  apply (stable_sorted _ priced); unfold price_first, priced.
  - intros x y Hx Hy. rewrite !ascending_spec by done. destruct (f64_lt (blended_price y) (blended_price x)) eqn:E.
    + right. by apply f64_lt_le.
    + left. by apply f64_not_lt.
  - intros x y z Hx Hy Hz. rewrite !ascending_spec by done. apply f64_le_trans.
Qed.

Lemma order_permutation l local prefs :
  order_candidates l local prefs ≡ₚ (Centralized <$> l) ++ (if local then [LocalDistributed] else []).
Proof.
  unfold order_candidates. set (l1 := match pf_min_throughput prefs with Some _ => _ | None => _ end).
  assert (l1 ≡ₚ l) as E1 by (subst l1; destruct (pf_min_throughput prefs); [apply stable_permutation|done]).
  set (l2 := match pf_max_latency prefs with Some _ => _ | None => _ end).
  assert (l2 ≡ₚ l) as E2 by (subst l2; destruct (pf_max_latency prefs); [by rewrite stable_permutation|done]).
  set (all := (Centralized <$> l2) ++ _). assert (all ≡ₚ (Centralized <$> l) ++ (if local then [LocalDistributed] else [])) as Ea
    by (subst all; by rewrite E2).
  rewrite <- Ea. destruct (pf_order prefs); [apply stable_permutation|].
  destruct (pf_sort prefs) as [[]|]; try apply stable_permutation. rewrite stable_permutation.
  clear. induction all as [|c all IH]; [done|]. simpl. destruct (is_stable c); simpl; [by rewrite IH|].
  by rewrite <- Permutation_middle, IH.
Qed.

(** The order of the candidates.  No candidate is lost, added or repeated;
    with an [order] they are sorted by the position of their slug in it, those
    it does not name last; with a sort key by price or latency they are sorted
    by it; without preferences every provider that was not recently unstable
    (and the fleet) comes before every one that was, the former by price. *)
Theorem candidate_order (l : list ProviderCandidate) (local : bool) (prefs : ProviderPreferences) :
  Forall (fun c => priced (Centralized c)) l ->
  let out := order_candidates l local prefs in
  out ≡ₚ (Centralized <$> l) ++ (if local then [LocalDistributed] else []) /\
  match pf_order prefs, pf_sort prefs with
  | Some order, _ =>
      StronglySorted (fun a b => (position (slug_of a) order 0 <=? position (slug_of b) order 0) = true) out
  | None, Some SPrice => StronglySorted (fun a b => price_first a b = true) out
  | None, Some SLatency => StronglySorted (fun a b => (latency_of a <=? latency_of b) = true) out
  | None, Some SThroughput => True
  | None, None => exists stable unstable, out = stable ++ unstable /\
      (forall c, c ∈ stable -> is_stable c = true) /\ (forall c, c ∈ unstable -> is_stable c = false) /\
      StronglySorted (fun a b => price_first a b = true) stable
  end.
Proof.
  intros Hp. cbv zeta. split; [apply order_permutation|].
  assert (forall all, all ≡ₚ (Centralized <$> l) ++ (if local then [LocalDistributed] else []) -> Forall priced all) as Hall.
  { intros all ->. apply Forall_app. split; [by apply Forall_fmap|]. destruct local; by repeat constructor. }
  pose proof (order_permutation l local prefs) as Hperm. unfold order_candidates in *.
  set (l2 := match pf_max_latency prefs with Some _ => _ | None => _ end) in *.
  destruct (pf_order prefs) as [order|]; [apply by_key_sorted|].
  destruct (pf_sort prefs) as [[]|]; [|done|apply by_key_sorted|].
  - apply price_sorted, Hall. by rewrite <- stable_permutation.
  - eexists _, _. split; [done|]. split_and!.
    + intros c. rewrite stable_permutation. by intros [_ ?]%filter_member.
    + intros c [_ ?%negb_true_iff]%filter_member. done.
    + apply price_sorted. specialize (Hall _ Hperm). apply Forall_app in Hall as [Hs _]. by rewrite stable_permutation in Hs.
Qed.

(** ** Who is contacted *)

Lemma contains_spec l s : contains l s = true <-> s ∈ l.
Proof.
  unfold contains. rewrite existsb_exists, list_elem_of_In. split.
  - by intros (x & Hx & ->%String.eqb_eq).
  - intros Hs. exists s. split; [done|apply String.eqb_refl].
Qed.

(** A price is not above the cap, if there is one. *)
Definition not_above (cap : option f64) (usd : f64) : Prop := forall x, cap = Some x -> f64_lt x usd = false.
(** The price of a million tokens, from the text in the table. *)
Definition per_million (listed : string) : f64 := f64_mul (price_of listed) (f64_of_Z 1000000).

(** The provider and its model satisfy the preferences. *)
Record obeys (prefs : ProviderPreferences) (features : list string) (p : Provider) (m : ProviderModelRow) : Prop := {
  ob_active : pv_status p = Providers.Active;
  ob_only : forall l, pf_only prefs = Some l -> pv_slug p ∈ l;
  ob_ignore : forall l, pf_ignore prefs = Some l -> pv_slug p ∉ l;
  ob_quantization : forall l, pf_quantizations prefs = Some l -> exists q, pv_quantization p = Some q /\ q ∈ l;
  ob_zdr : pf_zdr prefs = Some true -> pv_zdr p = true;
  ob_data_collection : pf_data_collection prefs = Some "deny" -> pv_data_collection p = "deny";
  ob_features : pf_require_parameters prefs = true -> forall f, f ∈ features -> f ∈ pm_supported_features m;
  ob_price : forall cap, pf_max_price prefs = Some cap ->
    not_above (mp_prompt cap) (per_million (pm_pricing_prompt_usd m)) /\
    not_above (mp_completion cap) (per_million (pm_pricing_completion_usd m)) /\
    forall listed, pm_pricing_request_usd m = Some listed -> not_above (mp_request cap) (price_of listed)
}.

Lemma acceptable_obeys ctx features prefs p m : acceptable ctx features prefs (p, m) = true -> obeys prefs features p m.
Proof.
  unfold acceptable. intros Ha. apply andb_true_iff in Ha as [Ha Hprice]. apply andb_true_iff in Ha as [Ha Hfeat].
  apply andb_true_iff in Ha as [Ha _]. apply andb_true_iff in Ha as [Ha Hdc]. apply andb_true_iff in Ha as [Ha Hzdr].
  apply andb_true_iff in Ha as [Ha Hq]. apply andb_true_iff in Ha as [Ha Hig]. apply andb_true_iff in Ha as [Ha Honly].
  apply bool_decide_eq_true in Ha. split; [done|..].
  - intros l E. rewrite E in Honly. by apply contains_spec.
  - intros l E Hin. apply contains_spec in Hin. rewrite E in Hig. simpl in Hig. by rewrite Hin in Hig.
  - intros l E. rewrite E in Hq. destruct (pv_quantization p) as [q|]; [|done]. exists q. split; [done|by apply contains_spec].
  - intros E. rewrite E in Hzdr. by destruct (pv_zdr p).
  - intros E. rewrite E in Hdc. simpl in Hdc. by destruct (String.eqb_spec (pv_data_collection p) "deny").
  - intros E f Hf. rewrite E in Hfeat. rewrite forallb_forall in Hfeat. by apply contains_spec, Hfeat, list_elem_of_In.
  - intros cap E. rewrite E in Hprice. apply andb_true_iff in Hprice as [[H1 H2]%andb_true_iff H3].
    split_and!.
    + intros x Ex. rewrite Ex in H1. by apply negb_true_iff.
    + intros x Ex. rewrite Ex in H2. by apply negb_true_iff.
    + intros listed El x Ex. rewrite Ex in H3. unfold pm_request_price_usd in H3. rewrite El in H3. by apply negb_true_iff.
Qed.

(** A candidate carries the prices of the table. *)
Definition listed (c : ProviderCandidate) : Prop :=
  pc_prompt_price c = price_of (pm_pricing_prompt_usd (pc_model c)) /\
  pc_completion_price c = price_of (pm_pricing_completion_usd (pc_model c)).

Lemma rank_spec now model ctx features prefs health rows c :
  c ∈ (rank_provider_candidates now model ctx features prefs health rows).1 ->
  (pc_provider c, pc_model c) ∈ rows /\ acceptable ctx features prefs (pc_provider c, pc_model c) = true /\
  listed c.
Proof.
  revert health. induction rows as [|[p m] rows IH]; intros health; [by intros ?%not_elem_of_nil|].
  cbn [rank_provider_candidates]. destruct (acceptable ctx features prefs (p, m)) eqn:Ha.
  - destruct (tracker_snapshot _ _ _ _) as [h health']. specialize (IH health').
    destruct (rank_provider_candidates _ _ _ _ _ _ _) as [out health'']. simpl in *.
    intros [->|Hc]%elem_of_cons; [split_and!; try done; by left|].
    destruct (IH Hc) as (? & ? & ?). split_and!; try done. by right.
  - intros Hc. destruct (IH _ Hc) as (? & ? & ?). split_and!; try done. by right.
Qed.

Lemma before_local_elem l c : c ∈ before_local l -> Centralized c ∈ l.
Proof.
  induction l as [|[|x] l IH]; simpl; try by intros ?%not_elem_of_nil.
  intros [->|Hc]%elem_of_cons; [by left|right; by apply IH].
Qed.

(** The preferences of a request, and the model it names. *)
Definition prefs_of (body : Json) : ProviderPreferences := (extract_preferences body).1.
Definition clean_model_of (body : Json) : option string := (fun m => (parse_slug_shortcut m).1) <$> (get "model" body ≫= as_string).

Lemma extract_set_model j body :
  (extract_preferences (set_key "model" j body)).1 = (extract_preferences body).1 /\
  features_from_body (extract_preferences (set_key "model" j body)).2 = features_from_body (extract_preferences body).2.
Proof.
  destruct body as [| | | | |o]; try done. unfold extract_preferences, features_from_body, get, set_key, remove_key. simpl.
  assert (forall k o, String.eqb k "provider" = false -> field k (List.filter (fun e => negb (String.eqb e.1 "provider")) o) = field k o) as Hrem.
  { intros k l Hk. unfold field. induction l as [|[a w] l IH]; [done|]. simpl.
    destruct (String.eqb a "provider") eqn:E; simpl.
    - apply String.eqb_eq in E as ->. rewrite String.eqb_sym in Hk. by rewrite Hk.
    - destruct (String.eqb a k); [done|exact IH]. }
  rewrite !Hrem, !(field_insert_ne "model") by done. done.
Qed.

Lemma obeys_sort prefs features p m k : obeys (with_sort k prefs) features p m -> obeys prefs features p m.
Proof. intros []. by split. Qed.

Lemma remove_key_gone b : get "provider" (extract_preferences b).2 = None.
Proof.
  unfold extract_preferences. simpl. destruct b as [| | | | |o]; try done. simpl. unfold field.
  induction o as [|[a w] o IH]; [done|]. simpl. destruct (String.eqb a "provider") eqn:E; simpl; [done|]. by rewrite E.
Qed.

Lemma plan_spec now loaded registry health body pl body' health' :
  plan now loaded registry health body = (Some pl, body', health') ->
  exists model, clean_model_of body = Some model /\ pl_tried pl <> [] /\
    pf_allow_fallbacks (pl_prefs pl) = pf_allow_fallbacks (prefs_of body) /\ get "provider" body' = None /\
    forall c, c ∈ pl_tried pl -> listed c /\ (pc_provider c, pc_model c) ∈ lookup_model model registry /\
      obeys (prefs_of body) (features_from_body body') (pc_provider c) (pc_model c).
Proof.
  unfold plan, clean_model_of. destruct (get "model" body ≫= as_string) as [raw|]; [|done].
  cbn [fmap option_fmap option_map].
  destruct (parse_slug_shortcut raw) as [clean sort]. set (b1 := if String.eqb clean raw then body else _).
  assert ((extract_preferences b1).1 = prefs_of body) as Hpr.
  { subst b1. unfold prefs_of. destruct (String.eqb clean raw); [done|]. apply extract_set_model. }
  assert (get "provider" (extract_preferences b1).2 = None) as Hgone.
  { apply remove_key_gone. }
  destruct (extract_preferences b1) as [prefs b2]. simpl in Hpr, Hgone. subst prefs.
  set (prefs := with_shortcut sort (prefs_of body)).
  assert (pf_allow_fallbacks prefs = pf_allow_fallbacks (prefs_of body) /\
    forall features p m, obeys prefs features p m -> obeys (prefs_of body) features p m) as [Hfb Hob].
  { subst prefs. unfold with_shortcut. destruct (pf_sort (prefs_of body)), sort; try done. split; [done|]. intros. by eapply obeys_sort. }
  cbv zeta. destruct (Nat.eqb _ 0); [done|].
  pose proof (rank_spec now clean 0 (features_from_body b2) prefs health (lookup_model clean registry)) as Hrank.
  destruct (rank_provider_candidates _ _ _ _ _ _ _) as [cands health1]. cbn [fst] in Hrank.
  match goal with |- (if ?b then _ else _) = _ -> _ => destruct b; [done|] end.
  pose proof (before_local_elem (order_candidates cands (Nat.ltb 0 loaded) prefs)) as Hbl.
  destruct (before_local _) as [|t tried] eqn:Ht; [done|]. intros [= <- <- <-].
  exists clean. split_and!; try done. cbn [pl_tried]. intros c Hc. apply Hbl in Hc.
  rewrite order_permutation in Hc. apply elem_of_app in Hc as [Hc|Hc].
  - apply list_elem_of_fmap in Hc as (c' & [= <-] & Hc). destruct (Hrank c Hc) as (Hin & Ha & Hl).
    split; [done|]. split; [done|]. by apply Hob, (acceptable_obeys 0).
  - destruct (Nat.ltb 0 loaded); [by apply list_elem_of_singleton in Hc|by apply not_elem_of_nil in Hc].
Qed.

Lemma plan_gone now loaded registry health body pl body' health' :
  clean_model_of body <> None -> plan now loaded registry health body = (pl, body', health') -> get "provider" body' = None.
Proof.
  unfold plan, clean_model_of. destruct (get "model" body ≫= as_string) as [raw|]; [|done]. intros _.
  destruct (parse_slug_shortcut raw) as [clean sort]. set (b1 := if String.eqb clean raw then body else _).
  pose proof (remove_key_gone b1) as Hgone. destruct (extract_preferences b1) as [prefs b2]. cbn [snd] in Hgone. cbv zeta.
  destruct (Nat.eqb _ 0); [by intros [= <- <- <-]|].
  destruct (rank_provider_candidates _ _ _ _ _ _ _) as [cands health1].
  do 2 (match goal with |- (if ?b then _ else _) = _ -> _ => destruct b; [by intros [= <- <- <-]|] end).
  by intros [= <- <- <-].
Qed.

Lemma plan_body now loaded registry health body pl body' health' :
  plan now loaded registry health body = (Some pl, body', health') -> pl_body pl = body'.
Proof.
  unfold plan. destruct (get "model" body ≫= as_string) as [raw|]; [|done].
  destruct (parse_slug_shortcut raw) as [clean sort]. destruct (extract_preferences _) as [prefs b2]. cbv zeta.
  destruct (Nat.eqb _ 0); [done|]. destruct (rank_provider_candidates _ _ _ _ _ _ _) as [cands health1].
  do 2 (match goal with |- (if ?b then _ else _) = _ -> _ => destruct b; [done|] end). by intros [= <- <- <-].
Qed.

Section Walk.
Variable upstream : nat -> ProviderCandidate -> Json -> Answer.

(** The [k]-th attempt of the request. *)
Definition attempt (body : Json) (k : nat) (pc : ProviderCandidate) : Answer := upstream k pc (upstream_body pc body).
Definition attempt_fails (body : Json) (k : nat) (pc : ProviderCandidate) : Prop := exists e, an_result (attempt body k pc) = Err e.

(** The ledger [db] is settled for the tokens [pc] reported at the prices it
    lists, into [db'], as [settle_provider_request] does; if that is refused, or
    the caller is nobody who pays, the ledger stays as it is.  Nothing is paid to
    another provider. *)
Definition settled_with (now : Z) (consumer : option ConsumerPrincipal) (pc : ProviderCandidate) (u : UsageReport)
    (request_id : string) (db db' : option Db) : Prop :=
  match consumer, db with
  | Some c, Some d =>
      exists d', db' = Some d' /\
        let cost := cost_credits (u_prompt_tokens u) (u_completion_tokens u)
          (price_of (pm_pricing_prompt_usd (pc_model pc))) (price_of (pm_pricing_completion_usd (pc_model pc))) in
        match settle_provider_request now c (pv_provider_id (pc_provider pc)) cost request_id (pm_model_id (pc_model pc)) d with
        | Ok settled => d' = settled
        | Err _ => d' = d
        end /\
        forall p, p <> pv_provider_id (pc_provider pc) -> provider_wallets d' !! p = provider_wallets d !! p
  | _, _ => db' = db
  end.
Lemma settle_settles now consumer pc u rid db :
  listed pc -> settled_with now consumer pc u rid db (settle_provider now consumer pc u rid db).
Proof.
  intros [E1 E2]. unfold settled_with, settle_provider. destruct consumer as [c|], db as [d|]; [|done..]. rewrite <- E1, <- E2.
  destruct (settle_provider_request _ _ _ _ _ _ _) as [d'|e] eqn:E; eexists; split_and!; try done.
  intros p. by eapply settle_provider_others.
Qed.

(** A buffered request that contacted [contacted]: all but the last attempt
    failed; a reply is that of the last, which alone is settled; an error means
    that the last failed too, and that nothing was settled. *)
Definition dispatched_well (fallbacks : bool) (consumer : option ConsumerPrincipal) (body : Json) (k : nat)
    (tried contacted : list ProviderCandidate) (r : DispatchResult) (db db' : option Db) : Prop :=
  contacted `prefix_of` tried /\ (tried <> [] -> contacted <> []) /\ (fallbacks = false -> (length contacted <= 1)%nat) /\
  match r with
  | Answered reply =>
      exists failed pc u, contacted = failed ++ [pc] /\
        (forall i c, failed !! i = Some c -> attempt_fails body (k + i) c) /\
        let a := attempt body (k + length failed) pc in
        an_result a = Ok (reply, u) /\
        settled_with (unix_secs (an_now a)) consumer pc u (an_request_id a) db db'
  | DispatchFailed _ =>
      (forall i c, contacted !! i = Some c -> attempt_fails body (k + i) c) /\ db' = db /\
      (fallbacks = true -> contacted = tried)
  | StreamingFrom _ => False
  end.

Lemma walk_spec fallbacks consumer body tried : Forall listed tried -> forall k last_err s r contacted s',
  walk upstream k fallbacks consumer body last_err tried s = (r, contacted, s') ->
  dispatched_well fallbacks consumer body k tried contacted r (ms_db s) (ms_db s').
Proof.
  induction 1 as [|pc rest Hpc _ IH]; intros k last_err s r contacted s'; cbn [walk].
  { intros [= <- <- <-]. split_and!; try done; simpl; lia. }
  fold (attempt body k pc). destruct (an_result (attempt body k pc)) as [[reply u]|e] eqn:Ha.
  - intros [= <- <- <-]. split_and!; [by apply prefix_cons, prefix_nil|done|simpl; lia|].
    exists [], pc, u. simpl. rewrite Nat.add_0_r. split_and!; try done. by apply settle_settles.
  - destruct fallbacks.
    + destruct (walk upstream _ _ _ _ _ _ _) as [[r0 c0] s0] eqn:Hw. intros [= <- <- <-].
      apply IH in Hw as (Hpre & _ & _ & Hr). split_and!; [by apply prefix_cons|done|done|].
      assert (forall l, (forall i c, l !! i = Some c -> attempt_fails body (S k + i) c) ->
                forall i c, (pc :: l) !! i = Some c -> attempt_fails body (k + i) c) as Hshift.
      { intros l Hl [|i] c; cbn; [intros [= <-]; rewrite Nat.add_0_r; by exists e|].
        intros Hi. rewrite <- plus_n_Sm. by apply (Hl i). }
      destruct r0 as [reply| |err]; [|done|].
      * destruct Hr as (failed & p & u & -> & Hf & Ha' & Hs). exists (pc :: failed), p, u.
        rewrite length_cons, <- plus_n_Sm. split_and!; [done|by apply Hshift|by split].
      * destruct Hr as (Hf & -> & Hall). split_and!; [by apply Hshift|done|intros _; by rewrite (Hall eq_refl)].
    + intros [= <- <- <-]. split_and!; [by apply prefix_cons, prefix_nil|done|simpl; lia| |done|done].
      intros [|i] c; cbn; [intros [= <-]; rewrite Nat.add_0_r; by exists e|by intros [=]].
Qed.
End Walk.


(** ** A concrete marketplace *)

Definition toy_row : ProviderModelRow :=
  mkProviderModelRow "acme" "hermes-3-8b" "0.0000005" "0.000001" None None 32768 None ["tools"] ["text"] None.
Definition toy_market : MarketDb := mkMarketDb demo [toy_row].
Definition toy_request (provider : Json) : Json :=
  JObject [("model", JString "hermes-3-8b:floor"); ("provider", provider)].
Definition toy_answer (r : result ProviderError (Json * UsageReport)) : Answer := mkAnswer (at_secs 100) 900 r "req-1".
Definition toy_reply : Json := JObject [("id", JString "cmpl-9")].
Definition toy_upstream (k : nat) (pc : ProviderCandidate) (body : Json) : Answer :=
  toy_answer (Ok (toy_reply, mkUsageReport 1000000 0 None)).

Lemma toy_slugs_unique : slugs_unique toy_market.
Proof.
  assert (providers (mk_db toy_market) = {["acme" := default (mkProviderRow "" "" "" "" "" "" "" "" 0 None 0 0) (providers demo !! "acme")]})
    as E by (vm_compute; reflexivity).
  intros i j r r'. rewrite E. by intros [<- _]%lookup_singleton_Some [<- _]%lookup_singleton_Some.
Qed.

Lemma snapshot_exact_witness :
  slugs_unique toy_market /\ exists p, by_slug "acme" (refresh toy_market) = Some p /\ pv_data_collection p = "deny".
Proof.
  split; [exact toy_slugs_unique|]. eexists. split.
  - apply (snapshot_exact toy_market toy_slugs_unique). exists "acme", (default (mkProviderRow "" "" "" "" "" "" "" "" 0 None 0 0) (providers demo !! "acme")).
    split; [vm_compute; reflexivity|]. split; reflexivity.
  - vm_compute. reflexivity.
Defined.

Definition toy_candidate (slug : string) (prompt completion : Z) : ProviderCandidate :=
  mkCandidate (mkProvider slug slug "" "" Openai "" "" Providers.Active "deny" true None 0 0) toy_row (f64_of_Z prompt)
    (f64_of_Z completion) (tracker_snapshot 0 slug "m" ∅).1.
Lemma candidate_order_witness :
  order_candidates [toy_candidate "dear" 3 4; toy_candidate "cheap" 1 2] true default_preferences
    ≡ₚ [Centralized (toy_candidate "dear" 3 4); Centralized (toy_candidate "cheap" 1 2); LocalDistributed] /\
  slug_of <$> order_candidates [toy_candidate "dear" 3 4; toy_candidate "cheap" 1 2] true default_preferences
    = ["teale-distributed"; "cheap"; "dear"].
Proof.
  split; [|vm_compute; reflexivity].
  apply (candidate_order [toy_candidate "dear" 3 4; toy_candidate "cheap" 1 2] true default_preferences).
  repeat constructor.
Defined.


(** ** Where the code and its documentation part *)

(** Fallbacks are allowed by default only when a [provider] object is given: a
    request without one, whose [provider] is null, or whose [provider] is
    malformed, gets the derived [Default], in which they are not. *)
Theorem fallbacks_off_without_preferences :
  pf_allow_fallbacks (prefs_of (JObject [("model", JString "m")])) = false /\
  pf_allow_fallbacks (prefs_of (JObject [("model", JString "m"); ("provider", JNull)])) = false /\
  pf_allow_fallbacks (prefs_of (JObject [("model", JString "m"); ("provider", JObject [])])) = true.
Proof. done. Qed.

(** A malformed field anywhere in [provider] drops the privacy requirements
    beside it instead of refusing the request. *)
Theorem malformed_preferences_drop_privacy :
  let body := JObject [("provider", JObject [("zdr", JBool true); ("data_collection", JString "deny"); ("sort", JString "cheapest")])] in
  pf_zdr (prefs_of body) = None /\ pf_data_collection (prefs_of body) = None.
Proof. done. Qed.

(** A caller without credits is answered by a provider, and nothing is
    settled: the centralized path has no admission by balance. *)
Theorem centralized_serves_without_credits :
  let '(r, _, s') := try_centralized_dispatch toy_upstream 100 0 (refresh toy_market) (PDevice "carol")
    (toy_request JNull) (mkMarketState ∅ (Some demo)) in
  balance_of "carol" demo = 0 /\ fst <$> r = Some (Answered toy_reply) /\
  provider_balance_of "acme" <$> ms_db s' = Some (provider_balance_of "acme" demo).
Proof. vm_compute. split_and!; reflexivity. Qed.

(** [order] ranks slugs without regard to case, but whether the centralized
    path is taken at all compares them exactly. *)
Theorem order_case_decides :
  let request slug := toy_request (JObject [("order", JArray [JString slug])]) in
  is_Some (plan 100 1 (refresh toy_market) ∅ (request "acme")).1.1 /\
  (plan 100 1 (refresh toy_market) ∅ (request "ACME")).1.1 = None /\
  position "acme" ["ACME"] 0 = 0.
Proof. cbv zeta. split_and!; [vm_compute; by eexists|vm_compute; reflexivity|vm_compute; reflexivity]. Qed.

(** The context filter is off: the dispatch passes a context of 0, for which
    every model is long enough. *)
Theorem context_filter_unused features prefs p m n :
  acceptable 0 features prefs (p, m) =
  acceptable 0 features prefs (p, mkProviderModelRow (pm_provider_id m) (pm_model_id m) (pm_pricing_prompt_usd m)
    (pm_pricing_completion_usd m) (pm_pricing_request_usd m) (pm_min_context m) n (pm_max_output_tokens m)
    (pm_supported_features m) (pm_input_modalities m) (pm_deprecation_date m)).
Proof. by destruct m. Qed.

(** A price that is not a number counts as zero, and so passes every cap. *)
Theorem malformed_price_passes_cap cap :
  within_price (mkProviderModelRow "p" "m" "5 USD" "5 USD" (Some "5 USD") None 0 None [] [] None) cap =
  within_price (mkProviderModelRow "p" "m" "0" "0" (Some "0") None 0 None [] [] None) cap.
Proof. done. Qed.

(** The outcome of a stream is decided before its provider answers: with two
    candidates and fallbacks, only the first is ever contacted. *)
Theorem streams_never_fall_back upstream pc rest prefs body consumer s :
  run_plan upstream (mkPlan (pc :: rest) prefs body true) consumer s = (StreamingFrom pc, [pc], s).
Proof. done. Qed.
