(* ===== verification/Solana.v ===== *)
(** * Verification of payments and memos on the chain

    [gateway/src/solana.rs]: what the gateway accepts as proof that USDC moved
    or that a memo was published.  The RPC node is a parameter: what it answers
    to a request body.  Its answers are JSON text; decoding them to the structs
    of the file is modelled, with an object in the place of a struct.  [i128] is
    [Z] with its wrap-around; a failure to build the HTTP client is an RPC
    error of the node. *)

From S2P Require Import Prelude Db RustStr Merkle Registry Accounts Anchoring Auth PinWire Catalog ChatPrepare.
From Stdlib Require Import Ascii.

Open Scope string_scope.
Open Scope list_scope.
Open Scope Z_scope.

Definition MICRO_USDC_PER_CENT : Z := 10000.
Definition USDC_DECIMALS : Z := 6.
Definition MEMO_PROGRAM_ID : string := "MemoSq4gqABAXKb96qnH8TysNcWxMyWCqXgDLGmfcHr".

(** ** 128-bit integers *)

Definition i128_max : Z := 2 ^ 127 - 1.
Definition i128_min : Z := - 2 ^ 127.
Definition wrap128 (z : Z) : Z := (z + 2 ^ 127) mod 2 ^ 128 - 2 ^ 127.
Definition i128_add (a b : Z) : Z := wrap128 (a + b).
Definition i128_sub (a b : Z) : Z := wrap128 (a - b).
(** [TryInto<i64>]. *)
Definition try_i64 (z : Z) : option Z := if decide (in_i64 z) then Some z else None.

(** [str::parse::<i128>]: a sign, then digits; each digit is read before the
    overflow of the next one is noticed. *)
Inductive ParseIntError : Type := IntEmpty | IntInvalidDigit | IntPosOverflow | IntNegOverflow.
Definition parse_int_error_text (e : ParseIntError) : string :=
  match e with
  | IntEmpty => "cannot parse integer from empty string"
  | IntInvalidDigit => "invalid digit found in string"
  | IntPosOverflow => "number too large to fit in target type"
  | IntNegOverflow => "number too small to fit in target type"
  end.
Section ParseInt.
Variables (lo hi : Z).
Fixpoint parse_digits (neg : bool) (l : list ascii) (acc : Z) : result ParseIntError Z :=
  match l with
  | [] => Ok acc
  | c :: l =>
      if is_ascii_digit c then
        let d := Z.of_nat (code c) - 48 in
        let acc := if neg then acc * 10 - d else acc * 10 + d in
        if neg && (acc <? lo) then Err IntNegOverflow
        else if negb neg && (hi <? acc) then Err IntPosOverflow
        else parse_digits neg l acc
      else Err IntInvalidDigit
  end.
Definition parse_int (s : string) : result ParseIntError Z :=
  match bytes s with
  | [] => Err IntEmpty
  | [c] => if Ascii.eqb c "+"%char || Ascii.eqb c "-"%char then Err IntInvalidDigit else parse_digits false [c] 0
  | c :: l =>
      if Ascii.eqb c "-"%char then parse_digits true l 0
      else if Ascii.eqb c "+"%char then parse_digits false l 0
      else parse_digits false (c :: l) 0
  end.
End ParseInt.
Definition parse_i128 : string -> result ParseIntError Z := parse_int i128_min i128_max.
Definition parse_i64 : string -> result ParseIntError Z := parse_int i64_min i64_max.

(** ** The answers of the node *)

Record RpcUiTokenAmount : Type := mkUiTokenAmount { ua_amount : string; ua_decimals : Z }.
Record RpcTokenBalance : Type := mkTokenBalance {
  tb_mint : string;
  tb_owner : option string;
  tb_ui_token_amount : RpcUiTokenAmount
}.
Record RpcTransactionMeta : Type := mkTransactionMeta {
  tm_err : option Json;
  tm_pre_token_balances : option (list RpcTokenBalance);
  tm_post_token_balances : option (list RpcTokenBalance)
}.
Record RpcInstruction : Type := mkInstruction { ix_program_id : option string; ix_data : option string }.
Record RpcMessage : Type := mkMessage {
  msg_account_keys : option (list Json);
  msg_instructions : option (list RpcInstruction)
}.
(** [RpcTransactionData] has the one field [message]. *)
Record RpcTransaction : Type := mkTransaction {
  tx_meta : option RpcTransactionMeta;
  tx_transaction : option (option RpcMessage)
}.
Record RpcSignatureStatus : Type := mkSignatureStatus {
  ss_err : option Json;
  ss_confirmation_status : option string
}.

Definition as_u8 (j : Json) : option Z :=
  match j with JNumber z => if (0 <=? z) && (z <=? 255) then Some z else None | _ => None end.
Definition as_record {A} (f : list (string * Json) -> option A) (j : Json) : option A :=
  match j with JObject o => f o | _ => None end.
Definition ui_token_amount_of : Json -> option RpcUiTokenAmount := as_record (fun o =>
  a ← required "amount" as_string o; d ← required "decimals" as_u8 o; Some (mkUiTokenAmount a d)).
Definition token_balance_of : Json -> option RpcTokenBalance := as_record (fun o =>
  m ← required "mint" as_string o; w ← opt_field "owner" as_string o;
  a ← required "uiTokenAmount" ui_token_amount_of o; Some (mkTokenBalance m w a)).
Definition transaction_meta_of : Json -> option RpcTransactionMeta := as_record (fun o =>
  e ← opt_field "err" any_value o; pre ← opt_field "preTokenBalances" (as_array token_balance_of) o;
  post ← opt_field "postTokenBalances" (as_array token_balance_of) o; Some (mkTransactionMeta e pre post)).
Definition instruction_of : Json -> option RpcInstruction := as_record (fun o =>
  p ← opt_field "programId" as_string o; d ← opt_field "data" as_string o; Some (mkInstruction p d)).
Definition message_of_rpc : Json -> option RpcMessage := as_record (fun o =>
  k ← opt_field "accountKeys" (as_array any_value) o; i ← opt_field "instructions" (as_array instruction_of) o;
  Some (mkMessage k i)).
Definition transaction_of : Json -> option RpcTransaction := as_record (fun o =>
  m ← opt_field "meta" transaction_meta_of o;
  t ← opt_field "transaction" (as_record (opt_field "message" message_of_rpc)) o; Some (mkTransaction m t)).
Definition signature_status_of : Json -> option RpcSignatureStatus := as_record (fun o =>
  e ← opt_field "err" any_value o; c ← opt_field "confirmationStatus" as_string o; Some (mkSignatureStatus e c)).
(** [RpcSignatureStatusesResult]. *)
Definition signature_statuses_of : Json -> option (list (option RpcSignatureStatus)) :=
  as_record (required "value" (as_array (as_option signature_status_of))).
(** [RpcEnvelope] with [RpcError]. *)
Definition envelope_of {A} (f : Json -> option A) : Json -> option (option A * option (option string)) := as_record (fun o =>
  r ← opt_field "result" f o; e ← opt_field "error" (as_record (opt_field "message" as_string)) o; Some (r, e)).

(** ** Errors *)

Inductive DepositVerificationError : Type :=
| DepMissingSignature
| DepTransactionNotFound
| DepTransactionNotSettled (required_status : string)
| DepTransactionFailed
| DepNoMatchingDeposit
| DepAmountMismatch (verified requested : Z)
| DepSourceMismatch (verified requested : string)
| DepFractionalCents
| DepUnexpectedDecimals (decimals : Z)
| DepRpc (m : string).
Inductive WithdrawalVerificationError : Type :=
| WdMissingSignature
| WdTransactionNotFound
| WdTransactionNotSettled (required_status : string)
| WdTransactionFailed
| WdNoMatchingWithdrawal
| WdSourceMismatch (verified expected : string)
| WdDestinationMismatch (verified requested : string)
| WdAmountMismatch (verified requested : Z)
| WdTreasuryFeeMismatch (verified expected : Z)
| WdDestinationAmountMismatch (verified expected : Z)
| WdUnexpectedDecimals (decimals : Z)
| WdRpc (m : string).
Inductive TreasuryPayoutError : Type :=
| PayMissingSignature
| PayTransactionNotFound
| PayTransactionNotSettled (required_status : string)
| PayTransactionFailed
| PayTreasuryDebitMismatch
| PayDestinationMismatch
| PayUnexpectedRecipients
| PayDeposit (e : DepositVerificationError)
| PayRpc (m : string).
Inductive TreasuryDepositError : Type :=
| TreMissingSignature
| TreTransactionNotFound
| TreTransactionNotSettled (required_status : string)
| TreTransactionFailed
| TreNoMemoInstruction
| TreMemoMismatch
| TreDeposit (e : DepositVerificationError)
| TreRpc (m : string).
Inductive MemoAnchorError : Type :=
| MemMissingSignature
| MemTransactionNotFound
| MemTransactionNotSettled (required_status : string)
| MemTransactionFailed
| MemNoMemoInstruction
| MemMemoMismatch
| MemWrongAuthority (actual expected : string)
| MemRpc (m : string).

Definition map_deposit_error_to_withdrawal_error (e : DepositVerificationError) : WithdrawalVerificationError :=
  match e with
  | DepTransactionNotFound => WdTransactionNotFound
  | DepTransactionNotSettled s => WdTransactionNotSettled s
  | DepTransactionFailed => WdTransactionFailed
  | DepUnexpectedDecimals d => WdUnexpectedDecimals d
  | DepRpc m => WdRpc m
  | DepMissingSignature => WdMissingSignature
  | DepNoMatchingDeposit => WdNoMatchingWithdrawal
  | DepAmountMismatch _ _ | DepSourceMismatch _ _ | DepFractionalCents =>
      WdRpc "unexpected deposit verification error while verifying withdrawal"
  end.

(** ** Balances *)

Definition parse_token_amount (b : RpcTokenBalance) : result DepositVerificationError Z :=
  let amount := tb_ui_token_amount b in
  guard? ua_decimals amount =? USDC_DECIMALS else (DepUnexpectedDecimals (ua_decimals amount)) in
  map_err (fun e => DepRpc ("invalid token amount: " ++ parse_int_error_text e)%string) (parse_i128 (ua_amount amount)).

(** One turn of the two loops. *)
Definition add_delta (op : Z -> Z -> Z) (usdc_mint : string) (b : RpcTokenBalance) (deltas : gmap string Z)
    : result DepositVerificationError (gmap string Z) :=
  match normalized_optional_string (tb_owner b) with
  | None => Ok deltas
  | Some owner =>
      if negb (String.eqb (tb_mint b) usdc_mint) then Ok deltas
      else
        let? amount := parse_token_amount b in
        Ok (<[owner := op (default 0 (deltas !! owner)) amount]> deltas)
  end.
Definition aggregate_owner_deltas (pre post : list RpcTokenBalance) (usdc_mint : string)
    : result DepositVerificationError (gmap string Z) :=
  let? deltas := fold_res (add_delta i128_sub usdc_mint) pre ∅ in
  fold_res (add_delta i128_add usdc_mint) post deltas.
Definition delta_of (owner : string) (deltas : gmap string Z) : Z := default 0 (deltas !! owner).
Definition meta_deltas (meta : RpcTransactionMeta) (usdc_mint : string) : result DepositVerificationError (gmap string Z) :=
  aggregate_owner_deltas (default [] (tm_pre_token_balances meta)) (default [] (tm_post_token_balances meta)) usdc_mint.

(** The owner that satisfies [P], if there is exactly one. *)
Definition only_owner (P : string -> Z -> bool) (deltas : gmap string Z) : option string :=
  match List.filter (fun '(owner, delta) => P owner delta) (map_to_list deltas) with
  | [(owner, _)] => Some owner
  | _ => None
  end.
Definition infer_source_owner (deltas : gmap string Z) (destination_owner : string) : option string :=
  only_owner (fun o d => negb (String.eqb o destination_owner) && (d <? 0)) deltas.
Definition infer_negative_owner (deltas : gmap string Z) (destination_owner treasury_owner : string) : option string :=
  only_owner (fun o d => negb (String.eqb o destination_owner) && negb (String.eqb o treasury_owner) && (d <? 0)) deltas.
Definition infer_positive_owner (deltas : gmap string Z) (source_owner treasury_owner : string) : option string :=
  only_owner (fun o d => negb (String.eqb o source_owner) && negb (String.eqb o treasury_owner) && (0 <? d)) deltas.

(** The products stay far below 128 bits: an [i64] times 10000, times a [u16]. *)
Definition micro_usdc_from_cents (cents : Z) : Z := cents * MICRO_USDC_PER_CENT.
Definition micro_usdc_to_cents (micro : Z) : result string Z :=
  guard? Z.rem micro MICRO_USDC_PER_CENT =? 0 else "micro-USDC amount was not an exact number of cents" in
  ok_or "micro-USDC cents overflowed i64" (try_i64 (Z.quot micro MICRO_USDC_PER_CENT)).
Definition withdrawal_fee_micro_usdc (gross_micro_usdc fee_bps : Z) : Z := Z.quot (gross_micro_usdc * fee_bps) 10000.

Definition commitment_satisfied (required : string) (actual : option string) : bool :=
  let among l := match actual with Some a => existsb (String.eqb a) l | None => false end in
  if String.eqb required "processed" then among ["processed"; "confirmed"; "finalized"]
  else if String.eqb required "confirmed" then among ["confirmed"; "finalized"]
  else among ["finalized"].

(** ** Deposits and withdrawals *)

Record VerifiedUsdcDeposit : Type := mkVerifiedDeposit {
  vd_tx_signature : string;
  vd_source_address : option string;
  vd_amount_usdc_cents : Z
}.
Definition extract_verified_deposit (tx : RpcTransaction) (destination_owner usdc_mint : string)
    (requested_amount_usdc_cents : option Z) (requested_source_address : option string)
    : result DepositVerificationError VerifiedUsdcDeposit :=
  let? meta := ok_or DepNoMatchingDeposit (tx_meta tx) in
  guard? negb (is_some (tm_err meta)) else DepTransactionFailed in
  let? deltas := meta_deltas meta usdc_mint in
  let credited := delta_of destination_owner deltas in
  guard? 0 <? credited else DepNoMatchingDeposit in
  guard? Z.rem credited MICRO_USDC_PER_CENT =? 0 else DepFractionalCents in
  let? amount := ok_or (DepRpc "verified deposit overflowed i64") (try_i64 (Z.quot credited MICRO_USDC_PER_CENT)) in
  guard? match requested_amount_usdc_cents with Some r => r =? amount | None => true end
    else (DepAmountMismatch amount (default 0 requested_amount_usdc_cents)) in
  let inferred_source := infer_source_owner deltas destination_owner in
  match normalized_optional_string requested_source_address, inferred_source with
  | Some requested, Some verified =>
      guard? String.eqb requested verified else (DepSourceMismatch verified requested) in
      Ok (mkVerifiedDeposit "" inferred_source amount)
  | _, _ => Ok (mkVerifiedDeposit "" inferred_source amount)
  end.

Record VerifiedUsdcWithdrawal : Type := mkVerifiedWithdrawal {
  vw_tx_signature : string;
  vw_source_address : string;
  vw_destination_address : string;
  vw_gross_amount_usdc_cents : Z;
  vw_destination_amount_micro_usdc : Z;
  vw_treasury_amount_micro_usdc : Z
}.
Definition or_overflow {A} (what : string) (o : option A) : result WithdrawalVerificationError A :=
  ok_or (WdRpc (what ++ " overflowed i64")%string) o.
Definition extract_verified_withdrawal (tx : RpcTransaction) (source_owner destination_owner : string)
    (requested_amount_usdc_cents : Z) (usdc_mint treasury_owner : string) (withdrawal_fee_bps : Z)
    : result WithdrawalVerificationError VerifiedUsdcWithdrawal :=
  let? meta := ok_or WdNoMatchingWithdrawal (tx_meta tx) in
  guard? negb (is_some (tm_err meta)) else WdTransactionFailed in
  let? deltas := map_err map_deposit_error_to_withdrawal_error (meta_deltas meta usdc_mint) in
  let source_delta := delta_of source_owner deltas in
  guard? source_delta <? 0 else WdNoMatchingWithdrawal in
  let? verified_source := ok_or WdNoMatchingWithdrawal (infer_negative_owner deltas destination_owner treasury_owner) in
  guard? String.eqb verified_source source_owner else (WdSourceMismatch verified_source source_owner) in
  let gross := micro_usdc_from_cents requested_amount_usdc_cents in
  let debited := wrap128 (- source_delta) in
  let? _ :=
    if debited =? gross then Ok tt
    else
      let? cents := map_err WdRpc (micro_usdc_to_cents debited) in
      Err (WdAmountMismatch cents requested_amount_usdc_cents) in
  let expected_treasury := withdrawal_fee_micro_usdc gross withdrawal_fee_bps in
  let expected_destination := gross - expected_treasury in
  let verified_destination := delta_of destination_owner deltas in
  guard? 0 <? verified_destination
    else (WdDestinationMismatch (default "" (infer_positive_owner deltas source_owner treasury_owner)) destination_owner) in
  let? _ :=
    if verified_destination =? expected_destination then Ok tt
    else
      let? v := or_overflow "verified destination amount" (try_i64 verified_destination) in
      let? e := or_overflow "expected destination amount" (try_i64 expected_destination) in
      Err (WdDestinationAmountMismatch v e) in
  let verified_treasury := delta_of treasury_owner deltas in
  let? _ :=
    if verified_treasury =? expected_treasury then Ok tt
    else
      let? v := or_overflow "verified treasury fee" (try_i64 verified_treasury) in
      let? e := or_overflow "expected treasury fee" (try_i64 expected_treasury) in
      Err (WdTreasuryFeeMismatch v e) in
  let? d := or_overflow "verified destination amount" (try_i64 verified_destination) in
  let? t := or_overflow "verified treasury fee" (try_i64 verified_treasury) in
  Ok (mkVerifiedWithdrawal "" source_owner destination_owner requested_amount_usdc_cents d t).

(** ** Memos *)

Definition ALPHABET : string := "123456789ABCDEFGHJKLMNPQRSTUVWXYZabcdefghijkmnopqrstuvwxyz".
Fixpoint alphabet_position (c : ascii) (l : list ascii) (i : Z) : option Z :=
  match l with
  | [] => None
  | a :: l => if Ascii.eqb a c then Some i else alphabet_position c l (i + 1)
  end.
Definition base58_digit (c : ascii) : option Z := alphabet_position c (bytes ALPHABET) 0.
(** [ch as char] of a byte, as text. *)
Definition latin1 (c : ascii) : string :=
  let z := Z.of_nat (code c) in
  of_bytes (if z <? 128 then [c] else [u8 (192 + z / 64); u8 (128 + z mod 64)]).

(** The loop over the bytes from the last to the first: they are kept here with
    the last one first.  The carry is a [u32]. *)
Fixpoint times_58 (carry : Z) (le : list Z) : list Z * Z :=
  match le with
  | [] => ([], carry)
  | b :: le =>
      let carry := u32_wrap (carry + b * 58) in
      let '(le, rest) := times_58 (Z.shiftr carry 8) le in
      (Z.land carry 255 :: le, rest)
  end.
(** [while carry > 0]: a [u32] has four bytes. *)
Fixpoint carry_bytes (fuel : nat) (carry : Z) : list Z :=
  match fuel with
  | O => []
  | S fuel => if 0 <? carry then Z.land carry 255 :: carry_bytes fuel (Z.shiftr carry 8) else []
  end.
Definition push_digit (d : Z) (le : list Z) : list Z :=
  let '(le, carry) := times_58 d le in le ++ carry_bytes 4 carry.
Fixpoint base58_bytes (l : list ascii) (le : list Z) : result MemoAnchorError (list Z) :=
  match l with
  | [] => Ok le
  | c :: l =>
      match base58_digit c with
      | Some d => base58_bytes l (push_digit d le)
      | None => Err (MemRpc ("invalid base58 character: " ++ latin1 c)%string)
      end
  end.
Fixpoint leading_ones (l : list ascii) : nat :=
  match l with c :: l => if Ascii.eqb c "1"%char then S (leading_ones l) else O | [] => O end.
Definition base58_decode (s : string) : result MemoAnchorError (list Z) :=
  let? le := base58_bytes (bytes s) [] in
  Ok (replicate (leading_ones (bytes s)) 0 ++ rev le).

(** [String::from_utf8]. *)
Definition within (lo hi b : Z) : bool := (lo <=? b) && (b <=? hi).
Fixpoint utf8_valid (l : list Z) : bool :=
  match l with
  | [] => true
  | a :: l1 =>
      if a <? 128 then utf8_valid l1
      else
        match l1 with
        | [] => false
        | b :: l2 =>
            if within 194 223 a then within 128 191 b && utf8_valid l2
            else
              match l2 with
              | [] => false
              | c :: l3 =>
                  if within 224 239 a then
                    (if a =? 224 then within 160 191 b else if a =? 237 then within 128 159 b else within 128 191 b) &&
                    within 128 191 c && utf8_valid l3
                  else
                    match l3 with
                    | [] => false
                    | d :: l4 =>
                        within 240 244 a &&
                        (if a =? 240 then within 144 191 b else if a =? 244 then within 128 143 b else within 128 191 b) &&
                        within 128 191 c && within 128 191 d && utf8_valid l4
                    end
              end
        end
  end.
Definition from_utf8 (l : list Z) : option string := if utf8_valid l then Some (of_bytes (u8 <$> l)) else None.

Definition memo_of (ix : RpcInstruction) : option string :=
  if bool_decide (ix_program_id ix = Some MEMO_PROGRAM_ID)
  then data ← ix_data ix; bs ← ok (base58_decode data); from_utf8 bs
  else None.
Definition memos_of (m : RpcMessage) : list string := omap memo_of (default [] (msg_instructions m)).
(** [accountKeys[0]]: a string, or an object with a [pubkey]. *)
Definition fee_payer_of (m : RpcMessage) : option string :=
  k ← msg_account_keys m ≫= head;
  match as_string k with Some s => Some s | None => get "pubkey" k ≫= as_string end.
Definition message_in (tx : RpcTransaction) : option RpcMessage := t ← tx_transaction tx; t.

(** ** Talking to the node *)

Record SolanaConfig : Type := mkSolanaConfig {
  so_usdc_mint : string;
  so_commitment : string;
  so_max_supported_transaction_version : Z;
  so_treasury_address : string;
  so_withdrawal_fee_bps : Z;
  so_anchor_authority_address : string
}.
(** An HTTP answer: whether the status is a success, its text, the body. *)
Record HttpAnswer : Type := mkHttpAnswer {
  ha_success : bool;
  ha_status : string;
  ha_payload : string
}.
Class SolanaNode : Type := {
  rpc_post : Json -> result string HttpAnswer;
  json_text : string -> result string Json
}.

Section Node.
Context `{SolanaNode}.

(** [serde_json::from_str] to the struct; the text of a mismatch is left out. *)
Definition send_rpc_request {A} (f : Json -> option A) (body : Json) : result DepositVerificationError (option A) :=
  let? answer := map_err DepRpc (rpc_post body) in
  guard? ha_success answer else (DepRpc ("http " ++ ha_status answer ++ " from solana rpc: " ++ ha_payload answer)%string) in
  let? j := map_err (fun e => DepRpc ("invalid rpc response: " ++ e)%string) (json_text (ha_payload answer)) in
  let? envelope := ok_or (DepRpc "invalid rpc response: ") (envelope_of f j) in
  match envelope with
  | (_, Some m) => Err (DepRpc (default "unknown rpc error" m))
  | (r, None) => Ok r
  end.
Definition rpc_body (method : string) (params : list Json) : Json :=
  JObject [("id", JNumber 1); ("jsonrpc", JString "2.0"); ("method", JString method); ("params", JArray params)].
Definition fetch_signature_status (tx_signature : string)
    : result DepositVerificationError (option RpcSignatureStatus) :=
  let? r := send_rpc_request signature_statuses_of (rpc_body "getSignatureStatuses"
    [JArray [JString tx_signature]; JObject [("searchTransactionHistory", JBool true)]]) in
  Ok (l ← r; o ← head l; o).
Definition fetch_transaction (cfg : SolanaConfig) (tx_signature : string)
    : result DepositVerificationError (option RpcTransaction) :=
  send_rpc_request transaction_of (rpc_body "getTransaction"
    [JString tx_signature;
     JObject [("commitment", JString (so_commitment cfg)); ("encoding", JString "jsonParsed");
              ("maxSupportedTransactionVersion", JNumber (so_max_supported_transaction_version cfg))]]).

(** The beginning the verifications share: the transaction exists, did not
    fail, has reached the required commitment, and could be read.  The errors
    are those of the caller. *)
Definition settled_transaction {E} (not_found failed : E) (not_settled : string -> E)
    (err : DepositVerificationError -> E) (cfg : SolanaConfig) (tx_signature : string) : result E RpcTransaction :=
  let? st := map_err err (fetch_signature_status tx_signature) in
  let? st := ok_or not_found st in
  guard? negb (is_some (ss_err st)) else failed in
  guard? commitment_satisfied (so_commitment cfg) (ss_confirmation_status st) else (not_settled (so_commitment cfg)) in
  let? tx := map_err err (fetch_transaction cfg tx_signature) in
  ok_or not_found tx.

Definition verify_usdc_deposit (cfg : SolanaConfig) (destination_owner tx_signature : string)
    (requested_amount : option Z) (requested_source : option string)
    : result DepositVerificationError VerifiedUsdcDeposit :=
  let tx_signature := trim tx_signature in
  guard? negb (is_empty tx_signature) else DepMissingSignature in
  let? tx := settled_transaction DepTransactionNotFound DepTransactionFailed DepTransactionNotSettled id cfg tx_signature in
  let? v := extract_verified_deposit tx destination_owner (so_usdc_mint cfg) requested_amount requested_source in
  Ok (mkVerifiedDeposit tx_signature (vd_source_address v) (vd_amount_usdc_cents v)).

Definition verify_usdc_withdrawal (cfg : SolanaConfig) (source_owner destination_owner : string) (amount_usdc_cents : Z)
    (tx_signature : string) : result WithdrawalVerificationError VerifiedUsdcWithdrawal :=
  let tx_signature := trim tx_signature in
  guard? negb (is_empty tx_signature) else WdMissingSignature in
  guard? 0 <? amount_usdc_cents else (WdAmountMismatch 0 amount_usdc_cents) in
  let? tx := settled_transaction WdTransactionNotFound WdTransactionFailed WdTransactionNotSettled
    map_deposit_error_to_withdrawal_error cfg tx_signature in
  let? v := extract_verified_withdrawal tx source_owner destination_owner amount_usdc_cents (so_usdc_mint cfg)
    (so_treasury_address cfg) (so_withdrawal_fee_bps cfg) in
  Ok (mkVerifiedWithdrawal tx_signature (vw_source_address v) (vw_destination_address v) (vw_gross_amount_usdc_cents v)
        (vw_destination_amount_micro_usdc v) (vw_treasury_amount_micro_usdc v)).

Record VerifiedTreasuryPayout : Type := mkVerifiedPayout {
  vp_tx_signature : string;
  vp_destination_address : string;
  vp_gross_amount_usdc_cents : Z;
  vp_destination_amount_micro_usdc : Z;
  vp_treasury_retained_micro_usdc : Z
}.
Definition verify_treasury_payout (cfg : SolanaConfig) (tx_signature expected_destination : string)
    (gross_amount_usdc_cents : Z) : result TreasuryPayoutError VerifiedTreasuryPayout :=
  let tx_signature := trim tx_signature in
  guard? negb (is_empty tx_signature) else PayMissingSignature in
  let? tx := settled_transaction PayTransactionNotFound PayTransactionFailed PayTransactionNotSettled PayDeposit cfg tx_signature in
  let? meta := ok_or PayDestinationMismatch (tx_meta tx) in
  guard? negb (is_some (tm_err meta)) else PayTransactionFailed in
  let? deltas := map_err PayDeposit (meta_deltas meta (so_usdc_mint cfg)) in
  let gross := gross_amount_usdc_cents * MICRO_USDC_PER_CENT in
  let fee := withdrawal_fee_micro_usdc gross (so_withdrawal_fee_bps cfg) in
  let net := gross - fee in
  guard? delta_of (so_treasury_address cfg) deltas =? - net else PayTreasuryDebitMismatch in
  guard? delta_of expected_destination deltas =? net else PayDestinationMismatch in
  guard? negb (existsb (fun '(owner, delta) => (0 <? delta) && negb (String.eqb owner expected_destination))
                 (map_to_list deltas)) else PayUnexpectedRecipients in
  let? d := ok_or (PayRpc "verified payout overflowed i64") (try_i64 net) in
  let? f := ok_or (PayRpc "verified fee overflowed i64") (try_i64 fee) in
  Ok (mkVerifiedPayout tx_signature expected_destination gross_amount_usdc_cents d f).

Record VerifiedTreasuryDeposit : Type := mkVerifiedTreasuryDeposit {
  vt_tx_signature : string;
  vt_amount_usdc_cents : Z;
  vt_source_address : option string;
  vt_memo : string;
  vt_fee_payer : string
}.
Definition verify_treasury_deposit (cfg : SolanaConfig) (tx_signature expected_memo : string)
    : result TreasuryDepositError VerifiedTreasuryDeposit :=
  let tx_signature := trim tx_signature in
  guard? negb (is_empty tx_signature) else TreMissingSignature in
  let? tx := settled_transaction TreTransactionNotFound TreTransactionFailed TreTransactionNotSettled TreDeposit cfg tx_signature in
  let? message := ok_or (TreRpc "transaction payload missing message") (message_in tx) in
  let? fee_payer := ok_or (TreRpc "transaction message has no account keys") (fee_payer_of message) in
  let memos := memos_of message in
  guard? negb (bool_decide (memos = [])) else TreNoMemoInstruction in
  guard? existsb (String.eqb expected_memo) memos else TreMemoMismatch in
  let? v := map_err TreDeposit (extract_verified_deposit tx (so_treasury_address cfg) (so_usdc_mint cfg) None None) in
  Ok (mkVerifiedTreasuryDeposit tx_signature (vd_amount_usdc_cents v) (vd_source_address v) expected_memo fee_payer).

(** [err.to_string()] of an RPC failure: the text of a [DepositVerificationError]. *)
Record VerifiedMemoAnchor : Type := mkVerifiedMemo {
  vm_tx_signature : string;
  vm_memo : string;
  vm_fee_payer : string
}.
Definition verify_memo_anchor (text : DepositVerificationError -> string) (cfg : SolanaConfig)
    (tx_signature expected_memo authority_address : string) : result MemoAnchorError VerifiedMemoAnchor :=
  let tx_signature := trim tx_signature in
  guard? negb (is_empty tx_signature) else MemMissingSignature in
  let? tx := settled_transaction MemTransactionNotFound MemTransactionFailed MemTransactionNotSettled
    (fun e => MemRpc (text e)) cfg tx_signature in
  let? message := ok_or (MemRpc "transaction payload missing message") (message_in tx) in
  let? fee_payer := ok_or (MemRpc "transaction message has no account keys") (fee_payer_of message) in
  guard? String.eqb fee_payer authority_address else (MemWrongAuthority fee_payer authority_address) in
  let memos := memos_of message in
  guard? negb (bool_decide (memos = [])) else MemNoMemoInstruction in
  guard? existsb (String.eqb expected_memo) memos else MemMemoMismatch in
  Ok (mkVerifiedMemo tx_signature expected_memo fee_payer).
End Node.
