(* ===== verification/SolanaFacts.v ===== *)
(** * What a verified payment means

    Base58 reads back what it was given; the owner deltas are the net USDC the
    transaction moved; and each verification, when it succeeds, states what
    happened on the chain. *)

From S2P Require Import Prelude Db RustStr Merkle Registry Accounts Anchoring Auth PinWire Catalog ChatPrepare Solana.
From Stdlib Require Import Ascii.

Open Scope string_scope.
Open Scope list_scope.
Open Scope Z_scope.

(** ** Positional numbers *)

(** The least significant digit first. *)
Fixpoint le_value (base : Z) (l : list Z) : Z :=
  match l with [] => 0 | d :: l => d + base * le_value base l end.
Definition digits (base : Z) (l : list Z) : Prop := Forall (fun d => 0 <= d < base) l.
(** No superfluous zero at the most significant end. *)
Definition canonical (base : Z) (l : list Z) : Prop := digits base l /\ last l <> Some 0.

Lemma le_value_app base l m : le_value base (l ++ m) = le_value base l + base ^ Z.of_nat (length l) * le_value base m.
Proof.
  induction l as [|d l IH]; cbn [app le_value length]; [change (base ^ Z.of_nat 0) with 1; lia|].
  rewrite IH, Nat2Z.inj_succ, Z.pow_succ_r by lia. lia.
Qed.
Lemma base_value_nonneg base l : 0 < base -> digits base l -> 0 <= le_value base l.
Proof. intros Hb. induction 1 as [|d l Hd _ IH]; cbn [le_value]; nia. Qed.
Lemma canonical_zero base l : 0 < base -> canonical base l -> le_value base l = 0 -> l = [].
Proof.
  intros Hb [Hd Hl]. induction Hd as [|d l Hd Hds IH]; [done|]. cbn [le_value]. intros E.
  pose proof (base_value_nonneg base l Hb Hds). assert (d = 0) by nia. assert (le_value base l = 0) by nia. subst d.
  destruct l as [|e l]; [by elim Hl|]. discriminate IH; [|done]. intros E'. apply Hl. exact E'.
Qed.
Lemma canonical_unique base l m : 1 < base -> canonical base l -> canonical base m -> le_value base l = le_value base m -> l = m.
Proof.
  intros Hb. revert m. induction l as [|d l IH]; intros m Hl Hm E.
  { symmetry. apply (canonical_zero base m); [lia|done|by rewrite <- E]. }
  destruct m as [|e m]; [apply (canonical_zero base (d :: l)); [lia|done|by rewrite E]|].
  destruct Hl as [Hl Ll], Hm as [Hm Lm]. inversion Hl as [|? ? Hd Hl']; subst. inversion Hm as [|? ? He Hm']; subst.
  cbn [le_value] in E. assert (le_value base l = le_value base m) as E'.
  { destruct (Z.lt_trichotomy (le_value base l) (le_value base m)) as [?|[?|?]]; nia. }
  assert (d = e) as -> by (rewrite E' in E; lia).
  f_equal. apply IH; [split; [done|]|split; [done|]|done].
  - destruct l; [done|]. intros E0. by apply Ll.
  - destruct m; [done|]. intros E0. by apply Lm.
Qed.

(** ** Base58 *)

Lemma times_58_spec d le : 0 <= d < 58 -> digits 256 le ->
  let '(le', c) := times_58 d le in
  digits 256 le' /\ length le' = length le /\ 0 <= c < 58 /\
  le_value 256 le' + 256 ^ Z.of_nat (length le) * c = d + 58 * le_value 256 le /\
  (canonical 256 le -> c = 0 -> last le' <> Some 0).
Proof.
  intros Hd Hl. revert d Hd. induction Hl as [|b le Hb Hl IH]; intros d Hd; cbn [times_58].
  { cbn [le_value length]. change (256 ^ Z.of_nat 0) with 1. split_and!; try done; try lia. constructor. }
  assert (u32_wrap (d + b * 58) = d + b * 58) as -> by (unfold u32_wrap; apply Z.mod_small; lia).
  rewrite Z.shiftr_div_pow2 by lia. change (2 ^ 8) with 256.
  assert (0 <= (d + b * 58) / 256 < 58) as Hq
    by (split; [apply Z.div_pos; lia|apply Z.div_lt_upper_bound; lia]).
  assert (Z.land (d + b * 58) 255 = (d + b * 58) mod 256) as -> by (change 255 with (Z.ones 8); apply Z.land_ones; lia).
  pose proof (Z.div_mod (d + b * 58) 256 ltac:(lia)) as Hdm. pose proof (Z.mod_pos_bound (d + b * 58) 256 ltac:(lia)) as Hmod.
  specialize (IH _ Hq). destruct (times_58 _ le) as [le' c]. destruct IH as (Hdig & Hlen & Hc & Hv & Hlast).
  split_and!; [by constructor|by rewrite !length_cons, Hlen|lia|lia| |].
  - cbn [le_value]. rewrite length_cons, Nat2Z.inj_succ, Z.pow_succ_r by lia. nia.
  - intros [_ Hca] ->. destruct le as [|b' le].
    + destruct le'; [|done]. cbn [le_value length] in Hv. change (256 ^ Z.of_nat 0) with 1 in Hv. cbn [last] in Hca |- *.
      intros [= E0]. apply Hca. f_equal. lia.
    + destruct le' as [|e le']; [done|]. apply Hlast; [|done]. split; [done|]. intros E0. by apply Hca.
Qed.
Lemma push_digit_spec d le : 0 <= d < 58 -> canonical 256 le ->
  canonical 256 (push_digit d le) /\ le_value 256 (push_digit d le) = d + 58 * le_value 256 le.
Proof.
  intros Hd Hl. unfold push_digit. pose proof (times_58_spec d le Hd (proj1 Hl)) as H.
  destruct (times_58 d le) as [le' c]. destruct H as (Hdig & Hlen & Hc & Hv & Hlast).
  destruct (decide (c = 0)) as [->|Hne].
  - change (carry_bytes 4 0) with (@nil Z). rewrite app_nil_r. split; [split; [done|by apply Hlast]|lia].
  - assert (carry_bytes 4 c = [c]) as ->.
    { cbn [carry_bytes]. rewrite (proj2 (Z.ltb_lt 0 c)) by lia.
      assert (Z.land c 255 = c) as -> by (change 255 with (Z.ones 8); rewrite Z.land_ones by lia; apply Z.mod_small; lia).
      assert (Z.shiftr c 8 = 0) as -> by (rewrite Z.shiftr_div_pow2 by lia; apply Z.div_small; lia). done. }
    split; [split|].
    + apply Forall_app. split; [done|]. constructor; [lia|done].
    + rewrite last_snoc. intros [= ->]. done.
    + rewrite le_value_app, Hlen. cbn [le_value]. lia.
Qed.

(** The reference encoder: a one for every leading zero byte, then the digits of
    the number the bytes are. *)
Fixpoint le_digits (fuel : nat) (base n : Z) : list Z :=
  match fuel with
  | O => []
  | S fuel => if n =? 0 then [] else n mod base :: le_digits fuel base (n / base)
  end.
Definition base58_char (d : Z) : ascii := default "0"%char (bytes ALPHABET !! Z.to_nat d).
Fixpoint leading_zeros (l : list Z) : nat := match l with 0 :: l => S (leading_zeros l) | _ => O end.
Definition base58_encode (out : list Z) : string :=
  let n := le_value 256 (rev out) in
  of_bytes (replicate (leading_zeros out) "1"%char ++ (base58_char <$> rev (le_digits (S (Z.to_nat (Z.log2 n))) 58 n))).

Lemma le_digits_spec fuel base n : 2 <= base -> 0 <= n < 2 ^ Z.of_nat fuel ->
  canonical base (le_digits fuel base n) /\ le_value base (le_digits fuel base n) = n.
Proof.
  intros Hb. revert n. induction fuel as [|fuel IH]; intros n Hn.
  { change (2 ^ Z.of_nat 0) with 1 in Hn. split; [split; [constructor|done]|cbn; lia]. }
  cbn [le_digits]. destruct (Z.eqb_spec n 0) as [->|Hne]; [split; [split; [constructor|done]|done]|].
  rewrite Nat2Z.inj_succ, Z.pow_succ_r in Hn by lia.
  assert (0 <= n / base < 2 ^ Z.of_nat fuel) as Hq by (split; [apply Z.div_pos; lia|apply Z.div_lt_upper_bound; nia]).
  destruct (IH _ Hq) as [[Hd Hl] Hv]. pose proof (Z.mod_pos_bound n base ltac:(lia)) as Hm.
  pose proof (Z.div_mod n base ltac:(lia)) as Hdm. split; [split|].
  - constructor; [lia|exact Hd].
  - destruct (le_digits fuel base (n / base)) as [|e l] eqn:E; [|exact Hl].
    cbn [le_value] in Hv. cbn [last]. intros [= E0]. lia.
  - cbn [le_value]. rewrite Hv. lia.
Qed.
Lemma log2_fuel n : 0 <= n -> 0 <= n < 2 ^ Z.of_nat (S (Z.to_nat (Z.log2 n))).
Proof.
  intros Hn. split; [done|]. rewrite Nat2Z.inj_succ, Z2Nat.id by apply Z.log2_nonneg.
  destruct (decide (n = 0)) as [->|Hne]; [done|]. apply Z.log2_spec. lia.
Qed.

Lemma alphabet_position_spec c l i d : alphabet_position c l i = Some d -> i <= d /\ l !! Z.to_nat (d - i) = Some c.
Proof.
  revert i. induction l as [|a l IH]; intros i; cbn [alphabet_position]; [done|].
  destruct (Ascii.eqb_spec a c) as [->|Hne].
  - intros [= <-]. split; [lia|]. by rewrite Z.sub_diag.
  - intros H. apply IH in H as [Hi Hl]. split; [lia|].
    replace (Z.to_nat (d - i)) with (S (Z.to_nat (d - (i + 1)))) by lia. exact Hl.
Qed.
Lemma base58_digit_spec c d : base58_digit c = Some d -> 0 <= d < 58 /\ base58_char d = c.
Proof.
  intros H. apply alphabet_position_spec in H as [Hd Hl]. rewrite Z.sub_0_r in Hl.
  split; [split; [done|]|unfold base58_char; by rewrite Hl].
  apply lookup_lt_Some in Hl. change (length (bytes ALPHABET)) with 58%nat in Hl. lia.
Qed.
Definition check_below (n : nat) (P : Z -> bool) : bool := forallb (fun k => P (Z.of_nat k)) (seq 0 n).
Lemma check_below_spec n P d : check_below n P = true -> 0 <= d < Z.of_nat n -> P d = true.
Proof.
  unfold check_below. rewrite forallb_forall. intros H Hd. specialize (H (Z.to_nat d)).
  rewrite Z2Nat.id in H by lia. apply H, in_seq. lia.
Qed.
Lemma base58_char_digit d : 0 <= d < 58 -> base58_digit (base58_char d) = Some d.
Proof.
  intros Hd. refine (proj1 (bool_decide_eq_true _) _). apply (check_below_spec 58 (fun d => bool_decide (base58_digit (base58_char d) = Some d)) d); [|lia].
  vm_compute. reflexivity.
Qed.

Lemma foldl_value ds : forall v, foldl (fun v d => d + 58 * v) v ds = le_value 58 (rev ds) + 58 ^ Z.of_nat (length ds) * v.
Proof.
  induction ds as [|d ds IH]; intros v; cbn [foldl rev length le_value]; [change (58 ^ Z.of_nat 0) with 1; lia|].
  rewrite IH, le_value_app, length_rev, Nat2Z.inj_succ, Z.pow_succ_r by lia. cbn [le_value]. lia.
Qed.
Lemma base58_bytes_spec ds : forall le, digits 58 ds -> canonical 256 le ->
  exists out, base58_bytes (base58_char <$> ds) le = Ok out /\ canonical 256 out /\
    le_value 256 out = foldl (fun v d => d + 58 * v) (le_value 256 le) ds.
Proof.
  induction ds as [|d ds IH]; intros le Hds Hle; [by exists le|].
  inversion Hds as [|? ? Hd Hds']; subst. cbn [fmap list_fmap base58_bytes foldl]. rewrite base58_char_digit by done.
  destruct (push_digit_spec d le Hd Hle) as [Hc Hv]. destruct (IH _ Hds' Hc) as (out & E & Ho & Hvo).
  exists out. split_and!; [done|done|]. by rewrite Hvo, Hv.
Qed.
Lemma base58_bytes_chars l : forall le out, base58_bytes l le = Ok out -> exists ds, digits 58 ds /\ l = base58_char <$> ds.
Proof.
  induction l as [|c l IH]; intros le out; cbn [base58_bytes]; [exists []; split; [constructor|done]|].
  destruct (base58_digit c) as [d|] eqn:Hd; [|done]. intros H. apply IH in H as (ds & Hds & ->).
  apply base58_digit_spec in Hd as [Hd <-]. exists (d :: ds). split; [by constructor|done].
Qed.

(** Leading zeros on the number side are leading ones in the text. *)
Lemma split_zeros l : digits 256 l \/ digits 58 l -> l = replicate (leading_zeros l) 0 ++ drop (leading_zeros l) l /\
  head (drop (leading_zeros l) l) <> Some 0.
Proof.
  intros _. induction l as [|[|p|p] l [E H]]; try done. cbn [leading_zeros replicate app drop]. split; [by f_equal|done].
Qed.
Lemma char_one d : 0 <= d < 58 -> base58_char d = "1"%char <-> d = 0.
Proof.
  intros Hd. split; [|by intros ->]. intros E. apply (f_equal base58_digit) in E. rewrite base58_char_digit in E by done.
  by injection E.
Qed.
Lemma leading_ones_spec k ds : digits 58 ds -> head ds <> Some 0 ->
  leading_ones (base58_char <$> replicate k 0 ++ ds) = k.
Proof.
  intros Hds Hh. induction k as [|k IH]; cbn [replicate app fmap list_fmap leading_ones]; [|by rewrite IH].
  destruct ds as [|d ds]; [done|]. inversion Hds as [|? ? Hd _]; subst. cbn [fmap list_fmap leading_ones].
  destruct (Ascii.eqb_spec (base58_char d) "1"%char) as [E|]; [|done]. apply char_one in E; [|done]. by subst d.
Qed.
Lemma canonical_rev base ds : digits base ds -> head ds <> Some 0 -> canonical base (rev ds).
Proof.
  intros Hd Hh. split; [by apply Forall_rev|]. destruct ds as [|d ds]; [done|]. simpl. rewrite last_snoc. done.
Qed.
Lemma le_value_zeros base l k : le_value base (l ++ replicate k 0) = le_value base l.
Proof.
  rewrite le_value_app. assert (le_value base (replicate k 0) = 0) as -> by (induction k as [|k IH]; cbn [replicate le_value]; lia). lia.
Qed.
Lemma rev_zeros k : rev (replicate k 0) = replicate k 0.
Proof. induction k as [|k IH]; [done|]. cbn [replicate rev]. by rewrite IH, <- replicate_cons_app. Qed.

(** What decoding a text of digits gives. *)
Lemma decode_digits k ds : digits 58 ds -> head ds <> Some 0 ->
  exists le, base58_decode (of_bytes (base58_char <$> replicate k 0 ++ ds)) = Ok (replicate k 0 ++ rev le) /\
    canonical 256 le /\ le_value 256 le = le_value 58 (rev ds).
Proof.
  intros Hds Hh. unfold base58_decode. rewrite bytes_of_bytes, leading_ones_spec by done.
  assert (digits 58 (replicate k 0 ++ ds)) as Hall by (apply Forall_app; split; [apply Forall_replicate; lia|done]).
  assert (canonical 256 []) as Hnil by (split; [constructor|done]).
  destruct (base58_bytes_spec _ [] Hall Hnil) as (le & E & Hc & Hv). exists le. rewrite E. split_and!; [done|done|].
  rewrite Hv, foldl_value. cbn [le_value]. rewrite rev_app_distr, rev_zeros, le_value_zeros. lia.
Qed.

(** Base58, as memos are transported in, is exact: decoding what the
    reference encoder writes gives the bytes back, and a text that decodes is
    the encoding of what it decodes to, so no two texts carry the same bytes. *)
Theorem base58_inverse :
  (forall out, digits 256 out -> base58_decode (base58_encode out) = Ok out) /\
  (forall s out, base58_decode s = Ok out -> digits 256 out /\ s = base58_encode out).
Proof.
  assert (forall k le, canonical 256 le -> leading_zeros (replicate k 0 ++ rev le) = k) as Hlz.
  { intros k le [_ Hl]. induction k as [|k IH]; cbn [replicate app leading_zeros]; [|by rewrite IH].
    destruct (rev le) as [|[]] eqn:E; try done. apply (f_equal (@rev Z)) in E. rewrite rev_involutive in E. subst le.
    simpl in Hl. by rewrite last_snoc in Hl. }
  split.
  - intros out Ho. destruct (split_zeros out (or_introl Ho)) as [E Hh].
    set (k := leading_zeros out) in *. set (rest := drop k out) in *.
    assert (digits 256 rest) as Hr by (by apply Forall_drop).
    pose proof (canonical_rev 256 rest Hr Hh) as Hc. unfold base58_encode. fold k.
    assert (le_value 256 (rev out) = le_value 256 (rev rest)) as ->
      by (rewrite E at 1; by rewrite rev_app_distr, rev_zeros, le_value_zeros).
    set (n := le_value 256 (rev rest)). pose proof (base_value_nonneg 256 _ ltac:(lia) (proj1 Hc)) as Hn. fold n in Hn.
    destruct (le_digits_spec _ 58 n ltac:(lia) (log2_fuel n Hn)) as [[Hd Hl] Hv].
    set (D := le_digits _ 58 n) in *.
    assert (head (rev D) <> Some 0) as Hhd by (rewrite <- (rev_involutive D) in Hl; destruct (rev D); [done|]; simpl in Hl; by rewrite last_snoc in Hl).
    destruct (decode_digits k (rev D) (Forall_rev Hd) Hhd) as (le & Ed & Hcl & Hvl).
    rewrite rev_involutive in Hvl. rewrite fmap_app, fmap_replicate in Ed. change (base58_char 0) with "1"%char in Ed.
    rewrite Ed. f_equal. rewrite E. f_equal. rewrite <- (rev_involutive rest). f_equal.
    apply (canonical_unique 256); [lia|done|done|]. by rewrite Hvl, Hv.
  - intros s out H. destruct (base58_bytes (bytes s) []) as [le0|] eqn:E0; [|unfold base58_decode in H; by rewrite E0 in H].
    apply base58_bytes_chars in E0 as (ds & Hds & Es). rewrite <- (of_bytes_bytes s), Es in H |- *.
    destruct (split_zeros ds (or_intror Hds)) as [E Hh]. set (k := leading_zeros ds) in *. set (ds' := drop k ds) in *.
    assert (digits 58 ds') as Hds' by (by apply Forall_drop). rewrite E in H |- *.
    destruct (decode_digits k ds' Hds' Hh) as (le & Ed & Hc & Hv). rewrite Ed in H. injection H as <-.
    split; [apply Forall_app; split; [apply Forall_replicate; lia|apply Forall_rev, Hc]|].
    unfold base58_encode. rewrite Hlz by done. rewrite rev_app_distr, rev_involutive, rev_zeros, le_value_zeros.
    pose proof (base_value_nonneg 256 _ ltac:(lia) (proj1 Hc)) as Hn.
    destruct (le_digits_spec _ 58 _ ltac:(lia) (log2_fuel _ Hn)) as [Hcd Hvd].
    assert (le_digits (S (Z.to_nat (Z.log2 (le_value 256 le)))) 58 (le_value 256 le) = rev ds') as ->
      by (apply (canonical_unique 58); [lia|done|by apply canonical_rev|by rewrite Hvd, Hv]).
    by rewrite rev_involutive, fmap_app, fmap_replicate.
Qed.

(** ** Net transfers *)

(** The USDC of an owner in a list of balances: amounts are micro-USDC, owners
    are compared without surrounding white space. *)
Definition usdc_of (mint owner : string) (b : RpcTokenBalance) : Z :=
  if bool_decide (normalized_optional_string (tb_owner b) = Some owner /\ tb_mint b = mint)
  then default 0 (ok (parse_token_amount b)) else 0.
Definition usdc_held (mint owner : string) (l : list RpcTokenBalance) : Z := zsum (usdc_of mint owner <$> l).
Definition net_usdc (mint owner : string) (meta : RpcTransactionMeta) : Z :=
  usdc_held mint owner (default [] (tm_post_token_balances meta)) -
  usdc_held mint owner (default [] (tm_pre_token_balances meta)).
(** Token amounts on the chain are [u64]; a transaction has few accounts. *)
Definition u64_amounts (l : list RpcTokenBalance) : Prop :=
  Forall (fun b => forall a, parse_token_amount b = Ok a -> 0 <= a < 2 ^ 64) l /\ Z.of_nat (length l) <= 2 ^ 32.
Definition u64_meta (meta : RpcTransactionMeta) : Prop :=
  u64_amounts (default [] (tm_pre_token_balances meta)) /\ u64_amounts (default [] (tm_post_token_balances meta)).

Lemma wrap128_id z : - 2 ^ 127 <= z < 2 ^ 127 -> wrap128 z = z.
Proof. intros H. unfold wrap128. rewrite Z.mod_small by lia. lia. Qed.

Lemma add_delta_spec op mint b acc deltas owner : add_delta op mint b acc = Ok deltas ->
  (delta_of owner deltas = delta_of owner acc /\ usdc_of mint owner b = 0) \/
  exists a, parse_token_amount b = Ok a /\ usdc_of mint owner b = a /\ delta_of owner deltas = op (delta_of owner acc) a.
Proof.
  unfold add_delta, usdc_of. destruct (normalized_optional_string (tb_owner b)) as [w|];
    [|intros [= <-]; left; by rewrite bool_decide_eq_false_2 by (by intros [? _])].
  destruct (String.eqb_spec (tb_mint b) mint) as [Em|Em]; cbn [negb];
    [|intros [= <-]; left; by rewrite bool_decide_eq_false_2 by (by intros [_ ?])].
  destruct (parse_token_amount b) as [a|]; [|done]. intros [= <-]. unfold delta_of.
  destruct (decide (w = owner)) as [->|Hne].
  - right. exists a. rewrite lookup_insert_eq, bool_decide_eq_true_2 by done. done.
  - left. rewrite lookup_insert_ne by done. rewrite bool_decide_eq_false_2; [done|]. by intros [[= ->] _].
Qed.

(** Both loops, with [sign] -1 and 1. *)
Lemma fold_delta_spec sign op mint owner l : (sign = 1 \/ sign = -1) -> (forall a b, op a b = wrap128 (a + sign * b)) ->
  forall acc deltas, fold_res (add_delta op mint) l acc = Ok deltas ->
  Forall (fun b => forall a, parse_token_amount b = Ok a -> 0 <= a < 2 ^ 64) l ->
  Z.abs (delta_of owner acc) + 2 ^ 64 * Z.of_nat (length l) <= 2 ^ 100 ->
  delta_of owner deltas = delta_of owner acc + sign * usdc_held mint owner l /\
  Z.abs (delta_of owner deltas) <= Z.abs (delta_of owner acc) + 2 ^ 64 * Z.of_nat (length l).
Proof.
  intros Hs Hop. induction l as [|b l IH]; intros acc deltas Hf Hl Hb; cbn [fold_res] in Hf.
  { injection Hf as <-. unfold usdc_held. cbn. lia. }
  destruct (add_delta op mint b acc) as [acc'|] eqn:Ha; [|done]. inversion Hl as [|? ? Hb0 Hl']; subst.
  cbn [length] in *. rewrite Nat2Z.inj_succ in *. unfold usdc_held. cbn [fmap list_fmap]. rewrite zsum_cons. fold (usdc_held mint owner l).
  assert (delta_of owner acc' = delta_of owner acc + sign * usdc_of mint owner b /\ 0 <= usdc_of mint owner b < 2 ^ 64) as [E Hu].
  { destruct (add_delta_spec _ _ _ _ _ owner Ha) as [[-> ->]|(a & Hp & -> & ->)]; [lia|]. specialize (Hb0 a Hp).
    split; [|done]. rewrite Hop, wrap128_id; [done|]. destruct Hs as [->| ->]; lia. }
  assert (Z.abs (delta_of owner acc') <= Z.abs (delta_of owner acc) + 2 ^ 64) as Hab by (destruct Hs as [->| ->]; lia).
  destruct (IH acc' deltas Hf Hl' ltac:(lia)) as [E2 H2]. split; [rewrite E2, E; lia|lia].
Qed.

(** The deltas are the net transfers. *)
Lemma deltas_net meta mint deltas owner : u64_meta meta -> meta_deltas meta mint = Ok deltas ->
  delta_of owner deltas = net_usdc mint owner meta.
Proof.
  intros [[Hpre Lpre] [Hpost Lpost]] H. unfold meta_deltas, aggregate_owner_deltas in H.
  destruct (fold_res _ _ ∅) as [d|] eqn:E; [|done].
  assert (delta_of owner ∅ = 0) as E0 by (unfold delta_of; by rewrite lookup_empty).
  destruct (fold_delta_spec (-1) i128_sub mint owner _ (or_intror eq_refl) ltac:(intros; unfold i128_sub; f_equal; lia) _ _ E Hpre) as [E1 B1].
  { rewrite E0. lia. }
  destruct (fold_delta_spec 1 i128_add mint owner _ (or_introl eq_refl) ltac:(intros; unfold i128_add; f_equal; lia) _ _ H Hpost) as [E2 _].
  { rewrite E0 in B1. lia. }
  unfold net_usdc. rewrite E2, E1, E0. lia.
Qed.

Lemma usdc_held_bound mint owner l : u64_amounts l -> 0 <= usdc_held mint owner l <= 2 ^ 96.
Proof.
  intros [Hl Hn]. assert (0 <= usdc_held mint owner l <= 2 ^ 64 * Z.of_nat (length l)); [|lia]. clear Hn.
  induction Hl as [|b l Hb _ IH]; unfold usdc_held in *; cbn [fmap list_fmap length]; [done|]. rewrite zsum_cons, Nat2Z.inj_succ.
  assert (0 <= usdc_of mint owner b <= 2 ^ 64); [|lia].
  unfold usdc_of. case_bool_decide; [|lia]. destruct (parse_token_amount b) as [a|] eqn:E; cbn; [|lia]. specialize (Hb a eq_refl). lia.
Qed.
Lemma deltas_small meta mint deltas owner : u64_meta meta -> meta_deltas meta mint = Ok deltas -> Z.abs (delta_of owner deltas) <= 2 ^ 100.
Proof.
  intros Hu Hd. rewrite (deltas_net _ _ _ owner Hu Hd). unfold net_usdc. destruct Hu as [H1 H2].
  pose proof (usdc_held_bound mint owner _ H1). pose proof (usdc_held_bound mint owner _ H2). lia.
Qed.

(** The owners of the deltas carry no white space around them. *)
Lemma normalized_twice o s : normalized_optional_string o = Some s -> normalized_optional_string (Some s) = Some s.
Proof.
  destruct o as [r|]; [|done]. unfold normalized_optional_string. destruct (is_empty (trim r)) eqn:E; [done|]. intros [= <-].
  by rewrite trim_idempotent, E.
Qed.
Definition owners_trimmed (deltas : gmap string Z) : Prop :=
  map_Forall (fun o _ => normalized_optional_string (Some o) = Some o) deltas.
Lemma fold_delta_owners op mint l acc deltas :
  fold_res (add_delta op mint) l acc = Ok deltas -> owners_trimmed acc -> owners_trimmed deltas.
Proof.
  revert acc. induction l as [|b l IH]; intros acc; cbn [fold_res]; [by intros [= <-]|].
  destruct (add_delta op mint b acc) as [acc'|] eqn:E; [|done]. intros Hf Ho. apply (IH acc' Hf). unfold add_delta in E.
  destruct (normalized_optional_string (tb_owner b)) as [o|] eqn:Eo; [|by injection E as <-].
  destruct (negb _); [by injection E as <-|]. destruct (parse_token_amount b); [|done]. injection E as <-.
  apply map_Forall_insert_2; [|done]. by apply normalized_twice in Eo.
Qed.
Lemma deltas_trimmed meta mint deltas o : meta_deltas meta mint = Ok deltas -> delta_of o deltas <> 0 ->
  normalized_optional_string (Some o) = Some o.
Proof.
  unfold meta_deltas, aggregate_owner_deltas. destruct (fold_res _ _ ∅) as [d|] eqn:E; [|done]. intros Hf Hd.
  assert (owners_trimmed deltas) as Ho by (eapply fold_delta_owners; [exact Hf|]; eapply fold_delta_owners; [exact E|apply map_Forall_empty]).
  unfold delta_of in Hd. destruct (deltas !! o) as [z|] eqn:Ez; [|done]. by apply (Ho o z).
Qed.

Lemma extract_deposit_sound tx owner mint amount source v :
  extract_verified_deposit tx owner mint amount source = Ok v ->
  exists meta, tx_meta tx = Some meta /\ tm_err meta = None /\
    (u64_meta meta -> net_usdc mint owner meta = vd_amount_usdc_cents v * 10000) /\
    0 < vd_amount_usdc_cents v <= i64_max /\ (forall r, amount = Some r -> r = vd_amount_usdc_cents v) /\
    normalized_optional_string (Some owner) = Some owner.
Proof.
  unfold extract_verified_deposit. destruct (tx_meta tx) as [meta|]; [|done]. cbn [ok_or].
  destruct (tm_err meta) eqn:Herr; cbn [is_some negb]; [done|].
  destruct (meta_deltas meta mint) as [deltas|] eqn:Hd; [|done].
  destruct (Z.ltb_spec 0 (delta_of owner deltas)) as [Hpos|]; [|done].
  destruct (Z.eqb_spec (Z.rem (delta_of owner deltas) MICRO_USDC_PER_CENT) 0) as [Hrem|]; [|done].
  unfold try_i64. destruct (decide _) as [Hr|]; [|done]. cbn [ok_or]. set (c := Z.quot _ _) in *.
  destruct (match amount with Some r => r =? c | None => true end) eqn:Ham; [|done].
  intros H. assert (vd_amount_usdc_cents v = c) as ->.
  { destruct (normalized_optional_string source), (infer_source_owner deltas owner); try destruct (String.eqb _ _); by simplify_eq. }
  exists meta. split_and!; try done.
  - intros Hu. rewrite <- (deltas_net _ _ _ owner Hu Hd). unfold MICRO_USDC_PER_CENT in *. pose proof (Z.quot_rem' (delta_of owner deltas) 10000). lia.
  - subst c. unfold MICRO_USDC_PER_CENT in *. pose proof (Z.quot_rem' (delta_of owner deltas) 10000). lia.
  - apply Hr.
  - intros r ->. by apply Z.eqb_eq in Ham.
  - eapply deltas_trimmed; [done|lia].
Qed.

(** ** Soundness of the verifications *)

Section Sound.
Context `{SolanaNode}.

(** What the node vouches for: the signature names a transaction without an
    error, at the required commitment. *)
Definition on_chain (cfg : SolanaConfig) (tx_signature : string) (tx : RpcTransaction) : Prop :=
  (exists st, fetch_signature_status tx_signature = Ok (Some st) /\ ss_err st = None /\
    commitment_satisfied (so_commitment cfg) (ss_confirmation_status st) = true) /\
  fetch_transaction cfg tx_signature = Ok (Some tx).

Lemma settled_sound {E} (nf fl : E) ns err cfg sig tx :
  settled_transaction nf fl ns err cfg sig = Ok tx -> on_chain cfg sig tx.
Proof.
  unfold settled_transaction, on_chain. destruct (fetch_signature_status sig) as [[st|]|]; cbn [map_err ok_or]; try done.
  destruct (ss_err st) eqn:He; cbn [is_some negb]; [done|]. destruct (commitment_satisfied _ _) eqn:Hc; [|done].
  destruct (fetch_transaction cfg sig) as [[tx'|]|]; cbn [map_err ok_or]; intros [= <-]; eauto.
Qed.

Lemma memo_among m memos : existsb (String.eqb m) memos = true -> m ∈ memos.
Proof. intros (x & Hx & E)%existsb_exists. apply String.eqb_eq in E as ->. by apply list_elem_of_In. Qed.

(** A transfer of exactly [cents] to [owner], settled. *)
Definition usdc_arrived (cfg : SolanaConfig) (sig owner : string) (cents : Z) : Prop :=
  exists tx meta, on_chain cfg sig tx /\ tx_meta tx = Some meta /\ tm_err meta = None /\
    (u64_meta meta -> net_usdc (so_usdc_mint cfg) owner meta = cents * 10000).

Lemma usdc_deposit_sound cfg owner sig amount source v :
  verify_usdc_deposit cfg owner sig amount source = Ok v ->
  vd_tx_signature v = trim sig /\ vd_tx_signature v <> "" /\ 0 < vd_amount_usdc_cents v <= i64_max /\
  (forall r, amount = Some r -> r = vd_amount_usdc_cents v) /\ normalized_optional_string (Some owner) = Some owner /\
  usdc_arrived cfg (vd_tx_signature v) owner (vd_amount_usdc_cents v).
Proof.
  unfold verify_usdc_deposit. destruct (is_empty (trim sig)) eqn:Hs; [done|]. cbn [negb].
  destruct (settled_transaction _ _ _ _ _ _) as [tx|] eqn:Htx; [|done]. apply settled_sound in Htx.
  destruct (extract_verified_deposit _ _ _ _ _) as [w|] eqn:Hw; [|done]. intros [= <-].
  apply extract_deposit_sound in Hw as (meta & Hm & He & Hn & Hr & Ha & Ho). cbn [vd_tx_signature vd_amount_usdc_cents].
  split_and!; try done; [by intros E; rewrite E in Hs|lia|lia|]. by exists tx, meta.
Qed.

Lemma treasury_deposit_sound cfg sig memo v : verify_treasury_deposit cfg sig memo = Ok v ->
  vt_tx_signature v = trim sig /\ vt_tx_signature v <> "" /\ 0 < vt_amount_usdc_cents v <= i64_max /\
  usdc_arrived cfg (vt_tx_signature v) (so_treasury_address cfg) (vt_amount_usdc_cents v) /\
  exists tx m, on_chain cfg (vt_tx_signature v) tx /\ message_in tx = Some m /\ memo ∈ memos_of m.
Proof.
  unfold verify_treasury_deposit. destruct (is_empty (trim sig)) eqn:Hs; [done|]. cbn [negb].
  destruct (settled_transaction _ _ _ _ _ _) as [tx|] eqn:Htx; [|done]. apply settled_sound in Htx.
  destruct (message_in tx) as [m|] eqn:Hm; [|done]. cbn [ok_or]. destruct (fee_payer_of m) as [p|]; [|done]. cbn [ok_or].
  case_bool_decide; [done|]. cbn [negb]. destruct (existsb _ _) eqn:Hx; [|done]. apply memo_among in Hx.
  destruct (extract_verified_deposit _ _ _ _ _) as [w|] eqn:Hw; [|done]. intros [= <-].
  apply extract_deposit_sound in Hw as (meta & Hme & He & Hn & Hr & _ & _).
  cbn [vt_tx_signature vt_amount_usdc_cents]. split_and!; try done; [by intros E; rewrite E in Hs|lia|lia| |]; [by exists tx, meta|].
  by exists tx, m.
Qed.

(** A payout of [gross] cents less the fee: the treasury loses exactly the net
    amount, the destination gains exactly that, and no other owner gains. *)
Definition usdc_paid_out (cfg : SolanaConfig) (sig destination : string) (gross : Z) : Prop :=
  let net := gross * 10000 - withdrawal_fee_micro_usdc (gross * 10000) (so_withdrawal_fee_bps cfg) in
  exists tx meta, on_chain cfg sig tx /\ tx_meta tx = Some meta /\ tm_err meta = None /\
    (u64_meta meta ->
      net_usdc (so_usdc_mint cfg) (so_treasury_address cfg) meta = - net /\
      net_usdc (so_usdc_mint cfg) destination meta = net /\
      forall owner, owner <> destination -> net_usdc (so_usdc_mint cfg) owner meta <= 0).

Lemma treasury_payout_sound cfg sig destination gross v : verify_treasury_payout cfg sig destination gross = Ok v ->
  vp_tx_signature v = trim sig /\ vp_tx_signature v <> "" /\
  vp_destination_address v = destination /\ vp_gross_amount_usdc_cents v = gross /\
  vp_destination_amount_micro_usdc v + vp_treasury_retained_micro_usdc v = gross * 10000 /\
  usdc_paid_out cfg (vp_tx_signature v) destination gross.
Proof.
  unfold verify_treasury_payout. destruct (is_empty (trim sig)) eqn:Hs; [done|]. cbn [negb].
  destruct (settled_transaction _ _ _ _ _ _) as [tx|] eqn:Htx; [|done]. apply settled_sound in Htx.
  destruct (tx_meta tx) as [meta|] eqn:Hm; [|done]. cbn [ok_or].
  destruct (tm_err meta) eqn:He; cbn [is_some negb]; [done|].
  destruct (meta_deltas meta _) as [ds|] eqn:Hd; [|done]. cbn [map_err].
  unfold MICRO_USDC_PER_CENT. set (fee := withdrawal_fee_micro_usdc _ _).
  destruct (Z.eqb_spec (delta_of (so_treasury_address cfg) ds) (- (gross * 10000 - fee))) as [Ht|]; [|done].
  destruct (Z.eqb_spec (delta_of destination ds) (gross * 10000 - fee)) as [Hdst|]; [|done].
  destruct (existsb _ _) eqn:Hx; [done|]. cbn [negb].
  unfold try_i64. destruct (decide (in_i64 (gross * 10000 - fee))); [|done]. cbn [ok_or].
  destruct (decide (in_i64 fee)); [|done]. cbn [ok_or]. intros [= <-]. cbn.
  split_and!; try done; [by intros E; rewrite E in Hs|lia|]. exists tx, meta. split_and!; try done. intros Hu.
  rewrite <- !(deltas_net _ _ _ _ Hu Hd). split_and!; try done. intros owner Hne.
  rewrite <- (deltas_net _ _ _ _ Hu Hd). unfold delta_of. destruct (ds !! owner) as [z|] eqn:Hz; cbn; [|lia].
  destruct (Z.ltb_spec 0 z) as [Hz0|]; [|lia]. exfalso. apply not_true_iff_false in Hx. apply Hx. apply existsb_exists.
  exists (owner, z). split; [by apply list_elem_of_In, elem_of_map_to_list|].
  apply andb_true_iff. split; [by apply Z.ltb_lt|]. by apply negb_true_iff, String.eqb_neq.
Qed.

Lemma memo_anchor_sound text cfg sig memo authority v : verify_memo_anchor text cfg sig memo authority = Ok v ->
  vm_tx_signature v = trim sig /\ vm_tx_signature v <> "" /\
  exists tx m, on_chain cfg (vm_tx_signature v) tx /\ message_in tx = Some m /\ memo ∈ memos_of m /\
    fee_payer_of m = Some authority.
Proof.
  unfold verify_memo_anchor. destruct (is_empty (trim sig)) eqn:Hs; [done|]. cbn [negb].
  destruct (settled_transaction _ _ _ _ _ _) as [tx|] eqn:Htx; [|done]. apply settled_sound in Htx.
  destruct (message_in tx) as [m|] eqn:Hm; [|done]. cbn [ok_or]. destruct (fee_payer_of m) as [p|] eqn:Hp; [|done]. cbn [ok_or].
  destruct (String.eqb_spec p authority) as [->|]; [|done].
  case_bool_decide; [done|]. cbn [negb]. destruct (existsb _ _) eqn:Hx; [|done]. apply memo_among in Hx. intros [= <-].
  cbn. split_and!; try done; [by intros E; rewrite E in Hs|]. by exists tx, m.
Qed.

Definition usdc_withdrawn (cfg : SolanaConfig) (sig source destination : string) (gross : Z) : Prop :=
  let fee := withdrawal_fee_micro_usdc (gross * 10000) (so_withdrawal_fee_bps cfg) in
  exists tx meta, on_chain cfg sig tx /\ tx_meta tx = Some meta /\ tm_err meta = None /\
    (u64_meta meta ->
      net_usdc (so_usdc_mint cfg) source meta = - (gross * 10000) /\
      net_usdc (so_usdc_mint cfg) destination meta = gross * 10000 - fee /\
      net_usdc (so_usdc_mint cfg) (so_treasury_address cfg) meta = fee).
Lemma usdc_withdrawal_sound cfg source destination cents sig v :
  verify_usdc_withdrawal cfg source destination cents sig = Ok v ->
  vw_tx_signature v = trim sig /\ vw_tx_signature v <> "" /\ vw_destination_address v = destination /\
  vw_gross_amount_usdc_cents v = cents /\ normalized_optional_string (Some destination) = Some destination /\
  usdc_withdrawn cfg (vw_tx_signature v) source destination cents.
Proof.
  unfold verify_usdc_withdrawal. destruct (is_empty (trim sig)) eqn:Hs; [done|]. cbn [negb]. destruct (0 <? cents) eqn:Hc; [|done].
  destruct (settled_transaction _ _ _ _ _ _) as [tx|] eqn:Htx; [|done]. apply settled_sound in Htx.
  destruct (extract_verified_withdrawal _ _ _ _ _ _ _) as [w|] eqn:Hw; [|done]. intros [= <-].
  unfold extract_verified_withdrawal in Hw. destruct (tx_meta tx) as [meta|] eqn:Hm; [|done]. cbn [ok_or] in Hw.
  destruct (tm_err meta) eqn:He; cbn [is_some negb] in Hw; [done|].
  destruct (meta_deltas meta _) as [ds|] eqn:Hd; [|done]. cbn [map_err] in Hw.
  destruct (delta_of source ds <? 0) eqn:Hneg; [|done]. apply Z.ltb_lt in Hneg.
  destruct (infer_negative_owner _ _ _) as [vs|]; [|done]. cbn [ok_or] in Hw. destruct (String.eqb vs source); [|done].
  destruct (Z.eqb_spec (wrap128 (- delta_of source ds)) (micro_usdc_from_cents cents)) as [Eg|];
    [|by destruct (map_err WdRpc (micro_usdc_to_cents _))].
  set (fee := withdrawal_fee_micro_usdc _ _) in Hw.
  destruct (0 <? delta_of destination ds) eqn:Hpos; [|done]. apply Z.ltb_lt in Hpos.
  destruct (Z.eqb_spec (delta_of destination ds) (micro_usdc_from_cents cents - fee)) as [Ed|];
    [|repeat (unfold or_overflow in Hw; destruct (try_i64 _); [|done]); done].
  destruct (Z.eqb_spec (delta_of (so_treasury_address cfg) ds) fee) as [Et|];
    [|repeat (unfold or_overflow in Hw; destruct (try_i64 _); [|done]); done].
  destruct (or_overflow _ (try_i64 (delta_of destination ds))) as [d|]; [|done]. destruct (or_overflow _ _) as [t|]; [|done].
  injection Hw as <-. cbn. split_and!; try done; [by intros E; rewrite E in Hs|eapply deltas_trimmed; [done|lia]|].
  exists tx, meta. split_and!; try done. intros Hu. rewrite <- !(deltas_net _ _ _ _ Hu Hd).
  unfold micro_usdc_from_cents, MICRO_USDC_PER_CENT in *. split_and!; [|lia|done].
  assert (Z.abs (delta_of source ds) <= 2 ^ 100) as Hb by (by eapply deltas_small).
  rewrite wrap128_id in Eg by lia. lia.
Qed.
End Sound.
