(* ===== verification/Http.v ===== *)
(** * HTTP handlers as computations

    What the handlers of [gateway/src/handlers] share.  A handler runs over the
    store of the gateway, which may be absent, and may leave changes behind when
    it stops later on.  It stops with an error or with a panic.  Where the code
    waits for another service, other requests are served: [awaits] applies what
    they did to the store, an arbitrary function.  The texts of the errors are
    those of the [thiserror] attributes; the text of an SQL error is a
    parameter. *)

From S2P Require Import Prelude Db RustStr Wallet Accounts Onchain Referrals Auth Solana.

Open Scope string_scope.
Open Scope list_scope.
Open Scope Z_scope.

(** [Rejected]: the bearer check answered with a bare status. *)
Inductive Stop : Type := Answered (e : GatewayError) | Rejected (status : Z) | Panicked.

Definition Http (S A : Type) : Type := option S -> result Stop A * option S.
#[export] Instance http_ret {S} : MRet (Http S) := fun A a db => (Ok a, db).
#[export] Instance http_bind {S} : MBind (Http S) := fun A B k m db =>
  match m db with
  | (Ok a, db) => k a db
  | (Err e, db) => (Err e, db)
  end.

Section Computations.
Context {S : Type}.
Definition fails {A} (e : GatewayError) : Http S A := fun db => (Err (Answered e), db).
Definition panics {A} : Http S A := fun db => (Err Panicked, db).
Definition lift {A} (r : result GatewayError A) : Http S A := fun db => (map_err Answered r, db).
Definition ensures (b : bool) (e : GatewayError) : Http S unit := if b then mret tt else fails e.

Definition no_pool : GatewayError := Other (Bail "db not initialized").
Definition require_pool : Http S unit := fun db =>
  match db with Some _ => (Ok tt, db) | None => (Err (Answered no_pool), db) end.
Definition reads {A} (f : S -> result GatewayError A) : Http S A := fun db =>
  match db with Some s => (map_err Answered (f s), db) | None => (Err (Answered no_pool), db) end.
(** A call that changes the store whether or not it fails. *)
Definition runs {A} (f : S -> result GatewayError A * S) : Http S A := fun db =>
  match db with
  | Some s => let '(r, s) := f s in (map_err Answered r, Some s)
  | None => (Err (Answered no_pool), db)
  end.
(** A transaction: a failure leaves the store as it was. *)
Definition commits {E A} (err : E -> GatewayError) (f : S -> result E (A * S)) : Http S A :=
  runs (fun s => match f s with Ok (a, s') => (Ok a, s') | Err e => (Err (err e), s) end).
Definition writes (f : S -> S) : Http S unit := runs (fun s => (Ok tt, f s)).
(** Code that may panic before it changes anything. *)
Definition or_panic {A} (o : option A) : Http S A := match o with Some a => mret a | None => panics end.
Definition writes_or_panics (f : S -> option S) : Http S unit := fun db =>
  match db with
  | Some s => match f s with Some s' => (Ok tt, Some s') | None => (Err Panicked, db) end
  | None => (Err (Answered no_pool), db)
  end.
Definition awaits (meanwhile : S -> S) : Http S unit := fun db => (Ok tt, meanwhile <$> db).
End Computations.

(** ** Who is asking *)

(** The bearer of the [Authorization] header, [None] without a readable one. *)
Definition bearer_of (authorization : option string) : string :=
  trim (default "" (strip_prefix "Bearer " (default "" authorization))).
Definition device_from_header (now : Z) (authorization : option string) : Http Db string :=
  let token := bearer_of authorization in
  _ ← ensures (negb (is_empty token)) (Unauthorized "missing bearer");
  reads (fun db => ok_or (Unauthorized "unknown or expired device token") (resolve_token now token db)).

(** ** Texts *)

Section Texts.
Context (sql_text : SqlError -> string).

Definition anyhow_text (e : anyhow) : string := match e with Bail msg => msg | Sql e => sql_text e end.

Definition transfer_text (e : TransferError) : string :=
  match e with
  | UnsupportedAsset => "asset must be 'credits'"
  | InvalidAmount => "amount must be greater than zero"
  | MissingRecipient => "recipient is required"
  | RecipientAccountNotFound => "recipient account not found"
  | RecipientDeviceNotFound => "recipient device not found"
  | AmbiguousRecipient => "recipient matched multiple accounts"
  | SameWallet => "cannot transfer to the same wallet"
  | AccountNotLinked => "requesting device is not linked to an account"
  | InsufficientBalance balance required =>
      "insufficient credits: balance " +:+ show_z balance +:+ ", need " +:+ show_z required
  | TransferOther e => anyhow_text e
  end.
Definition onchain_text (e : AccountOnchainError) : string :=
  match e with
  | OnchainAccountNotLinked => "requesting device is not linked to an account"
  | SolanaAddressRequired => "solanaAddress is required when enabling on-chain wallet support"
  | SolanaAddressMismatch => "solanaAddress does not match the existing account wallet address"
  | SolanaWalletNotEnabled => "solana wallet is not enabled for this account"
  | InvalidUsdcAmount => "amountUsdcCents must be greater than zero"
  | DepositAmountRequired => "amountUsdcCents is required when txSignature is provided"
  | MissingRequestId => "requestID is required"
  | MissingDestinationAddress => "destinationAddress is required"
  | DepositConflict => "deposit txSignature is already recorded for a different deposit"
  | WithdrawalConflict => "withdrawal requestID is already recorded with different details"
  | WithdrawalSignatureConflict => "withdrawal txSignature is already recorded for a different request"
  | WithdrawalNotPending => "no pending withdrawal for request id"
  | InsufficientWithdrawable balance redeemable required =>
      "insufficient withdrawable credits: balance " +:+ show_z balance +:+ ", redeemable " +:+ show_z redeemable +:+
      ", need " +:+ show_z required
  | OnchainOther e => anyhow_text e
  end.
Definition referral_text (e : ReferralError) : string :=
  match e with
  | ReferralAccountNotLinked => "requesting device is not linked to an account"
  | InvalidCode => "invalid referral code"
  | SelfReferral => "cannot refer yourself"
  | DeviceAlreadyClaimed => "device already claimed a referral bonus"
  | AccountAlreadyClaimed => "account already claimed a referral bonus"
  | ReferralOther e => anyhow_text e
  end.

Definition map_transfer_error (e : TransferError) : GatewayError :=
  match e with
  | UnsupportedAsset | InvalidAmount | MissingRecipient => BadRequest (transfer_text e)
  | RecipientAccountNotFound | RecipientDeviceNotFound => NotFound (transfer_text e)
  | AmbiguousRecipient | SameWallet | AccountNotLinked => Conflict (transfer_text e)
  | InsufficientBalance balance required => InsufficientCredits balance required
  | TransferOther e => Other e
  end.
Definition map_onchain_error (e : AccountOnchainError) : GatewayError :=
  match e with
  | OnchainAccountNotLinked => NotFound (onchain_text e)
  | InvalidUsdcAmount | DepositAmountRequired | MissingRequestId | MissingDestinationAddress
  | SolanaAddressRequired => BadRequest (onchain_text e)
  | SolanaAddressMismatch | SolanaWalletNotEnabled | DepositConflict | WithdrawalConflict
  | WithdrawalSignatureConflict | WithdrawalNotPending => Conflict (onchain_text e)
  | InsufficientWithdrawable balance redeemable required => InsufficientCredits (Z.min balance redeemable) required
  | OnchainOther e => Other e
  end.
Definition map_referral_error (e : ReferralError) : GatewayError :=
  match e with
  | InvalidCode => BadRequest (referral_text e)
  | SelfReferral | DeviceAlreadyClaimed | AccountAlreadyClaimed => Conflict (referral_text e)
  | ReferralAccountNotLinked => NotFound (referral_text e)
  | ReferralOther e => Other e
  end.
End Texts.

Definition deposit_text (e : DepositVerificationError) : string :=
  match e with
  | DepMissingSignature => "txSignature is required"
  | DepTransactionNotFound => "deposit txSignature was not found on Solana"
  | DepTransactionNotSettled s => "deposit txSignature is not " +:+ s +:+ " yet"
  | DepTransactionFailed => "deposit transaction failed on-chain"
  | DepNoMatchingDeposit => "deposit transaction did not credit the configured wallet with USDC"
  | DepAmountMismatch v r =>
      "verified deposit amount " +:+ show_z v +:+ " does not match requested amount " +:+ show_z r
  | DepSourceMismatch v r => "verified deposit source " +:+ v +:+ " does not match requested sourceAddress " +:+ r
  | DepFractionalCents => "deposit amount must be an exact number of USDC cents"
  | DepUnexpectedDecimals d => "configured USDC mint returned unexpected decimals " +:+ show_z d
  | DepRpc m => "solana rpc error: " +:+ m
  end.
Definition withdrawal_text (e : WithdrawalVerificationError) : string :=
  match e with
  | WdMissingSignature => "txSignature is required"
  | WdTransactionNotFound => "withdrawal txSignature was not found on Solana"
  | WdTransactionNotSettled s => "withdrawal txSignature is not " +:+ s +:+ " yet"
  | WdTransactionFailed => "withdrawal transaction failed on-chain"
  | WdNoMatchingWithdrawal => "withdrawal transaction did not debit the configured source wallet in USDC"
  | WdSourceMismatch v x =>
      "verified withdrawal source " +:+ v +:+ " does not match the configured account wallet " +:+ x
  | WdDestinationMismatch v r =>
      "verified withdrawal destination " +:+ v +:+ " does not match requested destinationAddress " +:+ r
  | WdAmountMismatch v r =>
      "verified withdrawal amount " +:+ show_z v +:+ " does not match requested amount " +:+ show_z r
  | WdTreasuryFeeMismatch v x =>
      "verified treasury fee " +:+ show_z v +:+ " micro-USDC does not match expected fee " +:+ show_z x
  | WdDestinationAmountMismatch v x =>
      "verified destination amount " +:+ show_z v +:+ " micro-USDC does not match expected net amount " +:+ show_z x
  | WdUnexpectedDecimals d => "configured USDC mint returned unexpected decimals " +:+ show_z d
  | WdRpc m => "solana rpc error: " +:+ m
  end.
Definition payout_text (e : TreasuryPayoutError) : string :=
  match e with
  | PayMissingSignature => "txSignature is required"
  | PayTransactionNotFound => "payout transaction was not found on Solana"
  | PayTransactionNotSettled s => "payout transaction is not " +:+ s +:+ " yet"
  | PayTransactionFailed => "payout transaction failed on-chain"
  | PayTreasuryDebitMismatch => "payout did not debit the treasury exactly the expected net amount"
  | PayDestinationMismatch => "payout did not credit the requested destination exactly the expected net amount"
  | PayUnexpectedRecipients => "payout credited unexpected additional USDC owners"
  | PayDeposit e => deposit_text e
  | PayRpc m => "solana rpc error: " +:+ m
  end.
Definition treasury_deposit_text (e : TreasuryDepositError) : string :=
  match e with
  | TreMissingSignature => "txSignature is required"
  | TreTransactionNotFound => "deposit transaction was not found on Solana"
  | TreTransactionNotSettled s => "deposit transaction is not " +:+ s +:+ " yet"
  | TreTransactionFailed => "deposit transaction failed on-chain"
  | TreNoMemoInstruction =>
      "deposit transaction carries no memo instruction - include the deposit memo shown in the app"
  | TreMemoMismatch => "on-chain memo does not match this account's deposit memo"
  | TreDeposit e => deposit_text e
  | TreRpc m => "solana rpc error: " +:+ m
  end.
Definition memo_anchor_text (e : MemoAnchorError) : string :=
  match e with
  | MemMissingSignature => "txSignature is required"
  | MemTransactionNotFound => "anchor transaction was not found on Solana"
  | MemTransactionNotSettled s => "anchor transaction is not " +:+ s +:+ " yet"
  | MemTransactionFailed => "anchor transaction failed on-chain"
  | MemNoMemoInstruction => "anchor transaction carries no memo instruction"
  | MemMemoMismatch => "on-chain memo does not match the pending anchor memo"
  | MemWrongAuthority actual expected =>
      "anchor transaction fee payer " +:+ actual +:+ " is not the configured anchor authority " +:+ expected
  | MemRpc m => "solana rpc error: " +:+ m
  end.

Definition map_deposit_verification_error (e : DepositVerificationError) : GatewayError :=
  match e with DepRpc _ => Upstream (deposit_text e) | _ => BadRequest (deposit_text e) end.
Definition map_treasury_deposit_error (e : TreasuryDepositError) : GatewayError :=
  match e with
  | TreDeposit inner => map_deposit_verification_error inner
  | TreRpc _ => Upstream (treasury_deposit_text e)
  | _ => BadRequest (treasury_deposit_text e)
  end.
Definition map_withdrawal_verification_error (e : WithdrawalVerificationError) : GatewayError :=
  match e with WdRpc _ => Upstream (withdrawal_text e) | _ => BadRequest (withdrawal_text e) end.
