(* ===== verification/AccountHandlers.v ===== *)
(** * The wallet and account endpoints

    [gateway/src/handlers/account.rs], [wallet.rs], [keys.rs] and
    [share_keys.rs]: who may move credits, link devices, manage keys.  Clocks,
    fresh identifiers and secrets are arguments; a handler that asks the chain
    takes what other requests did in the meantime. *)

From S2P Require Import Prelude Db RustStr Wallet ShareKeys Settlement Accounts Onchain Referrals ApiKeys.
From S2P Require Import Auth PinWire Solana Http.

Open Scope string_scope.
Open Scope list_scope.
Open Scope Z_scope.

(** ** Requests *)

Record LinkAccountReq : Type := mkLinkAccountReq {
  la_account_user_id : string;
  la_device_name : option string;
  la_platform : option string;
  la_display_name : option string;
  la_phone : option string;
  la_email : option string;
  la_github_username : option string;
  la_referral_code : option string
}.
Record SendReq : Type := mkSendReq {
  sq_asset : string;
  sq_recipient : string;
  sq_amount : Z;
  sq_memo : option string
}.
Record CreateKeyReq : Type := mkCreateKeyReq {
  ckr_name : option string;
  ckr_role : option ApiKeyRole;
  ckr_credit_limit : option Z
}.
Record UpdateKeyReq : Type := mkUpdateKeyReq {
  ukr_name : option (option string);
  ukr_credit_limit : option (option Z);
  ukr_disabled : option bool
}.
Record MintReq : Type := mkMintReq {
  mr_label : option string;
  mr_expires_in_seconds : Z;
  mr_budget_credits : Z
}.
Record FundReq : Type := mkFundReq {
  fq_funding_id : string;
  fq_amount_credits : Z
}.

(** ** Guards *)

Module Account.
Definition require_device (principal : AuthPrincipal) : result GatewayError string :=
  match principal with
  | PDevice d => Ok d
  | PApiKey _ _ _ _ _ => Err (Unauthorized "account API keys cannot call device-management endpoints")
  | PShare _ _ _ => Err (Unauthorized "share keys cannot call account endpoints")
  | PStatic _ | PAccountSession _ _ => Err (Unauthorized "device bearer required")
  end.
End Account.
Module Share.
Definition require_share_device (principal : AuthPrincipal) : result GatewayError string :=
  match principal with
  | PDevice d => Ok d
  | PShare _ _ _ => Err (Unauthorized "share keys cannot call device-only share-key endpoints")
  | PStatic _ | PApiKey _ _ _ _ _ | PAccountSession _ _ => Err (Unauthorized "device bearer required")
  end.
End Share.

(** A transaction whose answer is read after the commit. *)
Definition commits_then {E A} (err : E -> GatewayError) (f : Db -> result E (result E A * Db)) : Http Db A :=
  r ← commits err f;
  lift (map_err err r).

Section Handlers.
Context (sql_text : SqlError -> string) `{SolanaNode} (cfg : SolanaConfig) (now : Z).

(** ** Accounts *)

Definition link_account (claim_id : string) (principal : AuthPrincipal) (req : LinkAccountReq)
    : Http Db AccountWalletSnapshot :=
  requester_device_id ← lift (Account.require_device principal);
  _ ← require_pool;
  _ ← ensures (negb (is_empty (trim (la_account_user_id req)))) (BadRequest "accountUserID is required");
  account_user_id ← or_panic (normalize_account_user_id (la_account_user_id req));
  exists_now ← reads (fun db => Ok (account_wallet_exists account_user_id db));
  wallet_exists ← or_panic exists_now;
  _ ← writes_or_panics (link_device_to_account now requester_device_id account_user_id
        (mkAccountLinkMetadata (la_device_name req) (la_platform req) (la_display_name req) (la_phone req)
           (la_email req) (la_github_username req)));
  _ ← (if negb wallet_exists
       then _ ← commits (map_referral_error sql_text) (apply_account_join_rewards claim_id now
                           requester_device_id account_user_id (la_referral_code req));
            mret tt
       else mret tt);
  reads (fun db => map_err Other (account_summary_for_device requester_device_id db)).

Definition summary (principal : AuthPrincipal) : Http Db AccountWalletSnapshot :=
  _ ← require_pool;
  match principal with
  | PApiKey _ a _ _ _ | PAccountSession a _ =>
      reads (fun db => map_err (fun e => NotFound (anyhow_text sql_text e)) (account_summary a db))
  | PDevice d => reads (fun db => map_err (fun e => NotFound (anyhow_text sql_text e)) (account_summary_for_device d db))
  | PShare _ _ _ => fails (Unauthorized "share keys cannot call account endpoints")
  | PStatic _ => fails (Unauthorized "human account or linked device bearer required")
  end.

Definition onchain (authorization : option string) : Http Db AccountOnchainSnapshot :=
  d ← device_from_header now authorization;
  _ ← require_pool;
  reads (fun db => map_err (map_onchain_error sql_text) (account_onchain_summary_for_device d db)).

Definition deposit_intent (meanwhile : Db -> Db) (deposit_id : string) (authorization : option string)
    (req : AccountOnchainDepositIntent) : Http Db AccountOnchainSnapshot :=
  d ← device_from_header now authorization;
  _ ← require_pool;
  req ← match normalized_optional_string (di_tx_signature req) with
        | Some tx_signature =>
            address ← reads (fun db => map_err (map_onchain_error sql_text)
              (resolve_account_onchain_address_for_device d (di_solana_address req) db));
            verified ← lift (map_err map_deposit_verification_error
              (verify_usdc_deposit cfg address tx_signature (di_amount_usdc_cents req) (di_source_address req)));
            _ ← awaits meanwhile;
            mret (mkDepositIntent (Some address) (Some (vd_tx_signature verified)) (vd_source_address verified)
                    (Some (vd_amount_usdc_cents verified)))
        | None => mret req
        end;
  commits_then (map_onchain_error sql_text) (record_account_onchain_deposit deposit_id now d req).

Definition deposit_treasury (meanwhile : Db -> Db) (deposit_id : string) (authorization : option string)
    (tx_signature : string) : Http Db AccountOnchainSnapshot :=
  d ← device_from_header now authorization;
  _ ← require_pool;
  account_user_id ← reads (fun db =>
    ok_or (BadRequest "device is not linked to an account") (account_user_id_for_device d db));
  verified ← lift (map_err map_treasury_deposit_error
    (verify_treasury_deposit cfg tx_signature (treasury_deposit_memo account_user_id)));
  _ ← awaits meanwhile;
  commits_then (map_onchain_error sql_text)
    (record_account_treasury_deposit deposit_id now d (vt_tx_signature verified) (vt_amount_usdc_cents verified)
       (vt_source_address verified) (so_treasury_address cfg)).

Definition withdraw (meanwhile : Db -> Db) (withdrawal_id : string) (authorization : option string)
    (req : AccountWithdrawalRequest) : Http Db (string * WithdrawalRow) :=
  d ← device_from_header now authorization;
  _ ← require_pool;
  req ← match normalized_optional_string (wr_tx_signature req) with
        | Some tx_signature =>
            source ← reads (fun db => map_err (map_onchain_error sql_text)
              (resolve_account_onchain_address_for_device d None db));
            verified ← lift (map_err map_withdrawal_verification_error
              (verify_usdc_withdrawal cfg source (wr_destination_address req) (wr_amount_usdc_cents req) tx_signature));
            _ ← awaits meanwhile;
            mret (mkWithdrawalRequest (wr_request_id req) (vw_destination_address verified)
                    (vw_gross_amount_usdc_cents verified) (Some (vw_tx_signature verified)))
        | None => mret req
        end;
  commits_then (map_onchain_error sql_text) (submit_account_withdrawal withdrawal_id now d req).

Definition withdrawals (authorization : option string) (limit : Z) : Http Db (list (string * WithdrawalRow)) :=
  d ← device_from_header now authorization;
  _ ← require_pool;
  reads (fun db => map_err (map_onchain_error sql_text) (list_account_withdrawals_for_device d limit db)).

Definition sweep_device (principal : AuthPrincipal) (target : string) : Http Db (Z * AccountWalletSnapshot) :=
  d ← lift (Account.require_device principal);
  _ ← require_pool;
  _ ← ensures (negb (is_empty (trim target))) (BadRequest "deviceID is required");
  '(swept, snapshot) ← commits Other (sweep_device_to_account now d (trim target));
  snapshot ← lift (map_err Other snapshot);
  mret (swept, snapshot).

Definition remove_device (principal : AuthPrincipal) (target : string) : Http Db AccountWalletSnapshot :=
  d ← lift (Account.require_device principal);
  _ ← require_pool;
  _ ← ensures (negb (is_empty (trim target))) (BadRequest "deviceID is required");
  commits_then Other (remove_device_from_account d (trim target)).

Definition send (principal : AuthPrincipal) (req : SendReq) : Http Db TransferReceipt :=
  _ ← ensures (eq_ignore_ascii_case (sq_asset req) "credits") (BadRequest (transfer_text sql_text UnsupportedAsset));
  _ ← require_pool;
  match principal with
  | PApiKey _ a _ _ _ | PAccountSession a _ =>
      commits (map_transfer_error sql_text)
        (transfer_from_account_wallet_for_account now a (sq_recipient req) (sq_amount req) (sq_memo req) None)
  | PDevice d =>
      commits (map_transfer_error sql_text)
        (transfer_from_account_wallet now d (sq_recipient req) (sq_amount req) (sq_memo req))
  | PShare _ _ _ => fails (Unauthorized "share keys cannot call account endpoints")
  | PStatic _ => fails (Unauthorized "human account or linked device bearer required")
  end.

(** ** Device wallets *)

Definition balance (authorization : option string) : Http Db BalanceSnapshot :=
  d ← device_from_header now authorization;
  _ ← require_pool;
  reads (fun db => Ok (get_balance d db)).

Definition transactions (authorization : option string) (limit : Z) (include_availability : bool)
    : Http Db (list LedgerRow) :=
  d ← device_from_header now authorization;
  _ ← require_pool;
  let limit := Z.max 1 (Z.min limit 500) in
  reads (fun db => Ok (if include_availability then list_transactions d limit db
                       else list_transactions_without_availability d limit db)).

Definition wallet_send (authorization : option string) (req : SendReq) : Http Db TransferReceipt :=
  d ← device_from_header now authorization;
  _ ← ensures (eq_ignore_ascii_case (sq_asset req) "credits") (BadRequest (transfer_text sql_text UnsupportedAsset));
  _ ← require_pool;
  commits (map_transfer_error sql_text)
    (transfer_from_device_wallet now d (sq_recipient req) (sq_amount req) (sq_memo req)).

(** ** API keys *)

Record Caller : Type := mkCaller {
  cl_account_user_id : string;
  cl_can_manage : bool;
  cl_self_key_id : option string
}.
Definition resolve_caller (principal : AuthPrincipal) : Http Db Caller :=
  _ ← require_pool;
  match principal with
  | PDevice d => reads (fun db =>
      let? a := ok_or (NotFound "device is not linked to an account") (account_user_id_for_device d db) in
      Ok (mkCaller a true None))
  | PApiKey k a role _ _ => mret (mkCaller a (match role with Provisioning => true | Live => false end) (Some k))
  | PAccountSession a _ => mret (mkCaller a true None)
  | PStatic _ | PShare _ _ _ => fails (Forbidden "not authorized to manage api keys")
  end.
Definition require_manage (caller : Caller) : Http Db unit :=
  ensures (cl_can_manage caller)
    (Forbidden "live api keys cannot manage other keys; use a provisioning key or device bearer").
Definition map_api_key_error (e : ApiKeyError) : GatewayError :=
  match e with
  | KeyNotFound => NotFound "api key not found"
  | InvalidName => BadRequest "invalid name"
  | InvalidCreditLimit => BadRequest "invalid creditLimit"
  | ProvisioningRequired => Forbidden "provisioning role required"
  | KeyDb e => Other (Sql e)
  | KeyOther e => Other e
  end.

Definition create (hash_token : string -> string) (key_id secret : string) (principal : AuthPrincipal)
    (req : CreateKeyReq) : Http Db ApiKeyMinted :=
  caller ← resolve_caller principal;
  _ ← require_manage caller;
  _ ← require_pool;
  commits map_api_key_error (create_api_key hash_token key_id secret now (cl_account_user_id caller)
    (mkCreateApiKeyParams (ckr_name req) (ckr_role req) (ckr_credit_limit req))).
Definition list_keys (principal : AuthPrincipal) : Http Db (list ApiKeyPublic) :=
  caller ← resolve_caller principal;
  _ ← require_manage caller;
  _ ← require_pool;
  reads (fun db => Ok (list_api_keys (cl_account_user_id caller) db)).
Definition get_key (principal : AuthPrincipal) (key_id : string) : Http Db ApiKeyPublic :=
  caller ← resolve_caller principal;
  _ ← require_manage caller;
  _ ← require_pool;
  reads (fun db => map_err map_api_key_error (get_api_key (cl_account_user_id caller) key_id db)).
Definition update (principal : AuthPrincipal) (key_id : string) (req : UpdateKeyReq) : Http Db ApiKeyPublic :=
  caller ← resolve_caller principal;
  _ ← require_manage caller;
  _ ← require_pool;
  commits map_api_key_error (update_api_key (cl_account_user_id caller) key_id
    (mkUpdateApiKeyParams (ukr_name req) (ukr_credit_limit req) (ukr_disabled req))).
Definition delete_key (principal : AuthPrincipal) (key_id : string) : Http Db unit :=
  caller ← resolve_caller principal;
  _ ← require_manage caller;
  _ ← require_pool;
  commits map_api_key_error (fun db =>
    let? db' := delete_api_key (cl_account_user_id caller) key_id db in Ok (tt, db')).

Inductive CurrentKey : Type :=
| OwnKey (key : ApiKeyPublic)
| DeviceDescriptor (account_user_id : string).
Definition current (principal : AuthPrincipal) : Http Db CurrentKey :=
  caller ← resolve_caller principal;
  match cl_self_key_id caller with
  | Some self_key_id =>
      _ ← require_pool;
      reads (fun db =>
        let? key := map_err map_api_key_error (get_api_key (cl_account_user_id caller) self_key_id db) in
        Ok (OwnKey key))
  | None => mret (DeviceDescriptor (cl_account_user_id caller))
  end.
Definition credits (principal : AuthPrincipal) : Http Db CreditsSnapshot :=
  caller ← resolve_caller principal;
  _ ← require_pool;
  reads (fun db => map_err Other (credits_snapshot (cl_account_user_id caller) db)).

(** ** Share keys *)

Definition mint (issuers : ShareKeyIssuers) (ids : MintIds) (principal : AuthPrincipal) (req : MintReq)
    : Http Db ShareKeyMinted :=
  issuer ← lift (Share.require_share_device principal);
  _ ← ensures (negb (bool_decide ((issuers : gset string) = ∅)))
        (Forbidden "share-key issuance is not configured on this gateway");
  _ ← ensures (is_allowed issuer issuers) (Forbidden "this device is not permitted to mint share keys");
  _ ← require_pool;
  commits (fun e => BadRequest (anyhow_text sql_text e))
    (mint_share_key ids now issuer (mr_label req) (mr_expires_in_seconds req) (mr_budget_credits req)).
Definition list_share (principal : AuthPrincipal) : Http Db (list ShareKeyPublic) :=
  issuer ← lift (Share.require_share_device principal);
  _ ← require_pool;
  reads (fun db => Ok (list_share_keys issuer db)).
Definition map_fund_error (e : FundShareKeyError) : GatewayError :=
  match e with
  | FundNotFound => NotFound "share key funding target not found"
  | FundRevoked => Conflict "share key is revoked"
  | FundExpired => Conflict "share key is expired"
  | FundNotMigrated => Conflict "share key is not yet migrated to the funded-pool model"
  | FundInsufficientBalance balance required => InsufficientCredits balance required
  end.
Definition fund (contribution_id : string) (principal : AuthPrincipal) (req : FundReq)
    : Http Db ShareKeyFundingReceipt :=
  sender ← lift (Share.require_share_device principal);
  _ ← ensures (negb (fq_amount_credits req <=? 0)) (BadRequest "amountCredits must be > 0");
  _ ← require_pool;
  commits map_fund_error
    (transfer_to_share_key contribution_id now sender (fq_funding_id req) (fq_amount_credits req)).
Definition revoke (principal : AuthPrincipal) (key_id : string) : Http Db unit :=
  issuer ← lift (Share.require_share_device principal);
  _ ← require_pool;
  revoked ← runs (fun db => let '(b, db) := revoke_share_key now issuer key_id db in (Ok b, db));
  ensures revoked (NotFound "share key not found").
Definition funding_preview (funding_id : string) : Http Db ShareKeyFundingPreview :=
  _ ← require_pool;
  reads (fun db => ok_or (NotFound "share key funding target not found") (preview_share_key_funding now funding_id db)).
End Handlers.
