(* ===== verification/AdminHandlers.v ===== *)
(** * Operator endpoints, logins and anchors

    [gateway/src/handlers/admin.rs], [auth.rs], [account_auth.rs],
    [account_email.rs], [anchors.rs] and [solvency.rs].  E-mails leave through a
    parameter that says what sending one answers; random codes, nonces and
    tokens are arguments.  The HTML page of the sign-in link and the metric
    counters are left out. *)

From S2P Require Import Prelude Db RustStr Merkle Wallet ShareKeys Accounts Onchain Referrals Sessions.
From S2P Require Import Anchoring Auth PinWire Catalog ChatPrepare Solana Http.
From Stdlib Require Import Ascii.

Open Scope string_scope.
Open Scope list_scope.
Open Scope Z_scope.

(** [anyhow!("what: {}", e)]. *)
Definition context (sql_text : SqlError -> string) (what : string) (e : anyhow) : GatewayError :=
  Other (Bail (what +:+ ": " +:+ anyhow_text sql_text e)).

(** ** Operators *)

Module Admin.
Section Admin.
Context (sql_text : SqlError -> string) `{SolanaNode} (cfg : SolanaConfig) (now : Z).

Definition require_static {S} (principal : AuthPrincipal) : Http S unit :=
  match principal with
  | PStatic _ => mret tt
  | _ => fails (Forbidden "admin endpoints require a static bearer")
  end.

Record MintRes : Type := mkMintRes { mres_device_id : string; mres_minted_credits : Z; mres_balance_credits : Z }.
Definition mint (principal : AuthPrincipal) (dev : string) (amount : Z) (note : option string) : Http Db MintRes :=
  _ ← require_static principal;
  _ ← ensures (negb (amount <=? 0)) (BadRequest "amount must be > 0");
  _ ← require_pool;
  balance ← commits (context sql_text "admin_mint") (admin_mint now dev amount (default "admin top-up" note));
  mret (mkMintRes dev amount balance).

Definition migrate_share_keys (new_funding_id new_contribution_id : string -> string) (principal : AuthPrincipal)
    : Http Db ShareKeyMigrationReport :=
  _ ← require_static principal;
  _ ← require_pool;
  commits (context sql_text "migrate") (migrate_unfunded_share_keys new_funding_id new_contribution_id now).

Definition pending_withdrawals (principal : AuthPrincipal) : Http Db (list (string * WithdrawalRow)) :=
  _ ← require_static principal;
  _ ← require_pool;
  reads (fun db => Ok (list_pending_withdrawals 100 db)).

Definition onchain_context (what : string) (e : AccountOnchainError) : GatewayError :=
  Other (Bail (what +:+ ": " +:+ onchain_text sql_text e)).
Definition complete_withdrawal (meanwhile : Db -> Db) (principal : AuthPrincipal) (request_id tx_signature : string)
    : Http Db (string * WithdrawalRow) :=
  _ ← require_static principal;
  _ ← require_pool;
  pending ← reads (fun db => ok_or (BadRequest "no pending withdrawal for request id")
    (w ← get_withdrawal_by_request request_id db; if bool_decide (wd_status w.2 = "pending") then Some w.2 else None));
  verified ← lift (map_err (fun e => BadRequest ("payout verification failed: " +:+ payout_text e))
    (verify_treasury_payout cfg tx_signature (wd_destination_address pending) (wd_amount_usdc_cents pending)));
  _ ← awaits meanwhile;
  commits (onchain_context "complete-withdrawal")
    (complete_account_withdrawal_from_treasury now request_id (vp_tx_signature verified)).

Definition reject_withdrawal (principal : AuthPrincipal) (request_id : string) (reason : option string)
    : Http Db (string * WithdrawalRow) :=
  _ ← require_static principal;
  _ ← require_pool;
  commits (onchain_context "reject-withdrawal") (reject_account_withdrawal now request_id reason).

Definition refund_expired (principal : AuthPrincipal) : Http Db ExpiredShareKeyRefundReport :=
  _ ← require_static principal;
  _ ← require_pool;
  runs (fun db => let '(report, db) := refund_expired_share_keys now db in (Ok report, db)).

Definition reset (principal : AuthPrincipal) : Http Db GenesisResetReport :=
  _ ← require_static principal;
  _ ← require_pool;
  commits (context sql_text "reset-genesis") reset_genesis.
End Admin.
End Admin.

(** ** Devices *)

Definition is_hex_pubkey (s : string) : bool :=
  Nat.eqb (length (bytes s)) 64 && forallb is_ascii_hexdigit (bytes s).
(** [client_ip_key] on the two header values. *)
Definition client_ip_key (fly_client_ip x_forwarded_for : option string) : string :=
  match Accounts.non_empty (trim (default "" fly_client_ip)) with
  | Some v => v
  | None =>
      match Accounts.non_empty (trim (default "" (head (split_on ","%char (bytes (default "" x_forwarded_for)) [])))) with
      | Some v => v
      | None => "unknown"
      end
  end.

(** The labels of a counter: named until the limit, then one for all. *)
Definition DEVICE_METRIC_PREFIX_LIMIT : nat := 1024.
Definition device_id_prefix (dev : string) : string := map_str lower (of_bytes (take 16 (bytes dev))).
Definition device_metric_prefix (dev : string) (seen : gset string) : string * gset string :=
  let prefix := device_id_prefix dev in
  if bool_decide (prefix ∈ seen) || Nat.ltb (size seen) DEVICE_METRIC_PREFIX_LIMIT
  then (prefix, {[prefix]} ∪ seen) else ("overflow", seen).

Record ExchangeReq : Type := mkExchangeReq {
  xr_device_id : string;
  xr_nonce : string;
  xr_signature : string;
  xr_referral_code : option string
}.
Record ExchangeRes : Type := mkExchangeRes {
  xs_token : string;
  xs_expires_at : Z;
  xs_welcome_bonus : option Z;
  xs_referral_bonus : option Z
}.

Section Login.
Context (sql_text : SqlError -> string) (now : Z).

(** The nonce comes with the request; the limiter is checked before the store. *)
Definition challenge (nonce : string) (fly_client_ip x_forwarded_for : option string) (dev : string)
    (limiter : ChallengeLimiter) (db : option Db) : result Stop (string * Z) * option Db * ChallengeLimiter :=
  if negb (is_hex_pubkey dev) then (Err (Answered (BadRequest "deviceID must be 64-char hex pubkey")), db, limiter)
  else
    let '(decision, limiter) := challenge_allow (client_ip_key fly_client_ip x_forwarded_for) dev now limiter in
    match decision with
    | Denied =>
        (Err (Answered (RateLimited "too many new device identities from this network; retry an existing identity or try again within the hour")),
         db, limiter)
    | NewDevice | Retry =>
        ((_ ← require_pool;
          _ ← writes (fun db => (upsert_device now dev db).2);
          expires_at ← runs (fun db => let '(t, db) := create_challenge now dev nonce db in (Ok t, db));
          mret (nonce, expires_at) : Http Db (string * Z)) db, limiter)
    end.

(** Crates: hexadecimal, base64 and Ed25519. *)
Context `{WireCrates} `{Crates} (base64_decode : string -> option (list byte)) (invalid_pubkey : string).

Definition exchange (claim_id token : string) (req : ExchangeReq) : Http Db ExchangeRes :=
  _ ← ensures (is_hex_pubkey (xr_device_id req)) (BadRequest "deviceID must be 64-char hex pubkey");
  _ ← require_pool;
  pubkey_bytes ← lift (ok_or (BadRequest "bad deviceID hex") (hex_decode (xr_device_id req)));
  _ ← ensures (Nat.eqb (length pubkey_bytes) 32) (BadRequest "deviceID length");
  key ← lift (ok_or (BadRequest ("invalid pubkey: " +:+ invalid_pubkey)) (vk_from_bytes pubkey_bytes));
  sig_bytes ← lift (ok_or (BadRequest "bad signature hex") (hex_decode (xr_signature req)));
  _ ← ensures (Nat.eqb (length sig_bytes) 64) (BadRequest "signature length");
  nonce_bytes ← lift (ok_or (BadRequest "bad nonce b64") (base64_decode (xr_nonce req)));
  _ ← ensures (vk_verify key nonce_bytes sig_bytes) (Unauthorized "signature verification failed");
  ok ← runs (fun db => let '(b, db) := consume_challenge now (xr_device_id req) (xr_nonce req) db in (Ok b, db));
  _ ← ensures ok (Unauthorized "challenge not found or expired");
  rewards ← commits (map_referral_error sql_text)
    (apply_device_join_rewards claim_id now (xr_device_id req) (xr_referral_code req));
  let some_if z := if 0 <? z then Some z else None in
  expires_at ← commits (context sql_text "issue token") (issue_token now (xr_device_id req) token);
  mret (mkExchangeRes token expires_at (some_if (welcome_bonus_credits rewards)) (some_if (referral_bonus_credits rewards))).

Definition set_username_handler (authorization : option string) (username : string) : Http Db (string * string) :=
  let trimmed := trim username in
  _ ← ensures (negb (is_empty trimmed || Nat.ltb 64 (length (bytes trimmed)))) (BadRequest "username must be 1-64 chars");
  _ ← require_pool;
  dev ← reads (fun db =>
    ok_or (Unauthorized "unknown or expired device token") (resolve_token now (bearer_of authorization) db));
  _ ← writes (set_username dev trimmed);
  mret (dev, trimmed).

Definition referral_code (new_code : string) (authorization : option string) : Http Db ReferralCodeSnapshot :=
  _ ← require_pool;
  dev ← reads (fun db =>
    ok_or (Unauthorized "unknown or expired device token") (resolve_token now (bearer_of authorization) db));
  commits (context sql_text "referral code") (referral_code_for_device new_code now dev).
End Login.

(** ** E-mail *)

(** What the environment and the mail service make of a message. *)
Record Mailer : Type := mkMailer {
  ml_api_key : string;
  ml_from : string;
  ml_dev_log : bool;
  ml_public_base_url : option string;
  (** The request with address, subject and text; [Err]: it could not be sent. *)
  ml_post : string -> string -> string -> result string HttpAnswer
}.
(** [trim_end_matches('/')]. *)
Fixpoint trim_start_slashes (l : list ascii) : list ascii :=
  match l with c :: l' => if Ascii.eqb c "/"%char then trim_start_slashes l' else l | [] => [] end.
Definition public_base_url (m : Mailer) : string :=
  match ml_public_base_url m ≫= (fun v => Accounts.non_empty (of_bytes (rev (trim_start_slashes (rev (bytes v)))))) with
  | Some v => v
  | None => "https://gateway.teale.com"
  end.
Definition newline : string := of_bytes [u8 10].
Definition login_subject (code : string) : string := code +:+ " is your Teale sign-in code".
Definition login_text (m : Mailer) (code link_token : string) : string :=
  "Your Teale sign-in code is " +:+ code +:+ ". It expires in 10 minutes." +:+ newline +:+ newline +:+
  "Or click to sign in: " +:+ public_base_url m +:+ "/v1/auth/link/" +:+ link_token +:+ newline +:+ newline +:+
  "If you did not request this, you can ignore this email.".
Definition code_subject (code : string) : string := code +:+ " is your Teale verification code".
Definition code_text (code : string) : string :=
  "Your Teale verification code is " +:+ code +:+ ". It expires in 10 minutes." +:+ newline +:+ newline +:+
  "If you did not request this code, you can ignore this email.".
Definition send_mail (what : string) (m : Mailer) (email subject text : string) : result GatewayError unit :=
  if is_empty (trim (ml_api_key m)) || is_empty (trim (ml_from m)) then
    if ml_dev_log m then Ok tt else Err (Other (Bail "gateway email sender is not configured"))
  else
    let? answer := map_err (fun e => Other (Bail (what +:+ ": " +:+ e))) (ml_post m email subject text) in
    guard? ha_success answer
      else (Upstream ("email provider returned " +:+ ha_status answer +:+ ": " +:+ ha_payload answer)) in
    Ok tt.

Section Email.
Context (sql_text : SqlError -> string) (sha256_hex : string -> string) (m : Mailer) (now : Z).
Definition bad_request {A} (r : result anyhow A) : result GatewayError A :=
  map_err (fun e => BadRequest (anyhow_text sql_text e)) r.

(** [account_auth::request]: a code and a link. *)
Definition login_request (meanwhile : Db -> Db) (id code link_token email : string)
    : Http Db AccountEmailCodeRequest :=
  _ ← require_pool;
  email ← lift (ok_or (BadRequest "valid email is required") (normalize_account_email email));
  created ← commits (fun e => BadRequest (anyhow_text sql_text e))
    (create_account_email_login_code sha256_hex id now email code link_token);
  _ ← lift (send_mail "send login email" m email (login_subject code) (login_text m code link_token));
  _ ← awaits meanwhile;
  mret created.

Definition login_session (token session_id : string) (dev device_name : option string) (email : string)
    : Http Db AccountSessionIssued :=
  account_user_id ← commits Other (account_user_id_for_login now email);
  commits Other (create_account_session sha256_hex token session_id now account_user_id dev device_name).
Definition login_verify (token session_id email code : string) (dev device_name : option string)
    : Http Db (AccountSessionIssued * string) :=
  _ ← require_pool;
  verified ← runs (fun db => let '(r, db) := verify_account_email_code sha256_hex now email code db in
                             (bad_request r, db));
  issued ← login_session token session_id dev device_name (cv_email verified);
  mret (issued, cv_email verified).
(** [account_auth::link]: the deep link of the answer. *)
Definition login_link (token session_id link_token : string) : Http Db string :=
  _ ← require_pool;
  verified ← commits (fun e => BadRequest (anyhow_text sql_text e))
    (verify_account_email_link_token sha256_hex now link_token);
  issued ← login_session token session_id None None (cv_email verified);
  mret ("teale://auth/session?token=" +:+ asi_token issued).
Definition session (principal : AuthPrincipal) : Http Db (string * option string * string) :=
  s ← lift (ok_or (Unauthorized "account session bearer required") (account_session principal));
  _ ← require_pool;
  reads (fun db => Ok (s.1, account_email_for_user s.1 db, s.2)).
Definition logout (principal : AuthPrincipal) (authorization : option string) : Http Db unit :=
  _ ← lift (ok_or (Unauthorized "account session bearer required") (account_session principal));
  _ ← require_pool;
  writes (fun db => (revoke_account_session sha256_hex now (bearer_of authorization) db).2).

(** [account_email::request] and [verify]. *)
Definition email_code_request (meanwhile : Db -> Db) (id code email : string) : Http Db AccountEmailCodeRequest :=
  _ ← require_pool;
  email ← lift (ok_or (BadRequest "valid email is required") (normalize_account_email email));
  created ← commits (fun e => BadRequest (anyhow_text sql_text e)) (create_account_email_code sha256_hex id now email code);
  _ ← lift (send_mail "send email code" m email (code_subject code) (code_text code));
  _ ← awaits meanwhile;
  mret created.
Definition email_code_verify (email code : string) : Http Db AccountEmailCodeVerification :=
  _ ← require_pool;
  runs (fun db => let '(r, db) := verify_account_email_code sha256_hex now email code db in (bad_request r, db)).
End Email.

(** ** Anchors *)

Module Anchors.
Section Anchors.
Context (sql_text : SqlError -> string) `{Crates} `{SolanaNode} (cfg : SolanaConfig) (now : Z).

Definition require_anchor_static (principal : AuthPrincipal) : Http AnchorDb unit :=
  match principal with
  | PStatic _ => mret tt
  | _ => fails (Forbidden "anchor admin endpoints require a static bearer")
  end.
Definition conflict (what : string) (e : anyhow) : GatewayError := Conflict (what +:+ ": " +:+ anyhow_text sql_text e).

Definition prepare (principal : AuthPrincipal) : Http AnchorDb (PreparedAnchor * string) :=
  _ ← require_anchor_static principal;
  _ ← require_pool;
  prepared ← runs (fun st => let '(r, st) := prepare_anchor now st in (map_err (conflict "prepare anchor") r, st));
  prepared ← lift (ok_or (Conflict "no unanchored ledger rows") prepared);
  mret (prepared, "Publish the memo on Solana from the configured anchor authority (" +:+
    (if is_empty (so_anchor_authority_address cfg) then "NOT CONFIGURED — set solana.anchor_authority_address first"
     else so_anchor_authority_address cfg) +:+
    "), then call /v1/admin/ledger/anchors/finalize with the tx signature.").

Definition finalize (meanwhile : AnchorDb -> AnchorDb) (principal : AuthPrincipal) (anchor_id : Z) (tx_signature : string)
    : Http AnchorDb (Z * string * string) :=
  _ ← require_anchor_static principal;
  _ ← require_pool;
  _ ← ensures (negb (is_empty (so_anchor_authority_address cfg)))
        (BadRequest "solana.anchor_authority_address is not configured");
  memo ← reads (fun st =>
    ok_or (NotFound ("no pending anchor " +:+ show_z anchor_id)) (pending_anchor_memo anchor_id st));
  _ ← lift (map_err (fun e => BadRequest ("on-chain verification failed: " +:+ memo_anchor_text e))
        (verify_memo_anchor deposit_text cfg tx_signature memo (so_anchor_authority_address cfg)));
  _ ← awaits meanwhile;
  _ ← commits (conflict "confirm anchor") (fun st =>
        let? st' := confirm_anchor now anchor_id (trim tx_signature) st in Ok (tt, st'));
  mret (anchor_id, "confirmed", tx_signature).

Definition abandon (principal : AuthPrincipal) (anchor_id : Z) : Http AnchorDb unit :=
  _ ← require_anchor_static principal;
  _ ← require_pool;
  commits (conflict "abandon anchor") (fun st => let? st' := abandon_anchor anchor_id st in Ok (tt, st')).

Definition list : Http AnchorDb (list AnchorRecord) :=
  _ ← require_pool;
  reads (fun st => Ok (list_anchors true st)).

Definition proof (principal : AuthPrincipal) (entry_id : Z) : Http AnchorDb InclusionProof :=
  _ ← require_pool;
  _ ← match principal with
      | PDevice d =>
          owns ← reads (fun st => Ok (existsb (fun r => (led_id r =? entry_id) && String.eqb (led_device_id r) d)
                                        (ledger (a_db st))));
          ensures owns (Forbidden "devices may only fetch proofs for their own ledger rows")
      | PStatic _ => mret tt
      | _ => fails (Forbidden "proof endpoint requires a device or static bearer")
      end;
  found ← runs (fun st => let '(r, st) := inclusion_proof entry_id st in (map_err (context sql_text "build proof") r, st));
  lift (ok_or (NotFound ("entry " +:+ show_z entry_id +:+ " does not exist or is not covered by a confirmed anchor yet"))
          found).
End Anchors.
End Anchors.
