(* ===== verification/Solvency.v ===== *)
(** * Public reports

    [gateway/src/handlers/solvency.rs] with the two balance queries of
    [solana.rs], the share-key preview of [share_keys.rs] and [pool_status] of
    [network.rs]: what anyone may read about the reserves, a shared key and the
    mint pool.  The price service is a parameter like the RPC node. *)

From S2P Require Import Prelude Db RustStr Wallet ShareKeys F64 Registry Auth PinWire Catalog ChatPrepare Solana.
From S2P Require Import Http.

Open Scope string_scope.
Open Scope list_scope.
Open Scope Z_scope.

(** [value["a"]["b"]]: a missing part is [null]. *)
Definition at_path (path : list string) (j : Json) : option Json :=
  foldl (fun o key => o ≫= get key) (Some j) path.

(** ** Reserves *)

Section Node.
Context `{SolanaNode}.

(** [.json()]: the status of the answer is not looked at. *)
Definition answer_json (r : result string HttpAnswer) : result string Json :=
  let? answer := r in json_text (ha_payload answer).

Definition add_amount (account : Json) (total : Z) : result string Z :=
  match at_path ["account"; "data"; "parsed"; "info"; "tokenAmount"; "amount"] account ≫= as_string with
  | Some raw => let? z := map_err parse_int_error_text (parse_i64 raw) in Ok (i64_add total z)
  | None => Ok total
  end.
Definition treasury_usdc_balance_micro (cfg : SolanaConfig) : result string Z :=
  let? resp := answer_json (rpc_post (rpc_body "getTokenAccountsByOwner"
    [JString (so_treasury_address cfg); JObject [("mint", JString (so_usdc_mint cfg))];
     JObject [("encoding", JString "jsonParsed")]])) in
  fold_res add_amount (default [] (at_path ["result"; "value"] resp ≫= as_list)) 0.
Definition treasury_sol_balance_lamports (cfg : SolanaConfig) : result string Z :=
  let? resp := answer_json (rpc_post (rpc_body "getBalance" [JString (so_treasury_address cfg)])) in
  ok_or "getBalance: unexpected response" (at_path ["result"; "value"] resp ≫= as_i64).

(** What the price service answers, as JSON. *)
Definition fetch_sol_usd_price (spot : result string Json) : result string f64 :=
  let? resp := spot in
  ok_or "coinbase spot: unexpected response"
    (s ← at_path ["data"; "amount"] resp ≫= as_string; p ← parse_f64 s; if f64_lt f64_zero p then Some p else None).

Definition sol_value (lamports : Z) (price : f64) : Z :=
  f64_as_i64 (f64_round (f64_mul (f64_mul (f64_div (f64_of_Z lamports) (f64_of_Z 1000000000)) price) (f64_of_Z 1000000))).

Definition i64_saturating_mul (a b : Z) : Z := Z.max i64_min (Z.min i64_max (a * b)).

Record SolvencyReport : Type := mkSolvencyReport {
  sv_treasury_usdc_micro : Z;
  sv_treasury_sol_lamports : option Z;
  sv_treasury_sol_value_micro : option Z;
  sv_treasury_sol_valuation_error : option string;
  sv_treasury_backing_micro : Z;
  sv_device_credits_outstanding : Z;
  sv_account_credits_outstanding : Z;
  sv_pending_withdrawal_usdc_cents : Z;
  sv_outstanding_credits_total : Z;
  sv_total_liabilities_micro : Z;
  sv_coverage_bps : Z
}.
Definition report_of (l : SolvencyLiabilities) (treasury_micro : Z) (sol_lamports : result string Z)
    (sol_price : result string f64) : SolvencyReport :=
  let sol_value_micro :=
    match sol_lamports, sol_price with Ok lamports, Ok price => Some (sol_value lamports price) | _, _ => None end in
  let backing_micro := i64_add treasury_micro (default 0 sol_value_micro) in
  let outstanding_credits := i64_add (sl_device_credits l) (sl_account_credits l) in
  let pending_micro := i64_mul (sl_pending_withdrawal_usdc_cents l) 10000 in
  let total_liabilities_micro := i64_add outstanding_credits pending_micro in
  let coverage_bps :=
    if 0 <? total_liabilities_micro then i64_div (i64_saturating_mul backing_micro 10000) total_liabilities_micro
    else 10000 in
  mkSolvencyReport treasury_micro (ok sol_lamports) sol_value_micro
    (match sol_lamports, sol_price with Ok _, Ok _ => None | Err e, _ => Some e | _, Err e => Some e end)
    backing_micro (sl_device_credits l) (sl_account_credits l) (sl_pending_withdrawal_usdc_cents l)
    outstanding_credits total_liabilities_micro coverage_bps.
Definition solvency (cfg : SolanaConfig) (spot : result string Json) : Http Db SolvencyReport :=
  _ ← require_pool;
  liabilities ← reads (fun db => Ok (solvency_liabilities db));
  treasury_micro ← lift (map_err Upstream (treasury_usdc_balance_micro cfg));
  let sol_lamports := map_err (fun e => "sol balance: " +:+ e) (treasury_sol_balance_lamports cfg) in
  mret (report_of liabilities treasury_micro sol_lamports (fetch_sol_usd_price spot)).
End Node.

(** ** The landing page of a share key *)

Record PreviewModel : Type := mkPreviewModel {
  pm_id : string;
  pm_params_b : f64;
  pm_quantization : option string;
  pm_status : ModelAvailability;
  pm_estimated_size_gb : f64
}.
Definition preview_model (clk : Clock) (r : Registry) (m : CatalogModel) : PreviewModel :=
  let size_gb := estimated_size_gb (cm_params_b m) (cm_quantization m) in
  mkPreviewModel (cm_id m) (cm_params_b m) (cm_quantization m) (model_availability clk (cm_id m) size_gb r)
    (f64_div (f64_round (f64_mul size_gb (f64_of_Z 10))) (f64_of_Z 10)).
Definition preview (clk : Clock) (r : Registry) (catalog : list CatalogModel) (token : string)
    : Http Db (ShareKeyPreview * list PreviewModel) :=
  _ ← require_pool;
  p ← reads (fun db => ok_or (NotFound "share key not found") (preview_share_key token db));
  mret (p, preview_model clk r <$> catalog).

(** ** The mint pool *)

Record PoolStatus : Type := mkPoolStatus {
  ps_total_minted : Z;
  ps_remaining : Z;
  ps_remaining_usd : f64;
  ps_low_pool : bool
}.
Definition pool_status (db : option Db) : option PoolStatus :=
  s ← (db0 ← db; ok (mint_pool_snapshot db0));
  Some (mkPoolStatus (mp_total_minted s) (mp_remaining s) (f64_div (f64_of_Z (mp_remaining s)) (f64_of_Z 1000000))
          (i64_mul (mp_remaining s) 10 <? mp_total_minted s)).
