(* ===== verification/Server.v ===== *)
(** * The money server

    The routes of [gateway/src/main.rs] that read or move money, with the bearer
    check of [auth.rs] in front of the protected ones: one request over the
    store.  The theorems of [ServerFacts] are about this server. *)

From S2P Require Import Prelude Db RustStr Merkle Wallet ShareKeys Settlement Accounts Onchain Referrals ApiKeys Sessions.
From S2P Require Import Auth PinWire Solana Http AccountHandlers AdminHandlers Solvency.

Open Scope string_scope.
Open Scope list_scope.
Open Scope Z_scope.

Record Headers : Type := mkHeaders { hd_authorization : option string; hd_x_api_key : option string }.

Inductive Request : Type :=
(** Protected. *)
| RLinkAccount (claim_id : string) (req : LinkAccountReq)
| REmailCodeRequest (id code email : string)
| REmailCodeVerify (email code : string)
| RSummary
| RSession
| RLogout
| ROnchain
| RDepositIntent (deposit_id : string) (req : AccountOnchainDepositIntent)
| RDepositTreasury (deposit_id tx_signature : string)
| RWithdraw (withdrawal_id : string) (req : AccountWithdrawalRequest)
| RWithdrawals (limit : Z)
| RSweep (target : string)
| RSend (req : SendReq)
| RRemoveDevice (target : string)
| RCreateKey (key_id secret : string) (req : CreateKeyReq)
| RListKeys
| RGetKey (key_id : string)
| RUpdateKey (key_id : string) (req : UpdateKeyReq)
| RDeleteKey (key_id : string)
| RCurrentKey
| RCredits
| RBalance
| RTransactions (limit : Z) (include_availability : bool)
| RWalletSend (req : SendReq)
| RUsername (username : string)
| RReferralCode (new_code : string)
| RMintShare (ids : MintIds) (req : MintReq)
| RListShare
| RFundShare (contribution_id : string) (req : FundReq)
| RRevokeShare (key_id : string)
| RAdminMint (dev : string) (amount : Z) (note : option string)
| RMigrate (new_funding_id new_contribution_id : string -> string)
| RPendingWithdrawals
| RComplete (request_id tx_signature : string)
| RReject (request_id : string) (reason : option string)
| RRefundExpired
| RReset
(** Public. *)
| RExchange (claim_id token : string) (req : ExchangeReq)
| RLoginRequest (id code link_token email : string)
| RLoginVerify (token session_id email code : string) (dev device_name : option string)
| RLoginLink (token session_id link_token : string)
| RFundingPreview (funding_id : string)
| RSolvency (spot : result string Json).

Definition void {S A} (h : Http S A) : Http S unit := _ ← h; mret tt.

(** What is configured, and the crates. *)
Record ServerConfig : Type := mkServerConfig {
  sc_sql_text : SqlError -> string;
  sc_hash_token : string -> string;
  sc_sha256_hex : string -> string;
  sc_base64_decode : string -> option (list byte);
  sc_invalid_pubkey : string;
  sc_tokens : TokenTable;
  sc_solana : SolanaConfig;
  sc_issuers : ShareKeyIssuers;
  sc_mailer : Mailer
}.

Section Serve.
Context `{WireCrates} `{Crates} (sc : ServerConfig).

(** [require_bearer] in front of a handler. *)
Definition protected {A} (now : Z) (hd : Headers) (h : AuthPrincipal -> Http Db A) : Http Db A := fun db =>
  match require_bearer (sc_hash_token sc) (sc_sha256_hex sc) now (sc_tokens sc) (hd_authorization hd) (hd_x_api_key hd) db with
  | (Ok principal, db) => h principal db
  | (Err status, db) => (Err (Rejected status), db)
  end.

Definition serve (node : SolanaNode) (now : Z) (meanwhile : Db -> Db) (hd : Headers) (req : Request) : Http Db unit :=
  let sql_text := sc_sql_text sc in
  let cfg := sc_solana sc in
  let auth := hd_authorization hd in
  let sha := sc_sha256_hex sc in
  let behind {A} (h : AuthPrincipal -> Http Db A) := protected now hd (fun p => void (h p)) in
  match req with
  | RLinkAccount claim_id req => behind (fun p => link_account sql_text now claim_id p req)
  | REmailCodeRequest id code email =>
      behind (fun _ => email_code_request sql_text sha (sc_mailer sc) now meanwhile id code email)
  | REmailCodeVerify email code => behind (fun _ => email_code_verify sql_text sha now email code)
  | RSummary => behind (summary sql_text)
  | RSession => behind session
  | RLogout => behind (fun p => logout sha now p auth)
  | ROnchain => behind (fun _ => onchain sql_text now auth)
  | RDepositIntent deposit_id req => behind (fun _ => deposit_intent sql_text cfg now meanwhile deposit_id auth req)
  | RDepositTreasury deposit_id sig => behind (fun _ => deposit_treasury sql_text cfg now meanwhile deposit_id auth sig)
  | RWithdraw withdrawal_id req => behind (fun _ => withdraw sql_text cfg now meanwhile withdrawal_id auth req)
  | RWithdrawals limit => behind (fun _ => withdrawals sql_text now auth limit)
  | RSweep target => behind (fun p => sweep_device now p target)
  | RSend req => behind (fun p => send sql_text now p req)
  | RRemoveDevice target => behind (fun p => remove_device p target)
  | RCreateKey key_id secret req => behind (fun p => create now (sc_hash_token sc) key_id secret p req)
  | RListKeys => behind list_keys
  | RGetKey key_id => behind (fun p => get_key p key_id)
  | RUpdateKey key_id req => behind (fun p => update p key_id req)
  | RDeleteKey key_id => behind (fun p => delete_key p key_id)
  | RCurrentKey => behind current
  | RCredits => behind credits
  | RBalance => behind (fun _ => balance now auth)
  | RTransactions limit include_availability => behind (fun _ => transactions now auth limit include_availability)
  | RWalletSend req => behind (fun _ => wallet_send sql_text now auth req)
  | RUsername username => behind (fun _ => set_username_handler now auth username)
  | RReferralCode new_code => behind (fun _ => referral_code sql_text now new_code auth)
  | RMintShare ids req => behind (fun p => mint sql_text now (sc_issuers sc) ids p req)
  | RListShare => behind list_share
  | RFundShare contribution_id req => behind (fun p => fund now contribution_id p req)
  | RRevokeShare key_id => behind (fun p => revoke now p key_id)
  | RAdminMint dev amount note => behind (fun p => Admin.mint sql_text now p dev amount note)
  | RMigrate nf nc => behind (Admin.migrate_share_keys sql_text now nf nc)
  | RPendingWithdrawals => behind Admin.pending_withdrawals
  | RComplete request_id sig => behind (fun p => Admin.complete_withdrawal sql_text cfg now meanwhile p request_id sig)
  | RReject request_id reason => behind (fun p => Admin.reject_withdrawal sql_text now p request_id reason)
  | RRefundExpired => behind (Admin.refund_expired now)
  | RReset => behind (Admin.reset sql_text)
  | RExchange claim_id token req =>
      void (exchange sql_text now (sc_base64_decode sc) (sc_invalid_pubkey sc) claim_id token req)
  | RLoginRequest id code link email => void (login_request sql_text sha (sc_mailer sc) now meanwhile id code link email)
  | RLoginVerify token sid email code dev name => void (login_verify sql_text sha now token sid email code dev name)
  | RLoginLink token sid link => void (login_link sql_text sha now token sid link)
  | RFundingPreview funding_id => void (funding_preview now funding_id)
  | RSolvency spot => void (solvency cfg spot)
  end.
End Serve.
