(* ===== verification/ServerFacts.v ===== *)
(** * The money server is a front of the ledger

    [plan] says, for a request and the store it arrives at, which operations of
    the ledger it may run, on whose behalf; the refinement theorem is that the
    server runs a prefix of the plan and touches the store in no other way.
    Who may spend, what is issued and what is backed by the chain follow from
    the plan. *)

From S2P Require Import Prelude Db RustStr Merkle Wallet ShareKeys Settlement Accounts Providers ApiKeys.
From S2P Require Import Onchain Referrals Sessions LedgerSystem.
From S2P Require Import Auth PinWire Solana Http AccountHandlers AdminHandlers Solvency Server.

Open Scope string_scope.
Open Scope list_scope.
Open Scope Z_scope.

(** ** Computations that only read *)

Class Pure {S A} (m : Http S A) : Prop := pure : forall o, (m o).2 = o.
#[export] Instance pure_ret {S A} (a : A) : Pure (mret (M := Http S) a). Proof. done. Qed.
#[export] Instance pure_fails {S A} e : Pure (@fails S A e). Proof. done. Qed.
#[export] Instance pure_panics {S A} : Pure (@panics S A). Proof. done. Qed.
#[export] Instance pure_lift {S A} r : Pure (@lift S A r). Proof. done. Qed.
#[export] Instance pure_ensures {S} b e : Pure (@ensures S b e). Proof. by destruct b. Qed.
#[export] Instance pure_pool {S} : Pure (@require_pool S). Proof. by intros []. Qed.
#[export] Instance pure_reads {S A} f : Pure (@reads S A f). Proof. by intros []. Qed.
#[export] Instance pure_or_panic {S A} o : Pure (@or_panic S A o). Proof. by destruct o. Qed.
#[export] Instance pure_bind {S A B} (m : Http S A) (k : A -> Http S B) :
  Pure m -> (forall a, Pure (k a)) -> Pure (m ≫= k).
Proof.
  intros Hm Hk o. pose proof (Hm o) as E. unfold mbind, http_bind. destruct (m o) as [[a|] o']; simpl in E; subst; [apply Hk|done].
Qed.
#[export] Instance pure_void {S A} (m : Http S A) : Pure m -> Pure (void m).
Proof. intros. unfold void. apply _. Qed.
#[export] Instance pure_device now auth : Pure (device_from_header now auth).
Proof. unfold device_from_header. apply _. Qed.
#[export] Instance pure_caller p : Pure (resolve_caller p).
Proof. unfold resolve_caller. apply pure_bind; [apply _|]. intros []. destruct p; apply _. Qed.
#[export] Instance pure_manage c : Pure (require_manage c).
Proof. unfold require_manage. apply _. Qed.

(** ** Plans *)

Inductive Step : Type := SOp (op : LedgerOp) | SReset | SMeanwhile.
Definition run_step (mid : Db -> Db) (s : Step) (db : Db) : Db :=
  match s with
  | SOp op => apply_op op db
  | SReset => commit (reset_genesis db) db
  | SMeanwhile => mid db
  end.
Definition run (mid : Db -> Db) (l : list Step) (db : Db) : Db := foldl (fun db s => run_step mid s db) db l.

Section Plans.
Context `{WireCrates} `{Crates} (sc : ServerConfig).

Definition token_of (hd : Headers) : string := token_from_headers (hd_authorization hd) (hd_x_api_key hd).

(** Who the bearer is, and the traces the check leaves. *)
Definition principal_of (now : Z) (hd : Headers) (db : Db) : result Z AuthPrincipal :=
  (require_bearer (sc_hash_token sc) (sc_sha256_hex sc) now (sc_tokens sc) (hd_authorization hd) (hd_x_api_key hd) (Some db)).1.
Definition bearer_plan (now : Z) (hd : Headers) (db : Db) : list Step :=
  let token := token_of hd in
  if is_empty token then []
  else match lookup_static token (sc_tokens sc) with
  | Some _ => []
  | None =>
      match resolve_token now token db with
      | Some _ => []
      | None =>
          match resolve_api_key (sc_hash_token sc) token db with
          | Some r => if rak_disabled r then [] else [SOp (OpTouchApiKey now (rak_key_id r))]
          | None => if starts_with "tsess_" token then [SOp (OpResolveSession (sc_sha256_hex sc) now token)] else []
          end
      end
  end.

Definition metadata_of (q : LinkAccountReq) : AccountLinkMetadata :=
  mkAccountLinkMetadata (la_device_name q) (la_platform q) (la_display_name q) (la_phone q) (la_email q) (la_github_username q).
Definition manager (p : AuthPrincipal) (db : Db) : option string :=
  match p with
  | PDevice d => account_user_id_for_device d db
  | PApiKey _ a Provisioning _ _ | PAccountSession a _ => Some a
  | _ => None
  end.
Definition is_static (p : AuthPrincipal) : bool := match p with PStatic _ => true | _ => false end.
Definition when_static (p : AuthPrincipal) (l : list Step) : list Step := if is_static p then l else [].
Definition when_device (p : AuthPrincipal) (f : string -> list Step) : list Step :=
  match p with PDevice d => f d | _ => [] end.
Definition when_token (now : Z) (hd : Headers) (db : Db) (f : string -> list Step) : list Step :=
  match resolve_token now (bearer_of (hd_authorization hd)) db with Some d => f d | None => [] end.
Definition when_header (now : Z) (hd : Headers) (db : Db) (f : string -> list Step) : list Step :=
  if is_empty (bearer_of (hd_authorization hd)) then [] else when_token now hd db f.

(** A login: the code or link is used up, then the account and the session. *)
Definition login_plan (now : Z) (token sid : string) (dev name : option string) (email : string) (db : Db) : list Step :=
  SOp (OpAccountLogin now email) ::
  match account_user_id_for_login now email db with
  | Ok (a, _) => [SOp (OpCreateSession (sc_sha256_hex sc) token sid now a dev name)]
  | Err _ => []
  end.

(** The operations behind the bearer check, for principal [p] at store [db]. *)
Definition plan (node : SolanaNode) (now : Z) (p : AuthPrincipal) (hd : Headers) (req : Request) (db : Db) : list Step :=
  let cfg := sc_solana sc in
  let sha := sc_sha256_hex sc in
  match req with
  | RLinkAccount claim_id q =>
      when_device p (fun d =>
        match normalize_account_user_id (la_account_user_id q) with
        | Some a =>
            SOp (OpLinkDevice now d a (metadata_of q)) ::
            (if bool_decide (account_wallet_exists a db = Some false)
             then [SOp (OpAccountJoin claim_id now d a (la_referral_code q))] else [])
        | None => []
        end)
  | REmailCodeRequest id code email =>
      match normalize_account_email email with
      | Some e => [SOp (OpEmailCode sha id now e code); SMeanwhile]
      | None => []
      end
  | REmailCodeVerify email code => [SOp (OpVerifyEmailCode sha now email code)]
  | RLogout => [SOp (OpRevokeSession sha now (bearer_of (hd_authorization hd)))]
  | RDepositIntent did q =>
      when_header now hd db (fun d =>
        match normalized_optional_string (di_tx_signature q) with
        | None => [SOp (OpOnchainDeposit did now d q)]
        | Some sig =>
            match resolve_account_onchain_address_for_device d (di_solana_address q) db with
            | Ok address =>
                match verify_usdc_deposit cfg address sig (di_amount_usdc_cents q) (di_source_address q) with
                | Ok v => [SMeanwhile; SOp (OpOnchainDeposit did now d (mkDepositIntent (Some address)
                             (Some (vd_tx_signature v)) (vd_source_address v) (Some (vd_amount_usdc_cents v))))]
                | Err _ => []
                end
            | Err _ => []
            end
        end)
  | RDepositTreasury did sig =>
      when_header now hd db (fun d =>
        match account_user_id_for_device d db with
        | Some a =>
            match verify_treasury_deposit cfg sig (treasury_deposit_memo a) with
            | Ok v => [SMeanwhile; SOp (OpTreasuryDeposit did now d (vt_tx_signature v) (vt_amount_usdc_cents v)
                                          (vt_source_address v) (so_treasury_address cfg))]
            | Err _ => []
            end
        | None => []
        end)
  | RWithdraw wid q =>
      when_header now hd db (fun d =>
        match normalized_optional_string (wr_tx_signature q) with
        | None => [SOp (OpSubmitWithdrawal wid now d q)]
        | Some sig =>
            match resolve_account_onchain_address_for_device d None db with
            | Ok source =>
                match verify_usdc_withdrawal cfg source (wr_destination_address q) (wr_amount_usdc_cents q) sig with
                | Ok v => [SMeanwhile; SOp (OpSubmitWithdrawal wid now d (mkWithdrawalRequest (wr_request_id q)
                             (vw_destination_address v) (vw_gross_amount_usdc_cents v) (Some (vw_tx_signature v))))]
                | Err _ => []
                end
            | Err _ => []
            end
        end)
  | RSweep target => when_device p (fun d => [SOp (OpSweep now d (trim target))])
  | RRemoveDevice target => when_device p (fun d => [SOp (OpRemoveDevice d (trim target))])
  | RSend q =>
      match p with
      | PApiKey _ a _ _ _ | PAccountSession a _ =>
          [SOp (OpTransferAccountFor now a (sq_recipient q) (sq_amount q) (sq_memo q) None)]
      | PDevice d => [SOp (OpTransferAccount now d (sq_recipient q) (sq_amount q) (sq_memo q))]
      | _ => []
      end
  | RCreateKey key_id secret q =>
      match manager p db with
      | Some a => [SOp (OpCreateApiKey (sc_hash_token sc) key_id secret now a
                          (mkCreateApiKeyParams (ckr_name q) (ckr_role q) (ckr_credit_limit q)))]
      | None => []
      end
  | RUpdateKey key_id q =>
      match manager p db with
      | Some a => [SOp (OpUpdateApiKey a key_id (mkUpdateApiKeyParams (ukr_name q) (ukr_credit_limit q) (ukr_disabled q)))]
      | None => []
      end
  | RDeleteKey key_id => match manager p db with Some a => [SOp (OpDeleteApiKey a key_id)] | None => [] end
  | RWalletSend q => when_header now hd db (fun d => [SOp (OpTransferDevice now d (sq_recipient q) (sq_amount q) (sq_memo q))])
  | RUsername name => when_token now hd db (fun d => [SOp (OpSetUsername d (trim name))])
  | RReferralCode code => when_token now hd db (fun d => [SOp (OpReferralCode code now d)])
  | RMintShare ids q => when_device p (fun d =>
      if is_allowed d (sc_issuers sc)
      then [SOp (OpMintShareKey ids now d (mr_label q) (mr_expires_in_seconds q) (mr_budget_credits q))] else [])
  | RFundShare cid q => when_device p (fun d => [SOp (OpFundShareKey cid now d (fq_funding_id q) (fq_amount_credits q))])
  | RRevokeShare key_id => when_device p (fun d => [SOp (OpRevokeShareKey now d key_id)])
  | RAdminMint dev amount note => when_static p [SOp (OpAdminMint now dev amount (default "admin top-up" note))]
  | RMigrate nf nc => when_static p [SOp (OpMigrateShareKeys nf nc now)]
  | RComplete rid sig =>
      when_static p
        match withdrawal_by_request rid db with
        | Some (_, w) =>
            if bool_decide (wd_status w = "pending") then
              match verify_treasury_payout cfg sig (wd_destination_address w) (wd_amount_usdc_cents w) with
              | Ok v => [SMeanwhile; SOp (OpCompleteWithdrawal now rid (vp_tx_signature v))]
              | Err _ => []
              end
            else []
        | None => []
        end
  | RReject rid reason => when_static p [SOp (OpRejectWithdrawal now rid reason)]
  | RRefundExpired => when_static p [SOp (OpExpireShareKeys now)]
  | RReset => when_static p [SReset]
  | _ => []
  end.

(** The public routes. *)
Definition public_plan (now : Z) (req : Request) (db : Db) : list Step :=
  let sha := sc_sha256_hex sc in
  match req with
  | RExchange claim_id token q =>
      [SOp (OpConsumeChallenge now (xr_device_id q) (xr_nonce q));
       SOp (OpDeviceJoin claim_id now (xr_device_id q) (xr_referral_code q));
       SOp (OpIssueToken now (xr_device_id q) token)]
  | RLoginRequest id code link email =>
      match normalize_account_email email with
      | Some e => [SOp (OpEmailLoginCode sha id now e code link); SMeanwhile]
      | None => []
      end
  | RLoginVerify token sid email code dev name =>
      SOp (OpVerifyEmailCode sha now email code) ::
      match verify_account_email_code sha now email code db with
      | (Ok v, db') => login_plan now token sid dev name (cv_email v) db'
      | (Err _, _) => []
      end
  | RLoginLink token sid link =>
      SOp (OpVerifyEmailLink sha now link) ::
      match verify_account_email_link_token sha now link db with
      | Ok (v, db') => login_plan now token sid None None (cv_email v) db'
      | Err _ => []
      end
  | _ => []
  end.
Definition is_public (req : Request) : bool :=
  match req with
  | RExchange _ _ _ | RLoginRequest _ _ _ _ | RLoginVerify _ _ _ _ _ _ | RLoginLink _ _ _ | RFundingPreview _ | RSolvency _ => true
  | _ => false
  end.
End Plans.

(** ** What a step that answered had read *)

Lemma lift_inv {S A} r (a : A) (o o' : option S) : lift r o = (Ok a, o') -> r = Ok a.
Proof. unfold lift. destruct r; by intros [= ->]. Qed.
Lemma ensures_inv {S} b e u (o o' : option S) : ensures b e o = (Ok u, o') -> b = true.
Proof. unfold ensures. by destruct b. Qed.
Lemma reads_inv {S A} f (a : A) (s : S) o' : reads f (Some s) = (Ok a, o') -> f s = Ok a.
Proof. unfold reads. destruct (f s); by intros [= ->]. Qed.
Lemma or_panic_inv {S A} x (a : A) (o o' : option S) : or_panic x o = (Ok a, o') -> x = Some a.
Proof. unfold or_panic. destruct x; by intros [= ->]. Qed.
Lemma ret_inv {S A} (x a : A) (o o' : option S) : mret (M := Http S) x o = (Ok a, o') -> x = a.
Proof. by intros [= ->]. Qed.
Lemma bind_inv {S A B} (m : Http S A) (k : A -> Http S B) o b o' :
  (m ≫= k) o = (Ok b, o') -> exists a o1, m o = (Ok a, o1) /\ k a o1 = (Ok b, o').
Proof. unfold mbind, http_bind. destruct (m o) as [[a|] o1]; [eauto|done]. Qed.
Lemma device_inv now auth db d o' : device_from_header now auth (Some db) = (Ok d, o') ->
  is_empty (bearer_of auth) = false /\ resolve_token now (bearer_of auth) db = Some d.
Proof.
  unfold device_from_header. intros (u & o1 & E1 & E2)%bind_inv. pose proof E1 as E0. apply ensures_inv, negb_true_iff in E0. split; [done|].
  assert (o1 = Some db) as -> by (pose proof (pure_ensures (S := Db) (negb (is_empty (bearer_of auth))) (Unauthorized "missing bearer") (Some db)) as Hp; by rewrite E1 in Hp).
  apply reads_inv in E2. destruct (resolve_token _ _ _); [by injection E2 as ->|done].
Qed.
Lemma caller_inv p db c o' : resolve_caller p (Some db) = (Ok c, o') -> cl_can_manage c = true ->
  manager p db = Some (cl_account_user_id c).
Proof.
  unfold resolve_caller. intros (u & o1 & E1 & E2)%bind_inv Hc. injection E1 as _ <-.
  destruct p as [s|d|i k b|k a r l u0|a s]; try (by unfold fails in E2).
  - apply reads_inv in E2. simpl. destruct (account_user_id_for_device d db); [|done]. by injection E2 as <-.
  - apply ret_inv in E2 as <-. destruct r; [done|]. done.
  - by apply ret_inv in E2 as <-.
Qed.

Lemma manage_inv c u o o' : require_manage c o = (Ok u, o') -> cl_can_manage c = true.
Proof. apply ensures_inv. Qed.

Ltac inv_pure :=
  repeat match goal with
  | E : lift _ _ = (Ok _, _) |- _ => apply lift_inv in E
  | E : ensures _ _ _ = (Ok _, _) |- _ => apply ensures_inv in E
  | E : require_manage _ _ = (Ok _, _) |- _ => apply manage_inv in E
  | E : reads _ (Some _) = (Ok _, _) |- _ => apply reads_inv in E
  | E : or_panic _ _ = (Ok _, _) |- _ => apply or_panic_inv in E
  | E : mret _ _ = (Ok _, _) |- _ => apply ret_inv in E
  | E : device_from_header _ _ (Some _) = (Ok _, _) |- _ => apply device_inv in E as [? E]
  | E : require_pool _ = (Ok _, _) |- _ => clear E
  | E : map_err _ ?r = Ok _ |- _ => apply map_err_Ok in E
  | E : ok_or _ ?r = Ok _ |- _ => let F := fresh "F" in destruct r eqn:F; [|discriminate E]; injection E as ->
  end.

Section Refinement.
Context {A : Type}.

(** A prefix of [l] was run, and all of it if the request was answered. *)
Definition reaches (mid : Db -> Db) (l : list Step) (db : Db) (out : result Stop A * option Db) : Prop :=
  exists k, out.2 = Some (run mid (take k l) db) /\ (is_ok out.1 = true -> take k l = l).

Lemma reaches_stop mid l db e : reaches mid l db (Err e, Some db).
Proof. by exists 0%nat. Qed.
Lemma reaches_nil mid db r : reaches mid [] db (r, Some db).
Proof. by exists 0%nat. Qed.
Lemma reaches_pure mid db (h : Http Db A) : Pure h -> reaches mid [] db (h (Some db)).
Proof. intros Hh. exists 0%nat. by rewrite (Hh (Some db)). Qed.
Lemma reaches_next mid s l db out : reaches mid l (run_step mid s db) out -> reaches mid (s :: l) db out.
Proof. intros (k & Ek & Hk). exists (S k). split; [done|]. intros Ho. cbn [take]. by rewrite (Hk Ho). Qed.
End Refinement.

(** A step that only reads stops the request or goes on with its answer. *)
Lemma reaches_through {A B} (m : Http Db A) (k : A -> Http Db B) mid l db :
  Pure m -> (forall a, m (Some db) = (Ok a, Some db) -> reaches mid l db (k a (Some db))) ->
  reaches mid l db ((m ≫= k) (Some db)).
Proof.
  intros Hm Hk. unfold mbind, http_bind. pose proof (Hm (Some db)) as E.
  destruct (m (Some db)) as [[a|] o] eqn:Em; simpl in E; subst o; [by apply Hk|apply reaches_stop].
Qed.
(** After the last change the answer is only read. *)
Lemma reaches_tail {A B} (m : Http Db A) (k : A -> Http Db B) mid l db o :
  (forall a, Pure (k a)) -> reaches mid l db (m o) -> reaches mid l db ((m ≫= k) o).
Proof.
  intros Hk (n & En & Hn). exists n. unfold mbind, http_bind. destruct (m o) as [[a|] o1]; simpl in *; [|done].
  rewrite (Hk a o1). auto.
Qed.
Lemma reaches_void {A} (m : Http Db A) mid l db o : reaches mid l db (m o) -> reaches mid l db (void m o).
Proof. apply reaches_tail. apply _. Qed.
(** An operation in the middle: the rest runs only if it answered. *)
Lemma reaches_runs_bind {A B} (f : Db -> result GatewayError A * Db) (k : A -> Http Db B) mid op l db :
  (f db).2 = apply_op op db ->
  (forall a, (f db).1 = Ok a -> reaches mid l (apply_op op db) (k a (Some (apply_op op db)))) ->
  reaches mid (SOp op :: l) db ((runs f ≫= k) (Some db)).
Proof.
  intros E Hk. unfold mbind, http_bind, runs. destruct (f db) as [[a|] db1]; simpl in E; subst db1; apply reaches_next.
  - by apply Hk.
  - apply reaches_stop.
Qed.
Lemma reaches_commits_bind {E A B} err (f : Db -> result E (A * Db)) (k : A -> Http Db B) mid op l db :
  apply_op op db = commit (f db) db ->
  (forall a db', f db = Ok (a, db') -> reaches mid l db' (k a (Some db'))) ->
  reaches mid (SOp op :: l) db ((commits err f ≫= k) (Some db)).
Proof.
  intros Eo Hk. unfold commits. apply reaches_runs_bind; destruct (f db) as [[a db']|]; try done.
  intros a' [= <-]. rewrite Eo. by apply Hk.
Qed.
Lemma reaches_runs {A} (f : Db -> result GatewayError A * Db) mid op db :
  (f db).2 = apply_op op db -> reaches mid [SOp op] db (runs f (Some db)).
Proof. intros E. unfold runs. destruct (f db) as [r db1]; simpl in E; subst db1. by exists 1%nat. Qed.
Lemma reaches_commit {E A} err (f : Db -> result E (A * Db)) mid op db :
  apply_op op db = commit (f db) db -> reaches mid [SOp op] db (commits err f (Some db)).
Proof. intros Hop. apply reaches_runs. rewrite Hop. by destruct (f db) as [[? ?]|]. Qed.

Ltac read := apply reaches_through; [apply _|let a := fresh "a" in let E := fresh "E" in intros a E; cbv beta in E |- *; inv_pure].
Ltac reading := repeat read.

(** ** The server follows the plan *)

Lemma bind_assoc {S A B C} (m : Http S A) (k : A -> Http S B) (k' : B -> Http S C) o :
  ((m ≫= k) ≫= k') o = (m ≫= (fun a => k a ≫= k')) o.
Proof. unfold mbind, http_bind. by destruct (m o) as [[a|] o1]. Qed.
Lemma ret_bind {S A B} (a : A) (k : A -> Http S B) o : (mret (M := Http S) a ≫= k) o = k a o.
Proof. done. Qed.

Section Follow.
Context `{WireCrates} `{Crates} (sc : ServerConfig).

Lemma reaches_awaits {A} mid (k : unit -> Http Db A) l db :
  reaches mid l (mid db) (k tt (Some (mid db))) -> reaches mid (SMeanwhile :: l) db ((awaits mid ≫= k) (Some db)).
Proof. intros Hr. by apply reaches_next. Qed.
Lemma reaches_commits_then {E A} err (f : Db -> result E (result E A * Db)) mid op db :
  apply_op op db = commit (f db) db -> reaches mid [SOp op] db (commits_then err f (Some db)).
Proof. intros. unfold commits_then. apply reaches_tail; [apply _|]. by apply reaches_commit. Qed.

Ltac commit_now := first
  [ apply reaches_commit; reflexivity
  | apply reaches_commits_then; reflexivity
  | apply reaches_tail; [intros; apply _|apply reaches_commit; reflexivity] ].
(** A device behind the guard. *)
Ltac on_device :=
  read; match goal with E : _ ?p = Ok ?d |- _ => assert (p = PDevice d) as -> by (destruct p; by inversion E); clear E end;
  cbn [plan when_device].
Ltac on_header := read; cbn [plan]; unfold when_header, when_token;
  match goal with E0 : is_empty _ = false, E : resolve_token _ _ _ = Some _ |- _ => rewrite E0, E end.
Ltac on_static :=
  match goal with p : AuthPrincipal |- _ => destruct p; try apply reaches_stop end;
  rewrite ret_bind; cbn [plan when_static is_static].

Lemma follow_link mid node now p hd claim q db :
  reaches mid (plan sc node now p hd (RLinkAccount claim q) db) db
    (link_account (sc_sql_text sc) now claim p q (Some db)).
Proof.
  unfold link_account. on_device.
  reading. rename a2 into acc. rewrite E0. rewrite E2 in E1. injection E1 as Ea.
  unfold writes_or_panics at 1. unfold mbind at 1, http_bind at 1. fold (metadata_of q).
  destruct (link_device_to_account now a acc (metadata_of q) db) as [db1|] eqn:El; [|apply reaches_stop].
  apply reaches_next. cbn [run_step apply_op]. rewrite El. cbn [default from_option].
  apply reaches_tail; [apply _|]. rewrite Ea.
  destruct a4; cbn [negb]; [apply reaches_nil|]. rewrite bool_decide_true by done. commit_now.
Qed.

Lemma follow_deposit_intent mid node now p hd did q db :
  reaches mid (plan sc node now p hd (RDepositIntent did q) db) db
    (deposit_intent (sc_sql_text sc) (sc_solana sc) now mid did (hd_authorization hd) q (Some db)).
Proof.
  unfold deposit_intent. on_header. read.
  destruct (normalized_optional_string (di_tx_signature q)) as [sig|]; [|rewrite ret_bind; commit_now].
  rewrite bind_assoc. read. rewrite E0. rewrite bind_assoc. read. rewrite E1.
  rewrite bind_assoc. apply reaches_awaits. rewrite ret_bind. commit_now.
Qed.
Lemma follow_deposit_treasury mid node now p hd did sig db :
  reaches mid (plan sc node now p hd (RDepositTreasury did sig) db) db
    (deposit_treasury (sc_sql_text sc) (sc_solana sc) now mid did (hd_authorization hd) sig (Some db)).
Proof.
  unfold deposit_treasury. on_header. reading. rewrite E0. apply reaches_awaits. commit_now.
Qed.
Lemma follow_withdraw mid node now p hd wid q db :
  reaches mid (plan sc node now p hd (RWithdraw wid q) db) db
    (withdraw (sc_sql_text sc) (sc_solana sc) now mid wid (hd_authorization hd) q (Some db)).
Proof.
  unfold withdraw. on_header. read.
  destruct (normalized_optional_string (wr_tx_signature q)) as [sig|]; [|rewrite ret_bind; commit_now].
  rewrite bind_assoc. read. rewrite E0. rewrite bind_assoc. read. rewrite E1.
  rewrite bind_assoc. apply reaches_awaits. rewrite ret_bind. commit_now.
Qed.
Lemma follow_send mid node now p hd q db :
  reaches mid (plan sc node now p hd (RSend q) db) db (send (sc_sql_text sc) now p q (Some db)).
Proof. unfold send. reading. destruct p; try apply reaches_stop; commit_now. Qed.

Lemma follow_sweep mid node now p hd target db :
  reaches mid (plan sc node now p hd (RSweep target) db) db (sweep_device now p target (Some db)).
Proof. unfold sweep_device. on_device. reading. apply reaches_tail; [intros [? ?]; apply _|by apply reaches_commit]. Qed.
Lemma follow_remove mid node now p hd target db :
  reaches mid (plan sc node now p hd (RRemoveDevice target) db) db (remove_device p target (Some db)).
Proof. unfold remove_device. on_device. reading. commit_now. Qed.
Lemma follow_create mid node now p hd kid secret q db :
  reaches mid (plan sc node now p hd (RCreateKey kid secret q) db) db
    (create now (sc_hash_token sc) kid secret p q (Some db)).
Proof. unfold create. reading. cbn [plan]. rewrite (caller_inv _ _ _ _ E E0). commit_now. Qed.
Lemma follow_update mid node now p hd kid q db :
  reaches mid (plan sc node now p hd (RUpdateKey kid q) db) db (update p kid q (Some db)).
Proof. unfold update. reading. cbn [plan]. rewrite (caller_inv _ _ _ _ E E0). commit_now. Qed.
Lemma follow_delete mid node now p hd kid db :
  reaches mid (plan sc node now p hd (RDeleteKey kid) db) db (delete_key p kid (Some db)).
Proof.
  unfold delete_key. reading. cbn [plan]. rewrite (caller_inv _ _ _ _ E E0). apply reaches_commit.
  cbn [apply_op]. by destruct (delete_api_key _ _ _).
Qed.
Lemma follow_wallet_send mid node now p hd q db :
  reaches mid (plan sc node now p hd (RWalletSend q) db) db (wallet_send (sc_sql_text sc) now (hd_authorization hd) q (Some db)).
Proof. unfold wallet_send. on_header. reading. commit_now. Qed.
Lemma follow_username mid node now p hd name db :
  reaches mid (plan sc node now p hd (RUsername name) db) db (set_username_handler now (hd_authorization hd) name (Some db)).
Proof.
  unfold set_username_handler. cbn [plan]. unfold when_token. reading.
  apply reaches_tail; [apply _|]. by apply reaches_runs.
Qed.
Lemma follow_referral mid node now p hd code db :
  reaches mid (plan sc node now p hd (RReferralCode code) db) db
    (referral_code (sc_sql_text sc) now code (hd_authorization hd) (Some db)).
Proof. unfold referral_code. cbn [plan]. unfold when_token. reading. commit_now. Qed.
Lemma follow_mint mid node now p hd ids q db :
  reaches mid (plan sc node now p hd (RMintShare ids q) db) db
    (mint (sc_sql_text sc) now (sc_issuers sc) ids p q (Some db)).
Proof. unfold mint. on_device. reading. rewrite E0. commit_now. Qed.
Lemma follow_fund mid node now p hd cid q db :
  reaches mid (plan sc node now p hd (RFundShare cid q) db) db (fund now cid p q (Some db)).
Proof. unfold fund. on_device. reading. commit_now. Qed.
Lemma follow_revoke mid node now p hd kid db :
  reaches mid (plan sc node now p hd (RRevokeShare kid) db) db (revoke now p kid (Some db)).
Proof.
  unfold revoke. on_device. reading. apply reaches_tail; [apply _|]. apply reaches_runs.
  cbn [apply_op]. by destruct (revoke_share_key _ _ _ _).
Qed.

Lemma follow_admin_mint mid node now p hd dev amount note db :
  reaches mid (plan sc node now p hd (RAdminMint dev amount note) db) db
    (Admin.mint (sc_sql_text sc) now p dev amount note (Some db)).
Proof. unfold Admin.mint, Admin.require_static. on_static. reading. commit_now. Qed.
Lemma follow_migrate mid node now p hd nf nc db :
  reaches mid (plan sc node now p hd (RMigrate nf nc) db) db
    (Admin.migrate_share_keys (sc_sql_text sc) now nf nc p (Some db)).
Proof. unfold Admin.migrate_share_keys, Admin.require_static. on_static. reading. commit_now. Qed.
Lemma follow_complete mid node now p hd rid sig db :
  reaches mid (plan sc node now p hd (RComplete rid sig) db) db
    (Admin.complete_withdrawal (sc_sql_text sc) (sc_solana sc) now mid p rid sig (Some db)).
Proof.
  unfold Admin.complete_withdrawal, Admin.require_static. on_static. read. read.
  unfold get_withdrawal_by_request in F. destruct (withdrawal_by_request rid db) as [[i w]|]; [|done].
  cbn [mbind option_bind snd] in F. destruct (bool_decide (wd_status w = "pending")); [|done]. injection F as ->.
  read. rewrite E. apply reaches_awaits. commit_now.
Qed.
Lemma follow_reject mid node now p hd rid reason db :
  reaches mid (plan sc node now p hd (RReject rid reason) db) db
    (Admin.reject_withdrawal (sc_sql_text sc) now p rid reason (Some db)).
Proof. unfold Admin.reject_withdrawal, Admin.require_static. on_static. reading. commit_now. Qed.
Lemma follow_expire mid node now p hd db :
  reaches mid (plan sc node now p hd RRefundExpired db) db (Admin.refund_expired now p (Some db)).
Proof.
  unfold Admin.refund_expired, Admin.require_static. on_static. reading. apply reaches_runs.
  cbn [apply_op]. by destruct (refund_expired_share_keys _ _).
Qed.
Lemma follow_reset mid node now p hd db :
  reaches mid (plan sc node now p hd RReset db) db (Admin.reset (sc_sql_text sc) p (Some db)).
Proof.
  unfold Admin.reset, Admin.require_static. on_static. reading. unfold commits, runs.
  exists 1%nat. cbn. by destruct (reset_genesis db) as [[? ?]|].
Qed.
Lemma follow_logout mid node now p hd db :
  reaches mid (plan sc node now p hd RLogout db) db (logout (sc_sha256_hex sc) now p (hd_authorization hd) (Some db)).
Proof. unfold logout. cbn [plan]. reading. by apply reaches_runs. Qed.
Lemma follow_code_request mid node now p hd id code email db :
  reaches mid (plan sc node now p hd (REmailCodeRequest id code email) db) db
    (email_code_request (sc_sql_text sc) (sc_sha256_hex sc) (sc_mailer sc) now mid id code email (Some db)).
Proof.
  unfold email_code_request. cbn [plan]. reading. apply reaches_commits_bind; [reflexivity|]. intros r db' _.
  read. apply reaches_awaits, reaches_nil.
Qed.
Lemma follow_code_verify mid node now p hd email code db :
  reaches mid (plan sc node now p hd (REmailCodeVerify email code) db) db
    (email_code_verify (sc_sql_text sc) (sc_sha256_hex sc) now email code (Some db)).
Proof.
  unfold email_code_verify. reading. apply reaches_runs. cbn [apply_op].
  by destruct (verify_account_email_code _ _ _ _ _).
Qed.

(** The check before the protected routes. *)
Definition checked (mid : Db -> Db) (now : Z) (hd : Headers) (db : Db) : Db := run mid (bearer_plan sc now hd db) db.
Lemma bearer_out mid now hd db :
  require_bearer (sc_hash_token sc) (sc_sha256_hex sc) now (sc_tokens sc) (hd_authorization hd) (hd_x_api_key hd) (Some db) =
  (principal_of sc now hd db, Some (checked mid now hd db)).
Proof.
  unfold principal_of, checked, bearer_plan, require_bearer. fold (token_of hd). set (t := token_of hd).
  destruct (is_empty t); [done|]. destruct (lookup_static t (sc_tokens sc)); [done|]. unfold db_principal.
  destruct (resolve_token now t db); [done|]. destruct (resolve_api_key _ t db) as [r|]; [by destruct (rak_disabled r)|].
  destruct (starts_with "tsess_" t); [|done]. cbn [run foldl run_step apply_op].
  by destruct (resolve_account_session _ now t db) as [[s|] db1].
Qed.
Lemma protected_out {A} mid now hd (h : AuthPrincipal -> Http Db A) db :
  protected sc now hd h (Some db) =
  match principal_of sc now hd db with
  | Ok p => h p (Some (checked mid now hd db))
  | Err st => (Err (Rejected st), Some (checked mid now hd db))
  end.
Proof. unfold protected. rewrite (bearer_out mid). by destruct (principal_of sc now hd db). Qed.

Lemma serve_protected mid node now hd req db p : is_public req = false -> principal_of sc now hd db = Ok p ->
  reaches mid (plan sc node now p hd req (checked mid now hd db)) (checked mid now hd db)
    (serve sc node now mid hd req (Some db)).
Proof.
  intros Hp E. destruct req; try discriminate Hp; unfold serve; rewrite (protected_out mid), E; apply reaches_void;
    auto using follow_link, follow_deposit_intent, follow_deposit_treasury, follow_withdraw, follow_send, follow_sweep,
      follow_remove, follow_create, follow_update, follow_delete, follow_wallet_send, follow_username, follow_referral,
      follow_mint, follow_fund, follow_revoke, follow_admin_mint, follow_migrate, follow_complete, follow_reject,
      follow_expire, follow_reset, follow_logout, follow_code_request, follow_code_verify.
  all: apply reaches_pure.
  - unfold summary. apply pure_bind; [apply _|]. intros _. destruct p; apply _.
  - unfold session. apply _.
  - unfold onchain. apply _.
  - unfold withdrawals. apply _.
  - unfold list_keys. apply _.
  - unfold get_key. apply _.
  - unfold current. apply pure_bind; [apply _|]. intros c. destruct (cl_self_key_id c); apply _.
  - unfold credits. apply _.
  - unfold balance. apply _.
  - unfold transactions. apply _.
  - unfold list_share. apply _.
  - unfold Admin.pending_withdrawals, Admin.require_static. destruct p; apply _.
Qed.

Lemma follow_exchange mid now claim token q db :
  reaches mid (public_plan sc now (RExchange claim token q) db) db
    (exchange (sc_sql_text sc) now (sc_base64_decode sc) (sc_invalid_pubkey sc) claim token q (Some db)).
Proof.
  unfold exchange. cbn [public_plan]. reading. apply reaches_runs_bind.
  { cbn [apply_op]. by destruct (consume_challenge _ _ _ _). }
  intros ok _. read. apply reaches_commits_bind; [reflexivity|]. intros rewards db' _. commit_now.
Qed.
Lemma follow_login_request mid now id code link email db :
  reaches mid (public_plan sc now (RLoginRequest id code link email) db) db
    (login_request (sc_sql_text sc) (sc_sha256_hex sc) (sc_mailer sc) now mid id code link email (Some db)).
Proof.
  unfold login_request. cbn [public_plan]. reading. apply reaches_commits_bind; [reflexivity|]. intros r db' _.
  read. apply reaches_awaits, reaches_nil.
Qed.
Lemma follow_session mid now token sid dev name email db :
  reaches mid (login_plan sc now token sid dev name email db) db
    (login_session (sc_sha256_hex sc) now token sid dev name email (Some db)).
Proof.
  unfold login_session, login_plan. apply reaches_commits_bind; [reflexivity|]. intros a db' E. rewrite E. commit_now.
Qed.
Lemma follow_login_verify mid now token sid email code dev name db :
  reaches mid (public_plan sc now (RLoginVerify token sid email code dev name) db) db
    (login_verify (sc_sql_text sc) (sc_sha256_hex sc) now token sid email code dev name (Some db)).
Proof.
  unfold login_verify. cbn [public_plan]. read. apply reaches_runs_bind; cbn [apply_op].
  { by destruct (verify_account_email_code _ _ _ _ _). }
  destruct (verify_account_email_code _ _ _ _ _) as [r db'] eqn:Ev. simpl. unfold bad_request. intros v E%map_err_Ok. subst r.
  apply reaches_tail; [apply _|apply follow_session].
Qed.
Lemma follow_login_link mid now token sid link db :
  reaches mid (public_plan sc now (RLoginLink token sid link) db) db
    (login_link (sc_sql_text sc) (sc_sha256_hex sc) now token sid link (Some db)).
Proof.
  unfold login_link. cbn [public_plan]. read. apply reaches_commits_bind; [reflexivity|]. intros v db' E. rewrite E.
  apply reaches_tail; [apply _|apply follow_session].
Qed.
Lemma serve_public mid node now hd req db : is_public req = true ->
  reaches mid (public_plan sc now req db) db (serve sc node now mid hd req (Some db)).
Proof.
  intros Hp. destruct req; try discriminate Hp; unfold serve; apply reaches_void;
    auto using follow_exchange, follow_login_request, follow_login_verify, follow_login_link; apply reaches_pure.
  - unfold funding_preview. apply _.
  - unfold solvency. apply _.
Qed.
Lemma serve_rejected mid node now hd req db st : is_public req = false -> principal_of sc now hd db = Err st ->
  serve sc node now mid hd req (Some db) = (Err (Rejected st), Some (checked mid now hd db)).
Proof. intros Hp E. destruct req; try discriminate Hp; unfold serve; by rewrite (protected_out mid), E. Qed.

(** The whole plan of a request. *)
Definition whole_plan (node : SolanaNode) (now : Z) (mid : Db -> Db) (hd : Headers) (req : Request) (db : Db) : list Step :=
  if is_public req then public_plan sc now req db
  else bearer_plan sc now hd db ++
       match principal_of sc now hd db with
       | Ok p => plan sc node now p hd req (checked mid now hd db)
       | Err _ => []
       end.

Lemma run_app mid l l' db : run mid (l ++ l') db = run mid l' (run mid l db).
Proof. unfold run. by rewrite foldl_app. Qed.

Lemma serve_reaches node now mid hd req db :
  reaches mid (whole_plan node now mid hd req db) db (serve sc node now mid hd req (Some db)).
Proof.
  unfold whole_plan. destruct (is_public req) eqn:Hp; [by apply serve_public|].
  destruct (principal_of sc now hd db) as [p|st] eqn:E.
  - destruct (serve_protected mid node now hd req db p Hp E) as (k & Ek & Hk).
    exists (length (bearer_plan sc now hd db) + k)%nat. rewrite take_app_add, run_app. split; [done|].
    intros Ho. by rewrite (Hk Ho).
  - exists (length (bearer_plan sc now hd db)). erewrite serve_rejected by done. by rewrite app_nil_r, take_ge.
Qed.
Lemma reaches_plan node now mid hd req db :
  exists k, (serve sc node now mid hd req (Some db)).2 = Some (run mid (take k (whole_plan node now mid hd req db)) db).
Proof. destruct (serve_reaches node now mid hd req db) as (k & Ek & _). eauto. Qed.

(** C4: The money routes of the gateway are a front of the ledger: whatever a
    request is, whoever sends it and whatever other requests do while the
    gateway waits for the chain or the mail service, the store changes by a
    prefix of the request's plan, a list of ledger operations on behalf of the
    authenticated caller, and by the whole plan if the request is answered
    without an error.  No handler writes around the ledger. *)
Theorem server_refines_plan node now mid hd req db :
  exists k, let '(answer, after) := serve sc node now mid hd req (Some db) in
    let steps := whole_plan node now mid hd req db in
    after = Some (run mid (take k steps) db) /\ (answer = Ok tt -> after = Some (run mid steps db)).
Proof.
  destruct (serve_reaches node now mid hd req db) as (k & Ek & Hk). exists k. destruct (serve _ _ _ _ _ _ _) as [a o].
  simpl in *. split; [done|]. intros ->. by rewrite Ek, Hk.
Qed.
End Follow.
