(* ===== verification/ServerFixtures.v ===== *)
(** * A small concrete server

    A gateway with one static token and three devices: [alice] and [mallory]
    hold tokens and credits, [bob] has an account with credits.  The theorems
    about the server are instantiated here, and the runs that show what the
    handlers do not check. *)

From S2P Require Import Prelude Db RustStr Merkle Wallet ShareKeys Settlement Accounts Providers ApiKeys.
From S2P Require Import Fixtures ProRata ShareKeysFacts SettlementFacts AccountsFacts.
From S2P Require Import Onchain OnchainFacts Availability Referrals Sessions LedgerSystem.
From S2P Require Import Auth PinWire PinWireFacts ChatPrepare Solana SolanaFacts Http AccountHandlers AdminHandlers Solvency Server.

Open Scope string_scope.
Open Scope list_scope.
Open Scope Z_scope.

(** A node that answers nothing, and one JSON text per request otherwise. *)
Definition silent_node : SolanaNode := {| rpc_post := fun _ => Err "connection refused"; Solana.json_text := fun _ => Err "eof" |}.
Definition shop : ServerConfig :=
  mkServerConfig (fun _ => "sql") (fun t => t) (fun t => t) (fun _ => None) "invalid pubkey" {["opsecret" := "ops"]}
    (mkSolanaConfig "usdc" "finalized" 0 "treasury" 0 "authority") ∅
    (mkMailer "" "" true None (fun _ _ _ => Err "unused")).
Definition with_bearer (token : string) : Headers := mkHeaders (Some ("Bearer " +:+ token)) None.

Definition opening : list LedgerOp :=
  [OpUpsertDevice 1 "alice"; OpUpsertDevice 1 "mallory"; OpUpsertDevice 1 "bob";
   OpIssueToken 2 "alice" "atok"; OpIssueToken 2 "mallory" "mtok";
   OpAdminMint 3 "alice" 1000 "seed"; OpAdminMint 3 "bob" 5000 "seed";
   OpLinkDevice 4 "bob" "email:bob@example.org" no_metadata; OpSweep 5 "bob" "bob";
   OpCreateApiKey id "key" "secret" 6 "email:bob@example.org" (mkCreateApiKeyParams None None (Some 100))].
Definition till : Db := foldl (fun db op => apply_op op db) genesis opening.

Lemma ops_inv ops db : Forall (fun op => op_ok op /\ settles op = false) ops -> ledger_inv db ->
  ledger_inv (foldl (fun db op => apply_op op db) db ops).
Proof.
  intros Hops. revert db. induction Hops as [|op ops [Hok Hs] _ IH]; intros db Hi; [done|]. cbn [foldl].
  apply IH, (op_safe_always op Hok Hs _ Hi).
Qed.
Lemma till_inv : ledger_inv till.
Proof. apply ops_inv; [repeat constructor|apply genesis_inv]. Qed.

(** ** What the handlers do not check *)

(** [link_account] takes the account to link to from the request: a device
    that names another account's identifier is linked to it, and can then send
    the account's credits to itself. *)
Definition after (now : Z) (token : string) (req : Request) (db : Db) : Db :=
  default db (serve shop silent_node now (fun db => db) (with_bearer token) req (Some db)).2.
Definition linked_to_bob : Db := after 10 "mtok"
  (RLinkAccount "claim" (mkLinkAccountReq "email:bob@example.org" None None None None None None None)) till.
Definition robbed : Db := after 11 "mtok" (RSend (mkSendReq "credits" "device:mallory" 5000 None)) linked_to_bob.
Lemma link_needs_no_proof :
  holding (HAccount "email:bob@example.org") till = 5000 /\
  account_user_id_for_device "mallory" linked_to_bob = Some "email:bob@example.org" /\
  holding (HAccount "email:bob@example.org") robbed = 0 /\ holding (HDevice "mallory") robbed = 5000.
Proof. vm_compute. repeat split. Qed.

(** An API key with a credit limit of 100 sends the whole account away. *)
Definition spent : Db := after 11 (random_token "secret" Live) (RSend (mkSendReq "credits" "device:mallory" 5000 None)) till.
Lemma send_ignores_the_key_limit :
  (ak_credit_limit <$> api_keys till !! "key") = Some (Some 100) /\
  holding (HAccount "email:bob@example.org") spent = 0 /\ holding (HDevice "mallory") spent = 5000.
Proof. vm_compute. repeat split. Qed.

(** A node that knows one settled transfer: 25 USDC from one stranger to
    another.  The answers are kept as JSON under the name of the method. *)
Definition balance_entry (owner amount : string) : Json :=
  JObject [("mint", JString "usdc"); ("owner", JString owner);
           ("uiTokenAmount", JObject [("amount", JString amount); ("decimals", JNumber 6)])].
Definition transfer_answer : Json :=
  JObject [("result", JObject [("meta", JObject [("err", JNull);
    ("preTokenBalances", JArray [balance_entry "payer" "90000000"; balance_entry "merchant" "0"]);
    ("postTokenBalances", JArray [balance_entry "payer" "65000000"; balance_entry "merchant" "25000000"])])])].
Definition status_answer : Json :=
  JObject [("result", JObject [("value", JArray [JObject [("err", JNull); ("confirmationStatus", JString "finalized")]])])].
Definition method_of (body : Json) : string := default "" (get "method" body ≫= as_string).
Definition busy_node : SolanaNode := {|
  rpc_post := fun body => Ok (mkHttpAnswer true "200 OK" (method_of body));
  Solana.json_text := fun text => if String.eqb text "getTransaction" then Ok transfer_answer else Ok status_answer |}.

(** [deposit_intent] asks only that the address is the one the account has, or
    names when it has none: [mallory], whose account has no address yet, claims
    a transfer between two strangers by naming the receiver's address and the
    signature, and is credited with it. *)
Definition own_account : Db := after 10 "mtok"
  (RLinkAccount "claim" (mkLinkAccountReq "email:m@example.org" None None None None None None None)) till.
Definition claim_transfer : Request :=
  RDepositIntent "dep" (mkDepositIntent (Some "merchant") (Some "strangers") None (Some 2500)).
Definition claimed : Db :=
  default own_account (serve shop busy_node 11 (fun db => db) (with_bearer "mtok") claim_transfer (Some own_account)).2.
Lemma any_transfer_is_credited :
  holding (HAccount "email:m@example.org") claimed =
  holding (HAccount "email:m@example.org") own_account + 2500 * CREDITS_PER_USDC_CENT.
Proof. vm_compute. reflexivity. Qed.

(** A transfer to the treasury with the memo of [bob]'s account.  The account
    is read before the gateway asks the node and read again when the deposit is
    recorded: a device that is linked elsewhere in between has the deposit
    credited to the other account. *)
Definition memo_data : string := base58_encode ((fun c => Z.of_nat (Ascii.nat_of_ascii c)) <$> bytes (treasury_deposit_memo "email:bob@example.org")).
Definition treasury_answer : Json :=
  JObject [("result", JObject [("meta", JObject [("err", JNull);
      ("preTokenBalances", JArray [balance_entry "bobs wallet" "90000000"; balance_entry "treasury" "0"]);
      ("postTokenBalances", JArray [balance_entry "bobs wallet" "65000000"; balance_entry "treasury" "25000000"])]);
    ("transaction", JObject [("message", JObject [("accountKeys", JArray [JString "bobs wallet"]);
      ("instructions", JArray [JObject [("programId", JString MEMO_PROGRAM_ID); ("data", JString memo_data)]])])])])].
Definition treasury_node : SolanaNode := {|
  rpc_post := fun body => Ok (mkHttpAnswer true "200 OK" (method_of body));
  Solana.json_text := fun text => if String.eqb text "getTransaction" then Ok treasury_answer else Ok status_answer |}.
Definition with_bobs_token : Db := apply_op (OpIssueToken 6 "bob" "btok") till.
Definition moved_away : Db -> Db := apply_op (OpLinkDevice 11 "bob" "email:other@example.org" no_metadata).
Definition deposited_in (mid : Db -> Db) : Db :=
  default with_bobs_token (serve shop treasury_node 12 mid (with_bearer "btok") (RDepositTreasury "dep" "sig") (Some with_bobs_token)).2.
Lemma treasury_deposit_races :
  holding (HAccount "email:bob@example.org") (deposited_in (fun db => db)) = 5000 + 2500 * CREDITS_PER_USDC_CENT /\
  holding (HAccount "email:bob@example.org") (deposited_in moved_away) = 5000 /\
  holding (HAccount "email:other@example.org") (deposited_in moved_away) = 2500 * CREDITS_PER_USDC_CENT.
Proof. vm_compute. repeat split. Qed.

(** The balance query of the solvency report reads an error answer of the node
    as an empty treasury. *)
Definition failing_node : SolanaNode := {|
  rpc_post := fun _ => Ok (mkHttpAnswer false "429 Too Many Requests" "");
  Solana.json_text := fun _ => Ok (JObject [("error", JObject [("code", JNumber 429); ("message", JString "rate limited")])]) |}.
Lemma failed_balance_is_zero : @treasury_usdc_balance_micro failing_node (sc_solana shop) = Ok 0.
Proof. reflexivity. Qed.
