(* ===== verification/ServerMoney.v ===== *)
(** * Who can spend, and what can be issued

    The consequences of the plans of [ServerFacts] for the wallets: an operation
    lowers only the wallet of the one it is run for, and credits are issued
    only by an operator or to a newcomer. *)

From S2P Require Import Prelude Db RustStr Merkle Wallet ShareKeys Settlement Accounts Providers ApiKeys.
From S2P Require Import Fixtures ProRata ShareKeysFacts SettlementFacts AccountsFacts.
From S2P Require Import Onchain OnchainFacts Availability Referrals Sessions LedgerSystem.
From S2P Require Import Auth PinWire Solana Http AccountHandlers AdminHandlers Solvency Server ServerFacts.
From S2P Require Import PinWireFacts ServerFixtures.

Open Scope string_scope.
Open Scope list_scope.
Open Scope Z_scope.

(** ** What an operation takes, and from whom *)

Definition linked (d a : string) (db : Db) : Prop := account_user_id_for_device d db = Some a.
Definition debited (op : LedgerOp) (db : Db) (h : Holder) : Prop :=
  match op with
  | OpTransferDevice _ d _ _ _ | OpMintShareKey _ _ d _ _ _ | OpFundShareKey _ _ d _ _ => h = HDevice d
  | OpTransferAccount _ d _ _ _ | OpSubmitWithdrawal _ _ d _ => exists a, linked d a db /\ h = HAccount a
  | OpTransferAccountFor _ a _ _ _ _ => h = HAccount a
  | OpSweep _ d t => exists a, linked d a db /\ linked t a db /\ h = HDevice t
  | OpMigrateShareKeys _ _ _ | OpSettle _ _ _ _ _ _ _ | OpSettleProvider _ _ _ _ _ _ | OpDrip _ _ => True
  | _ => False
  end.

(** Wallets do not fall. *)
Definition raises (db db' : Db) : Prop := forall h, holding h db <= holding h db'.
#[export] Instance raises_preorder : PreOrder raises.
Proof. split; [intros db h; lia|]. intros a b c H1 H2 h. specialize (H1 h). specialize (H2 h). lia. Qed.
Lemma raises_same_money db db' : same_money db db' -> raises db db'.
Proof. intros Hm h. rewrite (holding_same_money _ _ _ Hm). lia. Qed.
Lemma raises_equal db db' : (forall h, holding h db' = holding h db) -> raises db db'.
Proof. intros E h. rewrite E. lia. Qed.
Lemma raises_moved x h0 db db' : 0 <= x ->
  (forall h, holding h db' = holding h db + (if decide (h = h0) then x else 0)) -> raises db db'.
Proof. intros Hx E h. rewrite E. case_decide; lia. Qed.
Lemma raises_commit {E A} (r : result E (A * Db)) db : (forall a db', r = Ok (a, db') -> raises db db') -> raises db (commit r db).
Proof. intros H. destruct r as [[a db']|]; simpl; [by eapply H|done]. Qed.
Lemma raises_commit_unit {E} (r : result E Db) db : (forall db', r = Ok db' -> raises db db') -> raises db (commit_unit r db).
Proof. intros H. destruct r as [db'|]; simpl; [by eapply H|done]. Qed.

Lemma refund_raises key t reason db : solvent db -> raises db (refund_share_key_contributions_tx key t reason db).2.
Proof.
  intros Hs. pose proof (refund_share_key_effect key t reason db Hs) as (Hb & _ & _ & _ & Ha & _). intros [d|a]; cbn [holding].
  - rewrite Hb. match goal with |- ?x <= ?x + ?y => enough (0 <= y) by lia end.
    apply zsum_nonneg, Forall_fmap, Forall_forall. intros [i r] Hc. apply unrefunded_spec in Hc as [Hr _]. cbn.
    unfold remaining_of. pose proof (solvent_pools _ Hs i r Hr). case_decide; simpl in *; lia.
  - unfold account_balance_of. rewrite Ha. lia.
Qed.
Lemma close_raises now ks rep db : solvent db -> raises db (foldl (fun acc k => close_expired_key now k acc) (rep, db) ks).2.
Proof.
  revert rep db. induction ks as [|k ks IH]; intros rep db Hs; [done|]. cbn [foldl].
  destruct (close_expired_key now k (rep, db)) as [rep1 db1] eqn:E.
  pose proof (refund_raises k now "expired" db Hs) as Hr. pose proof (refund_share_key_effect k now "expired" db Hs) as (_ & _ & Hsol & _).
  unfold close_expired_key in E. destruct (refund_share_key_contributions_tx k now "expired" db) as [[rows cr] db2].
  injection E as <- <-. etransitivity; [exact Hr|]. etransitivity; [|apply IH; auto with ledger]. by apply raises_same_money.
Qed.
Lemma revoke_raises now issuer key db : solvent db -> raises db (revoke_share_key now issuer key db).2.
Proof.
  intros Hs. unfold revoke_share_key. destruct (share_keys db !! key) as [r|]; [|done]. destruct (_ && _); [|done]. cbn [snd].
  set (db0 := update_share_key (sk_set_revoked now) key db).
  assert (solvent db0) as Hs0 by (unfold db0; auto with ledger). destruct (_ && _); [|by apply raises_same_money].
  transitivity (refund_share_key_contributions_tx key now "revoked" db0).2; [|by apply raises_same_money].
  etransitivity; [|by apply refund_raises]. by apply raises_same_money.
Qed.
Lemma join_raises h referrer w db db' : 0 <= welcome_bonus_credits w -> join_effect h referrer w db db' -> raises db db'.
Proof.
  intros Hw (_ & _ & Hh & Hr) h'. rewrite Hh. pose proof bonus_nonneg.
  assert (0 <= referral_bonus_credits w) by (destruct Hr as [[-> _]|[-> _]]; [done|done]). repeat case_decide; lia.
Qed.
Lemma device_join_raises cid now d code db : raises db (commit (apply_device_join_rewards cid now d code db) db).
Proof.
  apply raises_commit. intros w db' (He & Hw & _)%device_join_Ok. eapply join_raises; [|done]. rewrite Hw. by destruct (has_welcome_bonus _ _).
Qed.
Lemma account_join_raises cid now d a code db : raises db (commit (apply_account_join_rewards cid now d a code db) db).
Proof.
  apply raises_commit. intros w db' (He & Hw & _)%account_join_Ok. eapply join_raises; [|done]. rewrite Hw. by destruct (account_has_welcome_bonus _ _).
Qed.
Lemma mint_raises now d x note db : raises db (commit (admin_mint now d x note db) db).
Proof.
  apply raises_commit. intros bal db' H. unfold admin_mint in H. destruct (Z.leb_spec x 0) as [|Hx]; [done|]. cbn [negb] in H. cbv zeta in H.
  steps_in H. apply (raises_moved x (HDevice d)); [lia|]. intros h.
  rewrite (holding_update_balance _ x); [|done|apply ensure_balance_row]. f_equal.
  rewrite <- (holding_ensure_balance d h db). by apply holding_same_money.
Qed.
Lemma login_raises now email db : raises db (commit (account_user_id_for_login now email db) db).
Proof.
  apply raises_commit. intros a db' H. unfold account_user_id_for_login in H. steps_in H; [done|].
  intros [d|b]; cbn [holding]; [done|]. unfold account_balance_of. cbn [account_wallets set_account_wallets].
  unfold insert_or_ignore. match goal with |- context [match account_wallets db !! ?a with _ => _ end] => destruct (account_wallets db !! a) eqn:Hrow; [done|];
    destruct (decide (a = b)) as [<-|]; [rewrite lookup_insert_eq, Hrow; done|by rewrite lookup_insert_ne] end.
Qed.
Lemma deposit_raises a c db db' : deposit_effect a c db db' -> 0 <= deposited db' - deposited db -> raises db db'.
Proof. intros (_ & _ & _ & Hh & _) Hd. by apply (raises_moved (deposited db' - deposited db) (HAccount a)). Qed.

Lemma moved_loss x from to h : 0 <= x -> moved x from to h < 0 -> h = from.
Proof. unfold moved. intros Hx H. repeat case_decide; try done; lia. Qed.
(** A rise contradicts a loss. *)
Lemma raises_loss db db' h P : raises db db' -> holding h db' < holding h db -> P.
Proof. intros H Hl. specialize (H h). lia. Qed.

Lemma submit_losses wid now d req db h :
  holding h (commit (submit_account_withdrawal wid now d req db) db) < holding h db ->
  exists a, linked d a db /\ h = HAccount a.
Proof.
  destruct (submit_account_withdrawal wid now d req db) as [[rec db']|] eqn:H; cbn [commit]; [|lia].
  unfold submit_account_withdrawal in H.
  destruct (normalized_optional_string (Some (wr_request_id req))) as [rid|]; [|done]. cbn [ok_or] in H.
  destruct (normalized_optional_string (Some (wr_destination_address req))) as [dest|]; [|done].
  cbn [ok_or] in H. destruct (negb (_ <=? 0)); [|done].
  destruct (account_user_id_for_device d db) as [a|] eqn:Ha; [|done]. cbn [ok_or] in H. intros Hl. exists a. split; [done|].
  destruct (decide (h = HAccount a)) as [|Hne]; [done|]. exfalso. revert Hl. apply Z.nlt_ge.
  enough (holding h db' = holding h db) as -> by lia.
  destruct (load_account_wallet_state_locked a db) as [st|] eqn:Est; [|done]. cbn [map_err] in H. apply load_state_Ok in Est.
  destruct (_ && _); [|done]. destruct (credits_from_usdc_cents _) as [credits|]; [|done]. cbn [map_err] in H.
  match type of H with (if ?b then _ else _) = _ => destruct b; [|done] end.
  destruct (withdrawal_request_row _ _ _ _ _ _ _ _ _) as [row|] eqn:Erow; [|done].
  destruct row as [record|reserved db0]; [by injection H as _ <-|].
  assert (same_money db db0) as Hm0.
  { unfold withdrawal_request_row, onchain_sql in Erow. steps_in Erow; try done.
    match goal with E : insert_withdrawal _ _ _ = Ok _ |- _ => apply insert_withdrawal_Ok in E as (_ & _ & _ & ->) end. done. }
  rewrite <- (holding_same_money _ _ h Hm0).
  assert (is_Some (account_wallets db0 !! a)) as Hrow by (rewrite (same_accounts _ _ Hm0); eauto).
  assert (forall x u dep wd, holding h (update_account (aw_post x u dep wd now) a db0) = holding h db0) as Hup.
  { intros. rewrite (holding_update_account _ x) by done. rewrite decide_False by done. lia. }
  destruct (normalized_optional_string (wr_tx_signature req)) as [sg|].
  - unfold settle_withdrawal in H. destruct (credits_from_usdc_cents _) as [red|]; [|done]. cbn [map_err] in H.
    match type of H with context [match ?c with Ok _ => _ | Err _ => _ end] => destruct c as [db1|] eqn:E1; [|done] end.
    destruct (reread_withdrawal rid db1) as [[rec1 db2]|] eqn:E2; [|done]. injection H as _ <-. apply reread_Ok in E2 as [-> _].
    destruct reserved.
    + apply finish_withdrawal_Ok in E1 as (Hm & _). by rewrite (holding_same_money _ _ _ Hm).
    + destruct (_ <=? _); [|done]. apply finish_withdrawal_Ok in E1 as (Hm & _). by rewrite (holding_same_money _ _ _ Hm).
  - unfold hold_withdrawal, onchain_sql in H. destruct (_ <=? _); [|done].
    destruct (insert_account_ledger _ _ _ _ _ _ _ _ _) as [db1|] eqn:E; [|done]. injection H as _ <-.
    apply insert_account_ledger_Ok in E as (_ & Hm & _). by rewrite (holding_same_money _ _ _ Hm).
Qed.
Lemma complete_raises now req sig db : raises db (commit (complete_account_withdrawal_from_treasury now req sig db) db).
Proof.
  apply raises_commit. intros rec db' H. unfold complete_account_withdrawal_from_treasury in H.
  destruct (withdrawal_by_request req db) as [[i r]|]; [|done]. cbn [ok_or] in H.
  case_bool_decide; [destruct (some_eqb _ _); [by injection H as _ <-|done]|]. case_bool_decide; [|done]. cbv zeta in H.
  destruct (finish_withdrawal _ _ _ _ _ _ _ _ _ _) as [db1|] eqn:Ef; [|done]. apply reread_Ok in H as [-> _].
  apply finish_withdrawal_Ok in Ef as (Hm & _). intros h. rewrite (holding_same_money _ _ _ Hm).
  destruct h as [d|a]; [done|]. cbn [holding]. unfold account_balance_of. cbn [account_wallets update_account set_account_wallets].
  destruct (decide (wd_account_user_id r = a)) as [->|]; [|by rewrite lookup_alter_ne].
  rewrite lookup_alter_eq. destruct (account_wallets db !! a); simpl; lia.
Qed.
Lemma reject_raises now req reason db : withdrawals_wf db ->
  raises db (commit (reject_account_withdrawal now req reason db) db).
Proof.
  intros Hwf. apply raises_commit. intros rec db' H. apply reject_effect in H as (_ & i & r & Hr & _ & _ & _ & Hh); [|done].
  destruct (wf_rows _ Hwf i r Hr) as (Hx & _). apply (raises_moved (wd_amount_credits r) (HAccount (wd_account_user_id r))); [lia|done].
Qed.
Lemma treasury_raises did now d sig u src addr db :
  raises db (commit (record_account_treasury_deposit did now d sig u src addr db) db).
Proof.
  apply raises_commit. intros rec db' H. pose proof (treasury_deposit_Ok _ _ _ _ _ _ _ _ _ _ H) as (a & _ & Hu & He & Hd).
  apply (deposit_raises _ _ _ _ He). assert (0 < CREDITS_PER_USDC_CENT) by done.
  destruct (deposit_by_signature sig db) as [[i r]|]; [destruct Hd as [-> _]; lia|]. rewrite Hd. nia.
Qed.
Lemma onchain_raises did now d req db : raises db (commit (record_account_onchain_deposit did now d req db) db).
Proof.
  apply raises_commit. intros rec db' H. pose proof (onchain_deposit_Ok _ _ _ _ _ _ _ H) as (a & _ & He).
  apply (deposit_raises _ _ _ _ He). clear He. unfold record_account_onchain_deposit in H.
  destruct (account_user_id_for_device d db) as [a'|]; [|done]. cbn [ok_or] in H.
  destruct (load_account_wallet_state_locked a' db); [|done]. cbn [map_err] in H.
  destruct (resolve_account_onchain_address_from_state _ _) as [addr|]; [|done].
  destruct (normalized_optional_string (di_tx_signature req)) as [sig|]; [|injection H as _ <-; unfold deposited; simpl; lia].
  destruct (di_amount_usdc_cents req) as [u|]; [|done]. cbn [ok_or] in H. destruct (negb _); [|done].
  destruct (credits_from_usdc_cents u) as [c|]; [|done]. cbn [map_err] in H.
  destruct (deposit_by_signature _ _) as [[i r]|].
  - case_bool_decide; [|done]. injection H as _ <-. unfold deposited. simpl. lia.
  - destruct (credit_deposit _ _ _ _ _ _ _ _ _ _ _ _) as [db1|] eqn:E; [|done]. injection H as _ <-.
    apply credit_deposit_Ok in E as (Hc & _ & Hd & _). unfold deposited in *. simpl in *. lia.
Qed.

(** Whose wallet an operation lowered. *)
Lemma upsert_raises now d db : raises db (upsert_device now d db).2.
Proof.
  unfold upsert_device. destruct (Db.devices db !! d); [by apply raises_same_money|]. cbn [snd].
  intros h. rewrite holding_ensure_balance. revert h. by apply raises_same_money.
Qed.
Lemma bonus_raises now d x db : 0 <= x -> raises db (commit (record_bonus now d x db) db).
Proof.
  intros Hx. apply raises_commit. intros bal db' H. destruct (balances db !! d) as [r|] eqn:Hd.
  2:{ by rewrite (record_bonus_no_row _ _ _ _ Hd) in H. }
  unfold record_bonus in H. cbv zeta in H. steps_in H. apply (raises_moved x (HDevice d)); [done|]. intros h.
  by rewrite (holding_update_balance _ x); [|done|exists r].
Qed.
Lemma account_bonus_raises now a x dv note db : 0 <= x -> raises db (commit (record_account_bonus now a x dv note db) db).
Proof.
  intros Hx. apply raises_commit. intros bal db' H. unfold record_account_bonus in H.
  destruct (credit_account_wallet_tx _ _ _ _ _ _ _) as [db1|] eqn:E; [|done]. steps_in H.
  apply (raises_moved x (HAccount a)); [done|]. intros h. by apply (credit_account_holding _ _ _ _ _ _ _ _ h) in E.
Qed.
Lemma referral_code_raises code now d db : raises db (commit (referral_code_for_device code now d db) db).
Proof.
  apply raises_commit. intros sn db' [m ->]%referral_code_out.
  transitivity (ensure_balance d (ensure_device now d db)); [|by apply raises_same_money].
  intros h. rewrite holding_ensure_balance. revert h. by apply raises_same_money.
Qed.
Lemma raises_tables db db' : balances db' = balances db -> account_wallets db' = account_wallets db -> raises db db'.
Proof. intros H1 H2. apply raises_equal. intros [d|a]; cbn [holding]; unfold balance_of, account_balance_of; by rewrite ?H1, ?H2. Qed.
(** An operation on other tables: [f] unfolds to statements on them. *)
Ltac idle f :=
  let HH := fresh in
  first [apply raises_commit; intros ? ? HH | apply raises_commit_unit; intros ? HH];
  unfold f in HH; steps_in HH; by apply raises_tables.
Lemma payout_raises now pid x dest db : raises db (commit_unit (record_provider_payout now pid x dest db) db).
Proof.
  apply raises_commit_unit. intros db' H. unfold record_provider_payout in H. steps_in H;
  repeat match goal with
  | E : ensure_provider_wallet _ _ _ = Ok _ |- _ => unfold ensure_provider_wallet in E; steps_in E
  | E : insert_provider_ledger _ _ _ _ _ _ _ _ = Ok _ |- _ => unfold insert_provider_ledger in E; steps_in E
  end; by apply raises_tables.
Qed.
Lemma verify_code_raises sha now email code db : raises db (verify_account_email_code sha now email code db).2.
Proof. unfold verify_account_email_code. repeat case_match; by apply raises_tables. Qed.
Lemma resolve_session_raises sha now token db : raises db (resolve_account_session sha now token db).2.
Proof. unfold resolve_account_session. repeat case_match; by apply raises_tables. Qed.
Lemma consume_raises now d nonce db : raises db (consume_challenge now d nonce db).2.
Proof. unfold consume_challenge. cbn [snd]. case_match; by apply raises_tables. Qed.
Lemma link_raises now d a md db : raises db (default db (link_device_to_account now d a md db)).
Proof.
  destruct (link_device_to_account now d a md db) as [db'|] eqn:E; [|done]. cbn.
  apply link_device_money in E as (_ & _ & Hh & _). by apply raises_equal.
Qed.
(** Share-key statements leave the accounts alone. *)
Ltac accounts_same H :=
  steps_in H;
  repeat match goal with
  | E : insert_share_key _ _ _ = Ok _ |- _ => apply insert_share_key_Ok in E as (_ & _ & _ & ->)
  | E : insert_share_key_contribution_tx _ _ _ _ _ _ _ _ _ = Ok _ |- _ => apply insert_share_key_contribution_Ok in E as (_ & _ & _ & _ & ->)
  | E : update_share_key_checked _ _ _ = Ok _ |- _ => apply update_share_key_checked_Ok in E as (_ & ->)
  end; done.
Lemma mint_losses ids now d label ttl budget db h :
  holding h (commit (mint_share_key ids now d label ttl budget db) db) < holding h db -> h = HDevice d.
Proof.
  destruct (mint_share_key ids now d label ttl budget db) as [[m db']|] eqn:H; cbn [commit]; [|lia].
  destruct h as [d'|a]; cbn [holding].
  - apply mint_share_key_Ok in H as (_ & _ & _ & _ & Hb & _). rewrite Hb. case_decide; [by subst|lia].
  - assert (account_wallets db' = account_wallets db) as Ha by (unfold mint_share_key in H; accounts_same H).
    unfold account_balance_of. rewrite Ha. lia.
Qed.
Lemma fund_losses cid now d fid x db h :
  holding h (commit (transfer_to_share_key cid now d fid x db) db) < holding h db -> h = HDevice d.
Proof.
  destruct (transfer_to_share_key cid now d fid x db) as [[m db']|] eqn:H; cbn [commit]; [|lia].
  destruct h as [d'|a]; cbn [holding].
  - apply transfer_to_share_key_Ok in H as (? & ? & _ & _ & _ & _ & _ & _ & _ & _ & _ & Hb & _). rewrite Hb. case_decide; [by subst|lia].
  - assert (account_wallets db' = account_wallets db) as Ha by (unfold transfer_to_share_key in H; accounts_same H).
    unfold account_balance_of. rewrite Ha. lia.
Qed.
Lemma transfer_losses {E} (r : result E (TransferReceipt * Db)) from x raw db h :
  (forall rcpt db', r = Ok (rcpt, db') -> transferred from x raw db rcpt db') -> holding h (commit r db) < holding h db -> h = from.
Proof.
  intros H Hl. destruct r as [[rcpt db']|]; cbn [commit] in Hl; [|lia]. destruct (H _ _ eq_refl) as (t & _ & _ & _ & Hx & Hh & _).
  rewrite Hh in Hl. apply (moved_loss x _ (target_holder t)); lia.
Qed.
Lemma transfer_account_losses now d raw x memo db h :
  holding h (commit (transfer_from_account_wallet now d raw x memo db) db) < holding h db ->
  exists a, linked d a db /\ h = HAccount a.
Proof.
  unfold transfer_from_account_wallet, linked. destruct (account_user_id_for_device d db) as [a|]; [|cbn; lia]. cbn [ok_or]. intros Hl.
  exists a. split; [done|]. apply (transfer_losses _ (HAccount a) x raw db h) in Hl; [done|]. intros ? ?. apply transfer_from_account_Ok.
Qed.
Lemma sweep_losses now d t db h : solvent db ->
  holding h (commit (sweep_device_to_account now d t db) db) < holding h db ->
  exists a, linked d a db /\ linked t a db /\ h = HDevice t.
Proof.
  intros Hs. destruct (sweep_device_to_account now d t db) as [[[x sm] db']|] eqn:H; cbn [commit]; [|lia].
  apply sweep_Ok in H as (a & Hd & Ht & Hx & _ & Hh & _); [|done]. rewrite Hh. intros Hl. exists a. split_and!; [done|done|].
  apply (moved_loss x _ (HAccount a)); [|lia]. subst x. apply (balance_le_supply _ _ Hs).
Qed.
Lemma update_key_raises a key params db : raises db (commit (update_api_key a key params db) db).
Proof.
  apply raises_commit. intros k db' H. unfold update_api_key in H. cbv zeta in H. destruct (negb (negative_limit _)); [|done].
  destruct (match ukp_name params with Some (Some n) => _ | _ => _ end); [|done]. destruct (owned_key a key db); [|done]. cbn [ok_or] in H.
  destruct (get_api_key _ _ _); [|done]. injection H as _ <-.
  destruct (ukp_name params), (ukp_credit_limit params), (ukp_disabled params); by apply raises_tables.
Qed.
Lemma email_code_raises sha id now email code link db : raises db (commit (insert_email_code sha id now email code link db) db).
Proof.
  apply raises_commit. intros rq db' H. unfold insert_email_code in H. destruct (normalize_account_email email); [|done].
  cbn [ok_or] in H. cbv zeta in H. destruct (match code_for_email _ db with Some _ => _ | None => _ end); [|done].
  destruct (negb _); [|done]. injection H as _ <-. by apply raises_tables.
Qed.

Lemma create_key_raises sha key secret now a params db : raises db (commit (create_api_key sha key secret now a params db) db).
Proof.
  apply raises_commit. intros m db' H. unfold create_api_key in H. cbv zeta in H. destruct (negb (negative_limit _)); [|done].
  destruct (match normalized_optional_string _ with Some n => _ | None => _ end); [|done].
  destruct (insert_api_key _ _ _) as [db1|] eqn:E; [|done]. injection H as _ <-.
  apply insert_api_key_Ok in E as (_ & _ & -> & _). by apply raises_tables.
Qed.

Lemma op_losses op db h : ledger_inv db -> op_ok op -> holding h (apply_op op db) < holding h db -> debited op db h.
Proof.
  intros Hi Hok Hl. pose proof (inv_solvent _ Hi) as Hs. pose proof (inv_withdrawals _ Hi) as Hw.
  destruct op; cbn [apply_op debited op_ok] in *; try exact I;
    try (eapply raises_loss; [|exact Hl];
         solve [ apply upsert_raises | apply mint_raises | by apply bonus_raises | by apply account_bonus_raises
               | apply device_join_raises | apply account_join_raises | apply referral_code_raises | by apply revoke_raises
               | by apply close_raises | apply onchain_raises | apply treasury_raises | apply complete_raises
               | by apply reject_raises | apply login_raises | apply payout_raises | apply verify_code_raises
               | apply resolve_session_raises | apply consume_raises | apply link_raises | apply update_key_raises
               | apply email_code_raises
               | idle remove_device_from_account | idle issue_token | idle upsert_provider | apply create_key_raises
               | idle delete_api_key | idle verify_account_email_link_token | idle create_account_session
               | by apply raises_tables ]).
  - by apply mint_losses in Hl.
  - by apply fund_losses in Hl.
  - apply (transfer_losses _ (HDevice d) x raw db h) in Hl; [done|]. intros ? ?. apply transfer_from_device_Ok.
  - by apply transfer_account_losses in Hl.
  - by apply sweep_losses in Hl.
  - by apply submit_losses in Hl.
  - apply (transfer_losses _ (HAccount a) x raw db h) in Hl; [done|]. intros ? ?. apply transfer_from_account_Ok.
Qed.

(** ** Who is in control *)

Definition controls (p : AuthPrincipal) (db : Db) (h : Holder) : Prop :=
  match p with
  | PStatic _ => True
  | PDevice d => h = HDevice d \/ exists a, linked d a db /\ (h = HAccount a \/ exists d', linked d' a db /\ h = HDevice d')
  | PApiKey _ a _ _ _ | PAccountSession a _ => h = HAccount a
  | PShare _ _ _ => False
  end.
Definition id_db (db : Db) : Db := db.

Lemma losses_nil k db h P : holding h (run id_db (take k []) db) < holding h db -> P.
Proof. rewrite take_nil. cbn. lia. Qed.
Lemma losses_one k op db h : ledger_inv db -> op_ok op ->
  holding h (run id_db (take k [SOp op]) db) < holding h db -> debited op db h.
Proof. intros Hi Hok. destruct k as [|k]; cbn [take]; [cbn; lia|]. rewrite take_nil. cbn. by apply op_losses. Qed.
Lemma losses_await k op db h : ledger_inv db -> op_ok op ->
  holding h (run id_db (take k [SMeanwhile; SOp op]) db) < holding h db -> debited op db h.
Proof. intros Hi Hok. destruct k as [|k]; cbn [take]; [cbn; lia|]. by apply losses_one. Qed.
Lemma losses_raising l k db h P :
  Forall (fun s => match s with SOp op => forall db, raises db (apply_op op db) | SMeanwhile => True | SReset => False end) l ->
  holding h (run id_db (take k l) db) < holding h db -> P.
Proof.
  intros Hl. apply (raises_loss db). clear P. revert k db. induction Hl as [|s l Hs _ IH]; intros k db; [by rewrite take_nil|].
  destruct k as [|k]; [done|]. change (raises db (run id_db (take k l) (run_step id_db s db))).
  transitivity (run_step id_db s db); [|apply IH]. destruct s; [apply Hs|done|done].
Qed.

Section Server.
Context `{WireCrates} `{Crates} (sc : ServerConfig).

(** The check of the bearer leaves money, devices and tokens alone. *)
Lemma checked_frame now hd db : let db1 := checked sc id_db now hd db in
  (ledger_inv db -> ledger_inv db1) /\ balances db1 = balances db /\ account_wallets db1 = account_wallets db /\
  account_devices db1 = account_devices db /\ tokens db1 = tokens db /\ account_withdrawals db1 = account_withdrawals db.
Proof.
  unfold checked, bearer_plan. repeat case_match; try done; cbn [run foldl run_step].
  - split; [|done]. intros Hi. by apply (op_safe_always (OpTouchApiKey _ _)).
  - split; [intros Hi; by apply (op_safe_always (OpResolveSession _ _ _))|]. cbn [apply_op].
    unfold resolve_account_session. repeat case_match; done.
Qed.

Lemma header_principal now hd db p d : principal_of sc now hd db = Ok p -> is_empty (bearer_of (hd_authorization hd)) = false ->
  resolve_token now (bearer_of (hd_authorization hd)) db = Some d -> (exists s, p = PStatic s) \/ p = PDevice d.
Proof.
  unfold principal_of, require_bearer, token_from_headers. fold (bearer_of (hd_authorization hd)). intros Hp E Hr. rewrite E in Hp.
  cbn [negb] in Hp. rewrite E in Hp. destruct (lookup_static _ _) as [s|]; [injection Hp as <-; eauto|].
  unfold db_principal in Hp. rewrite Hr in Hp. injection Hp as <-. auto.
Qed.

Lemma controls_frame p db db1 h : account_devices db1 = account_devices db -> controls p db1 h -> controls p db h.
Proof. intros E. unfold controls, linked, account_user_id_for_device. by rewrite E. Qed.

Lemma when_header_cases now hd db0 db p f : principal_of sc now hd db0 = Ok p -> tokens db = tokens db0 ->
  when_header now hd db f = [] \/
  exists d, when_header now hd db f = f d /\ ((exists s, p = PStatic s) \/ p = PDevice d).
Proof.
  intros Hp Ht. unfold when_header, when_token. destruct (is_empty _) eqn:Ee; [by left|].
  destruct (resolve_token _ _ db) as [d|] eqn:Er; [|by left]. right. exists d. split; [done|].
  eapply header_principal; [done|done|]. revert Er. unfold resolve_token. by rewrite Ht.
Qed.

Ltac none Hl := exact (losses_nil _ _ _ _ Hl).
Ltac one Hl :=
  first [apply losses_one in Hl; [|assumption|exact I] | apply losses_await in Hl; [|assumption|exact I]]; cbn [debited] in Hl.
Ltac header Hl Hp Ht :=
  match type of Hl with context [when_header ?now ?hd ?db ?f] =>
    let E := fresh in let d := fresh "d" in let Hd := fresh "Hd" in
    destruct (when_header_cases now hd _ db _ f Hp Ht) as [E|(d & E & Hd)]; rewrite E in Hl; clear E; [none Hl|]; cbv beta in Hl;
    destruct Hd as [[? ->]| ->]; [exact I|] end.

Lemma plan_losses node now hd req db0 db p k h :
  ledger_inv db -> principal_of sc now hd db0 = Ok p -> tokens db = tokens db0 ->
  holding h (run id_db (take k (plan sc node now p hd req db)) db) < holding h db -> controls p db h.
Proof.
  intros Hi Hp Ht Hl. destruct req; cbn [plan] in Hl; try none Hl.
  - (* RLinkAccount *) unfold when_device in Hl. destruct p; try none Hl. destruct (normalize_account_user_id _); [|none Hl].
    refine (losses_raising _ _ _ _ _ _ Hl). constructor; [intros; apply link_raises|]. case_bool_decide; constructor; [|constructor].
    intros; apply account_join_raises.
  - destruct (normalize_account_email _); [|none Hl]. refine (losses_raising _ _ _ _ _ _ Hl).
    repeat constructor. intros; apply email_code_raises.
  - one Hl. done.
  - one Hl. done.
  - (* RDepositIntent *) header Hl Hp Ht. repeat case_match; try none Hl; by one Hl.
  - header Hl Hp Ht. repeat case_match; try none Hl; by one Hl.
  - header Hl Hp Ht.
    repeat case_match; try none Hl; one Hl; destruct Hl as (acc & Ha & ->); right; exists acc; auto.
  - (* RSweep *) unfold when_device in Hl. destruct p; try none Hl. one Hl. destruct Hl as (acc & Ha & Ha' & ->). right. exists acc. eauto.
  - (* RSend *) destruct p; try none Hl; try done; one Hl; [|done|done]. destruct Hl as (acc & Ha & ->). right. exists acc. auto.
  - unfold when_device in Hl. destruct p; try none Hl. by one Hl.
  - destruct (manager p db); [|none Hl]. by one Hl.
  - destruct (manager p db); [|none Hl]. by one Hl.
  - destruct (manager p db); [|none Hl]. by one Hl.
  - (* RWalletSend *) header Hl Hp Ht.
    one Hl. by left.
  - unfold when_token in Hl. destruct (resolve_token _ _ _); [|none Hl]. by one Hl.
  - unfold when_token in Hl. destruct (resolve_token _ _ _); [|none Hl]. by one Hl.
  - (* RMintShare *) unfold when_device in Hl. destruct p; try none Hl. destruct (is_allowed _ _); [|none Hl]. one Hl. by left.
  - unfold when_device in Hl. destruct p; try none Hl. one Hl. by left.
  - unfold when_device in Hl. destruct p; try none Hl. by one Hl.
  - destruct p; try none Hl; done.
  - destruct p; try none Hl; done.
  - destruct p; try none Hl; done.
  - destruct p; try none Hl; done.
  - destruct p; try none Hl; done.
  - destruct p; try none Hl; done.
Qed.

Lemma public_raises now req db0 db k : raises db (run id_db (take k (public_plan sc now req db0)) db).
Proof.
  intros h. apply Z.nlt_ge. intros Hl. revert Hl. apply losses_raising.
  assert (forall token sid dev name email db1, Forall (fun s => match s with SOp op => forall db, raises db (apply_op op db) | SMeanwhile => True | SReset => False end)
    (login_plan sc now token sid dev name email db1)) as Hlogin.
  { intros. unfold login_plan. constructor; [intros; apply login_raises|]. case_match; [case_match|]; repeat constructor.
    intros. cbn [apply_op]. idle create_account_session. }
  destruct req; cbn [public_plan]; try constructor.
  - intros. apply consume_raises.
  - repeat constructor; intros; cbn [apply_op]; [apply device_join_raises|idle issue_token].
  - case_match; repeat constructor. intros. apply email_code_raises.
  - intros. apply verify_code_raises.
  - case_match. case_match; [apply Hlogin|constructor].
  - intros. cbn [apply_op]. idle verify_account_email_link_token.
  - case_match; [case_match; apply Hlogin|constructor].
Qed.

(** C2: Only its holder can lower a wallet through the HTTP interface: when a
    request to any money route leaves a device or account wallet with less
    than before, the request came with a bearer that is an operator's static
    token, or the token of that device or of a device linked to the same
    account, or of a device linked to that account, or an API key or session
    of that account.  Share keys and requests without a bearer lower nobody's
    wallet. *)
Theorem only_holders_spend node now hd req db answer db' h :
  ledger_inv db -> serve sc node now id_db hd req (Some db) = (answer, Some db') -> holding h db' < holding h db ->
  exists p, principal_of sc now hd db = Ok p /\ controls p db h.
Proof.
  intros Hi Es Hl. destruct (checked_frame now hd db) as (Hi1 & Hb & Ha & Hd & Ht & _).
  assert (forall h, holding h (checked sc id_db now hd db) = holding h db) as Hh
    by (intros []; cbn [holding]; unfold balance_of, account_balance_of; by rewrite ?Hb, ?Ha).
  assert ((serve sc node now id_db hd req (Some db)).2 = Some db') as Eo by (by rewrite Es).
  destruct (is_public req) eqn:Hp.
  - destruct (serve_public sc id_db node now hd req db Hp) as (k & Ek & _). rewrite Ek in Eo. injection Eo as <-.
    exfalso. revert Hl. apply Z.nlt_ge, public_raises.
  - destruct (principal_of sc now hd db) as [p|st] eqn:E.
    + exists p. split; [done|]. destruct (serve_protected sc id_db node now hd req db p Hp E) as (k & Ek & _).
      rewrite Ek in Eo. injection Eo as <-. rewrite <- Hh in Hl.
      apply (plan_losses node now hd req db _ p k h (Hi1 Hi) E Ht) in Hl. by eapply controls_frame.
    + rewrite (serve_rejected sc id_db node now hd req db st Hp E) in Eo. injection Eo as <-. rewrite Hh in Hl. lia.
Qed.

(** ** What is issued *)

Definition step_cap (extra : Z) (s : Step) : Z :=
  match s with SOp op => issue_cap op | SMeanwhile => extra | SReset => 0 end.
Definition fine (s : Step) : Prop :=
  match s with SOp op => op_ok op /\ settles op = false /\ 0 <= issue_cap op | SMeanwhile => True | SReset => False end.
Definition issuance (now : Z) (hd : Headers) (req : Request) (db : Db) : Z :=
  match req with
  | RAdminMint _ x _ => match principal_of sc now hd db with Ok (PStatic _) => Z.max x 0 | _ => 0 end
  | RLinkAccount _ _ | RExchange _ _ _ => join_cap
  | _ => 0
  end.
Lemma run_keeps mid extra l db : LedgerSafeAlways extra mid -> 0 <= extra -> Forall fine l -> ledger_inv db ->
  keeps (zsum (step_cap extra <$> l)) db (run mid l db).
Proof.
  intros Hm Hx Hl. revert db. induction Hl as [|s l Hs _ IH]; intros db Hi; [by apply keeps_refl|].
  change (run mid (s :: l) db) with (run mid l (run_step mid s db)). rewrite fmap_cons, zsum_cons.
  assert (keeps (step_cap extra s) db (run_step mid s db)) as [Hi1 Hb1].
  { destruct s as [op| |]; [|done|by apply Hm]. destruct Hs as (Hok & Hse & _). by apply (op_safe_always op Hok Hse). }
  destruct (IH _ Hi1) as [Hi2 Hb2]. split; [done|lia].
Qed.
Lemma caps_take extra k l : 0 <= extra -> Forall fine l -> zsum (step_cap extra <$> take k l) <= zsum (step_cap extra <$> l).
Proof.
  intros Hx Hl. revert k. induction Hl as [|s l Hs _ IH]; intros k; [by rewrite take_nil|].
  assert (0 <= step_cap extra s) by (destruct s; simpl; [apply Hs|done|done]).
  destruct k as [|k]; cbn [take]; rewrite ?fmap_cons, ?zsum_cons; [|specialize (IH k); lia].
  pose proof (IH 0%nat : 0 <= _). change (0 <= step_cap extra s + zsum (step_cap extra <$> l)). lia.
Qed.
Lemma plan_fine node now hd req p db : req <> RReset -> Forall fine (plan sc node now p hd req db).
Proof.
  intros Hr. destruct req; try done; cbn [plan]; unfold when_header, when_token, when_device, when_static; repeat case_match;
    repeat (constructor; [repeat split; cbn; try lia; done|]); try constructor.
Qed.
Lemma public_fine now req db : Forall fine (public_plan sc now req db).
Proof.
  assert (0 <= join_cap) by done.
  destruct req; try done; cbn [public_plan]; unfold login_plan; repeat case_match;
    repeat (constructor; [repeat split; cbn; try lia; done|]); try constructor.
Qed.
Lemma bearer_fine now hd db : Forall fine (bearer_plan sc now hd db).
Proof. unfold bearer_plan. repeat case_match; repeat (constructor; [done|]); constructor. Qed.
Lemma bearer_caps extra now hd db : zsum (step_cap extra <$> bearer_plan sc now hd db) = 0.
Proof. unfold bearer_plan. repeat case_match; done. Qed.
Lemma whole_fine node now mid hd req db : req <> RReset -> Forall fine (whole_plan sc node now mid hd req db).
Proof.
  intros Hr. unfold whole_plan. destruct (is_public req); [apply public_fine|]. apply Forall_app. split; [apply bearer_fine|].
  destruct (principal_of sc now hd db); [by apply plan_fine|constructor].
Qed.
Lemma whole_caps extra node now mid hd req db : 0 <= extra ->
  zsum (step_cap extra <$> whole_plan sc node now mid hd req db) <= issuance now hd req db + extra.
Proof.
  intros Hx. assert (0 <= join_cap) by done. unfold whole_plan. destruct (is_public req) eqn:Hp.
  - destruct req; try discriminate Hp; cbn [public_plan issuance]; unfold login_plan; repeat case_match; cbn; lia.
  - rewrite fmap_app, zsum_app, bearer_caps. destruct (principal_of sc now hd db) as [p|st] eqn:E.
    2:{ destruct req; cbn [issuance]; rewrite ?E; cbn; lia. }
    destruct req; try discriminate Hp; cbn [plan issuance]; unfold when_header, when_token, when_device, when_static; rewrite ?E;
      repeat case_match; subst; try discriminate; cbn; lia.
Qed.

(** Authentication moves no money. *)
Lemma checked_books mid now hd db : ledger_inv db -> let db1 := checked sc mid now hd db in
  ledger_inv db1 /\ books db1 = books db /\ provider_wallets db1 = provider_wallets db.
Proof.
  intros Hi. cbv zeta.
  assert (keeps (zsum (step_cap 0 <$> bearer_plan sc now hd db)) db (run id_db (bearer_plan sc now hd db) db)) as [H1 H2].
  { apply run_keeps; [intros x Hx; by apply keeps_refl|lia|apply bearer_fine|done]. }
  rewrite bearer_caps in H2.
  replace (checked sc mid now hd db) with (run id_db (bearer_plan sc now hd db) db)
    by (unfold checked, bearer_plan; by repeat case_match).
  split_and!; [done|lia|].
  unfold bearer_plan. repeat case_match; try done; cbn [run foldl run_step apply_op].
  unfold resolve_account_session. repeat case_match; done.
Qed.

(** A reset runs only for an operator. *)
Lemma reset_request_runs node now mid hd db answer db' :
  ledger_inv db -> serve sc node now mid hd RReset (Some db) = (answer, Some db') ->
  ledger_inv db' /\
  (books db' = books db \/
   (exists name, principal_of sc now hd db = Ok (PStatic name)) /\ books db' = provider_credits db + paid_out db).
Proof.
  intros Hi Es. destruct (checked_books mid now hd db Hi) as (Hi1 & Hb1 & Hp1).
  assert ((serve sc node now mid hd RReset (Some db)).2 = Some db') as Eo by by rewrite Es.
  destruct (principal_of sc now hd db) as [p|st] eqn:E.
  2:{ rewrite (serve_rejected sc mid node now hd RReset db st eq_refl E) in Eo. injection Eo as <-. auto. }
  destruct (serve_protected sc mid node now hd RReset db p eq_refl E) as (k & Ek & _).
  rewrite Ek in Eo. injection Eo as <-. cbn [plan]. unfold when_static.
  destruct (is_static p) eqn:Hst; [|rewrite take_nil; cbn; auto].
  destruct k as [|k]; [cbn; auto|]. cbn [take]. rewrite take_nil. cbn [run foldl run_step].
  destruct (reset_genesis _) as [[rep db2]|] eqn:Er; cbn [commit]; [|auto].
  destruct (reset_genesis_keeps _ _ _ Er Hi1) as (Hi2 & _ & Hb2). split; [done|]. right. split.
  - destruct p; try discriminate Hst. eauto.
  - rewrite Hb2. unfold residue, provider_credits, paid_out. by rewrite Hp1.
Qed.

(** C5: Credits are issued only by an operator and to newcomers: a request keeps
    the invariant of the ledger, and raises the books by at most the amount of
    a mint request that bears a static token, the bonuses of one join for a
    device exchange or a link, and nothing for any other request; what other
    requests issue while this one waits comes on top.  The one other thing that
    changes the books is an operator's genesis reset, which leaves on them what
    providers hold and were paid, and nothing else. *)
Theorem requests_issue_little node now mid extra hd req db answer db' :
  ledger_inv db -> 0 <= extra -> LedgerSafeAlways extra mid ->
  serve sc node now mid hd req (Some db) = (answer, Some db') ->
  ledger_inv db' /\
  (books db <= books db' <= books db + issuance now hd req db + extra \/
   req = RReset /\ (exists name, principal_of sc now hd db = Ok (PStatic name)) /\
   books db' = provider_credits db + paid_out db).
Proof.
  intros Hi Hx Hm Es.
  assert (req = RReset \/ req <> RReset) as [->|Hr] by (destruct req; auto; by right).
  { destruct (reset_request_runs _ _ _ _ _ _ _ Hi Es) as [Hi' [Hb|[Hp Hb]]]; (split; [done|]); [left; cbn; lia|by right]. }
  assert (exists k, Some db' = Some (run mid (take k (whole_plan sc node now mid hd req db)) db)) as [k [= ->]].
  { change (Some db') with (answer, Some db').2. rewrite <- Es. by apply reaches_plan. }
  pose proof (whole_fine node now mid hd req db Hr) as Hf.
  destruct (run_keeps mid extra _ db Hm Hx (Forall_take _ k _ Hf) Hi) as [Hi' Hb].
  pose proof (caps_take extra k _ Hx Hf). pose proof (whole_caps extra node now mid hd req db Hx). split; [done|left; lia].
Qed.
End Server.

(** ** At the small server *)

Definition gift : Request := RWalletSend (mkSendReq "credits" "device:mallory" 300 None).
Lemma only_holders_spend_witness :
  holding (HDevice "alice") till = 1000 /\
  exists p, principal_of shop 10 (with_bearer "atok") till = Ok p /\ controls p till (HDevice "alice").
Proof.
  split; [vm_compute; reflexivity|].
  apply (only_holders_spend shop silent_node 10 (with_bearer "atok") gift till
    (serve shop silent_node 10 id_db (with_bearer "atok") gift (Some till)).1
    (default till (serve shop silent_node 10 id_db (with_bearer "atok") gift (Some till)).2)).
  - apply till_inv.
  - vm_compute. reflexivity.
  - vm_compute. reflexivity.
Defined.

Definition top_up : Request := RAdminMint "mallory" 70 None.
Lemma requests_issue_little_witness :
  let db' := default till (serve shop silent_node 10 id_db (with_bearer "opsecret") top_up (Some till)).2 in
  holding (HDevice "mallory") db' = 70 /\ ledger_inv db' /\ books till <= books db' <= books till + 70 + 0.
Proof.
  split; [vm_compute; reflexivity|].
  destruct (requests_issue_little shop silent_node 10 id_db 0 (with_bearer "opsecret") top_up till
    (serve shop silent_node 10 id_db (with_bearer "opsecret") top_up (Some till)).1
    (default till (serve shop silent_node 10 id_db (with_bearer "opsecret") top_up (Some till)).2)) as [Hi [Hb|[Hr _]]].
  - apply till_inv.
  - lia.
  - intros db Hi. split; [done|]. unfold id_db. lia.
  - vm_compute. reflexivity.
  - split; [exact Hi|exact Hb].
  - discriminate Hr.
Defined.
