(* ===== verification/ServerChain.v ===== *)
(** * What the books say of the chain

    Deposits and payouts enter the ledger only after a node vouched for the
    transaction: every deposit row names a settled transaction that brought its
    cents to its address, every finished withdrawal one that paid its
    destination, for every interleaving of requests at the points where the
    gateway waits for the chain or the mail service. *)

From S2P Require Import Prelude Db RustStr Merkle Wallet ShareKeys Settlement Accounts Providers ApiKeys.
From S2P Require Import Fixtures ProRata ShareKeysFacts SettlementFacts AccountsFacts.
From S2P Require Import Onchain OnchainFacts Availability Referrals Sessions Anchoring LedgerSystem.
From S2P Require Import Auth PinWire PinWireFacts Solana SolanaFacts Http AccountHandlers AdminHandlers Solvency Server ServerFacts.
From S2P Require Import ServerFixtures.

Open Scope string_scope.
Open Scope list_scope.
Open Scope Z_scope.

(** ** Operations away from the chain *)

Definition offchain (db db' : Db) : Prop :=
  account_onchain_deposits db' = account_onchain_deposits db /\ account_withdrawals db' = account_withdrawals db.
#[export] Instance offchain_preorder : PreOrder offchain.
Proof. split; [by intros db|]. intros a b c [] []. split; congruence. Qed.
Lemma offchain_quiet db db' : quiet db db' -> offchain db db'.
Proof. by intros []. Qed.
Lemma offchain_commit {E A} (r : result E (A * Db)) db : (forall a db', r = Ok (a, db') -> offchain db db') -> offchain db (commit r db).
Proof. intros H. destruct r as [[a db']|]; simpl; [by eapply H|done]. Qed.
Lemma offchain_commit_unit {E} (r : result E Db) db : (forall db', r = Ok db' -> offchain db db') -> offchain db (commit_unit r db).
Proof. intros H. destruct r as [db'|]; simpl; [by eapply H|done]. Qed.

(** Unfolds [f] in the run of a transaction and follows its statements. *)
Ltac follow f :=
  let HH := fresh "HH" in
  first [apply offchain_commit; intros ? ? HH | apply offchain_commit_unit; intros ? HH];
  unfold f in HH; steps_in HH;
  first [done | split; reflexivity | apply offchain_quiet; quiet_done].

Lemma offchain_refund_expired now db : offchain db (refund_expired_share_keys now db).2.
Proof. apply offchain_quiet, quiet_close_loop. Qed.
Lemma offchain_revoke now issuer key db : offchain db (revoke_share_key now issuer key db).2.
Proof.
  unfold revoke_share_key. destruct (share_keys db !! key); [|done]. destruct (_ && _); [|done]. cbn [snd]. destruct (_ && _); [|done].
  transitivity (refund_share_key_contributions_tx key now "revoked" (update_share_key (sk_set_revoked now) key db)).2; [|done].
  transitivity (update_share_key (sk_set_revoked now) key db); [done|]. apply offchain_quiet, quiet_refund.
Qed.
Lemma offchain_migrate nf nc now db : offchain db (commit (migrate_unfunded_share_keys nf nc now db) db).
Proof.
  apply offchain_commit. intros rep db' H. unfold migrate_unfunded_share_keys in H. apply offchain_quiet.
  apply (fold_res_ind _ (fun acc => quiet db acc.2)) in H; [done| |done].
  intros row [rep1 db1] [rep2 db2] _ Hstep Q. apply quiet_migrate_one in Hstep. etransitivity; [exact Q|exact Hstep].
Qed.
Lemma offchain_transfer_device now d raw x memo db : offchain db (commit (transfer_from_device_wallet now d raw x memo db) db).
Proof.
  apply offchain_commit. intros rc db' H. unfold transfer_from_device_wallet in H. steps_in H.
  match goal with E : credit_recipient _ _ _ _ _ _ = Ok _ |- _ => apply quiet_credit_recipient, offchain_quiet in E; by etransitivity; [|exact E] end.
Qed.
Lemma offchain_transfer_account_for now a raw x memo actor db :
  offchain db (commit (transfer_from_account_wallet_for_account now a raw x memo actor db) db).
Proof.
  apply offchain_commit. intros rc db' H. unfold transfer_from_account_wallet_for_account in H. steps_in H;
  match goal with E : credit_recipient _ _ _ _ _ _ = Ok _ |- _ => apply quiet_credit_recipient in E end; apply offchain_quiet; quiet_done.
Qed.
Lemma offchain_device_join cid now d code db : offchain db (commit (apply_device_join_rewards cid now d code db) db).
Proof.
  apply offchain_commit. intros rewards db' H. unfold apply_device_join_rewards in H. cbv zeta in H. apply offchain_quiet.
  match type of H with context [if has_welcome_bonus d ?dbx then ?a else ?b] =>
    destruct (if has_welcome_bonus d dbx then a else b) as [w db1] eqn:Ew end.
  assert (quiet db db1) as Q1 by (destruct (has_welcome_bonus d _); injection Ew as _ <-; by apply quiet_tables).
  destruct (normalized_optional_string code); [|by injection H as _ <-].
  destruct (apply_referral_for_device_tx _ _ _ _ _) as [[x db2]|] eqn:Er; [|done]. injection H as _ <-.
  apply quiet_referral_device in Er. by etransitivity.
Qed.
Lemma offchain_account_join cid now dv a code db : offchain db (commit (apply_account_join_rewards cid now dv a code db) db).
Proof.
  apply offchain_commit. intros rewards db' H. unfold apply_account_join_rewards in H. apply offchain_quiet.
  match type of H with (match ?c with Ok _ => _ | Err _ => _ end) = _ => destruct c as [[w db1]|] eqn:Ew; [|done] end.
  assert (quiet db db1) as Q1.
  { destruct (account_has_welcome_bonus a db); [by injection Ew as _ <-|].
    destruct (credit_account_wallet_tx _ _ _ _ _ _ _) as [db2|] eqn:E; [|done]. injection Ew as _ <-. by eapply quiet_credit_account. }
  destruct (normalized_optional_string code); [|by injection H as _ <-].
  destruct (apply_referral_for_account_tx _ _ _ _ _ _) as [[x db2]|] eqn:Er; [|done]. injection H as _ <-.
  apply quiet_referral_account in Er. by etransitivity.
Qed.
Lemma offchain_sweep now req tgt db : offchain db (commit (sweep_device_to_account now req tgt db) db).
Proof.
  apply offchain_commit. intros [x summary] db' H. unfold sweep_device_to_account in H. apply offchain_quiet.
  destruct (common_account req tgt db); [|done]. cbv zeta in H. destruct (map_err _ (query_row _)); [|done].
  destruct (0 <? _); [|injection H as _ _ <-; by apply quiet_tables].
  destruct (insert_account_ledger _ _ _ _ _ _ _ _ _) as [db1|] eqn:E; [|done]. injection H as _ _ <-. quiet_done.
Qed.
Lemma offchain_settle now c p online cost rid model db :
  offchain db (commit_unit (settle_request now c (Some p) online cost rid model db) db).
Proof.
  apply offchain_commit_unit. intros db' H. apply offchain_quiet. destruct (Z.leb_spec cost 0) as [Hc|Hc].
  { unfold settle_request in H. rewrite (proj2 (Z.leb_le cost 0) Hc) in H. by injection H as <-. }
  destruct (paying_device_id c) as [d|] eqn:Hp.
  - apply (settle_device_side _ _ d) in H; [|done|done]. cbv zeta in H. destruct H as [note ->].
    etransitivity; [|apply quiet_distribute]. destruct (0 <? _); [|by apply quiet_tables].
    etransitivity; [|apply quiet_debit]. by apply quiet_tables.
  - destruct c as [| |a key]; [done|done|]. unfold settle_request in H. rewrite (proj2 (Z.leb_gt cost 0)) in H by done.
    unfold settle_request_account in H. steps_in H; quiet_done.
Qed.
Lemma offchain_settle_provider now c pid cost rid model db :
  offchain db (commit_unit (settle_provider_request now c pid cost rid model db) db).
Proof.
  apply offchain_commit_unit. intros db' H. apply offchain_quiet. unfold settle_provider_request in H.
  destruct (cost <=? 0); [by injection H as <-|].
  destruct c as [d|d k|a [k|]]; cbn [paying_device_id] in H; steps_in H; quiet_done.
Qed.
Lemma offchain_payout now pid x dest db : offchain db (commit_unit (record_provider_payout now pid x dest db) db).
Proof.
  apply offchain_commit_unit. intros db' H. unfold record_provider_payout in H. destruct (negb _); [|done]. destruct (_ <=? _); [|done].
  destruct (insert_provider_ledger _ _ _ _ _ _ _ _) as [db1|] eqn:E; [|done]. injection H as <-.
  apply quiet_provider_ledger, offchain_quiet in E. by etransitivity; [exact E|].
Qed.
Lemma offchain_credit_loop now rs db : offchain db (foldl (fun db r => credit_available_device now r db) db rs).
Proof. revert db. induction rs as [|r rs IH]; intros db; [done|]. cbn [foldl]. by etransitivity; [|apply IH]. Qed.
Lemma offchain_finalize_loop now rs L n db :
  offchain db (foldl (fun '(n, db) s => if still_matching rs s then (n, db)
    else (S n, finalize_availability_session s now db)) (n, db) L).2.
Proof.
  revert n db. induction L as [|[d s] L IH]; intros n db; [done|]. cbn [foldl]. destruct (still_matching rs (d, s)); [apply IH|].
  etransitivity; [|apply IH]. unfold finalize_availability_session. by destruct (0 <? _).
Qed.
Lemma offchain_drip now rs db : offchain db (commit (reconcile_availability_sessions now rs db) db).
Proof.
  apply offchain_commit. intros rep db' H. unfold reconcile_availability_sessions in H.
  pose proof (offchain_finalize_loop now rs (load_active_availability_sessions db) 0%nat db) as A. fold (finalize_ended now rs db) in A.
  destruct (finalize_ended now rs db) as [n db1]. cbn [snd] in A. cbv zeta in H. destruct (0 <? _).
  - destruct (map_err _ _) as [pool|]; [|done]. destruct (_ <? _); [by injection H as _ <-|]. injection H as _ <-.
    etransitivity; [exact A|]. by etransitivity; [|apply offchain_credit_loop].
  - injection H as _ <-. etransitivity; [exact A|apply offchain_credit_loop].
Qed.
Lemma offchain_referral_code code now d db : offchain db (commit (referral_code_for_device code now d db) db).
Proof. apply offchain_commit. by intros sn db' [m ->]%referral_code_out. Qed.
Lemma offchain_account_bonus now a x dv note db : offchain db (commit (record_account_bonus now a x dv note db) db).
Proof. follow record_account_bonus. Qed.
Lemma offchain_link now d a md db : offchain db (default db (link_device_to_account now d a md db)).
Proof. unfold link_device_to_account. by destruct (normalize_account_user_id a). Qed.
Lemma offchain_update_key a key params db : offchain db (commit (update_api_key a key params db) db).
Proof.
  apply offchain_commit. intros k db' H. unfold update_api_key in H. cbv zeta in H. destruct (negb (negative_limit _)); [|done].
  destruct (match ukp_name params with Some (Some n) => _ | _ => _ end); [|done]. destruct (owned_key a key db); [|done]. cbn [ok_or] in H.
  destruct (get_api_key _ _ _); [|done]. injection H as _ <-.
  by destruct (ukp_name params), (ukp_credit_limit params), (ukp_disabled params).
Qed.
Lemma offchain_create_key sha key secret now a params db : offchain db (commit (create_api_key sha key secret now a params db) db).
Proof.
  apply offchain_commit. intros m db' H. unfold create_api_key in H. cbv zeta in H. destruct (negb (negative_limit _)); [|done].
  destruct (match normalized_optional_string _ with Some n => _ | None => _ end); [|done].
  destruct (insert_api_key _ _ _) as [db1|] eqn:E; [|done]. injection H as _ <-. by apply insert_api_key_Ok in E as (_ & _ & -> & _).
Qed.
Lemma offchain_email_code sha id now email code link db : offchain db (commit (insert_email_code sha id now email code link db) db).
Proof.
  apply offchain_commit. intros rq db' H. unfold insert_email_code in H. destruct (normalize_account_email email); [|done].
  cbn [ok_or] in H. cbv zeta in H. destruct (match code_for_email _ db with Some _ => _ | None => _ end); [|done].
  destruct (negb _); [|done]. by injection H as _ <-.
Qed.
Lemma offchain_provider now p slug name url wf hdr secret dc zdr q db :
  offchain db (commit_unit (upsert_provider now p slug name url wf hdr secret dc zdr q db) db).
Proof.
  apply offchain_commit_unit. intros db' H. unfold upsert_provider in H. case_bool_decide; [|done].
  destruct (unique_for _ _ _ _); [|done]. destruct (match providers db !! p with Some _ => _ | None => _ end). by injection H as <-.
Qed.

Definition chain_op (op : LedgerOp) : bool :=
  match op with
  | OpOnchainDeposit _ _ _ _ | OpTreasuryDeposit _ _ _ _ _ _ _ | OpSubmitWithdrawal _ _ _ _
  | OpCompleteWithdrawal _ _ _ | OpRejectWithdrawal _ _ _ => true
  | _ => false
  end.
Lemma op_offchain op db : chain_op op = false -> offchain db (apply_op op db).
Proof.
  intros Hc. destruct op; try discriminate Hc; cbn [apply_op];
    solve [ split; reflexivity | apply offchain_device_join | apply offchain_account_join | apply offchain_referral_code | apply offchain_drip
          | apply offchain_revoke | apply offchain_refund_expired | apply offchain_migrate | apply offchain_settle
          | apply offchain_settle_provider | apply offchain_payout | apply offchain_link | apply offchain_transfer_device
          | apply offchain_transfer_account_for | apply offchain_sweep | apply offchain_account_bonus | apply offchain_update_key
          | apply offchain_create_key | apply offchain_email_code | apply offchain_provider
          | unfold upsert_device; by case_match
          | follow admin_mint | follow record_bonus | follow mint_share_key | follow transfer_to_share_key
          | follow remove_device_from_account | follow issue_token | follow delete_api_key
          | unfold transfer_from_account_wallet; case_match; [apply offchain_transfer_account_for|done]
          | follow account_user_id_for_login | follow verify_account_email_link_token | follow create_account_session
          | unfold consume_challenge; cbn [snd]; by case_match
          | unfold verify_account_email_code; repeat case_match; done
          | unfold resolve_account_session; repeat case_match; done
          | unfold revoke_account_session; repeat case_match; done ].
Qed.

(** ** Rows the chain vouches for *)

Section Backed.
Context (nodes : SolanaNode -> Prop) (cfg : SolanaConfig).

Definition deposit_backed (r : DepositRow) : Prop :=
  dep_amount_credits r = dep_amount_usdc_cents r * CREDITS_PER_USDC_CENT /\
  exists node, nodes node /\ usdc_arrived cfg (dep_tx_signature r) (dep_solana_address r) (dep_amount_usdc_cents r).
Definition paid (sig destination : string) (cents : Z) : Prop :=
  exists node, nodes node /\ (usdc_paid_out cfg sig destination cents \/ exists source, usdc_withdrawn cfg sig source destination cents).
Definition withdrawal_backed (r : WithdrawalRow) : Prop :=
  wd_status r = "submitted" ->
  exists sig, wd_tx_signature r = Some sig /\ paid sig (wd_destination_address r) (wd_amount_usdc_cents r).
Record backed (db : Db) : Prop := mk_backed {
  backed_wf : withdrawals_wf db;
  backed_deposits : map_Forall (fun _ => deposit_backed) (account_onchain_deposits db);
  backed_withdrawals : map_Forall (fun _ => withdrawal_backed) (account_withdrawals db)
}.

(** A withdrawal keeps its request, destination and amount. *)
Definition same_terms (r r' : WithdrawalRow) : Prop :=
  wd_request_id r' = wd_request_id r /\ wd_destination_address r' = wd_destination_address r /\
  wd_amount_usdc_cents r' = wd_amount_usdc_cents r.
Definition terms_kept (db db' : Db) : Prop :=
  forall i r, account_withdrawals db !! i = Some r -> exists r', account_withdrawals db' !! i = Some r' /\ same_terms r r'.
#[export] Instance terms_preorder : PreOrder terms_kept.
Proof.
  split; [intros db i r Hr; by exists r|]. intros a b c H1 H2 i r Hr. destruct (H1 i r Hr) as (r1 & Hr1 & E1 & E2 & E3).
  destruct (H2 i r1 Hr1) as (r2 & Hr2 & F1 & F2 & F3). exists r2. unfold same_terms. split_and!; congruence.
Qed.
Lemma terms_evolve db db' : table_evolves db db' -> terms_kept db db'.
Proof.
  intros H i r Hr. destruct (H i r Hr) as (r' & Hr' & Hev). exists r'. split; [done|].
  destruct Hev as [->|(_ & st & sg & t & _ & ->)]; done.
Qed.
Lemma terms_offchain db db' : offchain db db' -> terms_kept db db'.
Proof. intros [_ E] i r Hr. exists r. by rewrite E. Qed.
Lemma backed_offchain db db' : offchain db db' -> backed db -> backed db'.
Proof.
  intros [E1 E2] [[W1 W2 W3] Hd Hw]. split; [split; rewrite ?E2; done|by rewrite E1|by rewrite E2].
Qed.

(** Safe to run while a request waits. *)
Definition chain_safe (f : Db -> Db) : Prop := forall db, backed db -> backed (f db) /\ terms_kept db (f db).
Lemma chain_safe_off op : chain_op op = false -> chain_safe (apply_op op).
Proof. intros Hc db Hb. pose proof (op_offchain op db Hc) as Ho. split; [by apply (backed_offchain db)|by apply terms_offchain]. Qed.

(** What a chain operation rests on. *)
Definition vouched (db : Db) (op : LedgerOp) : Prop :=
  match op with
  | OpOnchainDeposit _ _ _ q =>
      normalized_optional_string (di_tx_signature q) = None \/
      exists node address sig cents, nodes node /\ di_solana_address q = Some address /\
        normalized_optional_string (Some address) = Some address /\ normalized_optional_string (di_tx_signature q) = Some sig /\
        di_amount_usdc_cents q = Some cents /\ usdc_arrived cfg sig address cents
  | OpTreasuryDeposit _ _ _ sig cents _ address => exists node, nodes node /\ usdc_arrived cfg sig address cents
  | OpSubmitWithdrawal _ _ _ q =>
      normalized_optional_string (wr_tx_signature q) = None \/
      exists sig, normalized_optional_string (wr_tx_signature q) = Some sig /\
        normalized_optional_string (Some (wr_destination_address q)) = Some (wr_destination_address q) /\
        paid sig (wr_destination_address q) (wr_amount_usdc_cents q)
  | OpCompleteWithdrawal _ rid sig =>
      exists i w, account_withdrawals db !! i = Some w /\ wd_request_id w = rid /\
        paid sig (wd_destination_address w) (wd_amount_usdc_cents w)
  | _ => True
  end.
Lemma vouched_kept db db' op : terms_kept db db' -> vouched db op -> vouched db' op.
Proof.
  intros Hk. destruct op; try done. intros (i & w & Hw & Hq & Hp). destruct (Hk i w Hw) as (w' & Hw' & E1 & E2 & E3).
  exists i, w'. cbn. rewrite E1, E2, E3. eauto.
Qed.

Lemma credit_backed did a sig addr src usdc credits now dv n1 n2 db db' : backed db ->
  credit_deposit did a sig addr src usdc credits now dv n1 n2 db = Ok db' -> credits = usdc * CREDITS_PER_USDC_CENT ->
  (exists node, nodes node /\ usdc_arrived cfg sig addr usdc) -> backed db' /\ terms_kept db db'.
Proof.
  intros [[W1 W2 W3] Hd Hw] (_ & _ & _ & _ & _ & E1 & _ & E2)%credit_deposit_Ok Hc Hv. split.
  - split; [split; rewrite ?E2; done| |by rewrite E2]. rewrite E1. apply map_Forall_insert_2; [|done]. by split.
  - intros i r Hr. exists r. by rewrite E2.
Qed.
Lemma onchain_backed did now dv q db : backed db -> vouched db (OpOnchainDeposit did now dv q) ->
  backed (apply_op (OpOnchainDeposit did now dv q) db) /\ terms_kept db (apply_op (OpOnchainDeposit did now dv q) db).
Proof.
  intros Hb Hv. cbn [apply_op]. destruct (record_account_onchain_deposit did now dv q db) as [[rec db']|] eqn:H; cbn [commit]; [|done].
  unfold record_account_onchain_deposit in H. destruct (account_user_id_for_device dv db) as [a|]; [|done]. cbn [ok_or] in H.
  destruct (load_account_wallet_state_locked a db) as [st|]; [|done]. cbn [map_err] in H.
  destruct (resolve_account_onchain_address_from_state _ _) as [addr|] eqn:Ead; [|done].
  set (db0 := update_account (aw_set_solana addr now) a db) in *. assert (offchain db db0) as Ho by done.
  assert (backed db0) as Hb0 by (by apply (backed_offchain db)). pose proof (terms_offchain _ _ Ho) as Ht0.
  destruct Hv as [Hn|(node & address & sig & cents & Hnode & Ea & Enorm & Esig & Ec & Harr)]; [rewrite Hn in H; by injection H as _ <-|].
  rewrite Esig, Ec in H. cbn [ok_or] in H. destruct (negb _); [|done].
  destruct (credits_from_usdc_cents cents) as [c|] eqn:Hcr; [|done]. cbn [map_err] in H. apply credits_from_usdc_Ok in Hcr.
  assert (addr = address) as ->.
  { unfold resolve_account_onchain_address_from_state in Ead. rewrite Ea, Enorm in Ead.
    destruct (aw_solana_address st); [case_bool_decide as Hne; [done|]|]; injection Ead as <-; [|done].
    by destruct (decide (s = address)). }
  destruct (deposit_by_signature _ _) as [[i r]|]; [case_bool_decide; [|done]; by injection H as _ <-|].
  destruct (credit_deposit _ _ _ _ _ _ _ _ _ _ _ _) as [db1|] eqn:E; [|done]. injection H as _ <-.
  apply credit_backed in E as [? ?]; [|done|done|by exists node]. split; [done|]. by etransitivity.
Qed.
Lemma treasury_backed did now dv sig usdc src addr db : backed db -> vouched db (OpTreasuryDeposit did now dv sig usdc src addr) ->
  backed (apply_op (OpTreasuryDeposit did now dv sig usdc src addr) db) /\
  terms_kept db (apply_op (OpTreasuryDeposit did now dv sig usdc src addr) db).
Proof.
  intros Hb Hv. cbn [apply_op]. destruct (record_account_treasury_deposit _ _ _ _ _ _ _ _) as [[rec db']|] eqn:H; cbn [commit]; [|done].
  unfold record_account_treasury_deposit in H. destruct (negb _); [|done].
  destruct (credits_from_usdc_cents usdc) as [c|] eqn:Hcr; [|done]. cbn [map_err] in H. apply credits_from_usdc_Ok in Hcr.
  destruct (account_user_id_for_device dv db) as [a|]; [|done]. cbn [ok_or] in H.
  destruct (load_account_wallet_state_locked a db); [|done]. cbn [map_err] in H.
  destruct (deposit_by_signature sig db) as [[i r]|]; [case_bool_decide; [|done]; by injection H as _ <-|].
  destruct (credit_deposit _ _ _ _ _ _ _ _ _ _ _ _) as [db1|] eqn:E; [|done]. injection H as _ <-. by apply credit_backed in E.
Qed.

Lemma finish_deposits a req sig usdc credits now dv n1 n2 db db' :
  finish_withdrawal a req sig usdc credits now dv n1 n2 db = Ok db' -> account_onchain_deposits db' = account_onchain_deposits db.
Proof.
  unfold finish_withdrawal, onchain_sql. intros H.
  destruct (insert_account_ledger a "credits" _ _ _ _ _ _ _) as [db1|] eqn:E1; [|done]. cbn [map_err] in H.
  destruct (insert_account_ledger a "usdc" _ _ _ _ _ _ _) as [db2|] eqn:E2; [|done]. cbn [map_err] in H.
  apply quiet_account_ledger, quiet_deposits in E1, E2. unfold submit_withdrawals in H. case_bool_decide; [|done]. injection H as <-.
  cbn. congruence.
Qed.
(** The rows after a withdrawal was finished, when its request is paid. *)
Lemma finish_rows a req sig usdc credits now dv n1 n2 db db' :
  map_Forall (fun _ => withdrawal_backed) (account_withdrawals db) ->
  (forall i r, account_withdrawals db !! i = Some r -> wd_request_id r = req -> paid sig (wd_destination_address r) (wd_amount_usdc_cents r)) ->
  finish_withdrawal a req sig usdc credits now dv n1 n2 db = Ok db' ->
  map_Forall (fun _ => withdrawal_backed) (account_withdrawals db').
Proof.
  intros Hw Hp (_ & -> & _)%finish_withdrawal_Ok. intros i r. cbn. rewrite lookup_fmap.
  destruct (account_withdrawals db !! i) as [s|] eqn:Hs; [|done]. cbn. intros [= <-]. case_bool_decide as Hq; [|by apply (Hw i)].
  intros _. exists sig. split; [done|]. exact (Hp i s Hs Hq).
Qed.

Lemma complete_backed now rid sig db : backed db -> vouched db (OpCompleteWithdrawal now rid sig) ->
  backed (apply_op (OpCompleteWithdrawal now rid sig) db) /\ terms_kept db (apply_op (OpCompleteWithdrawal now rid sig) db).
Proof.
  intros [Hwf Hd Hw] (j & w & Hj & Hq & Hp). cbn [apply_op].
  destruct (complete_account_withdrawal_from_treasury now rid sig db) as [[rec db']|] eqn:H; cbn [commit]; [|done].
  pose proof (complete_effect _ _ _ _ _ _ Hwf H) as ((Hwf' & Hev & _) & _). split; [|by apply terms_evolve].
  unfold complete_account_withdrawal_from_treasury in H. destruct (withdrawal_by_request rid db) as [[i r]|]; [|done]. cbn [ok_or] in H.
  case_bool_decide; [destruct (some_eqb _ _); [by injection H as _ <-|done]|]. case_bool_decide; [|done]. cbv zeta in H.
  destruct (finish_withdrawal _ _ _ _ _ _ _ _ _ _) as [db1|] eqn:Ef; [|done]. apply reread_Ok in H as [-> _].
  split; [done|by rewrite (finish_deposits _ _ _ _ _ _ _ _ _ _ _ Ef)|].
  eapply finish_rows; [| |exact Ef]; [done|]. intros k s Hk Hqk. cbn in Hk.
  assert (k = j) as -> by (apply (wf_requests _ Hwf k j s w); congruence). congruence.
Qed.

Lemma reject_backed now rid reason db : backed db ->
  backed (apply_op (OpRejectWithdrawal now rid reason) db) /\ terms_kept db (apply_op (OpRejectWithdrawal now rid reason) db).
Proof.
  intros [Hwf Hd Hw]. cbn [apply_op]. destruct (reject_account_withdrawal now rid reason db) as [[rec db']|] eqn:H; cbn [commit]; [|done].
  pose proof (reject_effect _ _ _ _ _ _ Hwf H) as ((Hwf' & Hev & _) & _). split; [|by apply terms_evolve].
  unfold reject_account_withdrawal, onchain_sql in H. destruct (withdrawal_by_request rid db) as [[i r]|]; [|done]. cbn [ok_or] in H.
  case_bool_decide; [|done]. destruct (insert_account_ledger _ _ _ _ _ _ _ _ _) as [db1|] eqn:E; [|done]. cbn [map_err] in H.
  pose proof (quiet_account_ledger _ _ _ _ _ _ _ _ _ _ E) as [Q1 _ Q3 _]. cbn in Q1, Q3. apply reread_Ok in H as [-> _].
  split; [done|by rewrite <- Q3 in Hd|]. intros k s. cbn. rewrite lookup_fmap, Q1.
  destruct (account_withdrawals db !! k) as [t|] eqn:Ht; [|done]. cbn. intros [= <-]. case_bool_decide; [done|by apply (Hw k)].
Qed.

(** The row of a request with the terms of the request. *)
Lemma request_row_backed wid now a rid dest usdc credits sig db reserved db0 : backed db -> credits = usdc * CREDITS_PER_USDC_CENT ->
  withdrawal_request_row wid now a rid dest usdc credits sig db = Ok (GoOn reserved db0) ->
  account_onchain_deposits db0 = account_onchain_deposits db /\
  map_Forall (fun _ => withdrawal_backed) (account_withdrawals db0) /\
  forall i r, account_withdrawals db0 !! i = Some r -> wd_request_id r = rid ->
    wd_destination_address r = dest /\ wd_amount_usdc_cents r = usdc.
Proof.
  intros [Hwf Hd Hw] Hcr H. unfold withdrawal_request_row, onchain_sql in H.
  destruct (withdrawal_by_request rid db) as [[i r]|] eqn:Er.
  - apply by_request_Some in Er as [Hr Hq]. case_bool_decide as Hm; [|done]. destruct Hm as (_ & Hdst & Hu & _).
    case_bool_decide; [by case_bool_decide|]. destruct sig; [|done]. injection H as _ <-. split_and!; [done|done|].
    intros k t Hk Hqk. assert (k = i) as -> by (apply (wf_requests _ Hwf k i t r); congruence). split; congruence.
  - destruct (insert_withdrawal _ _ _) as [db1|] eqn:E; [|done]. injection H as _ <-. apply insert_withdrawal_Ok in E as (_ & _ & _ & ->).
    split; [done|]. cbn. split; [by apply map_Forall_insert_2|]. intros k s. rewrite lookup_insert. case_decide; [by intros [= <-]|].
    intros Hs Hqs. by apply (by_request_None rid db k s) in Hs.
Qed.
Lemma submit_backed wid now dv q db : backed db -> vouched db (OpSubmitWithdrawal wid now dv q) ->
  backed (apply_op (OpSubmitWithdrawal wid now dv q) db) /\ terms_kept db (apply_op (OpSubmitWithdrawal wid now dv q) db).
Proof.
  intros Hb Hv. pose proof Hb as [Hwf Hd Hw]. cbn [apply_op].
  destruct (submit_account_withdrawal wid now dv q db) as [[rec db']|] eqn:H; cbn [commit]; [|done].
  pose proof (submit_effect _ _ _ _ _ _ _ Hwf H) as (Hwf' & Hev & _). split; [|by apply terms_evolve].
  unfold submit_account_withdrawal in H. destruct (normalized_optional_string (Some (wr_request_id q))) as [rid|]; [|done]. cbn [ok_or] in H.
  destruct (normalized_optional_string (Some (wr_destination_address q))) as [dest|] eqn:Edest; [|done]. cbn [ok_or] in H. cbv zeta in H.
  destruct (negb _); [|done]. destruct (account_user_id_for_device dv db) as [a|]; [|done]. cbn [ok_or] in H.
  destruct (load_account_wallet_state_locked a db) as [st|]; [|done]. cbn [map_err] in H. destruct (_ && _); [|done].
  destruct (credits_from_usdc_cents _) as [c|] eqn:Hcr; [|done]. cbn [map_err] in H. apply credits_from_usdc_Ok in Hcr.
  match type of H with (if ?b then _ else _) = _ => destruct b; [|done] end.
  destruct (withdrawal_request_row _ _ _ _ _ _ _ _ _) as [[record|reserved db0]|] eqn:E0; [by injection H as _ <-| |done].
  destruct (request_row_backed _ _ _ _ _ _ _ _ _ _ _ Hb Hcr E0) as (Ed0 & Hw0 & Hterms).
  destruct (normalized_optional_string (wr_tx_signature q)) as [sg|] eqn:Esg.
  - destruct Hv as [Hn|(sg' & Es & Enorm & Hp)]; [congruence|]. rewrite Esg in Es. injection Es as <-.
    rewrite Edest in Enorm. injection Enorm as ->.
    destruct (settle_withdrawal _ _ _ _ _ _ _ _ _ _ _) as [db1|] eqn:E1; [|done].
    destruct (reread_withdrawal rid db1) as [[rec1 db2]|] eqn:E2; [|done]. injection H as _ <-. apply reread_Ok in E2 as [-> _].
    unfold settle_withdrawal in E1. destruct (map_err _ _); [|done].
    assert (exists x u dep wd n1 n2, finish_withdrawal a rid sg (wr_amount_usdc_cents q) c now dv n1 n2
      (update_account (aw_post x u dep wd now) a db0) = Ok db1) as (x & u & dep & wd & n1 & n2 & Ef).
    { destruct reserved; [|destruct (_ <=? _); [|done]]; eauto 10. }
    split; [done|by rewrite (finish_deposits _ _ _ _ _ _ _ _ _ _ _ Ef); cbn; rewrite Ed0|].
    eapply finish_rows; [| |exact Ef]; [done|]. intros k s Hk Hqk. destruct (Hterms k s Hk Hqk) as [-> ->]. done.
  - destruct (hold_withdrawal _ _ _ _ _ _ _ _) as [db1|] eqn:E1; [|done]. injection H as _ <-.
    unfold hold_withdrawal, onchain_sql in E1. destruct (_ <=? _); [|done]. apply map_err_Ok, quiet_account_ledger in E1 as [Q1 _ Q3 _].
    cbn in Q1, Q3. split; [done|by rewrite Q3, Ed0|by rewrite Q1].
Qed.

Lemma vouched_backed op db : backed db -> vouched db op -> backed (apply_op op db) /\ terms_kept db (apply_op op db).
Proof.
  intros Hb Hv. destruct (chain_op op) eqn:Hc; [|by apply (chain_safe_off op Hc)].
  destruct op; try discriminate Hc; [by apply onchain_backed|by apply treasury_backed|by apply submit_backed|by apply complete_backed|].
  by apply reject_backed.
Qed.
End Backed.

(** ** Requests in any order *)

Definition step_vouched (nodes : SolanaNode -> Prop) (cfg : SolanaConfig) (db : Db) (s : Step) : Prop :=
  match s with SOp op => vouched nodes cfg db op | SMeanwhile => True | SReset => False end.

Lemma run_vouched nodes cfg mid l db : chain_safe nodes cfg mid -> backed nodes cfg db -> Forall (step_vouched nodes cfg db) l ->
  backed nodes cfg (run mid l db) /\ terms_kept db (run mid l db).
Proof.
  intros Hm. revert db. induction l as [|s l IH]; intros db Hb Hl; [split; [done|reflexivity]|]. apply Forall_cons in Hl as [Hs Hl].
  change (run mid (s :: l) db) with (run mid l (run_step mid s db)).
  assert (backed nodes cfg (run_step mid s db) /\ terms_kept db (run_step mid s db)) as [Hb1 Ht1].
  { destruct s as [op| |]; [by apply vouched_backed|done|by apply Hm]. }
  destruct (IH _ Hb1) as [Hb2 Ht2].
  - eapply Forall_impl; [exact Hl|]. intros [op| |]; [by apply vouched_kept|done|done].
  - split; [done|]. by etransitivity.
Qed.

Section Requests.
Context `{WireCrates} `{Crates} (sc : ServerConfig) (nodes : SolanaNode -> Prop).
Let cfg : SolanaConfig := sc_solana sc.

Lemma normalized_trim o s : normalized_optional_string o = Some s -> trim s = s /\ normalized_optional_string (Some s) = Some s.
Proof.
  intros E%normalized_twice. split; [|done]. unfold normalized_optional_string in E. cbn in E. case_match; [done|]. by injection E.
Qed.
Lemma plan_vouched node now p hd req db : nodes node -> req <> RReset -> Forall (step_vouched nodes cfg db) (plan sc node now p hd req db).
Proof.
  intros Hn Hr. destruct req; try done; cbn [plan]; unfold when_header, when_token, when_device, when_static;
    try (repeat case_match; repeat (constructor; [exact I|]); constructor; fail).
  - (* RDepositIntent *) case_match; [constructor|]. case_match; [|constructor].
    destruct (normalized_optional_string (di_tx_signature req)) as [sig|] eqn:Es; [|constructor; [by left|constructor]].
    destruct (resolve_account_onchain_address_for_device _ _ _) as [address|]; [|constructor].
    destruct (verify_usdc_deposit _ _ _ _ _) as [v|] eqn:Ev; [|constructor].
    apply usdc_deposit_sound in Ev as (E1 & _ & _ & _ & E2 & Ha). apply normalized_trim in Es as [Es1 Es2]. rewrite Es1 in E1.
    constructor; [exact I|]. constructor; [|constructor]. right. exists node, address, (vd_tx_signature v), (vd_amount_usdc_cents v). cbn. rewrite E1 in *. by split_and!.
  - (* RDepositTreasury *) repeat case_match; try constructor; [done|]. constructor; [|constructor].
    match goal with Ev : verify_treasury_deposit _ _ _ = Ok _ |- _ => apply treasury_deposit_sound in Ev as (_ & _ & _ & Ha & _) end.
    by exists node.
  - (* RWithdraw *) case_match; [constructor|]. case_match; [|constructor].
    destruct (normalized_optional_string (wr_tx_signature req)) as [sig|] eqn:Es; [|constructor; [by left|constructor]].
    destruct (resolve_account_onchain_address_for_device _ _ _) as [source|]; [|constructor].
    destruct (verify_usdc_withdrawal _ _ _ _ _) as [v|] eqn:Ev; [|constructor].
    apply usdc_withdrawal_sound in Ev as (E1 & _ & E2 & E3 & E4 & Ha). apply normalized_trim in Es as [Es1 Es2]. rewrite Es1 in E1.
    constructor; [exact I|]. constructor; [|constructor]. right. exists (vw_tx_signature v). cbn. rewrite E1, E2, E3 in *. split_and!; [done|done|]. exists node. eauto.
  - (* RComplete *) case_match; [|constructor]. destruct (withdrawal_by_request _ _) as [[i w]|] eqn:Ew; [|constructor].
    apply by_request_Some in Ew as [Hw Hq]. case_bool_decide; [|constructor].
    destruct (verify_treasury_payout _ _ _ _) as [v|] eqn:Ev; [|constructor]. apply treasury_payout_sound in Ev as (_ & _ & _ & _ & _ & Ha).
    constructor; [exact I|]. constructor; [|constructor]. exists i, w. split_and!; [done|done|]. exists node. auto.
Qed.
Lemma public_vouched now req db db0 : Forall (step_vouched nodes cfg db) (public_plan sc now req db0).
Proof. destruct req; cbn [public_plan]; unfold login_plan; repeat case_match; repeat (constructor; [exact I|]); constructor. Qed.
Lemma bearer_offchain mid now hd db : offchain db (checked sc mid now hd db).
Proof. unfold checked, bearer_plan. repeat case_match; try reflexivity; by apply op_offchain. Qed.

Lemma request_safe node now mid hd req : nodes node -> req <> RReset -> chain_safe nodes cfg mid ->
  chain_safe nodes cfg (fun db => default db (serve sc node now mid hd req (Some db)).2).
Proof.
  intros Hn Hr Hm db Hb. pose proof (bearer_offchain mid now hd db) as Ho.
  assert (backed nodes cfg (checked sc mid now hd db)) as Hb1 by (by apply (backed_offchain _ _ db)). apply terms_offchain in Ho.
  destruct (is_public req) eqn:Hp.
  - destruct (serve_public sc mid node now hd req db Hp) as (k & -> & _). cbn [default from_option].
    apply run_vouched; [done|done|]. apply Forall_take, public_vouched.
  - destruct (principal_of sc now hd db) as [p|st] eqn:E.
    + destruct (serve_protected sc mid node now hd req db p Hp E) as (k & -> & _). cbn [default from_option].
      destruct (run_vouched nodes cfg mid (take k (plan sc node now p hd req (checked sc mid now hd db))) (checked sc mid now hd db))
        as [Hb2 Ht2]; [done|done|by apply Forall_take, plan_vouched|]. split; [done|]. by etransitivity.
    + rewrite (serve_rejected sc mid node now hd req db st Hp E). by cbn.
Qed.

(** A reset, whatever runs while its bearer is looked up, leaves no deposit and
    no withdrawal. *)
Lemma reset_backed db : backed nodes cfg db -> backed nodes cfg (commit (reset_genesis db) db).
Proof.
  intros Hb. destruct (reset_genesis db) as [[rep db']|] eqn:E; [|done]. cbn [commit].
  apply reset_genesis_spares in E as (_ & _ & _ & _ & Ew & Ed & _).
  split; [by apply no_withdrawals_wf|rewrite Ed; apply map_Forall_empty|rewrite Ew; apply map_Forall_empty].
Qed.
Lemma reset_request_backed node now mid hd db : backed nodes cfg db ->
  backed nodes cfg (default db (serve sc node now mid hd RReset (Some db)).2).
Proof.
  intros Hb. pose proof (bearer_offchain mid now hd db) as Ho.
  assert (backed nodes cfg (checked sc mid now hd db)) as Hb1 by (by apply (backed_offchain _ _ db)).
  destruct (principal_of sc now hd db) as [p|st] eqn:E.
  2:{ by rewrite (serve_rejected sc mid node now hd RReset db st eq_refl E). }
  destruct (serve_protected sc mid node now hd RReset db p eq_refl E) as (k & -> & _).
  cbn [default from_option plan]. unfold when_static. destruct (is_static p); [|by rewrite take_nil].
  destruct k as [|k]; [done|]. cbn [take]. rewrite take_nil. cbn [run foldl run_step]. by apply reset_backed.
Qed.

(** What the gateway does to its store: requests one after the other, each
    with others running while it waits, and the work outside the money routes
    (settlements, the availability drip, provider payouts).  The maintenance
    reset, which empties the tables, is a request of the first kind only:
    [history true] has resets between requests, [history false], which is what
    runs while a request waits, has none. *)
Inductive history : bool -> (Db -> Db) -> Prop :=
| quiet_history b : history b (fun db => db)
| more_work b f op : history b f -> chain_op op = false -> history b (fun db => apply_op op (f db))
| more_request b f mid node now hd req : history b f -> history false mid -> nodes node -> req <> RReset ->
    history b (fun db => default (f db) (serve sc node now mid hd req (Some (f db))).2)
| more_reset f mid node now hd : history true f ->
    history true (fun db => default (f db) (serve sc node now mid hd RReset (Some (f db))).2).

Lemma history_safe f : history false f -> chain_safe nodes cfg f.
Proof.
  remember false as b eqn:Eb.
  induction 1 as [b|b f op _ IH Hop|b f mid node now hd req _ IH _ IHm Hn Hr|]; intros db Hb; [done|..|done].
  - destruct (IH Eb db Hb) as [Hb1 Ht1].
    destruct (chain_safe_off nodes cfg op Hop _ Hb1) as [? ?]. split; [done|]. by etransitivity.
  - destruct (IH Eb db Hb) as [Hb1 Ht1].
    destruct (request_safe node now mid hd req Hn Hr (IHm eq_refl) _ Hb1) as [? ?]. split; [done|]. by etransitivity.
Qed.
Lemma history_backed b f : history b f -> forall db, backed nodes cfg db -> backed nodes cfg (f db).
Proof.
  induction 1 as [b|b f op _ IH Hop|b f mid node now hd req _ IH Hmid _ Hn Hr|f mid node now hd _ IH]; intros db Hb; [done|..].
  - by apply (chain_safe_off nodes cfg op Hop _ (IH db Hb)).
  - by apply (request_safe node now mid hd req Hn Hr (history_safe _ Hmid) _ (IH db Hb)).
  - by apply reset_request_backed, IH.
Qed.
Lemma genesis_backed : backed nodes cfg genesis.
Proof. split; [apply genesis_inv|apply map_Forall_empty|apply map_Forall_empty]. Qed.

(** C3: The books say nothing of the chain that a node did not vouch for: in
    whatever order requests come, fail and interleave while the gateway waits,
    every deposit in the store names a transaction, settled at the configured
    commitment, that brought exactly its cents of USDC to its address, and is
    credited with exactly these cents; and every withdrawal that counts as
    submitted names one that paid its destination: from the treasury, net of
    the fee and nobody else, or from the user's wallet with the fee to the
    treasury.  An operator may reset the store any number of times on the way,
    when no other request is waiting. *)
Theorem chain_backs_the_books f : history true f ->
  (forall i r, account_onchain_deposits (f genesis) !! i = Some r ->
    dep_amount_credits r = dep_amount_usdc_cents r * CREDITS_PER_USDC_CENT /\
    exists node, nodes node /\ usdc_arrived cfg (dep_tx_signature r) (dep_solana_address r) (dep_amount_usdc_cents r)) /\
  (forall i r, account_withdrawals (f genesis) !! i = Some r -> wd_status r = "submitted" ->
    exists sig node, wd_tx_signature r = Some sig /\ nodes node /\
      (usdc_paid_out cfg sig (wd_destination_address r) (wd_amount_usdc_cents r) \/
       exists source, usdc_withdrawn cfg sig source (wd_destination_address r) (wd_amount_usdc_cents r))).
Proof.
  intros Hf. destruct (history_backed true f Hf genesis genesis_backed) as [_ Hd Hw]. split; [exact Hd|].
  intros i r Hr Hs. destruct (Hw i r Hr Hs) as (sig & Es & node & Hn & Hp). by exists sig, node.
Qed.
End Requests.

(** ** Anchors *)

(** An anchor is confirmed only by an operator, with a settled transaction of
    the anchor authority that carries the memo of the pending anchor. *)
Lemma finalized_anchor_published `{Crates} sql_text (node : SolanaNode) cfg now mid p id sig st out st' :
  Anchors.finalize sql_text cfg now mid p id sig (Some st) = (Ok out, Some st') ->
  is_static p = true /\ confirm_anchor now id (trim sig) (mid st) = Ok st' /\
  exists memo tx m, pending_anchor_memo id st = Some memo /\ on_chain cfg (trim sig) tx /\ message_in tx = Some m /\
    memo ∈ memos_of m /\ fee_payer_of m = Some (so_anchor_authority_address cfg).
Proof.
  unfold Anchors.finalize, Anchors.require_anchor_static. destruct p; try (by unfold mbind, http_bind, fails). cbn [is_static].
  unfold mbind, http_bind, require_pool, ensures, reads, lift, awaits, commits, runs, mret, http_ret.
  destruct (is_empty _); [done|]. cbn [negb]. destruct (pending_anchor_memo id st) as [memo|]; [|done]. cbn [ok_or map_err].
  destruct (verify_memo_anchor deposit_text cfg sig memo (so_anchor_authority_address cfg)) as [v|] eqn:Ev; [|done]. cbn [map_err].
  change (mid <$> Some st) with (Some (mid st)); cbv beta iota. destruct (confirm_anchor now id (trim sig) (mid st)) as [st1|] eqn:Ec; [|done]. intros [= _ <-].
  apply memo_anchor_sound in Ev as (E1 & _ & tx & m & Hc & Hm & Hx & Hp). rewrite E1 in Hc. split_and!; [done|done|]. by exists memo, tx, m.
Qed.

(** ** At the small server *)

Definition link_own : Request := RLinkAccount "claim" (mkLinkAccountReq "email:m@example.org" None None None None None None None).
(** An operator starts over; then a device joins, links its own account and
    claims a transfer the chain knows. *)
Definition fresh (db : Db) : Db :=
  default db (serve shop busy_node 1 (fun db => db) (with_bearer "opsecret") RReset (Some db)).2.
Definition day (db : Db) : Db :=
  let db := apply_op (OpIssueToken 2 "mallory" "mtok") (apply_op (OpUpsertDevice 1 "mallory") (fresh db)) in
  let db := default db (serve shop busy_node 10 (fun db => db) (with_bearer "mtok") link_own (Some db)).2 in
  default db (serve shop busy_node 11 (fun db => db) (with_bearer "mtok") claim_transfer (Some db)).2.
Lemma chain_backs_the_books_witness :
  is_ok (serve shop busy_node 1 (fun db => db) (with_bearer "opsecret") RReset (Some genesis)).1 = true /\
  (exists r, account_onchain_deposits (day genesis) !! "dep" = Some r /\ dep_amount_usdc_cents r = 2500) /\
  (forall i r, account_onchain_deposits (day genesis) !! i = Some r ->
    dep_amount_credits r = dep_amount_usdc_cents r * CREDITS_PER_USDC_CENT /\
    exists node, node = busy_node /\
      usdc_arrived (sc_solana shop) (dep_tx_signature r) (dep_solana_address r) (dep_amount_usdc_cents r)).
Proof.
  split; [vm_compute; reflexivity|].
  split; [eexists; split; [vm_compute; reflexivity|reflexivity]|].
  apply (chain_backs_the_books shop (fun node => node = busy_node) day).
  unfold day. cbv zeta.
  pose (morning := fun db => apply_op (OpIssueToken 2 "mallory" "mtok") (apply_op (OpUpsertDevice 1 "mallory") (fresh db))).
  apply (more_request shop (fun node => node = busy_node) true (fun db =>
    default (morning db) (serve shop busy_node 10 (fun db => db) (with_bearer "mtok") link_own (Some (morning db))).2)).
  - apply (more_request shop (fun node => node = busy_node) true morning); [|constructor|reflexivity|discriminate].
    unfold morning. do 2 (apply (more_work shop (fun node => node = busy_node)); [|reflexivity]).
    apply (more_reset shop (fun node => node = busy_node) (fun db => db)). constructor.
  - constructor.
  - reflexivity.
  - discriminate.
Defined.
