(* ===== verification/Anthropic.v ===== *)
(** * The Anthropic Messages endpoint

    [gateway/src/handlers/messages.rs]: a request in the format of Anthropic is
    translated to an OpenAI chat request, dispatched like one, and the chunks that
    come back are translated to one Anthropic message or to its stream of events.
    The process of [Chat] carries the dispatch; a turn adds what the handler keeps
    itself: the accumulator, the translator and what the stream has yielded.  A
    chunk's events are yielded in one step; the text of a [serde] error is left
    out, as are metrics and log lines. *)

From S2P Require Import Prelude Db RustStr Merkle Wallet Settlement Accounts ApiKeys F64 Registry Scheduler.
From S2P Require Import Pins Auth PinWire Catalog ChatPrepare Chat.
From stdpp Require Import sorting.
From Stdlib Require Import Ascii.

Open Scope string_scope.
Open Scope list_scope.
Open Scope Z_scope.

(** ** Requests *)

Record AnthropicMessageParam : Type := mkAnthropicMessageParam {
  ap_role : string;
  ap_content : Json
}.
Record AnthropicMessageRequest : Type := mkAnthropicMessageRequest {
  ar_model : string;
  ar_max_tokens : option Z;
  ar_messages : list AnthropicMessageParam;
  ar_system : option Json;
  ar_stop_sequences : option (list string);
  ar_temperature : option Z;
  ar_top_p : option Z;
  ar_stream : option bool;
  ar_tools : option (list Json);
  ar_tool_choice : option Json
}.
Definition param_of (j : Json) : option AnthropicMessageParam :=
  match j with
  | JObject o =>
      role ← required "role" as_string o;
      content ← required "content" any_value o;
      Some (mkAnthropicMessageParam role content)
  | _ => None
  end.
(** The derived [Deserialize]. *)
Definition anthropic_request_of (j : Json) : option AnthropicMessageRequest :=
  match j with
  | JObject o =>
      model ← required "model" as_string o;
      max_tokens ← opt_field "max_tokens" as_u32 o;
      messages ← required "messages" (as_array param_of) o;
      system ← opt_field "system" any_value o;
      stop_sequences ← opt_field "stop_sequences" (as_array as_string) o;
      temperature ← opt_field "temperature" as_number o;
      top_p ← opt_field "top_p" as_number o;
      stream ← opt_field "stream" as_bool o;
      tools ← opt_field "tools" as_list o;
      tool_choice ← opt_field "tool_choice" any_value o;
      Some (mkAnthropicMessageRequest model max_tokens messages system stop_sequences temperature top_p stream
              tools tool_choice)
  | _ => None
  end.

(** ** Translating a request *)

Definition get_str (key : string) (j : Json) : option string := get key j ≫= as_string.
(** [parts.join("\n")]. *)
Definition line_feed : string := String (Ascii.ascii_of_nat 10) EmptyString.
Definition join_lines (parts : list string) : string := String.concat line_feed parts.
Definition some_text (s : string) : option string := if is_empty s then None else Some s.
Definition quoted (before what after : string) : string := (before ++ "`" ++ what ++ "`" ++ after)%string.

Definition text_from_text_block (context : string) (block : Json) : result GatewayError string :=
  if bool_decide (get_str "type" block = Some "text")
  then ok_or (BadRequest "text block missing `text`") (get_str "text" block)
  else Err (BadRequest (context ++ " block must be a text block")).
(** A loop that collects one value per element. *)
Definition collect {A B} (f : A -> result GatewayError B) (l : list A) : result GatewayError (list B) :=
  fold_res (fun a out => let? b := f a in Ok (out ++ [b])) l [].

Definition text_from_system (system : Json) : result GatewayError (option string) :=
  match system with
  | JString s => Ok (some_text s)
  | JArray blocks => let? parts := collect (text_from_text_block "system") blocks in Ok (some_text (join_lines parts))
  | JObject _ => let? text := text_from_text_block "system" system in Ok (Some text)
  | _ => Err (BadRequest "`system` must be a string or text block array")
  end.

Section Text.
Context `{WireCrates}.

(** [value.to_string()] and [serde_json::to_string(&value)]. *)
Definition json_string (j : Json) : string := of_bytes (json_text j).

Definition text_from_tool_result_content (content : Json) : result GatewayError string :=
  match content with
  | JString text => Ok text
  | JArray blocks =>
      let? parts := collect (fun block =>
        let block_type := default "" (get_str "type" block) in
        if String.eqb block_type "text" then text_from_text_block "tool_result" block
        else Err (BadRequest (quoted "tool_result content block " block_type " is not supported"))) blocks in
      Ok (join_lines parts)
  | other => Ok (json_string other)
  end.

Definition text_message (role text : string) : Json := JObject [("role", JString role); ("content", JString text)].
Definition block_type_of (block : Json) : result GatewayError string :=
  ok_or (BadRequest "content block missing `type`") (get_str "type" block).
Definition unsupported_block (other : string) : GatewayError :=
  BadRequest (quoted "Anthropic content block " other " is not supported").
Definition not_content : GatewayError := BadRequest "message content must be a string or content block array".

(** The text gathered so far becomes a message of its own. *)
Definition flush_text (text_parts : list string) (messages : list Json) : list Json :=
  match text_parts with [] => messages | _ => messages ++ [text_message "user" (join_lines text_parts)] end.
Definition user_block (block : Json) (s : list string * list Json) : result GatewayError (list string * list Json) :=
  let '(text_parts, messages) := s in
  let? block_type := block_type_of block in
  if String.eqb block_type "text" then
    let? text := text_from_text_block "message" block in Ok (text_parts ++ [text], messages)
  else if String.eqb block_type "tool_result" then
    let? tool_use_id := ok_or (BadRequest "`tool_result` block missing `tool_use_id`") (get_str "tool_use_id" block) in
    let? text := text_from_tool_result_content (default (JString "") (get "content" block)) in
    Ok ([], flush_text text_parts messages ++
            [JObject [("role", JString "tool"); ("tool_call_id", JString tool_use_id); ("content", JString text)]])
  else Err (unsupported_block block_type).
Definition append_user_message (content : Json) (messages : list Json) : result GatewayError (list Json) :=
  match content with
  | JString text => Ok (messages ++ [text_message "user" text])
  | JArray blocks =>
      let? (text_parts, messages) := fold_res user_block blocks ([], messages) in
      Ok (flush_text text_parts messages)
  | _ => Err not_content
  end.

Definition function_call (id name : string) (input : Json) : Json :=
  JObject [("id", JString id); ("type", JString "function");
           ("function", JObject [("name", JString name); ("arguments", JString (json_string input))])].
Definition assistant_block (block : Json) (s : list string * list Json)
    : result GatewayError (list string * list Json) :=
  let '(text_parts, tool_calls) := s in
  let? block_type := block_type_of block in
  if String.eqb block_type "text" then
    let? text := text_from_text_block "message" block in Ok (text_parts ++ [text], tool_calls)
  else if String.eqb block_type "tool_use" then
    let? id := ok_or (BadRequest "`tool_use` block missing `id`") (get_str "id" block) in
    let? name := ok_or (BadRequest "`tool_use` block missing `name`") (get_str "name" block) in
    Ok (text_parts, tool_calls ++ [function_call id name (default (JObject []) (get "input" block))])
  else Err (unsupported_block block_type).
Definition assistant_message (text_parts : list string) (tool_calls : list Json) : Json :=
  let content := match text_parts with [] => JNull | _ => JString (join_lines text_parts) end in
  JObject ([("role", JString "assistant"); ("content", content)] ++
           match tool_calls with [] => [] | _ => [("tool_calls", JArray tool_calls)] end).
Definition append_assistant_message (content : Json) (messages : list Json) : result GatewayError (list Json) :=
  match content with
  | JString text => Ok (messages ++ [text_message "assistant" text])
  | JArray blocks =>
      let? (text_parts, tool_calls) := fold_res assistant_block blocks ([], []) in
      Ok (messages ++ [assistant_message text_parts tool_calls])
  | _ => Err not_content
  end.

Definition convert_tool (tool : Json) : result GatewayError Json :=
  let? _ := match get_str "type" tool with
            | Some tool_type => if String.eqb tool_type "custom" then Ok tt
                                else Err (BadRequest (quoted "Anthropic server tool " tool_type " is not supported"))
            | None => Ok tt
            end in
  let? name := ok_or (BadRequest "tool definition missing `name`") (get_str "name" tool) in
  let description := default "" (get_str "description" tool) in
  let input_schema := default (JObject [("type", JString "object")]) (get "input_schema" tool) in
  Ok (JObject [("type", JString "function");
               ("function", JObject [("name", JString name); ("description", JString description);
                                     ("parameters", input_schema)])]).
Definition convert_tools (tools : option (list Json)) : result GatewayError (option Json) :=
  match tools with
  | None => Ok None
  | Some tools => let? out := collect convert_tool tools in Ok (Some (JArray out))
  end.
Definition convert_tool_choice (tool_choice : option Json) : result GatewayError (option Json) :=
  match tool_choice with
  | None => Ok None
  | Some choice =>
      let? type := ok_or (BadRequest "tool_choice missing `type`") (get_str "type" choice) in
      if String.eqb type "auto" then Ok (Some (JString "auto"))
      else if String.eqb type "any" then Ok (Some (JString "required"))
      else if String.eqb type "none" then Ok (Some (JString "none"))
      else if String.eqb type "tool" then
        let? name := ok_or (BadRequest "tool_choice tool missing `name`") (get_str "name" choice) in
        Ok (Some (JObject [("type", JString "function"); ("function", JObject [("name", JString name)])]))
      else Err (BadRequest (quoted "unsupported Anthropic tool_choice " type ""))
  end.

(** A JSON number is an integer here, so it is finite. *)
Definition number_value (v : Z) : result GatewayError Json := Ok (JNumber v).
Definition append_message (msg : AnthropicMessageParam) (messages : list Json) : result GatewayError (list Json) :=
  if String.eqb (ap_role msg) "user" then append_user_message (ap_content msg) messages
  else if String.eqb (ap_role msg) "assistant" then append_assistant_message (ap_content msg) messages
  else Err (BadRequest (quoted "unsupported Anthropic message role " (ap_role msg) "")).
(** [if let Some(v) = o { body.insert(key, f(v)?) }]. *)
Definition insert_some {A} (key : string) (f : A -> result GatewayError Json) (o : option A) (body : list (string * Json))
    : result GatewayError (list (string * Json)) :=
  match o with
  | Some v => let? j := f v in Ok (insert_key key j body)
  | None => Ok body
  end.
Definition anthropic_to_openai (req : AnthropicMessageRequest) : result GatewayError Json :=
  let? max_tokens := ok_or (BadRequest "`max_tokens` is required") (ar_max_tokens req) in
  guard? negb (is_empty (trim (ar_model req))) else (BadRequest "`model` is required") in
  let? system := match ar_system req with Some system => text_from_system system | None => Ok None end in
  let messages := match system with Some text => [text_message "system" text] | None => [] end in
  let? messages := fold_res append_message (ar_messages req) messages in
  let body := [("model", JString (ar_model req)); ("messages", JArray messages); ("max_tokens", JNumber max_tokens);
               ("stream", JBool (default false (ar_stream req)))] in
  let? body := insert_some "temperature" number_value (ar_temperature req) body in
  let? body := insert_some "top_p" number_value (ar_top_p req) body in
  let? body := insert_some "stop" (fun stop => Ok (JArray (JString <$> stop))) (ar_stop_sequences req) body in
  let? tools := convert_tools (ar_tools req) in
  let? body := insert_some "tools" Ok tools body in
  let? tool_choice := convert_tool_choice (ar_tool_choice req) in
  let? body := insert_some "tool_choice" Ok tool_choice body in
  Ok (JObject body).

Definition estimate_anthropic_tokens (req : AnthropicMessageRequest) : Z :=
  let text_len j := Z.of_nat (length (json_text j)) in
  let bytes := Z.of_nat (String.length (ar_model req)) +
               match ar_system req with Some system => text_len system | None => 0 end +
               zsum ((fun m => Z.of_nat (String.length (ap_role m)) + text_len (ap_content m)) <$> ar_messages req) +
               zsum (text_len <$> default [] (ar_tools req)) in
  (bytes + 3) / 4 + 32.
Definition count_tokens (req : Json) : result GatewayError Json :=
  match anthropic_request_of req with
  | Some req => Ok (JObject [("input_tokens", JNumber (estimate_anthropic_tokens req))])
  | None => Err (BadRequest "invalid Anthropic request body")
  end.
End Text.

(** ** What the chunks add up to *)

Record ToolCallState : Type := mkToolCallState {
  ts_id : option string;
  ts_name : option string;
  ts_arguments : string
}.
Definition no_call : ToolCallState := mkToolCallState None None "".
Record OpenAiAccumulator : Type := mkAccumulator {
  oa_text : string;
  oa_tool_calls : gmap Z ToolCallState;
  oa_finish_reason : option string;
  oa_usage : option Json;
  oa_tokens_out : Z;
  oa_reported_tokens : option Z
}.
Definition no_chunks : OpenAiAccumulator := mkAccumulator "" ∅ None None 0 None.

Definition merge_tool_call (call : Json) (st : ToolCallState) : ToolCallState :=
  let function := get "function" call in
  mkToolCallState (or_keep (get_str "id" call) (ts_id st)) (or_keep (function ≫= get_str "name") (ts_name st))
    (ts_arguments st ++ default "" (function ≫= get_str "arguments"))%string.
Definition call_index (call : Json) : option Z := get "index" call ≫= as_u64.
(** [self.tool_calls.entry(index).or_default()], then the update. *)
Definition merge_tool_calls (tool_calls : list Json) (calls : gmap Z ToolCallState) : gmap Z ToolCallState :=
  foldl (fun calls '(fallback_idx, call) =>
    let index := default (Z.of_nat fallback_idx) (call_index call) in
    <[index := merge_tool_call call (default no_call (calls !! index))]> calls) calls (imap pair tool_calls).

Definition note_usage (usage : option Json) (acc : OpenAiAccumulator) : OpenAiAccumulator :=
  mkAccumulator (oa_text acc) (oa_tool_calls acc) (oa_finish_reason acc) (or_keep usage (oa_usage acc))
    (oa_tokens_out acc) (oa_reported_tokens acc).
Definition set_finish (reason : option string) (acc : OpenAiAccumulator) : OpenAiAccumulator :=
  mkAccumulator (oa_text acc) (oa_tool_calls acc) (or_keep reason (oa_finish_reason acc)) (oa_usage acc)
    (oa_tokens_out acc) (oa_reported_tokens acc).
Definition push_text (text : string) (counted : Z) (acc : OpenAiAccumulator) : OpenAiAccumulator :=
  mkAccumulator (oa_text acc ++ text)%string (oa_tool_calls acc) (oa_finish_reason acc) (oa_usage acc)
    (oa_tokens_out acc + counted) (oa_reported_tokens acc).
Definition push_calls (calls : option (list Json)) (acc : OpenAiAccumulator) : OpenAiAccumulator :=
  mkAccumulator (oa_text acc) (merge_tool_calls (default [] calls) (oa_tool_calls acc)) (oa_finish_reason acc)
    (oa_usage acc) (oa_tokens_out acc) (oa_reported_tokens acc).
Definition report_tokens (tokens_out : option Z) (acc : OpenAiAccumulator) : OpenAiAccumulator :=
  mkAccumulator (oa_text acc) (oa_tool_calls acc) (oa_finish_reason acc) (oa_usage acc) (oa_tokens_out acc)
    (or_keep tokens_out (oa_reported_tokens acc)).

Definition calls_in (part : Json) : option (list Json) := get "tool_calls" part ≫= as_list.
Definition observe_delta (delta : Json) (acc : OpenAiAccumulator) : OpenAiAccumulator :=
  let text := default "" (get_str "content" delta) in
  push_calls (calls_in delta) (push_text text (if is_empty text then 0 else 1) acc).
Definition observe_message (message : Json) (acc : OpenAiAccumulator) : OpenAiAccumulator :=
  push_calls (calls_in message) (push_text (default "" (get_str "content" message)) 0 acc).
Definition when_some {A B} (o : option A) (f : A -> B -> B) (b : B) : B := match o with Some a => f a b | None => b end.
Definition observe_chunk (chunk : Json) (acc : OpenAiAccumulator) : OpenAiAccumulator :=
  let acc := note_usage (usage_in chunk) acc in
  match first_choice chunk with
  | None => acc
  | Some choice =>
      when_some (get "message" choice) observe_message
        (when_some (get "delta" choice) observe_delta (set_finish (get_str "finish_reason" choice) acc))
  end.

Definition output_tokens (acc : OpenAiAccumulator) : Z :=
  let reported := (oa_usage acc ≫= get "completion_tokens") ≫= as_u64 in
  Z.max (default (oa_tokens_out acc) (or_keep reported (oa_reported_tokens acc))) 1.
Definition prompt_tokens (fallback : Z) (acc : OpenAiAccumulator) : Z :=
  default fallback ((oa_usage acc ≫= get "prompt_tokens") ≫= as_u64).
Definition has_tool_use (acc : OpenAiAccumulator) : bool := bool_decide (oa_tool_calls acc <> ∅).

Definition anthropic_stop_reason (acc : OpenAiAccumulator) : string :=
  if has_tool_use acc then "tool_use"
  else
    let reason r := bool_decide (oa_finish_reason acc = Some r) in
    if reason "length" then "max_tokens"
    else if reason "stop_sequence" then "stop_sequence"
    else if reason "tool_calls" then "tool_use"
    else "end_turn".

(** The identifiers drawn in a step: one for the message, one for each call. *)
Definition message_uuid (env : Env) : string := ("msg_" ++ e_uuid_simple env 0)%string.
Definition anthropic_id (env : Env) (index : Z) (st : ToolCallState) : string :=
  default ("toolu_" ++ e_uuid_simple env (S (Z.to_nat index)))%string (ts_id st).
Definition anthropic_name (st : ToolCallState) : string := default "tool" (ts_name st).

(** A [BTreeMap] is iterated in the order of its keys. *)
Definition index_le {A} (a b : Z * A) : Prop := a.1 <= b.1.
#[export] Instance index_le_dec {A} (a b : Z * A) : Decision (index_le a b).
Proof. unfold index_le. apply _. Defined.
Definition in_order {A} (m : gmap Z A) : list (Z * A) := merge_sort index_le (map_to_list m).

Section Message.
Context `{WireCrates}.

Definition input (st : ToolCallState) : Json :=
  if is_empty (trim (ts_arguments st)) then JObject []
  else default (JObject []) (json_parse (bytes (ts_arguments st))).

Definition text_block (text : string) : Json := JObject [("type", JString "text"); ("text", JString text)].
Definition tool_use_block (env : Env) (call : Z * ToolCallState) : Json :=
  let '(index, st) := call in
  JObject [("type", JString "tool_use"); ("id", JString (anthropic_id env index st));
           ("name", JString (anthropic_name st)); ("input", input st)].
Definition message_content (env : Env) (acc : OpenAiAccumulator) : list Json :=
  (if is_empty (oa_text acc) then [] else [text_block (oa_text acc)]) ++
  (tool_use_block env <$> in_order (oa_tool_calls acc)).
Definition build_anthropic_message (env : Env) (model_id : string) (acc : OpenAiAccumulator)
    (input_tokens_fallback : Z) : Json :=
  JObject [("id", JString (message_uuid env)); ("type", JString "message"); ("role", JString "assistant");
           ("model", JString model_id); ("content", JArray (message_content env acc));
           ("stop_reason", JString (anthropic_stop_reason acc)); ("stop_sequence", JNull);
           ("usage", JObject [("input_tokens", JNumber (prompt_tokens input_tokens_fallback acc));
                              ("output_tokens", JNumber (output_tokens acc))])].
End Message.

(** ** The stream of events *)

Inductive ContentBlock : Type :=
| TextBlock
| ToolUseBlock (id name : string).
Inductive BlockDelta : Type :=
| TextDelta (text : string)
| InputJsonDelta (partial_json : string).
Inductive StreamEvent : Type :=
| MessageStart (id model : string) (input_tokens : Z)
| ContentBlockStart (index : Z) (content_block : ContentBlock)
| ContentBlockDelta (index : Z) (delta : BlockDelta)
| ContentBlockStop (index : Z)
| MessageDelta (stop_reason : string) (input_tokens output_tokens : Z)
| MessageStop
| StreamError (error_type message : string).

(** The name of the event and its data. *)
Definition sse (e : StreamEvent) : string * Json :=
  let data name fields := (name, JObject (("type", JString name) :: fields)) in
  match e with
  | MessageStart id model input_tokens =>
      data "message_start"
        [("message", JObject [("id", JString id); ("type", JString "message"); ("role", JString "assistant");
                              ("model", JString model); ("content", JArray []); ("stop_reason", JNull);
                              ("stop_sequence", JNull);
                              ("usage", JObject [("input_tokens", JNumber input_tokens); ("output_tokens", JNumber 0)])])]
  | ContentBlockStart index block =>
      data "content_block_start"
        [("index", JNumber index);
         ("content_block",
          match block with
          | TextBlock => JObject [("type", JString "text"); ("text", JString "")]
          | ToolUseBlock id name => JObject [("type", JString "tool_use"); ("id", JString id); ("name", JString name);
                                             ("input", JObject [])]
          end)]
  | ContentBlockDelta index delta =>
      data "content_block_delta"
        [("index", JNumber index);
         ("delta",
          match delta with
          | TextDelta text => JObject [("type", JString "text_delta"); ("text", JString text)]
          | InputJsonDelta partial => JObject [("type", JString "input_json_delta"); ("partial_json", JString partial)]
          end)]
  | ContentBlockStop index => data "content_block_stop" [("index", JNumber index)]
  | MessageDelta stop_reason input_tokens output_tokens =>
      data "message_delta"
        [("delta", JObject [("stop_reason", JString stop_reason); ("stop_sequence", JNull)]);
         ("usage", JObject [("input_tokens", JNumber input_tokens); ("output_tokens", JNumber output_tokens)])]
  | MessageStop => data "message_stop" []
  | StreamError error_type message =>
      data "error" [("error", JObject [("type", JString error_type); ("message", JString message)])]
  end.

(** [Display] of [GatewayError]; [sql_text] is that of a database error. *)
Definition error_text (sql_text : SqlError -> string) (e : GatewayError) : string :=
  (match e with
   | Unauthorized m => "unauthorized: " ++ m
   | BadRequest m => "bad request: " ++ m
   | NotFound m => m
   | Forbidden m => "forbidden: " ++ m
   | Conflict m => "conflict: " ++ m
   | BudgetExhausted => "share-key budget exhausted"
   | RateLimited m => "rate limited: " ++ m
   | InsufficientCredits balance required =>
       "insufficient credits: balance " ++ show_z balance ++ ", need " ++ show_z required
   | ModelNotFound m => "model not found: " ++ m
   | NoEligibleDevice m => "no eligible device for model " ++ m
   | HeavyContention m => "heavy-hold: all eligible devices for " ++ m ++
       " are running a heavy request; retry after the incumbent finishes (#247)"
   | PromptExceedsContext model estimated ceiling =>
       "request claim (~" ++ show_z estimated ++ " tokens: prompt + completion budget) exceeds the advertised " ++
       "context ceiling (" ++ show_z ceiling ++ ") of every supplier for model " ++ model ++
       "; not dispatched and not retriable - compact the prompt, lower max_tokens, or raise the supplier ceiling"
   | Upstream m => "upstream error: " ++ m
   | AllUpstreamsFailed m => "all upstreams failed: " ++ m
   | UpstreamTimeout => "timeout waiting for upstream"
   | AtCapacity m => "model " ++ m ++ " is at capacity, retry shortly"
   | RelayUnavailable m => "relay unavailable: " ++ m
   | Other (Sql e) => sql_text e
   | Other (Bail m) => m
   end)%string.
Definition anthropic_error_event (sql_text : SqlError -> string) (err : GatewayError) : StreamEvent :=
  StreamError
    (match err with
     | BadRequest _ => "invalid_request_error"
     | Unauthorized _ => "authentication_error"
     | InsufficientCredits _ _ | BudgetExhausted => "billing_error"
     | ModelNotFound _ => "not_found_error"
     | NoEligibleDevice _ => "overloaded_error"
     | _ => "api_error"
     end) (error_text sql_text err).

Record AnthropicStreamTranslator : Type := mkTranslator {
  tr_next_content_index : Z;
  tr_text_block_index : option Z;
  tr_tool_block_indexes : gmap Z Z
}.
Definition new_translator : AnthropicStreamTranslator := mkTranslator 0 None ∅.
(** What a method leaves behind and yields. *)
Definition Yield : Type := AnthropicStreamTranslator * list StreamEvent.

Definition text_events (text : string) (tr : AnthropicStreamTranslator) : Yield :=
  if is_empty text then (tr, [])
  else
    match tr_text_block_index tr with
    | Some index => (tr, [ContentBlockDelta index (TextDelta text)])
    | None =>
        let index := tr_next_content_index tr in
        (mkTranslator (index + 1) (Some index) (tr_tool_block_indexes tr),
         [ContentBlockStart index TextBlock; ContentBlockDelta index (TextDelta text)])
    end.
(** [self.text_block_index.take()]. *)
Definition close_text (tr : AnthropicStreamTranslator) : Yield :=
  match tr_text_block_index tr with
  | Some index => (mkTranslator (tr_next_content_index tr) None (tr_tool_block_indexes tr), [ContentBlockStop index])
  | None => (tr, [])
  end.
Definition open_tool (env : Env) (call_index : Z) (st : ToolCallState) (tr : AnthropicStreamTranslator) : Yield :=
  let index := tr_next_content_index tr in
  (mkTranslator (index + 1) (tr_text_block_index tr) (<[call_index := index]> (tr_tool_block_indexes tr)),
   [ContentBlockStart index (ToolUseBlock (anthropic_id env call_index st) (anthropic_name st))]).

Definition arguments_events (call : Json) (block_index : option Z) : list StreamEvent :=
  let arguments_delta := default "" (get "function" call ≫= get_str "arguments") in
  if is_empty arguments_delta then []
  else [ContentBlockDelta (default 0 block_index) (InputJsonDelta arguments_delta)].
Definition call_events (env : Env) (acc : OpenAiAccumulator) (call : Json) (y : Yield) : Yield :=
  let '(tr, events) := y in
  let index := default 0 (call_index call) in
  match oa_tool_calls acc !! index with
  | None => y
  | Some st =>
      match tr_tool_block_indexes tr !! index, ts_name st with
      | None, Some _ =>
          let '(tr', started) := open_tool env index st tr in
          (tr', events ++ started ++ arguments_events call (Some (tr_next_content_index tr)))
      | block_index, _ => (tr, events ++ arguments_events call block_index)
      end
  end.
Definition delta_events (env : Env) (acc : OpenAiAccumulator) (delta : Json) (tr : AnthropicStreamTranslator) : Yield :=
  let '(tr, events) := text_events (default "" (get_str "content" delta)) tr in
  match calls_in delta with
  | None => (tr, events)
  | Some tool_calls =>
      let '(tr, stopped) := close_text tr in
      foldl (fun y call => call_events env acc call y) (tr, events ++ stopped) tool_calls
  end.
Definition chunk_events (env : Env) (chunk : Json) (acc : OpenAiAccumulator) (tr : AnthropicStreamTranslator) : Yield :=
  match first_choice chunk ≫= get "delta" with
  | Some delta => delta_events env acc delta tr
  | None => (tr, [])
  end.

Definition finish_call (env : Env) (y : Yield) (call : Z * ToolCallState) : Yield :=
  let '(tr, events) := y in
  let '(tool_index, st) := call in
  match tr_tool_block_indexes tr !! tool_index with
  | Some index => (tr, events ++ [ContentBlockStop index])
  | None =>
      let index := tr_next_content_index tr in
      let '(tr', started) := open_tool env tool_index st tr in
      (tr', events ++ started ++
            (if is_empty (ts_arguments st) then [] else [ContentBlockDelta index (InputJsonDelta (ts_arguments st))]) ++
            [ContentBlockStop index])
  end.
Definition finish_events (env : Env) (acc : OpenAiAccumulator) (input_tokens_fallback : Z)
    (tr : AnthropicStreamTranslator) : Yield :=
  let '(tr, events) := foldl (finish_call env) (close_text tr) (in_order (oa_tool_calls acc)) in
  (tr, events ++ [MessageDelta (anthropic_stop_reason acc) (prompt_tokens input_tokens_fallback acc) (output_tokens acc);
                  MessageStop]).

(** ** Running a request *)

(** This handler's version of the grace: a model that is loaded on one device
    has it too. *)
Definition anthropic_cold_start_grace (clk : Clock) (r : Registry) (m : CatalogModel) : bool :=
  if negb (is_large (cm_params_b m)) then false
  else
    let loaded := loaded_count clk (cm_id m) r in
    Nat.leb (if Nat.ltb 0 loaded then loaded else length (eligible_devices clk (cm_id m) r)) 1.
Definition anthropic_first_token_deadline (clk : Clock) (r : Registry) (m : CatalogModel) : Z :=
  if anthropic_cold_start_grace clk r m then request_timeout_seconds (reliability r)
  else ttft_deadline_seconds_for_model (reliability r) m.

(** The request as [Chat] runs it and the variables of the handler. *)
Record Turn : Type := mkTurn {
  tn_request : Request;
  tn_message_id : string;
  tn_input_tokens : Z;
  tn_acc : OpenAiAccumulator;
  tn_translator : AnthropicStreamTranslator;
  tn_sent_message_start : bool;
  tn_out : list StreamEvent
}.
Definition new_turn (message_id : string) (input_tokens : Z) (p : PreparedChatRequest) : Turn :=
  mkTurn (new_request p) message_id input_tokens no_chunks new_translator false [].
Definition tn_prepared (t : Turn) : PreparedChatRequest := q_prepared (tn_request t).
Definition tn_phase (t : Turn) : Phase := q_phase (tn_request t).
Definition with_request (q : Request) (t : Turn) : Turn :=
  mkTurn q (tn_message_id t) (tn_input_tokens t) (tn_acc t) (tn_translator t) (tn_sent_message_start t) (tn_out t).
Definition to_phase (ph : Phase) (t : Turn) : Turn := with_request (set_phase ph (tn_request t)) t.
Definition with_acc (acc : OpenAiAccumulator) (t : Turn) : Turn :=
  mkTurn (tn_request t) (tn_message_id t) (tn_input_tokens t) acc (tn_translator t) (tn_sent_message_start t) (tn_out t).
Definition yields (y : Yield) (t : Turn) : Turn :=
  mkTurn (tn_request t) (tn_message_id t) (tn_input_tokens t) (tn_acc t) y.1 (tn_sent_message_start t) (tn_out t ++ y.2).
Definition says (e : StreamEvent) (t : Turn) : Turn := yields (tn_translator t, [e]) t.
(** A new translator for the session that was opened. *)
Definition fresh_translator (t : Turn) : Turn :=
  mkTurn (tn_request t) (tn_message_id t) (tn_input_tokens t) (tn_acc t) new_translator false (tn_out t).
(** [message_start_event], unless it was yielded. *)
Definition start_message (t : Turn) : Turn :=
  if tn_sent_message_start t then t
  else mkTurn (tn_request t) (tn_message_id t) (tn_input_tokens t) (tn_acc t) (tn_translator t) true
         (tn_out t ++ [MessageStart (tn_message_id t) (q_model_id (tn_request t)) (tn_input_tokens t)]).

Section Run.
Context `{Crates} `{WireCrates} (powf : f64 -> f64 -> f64) (cfg : ChatConfig) (sql_text : SqlError -> string).

Definition turn_error (e : GatewayError) (t : Turn) : Turn :=
  if pr_streaming (tn_prepared t) then to_phase (Finished Streamed) (says (anthropic_error_event sql_text e) t)
  else to_phase (Finished (Failed e)) t.
(** The dispatch keeps a grace of its own, that of [chat.rs]. *)
Definition start_turn (env : Env) (t : Turn) (r : Registry) : Turn :=
  let pg := try_again (q_progress (tn_request t)) in
  let t := with_request (set_progress pg (tn_request t)) t in
  match outbound (tn_prepared t) with
  | None => turn_error (BadRequest "invalid request body") t
  | Some _ =>
      let m := q_model (tn_request t) in
      to_phase (Selecting (anthropic_cold_start_grace (e_clk env) r m)
                  (mkDispatch (pg_excluded pg) None false 0 (single_supplier_large_cold_start_grace (e_clk env) r m))) t
  end.

(** After the inner loop: [cleanup.run_now()] and the quarantine. *)
Definition close_session (env : Env) (a : Attempt) (f : Failure) (t : Turn) (r : Registry) : Registry :=
  let r := release (e_clk env) (at_node a) (q_model_id (tn_request t)) (at_heavy a) r in
  if negb (at_got_first a) && negb (at_cold_start_grace a) && negb (f_client_error f) && negb (at_beside_heavy a) &&
     negb (at_sole_supplier a)
  then quarantine (e_clk env) (at_node a) (quarantine_seconds (reliability r)) r else r.
Definition turn_failed (env : Env) (a : Attempt) (ev : SessionEvent) (t : Turn) (r : Registry) : Turn * Registry :=
  let q := tn_request t in
  let f := failure_of (at_got_first a) ev in
  let r2 := close_session env a f t r in
  if is_retriable a f (q_progress q) r then
    if at_cold_start_grace a then (to_phase Starting t, r2)
    else
      let r3 := if at_beside_heavy a then r2
                else quarantine (e_clk env) (at_node a) (quarantine_seconds (reliability r2)) r2 in
      (with_request (set_phase Starting (set_progress (exclude (at_node a) (q_progress q)) q)) t, r3)
  else if pr_streaming (tn_prepared t) then
    (to_phase (Closing a ev) (says (anthropic_error_event sql_text (stream_error ev)) t), r)
  else
    let e := if f_client_error f then BadRequest (f_message f) else AllUpstreamsFailed (f_message f) in
    (to_phase (Finished (Failed e)) t, r2).

Definition settle_success (env : Env) (t : Turn) (node : string) (s : Shared) : Shared :=
  let m := q_model (tn_request t) in
  match pr_consumer (tn_prepared t), sh_db s with
  | Some consumer, Some db =>
      let cost := cost_credits (prompt_tokens 0 (tn_acc t)) (output_tokens (tn_acc t)) (prompt_price_usd m)
                    (completion_price_usd m) in
      match settle_request (unix_secs (e_clk env)) consumer (Some node) (node_id <$> snapshot_devices (sh_reg s))
              cost (e_uuid env 0) (cm_id m) (p_db db) with
      | Ok ledger => mkShared (sh_reg s) (Some (set_p_db ledger db))
      | Err _ => s
      end
  | _, _ => s
  end.

Definition turn_chunk (env : Env) (c : Json) (a : Attempt) (t : Turn) : Turn :=
  let t := if pr_streaming (tn_prepared t) then start_message t else t in
  let t := with_acc (observe_chunk c (tn_acc t)) t in
  let t := if pr_streaming (tn_prepared t) then yields (chunk_events env c (tn_acc t) (tn_translator t)) t else t in
  to_phase (Receiving (mkAttempt (at_node a) (at_heavy a) (at_cold_start_grace a) (at_beside_heavy a)
                         (at_sole_supplier a) true)) t.
Definition turn_complete (env : Env) (reported : option Z) (a : Attempt) (t : Turn) (s : Shared) : Turn * Shared :=
  let t := with_acc (report_tokens reported (tn_acc t)) t in
  let s := with_reg (release (e_clk env) (at_node a) (q_model_id (tn_request t)) (at_heavy a) (sh_reg s)) s in
  if pr_streaming (tn_prepared t) then
    let t := start_message t in
    (to_phase (Settling (at_node a) reported)
       (yields (finish_events env (tn_acc t) (tn_input_tokens t) (tn_translator t)) t), s)
  else
    let reply := build_anthropic_message env (q_model_id (tn_request t)) (tn_acc t) (tn_input_tokens t) in
    (to_phase (Finished (Replied reply)) t, settle_success env t (at_node a) s).
Definition turn_session (env : Env) (ev : SessionEvent) (a : Attempt) (t : Turn) (s : Shared) : Turn * Shared :=
  match ev with
  | Chunk c => (turn_chunk env c a t, s)
  | Complete reported => turn_complete env reported a t s
  | _ => let '(t', r') := turn_failed env a ev t (sh_reg s) in (t', with_reg r' s)
  end.

(** [None] when the input is not one the request waits for. *)
Definition turn_step (env : Env) (i : Input) (t : Turn) (s : Shared) : option (Turn * Shared) :=
  let q := tn_request t in
  match q_phase q, i with
  | Finished _, _ => None
  | _, ClientGone => let '(q', r') := client_gone env q (sh_reg s) in Some (with_request q' t, with_reg r' s)
  | Starting, Tick => Some (start_turn env t (sh_reg s), s)
  | Selecting cold dx, Tick =>
      let '(res, r') := select powf cfg env (q_prepared q) dx (sh_reg s) in
      Some (match res with
            | Ok node => to_phase (Admitting cold dx node) t
            | Err e => turn_error e t
            end, with_reg r' s)
  | Opening _ _ _, Relay HandedOff =>
      '(q', s') ← request_step powf cfg env i q s; Some (fresh_translator (with_request q' t), s')
  | Admitting _ _ _, _ | Opening _ _ _, _ | Pausing _ _ _, _ =>
      '(q', s') ← request_step powf cfg env i q s; Some (with_request q' t, s')
  | Receiving a, Received ev => Some (turn_session env ev a t s)
  | Closing a ev, Tick =>
      Some (to_phase (Finished Streamed) t,
            with_reg (close_session env a (failure_of (at_got_first a) ev) t (sh_reg s)) s)
  | Settling node _, Tick => Some (to_phase (Finished Streamed) t, settle_success env t node s)
  | _, _ => None
  end.

(** ** The handler

    [prepare] is [prepare_chat_request_excluding] for the translated body,
    [attempt] what [run_anthropic_streaming] or [run_anthropic_buffered] answered. *)
Definition messages (fuel : nat) (principal : AuthPrincipal)
    (prepare : Json -> list string -> result GatewayError PreparedChatRequest)
    (attempt : Z -> PreparedChatRequest -> result GatewayError Json) (req : Json)
    : option (result GatewayError Json) :=
  match reject_account_session principal, anthropic_request_of req with
  | Err e, _ => Some (Err e)
  | Ok _, None => Some (Err (BadRequest "invalid Anthropic request body"))
  | Ok _, Some anthropic =>
      match anthropic_to_openai anthropic with
      | Err e => Some (Err e)
      | Ok openai_body =>
          r ← cascade fuel (prepare openai_body) (attempt (estimate_anthropic_tokens anthropic)) [];
          Some (let? (reply, _) := r in Ok reply)
      end
  end.
End Run.
