(* ===== verification/AnthropicFacts.v ===== *)
(** * What a client of the Messages endpoint sees

    A client of the Anthropic protocol reads the stream event by event and builds
    the message block by block.  The stream the gateway makes out of an OpenAI
    stream is one it accepts, and the message it builds is the one a buffered
    request is answered with. *)

From S2P Require Import Prelude Db RustStr Merkle F64 Wallet Settlement Accounts ApiKeys Registry Scheduler.
From S2P Require Import Pins Auth PinWire Catalog ChatPrepare Chat Anthropic.
From stdpp Require Import sorting.

Open Scope string_scope.
Open Scope list_scope.
Open Scope Z_scope.

(** ** The client *)

Inductive Block : Type :=
| BText (text : string)
| BTool (id name json : string).
Inductive ReadPhase : Type := Waiting | Reading | Closed | Ended | Broken.
#[export] Instance read_phase_eq : EqDecision ReadPhase.
Proof. solve_decision. Defined.
Record Client : Type := mkClient {
  cl_phase : ReadPhase;
  cl_blocks : list Block;
  cl_open : gset Z
}.
Definition new_client : Client := mkClient Waiting [] ∅.

Definition fresh_block (b : ContentBlock) : Block :=
  match b with TextBlock => BText "" | ToolUseBlock id name => BTool id name "" end.
Definition read_delta (d : BlockDelta) (b : Block) : option Block :=
  match d, b with
  | TextDelta text, BText s => Some (BText (s ++ text))
  | InputJsonDelta partial, BTool id name json => Some (BTool id name (json ++ partial))
  | _, _ => None
  end.
(** Blocks are numbered in the order they start, only an open block of the right
    kind gets a delta, every block is stopped before the message ends, and nothing
    follows the end or an error. *)
Definition read_event (cl : Client) (e : StreamEvent) : option Client :=
  let '(mkClient ph blocks open) := cl in
  match e, ph with
  | MessageStart _ _ _, Waiting => Some (mkClient Reading [] ∅)
  | ContentBlockStart i b, Reading =>
      if decide (i = Z.of_nat (length blocks))
      then Some (mkClient Reading (blocks ++ [fresh_block b]) ({[i]} ∪ open)) else None
  | ContentBlockDelta i d, Reading =>
      if decide (i ∈ open)
      then b ← blocks !! Z.to_nat i; b' ← read_delta d b; Some (mkClient Reading (<[Z.to_nat i := b']> blocks) open)
      else None
  | ContentBlockStop i, Reading => if decide (i ∈ open) then Some (mkClient Reading blocks (open ∖ {[i]})) else None
  | MessageDelta _ _ _, Reading => if decide (open = ∅) then Some (mkClient Closed blocks ∅) else None
  | MessageStop, Closed => Some (mkClient Ended blocks ∅)
  | StreamError _ _, Waiting | StreamError _ _, Reading => Some (mkClient Broken blocks open)
  | _, _ => None
  end.
Fixpoint read (l : list StreamEvent) (cl : Client) : option Client :=
  match l with [] => Some cl | e :: l => read_event cl e ≫= read l end.
Lemma read_app l1 l2 cl : read (l1 ++ l2) cl = read l1 cl ≫= read l2.
Proof. revert cl. induction l1 as [|e l1 IH]; intros cl; simpl; [done|]. destruct (read_event cl e); simpl; auto. Qed.

Definition block_text (b : Block) : string := match b with BText s => s | _ => "" end.
Definition block_tool (b : Block) : option (string * string * string) :=
  match b with BTool id name json => Some (id, name, json) | _ => None end.
Definition texts (blocks : list Block) : string := foldr (fun b s => block_text b ++ s)%string "" blocks.
Definition tools (blocks : list Block) : list (string * string * string) := omap block_tool blocks.

Lemma append_assoc (a b c : string) : ((a ++ b) ++ c = a ++ (b ++ c))%string.
Proof. induction a as [|x a IH]; [done|]. exact (f_equal (String x) IH). Qed.
Lemma append_empty (a : string) : (a ++ "" = a)%string.
Proof. induction a as [|x a IH]; [done|]. exact (f_equal (String x) IH). Qed.
Lemma texts_app l1 l2 : texts (l1 ++ l2) = (texts l1 ++ texts l2)%string.
Proof.
  unfold texts. induction l1 as [|b l1 IH]; [done|]. rewrite <- app_comm_cons. simpl foldr. by rewrite IH, append_assoc.
Qed.
Lemma texts_snoc l b : texts (l ++ [b]) = (texts l ++ block_text b)%string.
Proof. rewrite texts_app. simpl. by rewrite append_empty. Qed.
Lemma tools_app l1 l2 : tools (l1 ++ l2) = tools l1 ++ tools l2.
Proof. apply omap_app. Qed.
Lemma is_empty_spec s : is_empty s = true <-> s = "".
Proof. by destruct s. Qed.

(** ** OpenAI streams

    The first piece of a tool call carries its index, identifier and name; a later
    piece carries the index and may repeat the others. *)

Definition repeats (o known : option string) : bool := match o with None => true | Some _ => bool_decide (o = known) end.
Definition call_name (call : Json) : option string := get "function" call ≫= get_str "name".
Definition call_arguments (call : Json) : string := default "" (get "function" call ≫= get_str "arguments").
Lemma merge_tool_call_eq call st :
  merge_tool_call call st =
  mkToolCallState (or_keep (get_str "id" call) (ts_id st)) (or_keep (call_name call) (ts_name st))
    (ts_arguments st ++ call_arguments call).
Proof. done. Qed.
Definition merge_at (i : Z) (call : Json) (calls : gmap Z ToolCallState) : gmap Z ToolCallState :=
  <[i := merge_tool_call call (default no_call (calls !! i))]> calls.
Fixpoint orderly_calls (l : list Json) (calls : gmap Z ToolCallState) : bool :=
  match l with
  | [] => true
  | call :: l =>
      match call_index call with
      | None => false
      | Some i =>
          match calls !! i with
          | None => is_some (get_str "id" call) && is_some (call_name call)
          | Some st => repeats (get_str "id" call) (ts_id st) && repeats (call_name call) (ts_name st)
          end && orderly_calls l (merge_at i call calls)
      end
  end.
(** The answer comes in [delta], never in [message]. *)
Definition orderly_chunk (chunk : Json) (acc : OpenAiAccumulator) : bool :=
  match first_choice chunk with
  | None => true
  | Some choice =>
      negb (is_some (get "message" choice)) &&
      orderly_calls (default [] (get "delta" choice ≫= calls_in)) (oa_tool_calls acc)
  end.
Definition observed (chunks : list Json) : OpenAiAccumulator := foldl (fun acc c => observe_chunk c acc) no_chunks chunks.
Fixpoint orderly_from (chunks : list Json) (acc : OpenAiAccumulator) : bool :=
  match chunks with [] => true | c :: chunks => orderly_chunk c acc && orderly_from chunks (observe_chunk c acc) end.
Definition orderly (chunks : list Json) : bool := orderly_from chunks no_chunks.

Lemma orderly_from_snoc l c acc :
  orderly_from (l ++ [c]) acc = orderly_from l acc && orderly_chunk c (foldl (fun acc c => observe_chunk c acc) acc l).
Proof.
  revert acc. induction l as [|x l IH]; intros acc; simpl; [by rewrite andb_true_r|]. by rewrite IH, andb_assoc.
Qed.

(** With an index in every piece the position in the list does not matter. *)
Lemma merge_indexed l calls k :
  orderly_calls l calls = true ->
  foldl (fun calls '(fallback_idx, call) =>
    let index := default (Z.of_nat fallback_idx) (call_index call) in
    <[index := merge_tool_call call (default no_call (calls !! index))]> calls) calls (imap (fun n c => ((k + n)%nat, c)) l) =
  foldl (fun calls call => merge_at (default 0 (call_index call)) call calls) calls l.
Proof.
  revert calls k. induction l as [|call l IH]; intros calls k; simpl; [done|].
  destruct (call_index call) as [i|]; [|done]. intros [_ Ho]%andb_true_iff. simpl.
  rewrite <- (IH (merge_at i call calls) (S k)) by done. f_equal. apply imap_ext. intros n x _. simpl. f_equal. lia.
Qed.
Lemma merge_orderly l calls :
  orderly_calls l calls = true ->
  merge_tool_calls l calls = foldl (fun calls call => merge_at (default 0 (call_index call)) call calls) calls l.
Proof. intros Ho. apply (merge_indexed l calls 0 Ho). Qed.

(** What is known of a call does not change. *)
Definition same_call (st st' : ToolCallState) : Prop := ts_id st = ts_id st' /\ ts_name st = ts_name st'.
Lemma or_keep_repeats o known : repeats o known = true -> or_keep o known = known.
Proof. destruct o; simpl; [|done]. by intros ?%bool_decide_eq_true. Qed.
Lemma merge_known l calls i st :
  orderly_calls l calls = true -> calls !! i = Some st ->
  exists st', foldl (fun calls call => merge_at (default 0 (call_index call)) call calls) calls l !! i = Some st' /\
              same_call st st'.
Proof.
  revert calls st. induction l as [|call l IH]; intros calls st; simpl; [by eexists|].
  destruct (call_index call) as [j|]; [|done]. intros [Hc Ho]%andb_true_iff Hi. simpl.
  destruct (decide (i = j)) as [->|Hn].
  - rewrite Hi in Hc. apply andb_true_iff in Hc as [Hid Hname].
    destruct (IH (merge_at j call calls) (merge_tool_call call st)) as (st' & E & Hs); [done|..].
    { unfold merge_at. by rewrite lookup_insert_eq, Hi. }
    exists st'. split; [done|]. destruct Hs as [E1 E2].
    split; [rewrite <- E1|rewrite <- E2]; symmetry; by apply or_keep_repeats.
  - apply (IH _ st); [done|]. unfold merge_at. by rewrite lookup_insert_ne.
Qed.

(** ** The invariant of a stream

    [calls] and [text] are what the pieces so far add up to. *)

Definition shown (st : ToolCallState) : string * string * string :=
  (default "" (ts_id st), default "" (ts_name st), ts_arguments st).
Definition block_of (st : ToolCallState) : Block :=
  BTool (default "" (ts_id st)) (default "" (ts_name st)) (ts_arguments st).
Record tells (calls : gmap Z ToolCallState) (text : string) (tr : AnthropicStreamTranslator) (cl : Client) : Prop := {
  sw_reading : cl_phase cl = Reading;
  sw_next : tr_next_content_index tr = Z.of_nat (length (cl_blocks cl));
  sw_text : forall i, tr_text_block_index tr = Some i ->
    exists bs s, cl_blocks cl = bs ++ [BText s] /\ i = Z.of_nat (length bs);
  sw_named : forall c st, calls !! c = Some st -> is_Some (ts_id st) /\ is_Some (ts_name st);
  sw_tool : forall c st, calls !! c = Some st ->
    exists b, tr_tool_block_indexes tr !! c = Some (Z.of_nat b) /\ cl_blocks cl !! b = Some (block_of st);
  sw_known : forall c b, tr_tool_block_indexes tr !! c = Some b -> is_Some (calls !! c);
  sw_inj : forall c c' b, tr_tool_block_indexes tr !! c = Some b -> tr_tool_block_indexes tr !! c' = Some b -> c = c';
  sw_open : forall i, i ∈ cl_open cl <->
    tr_text_block_index tr = Some i \/ exists c, tr_tool_block_indexes tr !! c = Some i;
  sw_texts : texts (cl_blocks cl) = text;
  sw_tools : tools (cl_blocks cl) ≡ₚ shown ∘ snd <$> map_to_list calls
}.

Lemma tells_start : tells ∅ "" new_translator (mkClient Reading [] ∅).
Proof. split; simpl; try done. intros i. split; [by intros ?%elem_of_empty|by intros [?|[c ?]]]. Qed.

(** An open text block is the last block. *)
Lemma tells_text calls text tr cl t :
  tells calls text tr cl ->
  exists cl', read (text_events t tr).2 cl = Some cl' /\ tells calls (text ++ t) (text_events t tr).1 cl'.
Proof.
  intros Hs. unfold text_events. destruct (is_empty t) eqn:Et.
  { apply is_empty_spec in Et as ->. exists cl. rewrite append_empty. done. }
  destruct cl as [ph blocks open], tr as [next tb tt]. destruct Hs as [Hph Hn Htb Hnm Htl Hk Hi Ho Htx Hts]; simpl in *. subst ph.
  destruct tb as [i|]; simpl.
  - destruct (Htb i eq_refl) as (bs & s & -> & ->). rewrite decide_True by (apply Ho; by left).
    rewrite Nat2Z.id, list_lookup_middle by done. simpl. rewrite insert_app_r_alt, Nat.sub_diag by done. simpl.
    eexists. split; [done|]. split; simpl; try done.
    + rewrite !length_app in *. done.
    + intros i [= <-]. by exists bs, (s ++ t)%string.
    + intros c st Hc. destruct (Htl c st Hc) as (b & Hb & Hl). exists b. split; [done|].
      apply lookup_app_Some in Hl as [Hl|[Hle Hl]]; [by apply lookup_app_l_Some|].
      by destruct (b - length bs)%nat as [|[]].
    + rewrite texts_snoc in *. simpl in *. by rewrite <- Htx, append_assoc.
    + by rewrite tools_app in *.
  - rewrite decide_True by done. simpl. subst next. rewrite decide_True by set_solver.
    rewrite Nat2Z.id, list_lookup_middle by done. simpl. rewrite insert_app_r_alt, Nat.sub_diag by done. simpl.
    eexists. split; [done|]. split; simpl; try done.
    + rewrite length_app. simpl. lia.
    + intros i [= <-]. by exists blocks, t.
    + intros c st Hc. destruct (Htl c st Hc) as (b & Hb & Hl). exists b. split; [done|]. by apply lookup_app_l_Some.
    + intros i. rewrite elem_of_union, elem_of_singleton, Ho. naive_solver.
    + rewrite texts_snoc. simpl. by rewrite Htx.
    + rewrite tools_app. simpl. by rewrite app_nil_r.
Qed.

Lemma tells_close calls text tr cl :
  tells calls text tr cl ->
  exists cl', read (close_text tr).2 cl = Some cl' /\ tells calls text (close_text tr).1 cl' /\
              tr_text_block_index (close_text tr).1 = None /\ cl_blocks cl' = cl_blocks cl.
Proof.
  intros Hs. unfold close_text. destruct (tr_text_block_index tr) as [i|] eqn:Ei; [|by exists cl].
  pose proof Hs as [Hph Hn Htb Hnm Htl Hk Hi Ho Htx Hts]. destruct cl as [ph blocks open]; simpl in *. subst ph.
  rewrite decide_True by (apply Ho; by left). eexists. split; [done|]. split; [|done]. split; simpl; try done.
  intros j. rewrite elem_of_difference, elem_of_singleton, Ho, Ei. split; [naive_solver|].
  intros [?|[c Hc]]; [done|]. split; [by right; exists c|]. intros ->.
  destruct (Htb i Ei) as (bs & s & E & ->). destruct (Hk _ _ Hc) as [st Hst].
  destruct (Htl _ _ Hst) as (b & Hb & Hl). rewrite Hc in Hb. injection Hb as Hb%Nat2Z.inj. subst b.
  by rewrite E, list_lookup_middle in Hl.
Qed.

(** The permutation when one block changes with its call. *)
Lemma tools_update blocks b (calls : gmap Z ToolCallState) c st st' :
  blocks !! b = Some (block_of st) -> calls !! c = Some st ->
  tools blocks ≡ₚ shown ∘ snd <$> map_to_list calls ->
  tools (<[b := block_of st']> blocks) ≡ₚ shown ∘ snd <$> map_to_list (<[c := st']> calls).
Proof.
  intros Hb Hc Hp. apply list_elem_of_split_length in Hb as (l1 & l2 & -> & ->).
  rewrite insert_app_r_alt, Nat.sub_diag by done. simpl. rewrite tools_app in *. simpl in *.
  rewrite <- Permutation_middle in Hp. rewrite <- Permutation_middle.
  rewrite <- (insert_delete_eq calls c st'), map_to_list_insert by apply lookup_delete_eq. simpl.
  rewrite <- (insert_delete_id calls c st Hc), map_to_list_insert in Hp by apply lookup_delete_eq. simpl in Hp.
  apply Permutation_cons_inv in Hp. by rewrite Hp.
Qed.

Lemma texts_update blocks b st st' :
  blocks !! b = Some (block_of st) -> texts (<[b := block_of st']> blocks) = texts blocks.
Proof.
  intros Hb. apply list_elem_of_split_length in Hb as (l1 & l2 & -> & ->).
  rewrite insert_app_r_alt, Nat.sub_diag by done. by rewrite !texts_app.
Qed.

(** One piece of a known call: at most a delta to its block. *)
Lemma tells_more calls text tr cl c st call :
  tells calls text tr cl -> tr_text_block_index tr = None -> calls !! c = Some st ->
  repeats (get_str "id" call) (ts_id st) = true -> repeats (call_name call) (ts_name st) = true ->
  exists b cl', tr_tool_block_indexes tr !! c = Some b /\
    read (arguments_events call (Some b)) cl = Some cl' /\ tells (merge_at c call calls) text tr cl'.
Proof.
  intros Hs Hno Hc Hid Hname. pose proof Hs as [Hph Hn Htb Hnm Htl Hk Hi Ho Htx Hts].
  destruct (Htl _ _ Hc) as (b & Hb & Hl). exists (Z.of_nat b).
  set (st' := mkToolCallState (ts_id st) (ts_name st) (ts_arguments st ++ call_arguments call)).
  assert (merge_at c call calls = <[c := st']> calls) as ->.
  { unfold merge_at. rewrite Hc. simpl. rewrite merge_tool_call_eq. by rewrite (or_keep_repeats _ _ Hid), (or_keep_repeats _ _ Hname). }
  unfold arguments_events. fold (call_arguments call). destruct (is_empty (call_arguments call)) eqn:Ee.
  { apply is_empty_spec in Ee. exists cl. split; [done|]. split; [done|].
    assert (st' = st) as -> by (unfold st'; rewrite Ee, append_empty; by destruct st). by rewrite insert_id. }
  destruct cl as [ph blocks open]; simpl in *. subst ph. rewrite decide_True by (apply Ho; eauto).
  rewrite Nat2Z.id, Hl. simpl. eexists. split; [done|]. split; [done|].
  change (BTool _ _ _) with (block_of st'). split; simpl; try done.
  - by rewrite length_insert.
  - by rewrite Hno.
  - intros c' st0. destruct (decide (c' = c)) as [->|Hne]; [rewrite lookup_insert_eq; intros [= <-]; exact (Hnm c st Hc)|].
    rewrite lookup_insert_ne by done. apply Hnm.
  - intros c' st0. destruct (decide (c' = c)) as [->|Hne].
    + rewrite lookup_insert_eq. intros [= <-]. exists b. split; [done|]. apply list_lookup_insert_eq. by eapply lookup_lt_Some.
    + rewrite lookup_insert_ne by done. intros Hst. destruct (Htl _ _ Hst) as (b' & Hb' & Hl'). exists b'. split; [done|].
      rewrite list_lookup_insert_ne; [done|]. intros <-. apply Hne. by eapply Hi.
  - intros c' b'. destruct (decide (c' = c)) as [->|Hne]; [by rewrite lookup_insert_eq|].
    rewrite lookup_insert_ne by done. apply Hk.
  - by rewrite (texts_update _ _ st).
  - by apply (tools_update _ _ _ _ st).
Qed.

(** The first piece of a call: a block of its own. *)
Lemma tells_first calls text tr cl c call env stF :
  tells calls text tr cl -> tr_text_block_index tr = None -> calls !! c = None ->
  is_some (get_str "id" call) = true -> is_some (call_name call) = true ->
  same_call (merge_tool_call call no_call) stF ->
  exists cl', tr_tool_block_indexes tr !! c = None /\
    read ((open_tool env c stF tr).2 ++ arguments_events call (Some (tr_next_content_index tr))) cl = Some cl' /\
    tells (merge_at c call calls) text (open_tool env c stF tr).1 cl'.
Proof.
  intros Hs Hno Hc Hid Hname [E1 E2]. pose proof Hs as [Hph Hn Htb Hnm Htl Hk Hi Ho Htx Hts].
  destruct (get_str "id" call) as [id|] eqn:Eid; [|done]. destruct (call_name call) as [name|] eqn:Ename; [|done].
  set (st := mkToolCallState (Some id) (Some name) (call_arguments call)).
  assert (merge_tool_call call no_call = st) as Est.
  { by rewrite merge_tool_call_eq, Eid, Ename. }
  rewrite Est in E1, E2. simpl in E1, E2.
  assert (merge_at c call calls = <[c := st]> calls) as -> by (unfold merge_at; by rewrite Hc, <- Est).
  assert (tr_tool_block_indexes tr !! c = None) as Hct.
  { apply eq_None_not_Some. intros [b E]. apply Hk in E as [? E]. by rewrite Hc in E. }
  destruct cl as [ph blocks open]; simpl in *. subst ph.
  exists (mkClient Reading (blocks ++ [block_of st]) ({[Z.of_nat (length blocks)]} ∪ open)). split; [done|]. split.
  { unfold anthropic_id, anthropic_name. rewrite <- E1, <- E2, Hn, decide_True by done. simpl.
    unfold arguments_events. fold (call_arguments call). destruct (is_empty (call_arguments call)) eqn:Ee.
    { apply is_empty_spec in Ee. unfold block_of, st. simpl. by rewrite Ee. }
    simpl. rewrite decide_True by set_solver. rewrite Nat2Z.id, list_lookup_middle by done. simpl.
    by rewrite insert_app_r_alt, Nat.sub_diag by done. }
  split; simpl; try done.
  - rewrite length_app, Hn. simpl. lia.
  - by rewrite Hno.
  - intros c' st0. destruct (decide (c' = c)) as [->|Hne]; [rewrite lookup_insert_eq; by intros [= <-]|].
    rewrite lookup_insert_ne by done. apply Hnm.
  - intros c' st0. destruct (decide (c' = c)) as [->|Hne].
    + rewrite !lookup_insert_eq. intros [= <-]. exists (length blocks). rewrite Hn. split; [done|]. by apply list_lookup_middle.
    + rewrite !lookup_insert_ne by done. intros Hst. destruct (Htl _ _ Hst) as (b' & Hb' & Hl'). exists b'. split; [done|].
      by apply lookup_app_l_Some.
  - intros c' b'. destruct (decide (c' = c)) as [->|Hne]; [by rewrite !lookup_insert_eq|].
    rewrite !lookup_insert_ne by done. apply Hk.
  - assert (forall c', tr_tool_block_indexes tr !! c' <> Some (tr_next_content_index tr)) as Hfresh.
    { intros c' E. destruct (Hk _ _ E) as [st0 Hst]. destruct (Htl _ _ Hst) as (b & Hb & Hl%lookup_lt_Some).
      rewrite E in Hb. injection Hb. lia. }
    intros c1 c2 b. destruct (decide (c1 = c)) as [->|]; destruct (decide (c2 = c)) as [->|]; [done|..];
      rewrite ?lookup_insert_eq, ?lookup_insert_ne by done; try naive_solver.
  - intros i. rewrite elem_of_union, elem_of_singleton, Ho, Hno, Hn. split.
    + intros [->|[?|[c' Hc']]]; [right; exists c; by rewrite lookup_insert_eq|done|].
      right. exists c'. rewrite lookup_insert_ne; [done|]. intros <-. by rewrite Hct in Hc'.
    + intros [?|[c' Hc']]; [done|]. destruct (decide (c' = c)) as [->|Hne].
      * rewrite lookup_insert_eq in Hc'. injection Hc' as <-. by left.
      * rewrite lookup_insert_ne in Hc' by done. eauto.
  - rewrite texts_snoc. simpl. by rewrite append_empty.
  - rewrite tools_app, map_to_list_insert, Hts by done. simpl. by rewrite Permutation_app_comm.
Qed.

Definition merge_all (l : list Json) (calls : gmap Z ToolCallState) : gmap Z ToolCallState :=
  foldl (fun calls call => merge_at (default 0 (call_index call)) call calls) calls l.
(** What follows a stream the client has read. *)
Definition continues (cl0 : Client) (calls : gmap Z ToolCallState) (text : string) (y : Yield) : Prop :=
  exists cl, read y.2 cl0 = Some cl /\ tells calls text y.1 cl /\ tr_text_block_index y.1 = None.

Lemma continues_call env acc cl0 calls text y call i stF :
  continues cl0 calls text y -> call_index call = Some i ->
  match calls !! i with
  | None => is_some (get_str "id" call) && is_some (call_name call)
  | Some st => repeats (get_str "id" call) (ts_id st) && repeats (call_name call) (ts_name st)
  end = true ->
  oa_tool_calls acc !! i = Some stF -> same_call (merge_tool_call call (default no_call (calls !! i))) stF ->
  continues cl0 (merge_at i call calls) text (call_events env acc call y).
Proof.
  destruct y as [tr evs]. intros (cl & Hr & Hs & Hno) Hi Ho HF Hsame. simpl in *. unfold call_events. rewrite Hi. simpl. rewrite HF.
  destruct (calls !! i) as [st|] eqn:Ec; apply andb_true_iff in Ho as [Hid Hname].
  - destruct (tells_more _ _ _ _ _ _ _ Hs Hno Ec Hid Hname) as (b & cl' & Hb & Hr' & Hs'). rewrite Hb.
    exists cl'. simpl. by rewrite read_app, Hr.
  - destruct (tells_first _ _ _ _ _ _ env _ Hs Hno Ec Hid Hname Hsame) as (cl' & Hb & Hr' & Hs'). rewrite Hb.
    destruct Hsame as [_ E2]. rewrite merge_tool_call_eq in E2. simpl in E2.
    destruct (call_name call) as [name|]; [|done]. simpl in E2. rewrite <- E2.
    exists cl'. simpl in *. by rewrite read_app, Hr.
Qed.
Lemma continues_calls env acc cl0 text l calls y :
  continues cl0 calls text y -> orderly_calls l calls = true -> oa_tool_calls acc = merge_all l calls ->
  continues cl0 (merge_all l calls) text (foldl (fun y call => call_events env acc call y) y l).
Proof.
  revert calls y. induction l as [|call l IH]; intros calls y Hc; simpl; [done|].
  destruct (call_index call) as [i|] eqn:Ei; [|done]. intros [Ho Hl]%andb_true_iff. simpl. intros HF. apply IH; [|done..].
  destruct (merge_known l (merge_at i call calls) i (merge_tool_call call (default no_call (calls !! i))) Hl) as (stF & E & Hs).
  { apply lookup_insert_eq. }
  eapply continues_call; [done..| |exact Hs]. by rewrite HF.
Qed.

Lemma observe_orderly c acc choice :
  first_choice c = Some choice -> orderly_chunk c acc = true ->
  orderly_calls (default [] (get "delta" choice ≫= calls_in)) (oa_tool_calls acc) = true /\
  oa_tool_calls (observe_chunk c acc) = merge_all (default [] (get "delta" choice ≫= calls_in)) (oa_tool_calls acc) /\
  oa_text (observe_chunk c acc) = (oa_text acc ++ default "" (get "delta" choice ≫= get_str "content"))%string.
Proof.
  unfold orderly_chunk, observe_chunk. intros ->. intros [Hm Ho]%andb_true_iff.
  destruct (get "message" choice); [done|]. simpl. destruct (get "delta" choice) as [delta|]; simpl in *.
  - split; [done|]. split; [by apply merge_orderly|done].
  - by rewrite append_empty.
Qed.

(** A chunk of an orderly stream. *)
Lemma tells_chunk env c acc tr cl :
  tells (oa_tool_calls acc) (oa_text acc) tr cl -> orderly_chunk c acc = true ->
  let acc' := observe_chunk c acc in
  exists cl', read (chunk_events env c acc' tr).2 cl = Some cl' /\
              tells (oa_tool_calls acc') (oa_text acc') (chunk_events env c acc' tr).1 cl'.
Proof.
  intros Hs Ho acc'. unfold chunk_events. destruct (first_choice c) as [choice|] eqn:Ef; simpl; [|exists cl].
  - destruct (observe_orderly c acc choice Ef Ho) as (Hcs & HF & Ht). fold acc' in HF, Ht.
    destruct (get "delta" choice) as [delta|] eqn:Ed; simpl in *.
    + rewrite HF, Ht. unfold delta_events.
      destruct (tells_text _ _ _ _ (default "" (get_str "content" delta)) Hs) as (cl1 & Hr1 & Hs1).
      destruct (text_events _ tr) as [tr1 evs1]. simpl in *. destruct (calls_in delta) as [l|] eqn:El; [|by exists cl1].
      destruct (tells_close _ _ _ _ Hs1) as (cl2 & Hr2 & Hs2 & Hno & _). destruct (close_text tr1) as [tr2 evs2]. simpl in *.
      destruct (continues_calls env acc' cl (oa_text acc ++ default "" (get_str "content" delta)) l (oa_tool_calls acc)
                  (tr2, evs1 ++ evs2)) as (cl3 & Hr3 & Hs3 & _); [|done..|by exists cl3].
      exists cl2. simpl. by rewrite read_app, Hr1.
    + rewrite HF, Ht, append_empty. by exists cl.
  - split; [done|]. unfold acc', observe_chunk. by rewrite Ef.
Qed.

Lemma in_order_elem {A} (m : gmap Z A) c x : (c, x) ∈ in_order m <-> m !! c = Some x.
Proof. unfold in_order. rewrite merge_sort_Permutation. apply elem_of_map_to_list. Qed.
Lemma in_order_NoDup {A} (m : gmap Z A) : NoDup (in_order m).*1.
Proof. unfold in_order. rewrite merge_sort_Permutation. apply NoDup_fst_map_to_list. Qed.

(** Every block is stopped, once. *)
Lemma stop_calls env tr blocks cl0 l open evs :
  NoDup l.*1 -> (forall c, c ∈ l.*1 -> is_Some (tr_tool_block_indexes tr !! c)) ->
  (forall c c' b, tr_tool_block_indexes tr !! c = Some b -> tr_tool_block_indexes tr !! c' = Some b -> c = c') ->
  (forall i, i ∈ open <-> exists c, c ∈ l.*1 /\ tr_tool_block_indexes tr !! c = Some i) ->
  read evs cl0 = Some (mkClient Reading blocks open) ->
  read (foldl (finish_call env) (tr, evs) l).2 cl0 = Some (mkClient Reading blocks ∅).
Proof.
  intros Hnd Hb Hi. revert open evs. induction l as [|[c st] l IH]; intros open evs Ho Hr; simpl in *.
  - rewrite Hr. do 2 f_equal. apply set_eq. intros i. rewrite Ho. set_solver.
  - apply NoDup_cons in Hnd as [Hc Hnd]. destruct (Hb c) as [b Hcb]; [set_solver|]. rewrite Hcb.
    apply (IH Hnd) with (open := open ∖ {[b]}); [set_solver| |].
    + intros i. rewrite elem_of_difference, elem_of_singleton, Ho. split.
      * intros [(c' & [->|Hin]%elem_of_cons & E) Hne]; [congruence|eauto].
      * intros (c' & Hin & E). split; [exists c'; set_solver|]. intros ->. by rewrite (Hi c c' b) in Hc.
    + rewrite read_app, Hr. simpl. rewrite decide_True; [done|]. apply Ho. exists c. set_solver.
Qed.

(** The end of a stream: the message is complete. *)
Lemma tells_finish env acc fallback tr cl :
  tells (oa_tool_calls acc) (oa_text acc) tr cl ->
  read (finish_events env acc fallback tr).2 cl = Some (mkClient Ended (cl_blocks cl) ∅).
Proof.
  intros Hs. unfold finish_events. destruct (tells_close _ _ _ _ Hs) as (cl1 & Hr & Hs1 & Hno & Hbl).
  destruct (close_text tr) as [tr1 evs1]. simpl in *. pose proof Hs1 as [Hph Hn Htb Hnm Htl Hk Hi Ho Htx Hts].
  destruct cl1 as [ph blocks open]. simpl in *. subst ph.
  pose proof (stop_calls env tr1 blocks cl (in_order (oa_tool_calls acc)) open evs1) as Hstop.
  destruct (foldl _ _ _) as [tr2 evs2]. simpl in *. rewrite read_app, Hstop; [simpl; by rewrite <- Hbl|..].
  - apply in_order_NoDup.
  - intros c ([c' st] & -> & Hin)%list_elem_of_fmap. apply in_order_elem in Hin.
    destruct (Htl _ _ Hin) as (b & E & _). by exists (Z.of_nat b).
  - done.
  - intros i. rewrite Ho, Hno. split.
    + intros [?|[c Hc]]; [done|]. exists c. split; [|done]. destruct (Hk _ _ Hc) as [st Hst].
      apply list_elem_of_fmap. exists (c, st). split; [done|]. by apply in_order_elem.
    + intros (c & _ & Hc). eauto.
  - done.
Qed.

(** ** The message of the client *)

Section Assembled.
Context `{WireCrates}.

(** The content it ends up with, as a buffered answer has it. *)
Definition tool_content (env : Env) (tool : string * string * string) : Json :=
  let '(id, name, json) := tool in tool_use_block env (0, mkToolCallState (Some id) (Some name) json).
Definition assembled (env : Env) (blocks : list Block) : list Json :=
  (if is_empty (texts blocks) then [] else [text_block (texts blocks)]) ++ (tool_content env <$> tools blocks).
Definition delivered (acc : OpenAiAccumulator) (cl : Client) : Prop :=
  cl_phase cl = Ended /\ forall env, assembled env (cl_blocks cl) ≡ₚ message_content env acc.

Lemma tells_assembled env acc tr cl :
  tells (oa_tool_calls acc) (oa_text acc) tr cl -> assembled env (cl_blocks cl) ≡ₚ message_content env acc.
Proof.
  intros [_ _ _ Hnm _ _ _ _ Htx Hts]. unfold assembled, message_content. rewrite Htx. apply Permutation_app_head.
  rewrite Hts, <- list_fmap_compose. unfold in_order. rewrite merge_sort_Permutation.
  apply Permutation_refl', list_fmap_ext. intros n [c st] Hin%list_elem_of_lookup_2%elem_of_map_to_list.
  destruct (Hnm _ _ Hin) as [[id Eid] [name Ename]]. unfold tool_content. simpl.
  unfold anthropic_id, anthropic_name, input. simpl. by rewrite Eid, Ename.
Qed.
End Assembled.
