(* ===== verification/AnthropicRuns.v ===== *)
(** * Runs of a request to the Messages endpoint

    A turn in a world that others change between its steps: what a streaming
    client reads and what is billed. *)

From S2P Require Import Prelude Db RustStr Merkle F64 Wallet Settlement Accounts ApiKeys Registry Scheduler.
From S2P Require Import Pins Auth PinWire PinWireFacts Catalog ChatPrepare Chat ChatFixtures ChatRuns Anthropic AnthropicFacts.
From S2P Require Import Fixtures RegistryFacts SchedulerFacts.

Open Scope string_scope.
Open Scope list_scope.
Open Scope Z_scope.

Section Runs.
Context `{Crates} `{WireCrates} (powf : f64 -> f64 -> f64) (cfg : ChatConfig) (sql_text : SqlError -> string).

Abbreviation step := (turn_step powf cfg sql_text).

(** The trace lists the state before each step and the input of the step. *)
Inductive turn_run : Turn -> list (Turn * Input) -> Turn -> Prop :=
| turn_nil t : turn_run t [] t
| turn_snoc t0 tr t env inp s t' s' :
    turn_run t0 tr t -> step env inp t s = Some (t', s') -> turn_run t0 (tr ++ [(t, inp)]) t'.

Definition input_chunk (inp : Input) : option Json := match inp with Received (Chunk c) => Some c | _ => None end.
Definition turn_chunks (tr : list (Turn * Input)) : list Json := omap (fun x => input_chunk x.2) tr.
Lemma turn_chunks_snoc tr x : turn_chunks (tr ++ [x]) = turn_chunks tr ++ option_list (input_chunk x.2).
Proof. unfold turn_chunks. rewrite omap_app. simpl. by destruct (input_chunk x.2). Qed.

(** ** The turn as an automaton *)

(** The session ended without completing. *)
Definition failing (ev : SessionEvent) : bool := match ev with Chunk _ | Complete _ => false | _ => true end.
Inductive turn_move (t : Turn) : Input -> Turn -> Prop :=
| tm_dispatch inp q :
    dispatching (tn_phase t) = true -> dispatching (q_phase q) = true -> q_prepared q = tn_prepared t ->
    input_chunk inp = None -> turn_move t inp (with_request q t)
| tm_error q e :
    dispatching (tn_phase t) = true -> q_prepared q = tn_prepared t ->
    turn_move t Tick (turn_error sql_text e (with_request q t))
| tm_open a q :
    dispatching (tn_phase t) = true -> q_phase q = Receiving a -> at_got_first a = false ->
    q_prepared q = tn_prepared t -> turn_move t (Relay HandedOff) (fresh_translator (with_request q t))
| tm_chunk env a c : tn_phase t = Receiving a -> turn_move t (Received (Chunk c)) (turn_chunk env c a t)
| tm_complete env s a reported :
    tn_phase t = Receiving a -> turn_move t (Received (Complete reported)) (turn_complete env reported a t s).1
| tm_retry a ev q :
    tn_phase t = Receiving a -> failing ev = true -> at_got_first a = false -> q_phase q = Starting ->
    q_prepared q = tn_prepared t -> turn_move t (Received ev) (with_request q t)
| tm_stream_failed a ev e :
    tn_phase t = Receiving a -> failing ev = true -> pr_streaming (tn_prepared t) = true ->
    turn_move t (Received ev) (to_phase (Closing a ev) (says (anthropic_error_event sql_text e) t))
| tm_buffer_failed a ev e :
    tn_phase t = Receiving a -> failing ev = true -> pr_streaming (tn_prepared t) = false ->
    turn_move t (Received ev) (to_phase (Finished (Failed e)) t)
| tm_closed a ev : tn_phase t = Closing a ev -> turn_move t Tick (to_phase (Finished Streamed) t)
| tm_settled n reported : tn_phase t = Settling n reported -> turn_move t Tick (to_phase (Finished Streamed) t)
| tm_dropped : (forall o, tn_phase t <> Finished o) -> turn_move t ClientGone (to_phase (Finished Dropped) t).

Lemma turn_failed_moves env a ev t r :
  tn_phase t = Receiving a -> failing ev = true -> turn_move t (Received ev) (turn_failed sql_text env a ev t r).1.
Proof.
  intros Hph Hf. unfold turn_failed. destruct (is_retriable _ _ _ _) eqn:Hre.
  - unfold is_retriable in Hre. apply andb_true_iff in Hre as [[_ Hg%negb_true_iff]%andb_true_iff _].
    destruct (at_cold_start_grace a); simpl; by apply (tm_retry t a ev).
  - destruct (pr_streaming (tn_prepared t)) eqn:Hst; simpl; [by apply tm_stream_failed|by eapply tm_buffer_failed].
Qed.
(** The phases that [Chat] runs. *)
Lemma dispatch_moves env inp t s q' s' :
  request_step powf cfg env inp (tn_request t) s = Some (q', s') -> inp <> ClientGone ->
  match tn_phase t with Admitting _ _ _ | Opening _ _ _ | Pausing _ _ _ => True | _ => False end ->
  q_prepared q' = tn_prepared t /\ dispatching (tn_phase t) = true /\ input_chunk inp = None /\
  (inp <> Relay HandedOff -> dispatching (q_phase q') = true) /\
  (inp = Relay HandedOff -> exists a, q_phase q' = Receiving a /\ at_got_first a = false).
Proof.
  intros Hs Hg. unfold tn_phase, tn_prepared. unfold request_step in Hs.
  destruct (q_phase (tn_request t)) as [|cold dx|cold dx n|cold dx n|cold dx n|a|a ev|n rep|o] eqn:Hph; try done; intros _;
    destruct inp as [|o'|e|]; try done.
  - unfold admit_step in Hs. destruct (admit_request _ _ _ _ _) as [[|] r']; injection Hs as <- <-; done.
  - unfold relay_failed in Hs. destruct o'; [destruct (_ && _); by injection Hs as <- <-..|].
    injection Hs as <- <-. split_and!; try done. intros _. by eexists.
  - injection Hs as <- <-. done.
Qed.
Lemma turn_moves env inp t s t' s' : step env inp t s = Some (t', s') -> turn_move t inp t'.
Proof.
  intros Hs. pose proof (dispatch_moves env inp t s) as Hd. unfold turn_step in Hs.
  destruct (tn_phase t) as [|cold dx|cold dx n|cold dx n|cold dx n|a|a ev|n rep|o] eqn:Hph;
    unfold tn_phase in Hph; rewrite Hph in Hs; destruct inp as [|o'|e|]; try done;
    try (injection Hs as <- _; by apply tm_dropped; unfold tn_phase; rewrite Hph);
    try (by unfold request_step in Hs; rewrite Hph in Hs).
  - injection Hs as <- _. unfold start_turn. destruct (outbound _); [|by apply tm_error; unfold tn_phase; rewrite ?Hph].
    refine (tm_dispatch t Tick (set_phase (Selecting _ _) (set_progress _ _)) _ _ _ _); unfold tn_phase; by rewrite ?Hph.
  - destruct (select _ _ _ _ _ _) as [[n|e] r']; injection Hs as <- _.
    + apply tm_dispatch; unfold tn_phase; by rewrite ?Hph.
    + replace t with (with_request (tn_request t) t) at 2 by by destruct t. apply tm_error; unfold tn_phase; by rewrite ?Hph.
  - destruct (request_step _ _ _ _ _ _) as [[q1 s1]|]; [|done]. injection Hs as <- _.
    destruct (Hd q1 s1) as (Hp & Hdis & Hc & Hn & _); try done. apply tm_dispatch; unfold tn_phase in *; rewrite ?Hph; auto.
  - destruct (request_step _ _ _ _ _ _) as [[q1 s1]|] eqn:E; [|by destruct o'].
    destruct (Hd q1 s1) as (Hp & Hdis & Hc & Hn & Ho); try done.
    destruct o'; injection Hs as <- _; [apply tm_dispatch; unfold tn_phase in *; rewrite ?Hph; auto..|].
    destruct (Ho eq_refl) as (a & Ha & Hg). apply (tm_open t a); unfold tn_phase; by rewrite ?Hph.
  - destruct (request_step _ _ _ _ _ _) as [[q1 s1]|]; [|done]. injection Hs as <- _.
    destruct (Hd q1 s1) as (Hp & Hdis & Hc & Hn & _); try done. apply tm_dispatch; unfold tn_phase in *; rewrite ?Hph; auto.
  - unfold turn_session in Hs. pose proof (fun Hf => turn_failed_moves env a e t (sh_reg s) Hph Hf) as Hm.
    destruct e; try (destruct (turn_failed _ _ _ _ _ _); injection Hs as <- _; by apply Hm).
    + injection Hs as <- _. by apply tm_chunk.
    + assert (t' = (turn_complete env tokens_out a t s).1) as -> by (by injection Hs as ->). by apply tm_complete.
  - injection Hs as <- _. by eapply tm_closed.
  - injection Hs as <- _. by eapply tm_settled.
Qed.

(** ** What the client receives *)

Section Output.
Variable p : PreparedChatRequest.

Definition client_in (t : Turn) (P : Client -> Prop) : Prop := exists cl, read (tn_out t) new_client = Some cl /\ P cl.
(** The stream by phase, for the chunks [cs] received so far. *)
Definition stream_phase (cs : list Json) (t : Turn) : Prop :=
  let acc := observed cs in
  match tn_phase t with
  | Receiving _ =>
      if tn_sent_message_start t
      then client_in t (tells (oa_tool_calls acc) (oa_text acc) (tn_translator t))
      else cs = [] /\ tn_out t = [] /\ tn_translator t = new_translator
  | Closing _ _ => client_in t (fun cl => cl_phase cl = Broken)
  | Settling _ _ => client_in t (delivered acc)
  | Finished Streamed => client_in t (fun cl => delivered acc cl \/ cl_phase cl = Broken)
  | Finished Dropped => client_in t (fun _ => True)
  | Finished _ => False
  | _ => tn_out t = []
  end.
Definition settled_acc (cs : list Json) (acc : OpenAiAccumulator) : Prop := exists reported, acc = report_tokens reported (observed cs).
Record turn_inv (cs : list Json) (t : Turn) : Prop := {
  ti_prepared : tn_prepared t = p;
  ti_acc : match tn_phase t with
           | Settling _ _ | Finished _ => settled_acc cs (tn_acc t)
           | _ => tn_acc t = observed cs
           end;
  ti_first : match tn_phase t with
             | Receiving a => at_got_first a = false -> cs = [] /\ tn_sent_message_start t = false
             | ph => dispatching ph = true -> cs = []
             end;
  ti_stream : pr_streaming p = true -> orderly cs = true -> stream_phase cs t;
  ti_buffered : pr_streaming p = false ->
    tn_out t = [] /\
    match tn_phase t with Closing _ _ | Settling _ _ | Finished Streamed => False | _ => True end;
  ti_reply : match tn_phase t with
             | Finished (Replied reply) =>
                 exists env, reply = build_anthropic_message env (cm_id (pr_catalog_model p)) (tn_acc t) (tn_input_tokens t)
             | _ => True
             end
}.

Lemma report_none acc : report_tokens None acc = acc.
Proof. by destruct acc. Qed.
Lemma settled_now cs acc : acc = observed cs -> settled_acc cs acc.
Proof. intros ->. exists None. by rewrite report_none. Qed.
Lemma observed_snoc cs c : observed (cs ++ [c]) = observe_chunk c (observed cs).
Proof. unfold observed. by rewrite foldl_app. Qed.
Lemma orderly_snoc cs c : orderly (cs ++ [c]) = orderly cs && orderly_chunk c (observed cs).
Proof. apply orderly_from_snoc. Qed.

Lemma turn_dispatching cs t :
  turn_inv cs t -> dispatching (tn_phase t) = true ->
  cs = [] /\ tn_acc t = no_chunks /\ tn_out t = [].
Proof.
  intros [Hp Ha Hf Hs Hb _] Hd. assert (cs = []) as -> by (revert Hf Hd; by destruct (tn_phase t); auto).
  split; [done|]. split; [revert Ha; by destruct (tn_phase t)|].
  destruct (pr_streaming p); [|by apply Hb]. specialize (Hs eq_refl eq_refl). unfold stream_phase in Hs.
  by destruct (tn_phase t).
Qed.
(** A turn that has sent nothing. *)
Lemma quiet_inv t :
  tn_prepared t = p -> tn_acc t = no_chunks -> tn_out t = [] ->
  (dispatching (tn_phase t) = true \/
   (exists a, tn_phase t = Receiving a) /\ tn_sent_message_start t = false /\ tn_translator t = new_translator) ->
  turn_inv [] t.
Proof.
  intros Hp Ha Ho Hph. split; [done|..].
  - destruct Hph as [Hd|[[a ->] _]]; [|done]. by destruct (tn_phase t).
  - destruct Hph as [Hd|[[a ->] [-> _]]]; [|done]. by destruct (tn_phase t).
  - intros _ _. unfold stream_phase. destruct Hph as [Hd|[[a ->] [-> ->]]]; [|done]. by destruct (tn_phase t).
  - intros _. split; [done|]. destruct Hph as [Hd|[[a ->] _]]; [|done]. by destruct (tn_phase t).
  - destruct Hph as [Hd|[[a ->] _]]; [|done]. by destruct (tn_phase t).
Qed.
(** [message_start] is the first event. *)
Lemma start_shows cs t a :
  turn_inv cs t -> tn_phase t = Receiving a -> pr_streaming p = true -> orderly cs = true ->
  client_in (start_message t) (tells (oa_tool_calls (observed cs)) (oa_text (observed cs)) (tn_translator t)).
Proof.
  intros [_ _ _ Hs _ _] Hph Hst Ho. specialize (Hs Hst Ho). unfold stream_phase in Hs. rewrite Hph in Hs.
  unfold start_message. destruct (tn_sent_message_start t); [done|]. destruct Hs as (-> & -> & ->).
  eexists. split; [done|]. apply tells_start.
Qed.
Lemma client_more t P y (Q : Client -> Prop) :
  client_in t P -> (forall cl, P cl -> exists cl', read y.2 cl = Some cl' /\ Q cl') -> client_in (yields y t) Q.
Proof.
  intros (cl & Hr & Hp) Hy. destruct (Hy cl Hp) as (cl' & Hr' & Hq). exists cl'. simpl. by rewrite read_app, Hr.
Qed.

Lemma start_message_frame t :
  tn_request (start_message t) = tn_request t /\ tn_acc (start_message t) = tn_acc t /\
  tn_translator (start_message t) = tn_translator t /\ tn_sent_message_start (start_message t) = true /\
  tn_input_tokens (start_message t) = tn_input_tokens t.
Proof. unfold start_message. by destruct (tn_sent_message_start t) eqn:?. Qed.

Lemma turn_inv_chunk env cs t a c :
  turn_inv cs t -> tn_phase t = Receiving a -> turn_inv (cs ++ [c]) (turn_chunk env c a t).
Proof.
  intros Hi Hph. pose proof (start_shows cs t a Hi Hph) as Hshow. destruct Hi as [Hp Ha Hf Hs Hb _]. rewrite Hph in Ha.
  destruct (start_message_frame t) as (Eq & Ea & Et & Esent & _).
  unfold turn_chunk. unfold tn_prepared in *. rewrite Hp. destruct (pr_streaming p) eqn:Hst; simpl; rewrite ?Eq, Hp, Hst.
  - split; simpl; rewrite ?Hst; try done.
    + unfold tn_prepared. simpl. by rewrite Eq.
    + by rewrite Ea, Ha, observed_snoc.
    + intros _. unfold stream_phase. simpl. rewrite orderly_snoc, observed_snoc, Esent. intros [Ho Hc]%andb_true_iff.
      destruct (Hshow eq_refl Ho) as (cl & Hr & Hcl). rewrite Ea, Et, Ha.
      destruct (tells_chunk env c _ _ _ Hcl Hc) as (cl' & Hr' & Hcl'). exists cl'. simpl. rewrite read_app, Hr. done.
  - split; simpl; rewrite ?Hst; try done.
    + by rewrite Ha, observed_snoc.
    + intros _. by split; [apply Hb|].
Qed.

Lemma turn_inv_complete env s cs t a reported :
  turn_inv cs t -> tn_phase t = Receiving a -> turn_inv cs (turn_complete env reported a t s).1.
Proof.
  intros Hi Hph. pose proof (start_shows cs t a Hi Hph) as Hshow. destruct Hi as [Hp Ha Hf Hs Hb _]. rewrite Hph in Ha.
  set (acc := report_tokens reported (tn_acc t)). unfold turn_complete. fold acc.
  destruct (start_message_frame (with_acc acc t)) as (Eq & Ea & Et & Esent & _).
  unfold tn_prepared in *. simpl. rewrite Hp. destruct (pr_streaming p) eqn:Hst; simpl; (split; simpl; rewrite ?Hst; try done).
  - unfold tn_prepared. simpl. by rewrite Eq.
  - rewrite Ea. exists reported. simpl. unfold acc. by rewrite Ha.
  - intros _ Ho. unfold stream_phase. simpl. rewrite Ea, Et. simpl. destruct (Hshow eq_refl Ho) as (cl & Hr & Hcl).
    exists (mkClient Ended (cl_blocks cl) ∅). split.
    + simpl. rewrite read_app.
      assert (tn_out (start_message (with_acc acc t)) = tn_out (start_message t)) as ->.
      { unfold start_message. simpl. by destruct (tn_sent_message_start t). }
      rewrite Hr. simpl. apply tells_finish. unfold acc. by rewrite Ha.
    + split; [done|]. intros env'. exact (tells_assembled env' (observed cs) (tn_translator t) cl Hcl).
  - exists reported. unfold acc. by rewrite Ha.
  - intros _. by split; [apply Hb|].
  - exists env. unfold q_model_id, q_model. by rewrite Hp.
Qed.

(** An error ends the stream. *)
Lemma broken_after cs t a e :
  turn_inv cs t -> (dispatching (tn_phase t) = true \/ tn_phase t = Receiving a) -> pr_streaming p = true ->
  orderly cs = true -> client_in (says (anthropic_error_event sql_text e) t) (fun cl => cl_phase cl = Broken).
Proof.
  intros Hi Hph Hst Ho. unfold says. apply (client_more t (fun cl => cl_phase cl = Waiting \/ cl_phase cl = Reading)).
  - assert (tn_out t = [] -> client_in t (fun cl => cl_phase cl = Waiting \/ cl_phase cl = Reading)) as Hnil.
    { intros E. exists new_client. rewrite E. simpl. auto. }
    destruct Hph as [Hd|Hph]; [by apply Hnil, (turn_dispatching cs)|].
    destruct Hi as [_ _ _ Hs _ _]. specialize (Hs Hst Ho). unfold stream_phase in Hs. rewrite Hph in Hs.
    destruct (tn_sent_message_start t); [|by apply Hnil, Hs]. destruct Hs as (cl & Hr & Hcl). exists cl.
    split; [done|]. right. apply Hcl.
  - intros [ph blocks open] Hcl. simpl in *. destruct Hcl as [-> | ->]; by eexists.
Qed.

Lemma turn_inv_fail cs t a ev e :
  turn_inv cs t -> tn_phase t = Receiving a -> pr_streaming p = true ->
  turn_inv cs (to_phase (Closing a ev) (says (anthropic_error_event sql_text e) t)).
Proof.
  intros Hi Hph Hst. pose proof (fun Ho => broken_after cs t a e Hi (or_intror Hph) Hst Ho) as Hbr.
  destruct Hi as [Hp Ha Hf Hs Hb _]. rewrite Hph in Ha. split; simpl; by rewrite ?Hst.
Qed.
Lemma turn_inv_error cs t q e :
  turn_inv cs t -> dispatching (tn_phase t) = true -> q_prepared q = p ->
  turn_inv cs (turn_error sql_text e (with_request q t)).
Proof.
  intros Hi Hd Hq. destruct (turn_dispatching cs t Hi Hd) as (Hcs & Hacc & Hout).
  pose proof (fun Ho => broken_after cs t (mkAttempt "" false false false false false) e Hi (or_introl Hd) Ho) as Hbr.
  destruct Hi as [Hp Ha Hf Hs Hb _]. unfold turn_error, tn_prepared. simpl. rewrite Hq.
  assert (settled_acc cs (tn_acc t)) as Hset by (apply settled_now; by subst cs).
  destruct (pr_streaming p) eqn:Hst; (split; simpl; rewrite ?Hst; try done).
  intros _ Ho. destruct (Hbr eq_refl Ho) as (cl & Hr & Hcl). exists cl. auto.
Qed.
(** The stream is over, or its client is. *)
Lemma turn_inv_finish cs t o :
  turn_inv cs t -> (forall o, tn_phase t <> Finished o) ->
  (o = Dropped \/ o = Streamed /\ match tn_phase t with Closing _ _ | Settling _ _ => True | _ => False end) ->
  turn_inv cs (to_phase (Finished o) t).
Proof.
  intros Hi Hn Ho. pose proof Hi as [Hp Ha Hf Hs Hb _]. split; simpl; try done.
  - destruct (tn_phase t) eqn:E; try (by apply settled_now); done.
  - intros Hst Hor. specialize (Hs Hst Hor). unfold stream_phase in *. simpl.
    assert (o = Dropped -> client_in (to_phase (Finished o) t) (fun _ => True)) as Hdrop.
    { intros _. destruct (tn_phase t) eqn:E;
        try (exists new_client; simpl; rewrite Hs; by split); try (destruct Hs as (cl & Hr & _); by exists cl).
      - destruct (tn_sent_message_start t); [destruct Hs as (cl & Hr & _); by exists cl|].
        destruct Hs as (_ & E' & _). exists new_client. simpl. by rewrite E'.
      - by destruct (Hn o0). }
    destruct Ho as [->|[-> Hph]]; [by apply Hdrop|].
    destruct (tn_phase t); try done; destruct Hs as (cl & Hr & Hcl); exists cl; auto.
  - intros Hst. destruct (Hb Hst) as [Hout Hph]. split; [done|]. destruct Ho as [->|[-> Hph']]; [done|].
    by destruct (tn_phase t).
  - by destruct Ho as [->|[-> _]].
Qed.

Lemma turn_inv_step cs t inp t' :
  turn_inv cs t -> turn_move t inp t' -> turn_inv (cs ++ option_list (input_chunk inp)) t'.
Proof.
  intros Hi Hm. destruct Hm as [inp q Hd Hd' Hq Hc|q e Hd Hq|a q Hd Ha Hg Hq|env a c Hph|env s a reported Hph
    |a ev q Hph Hf Hg Hq Hp|a ev e Hph Hf Hst|a ev e Hph Hf Hst|a ev Hph|n reported Hph|Hn];
    try rewrite Hc; try (assert (input_chunk (Received ev) = None) as -> by by destruct ev); simpl; rewrite ?app_nil_r.
  - destruct (turn_dispatching cs t Hi Hd) as (-> & Hacc & Hout). apply quiet_inv; auto. by rewrite <- (ti_prepared _ _ Hi).
  - apply turn_inv_error; [done..|]. by rewrite <- (ti_prepared _ _ Hi).
  - destruct (turn_dispatching cs t Hi Hd) as (-> & Hacc & Hout). apply quiet_inv; auto; [by rewrite <- (ti_prepared _ _ Hi)|].
    right. split; [by exists a|done].
  - by apply turn_inv_chunk.
  - by apply turn_inv_complete.
  - pose proof Hi as [Hpr Hacc Hfi Hs Hb _]. rewrite Hph in Hacc, Hfi, Hb. destruct (Hfi Hg) as [-> Hsent].
    apply quiet_inv; auto; [by rewrite <- Hpr| |left; unfold tn_phase; simpl; by rewrite Hq].
    destruct (pr_streaming p) eqn:Hst; [|by apply Hb]. specialize (Hs eq_refl eq_refl). unfold stream_phase in Hs.
    rewrite Hph, Hsent in Hs. apply Hs.
  - apply turn_inv_fail; [done..|]. by rewrite <- (ti_prepared _ _ Hi).
  - rewrite (ti_prepared _ _ Hi) in Hst. pose proof Hi as [Hpr Hacc Hfi Hs Hb _]. rewrite Hph in Hacc.
    split; simpl; rewrite ?Hst; try done; [by apply settled_now|]. intros _. by split; [apply Hb|].
  - apply turn_inv_finish; [done|by rewrite Hph|]. right. by rewrite Hph.
  - apply turn_inv_finish; [done|by rewrite Hph|]. right. by rewrite Hph.
  - apply turn_inv_finish; auto.
Qed.

Lemma turn_inv_run id n tr t : turn_run (new_turn id n p) tr t -> turn_inv (turn_chunks tr) t.
Proof.
  intros Hr. remember (new_turn id n p) as t0. induction Hr as [t|t0 tr t env inp s t' s' Hr IH Hs]; subst.
  - by apply quiet_inv; auto.
  - rewrite turn_chunks_snoc. eapply turn_inv_step; [by apply IH|]. by eapply turn_moves.
Qed.

(** C18: What a streaming client of the Messages endpoint receives.  The upstream
    sends the chunks of an OpenAI stream in which the first piece of each tool
    call carries its index, identifier and name.  Then in every run, however often
    the request is retried, the events are ones a client of the Anthropic protocol
    accepts: [message_start] first and once, blocks numbered in the order they
    start, deltas only to open blocks of the right kind, every block stopped
    before [message_delta] and [message_stop], nothing after the end.  When the
    session completed, the client has built the message a buffered request would
    be answered with, its tool calls in some order; a failed request ends with
    one error event; and nothing is sent before a device answers. *)
Theorem stream_assembles (id : string) (n : Z) (tr : list (Turn * Input)) (t : Turn) :
  pr_streaming p = true -> turn_run (new_turn id n p) tr t -> orderly (turn_chunks tr) = true ->
  exists cl, read (tn_out t) new_client = Some cl /\
    match tn_phase t with
    | Receiving _ => tn_out t = [] \/
        cl_phase cl = Reading /\ forall env, assembled env (cl_blocks cl) ≡ₚ message_content env (observed (turn_chunks tr))
    | Settling _ _ => delivered (observed (turn_chunks tr)) cl
    | Finished Streamed => delivered (observed (turn_chunks tr)) cl \/ cl_phase cl = Broken
    | Closing _ _ => cl_phase cl = Broken
    | Finished Dropped => True
    | Finished _ => False
    | _ => tn_out t = []
    end.
Proof.
  intros Hst Hr%turn_inv_run Ho. destruct Hr as [_ _ _ Hs _ _]. specialize (Hs Hst Ho). unfold stream_phase in Hs.
  assert (tn_out t = [] -> read (tn_out t) new_client = Some new_client) as Hnil by by intros ->.
  destruct (tn_phase t) as [| | | | |a|a ev|m rep|[| | |]]; try (by exists new_client; auto); try done;
    try (destruct Hs as (cl & Hcl & Hd); by exists cl; auto).
  destruct (tn_sent_message_start t); [|exists new_client; naive_solver].
  destruct Hs as (cl & Hcl & Hd). exists cl. split; [done|]. right. split; [apply Hd|]. intros env. by eapply tells_assembled.
Qed.
End Output.

(** ** What is billed *)

(** What a step settles: the node and what its chunks added up to. *)
Definition turn_bill (x : Turn * Input) : option (string * OpenAiAccumulator) :=
  match tn_phase x.1, x.2 with
  | Settling n _, Tick => Some (n, tn_acc x.1)
  | Receiving a, Received (Complete reported) =>
      if pr_streaming (tn_prepared x.1) then None else Some (at_node a, report_tokens reported (tn_acc x.1))
  | _, _ => None
  end.
Definition turn_bills (tr : list (Turn * Input)) : list (string * OpenAiAccumulator) := omap turn_bill tr.
Lemma turn_bills_snoc tr x : turn_bills (tr ++ [x]) = turn_bills tr ++ option_list (turn_bill x).
Proof. unfold turn_bills. rewrite omap_app. simpl. by destruct (turn_bill x). Qed.
(** The sessions that completed, with the tokens their nodes reported. *)
Definition turn_completion (x : Turn * Input) : option (string * option Z) :=
  match tn_phase x.1, x.2 with
  | Receiving a, Received (Complete reported) => Some (at_node a, reported)
  | _, _ => None
  end.
Definition turn_completions (tr : list (Turn * Input)) : list (string * option Z) := omap turn_completion tr.
Lemma turn_completions_snoc tr x : turn_completions (tr ++ [x]) = turn_completions tr ++ option_list (turn_completion x).
Proof. unfold turn_completions. rewrite omap_app. simpl. by destruct (turn_completion x). Qed.

Definition ended_in (P : StreamEvent -> Prop) (t : Turn) : Prop := exists e, last (tn_out t) = Some e /\ P e.
Definition is_stream_error (e : StreamEvent) : Prop := match e with StreamError _ _ => True | _ => False end.
(** The stream ended with the usage of [acc] and [message_stop]. *)
Definition ended_with_usage (acc : OpenAiAccumulator) (t : Turn) : Prop :=
  exists l reason, tn_out t =
    l ++ [MessageDelta reason (prompt_tokens (tn_input_tokens t) acc) (output_tokens acc); MessageStop].
(** One session completed, and it is billed to its node: the chunks received and
    the count in the completion. *)
Definition turn_billed (tr : list (Turn * Input)) (acc : OpenAiAccumulator) : Prop :=
  exists n reported, turn_completions tr = [(n, reported)] /\ turn_bills tr = [(n, acc)] /\
    acc = report_tokens reported (observed (turn_chunks tr)).
Definition turn_unbilled (tr : list (Turn * Input)) : Prop := turn_bills tr = [] /\ turn_completions tr = [].
Definition turn_billing (tr : list (Turn * Input)) (t : Turn) : Prop :=
  match tn_phase t with
  | Closing _ _ => turn_unbilled tr /\ ended_in is_stream_error t
  | Settling n reported =>
      turn_bills tr = [] /\ turn_completions tr = [(n, reported)] /\
      tn_acc t = report_tokens reported (observed (turn_chunks tr)) /\ ended_with_usage (tn_acc t) t
  | Finished (Replied _) => turn_billed tr (tn_acc t)
  | Finished Streamed =>
      turn_unbilled tr /\ ended_in is_stream_error t \/ turn_billed tr (tn_acc t) /\ ended_with_usage (tn_acc t) t
  | Finished Dropped => turn_bills tr = []
  | _ => turn_unbilled tr
  end.

Lemma settle_success_reg env t n s : sh_reg (settle_success env t n s) = sh_reg s.
Proof.
  unfold settle_success. destruct (pr_consumer _), (sh_db s); try done. by destruct (settle_request _ _ _ _ _ _ _ _).
Qed.
Lemma turn_step_bill env inp t s t' s' :
  step env inp t s = Some (t', s') ->
  sh_db s' = match turn_bill (t, inp) with
             | Some (n, acc) => sh_db (settle_success env (with_acc acc t) n (with_reg (sh_reg s') s))
             | None => sh_db s
             end.
Proof.
  unfold turn_step, turn_bill, tn_phase. simpl.
  assert (forall q q' s', request_step powf cfg env inp q s = Some (q', s') -> bill (q, inp) = None -> sh_db s' = sh_db s) as Hq.
  { intros q q' s1 Hs Hb. apply step_bill in Hs. by rewrite Hb in Hs. }
  specialize (Hq (tn_request t)). unfold bill in Hq. simpl in Hq.
  destruct (q_phase (tn_request t)) as [|cold dx|cold dx n|cold dx n|cold dx n|a|a ev|n rep|o];
    destruct inp as [|o'|e|]; try done; try (by intros [= _ <-]);
    try (destruct (request_step _ _ _ _ _ _) as [[q1 s1]|]; [|done]; intros [= _ <-]; by eapply Hq).
  - by destruct (select _ _ _ _ _ _) as [[|] r']; intros [= _ <-].
  - destruct (request_step _ _ _ _ _ _) as [[q1 s1]|]; [|by destruct o']. destruct o'; intros [= _ <-]; by eapply Hq.
  - unfold turn_session. destruct e; try (destruct (turn_failed _ _ _ _ _ _); by intros [= _ <-]); [by intros [= _ <-]|].
    unfold turn_complete, tn_prepared. simpl. destruct (pr_streaming _); intros [= _ <-]; [done|]. by rewrite settle_success_reg.
  - intros [= _ <-]. rewrite settle_success_reg. by destruct s, t.
Qed.

Lemma says_ended e t : ended_in (eq e) (says e t).
Proof. exists e. simpl. by rewrite last_snoc. Qed.
Lemma finish_usage env acc n tr t : n = tn_input_tokens t ->
  ended_with_usage acc (yields (finish_events env acc n tr) t).
Proof.
  intros ->. unfold ended_with_usage, finish_events. destruct (foldl _ _ _) as [tr' evs]. simpl.
  eexists (tn_out t ++ evs), _. by rewrite <- app_assoc.
Qed.

Lemma unbilled_more tr t inp :
  turn_unbilled tr -> turn_bill (t, inp) = None -> turn_completion (t, inp) = None -> turn_unbilled (tr ++ [(t, inp)]).
Proof. intros [E1 E2] E3 E4. split; [by rewrite turn_bills_snoc, E1, E3|by rewrite turn_completions_snoc, E2, E4]. Qed.

Lemma turn_billing_step tr t inp t' :
  (forall a, tn_phase t = Receiving a -> tn_acc t = observed (turn_chunks tr)) ->
  turn_billing tr t -> turn_move t inp t' -> turn_billing (tr ++ [(t, inp)]) t'.
Proof.
  intros Hacc Hb Hm.
  assert (forall inp, dispatching (tn_phase t) = true -> turn_unbilled (tr ++ [(t, inp)])) as Hdis.
  { intros i Hd. unfold turn_billing in Hb.
    apply unbilled_more; unfold turn_bill, turn_completion; simpl; by destruct (tn_phase t). }
  assert (forall a ev, tn_phase t = Receiving a -> failing ev = true -> turn_unbilled (tr ++ [(t, Received ev)])) as Hfail.
  { intros a ev Hph Hf. unfold turn_billing in Hb. rewrite Hph in Hb.
    apply unbilled_more; [done|..]; unfold turn_bill, turn_completion; simpl; rewrite Hph; by destruct ev. }
  destruct Hm as [inp q Hd Hd' Hq Hc|q e Hd Hq|a q Hd Ha Hg Hq|env a c Hph|env s a reported Hph
    |a ev q Hph Hf Hg Hq Hp|a ev e Hph Hf Hst|a ev e Hph Hf Hst|a ev Hph|n reported Hph|Hn].
  - unfold turn_billing, tn_phase. simpl. specialize (Hdis inp Hd). by destruct (q_phase q).
  - unfold turn_error. unfold turn_billing. destruct (pr_streaming _); simpl; [|by apply Hdis].
    left. split; [by apply Hdis|]. destruct (says_ended (anthropic_error_event sql_text e) (with_request q t)) as (e' & Hl & <-).
    by exists (anthropic_error_event sql_text e).
  - unfold turn_billing, tn_phase. simpl. rewrite Ha. by apply Hdis.
  - unfold turn_billing in Hb. rewrite Hph in Hb. unfold turn_billing, turn_chunk. simpl.
    apply unbilled_more; [done|..]; unfold turn_bill, turn_completion; simpl; by rewrite Hph.
  - unfold turn_billing in Hb. rewrite Hph in Hb. destruct Hb as [Hb Hcs]. specialize (Hacc a Hph).
    assert (turn_completion (t, Received (Complete reported)) = Some (at_node a, reported)) as Hco
      by (unfold turn_completion; simpl; by rewrite Hph).
    assert (turn_chunks (tr ++ [(t, Received (Complete reported))]) = turn_chunks tr) as Hch
      by (rewrite turn_chunks_snoc; apply app_nil_r).
    set (t1 := with_acc (report_tokens reported (tn_acc t)) t).
    destruct (start_message_frame t1) as (_ & Ea & _ & _ & En).
    unfold turn_billing, turn_complete, turn_billed. fold t1. unfold tn_prepared. simpl.
    destruct (pr_streaming _) eqn:Hst; simpl; rewrite turn_bills_snoc, turn_completions_snoc, Hb, Hcs, Hco, Hch;
      unfold turn_bill, tn_prepared; simpl; rewrite Hph, Hst.
    + rewrite Ea. simpl. rewrite <- Hacc. split_and!; [done..|]. by apply finish_usage.
    + exists (at_node a), reported. simpl. by rewrite <- Hacc.
  - unfold turn_billing, tn_phase. simpl. rewrite Hq. by eapply Hfail.
  - unfold turn_billing. simpl. split; [by eapply Hfail|].
    exists (anthropic_error_event sql_text e). simpl. by rewrite last_snoc.
  - unfold turn_billing. simpl. by eapply Hfail.
  - unfold turn_billing in Hb. rewrite Hph in Hb. destruct Hb as [Hb He]. unfold turn_billing. simpl. left. split; [|done].
    apply unbilled_more; [done|..]; unfold turn_bill, turn_completion; simpl; by rewrite Hph.
  - unfold turn_billing in Hb. rewrite Hph in Hb. destruct Hb as (Hb & Hc & Ha & Hu). unfold turn_billing. simpl. right.
    split; [|done]. exists n, reported. rewrite turn_bills_snoc, turn_completions_snoc, turn_chunks_snoc, Hb, Hc.
    unfold turn_bill, turn_completion. simpl. rewrite Hph, app_nil_r. done.
  - unfold turn_billing. simpl. rewrite turn_bills_snoc.
    assert (turn_bill (t, ClientGone) = None) as -> by (unfold turn_bill; simpl; by destruct (tn_phase t)).
    unfold turn_billing in Hb. destruct (tn_phase t) as [| | | | | | | |o]; try (by destruct Hb as [-> _]);
      [by destruct Hb as ((-> & _) & _)|by destruct (Hn o)].
Qed.
Lemma turn_billing_run id n p tr t : turn_run (new_turn id n p) tr t -> turn_billing tr t.
Proof.
  intros Hr. remember (new_turn id n p) as t0. induction Hr as [t|t0 tr t env inp s t' s' Hr IH Hs]; subst; [done|].
  apply turn_billing_step; [|by apply IH|by eapply turn_moves].
  intros a Hph. pose proof (turn_inv_run p id n tr t Hr) as [_ Ha _ _ _ _]. by rewrite Hph in Ha.
Qed.

(** C19: Who is billed for a request to the Messages endpoint, and when.  A step
    changes the database only by settling the cost of the prompt and output
    tokens of the totals in [turn_bill], for the node that served, if the request has a
    consumer, the gateway a database, and the ledger accepts; its errors are dropped.
    In every run at most one session completes, and only that is billed, at most
    once, to its node, for the totals of all chunks received and the count in its
    completion.  A request that is answered in one piece has been billed when it
    is, for the very totals the answer is built from; a stream has been billed
    if it ended with [message_stop], for the output tokens its [message_delta]
    tells, and not at all if it ended with an error; a request that failed, is
    under way or was dropped has not been billed. *)
Theorem messages_billed_once (p : PreparedChatRequest) (id : string) (n : Z) (tr : list (Turn * Input)) (t : Turn) :
  turn_run (new_turn id n p) tr t ->
  (forall env inp s t' s', step env inp t s = Some (t', s') ->
     sh_db s' =
     match turn_bill (t, inp), pr_consumer (tn_prepared t), sh_db s with
     | Some (node, acc), Some consumer, Some db =>
         let m := pr_catalog_model (tn_prepared t) in
         let cost := cost_credits (prompt_tokens 0 acc) (output_tokens acc) (prompt_price_usd m) (completion_price_usd m) in
         match settle_request (unix_secs (e_clk env)) consumer (Some node) (node_id <$> snapshot_devices (sh_reg s'))
                 cost (e_uuid env 0) (cm_id m) (p_db db) with
         | Ok ledger => Some (set_p_db ledger db)
         | Err _ => Some db
         end
     | _, _, _ => sh_db s
     end) /\
  (turn_bills tr = [] \/ exists acc, turn_billed tr acc) /\
  match tn_phase t with
  | Finished (Replied reply) =>
      exists acc env, turn_billed tr acc /\
        reply = build_anthropic_message env (cm_id (pr_catalog_model p)) acc (tn_input_tokens t)
  | Finished Streamed =>
      turn_bills tr = [] /\ ended_in is_stream_error t \/
      exists acc, turn_billed tr acc /\ ended_with_usage acc t
  | _ => turn_bills tr = []
  end.
Proof.
  intros Hr. split.
  { intros env inp s t' s' Hs. apply turn_step_bill in Hs as ->. destruct (turn_bill (t, inp)) as [[node acc]|]; [|done].
    unfold settle_success, q_model, tn_prepared. simpl. destruct (pr_consumer _) as [c|]; [|done].
    destruct (sh_db s) as [db|] eqn:E; simpl; [|done]. by destruct (settle_request _ _ _ _ _ _ _ _). }
  pose proof (turn_inv_run p id n tr t Hr) as [_ _ _ _ _ Hrep]. apply turn_billing_run in Hr.
  unfold turn_billing, turn_unbilled in Hr. destruct (tn_phase t) as [| | | | | | | |[|reply| |]]; try (split; [left|]; tauto).
  - destruct Hr as [[[? ?] ?]|[Hb Hu]]; [split; [by left|by left]|]. split; right; eauto.
  - destruct Hrep as [env Hrep]. split; [right|]; eauto.
Qed.
End Runs.

(** ** Concrete runs *)

Definition no_text (e : SqlError) : string := "database error".
Definition toy_turn_step : Env -> Input -> Turn -> Shared -> option (Turn * Shared) :=
  @turn_step toy_crates toy_wire toy_powf toy_chat_config no_text.
Definition toy_turn_run : Turn -> list (Turn * Input) -> Turn -> Prop :=
  @turn_run toy_crates toy_wire toy_powf toy_chat_config no_text.
Fixpoint turn_steps (inputs : list Input) (tr : list (Turn * Input)) (t : Turn) (s : Shared)
    : option (list (Turn * Input) * Turn * Shared) :=
  match inputs with
  | [] => Some (tr, t, s)
  | i :: inputs =>
      match toy_turn_step (toy_env 2) i t s with
      | Some (t', s') => turn_steps inputs (tr ++ [(t, i)]) t' s'
      | None => None
      end
  end.
Lemma turn_steps_run inputs t0 tr t s tr' t' s' :
  toy_turn_run t0 tr t -> turn_steps inputs tr t s = Some (tr', t', s') -> toy_turn_run t0 tr' t'.
Proof.
  revert tr t s. induction inputs as [|i inputs IH]; intros tr t s Hr; simpl; [by intros [= <- <- _]|].
  destruct (toy_turn_step _ _ _ _) as [[t1 s1]|] eqn:E; [|done]. apply IH. eapply turn_snoc; [exact Hr|exact E].
Qed.
Definition toy_turn (stream : bool) : Turn := new_turn "msg_1" 40 (toy_prepared 100 stream).
Definition turn_end (stream : bool) (inputs : list Input) : list (Turn * Input) * Turn * Shared :=
  default ([], toy_turn stream, toy_world) (turn_steps inputs [] (toy_turn stream) toy_world).
Lemma turn_end_run stream inputs :
  is_some (turn_steps inputs [] (toy_turn stream) toy_world) = true ->
  toy_turn_run (toy_turn stream) (turn_end stream inputs).1.1 (turn_end stream inputs).1.2.
Proof.
  unfold turn_end. destruct (turn_steps _ _ _ _) as [[[tr t] s]|] eqn:E; [intros _|done].
  eapply turn_steps_run; [apply turn_nil|exact E].
Qed.

Definition delta_chunk (fields : list (string * Json)) : Json :=
  JObject [("choices", JArray [JObject [("delta", JObject fields)]])].
Definition call_piece (fields : list (string * Json)) (function : list (string * Json)) : Json :=
  JObject (fields ++ [("function", JObject function)]).
Definition calls_chunk (calls : list Json) : Json := delta_chunk [("tool_calls", JArray calls)].
(** A text, then a call in two pieces. *)
Definition weather_chunks : list Json :=
  [toy_chunk "Let me look.";
   calls_chunk [call_piece [("index", JNumber 0); ("id", JString "call_1")] [("name", JString "weather"); ("arguments", JString "{")]];
   calls_chunk [call_piece [("index", JNumber 0)] [("arguments", JString "}")]]].
Definition served_inputs (chunks : list Json) : list Input :=
  dispatched ++ ((Received ∘ Chunk) <$> chunks) ++ [Received (Complete (Some 7))].

Definition streamed_turn : list (Turn * Input) * Turn * Shared := turn_end true (served_inputs weather_chunks ++ [Tick]).
Definition replied_turn : list (Turn * Input) * Turn * Shared := turn_end false (served_inputs weather_chunks).
Lemma streamed_turn_run : toy_turn_run (toy_turn true) streamed_turn.1.1 streamed_turn.1.2.
Proof. apply turn_end_run. vm_compute. done. Qed.
Lemma replied_turn_run : toy_turn_run (toy_turn false) replied_turn.1.1 replied_turn.1.2.
Proof. apply turn_end_run. vm_compute. done. Qed.

Lemma stream_assembles_witness :
  length (tn_out streamed_turn.1.2) = 10%nat /\
  exists cl, read (tn_out streamed_turn.1.2) new_client = Some cl /\ cl_phase cl = Ended /\
    assembled (H := toy_wire) (toy_env 2) (cl_blocks cl) ≡ₚ message_content (H := toy_wire) (toy_env 2) (observed weather_chunks).
Proof.
  split; [vm_compute; done|].
  assert (orderly (turn_chunks streamed_turn.1.1) = true) as Ho by (vm_compute; done).
  destruct (@stream_assembles toy_crates toy_wire toy_powf toy_chat_config no_text (toy_prepared 100 true) "msg_1" 40
              streamed_turn.1.1 streamed_turn.1.2 eq_refl streamed_turn_run Ho) as (cl & Hr & Hd).
  exists cl. split; [exact Hr|].
  assert (tn_phase streamed_turn.1.2 = Finished Streamed) as Hph by (vm_compute; done). rewrite Hph in Hd.
  assert (turn_chunks streamed_turn.1.1 = weather_chunks) as Hc by (vm_compute; done). rewrite Hc in Hd.
  assert (cl_phase <$> read (tn_out streamed_turn.1.2) new_client = Some Ended) as He by (vm_compute; done).
  rewrite Hr in He. destruct Hd as [[Hend Hd]|Hd]; [split; [exact Hend|apply Hd]|]. simpl in He. rewrite Hd in He. discriminate.
Defined.
Lemma messages_billed_once_witness :
  exists acc, turn_billed streamed_turn.1.1 acc /\ output_tokens acc = 7 /\
    ended_with_usage acc streamed_turn.1.2.
Proof.
  destruct (@messages_billed_once toy_crates toy_wire toy_powf toy_chat_config no_text (toy_prepared 100 true) "msg_1" 40
           streamed_turn.1.1 streamed_turn.1.2 streamed_turn_run) as (_ & _ & Hw).
  assert (tn_phase streamed_turn.1.2 = Finished Streamed) as Hph by (vm_compute; done). rewrite Hph in Hw.
  assert (output_tokens ∘ snd <$> turn_bills streamed_turn.1.1 = [7]) as E by (vm_compute; done).
  destruct Hw as [[Hb _]|(acc & Hb & Hu)]; [rewrite Hb in E; discriminate E|].
  exists acc. split; [exact Hb|]. split; [|exact Hu]. destruct Hb as (n & reported & _ & Hb & _). rewrite Hb in E.
  injection E as E. exact E.
Defined.

(** What a client makes of a completed stream. *)
Definition client_of (chunks : list Json) : option Client :=
  read (tn_out (turn_end true (served_inputs chunks)).1.2) new_client.
Definition buffered_acc (chunks : list Json) : OpenAiAccumulator := tn_acc (turn_end false (served_inputs chunks)).1.2.

(** Arguments that come before the name of their tool are sent as a delta of
    block 0, here one that never started: a client cannot read the stream.  A
    buffered request is answered with the call. *)
Theorem arguments_before_name_break_stream :
  let chunks := [calls_chunk [call_piece [("index", JNumber 0); ("id", JString "call_1")] [("arguments", JString "{")]];
                 calls_chunk [call_piece [("index", JNumber 0)] [("name", JString "weather"); ("arguments", JString "}")]]] in
  client_of chunks = None /\ in_order (oa_tool_calls (buffered_acc chunks)) =
    [(0, mkToolCallState (Some "call_1") (Some "weather") "{}")].
Proof. vm_compute. done. Qed.
(** Two calls without an index: the accumulator keeps them apart by position, the
    stream writes the arguments of both to the first block. *)
Theorem unindexed_calls_share_a_block :
  let piece id name args := call_piece [("id", JString id)] [("name", JString name); ("arguments", JString args)] in
  let chunks := [calls_chunk [piece "call_1" "weather" "1"; piece "call_2" "clock" "2"]] in
  (tools ∘ cl_blocks <$> client_of chunks) = Some [("call_1", "weather", "12"); ("call_2", "clock", "2")] /\
  in_order (oa_tool_calls (buffered_acc chunks)) =
    [(0, mkToolCallState (Some "call_1") (Some "weather") "1"); (1, mkToolCallState (Some "call_2") (Some "clock") "2")].
Proof. vm_compute. done. Qed.
(** A text that comes as [message] is part of a buffered answer and billed, but
    never streamed. *)
Theorem message_text_not_streamed :
  let chunks := [JObject [("choices", JArray [JObject [("message", JObject [("content", JString "hello")])]])]] in
  cl_blocks <$> client_of chunks = Some [] /\ oa_text (buffered_acc chunks) = "hello".
Proof. vm_compute. done. Qed.
(** A full queue quarantines the device on this endpoint, streaming or not. *)
Theorem messages_queue_full_quarantines :
  let full := Received (SessionError "busy" (Some "queuefull")) in
  let after stream := quarantined_until <$> snapshot_devices (sh_reg (turn_end stream (dispatched ++ [full])).2) in
  after true = [Some (from_secs 32)] /\ after false = [Some (from_secs 32)].
Proof. vm_compute. done. Qed.
