(* ===== verification/AnthropicRequests.v ===== *)
(** * Requests of the Messages endpoint, translated

    What [anthropic_to_openai] makes of a request is a chat request, and an answer
    that a client sends back as part of the conversation is understood. *)

From S2P Require Import Prelude Db RustStr Merkle F64 Wallet Settlement Accounts ApiKeys Registry Scheduler.
From S2P Require Import Pins Auth PinWire PinWireFacts Catalog ChatPrepare Chat ChatFixtures Anthropic AnthropicFacts.
From S2P Require Import Fixtures.
From stdpp Require Import sorting.

Open Scope string_scope.
Open Scope list_scope.
Open Scope Z_scope.

(** ** The messages *)

Definition openai_roles : list string := ["system"; "user"; "assistant"; "tool"].
Definition openai_message (j : Json) : Prop := exists m, message_of j = Some m /\ msg_role m ∈ openai_roles.

Section Translated.
Context `{WireCrates}.

Lemma text_message_ok role text : role ∈ openai_roles -> openai_message (text_message role text).
Proof. intros Hr. by exists (mkApiMessage role (JString text)). Qed.
Lemma flush_text_ok parts messages :
  Forall openai_message messages -> Forall openai_message (flush_text parts messages).
Proof.
  intros Hm. destruct parts; [done|]. apply Forall_app. split; [done|]. apply Forall_singleton, text_message_ok. set_solver.
Qed.
Lemma assistant_message_ok parts calls : openai_message (assistant_message parts calls).
Proof.
  unfold assistant_message. destruct parts as [|t parts], calls as [|c calls];
    eexists; (split; [reflexivity|]); simpl; set_solver.
Qed.
Lemma user_block_ok block s s' :
  user_block block s = Ok s' -> Forall openai_message s.2 -> Forall openai_message s'.2.
Proof.
  destruct s as [parts messages]. unfold user_block. destruct (block_type_of block) as [ty|]; [|done].
  destruct (String.eqb ty "text").
  { destruct (text_from_text_block _ _); [|done]. by intros [= <-]. }
  destruct (String.eqb ty "tool_result"); [|done]. destruct (ok_or _ _) as [id|]; [|done].
  destruct (text_from_tool_result_content _) as [text|]; [|done]. intros [= <-] Hm. simpl. apply Forall_app.
  split; [by apply flush_text_ok|]. apply Forall_singleton. exists (mkApiMessage "tool" (JString text)). split; [done|]. set_solver.
Qed.
Lemma append_message_ok msg messages messages' :
  append_message msg messages = Ok messages' -> Forall openai_message messages -> Forall openai_message messages'.
Proof.
  unfold append_message. intros E Hm. destruct (String.eqb _ "user").
  - unfold append_user_message in E. destruct (ap_content msg); try done.
    + injection E as <-. apply Forall_app. split; [done|]. apply Forall_singleton, text_message_ok. set_solver.
    + destruct (fold_res _ _ _) as [[parts ms]|] eqn:Ef; [|done]. injection E as <-. apply flush_text_ok.
      eapply (fold_res_ind _ (fun s => Forall openai_message s.2)) in Ef; [done| |done]. intros; by eapply user_block_ok.
  - destruct (String.eqb _ "assistant"); [|done]. unfold append_assistant_message in E. destruct (ap_content msg); try done.
    + injection E as <-. apply Forall_app. split; [done|]. apply Forall_singleton, text_message_ok. set_solver.
    + destruct (fold_res _ _ _) as [[parts calls]|]; [|done]. injection E as <-. apply Forall_app. split; [done|].
      apply Forall_singleton, assistant_message_ok.
Qed.
Lemma messages_read l :
  Forall openai_message l -> exists ms, mapM message_of l = Some ms /\ Forall (fun m => msg_role m ∈ openai_roles) ms.
Proof.
  induction 1 as [|j l (m & Em & Hr) _ (ms & Ems & Hms)]; simpl; [by exists []|].
  exists (m :: ms). rewrite Em. simpl. rewrite Ems. auto.
Qed.

(** ** The body *)

Lemma mapM_strings l : mapM as_string (JString <$> l) = Some l.
Proof. by apply mapM_fmap_Some. Qed.
Lemma convert_tools_shape tools o :
  convert_tools tools = Ok o -> match o with None => tools = None | Some j => is_some tools = true /\ exists out, j = JArray out end.
Proof. unfold convert_tools. destruct tools as [l|]; [|by intros [= <-]]. destruct (collect _ _); [|done]. intros [= <-]. split; [done|by eexists]. Qed.
Lemma convert_tool_choice_shape choice o :
  convert_tool_choice choice = Ok o ->
  match o with None => choice = None | Some (JString _) | Some (JObject _) => is_some choice = true | Some _ => False end.
Proof.
  unfold convert_tool_choice. destruct choice as [j|]; [|by intros [= <-]]. destruct (ok_or _ _) as [ty|]; [|done].
  repeat (destruct (String.eqb _ _); [by intros [= <-]|]). destruct (String.eqb _ _); [|done].
  destruct (ok_or _ _); [|done]. by intros [= <-].
Qed.

Lemma max_tokens_typed j req mt :
  anthropic_request_of j = Some req -> ar_max_tokens req = Some mt -> as_u32 (JNumber mt) = Some mt.
Proof.
  destruct j as [| | | | |o]; try done. unfold anthropic_request_of. simpl.
  destruct (required "model" as_string o) as [model|]; simpl; [|done].
  destruct (opt_field "max_tokens" as_u32 o) as [m|] eqn:E; simpl; [|done].
  destruct (required "messages" _ o); simpl; [|done]. destruct (opt_field "system" _ o); simpl; [|done].
  destruct (opt_field "stop_sequences" _ o); simpl; [|done]. destruct (opt_field "temperature" _ o); simpl; [|done].
  destruct (opt_field "top_p" _ o); simpl; [|done]. destruct (opt_field "stream" _ o); simpl; [|done].
  destruct (opt_field "tools" _ o); simpl; [|done]. destruct (opt_field "tool_choice" _ o); simpl; [|done].
  intros [= <-]. simpl. intros ->. unfold opt_field, defaulted in E. destruct (field _ o) as [v|]; [|done].
  destruct v as [| |z| | |]; simpl in E; try done. unfold as_u32 in *. destruct (_ && _) eqn:Eb; [|done].
  injection E as <-. by rewrite Eb.
Qed.

Lemma request_of_fields o model ms temperature top_p max_tokens stream stop presence frequency tools choice seed user :
  opt_field "model" as_string o = Some model -> required "messages" (as_array message_of) o = Some ms ->
  opt_field "temperature" as_number o = Some temperature -> opt_field "top_p" as_number o = Some top_p ->
  opt_field "max_tokens" as_u32 o = Some max_tokens -> opt_field "stream" as_bool o = Some stream ->
  opt_field "stop" (as_array as_string) o = Some stop -> opt_field "presence_penalty" as_number o = Some presence ->
  opt_field "frequency_penalty" as_number o = Some frequency -> opt_field "tools" any_value o = Some tools ->
  opt_field "tool_choice" any_value o = Some choice -> opt_field "seed" as_i64 o = Some seed ->
  opt_field "user" as_string o = Some user ->
  request_of (JObject o) = Some (mkChatCompletionRequest model ms max_tokens stream tools choice).
Proof. unfold request_of. by intros -> -> -> -> -> -> -> -> -> -> -> -> ->. Qed.

(** C38: Every Anthropic request that can be translated becomes a chat request.
    What [anthropic_to_openai] makes of a well-typed request always deserializes
    as a chat request, for the same model, with the caller's [max_tokens] and
    [stream], with tools and a tool choice exactly when the caller gave them, and
    with no message whose role is not OpenAI's. *)
Theorem translated_request_valid (j : Json) (req : AnthropicMessageRequest) (body : Json) :
  anthropic_request_of j = Some req -> anthropic_to_openai req = Ok body ->
  exists r, request_of body = Some r /\ cr_model r = Some (ar_model req) /\ cr_max_tokens r = ar_max_tokens req /\
    is_Some (ar_max_tokens req) /\ cr_stream r = Some (default false (ar_stream req)) /\
    is_some (cr_tools r) = is_some (ar_tools req) /\ is_some (cr_tool_choice r) = is_some (ar_tool_choice req) /\
    Forall (fun m => msg_role m ∈ openai_roles) (cr_messages r).
Proof.
  intros Hreq. unfold anthropic_to_openai. destruct (ar_max_tokens req) as [mt|] eqn:Emt; [|done]. simpl.
  assert (as_u32 (JNumber mt) = Some mt) as Hmt by by eapply max_tokens_typed.
  destruct (negb _); [|done]. destruct (match ar_system req with Some _ => _ | None => _ end) as [system|]; [|done].
  destruct (fold_res append_message _ _) as [messages|] eqn:Em; [|done].
  assert (Forall openai_message messages) as Hm.
  { eapply (fold_res_ind _ (Forall openai_message)) in Em; [done| |].
    - intros; by eapply append_message_ok.
    - destruct system; [|done]. apply Forall_singleton, text_message_ok. set_solver. }
  destruct (messages_read _ Hm) as (ms & Ems & Hroles).
  destruct (convert_tools _) as [tools|] eqn:Et; [|by destruct (ar_temperature req), (ar_top_p req), (ar_stop_sequences req)].
  destruct (convert_tool_choice _) as [choice|] eqn:Ec.
  2: by destruct (ar_temperature req), (ar_top_p req), (ar_stop_sequences req), tools.
  apply convert_tools_shape in Et. apply convert_tool_choice_shape in Ec.
  destruct (ar_temperature req), (ar_top_p req), (ar_stop_sequences req), tools as [tools|], choice as [choice|]; simpl;
    intros [= <-];
    try match type of Et with _ /\ _ => destruct Et as [Et [out ->]] end; try (destruct choice as [| | | | |]; try done);
    try (rewrite Et); try (rewrite Ec);
    (eexists; split;
     [eapply request_of_fields;
      first [exact Ems|exact (f_equal (fmap Some) Hmt)|exact (f_equal (fmap Some) (mapM_strings _))|reflexivity]
     |rewrite ?Et, ?Ec; by split_and!]).
Qed.

(** ** An answer sent back *)

(** A call of the assistant, as OpenAI's conversations have it, with the text of
    its arguments; a call the upstream gave no identifier or name has the ones
    the answer made up for it. *)
Definition said_call (env : Env) (arguments : Z -> string) (call : Z * ToolCallState) : Json :=
  JObject [("id", JString (default ("toolu_" ++ e_uuid_simple env (S (Z.to_nat call.1)))%string (ts_id call.2)));
           ("type", JString "function");
           ("function", JObject [("name", JString (default "tool" (ts_name call.2)));
                                 ("arguments", JString (arguments call.1))])].
(** The assistant's message: its text or nothing, and its calls if it has any. *)
Definition said (text : string) (calls : list Json) : Json :=
  JObject (("role", JString "assistant") ::
           ("content", if String.eqb text "" then JNull else JString text) ::
           (if Nat.eqb (length calls) 0 then [] else [("tool_calls", JArray calls)])).
(** What the arguments of an upstream's call mean: nothing, or nothing that is
    JSON, means an empty object. *)
Definition meaning (arguments : string) : Json :=
  if String.eqb (trim arguments) "" then JObject [] else default (JObject []) (json_parse (bytes arguments)).

Lemma replay_calls env arguments l parts calls :
  (forall i st, (i, st) ∈ l -> arguments i = json_string (input st)) ->
  fold_res assistant_block (tool_use_block env <$> l) (parts, calls) = Ok (parts, calls ++ (said_call env arguments <$> l)).
Proof.
  intros Hl. revert calls. induction l as [|[i st] l IH]; intros calls; simpl; [by rewrite app_nil_r|].
  rewrite IH by (intros; apply Hl; by right). rewrite <- app_assoc. unfold said_call. simpl.
  by rewrite (Hl i st) by by left.
Qed.
Lemma json_string_parses `{!Crates} `{!WireLaws} j : json_parse (bytes (json_string j)) = Some j.
Proof. unfold json_string. rewrite bytes_of_bytes. apply json_parse_text. Qed.
Lemma is_empty_eqb s : is_empty s = String.eqb s "".
Proof. by destruct s. Qed.
Lemma said_message text calls :
  assistant_message (if is_empty text then [] else [text]) calls = said text calls.
Proof. unfold assistant_message, said. rewrite is_empty_eqb. destruct (String.eqb text ""), calls; done. Qed.

(** C39: A client can send an answer back.  The content of an answer, put into the
    conversation as the assistant's message, translates to one OpenAI message:
    with the text of the answer, or null if it has none, and the calls of the
    answer, if there are any, in the order of their indices, under the
    identifiers and names the answer gave them; the arguments of each are a JSON
    text of what the upstream's arguments meant.  The message reads as a chat
    message of the assistant. *)
Theorem answer_can_be_replayed `{!Crates} `{!WireLaws} (env : Env) (acc : OpenAiAccumulator) (messages : list Json) :
  exists (calls : list (Z * ToolCallState)) (arguments : Z -> string),
    calls ≡ₚ map_to_list (oa_tool_calls acc) /\ StronglySorted (fun a b => a.1 <= b.1) calls /\
    (forall i st, oa_tool_calls acc !! i = Some st -> json_parse (bytes (arguments i)) = Some (meaning (ts_arguments st))) /\
    append_assistant_message (JArray (message_content env acc)) messages =
      Ok (messages ++ [said (oa_text acc) (said_call env arguments <$> calls)]) /\
    msg_role <$> message_of (said (oa_text acc) (said_call env arguments <$> calls)) = Some "assistant".
Proof.
  set (arguments := fun i => default "" ((fun st => json_string (input st)) <$> oa_tool_calls acc !! i)).
  assert (forall i st, (i, st) ∈ in_order (oa_tool_calls acc) -> arguments i = json_string (input st)) as Harg
    by (intros i st Hi%in_order_elem; subst arguments; simpl; by rewrite Hi).
  exists (in_order (oa_tool_calls acc)), arguments.
  split; [apply merge_sort_Permutation|]. split.
  { assert (Transitive (@index_le ToolCallState)) by (intros a b c; unfold index_le; lia).
    assert (Total (@index_le ToolCallState)) by (intros a b; unfold index_le; lia).
    exact (StronglySorted_merge_sort index_le _). }
  split; [|split].
  - intros i st Hi. rewrite (Harg i st) by by apply in_order_elem. rewrite json_string_parses. unfold input, meaning. rewrite is_empty_eqb.
    by destruct (String.eqb _ _).
  - unfold append_assistant_message, message_content. rewrite fold_res_app, <- said_message.
    destruct (is_empty (oa_text acc)); simpl; by rewrite (replay_calls env arguments).
  - unfold said. destruct (String.eqb _ _), (Nat.eqb _ 0); done.
Qed.
End Translated.

(** ** A request and an answer *)

Definition weather_request : Json :=
  JObject [("model", JString "hermes-3-8b"); ("max_tokens", JNumber 100); ("system", JString "Be brief.");
           ("messages", JArray
             [JObject [("role", JString "user"); ("content", JString "Rain?")];
              JObject [("role", JString "assistant");
                       ("content", JArray [JObject [("type", JString "tool_use"); ("id", JString "call_1");
                                                    ("name", JString "weather"); ("input", JObject [])]])];
              JObject [("role", JString "user");
                       ("content", JArray [JObject [("type", JString "text"); ("text", JString "Here:")];
                                           JObject [("type", JString "tool_result"); ("tool_use_id", JString "call_1");
                                                    ("content", JString "dry")]])]]);
           ("tools", JArray [JObject [("name", JString "weather")]])].
Definition weather_acc : OpenAiAccumulator :=
  mkAccumulator "Let me look." {[0 := mkToolCallState (Some "call_1") (Some "weather") ""]} None None 3 None.

Lemma translated_request_valid_witness :
  exists req body r, anthropic_request_of weather_request = Some req /\
    @anthropic_to_openai toy_wire req = Ok body /\ request_of body = Some r /\
    cr_max_tokens r = Some 100 /\ (msg_role <$> cr_messages r) = ["system"; "user"; "assistant"; "user"; "tool"].
Proof.
  destruct (anthropic_request_of weather_request) as [req|] eqn:Hreq; [|vm_compute in Hreq; discriminate].
  destruct (@anthropic_to_openai toy_wire req) as [body|e] eqn:Hbody.
  2: { vm_compute in Hreq. injection Hreq as <-. vm_compute in Hbody. discriminate. }
  destruct (@translated_request_valid toy_wire weather_request req body Hreq Hbody) as (r & Hr & _ & Hmt & _).
  exists req, body, r. split; [reflexivity|]. split; [exact Hbody|]. split; [exact Hr|].
  vm_compute in Hreq. injection Hreq as <-. split; [exact Hmt|].
  vm_compute in Hbody. injection Hbody as <-. vm_compute in Hr. injection Hr as <-. reflexivity.
Defined.
Lemma answer_can_be_replayed_witness :
  exists arguments, @json_parse toy_wire (bytes arguments) = Some (JObject []) /\
  @append_assistant_message toy_wire (JArray (@message_content toy_wire (toy_env 2) weather_acc)) [] =
    Ok [JObject [("role", JString "assistant"); ("content", JString "Let me look.");
                 ("tool_calls", JArray [JObject [("id", JString "call_1"); ("type", JString "function");
                   ("function", JObject [("name", JString "weather"); ("arguments", JString arguments)])]])]].
Proof.
  destruct (@answer_can_be_replayed toy_wire toy_crates toy_wire_laws (toy_env 2) weather_acc [])
    as (calls & arguments & Hp & _ & Ha & H & _).
  exists (arguments 0). split; [exact (Ha 0 _ eq_refl)|]. rewrite H.
  assert (calls = [(0, mkToolCallState (Some "call_1") (Some "weather") "")]) as ->.
  { apply Permutation_singleton_r. rewrite Hp. by vm_compute. }
  reflexivity.
Defined.
