(* ===== verification/RelayWire.v ===== *)
(** * The messages of the relay

    [protocol/src/relay.rs] and [protocol/src/cluster.rs]: what the relay sends
    to a gateway and the messages nodes exchange inside it.  JSON numbers are
    integers; a chat request is carried as the JSON that deserializes as one. *)

From S2P Require Import Prelude Db RustStr Merkle F64 Registry PinWire ChatPrepare.
From stdpp Require Import sorting.
From Stdlib Require Import Ascii.

Open Scope string_scope.
Open Scope list_scope.
Open Scope Z_scope.

(** [base64::general_purpose::STANDARD]: the engine of the base64 crate. *)
Class Base64 : Type := {
  base64_encode : list byte -> string;
  base64_decode : string -> option (list byte)
}.
Class Base64Laws `{Base64} : Prop := {
  base64_decode_encode : forall l, base64_decode (base64_encode l) = Some l
}.

Definition as_f64 (j : Json) : option f64 := f64_of_Z <$> as_number j.
Definition as_u16 (j : Json) : option Z :=
  match j with JNumber z => if (0 <=? z) && (z <? 2 ^ 16) then Some z else None | _ => None end.

(** ** Capabilities *)

Definition hardware_of (j : Json) : option HardwareCapability :=
  match j with
  | JObject o =>
      family ← required "chipFamily" as_string o;
      name ← required "chipName" as_string o;
      ram ← required "totalRAMGB" as_f64 o;
      cores ← required "gpuCoreCount" as_u32 o;
      bandwidth ← required "memoryBandwidthGBs" as_f64 o;
      tier ← required "tier" as_u32 o;
      backend ← opt_field "gpuBackend" as_string o;
      platform ← opt_field "platform" as_string o;
      vram ← opt_field "gpuVRAMGB" as_f64 o;
      Some (mkHardware family name ram cores bandwidth tier backend platform vram)
  | _ => None
  end.
Definition capabilities_of (j : Json) : option NodeCapabilities :=
  match j with
  | JObject o =>
      hw ← required "hardware" hardware_of o;
      loaded ← required "loadedModels" (as_array as_string) o;
      size ← required "maxModelSizeGB" as_f64 o;
      available ← required "isAvailable" as_bool o;
      ptn ← opt_field "ptnIDs" (as_array as_string) o;
      swappable ← defaulted "swappableModels" [] (as_array as_string) o;
      concurrent ← opt_field "maxConcurrentRequests" as_u32 o;
      context ← opt_field "effectiveContext" as_u32 o;
      power ← opt_field "onACPower" as_bool o;
      busy ← opt_field "backendSlotsBusy" as_u32 o;
      total ← opt_field "backendSlotsTotal" as_u32 o;
      Some (mkCapabilities hw loaded size available ptn swappable concurrent context power busy total)
  | _ => None
  end.

(** ** Relay messages *)

Record RelaySessionPayload : Type := mkRelaySession {
  rl_from_node_id : string;
  rl_to_node_id : string;
  rl_session_id : string
}.
Record RelayDataPayload : Type := mkRelayData {
  rd_from_node_id : string;
  rd_to_node_id : string;
  rd_session_id : string;
  rd_data : Json
}.
Record PeerNotificationPayload : Type := mkPeerNotification {
  pn_node_id : string;
  pn_display_name : string
}.
Record RelayErrorPayload : Type := mkRelayError {
  re_code : string;
  re_message : string;
  re_retry_after_seconds : option Z
}.
Inductive IncomingRelayMessage : Type :=
| RegisterAck (node_id : string)
| DiscoverResponse (peers : list Json)
| RelayOpen (p : RelaySessionPayload)
| RelayReady (p : RelaySessionPayload)
| RelayData (p : RelayDataPayload)
| RelayClose (p : RelaySessionPayload)
| PeerJoined (p : PeerNotificationPayload)
| PeerLeft (p : PeerNotificationPayload)
| RelayError (p : RelayErrorPayload)
| UnknownRelay (kind : string).

Definition relay_session_of (j : Json) : option RelaySessionPayload :=
  match j with
  | JObject o =>
      from ← required "fromNodeID" as_string o;
      to ← required "toNodeID" as_string o;
      session ← required "sessionID" as_string o;
      Some (mkRelaySession from to session)
  | _ => None
  end.
Definition relay_data_of (j : Json) : option RelayDataPayload :=
  match j with
  | JObject o =>
      from ← required "fromNodeID" as_string o;
      to ← required "toNodeID" as_string o;
      session ← required "sessionID" as_string o;
      data ← required "data" any_value o;
      Some (mkRelayData from to session data)
  | _ => None
  end.
Definition peer_notification_of (j : Json) : option PeerNotificationPayload :=
  match j with
  | JObject o =>
      node ← required "nodeID" as_string o;
      name ← required "displayName" as_string o;
      Some (mkPeerNotification node name)
  | _ => None
  end.
Definition relay_error_of (j : Json) : option RelayErrorPayload :=
  match j with
  | JObject o =>
      code ← required "code" as_string o;
      message ← required "message" as_string o;
      retry ← opt_field "retryAfterSeconds" as_u64 o;
      Some (mkRelayError code message retry)
  | _ => None
  end.
(** A [serde_json] map is sorted by its keys. *)
Definition first_key (o : list (string * Json)) : option string := fst <$> head (merge_sort key_le o).
(** The first key that is there decides, whether or not its payload reads. *)
Definition incoming_of (j : Json) : option IncomingRelayMessage :=
  match j with
  | JObject o =>
      match field "registerAck" o with
      | Some p => RegisterAck <$> (get "nodeID" p ≫= as_string)
      | None => match field "discoverResponse" o with
      | Some p => DiscoverResponse <$> (get "peers" p ≫= as_list)
      | None => match field "relayOpen" o with
      | Some p => RelayOpen <$> relay_session_of p
      | None => match field "relayReady" o with
      | Some p => RelayReady <$> relay_session_of p
      | None => match field "relayData" o with
      | Some p => RelayData <$> relay_data_of p
      | None => match field "relayClose" o with
      | Some p => RelayClose <$> relay_session_of p
      | None => match field "peerJoined" o with
      | Some p => PeerJoined <$> peer_notification_of p
      | None => match field "peerLeft" o with
      | Some p => PeerLeft <$> peer_notification_of p
      | None => match field "error" o with
      | Some p => RelayError <$> relay_error_of p
      | None => UnknownRelay <$> first_key o
      end end end end end end end end end
  | _ => None
  end.

(** ** Cluster messages *)

Record HelloPayload : Type := mkHello {
  he_device_info : Json;
  he_protocol_version : Z;
  he_loaded_models : list string
}.
Record InferenceRequestPayload : Type := mkInferenceRequest {
  ir_request_id : string;
  ir_request : Json;
  ir_streaming : bool
}.
Record InferenceChunkPayload : Type := mkInferenceChunk {
  ic_request_id : string;
  ic_chunk : Json
}.
Record InferenceCompletePayload : Type := mkInferenceComplete {
  im_request_id : string;
  im_tokens_in : option Z;
  im_tokens_out : option Z
}.
Inductive InferenceErrorCode : Type :=
| ModelNotLoaded | QueueFull | BackendUnavailable | InternalError | BackendTimeout | Cancelled.
Record InferenceErrorPayload : Type := mkInferenceError {
  ie_request_id : string;
  ie_error_message : string;
  ie_code : option InferenceErrorCode
}.
Record LoadModelPayload : Type := mkLoadModel { lm_request_id : string; lm_model_id : string }.
Record ModelLoadedPayload : Type := mkModelLoaded {
  ml_request_id : string;
  ml_model_id : string;
  ml_load_time_ms : Z
}.
Record ModelLoadErrorPayload : Type := mkModelLoadError {
  le_request_id : string;
  le_model_id : string;
  le_reason : string
}.
Record SocksOpenPayload : Type := mkSocksOpen {
  so_pin_id : string;
  so_stream_id : string;
  so_dest_host : string;
  so_dest_port : Z
}.
Record SocksOpenResultPayload : Type := mkSocksOpenResult {
  sr_stream_id : string;
  sr_ok : bool;
  sr_error : option string
}.
Record SocksDataPayload : Type := mkSocksData { sd_stream_id : string; sd_data : string }.
Record SocksClosePayload : Type := mkSocksClose { sx_stream_id : string; sx_reason : option string }.

Inductive ClusterMessage : Type :=
| Hello (p : HelloPayload)
| HelloAck (p : HelloPayload)
| Heartbeat (p : HeartbeatPayload)
| HeartbeatAck (p : HeartbeatPayload)
| InferenceRequest (p : InferenceRequestPayload)
| InferenceChunk (p : InferenceChunkPayload)
| InferenceComplete (p : InferenceCompletePayload)
| InferenceError (p : InferenceErrorPayload)
| LoadModel (p : LoadModelPayload)
| ModelLoaded (p : ModelLoadedPayload)
| ModelLoadError (p : ModelLoadErrorPayload)
| SocksOpen (p : SocksOpenPayload)
| SocksOpenResult (p : SocksOpenResultPayload)
| SocksData (p : SocksDataPayload)
| SocksClose (p : SocksClosePayload)
| UnknownCluster (kind : string) (raw : Json).

Definition thermal_of (j : Json) : option ThermalLevel :=
  s ← as_string j;
  if String.eqb s "nominal" then Some Nominal
  else if String.eqb s "fair" then Some Fair
  else if String.eqb s "serious" then Some Serious
  else if String.eqb s "critical" then Some Critical
  else None.
Definition error_code_of (j : Json) : option InferenceErrorCode :=
  s ← as_string j;
  if String.eqb s "model_not_loaded" then Some ModelNotLoaded
  else if String.eqb s "queue_full" then Some QueueFull
  else if String.eqb s "unavailable" then Some BackendUnavailable
  else if String.eqb s "internal_error" then Some InternalError
  else if String.eqb s "timeout" then Some BackendTimeout
  else if String.eqb s "cancelled" then Some Cancelled
  else None.
(** A derived [Deserialize] of a record reads an object; the array form that
    serde takes too is left out. *)
Definition reads_object {A} (f : list (string * Json) -> option A) (j : Json) : option A :=
  match j with JObject o => f o | _ => None end.

Definition hello_of : Json -> option HelloPayload := reads_object (fun o =>
  info ← required "deviceInfo" any_value o;
  version ← required "protocolVersion" as_u32 o;
  models ← defaulted "loadedModels" [] (as_array as_string) o;
  Some (mkHello info version models)).
Definition heartbeat_of : Json -> option HeartbeatPayload := reads_object (fun o =>
  device ← required "deviceID" as_string o;
  timestamp ← required "timestamp" as_f64 o;
  thermal ← required "thermalLevel" thermal_of o;
  throttle ← required "throttleLevel" as_u32 o;
  models ← defaulted "loadedModels" [] (as_array as_string) o;
  generating ← defaulted "isGenerating" false as_bool o;
  depth ← defaulted "queueDepth" 0 as_u32 o;
  ewma ← opt_field "ewmaTokensPerSecond" as_f64 o;
  Some (mkHeartbeat device timestamp thermal throttle models generating depth ewma)).
Definition inference_request_of : Json -> option InferenceRequestPayload := reads_object (fun o =>
  id ← required "requestID" as_string o;
  request ← required "request" (fun j => _ ← request_of j; Some j) o;
  streaming ← defaulted "streaming" false as_bool o;
  Some (mkInferenceRequest id request streaming)).
Definition inference_chunk_of : Json -> option InferenceChunkPayload := reads_object (fun o =>
  id ← required "requestID" as_string o;
  chunk ← required "chunk" any_value o;
  Some (mkInferenceChunk id chunk)).
Definition inference_complete_of : Json -> option InferenceCompletePayload := reads_object (fun o =>
  id ← required "requestID" as_string o;
  tokens_in ← opt_field "tokensIn" as_u32 o;
  tokens_out ← opt_field "tokensOut" as_u32 o;
  Some (mkInferenceComplete id tokens_in tokens_out)).
Definition inference_error_of : Json -> option InferenceErrorPayload := reads_object (fun o =>
  id ← required "requestID" as_string o;
  message ← required "errorMessage" as_string o;
  code ← opt_field "code" error_code_of o;
  Some (mkInferenceError id message code)).
Definition load_model_of : Json -> option LoadModelPayload := reads_object (fun o =>
  id ← required "requestID" as_string o;
  model ← required "modelID" as_string o;
  Some (mkLoadModel id model)).
Definition model_loaded_of : Json -> option ModelLoadedPayload := reads_object (fun o =>
  id ← required "requestID" as_string o;
  model ← required "modelID" as_string o;
  ms ← required "loadTimeMs" as_u64 o;
  Some (mkModelLoaded id model ms)).
Definition model_load_error_of : Json -> option ModelLoadErrorPayload := reads_object (fun o =>
  id ← required "requestID" as_string o;
  model ← required "modelID" as_string o;
  reason ← required "reason" as_string o;
  Some (mkModelLoadError id model reason)).
Definition socks_open_of : Json -> option SocksOpenPayload := reads_object (fun o =>
  pin ← required "pinId" as_string o;
  stream ← required "streamID" as_string o;
  host ← required "destHost" as_string o;
  port ← required "destPort" as_u16 o;
  Some (mkSocksOpen pin stream host port)).
Definition socks_open_result_of : Json -> option SocksOpenResultPayload := reads_object (fun o =>
  stream ← required "streamID" as_string o;
  ok ← required "ok" as_bool o;
  err ← opt_field "error" as_string o;
  Some (mkSocksOpenResult stream ok err)).
Definition socks_data_of : Json -> option SocksDataPayload := reads_object (fun o =>
  stream ← required "streamID" as_string o;
  data ← required "data" as_string o;
  Some (mkSocksData stream data)).
Definition socks_close_of : Json -> option SocksClosePayload := reads_object (fun o =>
  stream ← required "streamID" as_string o;
  reason ← opt_field "reason" as_string o;
  Some (mkSocksClose stream reason)).

(** Swift wraps a payload in [_0]. *)
Definition unwrap_0 (p : Json) : Json := default p (get "_0" p).
(** [try_variant!]: a payload that does not read falls through to the next key. *)
Definition try_variant {A} (key : string) (payload : Json -> option A) (variant : A -> ClusterMessage)
    (o : list (string * Json)) (rest : option ClusterMessage) : option ClusterMessage :=
  match field key o ≫= (fun p => payload (unwrap_0 p)) with
  | Some parsed => Some (variant parsed)
  | None => rest
  end.
Definition from_value (v : Json) : option ClusterMessage :=
  match v with
  | JObject o =>
      try_variant "hello" hello_of Hello o (
      try_variant "helloAck" hello_of HelloAck o (
      try_variant "heartbeat" heartbeat_of Heartbeat o (
      try_variant "heartbeatAck" heartbeat_of HeartbeatAck o (
      try_variant "inferenceRequest" inference_request_of InferenceRequest o (
      try_variant "inferenceChunk" inference_chunk_of InferenceChunk o (
      try_variant "inferenceComplete" inference_complete_of InferenceComplete o (
      try_variant "inferenceError" inference_error_of InferenceError o (
      try_variant "loadModel" load_model_of LoadModel o (
      try_variant "socksOpen" socks_open_of SocksOpen o (
      try_variant "socksOpenResult" socks_open_result_of SocksOpenResult o (
      try_variant "socksData" socks_data_of SocksData o (
      try_variant "socksClose" socks_close_of SocksClose o (
      try_variant "modelLoaded" model_loaded_of ModelLoaded o (
      try_variant "modelLoadError" model_load_error_of ModelLoadError o (
      (fun kind => UnknownCluster kind v) <$> first_key o)))))))))))))))
  | _ => None
  end.

Section Text.
Context `{WireCrates} `{Base64}.

Definition parse_incoming (raw : string) : option IncomingRelayMessage := json_parse (bytes raw) ≫= incoming_of.
Definition parse_cluster (data : list byte) : option ClusterMessage := json_parse data ≫= from_value.

(** Base64, a plain string, or an array of numbers cut to bytes. *)
Definition decode_relay_data (data : Json) : option (list byte) :=
  match data with
  | JString s => Some (default (bytes s) (base64_decode s))
  | JArray arr => mapM (fun v => (fun n => u8 (n `mod` 256)) <$> as_u64 v) arr
  | _ => None
  end.

(** [to_value] of the message a gateway sends. *)
Definition inference_request_value (p : InferenceRequestPayload) : Json :=
  JObject [("inferenceRequest", JObject [("_0", JObject
    [("request", ir_request p); ("requestID", JString (ir_request_id p)); ("streaming", JBool (ir_streaming p))])])].

(** The request reaches the node as it was sent. *)
Lemma request_survives_the_relay `{Crates} `{!WireLaws} `{!Base64Laws} p r :
  request_of (ir_request p) = Some r ->
  decode_relay_data (JString (base64_encode (json_text (inference_request_value p)))) ≫= parse_cluster =
    Some (InferenceRequest p).
Proof.
  intros Hr. unfold decode_relay_data. rewrite base64_decode_encode. simpl. unfold parse_cluster.
  rewrite json_parse_text. destruct p as [id req st]. simpl in *. unfold from_value, inference_request_value, try_variant. simpl.
  unfold inference_request_of, required, defaulted. simpl. by rewrite Hr.
Qed.
End Text.
