(* ===== verification/RelayClient.v ===== *)
(** * The gateway's relay client

    [gateway/src/relay_client.rs]: the table of sessions, the waiters for
    [relayReady], the registry fed by discover responses, and the fan-out of what
    nodes send to the requests that wait for it.  The websocket, its writer task
    and the persistent drain are the list of messages that reached the live
    connection; Tokio's bounded channel is an interface with its documented laws.
    Gauges and log lines are left out. *)

From S2P Require Import Prelude Db RustStr Merkle F64 Registry PinWire ChatPrepare Chat RelayWire.
From Stdlib Require Import Ascii.

Open Scope string_scope.
Open Scope list_scope.
Open Scope Z_scope.

(** ** Channels

    [mpsc::channel(n)]: [try_send] gives up when the queue is full or the
    receiver is gone; the code ignores its answer. *)
Class Mpsc : Type := {
  mpsc : Type;
  channel : nat -> mpsc;
  try_send : SessionEvent -> mpsc -> mpsc;
  try_recv : mpsc -> option (SessionEvent * mpsc);
  drop_receiver : mpsc -> mpsc;
  queued : mpsc -> list SessionEvent;
  bound : mpsc -> nat;
  listening : mpsc -> bool
}.
Class MpscLaws `{Mpsc} : Prop := {
  channel_new n : queued (channel n) = [] /\ bound (channel n) = n /\ listening (channel n) = true;
  try_send_frame e c : bound (try_send e c) = bound c /\ listening (try_send e c) = listening c;
  try_send_room e c : listening c = true -> (length (queued c) < bound c)%nat -> queued (try_send e c) = queued c ++ [e];
  try_send_full e c : (bound c <= length (queued c))%nat -> queued (try_send e c) = queued c;
  try_recv_next c e l : queued c = e :: l ->
    exists c', try_recv c = Some (e, c') /\ queued c' = l /\ bound c' = bound c /\ listening c' = listening c;
  try_recv_none c : queued c = [] -> try_recv c = None;
  drop_receiver_gone c : listening (drop_receiver c) = false /\ queued (drop_receiver c) = []
}.
(** What [chat.rs] asks for; [collect.rs] and [probe.rs] ask for 64. *)
Definition SESSION_CHANNEL : nat := 128.

(** ** State *)

Record PendingSession : Type := mkPendingSession {
  ps_request_id : string;
  ps_device_node_id : string;
  ps_session_id : string
}.
Record RelaySettings : Type := mkRelaySettings {
  rc_node_id : string;
  rc_quarantine_seconds : Z;
  rc_discover_interval_seconds : Z;
  rc_allowed_node_ids : list string;
  rc_employee_node_ids : list string;
  rc_stranger_enabled : bool
}.
Definition fleet_allows (cfg : RelaySettings) (node_id : string) : bool :=
  match rc_allowed_node_ids cfg with [] => true | ids => existsb (String.eqb node_id) ids end.
Definition is_employee (cfg : RelaySettings) (node_id : string) : bool := existsb (String.eqb node_id) (rc_employee_node_ids cfg).

(** The sender of a session lives in its [PendingSession]; the receivers are in
    [ry_channels].  [ry_ready] is what the waiters of [open_session] were sent. *)
Record RelayState `{Mpsc} : Type := mkRelayState {
  ry_registry : Registry;
  ry_sessions : gmap string PendingSession;
  ry_channels : gmap string mpsc;
  ry_waiters : gmap string string;
  ry_ready : gmap string (result string unit);
  ry_ghost_closes : gmap string Z;
  ry_connected : bool;
  ry_sent : list Json
}.
Arguments mkRelayState {_} _ _ _ _ _ _ _ _.

Section Client.
Context `{Mpsc} `{Crates} `{WireCrates} `{Base64} (cfg : RelaySettings).
Implicit Types st : RelayState.

Definition set_registry (r : Registry) st : RelayState :=
  mkRelayState r (ry_sessions st) (ry_channels st) (ry_waiters st) (ry_ready st) (ry_ghost_closes st) (ry_connected st) (ry_sent st).
Definition set_sessions (m : gmap string PendingSession) st : RelayState :=
  mkRelayState (ry_registry st) m (ry_channels st) (ry_waiters st) (ry_ready st) (ry_ghost_closes st) (ry_connected st) (ry_sent st).
Definition set_channels (m : gmap string mpsc) st : RelayState :=
  mkRelayState (ry_registry st) (ry_sessions st) m (ry_waiters st) (ry_ready st) (ry_ghost_closes st) (ry_connected st) (ry_sent st).
Definition set_waiters (w : gmap string string) (a : gmap string (result string unit)) st : RelayState :=
  mkRelayState (ry_registry st) (ry_sessions st) (ry_channels st) w a (ry_ghost_closes st) (ry_connected st) (ry_sent st).
Definition set_ghosts (g : gmap string Z) st : RelayState :=
  mkRelayState (ry_registry st) (ry_sessions st) (ry_channels st) (ry_waiters st) (ry_ready st) g (ry_connected st) (ry_sent st).
Definition set_connected (b : bool) st : RelayState :=
  mkRelayState (ry_registry st) (ry_sessions st) (ry_channels st) (ry_waiters st) (ry_ready st) (ry_ghost_closes st) b (ry_sent st).

(** [send_json]: the outbox outlives every connection, so the send succeeds; the
    drain drops what it gets while no connection is live. *)
Definition send_json (v : Json) st : RelayState :=
  mkRelayState (ry_registry st) (ry_sessions st) (ry_channels st) (ry_waiters st) (ry_ready st) (ry_ghost_closes st)
    (ry_connected st) (if ry_connected st then ry_sent st ++ [v] else ry_sent st).
(** To the channel of a session. *)
Definition deliver (session_id : string) (e : SessionEvent) st : RelayState :=
  set_channels (alter (try_send e) session_id (ry_channels st)) st.

(** ** The handle *)

Definition session_message (kind target_node_id session_id : string) (data : list (string * Json)) : Json :=
  JObject [(kind, JObject (data ++ [("fromNodeID", JString (rc_node_id cfg)); ("sessionID", JString session_id);
                                    ("toNodeID", JString target_node_id)]))].
(** [open_session] up to its await, and what the await yields. *)
Definition open_session (session_id target_node_id : string) st : RelayState :=
  send_json (session_message "relayOpen" target_node_id session_id [])
    (set_waiters (<[session_id := target_node_id]> (ry_waiters st)) (delete session_id (ry_ready st)) st).
Inductive OpenWait : Type := OpenPending | Opened | OpenRefused (message : string).
Definition open_wait (session_id : string) st : OpenWait :=
  match ry_ready st !! session_id, ry_waiters st !! session_id with
  | Some (Ok _), _ => Opened
  | Some (Err message), _ => OpenRefused message
  | None, Some _ => OpenPending
  | None, None => OpenRefused "session ready waiter dropped"
  end.
Definition open_timed_out (session_id : string) st : RelayState :=
  set_waiters (delete session_id (ry_waiters st)) (ry_ready st) st.

(** The caller creates the channel, with a bound of its own. *)
Definition register_session (slots : nat) (p : PendingSession) st : RelayState :=
  set_channels (<[ps_session_id p := channel slots]> (ry_channels st))
    (set_sessions (<[ps_session_id p := p]> (ry_sessions st)) st).
Definition close_session (target_node_id session_id : string) st : RelayState :=
  send_json (session_message "relayClose" target_node_id session_id [])
    (set_sessions (delete session_id (ry_sessions st)) st).
Definition send_cluster (target_node_id session_id : string) (message : Json) st : RelayState :=
  send_json (session_message "relayData" target_node_id session_id [("data", JString (base64_encode (json_text message)))]) st.
Definition request_discover st : RelayState :=
  send_json (JObject [("discover", JObject [("requestingNodeID", JString (rc_node_id cfg))])]) st.

(** [rx.recv()]: [None] waits; a session out of the table has no sender left. *)
Definition receive (session_id : string) st : option (SessionEvent * RelayState) :=
  c ← ry_channels st !! session_id;
  match try_recv c with
  | Some (e, c') => Some (e, set_channels (<[session_id := c']> (ry_channels st)) st)
  | None => match ry_sessions st !! session_id with Some _ => None | None => Some (ChannelClosed, st) end
  end.

(** ** Incoming messages *)

(** A peer of a discover response. *)
Definition discover_peer (clk : Clock) (peer : Json) (r : Registry) : Registry :=
  match peer with
  | JObject obj =>
      match field "nodeID" obj ≫= as_string, field "capabilities" obj with
      | Some node_id, Some caps_json =>
          let display_name := default "unknown" (field "displayName" obj ≫= as_string) in
          let employee := is_employee cfg node_id && negb (fleet_allows cfg node_id) in
          let probation := negb (fleet_allows cfg node_id) && negb employee && rc_stranger_enabled cfg in
          if negb (fleet_allows cfg node_id) && negb employee && negb (rc_stranger_enabled cfg) then r
          else
            match capabilities_of caps_json with
            | Some caps => upsert_device_with_tier clk node_id display_name caps employee probation r
            | None => r
            end
      | _, _ => r
      end
  | _ => r
  end.

(** [str::split_once]. *)
Fixpoint split_once (c : byte) (l : list byte) : option (list byte * list byte) :=
  match l with
  | [] => None
  | x :: l => if Ascii.eqb x c then Some ([], l) else (fun '(a, b) => (x :: a, b)) <$> split_once c l
  end.
Definition extract_peer_node_id (message : string) : option string :=
  rest ← strip_prefix "Peer " message;
  '(peer, suffix) ← split_once (Ascii.ascii_of_nat 32) (bytes rest);
  if String.eqb (of_bytes suffix) "is not connected" then Some (of_bytes peer) else None.

Definition fail_ready_waiters_for_target (target message : string) st : RelayState :=
  let failed := filter (fun kv : string * string => kv.2 = target) (ry_waiters st) in
  set_waiters (filter (fun kv : string * string => kv.2 <> target) (ry_waiters st))
    (((fun _ => Err message) <$> failed) ∪ ry_ready st) st.
(** Every session that satisfies [P] leaves the table, with an event for its
    request. *)
Definition fail_sessions (P : PendingSession -> bool) (e : SessionEvent) st : RelayState :=
  let failing s := match ry_sessions st !! s with Some p => P p | None => false end in
  set_channels (map_imap (fun s c => Some (if failing s then try_send e c else c)) (ry_channels st))
    (set_sessions (filter (fun kp : string * PendingSession => P kp.2 = false) (ry_sessions st)) st).
Definition fail_sessions_for_target (target message : string) st : RelayState :=
  fail_sessions (fun p => String.eqb (ps_device_node_id p) target) (Disconnect message) st.

Definition GHOST_CLOSES : nat := 512.
Definition ghost_close_once (clk : Clock) (from_node_id session_id : string) st : RelayState :=
  match ry_ghost_closes st !! session_id with
  | Some _ => st
  | None =>
      let ghosts := if Nat.leb GHOST_CLOSES (size (ry_ghost_closes st))
                    then filter (fun kt : string * Z => elapsed clk kt.2 < from_secs 600) (ry_ghost_closes st)
                    else ry_ghost_closes st in
      close_session from_node_id session_id (set_ghosts (<[session_id := instant clk]> ghosts) st)
  end.

(** [format!("{:?}", c).to_lowercase()]. *)
Definition code_text (c : InferenceErrorCode) : string :=
  match c with
  | ModelNotLoaded => "modelnotloaded"
  | QueueFull => "queuefull"
  | BackendUnavailable => "unavailable"
  | InternalError => "internalerror"
  | BackendTimeout => "timeout"
  | Cancelled => "cancelled"
  end.
(** [sessions.remove(session_id)], then the last event. *)
Definition finish_session (session_id : string) (e : SessionEvent) st : RelayState :=
  match ry_sessions st !! session_id with
  | Some _ => deliver session_id e (set_sessions (delete session_id (ry_sessions st)) st)
  | None => st
  end.
Definition dispatch_cluster (clk : Clock) (msg : ClusterMessage) (session_id from_node_id : string) st : RelayState :=
  match msg with
  | InferenceChunk p =>
      match ry_sessions st !! session_id with
      | Some _ => deliver session_id (Chunk (ic_chunk p)) st
      | None => ghost_close_once clk from_node_id session_id st
      end
  | InferenceComplete p => finish_session session_id (Complete (im_tokens_out p)) st
  | InferenceError p => finish_session session_id (SessionError (ie_error_message p) (code_text <$> ie_code p)) st
  | HeartbeatAck hb | Heartbeat hb => set_registry (apply_heartbeat clk from_node_id hb (ry_registry st)) st
  | _ => st
  end.

Definition peer_not_found (clk : Clock) (peer : string) st : RelayState :=
  let message := ("peer not connected: " ++ peer)%string in
  let st := set_registry (quarantine clk peer (rc_quarantine_seconds cfg) (ry_registry st)) st in
  fail_sessions_for_target peer message (fail_ready_waiters_for_target peer message st).
(** [registerAck] and [peerJoined] only log. *)
Definition handle_incoming (clk : Clock) (msg : IncomingRelayMessage) st : RelayState :=
  match msg with
  | DiscoverResponse peers => set_registry (foldl (fun r peer => discover_peer clk peer r) (ry_registry st) peers) st
  | PeerLeft p => set_registry (mark_departed clk (pn_node_id p) (ry_registry st)) st
  | RelayReady s =>
      match ry_waiters st !! rl_session_id s with
      | Some _ => set_waiters (delete (rl_session_id s) (ry_waiters st)) (<[rl_session_id s := Ok tt]> (ry_ready st)) st
      | None => st
      end
  | RelayData d =>
      match decode_relay_data (rd_data d) ≫= parse_cluster with
      | Some msg => dispatch_cluster clk msg (rd_session_id d) (rd_from_node_id d) st
      | None => st
      end
  | RelayClose s => finish_session (rl_session_id s) (Disconnect "peer closed session") st
  | RelayError e =>
      if String.eqb (re_code e) "peer_not_found" then
        match extract_peer_node_id (re_message e) with
        | Some peer => peer_not_found clk peer st
        | None => st
        end
      else st
  | _ => st
  end.
(** A frame of the websocket: what does not parse is ignored. *)
Definition handle_text (clk : Clock) (raw : string) st : RelayState :=
  match parse_incoming raw with Some msg => handle_incoming clk msg st | None => st end.

(** ** Connections *)

(** [register_payload] is [make_register_payload]. *)
Definition connect (register_payload : Json) st : RelayState := send_json register_payload (set_connected true st).
(** The end of a connection: nothing in flight survives it. *)
Definition disconnect st : RelayState :=
  set_waiters ∅ (ry_ready st) (fail_sessions (fun _ => true) (Disconnect "relay disconnected") (set_connected false st)).
Definition relay_idle_timeout : Z := Z.max (Z.min (rc_discover_interval_seconds cfg * 6) (2 ^ 64 - 1)) 30.
Definition MAX_BACKOFF : Z := 60.
Definition next_backoff (backoff : Z) : Z := Z.min (backoff * 2) MAX_BACKOFF.

(** A turn of the discover task, and how long it waited. *)
Definition discover_tick (clk : Clock) st : RelayState :=
  let st := request_discover st in set_registry (sweep clk (ry_registry st)) st.
Definition discover_wait (clk : Clock) (boot : Z) st : Z :=
  if Nat.eqb (device_count (ry_registry st)) 0 && (elapsed clk boot <? from_secs 90) then 5
  else rc_discover_interval_seconds cfg.

(** ** Operations *)

Inductive RelayOp : Type :=
| OpOpen (session_id target : string)
| OpOpenTimedOut (session_id : string)
| OpRegister (slots : nat) (p : PendingSession)
| OpSendCluster (target session_id : string) (message : Json)
| OpCloseSession (target session_id : string)
| OpReceive (session_id : string)
| OpHangUp (session_id : string)
| OpFrame (raw : string)
| OpConnect (register_payload : Json)
| OpDisconnect
| OpDiscoverTick.
Definition relay_step (clk : Clock) (op : RelayOp) st : RelayState :=
  match op with
  | OpOpen sid target => open_session sid target st
  | OpOpenTimedOut sid => open_timed_out sid st
  | OpRegister slots p => register_session slots p st
  | OpSendCluster target sid message => send_cluster target sid message st
  | OpCloseSession target sid => close_session target sid st
  | OpReceive sid => match receive sid st with Some (_, st') => st' | None => st end
  | OpHangUp sid => set_channels (alter drop_receiver sid (ry_channels st)) st
  | OpFrame raw => handle_text clk raw st
  | OpConnect payload => connect payload st
  | OpDisconnect => disconnect st
  | OpDiscoverTick => discover_tick clk st
  end.
Definition new_relay (r : Registry) : RelayState := mkRelayState r ∅ ∅ ∅ ∅ ∅ false [].
End Client.
