(* ===== verification/RelayStreams.v ===== *)
(** * The streams of the sessions

    What the request that opened a session receives, against what the relay
    delivered for the session; a concrete channel and frames to run the client
    on; and what it does to its sessions that its comments do not say. *)

From S2P Require Import Prelude Db RustStr Merkle F64 Registry PinWire PinWireFacts ChatPrepare Chat RelayWire RelayClient.
From S2P Require Import PinWireFacts RegistryFacts Fixtures ChatFixtures.

Open Scope string_scope.
Open Scope list_scope.
Open Scope Z_scope.

Section Streams.
Context `{Mpsc} `{!MpscLaws} `{Crates} `{WireCrates} `{Base64} (cfg : RelaySettings).
Implicit Types st : RelayState.

(** ** What the steps send to a session *)

(** The event a frame has for the session [sid]. *)
Definition cluster_event (msg : ClusterMessage) : option SessionEvent :=
  match msg with
  | InferenceChunk p => Some (Chunk (ic_chunk p))
  | InferenceComplete p => Some (Complete (im_tokens_out p))
  | InferenceError p => Some (SessionError (ie_error_message p) (code_text <$> ie_code p))
  | _ => None
  end.
Definition frame_event (sid : string) (p : PendingSession) (raw : string) : option SessionEvent :=
  msg ← parse_incoming raw;
  match msg with
  | RelayData d =>
      if String.eqb (rd_session_id d) sid then (decode_relay_data (rd_data d) ≫= parse_cluster) ≫= cluster_event else None
  | RelayClose s => if String.eqb (rl_session_id s) sid then Some (Disconnect "peer closed session") else None
  | RelayError e =>
      if String.eqb (re_code e) "peer_not_found" then
        peer ← extract_peer_node_id (re_message e);
        if String.eqb (ps_device_node_id p) peer then Some (Disconnect ("peer not connected: " ++ peer)%string) else None
      else None
  | _ => None
  end.
(** The event an operation sends to the session, while it is in the table. *)
Definition event_for (sid : string) (op : RelayOp) st : option SessionEvent :=
  p ← ry_sessions st !! sid;
  match op with
  | OpFrame raw => frame_event sid p raw
  | OpDisconnect => Some (Disconnect "relay disconnected")
  | _ => None
  end.
Definition is_end (e : SessionEvent) : bool := match e with Chunk _ => false | _ => true end.
Definition taken_by (sid : string) (op : RelayOp) st : option SessionEvent :=
  match op with
  | OpReceive s => if String.eqb s sid then c ← ry_channels st !! sid; fst <$> try_recv c else None
  | _ => None
  end.

(** ** Frames of the operations *)

Definition chan_after (sid : string) (e : option SessionEvent) st : option mpsc :=
  (fun c => match e with Some e => try_send e c | None => c end) <$> ry_channels st !! sid.
Definition sessions_after (sid : string) (e : option SessionEvent) st : option PendingSession :=
  match e with Some e => if is_end e then None else ry_sessions st !! sid | None => ry_sessions st !! sid end.
(** [st'] is [st] with [e] sent to the session [sid]. *)
Definition sends (sid : string) (e : option SessionEvent) st st' : Prop :=
  ry_channels st' !! sid = chan_after sid e st /\ ry_sessions st' !! sid = sessions_after sid e st.

Lemma sends_none sid st st' :
  ry_channels st' = ry_channels st -> ry_sessions st' = ry_sessions st -> sends sid None st st'.
Proof. intros E1 E2. split; unfold chan_after, sessions_after; rewrite ?E1, ?E2; [by destruct (_ !! sid)|done]. Qed.

Lemma sends_finish sid s e st :
  is_end e = true ->
  sends sid (if String.eqb s sid then _ ← ry_sessions st !! sid; Some e else None) st (finish_session s e st).
Proof.
  intros He. unfold finish_session. destruct (String.eqb_spec s sid) as [->|Hne].
  - destruct (ry_sessions st !! sid) as [p|] eqn:E; simpl; [|by apply sends_none].
    split; unfold chan_after, sessions_after; simpl; [by rewrite lookup_alter_eq|]. by rewrite He, lookup_delete_eq.
  - destruct (ry_sessions st !! s); [|by apply sends_none]. split; unfold chan_after, sessions_after; simpl.
    + rewrite lookup_alter_ne by done. by destruct (_ !! sid).
    + by rewrite lookup_delete_ne.
Qed.
Lemma sends_ghost clk from s sid st :
  ry_sessions st !! s = None -> sends sid None st (ghost_close_once cfg clk from s st).
Proof.
  intros E. unfold ghost_close_once. destruct (ry_ghost_closes st !! s); [by apply sends_none|].
  split; unfold chan_after, sessions_after; simpl; [by destruct (_ !! sid)|].
  destruct (decide (s = sid)) as [->|Hne]; [by rewrite lookup_delete_eq|by rewrite lookup_delete_ne].
Qed.
Lemma sends_dispatch clk msg s from sid st :
  sends sid (if String.eqb s sid then _ ← ry_sessions st !! sid; cluster_event msg else None) st
    (dispatch_cluster cfg clk msg s from st).
Proof.
  assert (forall st', ry_channels st' = ry_channels st -> ry_sessions st' = ry_sessions st ->
    sends sid (if String.eqb s sid then _ ← ry_sessions st !! sid; @None SessionEvent else None) st st') as Hn.
  { intros st' E1 E2. replace (if String.eqb s sid then _ else _) with (@None SessionEvent); [by apply sends_none|].
    destruct (String.eqb s sid); [|done]. by destruct (ry_sessions st !! sid). }
  destruct msg; try (by apply Hn); simpl; try (by apply sends_finish).
  destruct (ry_sessions st !! s) as [q|] eqn:E.
  - destruct (String.eqb_spec s sid) as [->|Hne].
    + rewrite E. simpl. split; unfold chan_after, sessions_after; simpl; [by rewrite lookup_alter_eq|done].
    + split; unfold chan_after, sessions_after; simpl; [|done]. rewrite lookup_alter_ne by done. by destruct (_ !! sid).
  - pose proof (sends_ghost clk from s sid st E) as Hg. destruct (String.eqb_spec s sid) as [->|Hne]; [|done].
    by rewrite E.
Qed.
Lemma sends_fail sid (P : PendingSession -> bool) e st :
  is_end e = true ->
  sends sid (p ← ry_sessions st !! sid; if P p then Some e else None) st (fail_sessions P e st).
Proof.
  intros He. unfold fail_sessions. split; unfold chan_after, sessions_after; simpl.
  - rewrite map_lookup_imap. destruct (ry_channels st !! sid); [|done]. simpl.
    destruct (ry_sessions st !! sid) as [p|]; simpl; [|done]. by destruct (P p).
  - destruct (ry_sessions st !! sid) as [p|] eqn:E; simpl.
    + destruct (P p) eqn:Ep; [rewrite He|].
      * apply map_lookup_filter_None. right. intros q Hq. rewrite E in Hq. injection Hq as <-. simpl. by rewrite Ep.
      * by apply map_lookup_filter_Some.
    + apply map_lookup_filter_None. by left.
Qed.
Lemma sends_frame clk raw sid st :
  sends sid (p ← ry_sessions st !! sid; frame_event sid p raw) st (handle_text cfg clk raw st).
Proof.
  assert (forall o : option PendingSession, (o ≫= fun _ => @None SessionEvent) = None) as Hnone by (by intros [|]).
  unfold handle_text, frame_event. destruct (parse_incoming raw) as [msg|]; simpl; [|rewrite Hnone; by apply sends_none].
  destruct msg as [|peers| |s|d|s| |p|e|]; simpl; try (rewrite Hnone; by apply sends_none).
  - rewrite Hnone. destruct (ry_waiters st !! _); by apply sends_none.
  - destruct (decode_relay_data _ ≫= parse_cluster) as [m|] eqn:Em; simpl.
    + pose proof (sends_dispatch clk m (rd_session_id d) (rd_from_node_id d) sid st) as Hs.
      destruct (String.eqb _ sid); [done|]. by rewrite Hnone.
    + replace (_ ← ry_sessions st !! sid; _) with (@None SessionEvent); [by apply sends_none|].
      destruct (ry_sessions st !! sid); simpl; [|done]. by destruct (String.eqb _ _).
  - pose proof (sends_finish sid (rl_session_id s) (Disconnect "peer closed session") st eq_refl) as Hs.
    destruct (String.eqb _ sid); [done|]. by rewrite Hnone.
  - destruct (String.eqb _ _); [|rewrite Hnone; by apply sends_none].
    destruct (extract_peer_node_id _) as [peer|]; simpl; [|rewrite Hnone; by apply sends_none].
    unfold peer_not_found. 
    pose proof (sends_fail sid (fun p => String.eqb (ps_device_node_id p) peer) (Disconnect ("peer not connected: " ++ peer)%string)
      (fail_ready_waiters_for_target peer ("peer not connected: " ++ peer)%string
         (set_registry (quarantine clk peer (rc_quarantine_seconds cfg) (ry_registry st)) st)) eq_refl) as Hs.
    exact Hs.
Qed.

Definition about (sid : string) (op : RelayOp) : bool :=
  match op with
  | OpRegister _ p => String.eqb (ps_session_id p) sid
  | OpReceive s | OpHangUp s | OpCloseSession _ s => String.eqb s sid
  | _ => false
  end.
Lemma sends_step clk op sid st :
  about sid op = false -> sends sid (event_for sid op st) st (relay_step cfg clk op st).
Proof.
  assert (forall o : option PendingSession, (o ≫= fun _ => @None SessionEvent) = None) as Hnone by (by intros [|]).
  unfold event_for. destruct op; simpl; intros Ha; rewrite ?Hnone; try (by apply sends_none).
  - apply String.eqb_neq in Ha. split; unfold chan_after, sessions_after; simpl.
    + rewrite lookup_insert_ne by done. by destruct (_ !! sid).
    + by rewrite lookup_insert_ne.
  - apply String.eqb_neq in Ha. split; unfold chan_after, sessions_after; simpl; [by destruct (_ !! sid)|].
    by rewrite lookup_delete_ne.
  - apply String.eqb_neq in Ha. unfold receive. destruct (ry_channels st !! session_id) as [c|]; simpl; [|by apply sends_none].
    destruct (try_recv c) as [[e c']|]; simpl.
    + split; unfold chan_after, sessions_after; simpl; [|done]. rewrite lookup_insert_ne by done. by destruct (_ !! sid).
    + destruct (ry_sessions st !! session_id); by apply sends_none.
  - apply String.eqb_neq in Ha. split; unfold chan_after, sessions_after; simpl; [|done].
    rewrite lookup_alter_ne by done. by destruct (_ !! sid).
  - apply sends_frame.
  - exact (sends_fail sid (fun _ => true) (Disconnect "relay disconnected") (set_connected false st) eq_refl).
Qed.

(** ** Runs *)

Fixpoint relay_run (ops : list (Clock * RelayOp)) st : RelayState :=
  match ops with [] => st | (clk, op) :: ops => relay_run ops (relay_step cfg clk op st) end.
(** The events sent to a session, and those its request took, in order. *)
Fixpoint sent_to (sid : string) (ops : list (Clock * RelayOp)) st : list SessionEvent :=
  match ops with
  | [] => []
  | (clk, op) :: ops => option_list (event_for sid op st) ++ sent_to sid ops (relay_step cfg clk op st)
  end.
Fixpoint took (sid : string) (ops : list (Clock * RelayOp)) st : list SessionEvent :=
  match ops with
  | [] => []
  | (clk, op) :: ops => option_list (taken_by sid op st) ++ took sid ops (relay_step cfg clk op st)
  end.
(** The queue has room whenever something is sent. *)
Fixpoint never_full (sid : string) (ops : list (Clock * RelayOp)) st : bool :=
  match ops with
  | [] => true
  | (clk, op) :: ops =>
      match event_for sid op st, ry_channels st !! sid with
      | Some _, Some c => Nat.ltb (length (queued c)) (bound c)
      | _, _ => true
      end && never_full sid ops (relay_step cfg clk op st)
  end.
(** The identifier of a session is not used again and its request stays. *)
Definition undisturbed (sid : string) (ops : list (Clock * RelayOp)) : bool :=
  forallb (fun x => match x.2 with
                    | OpRegister _ p => negb (String.eqb (ps_session_id p) sid)
                    | OpHangUp s => negb (String.eqb s sid)
                    | _ => true
                    end) ops.

Lemma event_in_table sid op st : ry_sessions st !! sid = None -> event_for sid op st = None.
Proof. unfold event_for. by intros ->. Qed.
Lemma try_send_cases e c :
  listening c = true ->
  queued (try_send e c) = queued c ++ [e] /\ (length (queued c) < bound c)%nat \/
  queued (try_send e c) = queued c /\ (bound c <= length (queued c))%nat.
Proof.
  intros Hl. destruct (decide (length (queued c) < bound c)%nat) as [Hlt|Hge].
  - left. split; [by apply try_send_room|done].
  - right. split; [apply try_send_full|]; lia.
Qed.

(** One step of an open channel: what the request takes and what is queued then
    is what was queued and what was sent, unless there was no room for it. *)
Lemma channel_step clk op sid st c :
  ry_channels st !! sid = Some c -> listening c = true -> undisturbed sid [(clk, op)] = true ->
  exists c', ry_channels (relay_step cfg clk op st) !! sid = Some c' /\ listening c' = true /\
    (option_list (taken_by sid op st) ++ queued c' = queued c ++ option_list (event_for sid op st) \/
     (exists e, event_for sid op st = Some e) /\ (bound c <= length (queued c))%nat /\
     option_list (taken_by sid op st) ++ queued c' = queued c) /\
    (ry_sessions st !! sid = None -> ry_sessions (relay_step cfg clk op st) !! sid = None) /\
    (forall e, event_for sid op st = Some e -> is_end e = true -> ry_sessions (relay_step cfg clk op st) !! sid = None).
Proof.
  intros Hc Hl Hu. simpl in Hu. rewrite andb_true_r in Hu. destruct (about sid op) eqn:Ha.
  - assert (event_for sid op st = None) as ->.
    { unfold event_for. destruct (ry_sessions st !! sid); simpl; [|done]. by destruct op. }
    destruct op; simpl in Ha; try done; simpl in Hu.
    + by rewrite Ha in Hu.
    + apply String.eqb_eq in Ha as ->. exists c. simpl. rewrite lookup_delete_eq, app_nil_r. split_and!; auto.
    + simpl. rewrite Ha. apply String.eqb_eq in Ha as ->. rewrite Hc. simpl. unfold receive. rewrite Hc. simpl.
      destruct (queued c) as [|e l] eqn:Eq.
      * rewrite (try_recv_none c Eq). simpl. exists c. destruct (ry_sessions st !! sid) eqn:Es; simpl;
          (split; [done|]); (split; [done|]); (split; [left; by rewrite Eq|]); by rewrite ?Es.
      * destruct (try_recv_next c e l Eq) as (c' & -> & Hq & _ & Hl'). simpl. exists c'. rewrite lookup_insert_eq.
        split; [done|]. split; [congruence|]. split; [left; by rewrite Hq, app_nil_r|done].
    + by rewrite Ha in Hu.
  - destruct (sends_step clk op sid st Ha) as [E1 E2]. unfold chan_after, sessions_after in *. rewrite Hc in E1. simpl in E1.
    assert (taken_by sid op st = None) as -> by (destruct op; try done; simpl in *; by rewrite Ha).
    destruct (event_for sid op st) as [e|] eqn:Ee; simpl.
    + exists (try_send e c). split; [done|]. split; [by rewrite (proj2 (try_send_frame e c))|].
      split; [|split; [|by intros e' [= <-] He; rewrite E2, He]].
      * destruct (try_send_cases e c Hl) as [[-> _]|[-> Hf]]; [by left|right]. eauto.
      * intros Hn. rewrite E2, Hn. by destruct (is_end e).
    + exists c. split; [done|]. split; [done|]. split; [left; by rewrite app_nil_r|]. by rewrite E2.
Qed.

Lemma gone_gets_nothing sid ops st :
  undisturbed sid ops = true -> ry_sessions st !! sid = None ->
  sent_to sid ops st = [] /\ ry_sessions (relay_run ops st) !! sid = None /\ never_full sid ops st = true.
Proof.
  revert st. induction ops as [|[clk op] ops IH]; intros st; [done|]. intros [Hu Hus]%andb_true_iff Hn. simpl.
  rewrite (event_in_table _ _ _ Hn). simpl. apply IH; [done|]. destruct (about sid op) eqn:Ha.
  - destruct op; simpl in Ha; try done; simpl in Hu; try (by rewrite Ha in Hu).
    + apply String.eqb_eq in Ha as ->. simpl. by rewrite lookup_delete_eq.
    + simpl. unfold receive. destruct (ry_channels st !! session_id) as [c|]; simpl; [|done].
      destruct (try_recv c) as [[e c']|]; [done|]. by destruct (ry_sessions st !! session_id).
  - destruct (sends_step clk op sid st Ha) as [_ E2]. unfold sessions_after in E2.
    by rewrite E2, (event_in_table _ _ _ Hn).
Qed.

Lemma channel_run sid ops st c :
  ry_channels st !! sid = Some c -> listening c = true -> undisturbed sid ops = true ->
  exists c', ry_channels (relay_run ops st) !! sid = Some c' /\
    sublist (took sid ops st ++ queued c') (queued c ++ sent_to sid ops st) /\
    (never_full sid ops st = true -> took sid ops st ++ queued c' = queued c ++ sent_to sid ops st).
Proof.
  revert st c. induction ops as [|[clk op] ops IH]; intros st c Hc Hl; simpl.
  - intros _. exists c. by rewrite app_nil_r.
  - intros [Hu Hus]%andb_true_iff.
    destruct (channel_step clk op sid st c Hc Hl) as (c1 & Hc1 & Hl1 & Hq & _); [simpl; by rewrite Hu|].
    destruct (IH _ c1 Hc1 Hl1 Hus) as (c' & Hc' & Hsub & Hall). exists c'. split; [done|]. rewrite Hc.
    destruct Hq as [Hq|([e He] & Hf & Hq)].
    + rewrite (app_assoc (queued c)), <- Hq, <- !app_assoc. split; [by apply sublist_app|].
      intros [_ Hn]%andb_true_iff. by rewrite (Hall Hn).
    + rewrite He. split.
      * rewrite <- app_assoc. etransitivity; [by apply sublist_app|]. rewrite app_assoc, Hq.
        apply sublist_app; [done|]. by apply sublist_inserts_l.
      * intros [Hr _]%andb_true_iff. apply Nat.ltb_lt in Hr. lia.
Qed.

(** At most one end event, and only chunks before it. *)
Lemma sent_shape sid ops st c :
  ry_channels st !! sid = Some c -> listening c = true -> undisturbed sid ops = true ->
  exists chunks last, sent_to sid ops st = (Chunk <$> chunks) ++ option_list last /\
    (forall e, last = Some e -> is_end e = true /\ ry_sessions (relay_run ops st) !! sid = None).
Proof.
  revert st c. induction ops as [|[clk op] ops IH]; intros st c Hc Hl; [by exists [], None|].
  simpl. intros [Hu Hus]%andb_true_iff.
  destruct (channel_step clk op sid st c Hc Hl) as (c1 & Hc1 & Hl1 & _ & _ & Hend); [simpl; by rewrite Hu|].
  destruct (event_for sid op st) as [e|] eqn:Ee; simpl; [|by apply (IH _ c1)].
  destruct (is_end e) eqn:He.
  - destruct (gone_gets_nothing sid ops _ Hus (Hend e eq_refl He)) as (-> & Hn & _).
    exists [], (Some e). split; [done|]. by intros e' [= <-].
  - destruct (IH _ c1 Hc1 Hl1 Hus) as (chunks & last & -> & Hlast). destruct e as [v| | | | |]; try done.
    by exists (v :: chunks), last.
Qed.

Lemma receive_gone sid st c :
  ry_channels st !! sid = Some c -> ry_sessions st !! sid = None ->
  match queued c with
  | [] => receive sid st = Some (ChannelClosed, st)
  | e :: l => exists st', receive sid st = Some (e, st') /\ queued <$> ry_channels st' !! sid = Some l
  end.
Proof.
  intros Hc Hn. unfold receive. rewrite Hc. simpl. destruct (queued c) as [|e l] eqn:Eq.
  - by rewrite (try_recv_none c Eq), Hn.
  - destruct (try_recv_next c e l Eq) as (c' & -> & Hq & _ & _). eexists. split; [done|].
    simpl. rewrite lookup_insert_eq. simpl. by rewrite Hq.
Qed.

(** C20: What a request reads is what the relay sent to its session.  From
    [register_session] on, with any messages of the relay, connections and other
    sessions in between: what the request took, followed by what is queued, is
    what was sent to the session with some events missing, and nothing is
    missing if the queue had room for each; there are only chunks, then at most
    one end event; and once the session is out of the table the queue does not
    keep the request waiting: it empties, then reads as closed. *)
Theorem session_stream (slots : nat) (p : PendingSession) (ops : list (Clock * RelayOp)) st0 :
  let sid := ps_session_id p in
  let st1 := register_session slots p st0 in
  let st := relay_run ops st1 in
  undisturbed sid ops = true ->
  exists c, ry_channels st !! sid = Some c /\
    sublist (took sid ops st1 ++ queued c) (sent_to sid ops st1) /\
    (never_full sid ops st1 = true -> took sid ops st1 ++ queued c = sent_to sid ops st1) /\
    (exists chunks last, sent_to sid ops st1 = (Chunk <$> chunks) ++ option_list last /\
       (forall e, last = Some e -> is_end e = true /\ ry_sessions st !! sid = None)) /\
    (ry_sessions st !! sid = None ->
       match queued c with
       | [] => receive sid st = Some (ChannelClosed, st)
       | e :: l => exists st', receive sid st = Some (e, st') /\ queued <$> ry_channels st' !! sid = Some l
       end).
Proof.
  simpl. intros Hu. destruct (channel_new slots) as (Hq & _ & Hl).
  assert (ry_channels (register_session slots p st0) !! ps_session_id p = Some (channel slots)) as Hc
    by (simpl; apply lookup_insert_eq).
  destruct (channel_run _ ops _ _ Hc Hl Hu) as (c & Hc' & Hsub & Hall). rewrite Hq in Hsub, Hall.
  exists c. split; [done|]. split; [exact Hsub|]. split; [exact Hall|]. split; [by eapply sent_shape|].
  intros Hn. unfold receive. rewrite Hc'. simpl. destruct (queued c) as [|e l] eqn:Ec.
  - by rewrite (try_recv_none c Ec), Hn.
  - destruct (try_recv_next c e l Ec) as (c' & -> & Hq' & _). eexists. split; [done|]. simpl.
    rewrite lookup_insert_eq. simpl. by rewrite Hq'.
Qed.

(** C21: Nothing in flight survives the end of a connection.  Then the tables of
    sessions and waiters are empty and whoever waits for [relayReady] is refused.
    A request with an open session goes on reading exactly what was in its
    queue, in order, then the disconnect, if its queue had room for it, then a
    closed channel, whatever the relay does next; it never waits again. *)
Theorem disconnect_ends_everything st :
  let st1 := disconnect st in
  ry_sessions st1 = ∅ /\ ry_waiters st1 = ∅ /\
  (forall sid, open_wait sid st = OpenPending -> open_wait sid st1 = OpenRefused "session ready waiter dropped") /\
  (forall sid p c, ry_sessions st !! sid = Some p -> ry_channels st !! sid = Some c -> listening c = true ->
     forall ops, undisturbed sid ops = true ->
     exists c', ry_channels (relay_run ops st1) !! sid = Some c' /\
       took sid ops st1 ++ queued c' =
         queued c ++ (if Nat.ltb (length (queued c)) (bound c) then [Disconnect "relay disconnected"] else []) /\
       match queued c' with
       | [] => receive sid (relay_run ops st1) = Some (ChannelClosed, relay_run ops st1)
       | e :: l => exists st', receive sid (relay_run ops st1) = Some (e, st') /\ queued <$> ry_channels st' !! sid = Some l
       end).
Proof.
  assert (ry_sessions (disconnect st) = ∅) as Hnone.
  { apply map_empty. intros s. apply map_lookup_filter_None. right. by intros p _. }
  simpl. split; [exact Hnone|]. split; [done|]. split.
  - intros sid. unfold open_wait. simpl. rewrite lookup_empty.
    destruct (ry_ready st !! sid) as [[]|]; [done..|]. done.
  - intros sid p c Hp Hc Hl ops Hu.
    assert (ry_channels (disconnect st) !! sid = Some (try_send (Disconnect "relay disconnected") c)) as Hc1.
    { simpl. rewrite map_lookup_imap, Hc. simpl. by rewrite Hp. }
    destruct (gone_gets_nothing sid ops (disconnect st) Hu) as (Hs & Hg & Hf); [by rewrite Hnone|].
    destruct (channel_run sid ops _ _ Hc1) as (c' & Hc' & _ & Hq); [by rewrite (proj2 (try_send_frame _ c))|done|].
    exists c'. split; [done|]. split; [|by apply receive_gone].
    rewrite (Hq Hf), Hs, app_nil_r. destruct (Nat.ltb_spec (length (queued c)) (bound c)).
    + by apply try_send_room.
    + rewrite app_nil_r. by apply try_send_full.
Qed.
End Streams.

(** ** A channel and an encoding *)

Record ToyChannel : Type := mkToyChannel { tc_queue : list SessionEvent; tc_bound : nat; tc_open : bool }.
#[export] Instance toy_mpsc : Mpsc := {|
  mpsc := ToyChannel;
  channel n := mkToyChannel [] n true;
  try_send e c :=
    if tc_open c && Nat.ltb (length (tc_queue c)) (tc_bound c)
    then mkToyChannel (tc_queue c ++ [e]) (tc_bound c) true else c;
  try_recv c := match tc_queue c with [] => None | e :: l => Some (e, mkToyChannel l (tc_bound c) (tc_open c)) end;
  drop_receiver c := mkToyChannel [] (tc_bound c) false;
  queued := tc_queue;
  bound := tc_bound;
  listening := tc_open
|}.
#[export] Instance toy_mpsc_laws : MpscLaws.
Proof.
  split; simpl.
  - done.
  - intros e [q b []]; simpl; [|done]. by destruct (Nat.ltb _ _).
  - intros e [q b o]. simpl. intros -> Hl. simpl. by apply Nat.ltb_lt in Hl as ->.
  - intros e [q b o]. simpl. intros Hl. destruct (Nat.ltb_spec (length q) b); [lia|]. by rewrite andb_false_r.
  - intros [q b o] e l. simpl. intros ->. eauto.
  - intros [q b o]. simpl. by intros ->.
  - done.
Qed.
#[export] Instance toy_base64 : Base64 := {| base64_encode := of_bytes; base64_decode s := Some (bytes s) |}.
#[export] Instance toy_base64_laws : Base64Laws.
Proof. split. intros l. simpl. by rewrite bytes_of_bytes. Qed.

Definition toy_relay_config : RelaySettings := mkRelaySettings "gateway" 60 60 ["node"] ["emp"] true.

(** ** Frames

    The JSON texts of the runs, by short names. *)

Definition data_json (from sid name : string) : Json :=
  JObject [("relayData", JObject [("data", JString name); ("fromNodeID", JString from);
                                  ("sessionID", JString sid); ("toNodeID", JString "gateway")])].
Definition cluster_json (kind : string) (o : list (string * Json)) : Json := JObject [(kind, JObject [("_0", JObject o)])].
Definition chunk_json (c : Json) : Json := cluster_json "inferenceChunk" [("chunk", c); ("requestID", JString "r")].
Definition complete_json (n : Z) : Json := cluster_json "inferenceComplete" [("requestID", JString "r"); ("tokensOut", JNumber n)].
Definition toy_caps_json : Json :=
  JObject [("hardware", JObject [("chipFamily", JString "m"); ("chipName", JString "M4"); ("totalRAMGB", JNumber 16);
                                 ("gpuCoreCount", JNumber 10); ("memoryBandwidthGBs", JNumber 100); ("tier", JNumber 1)]);
           ("loadedModels", JArray [JString "hermes-3-8b"]); ("maxModelSizeGB", JNumber 16); ("isAvailable", JBool true);
           ("backendSlotsBusy", JNumber 0); ("backendSlotsTotal", JNumber 2)].
Definition toy_peer (node_id : string) : Json :=
  JObject [("nodeID", JString node_id); ("displayName", JString "Studio"); ("capabilities", toy_caps_json)].
Definition texts : list (string * Json) :=
  [("chunk one", chunk_json (toy_chunk "one")); ("chunk two", chunk_json (toy_chunk "two"));
   ("complete 2", complete_json 2); ("complete 130", complete_json 130);
   ("node s1 one", data_json "node" "s1" "chunk one"); ("node s1 two", data_json "node" "s1" "chunk two");
   ("node s2 one", data_json "node" "s2" "chunk one"); ("mallory s1 one", data_json "mallory" "s1" "chunk one");
   ("node s1 complete 2", data_json "node" "s1" "complete 2"); ("node s1 complete 130", data_json "node" "s1" "complete 130");
   ("discovered", JObject [("discoverResponse", JObject [("peers", JArray [toy_peer "mallory"; toy_peer "emp"; toy_peer "node"])])])].
#[export] Instance named_wire : WireCrates := {|
  json_text := json_text (WireCrates := toy_wire);
  json_parse l := snd <$> find (fun t => String.eqb t.1 (of_bytes l)) texts;
  SigningKey := bool;
  VerifyingKey := bool;
  verifying_key := verifying_key (WireCrates := toy_wire);
  vk_bytes := vk_bytes (WireCrates := toy_wire);
  vk_from_bytes := vk_from_bytes (WireCrates := toy_wire);
  sign := sign (WireCrates := toy_wire);
  vk_verify := vk_verify (WireCrates := toy_wire)
|}.

Definition toy_session : PendingSession := mkPendingSession "r" "node" "s1".
Definition toy_start : RelayState := connect (JObject []) (new_relay toy_one_device).

(** ** A session *)

Definition toy_relay_run (ops : list RelayOp) (st : RelayState) : RelayState :=
  relay_run toy_relay_config ((fun op => (at_secs 2, op)) <$> ops) st.
Definition toy_took (sid : string) (ops : list RelayOp) (st : RelayState) : list SessionEvent :=
  took toy_relay_config sid ((fun op => (at_secs 2, op)) <$> ops) st.

Definition short_stream : list RelayOp :=
  [OpFrame "node s1 one"; OpReceive "s1"; OpFrame "node s2 one"; OpFrame "node s1 two"; OpFrame "node s1 complete 2";
   OpFrame "node s1 one"; OpReceive "s1"].
Definition at_two (ops : list RelayOp) : list (Clock * RelayOp) := (fun op => (at_secs 2, op)) <$> ops.
Definition opened_session : RelayState := register_session SESSION_CHANNEL toy_session toy_start.

Lemma session_stream_witness :
  exists c, ry_channels (toy_relay_run short_stream opened_session) !! "s1" = Some c /\
    queued c = [Complete (Some 2)] /\
    toy_took "s1" short_stream opened_session = [Chunk (toy_chunk "one"); Chunk (toy_chunk "two")] /\
    toy_took "s1" short_stream opened_session ++ queued c = sent_to toy_relay_config "s1" (at_two short_stream) opened_session.
Proof.
  destruct (@session_stream toy_mpsc toy_mpsc_laws named_wire toy_base64 toy_relay_config SESSION_CHANNEL toy_session
              (at_two short_stream) toy_start) as (c & Hc & _ & Hall & _); [vm_compute; done|].
  assert (toy_took "s1" short_stream opened_session ++ queued c = sent_to toy_relay_config "s1" (at_two short_stream) opened_session)
    as Hq by (apply Hall; vm_compute; done).
  assert (queued <$> ry_channels (toy_relay_run short_stream opened_session) !! "s1" = Some [Complete (Some 2)]) as Hc'
    by (vm_compute; done).
  change (ry_channels (toy_relay_run short_stream opened_session) !! "s1" = Some c) in Hc. rewrite Hc in Hc'.
  exists c. split; [exact Hc|]. split; [by injection Hc'|]. split; [vm_compute; done|exact Hq].
Defined.

(** One chunk is waiting when the connection ends. *)
Definition after_end : list RelayOp := [OpFrame "node s1 one"; OpReceive "s1"; OpDiscoverTick; OpReceive "s1"].
Definition one_waiting : RelayState := toy_relay_run [OpFrame "node s1 two"] opened_session.
Lemma disconnect_ends_everything_witness :
  toy_took "s1" after_end (disconnect one_waiting) = [Chunk (toy_chunk "two"); Disconnect "relay disconnected"] /\
  exists c, ry_channels (toy_relay_run after_end (disconnect one_waiting)) !! "s1" = Some c /\
    toy_took "s1" after_end (disconnect one_waiting) ++ queued c =
      [Chunk (toy_chunk "two"); Disconnect "relay disconnected"].
Proof.
  split; [vm_compute; done|].
  destruct (@disconnect_ends_everything toy_mpsc toy_mpsc_laws named_wire toy_base64 toy_relay_config one_waiting)
    as (_ & _ & _ & Hall).
  destruct (ry_channels one_waiting !! "s1") as [c|] eqn:Ec; [|vm_compute in Ec; discriminate Ec].
  destruct (Hall "s1" toy_session c eq_refl Ec) with (ops := at_two after_end) as (c' & Hc' & Hq & _).
  - vm_compute in Ec. injection Ec as <-. reflexivity.
  - vm_compute. reflexivity.
  - exists c'. split; [exact Hc'|]. refine (eq_trans Hq _). vm_compute in Ec. injection Ec as <-. vm_compute. reflexivity.
Defined.

(** ** What the comments do not say *)

(** A node 129 chunks ahead of its request: the 129th is dropped, and the request
    then reads the rest and a regular end. *)
Theorem burst_loses_text :
  let burst := replicate 129 (OpFrame "node s1 one") ++ [OpReceive "s1"; OpFrame "node s1 complete 130"] in
  let drain := replicate 128 (OpReceive "s1") in
  toy_took "s1" (burst ++ drain) opened_session =
    replicate 128 (Chunk (toy_chunk "one")) ++ [Complete (Some 130)].
Proof. vm_compute. done. Qed.
(** With no room for it the end is lost too: the request reads a closed channel. *)
Theorem burst_loses_the_end :
  let burst := replicate 129 (OpFrame "node s1 one") ++ [OpFrame "node s1 complete 130"] in
  let drain := replicate 129 (OpReceive "s1") in
  toy_took "s1" (burst ++ drain) opened_session = replicate 128 (Chunk (toy_chunk "one")) /\
  fst <$> receive "s1" (toy_relay_run (burst ++ drain) opened_session) = Some ChannelClosed.
Proof. vm_compute. done. Qed.

(** A connection that ends between [relayReady] and [register_session]: the
    session is in the table of the next connection, its request was dropped, and
    it waits for events nobody will send. *)
Theorem late_session_waits :
  let st := toy_relay_run [OpDisconnect; OpRegister SESSION_CHANNEL toy_session;
                           OpSendCluster "node" "s1" (JObject []); OpConnect (JObject [])] toy_start in
  ry_sessions st !! "s1" = Some toy_session /\ receive "s1" st = None /\ ry_sent st = [JObject []; JObject []].
Proof. vm_compute. done. Qed.

(** The events of a session come from whoever names it: the session has a device,
    which is not compared with the sender. *)
Theorem sender_not_checked `{Mpsc} (cfg : RelaySettings) clk m sid from from' st p :
  ry_sessions st !! sid = Some p ->
  match m with Heartbeat _ | HeartbeatAck _ => False | _ => True end ->
  dispatch_cluster cfg clk m sid from st = dispatch_cluster cfg clk m sid from' st.
Proof. intros Hp Hm. destruct m; try done. simpl. by rewrite Hp. Qed.
(** Nor is the sender of a heartbeat known: it is the name in the message. *)
Theorem heartbeat_names_anyone `{Mpsc} (cfg : RelaySettings) clk hb sid from st :
  ry_registry (dispatch_cluster cfg clk (Heartbeat hb) sid from st) = apply_heartbeat clk from hb (ry_registry st).
Proof. done. Qed.

(** One answer per ghost session: with fewer than 512 of them a second one never
    comes, however old the first is. *)
Theorem ghost_closed_once_for_all `{Mpsc} (cfg : RelaySettings) clk clk' from from' sid st :
  ghost_close_once cfg clk' from' sid (ghost_close_once cfg clk from sid st) = ghost_close_once cfg clk from sid st.
Proof.
  assert (forall st', is_Some (ry_ghost_closes st' !! sid) -> ghost_close_once cfg clk' from' sid st' = st') as Hdone.
  { intros st' [t Ht]. unfold ghost_close_once. by rewrite Ht. }
  apply Hdone. unfold ghost_close_once at 1. destruct (ry_ghost_closes st !! sid) as [t|] eqn:E; [by rewrite E|].
  simpl. rewrite lookup_insert_eq. by eexists.
Qed.
