(* ===== verification/RelaySupply.v ===== *)
(** * Which machines may serve

    The relay is open to anybody; the registry is fed by what it announces.  The
    tiers the discover handler gives to the devices survive everything else the
    gateway does, so that a prompt is only dispatched to a listed machine. *)

From S2P Require Import Prelude Db RustStr Merkle F64 Registry RegistryFacts Scheduler.
From S2P Require Import Pins Auth PinWire Catalog ChatPrepare Chat ChatDispatch Anthropic RelayWire RelayClient.
From S2P Require Import SchedulerFacts AnthropicRuns ChatFixtures RelayStreams.

Open Scope string_scope.
Open Scope list_scope.
Open Scope Z_scope.

(** ** Devices keep their tier *)

Definition same_tier (d d' : DeviceState) : Prop :=
  node_id d' = node_id d /\ employee d' = employee d /\ probation d' = probation d.
Definition same_tiers (r r' : Registry) : Prop :=
  forall n d', devices r' !! n = Some d' -> exists d, devices r !! n = Some d /\ same_tier d d'.

Lemma tiers_refl r : same_tiers r r.
Proof. intros n d Hd. by exists d. Qed.
Lemma tiers_trans r1 r2 r3 : same_tiers r1 r2 -> same_tiers r2 r3 -> same_tiers r1 r3.
Proof.
  intros H12 H23 n d3 (d2 & Hd2 & E1 & E2 & E3)%H23. apply H12 in Hd2 as (d1 & Hd1 & F1 & F2 & F3).
  exists d1. split; [done|]. split_and!; congruence.
Qed.
Lemma tiers_devices r r' : devices r' = devices r -> same_tiers r r'.
Proof. intros E n d. rewrite E. intros Hd. by exists d. Qed.
Lemma tiers_alter g n r r' :
  (forall d, same_tier d (g d)) -> devices r' = alter g n (devices r) -> same_tiers r r'.
Proof.
  intros Hg E m d'. rewrite E. destruct (decide (m = n)) as [->|Hne].
  - rewrite lookup_alter_eq. destruct (devices r !! n) as [d|]; [|done]. intros [= <-]. by exists d.
  - rewrite lookup_alter_ne by done. intros Hd. by exists d'.
Qed.
Lemma tiers_excess r r' : only_excess r r' -> same_tiers r r'.
Proof. intros (_ & _ & [E|(n & x & E)]); [by apply tiers_devices|]. by apply (tiers_alter (set_busy_excess x) n). Qed.

Section Supply.
Context `{Crates} `{WireCrates}.

Lemma tiers_quarantine clk n secs r : same_tiers r (quarantine clk n secs r).
Proof. by apply (tiers_alter (set_quarantined (Some (instant clk + from_secs secs))) n). Qed.
Lemma tiers_quarantine_if b clk n r : same_tiers r (quarantine_if b clk n r).
Proof. unfold quarantine_if. destruct (_ && _); [apply tiers_quarantine|apply tiers_refl]. Qed.
Lemma tiers_heartbeat clk n hb r : same_tiers r (apply_heartbeat clk n hb r).
Proof.
  unfold apply_heartbeat. destruct (_ !! n); [|apply tiers_refl].
  eapply (tiers_alter (device_apply_heartbeat clk hb) n); [done|]. by rewrite rebuild_devices.
Qed.
Lemma tiers_departed clk n r : same_tiers r (mark_departed clk n r).
Proof.
  apply (tiers_alter (fun d => match departed_at d with None => set_departed (Some (instant clk)) d | Some _ => d end) n); [|done].
  intros d. by destruct (departed_at d).
Qed.
Lemma tiers_removes l r : same_tiers r (foldl (fun r n => remove_device n r) r l).
Proof. intros n d. rewrite removes_lookup. case_decide; [done|]. intros Hd. by exists d. Qed.
Lemma tiers_sweep clk r : same_tiers r (sweep clk r).
Proof.
  unfold sweep. eapply tiers_trans; [apply tiers_removes|]. intros n d'. simpl. rewrite lookup_fmap.
  destruct (_ !! n) as [d|] eqn:E; [|done]. intros [= <-]. exists d. split; [exact E|]. unfold sweep_device.
  destruct (heartbeat_is_stale _ _ d); simpl; destruct (quarantined_until d) as [t|]; [destruct (_ <=? _)|..|destruct (_ <=? _)|]; by split_and!.
Qed.
Lemma tiers_convo clk key r : same_tiers r (convo_node clk key r).2.
Proof.
  apply tiers_devices. unfold convo_node. destruct (_ =? 0); [done|].
  destruct (_ !! key) as [[]|]; [by destruct (convo_fresh _ _ _)|done].
Qed.
Lemma tiers_note_convo clk key n r : same_tiers r (note_convo clk key n r).
Proof. apply tiers_devices. unfold note_convo. by destruct (_ =? 0). Qed.
Lemma tiers_admit clk n hv owner r : same_tiers r (admit_request clk n hv owner r).2.
Proof. apply tiers_excess, admit_effect. Qed.
Lemma tiers_release clk n m hv r : same_tiers r (release clk n m hv r).
Proof. eapply tiers_trans; [|apply tiers_excess, dec_in_flight_effect]. by apply tiers_devices. Qed.
Lemma tiers_release_quarantine b clk n m hv r r0 :
  same_tiers r r0 -> same_tiers r (quarantine_if b clk n (release clk n m hv r0)).
Proof. intros Hr. eapply tiers_trans; [exact Hr|]. eapply tiers_trans; [apply tiers_release|apply tiers_quarantine_if]. Qed.

Context (powf : f64 -> f64 -> f64) (ccfg : ChatConfig) (sql_text : SqlError -> string).

Lemma tiers_select env p dx r : same_tiers r (select powf ccfg env p dx r).2.
Proof.
  unfold select. destruct (_ && _); [apply tiers_refl|]. unfold sticky_node.
  destruct (convo_key p) as [key|].
  - pose proof (tiers_convo (e_clk env) key r) as Hq. destruct (convo_node (e_clk env) key r) as [o r'].
    simpl in *. by destruct (pick _ _ _ _ _ _ _ _ _); [|destruct (pick _ _ _ _ _ _ _ _ _)].
  - simpl. destruct (pick _ _ _ _ _ _ _ _ _); [|destruct (pick _ _ _ _ _ _ _ _ _)]; apply tiers_refl.
Qed.
Lemma tiers_gone env q r : same_tiers r (client_gone env q r).2.
Proof. unfold client_gone. destruct (q_phase q); first [apply tiers_refl|apply tiers_release]. Qed.
Lemma tiers_stream_failed env a ev q r : same_tiers r (stream_failed env a ev q r).2.
Proof.
  unfold stream_failed, stream_close. destruct (negb _); [apply tiers_refl|].
  destruct (at_cold_start_grace a); simpl; [by apply tiers_release_quarantine, tiers_refl|].
  destruct (at_beside_heavy a); [by apply tiers_release_quarantine, tiers_refl|].
  eapply tiers_trans; [|apply tiers_quarantine]. by apply tiers_release_quarantine, tiers_refl.
Qed.
Lemma tiers_buffer_failed env a ev q r : same_tiers r (buffer_failed env a ev q r).2.
Proof.
  unfold buffer_failed. cbv zeta. destruct (is_retriable _ _ _ _); [|by apply tiers_release_quarantine, tiers_refl].
  destruct (_ || at_cold_start_grace a); simpl; [by apply tiers_release_quarantine, tiers_refl|].
  destruct (_ && negb (at_beside_heavy a)); [|by apply tiers_release_quarantine, tiers_refl].
  eapply tiers_trans; [|apply tiers_quarantine]. by apply tiers_release_quarantine, tiers_refl.
Qed.
Lemma tiers_relay_failed clk cold dx n m q r : same_tiers r (relay_failed clk cold dx n m q r).2.
Proof.
  unfold relay_failed. destruct (_ && _); [apply tiers_refl|]. simpl.
  eapply tiers_trans; [apply tiers_quarantine|apply tiers_release].
Qed.
Lemma settle_registry env q n t s : sh_reg (settle env q n t s) = sh_reg s.
Proof. unfold settle. destruct (pr_consumer _), (sh_db s); try done. by destruct (Settlement.settle_request _ _ _ _ _ _ _ _). Qed.

Lemma tiers_request_step env i q s q' s' :
  request_step powf ccfg env i q s = Some (q', s') -> same_tiers (sh_reg s) (sh_reg s').
Proof.
  unfold request_step. pose proof (tiers_gone env q (sh_reg s)) as Hg. destruct (client_gone env q (sh_reg s)) as [qg rg].
  destruct (q_phase q) as [|cold dx|cold dx n|cold dx n|cold dx n|a|a ev|n rep|o];
    destruct i as [|o'|e|]; try done; try (by intros [= _ <-]); try (by intros [= _ <-]; apply tiers_refl).
  - pose proof (tiers_select env (q_prepared q) dx (sh_reg s)) as Hs. destruct (select _ _ _ _ _ _) as [res r'].
    by intros [= _ <-].
  - pose proof (tiers_admit (e_clk env) n (request_heavy (q_prepared q) (reliability (sh_reg s))) (owner_key (q_prepared q)) (sh_reg s)) as Ha.
    unfold admit_step. destruct (admit_request _ _ _ _ _) as [[|] r']; intros [= _ <-]; simpl; [|done].
    eapply tiers_trans; [exact Ha|]. by apply tiers_devices.
  - pose proof (fun m => tiers_relay_failed (e_clk env) cold dx n m q (sh_reg s)) as Hf. destruct o' as [e|e|].
    + specialize (Hf ("relay open: " ++ e)%string). destruct (relay_failed _ _ _ _ _ _ _). by intros [= _ <-].
    + specialize (Hf ("relay send: " ++ e)%string). destruct (relay_failed _ _ _ _ _ _ _). by intros [= _ <-].
    + intros [= _ <-]. simpl. destruct (convo_key _); [apply tiers_note_convo|apply tiers_refl].
  - intros [= _ <-]. apply tiers_release.
  - pose proof (tiers_stream_failed env a e q (sh_reg s)) as Hsf. pose proof (tiers_buffer_failed env a e q (sh_reg s)) as Hbf.
    unfold session_step. destruct (stream_failed _ _ _ _ _) as [qs rs], (buffer_failed _ _ _ _ _) as [qb rb].
    destruct e; destruct (pr_streaming (q_prepared q)); intros [= _ <-]; rewrite ?settle_registry;
      first [done|apply tiers_refl|apply tiers_release].
  - intros [= _ <-]. simpl. unfold stream_close. by apply tiers_release_quarantine, tiers_refl.
  - intros [= _ <-]. rewrite settle_registry. apply tiers_refl.
Qed.

Lemma tiers_close_session env a f t r : same_tiers r (Anthropic.close_session env a f t r).
Proof.
  unfold Anthropic.close_session. destruct (_ && _); [|apply tiers_release].
  eapply tiers_trans; [apply tiers_release|apply tiers_quarantine].
Qed.
Lemma tiers_turn_failed env a ev t r : same_tiers r (turn_failed sql_text env a ev t r).2.
Proof.
  unfold turn_failed. destruct (is_retriable _ _ _ _).
  - destruct (at_cold_start_grace a); simpl; [apply tiers_close_session|].
    destruct (at_beside_heavy a); [apply tiers_close_session|].
    eapply tiers_trans; [apply tiers_close_session|apply tiers_quarantine].
  - destruct (pr_streaming _); [apply tiers_refl|apply tiers_close_session].
Qed.
Lemma settle_success_registry env t n s : sh_reg (settle_success env t n s) = sh_reg s.
Proof.
  unfold settle_success. destruct (pr_consumer _), (sh_db s); try done. by destruct (Settlement.settle_request _ _ _ _ _ _ _ _).
Qed.
Lemma tiers_turn_step env i t s t' s' :
  turn_step powf ccfg sql_text env i t s = Some (t', s') -> same_tiers (sh_reg s) (sh_reg s').
Proof.
  unfold turn_step. pose proof (tiers_gone env (tn_request t) (sh_reg s)) as Hg.
  pose proof (tiers_request_step env i (tn_request t) s) as Hq.
  destruct (client_gone env (tn_request t) (sh_reg s)) as [qg rg].
  destruct (q_phase (tn_request t)) as [|cold dx|cold dx n|cold dx n|cold dx n|a|a ev|n rep|o];
    destruct i as [|o'|e|]; try done; try (by intros [= _ <-]); try (by intros [= _ <-]; apply tiers_refl);
    try (destruct (request_step _ _ _ _ _ _) as [[q1 s1]|]; [|done]; intros [= _ <-]; by eapply Hq).
  - pose proof (tiers_select env (q_prepared (tn_request t)) dx (sh_reg s)) as Hs.
    destruct (select _ _ _ _ _ _) as [res r']. by intros [= _ <-].
  - destruct (request_step _ _ _ _ _ _) as [[q1 s1]|]; [|by destruct o']. destruct o'; intros [= _ <-]; by eapply Hq.
  - pose proof (tiers_turn_failed env a e t (sh_reg s)) as Hf. unfold turn_session.
    destruct (turn_failed _ _ _ _ _ _) as [t1 r1]. destruct e; try (by intros [= _ <-]).
    + intros [= _ <-]. apply tiers_refl.
    + unfold turn_complete. destruct (pr_streaming _); intros [= _ <-]; rewrite ?settle_success_registry; apply tiers_release.
  - intros [= _ <-]. apply tiers_close_session.
  - intros [= _ <-]. rewrite settle_success_registry. apply tiers_refl.
Qed.
End Supply.

(** ** The gate *)

Section Gate.
Context `{Mpsc} `{Crates} `{WireCrates} `{Base64} (cfg : RelaySettings).
Context (powf : f64 -> f64 -> f64) (ccfg : ChatConfig) (sql_text : SqlError -> string).

(** The tier of a device: of the fleet, of the employee lane, or on probation. *)
Definition gate (n : string) (d : DeviceState) : Prop :=
  node_id d = n /\
  employee d = is_employee cfg n && negb (fleet_allows cfg n) /\
  probation d = negb (fleet_allows cfg n) && negb (is_employee cfg n) /\
  (probation d = true -> rc_stranger_enabled cfg = true).
Definition gated (r : Registry) : Prop := forall n d, devices r !! n = Some d -> gate n d.

Lemma gated_same r r' : same_tiers r r' -> gated r -> gated r'.
Proof.
  intros Hs Hg n d' (d & Hd & E1 & E2 & E3)%Hs. apply Hg in Hd. unfold gate in *. by rewrite E1, E2, E3.
Qed.
Lemma gated_peer clk peer r : gated r -> gated (discover_peer cfg clk peer r).
Proof.
  intros Hg. unfold discover_peer. destruct peer as [| | | | |obj]; try done.
  destruct (_ ≫= as_string) as [n|]; [|done]. destruct (field "capabilities" obj) as [caps_json|]; [|done].
  destruct (negb (fleet_allows cfg n) && _ && _) eqn:Ed; [done|]. destruct (capabilities_of caps_json) as [caps|]; [|done].
  intros m d. unfold upsert_device_with_tier. rewrite rebuild_devices. simpl. destruct (decide (m = n)) as [->|Hne].
  - rewrite lookup_insert_eq. intros [= <-]. unfold gate. simpl. split.
    + destruct (devices r !! n) as [d|] eqn:E; simpl; [by apply Hg|done].
    + split; [done|]. destruct (fleet_allows cfg n), (is_employee cfg n), (rc_stranger_enabled cfg); done.
  - rewrite lookup_insert_ne by done. apply Hg.
Qed.
Lemma gated_discover clk peers r : gated r -> gated (foldl (fun r peer => discover_peer cfg clk peer r) r peers).
Proof. revert r. induction peers as [|p peers IH]; intros r Hg; [done|]. by apply IH, gated_peer. Qed.

Lemma finish_registry sid e st : ry_registry (finish_session sid e st) = ry_registry st.
Proof. unfold finish_session. by destruct (ry_sessions st !! sid). Qed.
Lemma gated_dispatch clk m sid from st :
  gated (ry_registry st) -> gated (ry_registry (dispatch_cluster cfg clk m sid from st)).
Proof.
  intros Hg. destruct m; try done; simpl; rewrite ?finish_registry; try done;
    try (eapply gated_same; [apply tiers_heartbeat|done]).
  destruct (ry_sessions st !! sid); [done|]. unfold ghost_close_once. by destruct (_ !! sid).
Qed.
Lemma gated_incoming clk m st : gated (ry_registry st) -> gated (ry_registry (handle_incoming cfg clk m st)).
Proof.
  intros Hg. destruct m as [|peers| |s|d|s| |p|e|]; try done; simpl.
  - by apply gated_discover.
  - by destruct (ry_waiters st !! _).
  - destruct (_ ≫= parse_cluster); [by apply gated_dispatch|done].
  - by rewrite finish_registry.
  - by eapply gated_same; [apply tiers_departed|].
  - destruct (String.eqb _ _); [|done]. destruct (extract_peer_node_id _); [|done]. simpl.
    by eapply gated_same; [apply tiers_quarantine|].
Qed.
Lemma gated_relay clk op st : gated (ry_registry st) -> gated (ry_registry (relay_step cfg clk op st)).
Proof.
  intros Hg. destruct op; try done; simpl.
  - unfold receive. destruct (ry_channels st !! session_id) as [c|]; simpl; [|done].
    destruct (try_recv c) as [[e c']|]; [done|]. by destruct (ry_sessions st !! session_id).
  - unfold handle_text. destruct (parse_incoming raw); [by apply gated_incoming|done].
  - by eapply gated_same; [apply tiers_sweep|].
Qed.

(** The registry of a gateway, through whatever the relay sends, its own
    maintenance, and the requests of both endpoints in any order. *)
Inductive supply_reach : Registry -> Prop :=
| sr_start rel : supply_reach (new rel)
| sr_relay clk op st : supply_reach (ry_registry st) -> supply_reach (ry_registry (relay_step cfg clk op st))
| sr_chat env i q s q' s' :
    supply_reach (sh_reg s) -> request_step powf ccfg env i q s = Some (q', s') -> supply_reach (sh_reg s')
| sr_messages env i t s t' s' :
    supply_reach (sh_reg s) -> turn_step powf ccfg sql_text env i t s = Some (t', s') -> supply_reach (sh_reg s').
Lemma supply_gated r : supply_reach r -> gated r.
Proof.
  induction 1 as [rel|clk op st _ IH|env i q s q' s' _ IH Hs|env i t s t' s' _ IH Hs]; [done|by apply gated_relay|..].
  - by eapply gated_same; [eapply tiers_request_step|].
  - by eapply gated_same; [eapply tiers_turn_step|].
Qed.

(** C14: Prompts only go to listed machines.  Whatever anybody announces on the
    relay, and however messages, requests of both endpoints and maintenance
    interleave: a device in the registry is filed under its own identifier and
    has exactly the tier this identifier is listed under (a machine of the
    fleet is in neither lane, one that only the employee list names is in the
    employee lane and not on probation, one that no list names is on probation,
    and there only while strangers are admitted); and the device a request is
    dispatched to is on the allowlist of the fleet (or there is none), or it is
    a confirmed employee's machine and the request came through the employee
    lane. *)
Theorem only_listed_machines_serve (r : Registry) :
  supply_reach r ->
  (forall n d, devices r !! n = Some d -> node_id d = n /\
     if fleet_allows cfg n then employee d = false /\ probation d = false
     else if is_employee cfg n then employee d = true /\ probation d = false
     else employee d = false /\ probation d = true /\ rc_stranger_enabled cfg = true) /\
  forall env p dx n r', select powf ccfg env p dx r = (Ok n, r') ->
    fleet_allows cfg n = true \/ is_employee cfg n = true /\ pr_apmhelp_lane p = true.
Proof.
  intros Hr%supply_gated. split.
  - intros n d (Hn & He & Hp & Hs)%Hr. split; [done|]. rewrite He, Hp in *.
    destruct (fleet_allows cfg n), (is_employee cfg n); simpl in *; auto.
  - intros env p dx n r' Hsel. apply select_picks in Hsel as (d & loaded & <- & Hpick & Hheavy).
    destruct (dispatchable_target _ _ _ _ _ _ _ _ Hpick Hheavy) as [[Hin _] _ Ht _ _ _ _ _ Hl _ _].
    assert (gate (node_id d) d) as (_ & He & Hp & _).
    { unfold snapshot_devices in Hin. apply list_elem_of_fmap in Hin as ([n d'] & -> & Hin%elem_of_map_to_list). simpl.
      pose proof (Hr _ _ Hin) as Hg. by rewrite (proj1 Hg). }
    destruct (fleet_allows cfg (node_id d)); [by left|]. simpl in *.
    destruct (is_employee cfg (node_id d)); simpl in *; [|congruence]. right. auto.
Qed.
End Gate.

(** ** The supply *)

Definition discovered : RelayState :=
  relay_step toy_relay_config (at_secs 1) (OpFrame "discovered") (new_relay (new toy_reliability)).

Lemma only_listed_machines_serve_witness :
  (exists d, devices (ry_registry discovered) !! "mallory" = Some d /\ probation d = true) /\
  (exists d, devices (ry_registry discovered) !! "node" = Some d /\ probation d = false) /\
  (select toy_powf toy_chat_config (toy_env 2) (toy_prepared 100 true) first_try (ry_registry discovered)).1 = Ok "node" /\
  fleet_allows toy_relay_config "node" = true.
Proof.
  assert (supply_reach (H := toy_mpsc) toy_relay_config toy_powf toy_chat_config no_text (ry_registry discovered)) as Hr.
  { apply sr_relay. simpl. apply sr_start. }
  apply only_listed_machines_serve in Hr as [Htier Hserve].
  split.
  { destruct (devices (ry_registry discovered) !! "mallory") as [d|] eqn:E; [|exfalso; vm_compute in E; discriminate E].
    exists d. split; [reflexivity|]. destruct (Htier _ _ E) as [_ Hd]. exact (proj1 (proj2 Hd)). }
  split.
  { destruct (devices (ry_registry discovered) !! "node") as [d|] eqn:E; [|exfalso; vm_compute in E; discriminate E].
    exists d. split; [reflexivity|]. destruct (Htier _ _ E) as [_ Hd]. exact (proj2 Hd). }
  assert ((select toy_powf toy_chat_config (toy_env 2) (toy_prepared 100 true) first_try (ry_registry discovered)).1 = Ok "node") as Hs
    by (vm_compute; done).
  split; [exact Hs|].
  destruct (select toy_powf toy_chat_config (toy_env 2) (toy_prepared 100 true) first_try (ry_registry discovered)) as [o r'] eqn:E.
  simpl in Hs. subst o. destruct (Hserve _ _ _ _ _ E) as [Hf|[_ Hl]]; [exact Hf|discriminate Hl].
Defined.
