(* ===== verification/Responses.v ===== *)
(** * The Responses endpoint

    [gateway/src/handlers/responses.rs]: a request of the OpenAI Responses API is
    translated to a chat request, and what the chat handler answers is translated
    back: a buffered body as one object, the bytes of a stream as events.  The
    frames of a stream arrive in pieces of any size; the events the handler puts
    in its queue are listed in their order, of which a client that leaves early
    has read a prefix.  The chat handler itself is in [Chat]. *)

From S2P Require Import Prelude Db RustStr Merkle F64 Registry Auth PinWire Catalog ChatPrepare Chat Anthropic.
From Stdlib Require Import Ascii.

Open Scope string_scope.
Open Scope list_scope.
Open Scope Z_scope.

(** ** Requests *)

(** [json!(o)] of an optional value. *)
Definition or_null (o : option Json) : Json := default JNull o.

(** The text of the parts of a message. *)
Definition part_text (part : Json) (text : string) : result GatewayError string :=
  match get_str "type" part with
  | Some kind =>
      if bool_decide (kind = "input_text" \/ kind = "output_text") then
        Ok (match get_str "text" part with Some t => (text ++ t)%string | None => text end)
      else if bool_decide (kind = "input_image" \/ kind = "image_url") then
        Err (BadRequest "image inputs are not supported yet")
      else Ok text
  | None => Ok text
  end.
Definition item_content (item : Json) : result GatewayError string :=
  match get "content" item with
  | Some (JString text) => Ok text
  | Some (JArray parts) => fold_res part_text parts ""
  | _ => Ok ""
  end.

Section Text.
Context `{WireCrates}.

Definition output_text (item : Json) : string :=
  match get "output" item with
  | Some (JString s) => s
  | Some other => json_string other
  | None => ""
  end.
Definition call_id_of (item : Json) : string :=
  default "" ((match get "call_id" item with Some j => Some j | None => get "id" item end) ≫= as_string).
Definition item_call (item : Json) : Json :=
  JObject [("role", JString "assistant"); ("content", JNull);
           ("tool_calls", JArray [JObject
              [("id", JString (call_id_of item)); ("type", JString "function");
               ("function", JObject [("name", or_null (get "name" item));
                                     ("arguments", JString (default "" (get_str "arguments" item)))])]])].
Definition translate_input_item (item : Json) (messages : list Json) : result GatewayError (list Json) :=
  let item_type := get_str "type" item in
  if bool_decide (item_type = Some "message" \/ item_type = None) && is_some (get "role" item) then
    let? content := item_content item in
    Ok (messages ++ [text_message (default "user" (get_str "role" item)) content])
  else if bool_decide (item_type = Some "function_call") then Ok (messages ++ [item_call item])
  else if bool_decide (item_type = Some "function_call_output") then
    Ok (messages ++ [JObject [("role", JString "tool"); ("tool_call_id", JString (default "" (get_str "call_id" item)));
                              ("content", JString (output_text item))]])
  else Ok messages.

Definition translate_tool (t : Json) : Json :=
  JObject [("type", JString "function");
           ("function", JObject [("name", or_null (get "name" t)); ("description", or_null (get "description" t));
                                 ("parameters", or_null (get "parameters" t))])].
Definition input_messages (req : Json) (messages : list Json) : result GatewayError (list Json) :=
  match get "input" req with
  | None | Some JNull => Ok messages
  | Some (JString text) => Ok (messages ++ [text_message "user" text])
  | Some (JArray items) => fold_res translate_input_item items messages
  | Some _ => Err (BadRequest (quoted "" "input" " must be a string or an array"))
  end.
(** [if let Some(v) = req.get(from) { map.insert(to, v) }]. *)
Definition copies (key : string) (req : Json) (map : list (string * Json)) : list (string * Json) :=
  match get key req with Some v => insert_key key v map | None => map end.
Definition is_streaming (req : Json) : bool := default false (get "stream" req ≫= as_bool).
Definition max_tokens_key (req map : list (string * Json)) : list (string * Json) :=
  match field "max_output_tokens" req ≫= as_u64 with
  | Some v => insert_key "max_tokens" (JNumber (v `mod` 2 ^ 32)) map
  | None => map
  end.
Definition fields_of (j : Json) : list (string * Json) := match j with JObject o => o | _ => [] end.
Definition tools_keys (req : Json) (map : list (string * Json)) : list (string * Json) :=
  match get "tools" req ≫= as_list with
  | Some tools =>
      match translate_tool <$> List.filter (fun t => bool_decide (get_str "type" t = Some "function")) tools with
      | [] => map
      | translated => copies "tool_choice" req (insert_key "tools" (JArray translated) map)
      end
  | None => map
  end.
Definition translate_request (req : Json) : result GatewayError Json :=
  let? model := ok_or (BadRequest (quoted "" "model" " is required")) (get_str "model" req) in
  let instructions := default "" (get_str "instructions" req) in
  let messages := if is_empty instructions then [] else [text_message "system" instructions] in
  let? messages := input_messages req messages in
  guard? negb (bool_decide (messages = [])) else
    (BadRequest (quoted "" "input" (quoted " (or " "instructions" ") must produce at least one message"))) in
  let map := max_tokens_key (fields_of req) [("model", JString model); ("messages", JArray messages)] in
  let map := copies "stop" req (copies "top_p" req (copies "temperature" req map)) in
  let map := tools_keys req (copies "stream" req map) in
  Ok (JObject (if is_streaming req then insert_key "stream_options" (JObject [("include_usage", JBool true)]) map else map)).

(** The chat request of a request, and whether the answer is a stream. *)
Definition responses (req : Json) : result GatewayError (Json * bool) :=
  let? chat := translate_request req in Ok (chat, is_streaming req).

(** ** Response objects *)

Definition text_part (text : string) : Json :=
  JObject [("type", JString "output_text"); ("text", JString text); ("annotations", JArray [])].
Definition message_item (item_id status text : string) : Json :=
  JObject [("type", JString "message"); ("id", JString item_id); ("status", JString status); ("role", JString "assistant");
           ("content", JArray [text_part text])].
Definition count (key : string) (usage : Json) : Json := JNumber (default 0 (get key usage ≫= as_u64)).
Definition response_usage (usage : Json) : Json :=
  JObject [("input_tokens", count "prompt_tokens" usage); ("output_tokens", count "completion_tokens" usage);
           ("total_tokens", count "total_tokens" usage)].
Definition response_object (resp_id model : string) (created_at : Z) (status : string) (output : list Json)
    (usage : option Json) : Json :=
  JObject ([("id", JString resp_id); ("object", JString "response"); ("created_at", JNumber created_at);
            ("status", JString status); ("model", JString model); ("output", JArray output);
            ("parallel_tool_calls", JBool true); ("tool_choice", JString "auto"); ("tools", JArray [])] ++
           match usage with Some u => [("usage", response_usage u)] | None => [] end).

(** ** Buffered answers *)

Inductive Reply : Type :=
| PassedOn (status : Z) (body : list byte)
| Responded (object : Json).

Definition function_item (env : Env) (k : nat) (call : Json) : Json :=
  JObject [("type", JString "function_call"); ("id", JString ("fc_" ++ e_uuid_simple env k));
           ("call_id", JString (default "" (get_str "id" call)));
           ("name", JString (default "" (get "function" call ≫= get_str "name")));
           ("arguments", JString (default "" (get "function" call ≫= get_str "arguments")));
           ("status", JString "completed")].
Definition answer_output (env : Env) (chat : Json) : list Json :=
  let message := ((get "choices" chat ≫= nth 0) ≫= get "message") : option Json in
  let text := default "" (message ≫= get_str "content") in
  let tool_calls := (message ≫= get "tool_calls") ≫= as_list in
  (if negb (is_empty text) || negb (is_some tool_calls)
   then [message_item ("msg_" ++ e_uuid_simple env 1) "completed" text] else []) ++
  imap (fun k call => function_item env (2 + k) call) (default [] tool_calls).
Definition BODY_LIMIT : Z := 16 * 1024 * 1024.
(** The status and body of the chat handler's answer.  A body over the limit is
    not read. *)
Definition translate_buffered (env : Env) (status : Z) (body : list byte) : result GatewayError Reply :=
  guard? Z.of_nat (length body) <=? BODY_LIMIT
    else (Upstream "reading chat response body: length limit exceeded") in
  match json_parse body with
  | None => Ok (PassedOn status body)
  | Some chat =>
      if negb ((200 <=? status) && (status <? 300)) || is_some (get "error" chat) then Ok (PassedOn status body)
      else
        Ok (Responded (response_object ("resp_" ++ e_uuid_simple env 0) (default "" (get_str "model" chat))
              (default (unix_secs (e_clk env)) (get "created" chat ≫= as_u64)) "completed" (answer_output env chat)
              (get "usage" chat)))
  end.
End Text.

(** ** Streams *)

(** An event: its name with its data, or the text of an upstream error. *)
Inductive ResponseEvent : Type :=
| Named (name : string) (data : Json)
| ErrorText (payload : list byte).
(** [event(name).data(json!({"type": name, ...}))]. *)
Definition named (name : string) (rest : list (string * Json)) : ResponseEvent :=
  Named name (JObject (("type", JString name) :: rest)).

Record StreamState : Type := mkStreamState {
  ss_resp_id : string;
  ss_item_id : string;
  ss_model : string;
  ss_created_at : Z;
  ss_started : bool;
  ss_saw_role : bool;
  ss_text : string;
  ss_usage : option Json;
  ss_finished : bool;
  ss_out : list ResponseEvent
}.
Definition new_stream (env : Env) : StreamState :=
  mkStreamState ("resp_" ++ e_uuid_simple env 0) ("msg_" ++ e_uuid_simple env 1) "" (unix_secs (e_clk env)) false false ""
    None false [].
Definition push (l : list ResponseEvent) (st : StreamState) : StreamState :=
  mkStreamState (ss_resp_id st) (ss_item_id st) (ss_model st) (ss_created_at st) (ss_started st) (ss_saw_role st)
    (ss_text st) (ss_usage st) (ss_finished st) (ss_out st ++ l).
Definition part_of (st : StreamState) (rest : list (string * Json)) : list (string * Json) :=
  [("item_id", JString (ss_item_id st)); ("output_index", JNumber 0); ("content_index", JNumber 0)] ++ rest.

Definition start (chunk : Json) (st : StreamState) : StreamState :=
  let model := default (ss_model st) (get_str "model" chunk) in
  let created := default (ss_created_at st) (get "created" chunk ≫= as_u64) in
  let st := mkStreamState (ss_resp_id st) (ss_item_id st) model created true (ss_saw_role st) (ss_text st) (ss_usage st)
              (ss_finished st) (ss_out st) in
  push [named "response.created" [("response", response_object (ss_resp_id st) model created "in_progress" [] None)];
        named "response.output_item.added"
          [("output_index", JNumber 0); ("item", message_item (ss_item_id st) "in_progress" "")];
        named "response.content_part.added" (part_of st [("part", text_part "")])] st.

(** What a chunk's first choice says. *)
Definition delta_text (choice : Json) : string := default "" (get "delta" choice ≫= get_str "content").
Definition has_role (choice : Json) : bool := is_some (get "delta" choice ≫= get "role").
Definition is_finish (choice : Json) : bool :=
  match get "finish_reason" choice with None | Some JNull => false | Some _ => true end.
Definition text_delta (st : StreamState) (content : string) : list ResponseEvent :=
  if is_empty content then [] else [named "response.output_text.delta" (part_of st [("delta", JString content)])].
Definition chunk_usage (chunk : Json) (usage : option Json) : option Json :=
  match get "usage" chunk with None | Some JNull => usage | Some u => Some u end.
Definition handle_chunk (chunk : Json) (st : StreamState) : StreamState :=
  let st := if ss_started st then st else start chunk st in
  let st := mkStreamState (ss_resp_id st) (ss_item_id st) (ss_model st) (ss_created_at st) (ss_started st) (ss_saw_role st)
              (ss_text st) (chunk_usage chunk (ss_usage st)) (ss_finished st) (ss_out st) in
  match get "choices" chunk ≫= nth 0 with
  | None => st
  | Some choice =>
      let content := delta_text choice in
      mkStreamState (ss_resp_id st) (ss_item_id st) (ss_model st) (ss_created_at st) (ss_started st)
        (ss_saw_role st || has_role choice) (ss_text st ++ content) (ss_usage st) (ss_finished st || is_finish choice)
        (ss_out st ++ text_delta st content)
  end.

Definition finalize (st : StreamState) : StreamState :=
  let st := if ss_started st then st else start JNull st in
  let full_text := ss_text st in
  let done := message_item (ss_item_id st) "completed" full_text in
  let status := if ss_finished st then "completed" else "incomplete" in
  push [named "response.content_part.done" (part_of st [("part", text_part full_text)]);
        named "response.output_item.done" [("output_index", JNumber 0); ("item", done)];
        named "response.completed"
          [("response", response_object (ss_resp_id st) (ss_model st) (ss_created_at st) status [done] (ss_usage st))]]
    (mkStreamState (ss_resp_id st) (ss_item_id st) (ss_model st) (ss_created_at st) (ss_started st) (ss_saw_role st) ""
       (ss_usage st) (ss_finished st) (ss_out st)).

(** ** Frames *)

Definition LF : byte := u8 10.
Definition CR : byte := u8 13.
Definition SPACE : byte := u8 32.

(** [find_subslice(&buf, b"\n\n")] and the drain: the first frame, with the
    blank line that ends it, and the rest. *)
Fixpoint find_frame (buf : list byte) : option (list byte * list byte) :=
  match buf with
  | [] => None
  | a :: tail =>
      match Ascii.eqb a LF, tail with
      | true, b :: rest => if Ascii.eqb b LF then Some ([a; b], rest) else (fun '(f, rest) => (a :: f, rest)) <$> find_frame tail
      | _, _ => (fun '(f, rest) => (a :: f, rest)) <$> find_frame tail
      end
  end.
(** [split(|&b| b == b'\n')]. *)
Fixpoint split_lines (l : list byte) : list (list byte) :=
  match l with
  | [] => [[]]
  | a :: l =>
      if Ascii.eqb a LF then [] :: split_lines l
      else match split_lines l with [] => [[a]] | line :: lines => (a :: line) :: lines end
  end.
Definition strip_cr (line : list byte) : list byte :=
  match rev line with a :: l => if Ascii.eqb a CR then rev l else line | [] => line end.
Fixpoint trim_left (s : list byte) : list byte :=
  match s with a :: l => if Ascii.eqb a SPACE then trim_left l else s | [] => [] end.
Definition payload_of (line : list byte) : option (list byte) := trim_left <$> drop_prefix (bytes "data:") (strip_cr line).

Section Stream.
Context `{WireCrates}.

Definition handle_payload (payload : list byte) (st : StreamState) : StreamState :=
  match json_parse payload with
  | Some chunk => if is_some (get "error" chunk) then push [ErrorText payload] st else handle_chunk chunk st
  | None => st
  end.
(** The lines of a frame, up to a [DONE]. *)
Fixpoint handle_lines (lines : list (list byte)) (st : StreamState) : StreamState * bool :=
  match lines with
  | [] => (st, false)
  | line :: lines =>
      match payload_of line with
      | Some payload =>
          if bool_decide (payload = bytes "[DONE]") then (finalize st, true)
          else handle_lines lines (handle_payload payload st)
      | None => handle_lines lines st
      end
  end.
(** Every complete frame in the buffer; a [DONE] does not end this loop.  The
    length of the buffer is enough fuel, as each frame shortens it. *)
Fixpoint handle_frames (fuel : nat) (buf : list byte) (st : StreamState) (done : bool) : list byte * StreamState * bool :=
  match fuel, find_frame buf with
  | S fuel, Some (frame, rest) =>
      let '(st, finished) := handle_lines (split_lines frame) st in
      handle_frames fuel rest st (done || finished)
  | _, _ => (buf, st, done)
  end.
(** What the stream has yielded when it ends: the pieces of the body, then its
    end or a read error. *)
Fixpoint translate_stream (pieces : list (list byte)) (buf : list byte) (st : StreamState) : StreamState :=
  match pieces with
  | [] => finalize st
  | data :: pieces =>
      let '(buf, st, done) := handle_frames (length (buf ++ data)) (buf ++ data) st false in
      if done then st else translate_stream pieces buf st
  end.
End Stream.
