(* ===== verification/ResponsesFacts.v ===== *)
(** * Streams of the Responses endpoint

    The bytes of a chat stream arrive in arbitrary pieces; the events made of them
    are a function of what the chat handler wrote.  An answer sent back as input
    means the same text and calls.  At the end, what the translation loses. *)

From S2P Require Import Prelude Db RustStr Merkle F64 Registry Auth PinWire PinWireFacts Catalog ChatPrepare Chat Anthropic.
From S2P Require Import AnthropicFacts Responses.
From Stdlib Require Import Ascii.

Open Scope string_scope.
Open Scope list_scope.
Open Scope Z_scope.

(** ** Frames *)

Lemma find_frame_cons x a :
  find_frame (x :: a) =
    match a with
    | y :: rest => if Ascii.eqb x LF && Ascii.eqb y LF then Some ([x; y], rest)
                   else (fun '(f, rest) => (x :: f, rest)) <$> find_frame a
    | [] => None
    end.
Proof. simpl. by destruct (Ascii.eqb x LF), a. Qed.
Lemma find_frame_app a b f r : find_frame a = Some (f, r) -> find_frame (a ++ b) = Some (f, r ++ b).
Proof.
  revert f r. induction a as [|x a IH]; intros f r; [done|]. rewrite <- app_comm_cons, !find_frame_cons.
  destruct a as [|y a]; [done|]. rewrite <- app_comm_cons. destruct (_ && _); [by intros [= <- <-]|].
  destruct (find_frame (y :: a)) as [[f' r']|]; [|done]. intros [= <- <-]. rewrite <- app_comm_cons in IH.
  by rewrite (IH f' r').
Qed.
Lemma find_frame_split a f r : find_frame a = Some (f, r) -> a = f ++ r /\ f <> [].
Proof.
  revert f r. induction a as [|x a IH]; intros f r; [done|]. rewrite find_frame_cons.
  destruct a as [|y a]; [done|]. destruct (_ && _); [by intros [= <- <-]|].
  destruct (find_frame (y :: a)) as [[f' r']|]; [|done]. intros [= <- <-].
  destruct (IH f' r' eq_refl) as [-> _]. done.
Qed.
Lemma find_frame_shorter a f r : find_frame a = Some (f, r) -> (length r < length a)%nat.
Proof. intros [-> Hf]%find_frame_split. rewrite length_app. destruct f; [done|]. simpl. lia. Qed.

(** The complete frames of a body, and what is left. *)
Fixpoint cut (fuel : nat) (buf : list byte) : list (list byte) * list byte :=
  match fuel, find_frame buf with
  | S fuel, Some (frame, rest) => let '(fs, tail) := cut fuel rest in (frame :: fs, tail)
  | _, _ => ([], buf)
  end.
Lemma cut_fuel n buf : (length buf <= n)%nat -> cut n buf = cut (length buf) buf.
Proof.
  revert buf. induction n as [n IH] using lt_wf_ind; intros buf Hn.
  destruct n as [|n]; [by replace (length buf) with 0%nat by lia|].
  destruct (length buf) as [|m] eqn:El; [by destruct buf|]. simpl.
  destruct (find_frame buf) as [[f r]|] eqn:E; [|done]. pose proof (find_frame_shorter _ _ _ E).
  by rewrite (IH n), (IH m) by lia.
Qed.
Definition frames (buf : list byte) : list (list byte) := (cut (length buf) buf).1.
Definition remainder (buf : list byte) : list byte := (cut (length buf) buf).2.
Lemma cut_some buf f r :
  find_frame buf = Some (f, r) -> frames buf = f :: frames r /\ remainder buf = remainder r.
Proof.
  intros E. pose proof (find_frame_shorter _ _ _ E) as Hl. unfold frames, remainder.
  destruct (length buf) as [|n] eqn:En; [lia|]. simpl. rewrite E, (cut_fuel n r) by lia.
  by destruct (cut (length r) r).
Qed.
Lemma cut_none buf : find_frame buf = None -> frames buf = [] /\ remainder buf = buf.
Proof. intros E. unfold frames, remainder. destruct (length buf); simpl; [done|]. by rewrite E. Qed.

Lemma frames_app a b :
  frames (a ++ b) = frames a ++ frames (remainder a ++ b) /\ remainder (a ++ b) = remainder (remainder a ++ b).
Proof.
  remember (length a) as n eqn:En. revert a En. induction n as [n IH] using lt_wf_ind. intros a ->.
  destruct (find_frame a) as [[f r]|] eqn:E.
  - destruct (cut_some _ _ _ E) as [-> ->]. destruct (cut_some _ _ _ (find_frame_app _ b _ _ E)) as [-> ->].
    destruct (IH (length r) (find_frame_shorter _ _ _ E) r eq_refl) as [-> ->]. done.
  - by destruct (cut_none _ E) as [-> ->].
Qed.

(** At most the last element satisfies [p]. *)
Fixpoint last_only {A} (p : A -> bool) (l : list A) : bool :=
  match l with [] => true | [_] => true | x :: l => negb (p x) && last_only p l end.
Lemma last_only_app {A} (p : A -> bool) l k : last_only p (l ++ k) = true -> existsb p l = true -> k = [].
Proof.
  induction l as [|x l IH]; [done|]. destruct l as [|y l].
  - destruct k as [|z k]; [done|]. intros [Hn _]%andb_true_iff [He|He]%orb_true_iff; [|done]. by rewrite He in Hn.
  - intros [Hn Hd]%andb_true_iff. apply negb_true_iff in Hn. intros [He|He]%orb_true_iff; [congruence|by apply IH].
Qed.
Lemma last_only_tail {A} (p : A -> bool) l k : last_only p (l ++ k) = true -> last_only p k = true.
Proof.
  induction l as [|x l IH]; [done|]. intros Hd. apply IH. destruct l as [|y l]; simpl in *.
  - destruct k; [done|]. by apply andb_true_iff in Hd as [_ Hd].
  - by apply andb_true_iff in Hd as [_ Hd].
Qed.
Lemma last_only_map {A B} (p : B -> bool) (f : A -> B) l : last_only p (f <$> l) = last_only (fun x => p (f x)) l.
Proof. induction l as [|x [|y l] IH]; [done..|]. simpl in *. by rewrite IH. Qed.
Lemma last_only_ext {A} (p q : A -> bool) l : (forall x, p x = q x) -> last_only p l = last_only q l.
Proof. intros E. induction l as [|x [|y l] IH]; [done..|]. simpl in *. by rewrite IH, E. Qed.
Lemma last_only_split {A} (p : A -> bool) l :
  last_only p l = true -> existsb p l = false \/ exists k x, l = k ++ [x] /\ p x = true /\ existsb p k = false.
Proof.
  induction l as [|x l IH]; [by left|]. destruct l as [|y l].
  - intros _. destruct (p x) eqn:E; [right; by exists [], x|left; simpl; by rewrite E].
  - intros [Hn%negb_true_iff Hl]%andb_true_iff. destruct (IH Hl) as [He|(k & z & -> & Hz & Hk)].
    + left. simpl. rewrite Hn. exact He.
    + right. exists (x :: k), z. simpl. by rewrite Hn.
Qed.

Section Framing.
Context `{WireCrates}.

Definition handle_frame (frame : list byte) (st : StreamState) : StreamState * bool := handle_lines (split_lines frame) st.
Fixpoint handle_all (fs : list (list byte)) (st : StreamState) : StreamState * bool :=
  match fs with
  | [] => (st, false)
  | f :: fs => let '(st, d) := handle_frame f st in let '(st, d') := handle_all fs st in (st, d || d')
  end.
Lemma handle_all_app fs gs st :
  handle_all (fs ++ gs) st = let '(st, d) := handle_all fs st in let '(st, d') := handle_all gs st in (st, d || d').
Proof.
  revert st. induction fs as [|f fs IH]; intros st; simpl; [by destruct (handle_all gs st)|].
  destruct (handle_frame f st) as [st1 d1]. rewrite IH. destruct (handle_all fs st1) as [st2 d2].
  destruct (handle_all gs st2). by rewrite orb_assoc.
Qed.
Lemma handle_frames_spec n buf st d :
  (length buf <= n)%nat ->
  handle_frames n buf st d = (remainder buf, (handle_all (frames buf) st).1, d || (handle_all (frames buf) st).2).
Proof.
  revert buf st d. induction n as [|n IH]; intros buf st d Hn.
  - destruct buf; simpl in *; [by rewrite orb_false_r|lia].
  - simpl. destruct (find_frame buf) as [[f r]|] eqn:E.
    + pose proof (find_frame_shorter _ _ _ E). destruct (cut_some _ _ _ E) as [-> ->]. simpl.
      fold (handle_frame f st). destruct (handle_frame f st) as [st1 d1]. rewrite IH by lia.
      destruct (handle_all (frames r) st1) as [st2 d2]. simpl. by rewrite orb_assoc.
    + destruct (cut_none _ E) as [-> ->]. simpl. by rewrite orb_false_r.
Qed.

(** A frame that ends the stream, whatever the state is. *)
Definition is_done (line : list byte) : bool := bool_decide (payload_of line = Some (bytes "[DONE]")).
Definition ends_stream (frame : list byte) : bool := existsb is_done (split_lines frame).
Lemma handle_lines_done lines st : (handle_lines lines st).2 = existsb is_done lines.
Proof.
  revert st. induction lines as [|l lines IH]; intros st; [done|]. cbn [handle_lines existsb]. unfold is_done at 1.
  destruct (payload_of l) as [p|]; [|apply IH]. destruct (decide (p = bytes "[DONE]")) as [->|Hne].
  - by rewrite (bool_decide_eq_true_2 (bytes "[DONE]" = _)).
  - rewrite (bool_decide_eq_false_2 (p = _)), (bool_decide_eq_false_2 (Some p = _)) by congruence. apply IH.
Qed.
Lemma handle_all_done fs st : (handle_all fs st).2 = existsb ends_stream fs.
Proof.
  revert st. induction fs as [|f fs IH]; intros st; simpl; [done|].
  pose proof (handle_lines_done (split_lines f) st) as Hd. unfold handle_frame, ends_stream at 1.
  destruct (handle_lines _ st) as [st1 d1]. simpl in Hd. subst. specialize (IH st1). by destruct (handle_all fs st1); simpl in *; subst.
Qed.

(** What the stream yields, without the pieces. *)
Definition whole_stream (body : list byte) (st : StreamState) : StreamState :=
  let '(st, done) := handle_all (frames body) st in if done then st else finalize st.
(** Nothing comes after the frame that ends the stream. *)
Definition done_last : list (list byte) -> bool := last_only ends_stream.
Lemma pieces_do_not_matter pieces buf st :
  frames buf = [] -> remainder buf = buf -> done_last (frames (buf ++ concat pieces)) = true ->
  translate_stream pieces buf st = whole_stream (buf ++ concat pieces) st.
Proof.
  revert buf st. induction pieces as [|data pieces IH]; intros buf st Hf Hr Hd; simpl.
  - rewrite app_nil_r in *. unfold whole_stream. by rewrite Hf.
  - rewrite handle_frames_spec by done. simpl in Hd. unfold whole_stream. rewrite app_assoc in *.
    destruct (frames_app (buf ++ data) (concat pieces)) as [E _]. rewrite E in *. rewrite handle_all_app.
    pose proof (handle_all_done (frames (buf ++ data)) st) as Hdone.
    destruct (handle_all (frames (buf ++ data)) st) as [st1 d1]. simpl in *. subst d1.
    destruct (existsb ends_stream (frames (buf ++ data))) eqn:Ee.
    + by rewrite (last_only_app _ _ _ Hd Ee).
    + destruct (frames_app (buf ++ data) []) as [E1 E2]. rewrite app_nil_r in E1, E2.
      rewrite IH.
      * unfold whole_stream. by destruct (handle_all _ st1).
      * rewrite app_nil_r in E1. apply (f_equal length) in E1. rewrite length_app in E1. destruct (frames (remainder _)); [done|simpl in E1; lia].
      * rewrite app_nil_r in E2. done.
      * by eapply last_only_tail.
Qed.
End Framing.

(** ** What the chat handler writes *)

(** [serde_json] writes a value on one line, without control characters, and
    never with a blank first; [[DONE]] is no JSON. *)
Class JsonLines `{WireCrates} : Prop := {
  parse_text : forall j, json_parse (json_text j) = Some j;
  text_printable : forall j, Forall (fun b => 32 <= Z.of_nat (code b)) (json_text j);
  text_first : forall j, head (json_text j) <> Some SPACE;
  done_no_json : json_parse (bytes "[DONE]") = None
}.

Section Written.
Context `{JsonLines} (sql_text : SqlError -> string).

(** [error_event] of [chat.rs]. *)
Definition error_body (e : GatewayError) : Json :=
  JObject [("error", JObject [("message", JString (error_text sql_text e)); ("type", JString (error_code e));
                              ("code", JString (error_code e))])].
Definition event_payload (e : SseEvent) : list byte :=
  match e with Data j => json_text j | ErrorEvent e => json_text (error_body e) | DoneEvent => bytes "[DONE]" end.
(** A frame of the body: an event, or the comment that keeps the connection alive. *)
Definition frame_line (e : option SseEvent) : list byte :=
  match e with Some e => bytes "data: " ++ event_payload e | None => bytes ":" end.
Definition wire_frame (e : option SseEvent) : list byte := frame_line e ++ [LF; LF].
Definition wire (body : list (option SseEvent)) : list byte := concat (wire_frame <$> body).

Definition printable (l : list byte) : Prop := Forall (fun b => 32 <= Z.of_nat (code b)) l.
Lemma printable_not_lf b : 32 <= Z.of_nat (code b) -> Ascii.eqb b LF = false /\ Ascii.eqb b CR = false.
Proof. intros Hb. split; apply Ascii.eqb_neq; intros ->; vm_compute in Hb; by apply Hb. Qed.

Lemma find_frame_line l rest : printable l -> find_frame (l ++ LF :: LF :: rest) = Some (l ++ [LF; LF], rest).
Proof.
  induction 1 as [|x l Hx Hl IH]; [done|]. rewrite <- app_comm_cons, find_frame_cons.
  rewrite (proj1 (printable_not_lf x Hx)), IH. by destruct l.
Qed.
Lemma split_lines_line l : printable l -> split_lines (l ++ [LF; LF]) = [l; []; []].
Proof.
  induction 1 as [|x l Hx Hl IH]; [done|]. simpl. by rewrite (proj1 (printable_not_lf x Hx)), IH.
Qed.
Lemma event_printable e : printable (event_payload e).
Proof. destruct e; simpl; [apply text_printable..|]. repeat constructor; vm_compute; congruence. Qed.
Lemma frame_printable e : printable (frame_line e).
Proof.
  destruct e as [e|]; unfold printable, frame_line; [apply Forall_app; split; [|apply event_printable]|];
    repeat constructor; vm_compute; congruence.
Qed.
Lemma frames_wire body : frames (wire body) = wire_frame <$> body.
Proof.
  induction body as [|e body IH]; [done|].
  assert (wire (e :: body) = frame_line e ++ LF :: LF :: wire body) as -> by (unfold wire, wire_frame; simpl; by rewrite <- app_assoc).
  destruct (cut_some _ _ _ (find_frame_line (frame_line e) (wire body) (frame_printable e))) as [-> _]. by rewrite IH.
Qed.

Lemma strip_cr_printable l : printable l -> strip_cr l = l.
Proof.
  intros Hl%Forall_rev. unfold strip_cr. destruct (rev l) as [|b k] eqn:E; [done|].
  apply Forall_cons in Hl as [Hb _]. by rewrite (proj2 (printable_not_lf b Hb)).
Qed.

Lemma payload_of_event e : payload_of (frame_line (Some e)) = Some (event_payload e).
Proof.
  unfold payload_of. rewrite strip_cr_printable by apply frame_printable. simpl.
  destruct e as [j|e|]; simpl; [..|done].
  - pose proof (text_first j) as Hf. destruct (json_text j) as [|b l]; [done|]. simpl in *.
    destruct (Ascii.eqb_spec b SPACE) as [->|]; [done|done].
  - pose proof (text_first (error_body e)) as Hf. destruct (json_text (error_body e)) as [|b l]; [done|]. simpl in *.
    destruct (Ascii.eqb_spec b SPACE) as [->|]; [done|done].
Qed.
Lemma text_not_done j : json_text j <> bytes "[DONE]".
Proof. intros E. pose proof (parse_text j) as Hp. rewrite E, done_no_json in Hp. done. Qed.

(** What one frame of the body does to the stream. *)
Definition deliver_event (e : option SseEvent) (st : StreamState) : StreamState * bool :=
  match e with
  | None => (st, false)
  | Some DoneEvent => (finalize st, true)
  | Some (Data j) => (if is_some (get "error" j) then push [ErrorText (json_text j)] st else handle_chunk j st, false)
  | Some (ErrorEvent e) => (push [ErrorText (json_text (error_body e))] st, false)
  end.
Lemma handle_wire_frame e st : handle_frame (wire_frame e) st = deliver_event e st.
Proof.
  unfold handle_frame, wire_frame. rewrite split_lines_line by apply frame_printable.
  destruct e as [e|]; [|done]. cbn [handle_lines]. rewrite payload_of_event. destruct e as [j|e|]; cbn [event_payload].
  - rewrite bool_decide_eq_false_2 by apply text_not_done. unfold handle_payload. rewrite parse_text. done.
  - rewrite bool_decide_eq_false_2 by apply text_not_done. unfold handle_payload. rewrite parse_text. done.
  - by rewrite bool_decide_eq_true_2.
Qed.
Definition is_done_event (e : option SseEvent) : bool := match e with Some DoneEvent => true | _ => false end.
Lemma ends_wire_frame e : ends_stream (wire_frame e) = is_done_event e.
Proof.
  set (st := new_stream (mkEnv (mkClock 0 0) 0 0 (fun _ => "") (fun _ => ""))).
  unfold ends_stream. rewrite <- (handle_lines_done _ st). change (handle_lines _ st) with (handle_frame (wire_frame e) st).
  rewrite handle_wire_frame. by destruct e as [[j|e|]|].
Qed.

(** ** The events *)

Definition step (st : StreamState) (e : option SseEvent) : StreamState := (deliver_event e st).1.
Lemma handle_all_wire body st :
  existsb is_done_event body = false -> handle_all (wire_frame <$> body) st = (foldl step st body, false).
Proof.
  revert st. induction body as [|e body IH]; intros st; [done|]. intros [He Hb]%orb_false_iff. simpl.
  rewrite handle_wire_frame. unfold step at 2. destruct (deliver_event e st) as [st1 d] eqn:E. simpl. rewrite IH by done.
  destruct e as [[j|e|]|]; by simplify_eq/=.
Qed.
Lemma whole_wire body st :
  last_only is_done_event body = true ->
  exists l, whole_stream (wire body) st = finalize (foldl step st l) /\ existsb is_done_event l = false /\
    body = l ++ (if existsb is_done_event body then [Some DoneEvent] else []).
Proof.
  intros Hb. unfold whole_stream. rewrite frames_wire. destruct (last_only_split _ _ Hb) as [He|(k & e & -> & He & Hk)].
  - exists body. rewrite handle_all_wire, He, app_nil_r by done. done.
  - exists k. rewrite fmap_app, handle_all_app, handle_all_wire by done. cbn [fmap list_fmap handle_all].
    rewrite handle_wire_frame. destruct e as [[]|]; try done. simpl. rewrite existsb_app. simpl. by rewrite orb_true_r.
Qed.

(** The chunks among the events, and the texts of the errors. *)
Definition chunk_in (e : option SseEvent) : option Json :=
  match e with Some (Data j) => if is_some (get "error" j) then None else Some j | _ => None end.
Definition error_in (e : option SseEvent) : option (list byte) :=
  match e with
  | Some (Data j) => if is_some (get "error" j) then Some (json_text j) else None
  | Some (ErrorEvent e) => Some (json_text (error_body e))
  | _ => None
  end.
Definition is_named (e : ResponseEvent) : bool := match e with Named _ _ => true | _ => false end.
Definition error_of (e : ResponseEvent) : option (list byte) := match e with ErrorText p => Some p | _ => None end.
Definition named_only (st : StreamState) : StreamState :=
  mkStreamState (ss_resp_id st) (ss_item_id st) (ss_model st) (ss_created_at st) (ss_started st) (ss_saw_role st)
    (ss_text st) (ss_usage st) (ss_finished st) (List.filter is_named (ss_out st)).
Lemma push_error p st : named_only (push [ErrorText p] st) = named_only st.
Proof. unfold named_only, push. simpl. by rewrite List.filter_app, app_nil_r. Qed.
Lemma filter_text_delta st c : List.filter is_named (text_delta st c) = text_delta st c.
Proof. unfold text_delta. by destruct (is_empty c). Qed.
Lemma handle_chunk_named j st : named_only (handle_chunk j st) = handle_chunk j (named_only st).
Proof.
  unfold handle_chunk. destruct st as [r i m c [] sr t u f out]; simpl; destruct (get "choices" j ≫= nth 0) as [ch|];
    unfold named_only; simpl; rewrite ?List.filter_app, ?filter_text_delta; done.
Qed.
Lemma finalize_named st : named_only (finalize st) = finalize (named_only st).
Proof.
  unfold finalize, start, push, named_only. destruct st as [r i m c [] sr t u f out]; cbn -[named part_of List.filter]; rewrite !List.filter_app; done.
Qed.
Lemma steps_named l st :
  existsb is_done_event l = false ->
  named_only (foldl step st l) = foldl (fun st j => handle_chunk j st) (named_only st) (omap chunk_in l).
Proof.
  revert st. induction l as [|e l IH]; intros st; [done|]. intros [He Hl]%orb_false_iff. simpl. rewrite IH by done.
  unfold step. destruct e as [[j|e|]|]; simpl.
  - destruct (is_some (get "error" j)); simpl; by rewrite ?push_error, ?handle_chunk_named.
  - by rewrite push_error.
  - done.
  - done.
Qed.
Lemma push_errors l st : omap error_of (ss_out (push l st)) = omap error_of (ss_out st) ++ omap error_of l.
Proof. simpl. apply omap_app. Qed.
Lemma handle_chunk_errors j st : omap error_of (ss_out (handle_chunk j st)) = omap error_of (ss_out st).
Proof.
  unfold handle_chunk, start, push, text_delta. destruct st as [r i m c [] sr t u f out]; simpl;
    destruct (get "choices" j ≫= nth 0) as [ch|]; simpl; try destruct (is_empty _); simpl; rewrite ?omap_app; simpl;
    by rewrite ?app_nil_r.
Qed.
Lemma finalize_errors st : omap error_of (ss_out (finalize st)) = omap error_of (ss_out st).
Proof.
  unfold finalize, start, push. destruct st as [r i m c [] sr t u f out]; simpl; rewrite ?omap_app; simpl;
    by rewrite ?app_nil_r.
Qed.
Lemma steps_errors l st :
  existsb is_done_event l = false -> omap error_of (ss_out (foldl step st l)) = omap error_of (ss_out st) ++ omap error_in l.
Proof.
  revert st. induction l as [|e l IH]; intros st; [simpl; by rewrite app_nil_r|]. intros [He Hl]%orb_false_iff. simpl.
  rewrite IH by done. unfold step. destruct e as [[j|e|]|]; simpl; [..|done|done].
  - destruct (is_some (get "error" j)); simpl; [by rewrite omap_app, <- app_assoc|by rewrite handle_chunk_errors].
  - by rewrite omap_app, <- app_assoc.
Qed.

(** ** The events of a stream, from its chunks *)

Definition chunk_choice (chunk : Json) : option Json := get "choices" chunk ≫= nth 0.
Definition chunk_text (chunk : Json) : string := default "" (delta_text <$> chunk_choice chunk).
Definition chunk_ends (chunk : Json) : bool := default false (is_finish <$> chunk_choice chunk).
Definition full_text (chunks : list Json) : string := foldl String.append "" (chunk_text <$> chunks).
Definition last_usage (chunks : list Json) : option Json := foldl (fun u c => chunk_usage c u) None chunks.

Definition response_events (env : Env) (chunks : list Json) : list ResponseEvent :=
  let resp_id := ("resp_" ++ e_uuid_simple env 0)%string in
  let item_id := ("msg_" ++ e_uuid_simple env 1)%string in
  let first := default JNull (head chunks) in
  let model := default "" (get_str "model" first) in
  let created := default (unix_secs (e_clk env)) (get "created" first ≫= as_u64) in
  let place rest := [("item_id", JString item_id); ("output_index", JNumber 0); ("content_index", JNumber 0)] ++ rest in
  let text := full_text chunks in
  let item := message_item item_id "completed" text in
  [named "response.created" [("response", response_object resp_id model created "in_progress" [] None)];
   named "response.output_item.added" [("output_index", JNumber 0); ("item", message_item item_id "in_progress" "")];
   named "response.content_part.added" (place [("part", text_part "")])] ++
  ((fun t => named "response.output_text.delta" (place [("delta", JString t)])) <$>
     List.filter (fun t => negb (is_empty t)) (chunk_text <$> chunks)) ++
  [named "response.content_part.done" (place [("part", text_part text)]);
   named "response.output_item.done" [("output_index", JNumber 0); ("item", item)];
   named "response.completed"
     [("response", response_object resp_id model created (if existsb chunk_ends chunks then "completed" else "incomplete")
                     [item] (last_usage chunks))]].

Lemma handle_started c st :
  ss_started st = true ->
  exists role, handle_chunk c st =
    mkStreamState (ss_resp_id st) (ss_item_id st) (ss_model st) (ss_created_at st) true role (ss_text st ++ chunk_text c)
      (chunk_usage c (ss_usage st)) (ss_finished st || chunk_ends c) (ss_out st ++ text_delta st (chunk_text c)).
Proof.
  intros Hs. unfold handle_chunk, chunk_text, chunk_ends, chunk_choice. rewrite Hs. simpl. rewrite Hs.
  destruct (get "choices" c ≫= nth 0) as [ch|]; simpl; eexists; [done|].
  by rewrite append_empty, orb_false_r, app_nil_r.
Qed.
Lemma chunks_fold cs st :
  ss_started st = true ->
  exists role, foldl (fun st j => handle_chunk j st) st cs =
    mkStreamState (ss_resp_id st) (ss_item_id st) (ss_model st) (ss_created_at st) true role
      (foldl String.append (ss_text st) (chunk_text <$> cs)) (foldl (fun u c => chunk_usage c u) (ss_usage st) cs)
      (ss_finished st || existsb chunk_ends cs)
      (ss_out st ++ ((fun t => named "response.output_text.delta" (part_of st [("delta", JString t)])) <$>
                       List.filter (fun t => negb (is_empty t)) (chunk_text <$> cs))).
Proof.
  revert st. induction cs as [|c cs IH]; intros st Hs; simpl.
  - exists (ss_saw_role st). rewrite app_nil_r, orb_false_r. by destruct st; simpl in *; subst.
  - destruct (handle_started c st Hs) as [role0 ->]. match goal with |- exists _, foldl _ ?x _ = _ => destruct (IH x eq_refl) as [role ->] end.
    exists role. simpl. rewrite orb_assoc, <- app_assoc. f_equal. f_equal. unfold text_delta.
    by destruct (is_empty (chunk_text c)).
Qed.
Lemma closing_events env cs :
  ss_out (finalize (foldl (fun st j => handle_chunk j st) (new_stream env) cs)) = response_events env cs.
Proof.
  assert (finalize (foldl (fun st j => handle_chunk j st) (new_stream env) cs) =
          finalize (foldl (fun st j => handle_chunk j st) (start (default JNull (head cs)) (new_stream env)) cs)) as -> by by destruct cs.
  destruct (chunks_fold cs (start (default JNull (head cs)) (new_stream env)) eq_refl) as [role ->].
  unfold finalize, response_events. done.
Qed.

(** C22: What a client of the Responses endpoint receives depends on what the chat
    handler wrote, not on how the network cut it.  For a body of chunks, errors,
    keep-alive comments and at most one final [[DONE]], split into any pieces:
    the named events are the three opening ones, one delta per non-empty text in
    order, and the three closing ones with the joined text, the status the finish
    reasons give and the last usage reported; the error events have the texts of
    the errors, in order. *)
Theorem responses_stream_exact (env : Env) (body : list (option SseEvent)) (pieces : list (list byte)) :
  last_only is_done_event body = true -> concat pieces = wire body ->
  let st := translate_stream pieces [] (new_stream env) in
  List.filter is_named (ss_out st) = response_events env (omap chunk_in body) /\
  omap error_of (ss_out st) = omap error_in body.
Proof.
  intros Hb Hp. simpl. rewrite pieces_do_not_matter; [|done|done|].
  2: { simpl. rewrite Hp, frames_wire. unfold done_last. by rewrite last_only_map, (last_only_ext _ _ _ ends_wire_frame). }
  simpl. rewrite Hp. destruct (whole_wire body (new_stream env) Hb) as (l & -> & Hl & Hbody).
  assert (omap chunk_in body = omap chunk_in l /\ omap error_in body = omap error_in l) as [-> ->].
  { rewrite Hbody, !omap_app. destruct (existsb is_done_event body); simpl; by rewrite ?app_nil_r. }
  rewrite finalize_errors, steps_errors by done. split; [|done].
  change (ss_out (named_only (finalize (foldl step (new_stream env) l))) = response_events env (omap chunk_in l)).
  rewrite finalize_named, steps_named by done. apply closing_events.
Qed.
End Written.

(** ** An answer sent back *)

Section Replay.
Context `{WireCrates}.

Definition answer_message (chat : Json) : option Json := (get "choices" chat ≫= nth 0) ≫= get "message".
Definition answer_text (chat : Json) : string := default "" (answer_message chat ≫= get_str "content").
Definition answer_calls (chat : Json) : option (list Json) := (answer_message chat ≫= get "tool_calls") ≫= as_list.
(** The message of a conversation in which the assistant makes a call. *)
Definition sent_back (call : Json) : Json :=
  JObject [("role", JString "assistant"); ("content", JNull);
           ("tool_calls", JArray [JObject
              [("id", JString (default "" (get_str "id" call))); ("type", JString "function");
               ("function", JObject [("name", JString (default "" (get "function" call ≫= get_str "name")));
                                     ("arguments", JString (default "" (get "function" call ≫= get_str "arguments")))])]])].

Lemma replay_functions env (f : nat -> nat) calls messages :
  fold_res translate_input_item (imap (fun k call => function_item env (f k) call) calls) messages =
    Ok (messages ++ (sent_back <$> calls)).
Proof.
  revert f messages. induction calls as [|c calls IH]; intros f messages; simpl; [by rewrite app_nil_r|].
  pose proof (IH (fun k => f (S k)) (messages ++ [sent_back c])) as E. rewrite <- app_assoc in E. exact E.
Qed.

(** C40: An answer sent back as input means what it said.  The output items of a
    buffered answer, given as the input of the next request, translate to one
    message of the assistant with its text, if it has one, and then a message per
    call, in order, with the identifier, name and arguments of the call; each of
    them reads as a chat message. *)
Theorem responses_answer_replays (env : Env) (chat : Json) (messages : list Json) :
  let said := (if negb (is_empty (answer_text chat)) || negb (is_some (answer_calls chat))
               then [text_message "assistant" (answer_text chat)] else []) ++
              (sent_back <$> default [] (answer_calls chat)) in
  fold_res translate_input_item (answer_output env chat) messages = Ok (messages ++ said) /\
  is_Some (mapM message_of said).
Proof.
  split.
  - unfold answer_output. fold (answer_message chat). fold (answer_text chat). fold (answer_calls chat).
    rewrite fold_res_app. destruct (_ || _); simpl; rewrite (replay_functions env (fun k => S (S k))); [|done].
    by rewrite <- app_assoc.
  - apply mapM_is_Some_2, Forall_app. split; [destruct (_ || _); [apply Forall_singleton; by eexists|by apply Forall_nil]|].
    apply Forall_fmap, Forall_true. intros c. by eexists.
Qed.
End Replay.

(** ** A text for values *)

Definition bit_char (b : byte) : byte := if Ascii.eqb b (u8 0) then "0"%char else "1"%char.
Definition char_bit (c : byte) : byte := if Ascii.eqb c "0"%char then u8 0 else u8 1.
Definition is_bit (c : byte) : bool := Ascii.eqb c "0"%char || Ascii.eqb c "1"%char.
Definition text_wire : WireCrates := {|
  json_text := fun j => bit_char <$> bits_of (encode (to_tree j));
  json_parse := fun l => if forallb is_bit l then of_tree <$> decode (of_bits (char_bit <$> l)) else None;
  SigningKey := bool;
  VerifyingKey := bool;
  verifying_key := fun k => k;
  vk_bytes := toy_key_bytes;
  vk_from_bytes := fun _ => None;
  sign := toy_signature;
  vk_verify := fun k m sig => bool_decide (sig = toy_signature k m)
|}.
Lemma bit_char_is_bit b : is_bit (bit_char b) = true.
Proof. unfold bit_char. by destruct (Ascii.eqb b (u8 0)). Qed.
Lemma char_bits p : char_bit <$> (bit_char <$> bits_of p) = bits_of p.
Proof. induction p as [p IH|p IH|]; simpl; [f_equal; exact IH..|done]. Qed.
Lemma text_wire_lines : @JsonLines text_wire.
Proof.
  split; simpl.
  - intros j. replace (forallb is_bit _) with true.
    + rewrite char_bits, of_bits_of, decode_encode. simpl. by rewrite of_to_tree.
    + symmetry. apply forallb_forall. intros x (b & <- & _)%in_map_iff. apply bit_char_is_bit.
  - intros j. apply Forall_fmap, Forall_true. intros b. unfold bit_char. simpl. destruct (Ascii.eqb b (u8 0)); vm_compute; congruence.
  - intros j. destruct (bits_of _) as [|b l]; [done|]. simpl. unfold bit_char. by destruct (Ascii.eqb b (u8 0)).
  - done.
Qed.

Definition hello_chunk (text : string) : Json :=
  JObject [("model", JString "m"); ("choices", JArray [JObject [("delta", JObject [("content", JString text)])]])].
Definition hello_body : list (option SseEvent) :=
  [Some (Data (hello_chunk "Hel")); None; Some (Data (hello_chunk "lo")); Some DoneEvent].
(** A body byte by byte. *)
Definition single_bytes (l : list byte) : list (list byte) := (fun b => [b]) <$> l.
Lemma concat_single_bytes l : concat (single_bytes l) = l.
Proof. induction l as [|b l IH]; [done|]. simpl. by rewrite IH. Qed.

Lemma responses_stream_exact_witness :
  let env := mkEnv (mkClock 0 100) 0 0 (fun _ => "u") (fun _ => "u") in
  let pieces := single_bytes (@wire text_wire (fun _ => "") hello_body) in
  List.filter is_named (ss_out (@translate_stream text_wire pieces [] (new_stream env))) =
    response_events env [hello_chunk "Hel"; hello_chunk "lo"] /\
  full_text [hello_chunk "Hel"; hello_chunk "lo"] = "Hello" /\ length (response_events env [hello_chunk "Hel"; hello_chunk "lo"]) = 8%nat.
Proof.
  intros env pieces. split; [|split; [vm_compute; done|vm_compute; done]].
  assert (omap chunk_in hello_body = [hello_chunk "Hel"; hello_chunk "lo"]) as <- by (vm_compute; done).
  apply (@responses_stream_exact text_wire text_wire_lines (fun _ => "") env hello_body pieces).
  - vm_compute. done.
  - apply concat_single_bytes.
Defined.

(** ** What the translation loses or leaves as it is *)

Definition some_env : Env := mkEnv (mkClock 0 100) 0 0 (fun _ => "u") (fun _ => "u").
Definition handled (chunks : list Json) : list ResponseEvent :=
  ss_out (finalize (foldl (fun st c => handle_chunk c st) (new_stream some_env) chunks)).
Definition one_choice (o : list (string * Json)) : Json := JObject [("choices", JArray [JObject o])].
Definition weather_call : Json :=
  JObject [("index", JNumber 0); ("id", JString "call_1");
           ("function", JObject [("name", JString "weather"); ("arguments", JString "{}")])].

(** The calls of a stream are dropped: the client reads a completed, empty
    message; the same answer, buffered, has the call. *)
Theorem streamed_calls_are_lost :
  handled [one_choice [("delta", JObject [("tool_calls", JArray [weather_call])])];
           one_choice [("delta", JObject []); ("finish_reason", JString "tool_calls")]] =
  handled [one_choice [("delta", JObject []); ("finish_reason", JString "stop")]] /\
  answer_output some_env (one_choice [("message", JObject [("content", JString ""); ("tool_calls", JArray [weather_call])])]) =
    [function_item some_env 2 weather_call].
Proof. vm_compute. done. Qed.

(** Frames after a final [[DONE]] are dropped when they come in a piece of their
    own, and handled after the end of the response when they come with it. *)
Definition done_frame : list byte := bytes "data: [DONE]" ++ [LF; LF].
Theorem frames_after_done_depend_on_pieces `{WireCrates} (frame : list byte) st :
  frames frame = [frame] ->
  translate_stream [done_frame; frame] [] st = finalize st /\
  translate_stream [done_frame ++ frame] [] st = (handle_frame frame (finalize st)).1.
Proof.
  intros Hf.
  assert (forall more, frames (done_frame ++ more) = done_frame :: frames more) as Hd.
  { intros more. by destruct (cut_some (done_frame ++ more) done_frame more eq_refl) as [-> _]. }
  assert (forall fs s, handle_all (done_frame :: fs) s = ((handle_all fs (finalize s)).1, true)) as Hall.
  { intros fs s. change (handle_all (done_frame :: fs) s) with (let '(s', d) := handle_all fs (finalize s) in (s', true)).
    by destruct (handle_all fs (finalize s)). }
  split; cbn [translate_stream]; rewrite handle_frames_spec by done.
  - change ([] ++ done_frame) with (done_frame ++ []). by rewrite Hd, Hall.
  - change ([] ++ done_frame ++ frame) with (done_frame ++ frame). rewrite Hd, Hf, Hall.
    cbn [handle_all]. by destruct (handle_frame frame (finalize st)).
Qed.

(** [as u32] keeps the low half of a limit. *)
Theorem max_output_tokens_wraps :
  translate_request (H := text_wire) (JObject [("model", JString "m"); ("input", JString "hi");
                                               ("max_output_tokens", JNumber (2 ^ 32 + 1))]) =
    Ok (JObject [("model", JString "m"); ("messages", JArray [text_message "user" "hi"]); ("max_tokens", JNumber 1)]).
Proof. vm_compute. done. Qed.

(** A choice of one function keeps the flat form of the Responses API, while the
    tools get the nested form of the chat API. *)
Theorem tool_choice_stays_flat :
  let flat := JObject [("type", JString "function"); ("name", JString "f")] in
  match translate_request (H := text_wire)
          (JObject [("model", JString "m"); ("input", JString "hi"); ("tools", JArray [flat]); ("tool_choice", flat)]) with
  | Ok body => get "tool_choice" body = Some flat /\ get "tools" body = Some (JArray [translate_tool flat])
  | Err _ => False
  end.
Proof. vm_compute. done. Qed.
