(* ===== verification/Completions.v ===== *)
(** * Legacy completions

    [gateway/src/handlers/completions.rs]: a text completion is a chat request
    with one message, and the answer of the chat handler in another shape.  A
    stream is handed on as it is; the texts of serde errors are left out. *)

From S2P Require Import Prelude Db RustStr Merkle F64 Registry Auth PinWire Catalog ChatPrepare Chat Anthropic ChatBudget.
From Stdlib Require Import Ascii.

Open Scope string_scope.
Open Scope list_scope.
Open Scope Z_scope.

Definition prompt_of (prompt : Json) : result GatewayError string :=
  match prompt with
  | JString s => Ok s
  | JArray parts => Ok (join_lines ((fun v => default "" (as_string v)) <$> parts))
  | _ => Err (BadRequest (quoted "" "prompt" " must be a string or array of strings"))
  end.
Definition chat_only : list string := ["tools"; "tool_choice"; "response_format"].
Definition without (key : string) (o : list (string * Json)) : list (string * Json) :=
  List.filter (fun e => negb (String.eqb e.1 key)) o.
(** The handler up to the chat handler, which gets no headers of the caller. *)
Definition completions_request (principal : AuthPrincipal) (req : Json) : result GatewayError Json :=
  let? _ := reject_account_session principal in
  match req with
  | JObject obj =>
      let? prompt_value := ok_or (BadRequest (quoted "" "prompt" " is required")) (field "prompt" obj) in
      let? prompt := prompt_of prompt_value in
      match List.find (fun forbidden => is_some (field forbidden obj)) chat_only with
      | Some forbidden =>
          Err (BadRequest (quoted "" forbidden " is not supported on /v1/completions; use /v1/chat/completions instead"))
      | None => Ok (JObject (insert_key "messages" (JArray [text_message "user" prompt]) (without "prompt" obj)))
      end
  | _ => Err (BadRequest "request body must be a JSON object")
  end.

Definition completion_choice (choice : Json) : Json :=
  match choice with
  | JObject ch =>
      JObject (insert_key "text" (JString (default "" ((field "message" ch ≫= get "content") ≫= as_string)))
                 (without "message" ch))
  | other => other
  end.
Definition completion_object (chat : Json) : Json :=
  match chat with
  | JObject obj =>
      let obj := insert_key "object" (JString "text_completion") obj in
      JObject (match field "choices" obj with
               | Some (JArray choices) => insert_key "choices" (JArray (completion_choice <$> choices)) obj
               | _ => obj
               end)
  | other => other
  end.
Definition COMPLETION_LIMIT : Z := 1024 * 1024.
Section Text.
Context `{WireCrates}.
Definition completions_reply (body : list byte) : result GatewayError Json :=
  guard? Z.of_nat (length body) <=? COMPLETION_LIMIT
    else (Upstream "read response body: length limit exceeded") in
  let? json := ok_or (Upstream "parse upstream body") (json_parse body) in
  Ok (completion_object json).
End Text.

(** ** The composition *)

Lemma field_without k k' o : String.eqb k k' = false -> field k (without k' o) = field k o.
Proof.
  intros Hk. unfold field, without. induction o as [|[x v] o IH]; [done|]. simpl.
  destruct (String.eqb_spec x k') as [->|Hne]; simpl.
  - rewrite String.eqb_sym, Hk. exact IH.
  - destruct (String.eqb x k); [done|exact IH].
Qed.
Lemma field_without_same k o : field k (without k o) = None.
Proof.
  unfold field, without. induction o as [|[x v] o IH]; [done|]. simpl.
  destruct (String.eqb x k) eqn:E; simpl; [exact IH|]. by rewrite E.
Qed.

(** What the chat handler is asked: the same request, with one message of the
    user instead of the prompt. *)
Lemma completions_asks principal obj body :
  completions_request principal (JObject obj) = Ok body ->
  exists prompt_value prompt, field "prompt" obj = Some prompt_value /\ prompt_of prompt_value = Ok prompt /\
    get "messages" body = Some (JArray [text_message "user" prompt]) /\ get "prompt" body = None /\
    Forall (fun k => get k body = None) chat_only /\
    forall k, k <> "messages" -> k <> "prompt" -> get k body = field k obj.
Proof.
  unfold completions_request. destruct (reject_account_session principal); [|done].
  destruct (field "prompt" obj) as [pv|] eqn:Ep; [|done]. cbn [ok_or]. destruct (prompt_of pv) as [prompt|] eqn:Et; [|done].
  destruct (List.find (fun f => is_some (field f obj)) chat_only) as [f|] eqn:Ef; [done|]. intros [= <-]. exists pv, prompt.
  assert (forall k, k <> "messages" -> k <> "prompt" ->
    get k (JObject (insert_key "messages" (JArray [text_message "user" prompt]) (without "prompt" obj))) = field k obj) as Hother.
  { intros k H1%String.eqb_neq H2%String.eqb_neq. simpl. rewrite field_insert_ne by (by rewrite String.eqb_sym).
    by apply field_without. }
  split; [done|]. split; [done|]. split; [apply field_insert|]. split.
  { simpl. rewrite field_insert_ne by done. apply field_without_same. }
  split; [|exact Hother]. apply Forall_forall. intros k Hk.
  pose proof (List.find_none (fun f => is_some (field f obj)) chat_only Ef k (proj1 (list_elem_of_In _ _) Hk)) as Hn. simpl in Hn.
  rewrite Hother by (intros ->; apply list_elem_of_In in Hk; simpl in Hk; intuition discriminate).
  by destruct (field k obj).
Qed.
(** What comes back: the text of the chat answer as the text of the choice. *)
Lemma completion_of_reply env model pg :
  let body := completion_object (build_non_stream_response env model pg) in
  get "object" body = Some (JString "text_completion") /\
  ((get "choices" body ≫= nth 0) ≫= get "text") = Some (JString (pg_text pg)) /\
  get "usage" body = get "usage" (build_non_stream_response env model pg).
Proof. unfold build_non_stream_response. simpl. by destruct (materialize _ _). Qed.
