(* ===== verification/ProviderAdmin.v ===== *)
(** * The administration of providers

    [gateway/src/handlers/admin_providers.rs]: operators create providers, set the
    prices of their models, enable, disable and pay them.  The store is the two
    tables with the snapshot that dispatch reads.  The code takes the lock of the
    database for each statement; what other threads do in between is an argument. *)

From S2P Require Import Prelude Db RustStr Merkle F64 Wallet Settlement Accounts Providers Registry Pins Auth PinWire Catalog.
From S2P Require Import ChatPrepare Chat ProviderHealth Market MarketFacts Solana Http AdminHandlers Fixtures.

Open Scope string_scope.
Open Scope list_scope.
Open Scope Z_scope.

Record MarketStore : Type := mkMarketStore {
  mt_tables : MarketDb;
  mt_registry : ProviderRegistry
}.
Record CreateProviderBody : Type := mkCreateProvider {
  cp_slug : string;
  cp_display_name : string;
  cp_base_url : string;
  cp_wire_format : option string;
  cp_auth_header_name : option string;
  cp_auth_secret_ref : string;
  cp_data_collection : option string;
  cp_zdr : option bool;
  cp_quantization : option string
}.
Record ProviderModelEntry : Type := mkModelEntry {
  me_id : string;
  me_prompt : string;
  me_completion : string;
  me_request : option string;
  me_context_length : option Z;
  me_max_output_tokens : option Z;
  me_min_context : option Z;
  me_supported_features : list string;
  me_input_modalities : list string;
  me_deprecation_date : option string
}.
Definition model_row (provider_id : string) (m : ProviderModelEntry) : ProviderModelRow :=
  mkProviderModelRow provider_id (me_id m) (me_prompt m) (me_completion m) (me_request m) (me_min_context m)
    (default 0 (me_context_length m)) (me_max_output_tokens m) (me_supported_features m) (me_input_modalities m)
    (me_deprecation_date m).

Section Handlers.
Context (sql_text : SqlError -> string) (now : Z) (others : nat -> MarketStore -> MarketStore).

Definition require_admin (principal : AuthPrincipal) : Http MarketStore unit :=
  match principal with
  | PStatic _ => mret tt
  | _ => fails (Forbidden "admin endpoints require a static bearer")
  end.
Definition require_ledger : Http MarketStore unit := fun s =>
  match s with Some _ => (Ok tt, s) | None => (Err (Answered (Other (Bail "ledger not initialized"))), s) end.
(** A statement on the tables. *)
Definition statement (what : string) (f : MarketDb -> result anyhow MarketDb) : Http MarketStore unit :=
  commits (context sql_text what) (fun s => let? db := f (mt_tables s) in Ok (tt, mkMarketStore db (mt_registry s))).
Definition on_ledger (f : Db -> result anyhow Db) (db : MarketDb) : result anyhow MarketDb :=
  let? x := f (mk_db db) in Ok (mkMarketDb x (mk_models db)).
(** [registry.refresh()] reads the tables and replaces the snapshot under one lock. *)
Definition refresh_registry : Http MarketStore unit :=
  writes (fun s => mkMarketStore (mt_tables s) (refresh (mt_tables s))).
Definition known_provider (provider_id : string) : Http MarketStore unit :=
  reads (fun s => ok_or (BadRequest ("unknown provider " +:+ provider_id)) ((fun _ => tt) <$> get_provider provider_id (mt_registry s))).

Definition create_provider (uuid : string) (principal : AuthPrincipal) (body : CreateProviderBody)
    : Http MarketStore string :=
  _ ← require_admin principal;
  _ ← require_ledger;
  let provider_id := "prov_" +:+ uuid in
  let wire := default Openai (wire_format_parse <$> cp_wire_format body) in
  _ ← statement "upsert provider" (on_ledger
        (upsert_provider now provider_id (cp_slug body) (cp_display_name body) (cp_base_url body) wire
           (default "Authorization" (cp_auth_header_name body)) (cp_auth_secret_ref body)
           (default "allow" (cp_data_collection body)) (default false (cp_zdr body)) (cp_quantization body)));
  _ ← awaits (others 0);
  _ ← refresh_registry;
  mret provider_id.

(** One statement per entry; an error leaves those before it. *)
Fixpoint upsert_entries (provider_id : string) (data : list ProviderModelEntry) (upserted : nat) : Http MarketStore nat :=
  match data with
  | [] => mret upserted
  | m :: data =>
      _ ← statement "upsert model" (upsert_provider_model (model_row provider_id m));
      _ ← awaits (others upserted);
      upsert_entries provider_id data (S upserted)
  end.
Definition upsert_models (provider_id : string) (principal : AuthPrincipal) (data : list ProviderModelEntry)
    : Http MarketStore nat :=
  _ ← require_admin principal;
  _ ← require_ledger;
  _ ← known_provider provider_id;
  upserted ← upsert_entries provider_id data 0;
  _ ← refresh_registry;
  mret upserted.

Definition set_provider_status (principal : AuthPrincipal) (provider_id : string) (status : ProviderStatus)
    : Http MarketStore unit :=
  _ ← require_admin principal;
  _ ← require_ledger;
  _ ← statement "set status" (on_ledger (fun db => Ok (set_status now provider_id status db)));
  _ ← awaits (others 0);
  refresh_registry.
Definition enable_provider (provider_id : string) (principal : AuthPrincipal) : Http MarketStore unit :=
  set_provider_status principal provider_id Providers.Active.
Definition disable_provider (provider_id : string) (principal : AuthPrincipal) : Http MarketStore unit :=
  set_provider_status principal provider_id Providers.Disabled.

Definition payout_provider (provider_id : string) (principal : AuthPrincipal) (amount : Z) (destination : option string)
    : Http MarketStore unit :=
  _ ← require_admin principal;
  _ ← require_ledger;
  _ ← known_provider provider_id;
  _ ← awaits (others 0);
  commits (fun e => BadRequest ("payout: " +:+ anyhow_text sql_text e)) (fun s =>
    let? db := on_ledger (record_provider_payout now provider_id amount destination) (mt_tables s) in
    Ok (tt, mkMarketStore db (mt_registry s))).
End Handlers.

(** ** What the operators get *)

Section Facts.
Context (sql_text : SqlError -> string) (now : Z).
Definition alone : nat -> MarketStore -> MarketStore := fun _ s => s.

Lemma only_operators (others : nat -> MarketStore -> MarketStore) principal s :
  (forall label, principal <> PStatic label) ->
  let refused {A} : result Stop A * option MarketStore :=
    (Err (Answered (Forbidden "admin endpoints require a static bearer")), s) in
  (forall uuid body, create_provider sql_text now others uuid principal body s = refused) /\
  (forall id data, upsert_models sql_text others id principal data s = refused) /\
  (forall id status, set_provider_status sql_text now others principal id status s = refused) /\
  (forall id amount dest, payout_provider sql_text now others id principal amount dest s = refused).
Proof.
  intros Hp. destruct principal as [label| | | |]; try done. by destruct (Hp label).
Qed.

Ltac run := unfold mbind, http_bind, mret, http_ret, require_admin, require_ledger, statement, commits, runs, reads, writes,
  awaits, alone, on_ledger, known_provider, refresh_registry in *; simpl in *.

(** The snapshot is that of the tables. *)
Definition synced (s : MarketStore) : Prop := mt_registry s = refresh (mt_tables s).

Lemma upsert_provider_lookup id slug name url wire auth secret data zdr quant db db' :
  upsert_provider now id slug name url wire auth secret data zdr quant db = Ok db' ->
  (forall j r, providers db !! j = Some r -> prv_slug r = slug -> j = id) /\
  exists row, providers db' = <[id := row]> (providers db) /\ prv_slug row = slug /\
    (providers db !! id = None -> prv_status row = "active").
Proof.
  unfold upsert_provider. destruct (bool_decide _); [|done]. destruct (unique_for _ _ _ _) eqn:Hu; [|done].
  unfold unique_for in Hu. apply bool_decide_eq_true in Hu. destruct (match providers db !! id with Some r => _ | None => _ end) as [st cr] eqn:E.
  intros [= <-]. split.
  - intros j r Hj Hs. destruct (Hu j r Hj) as [->|Hne]; [done|congruence].
  - eexists. split; [done|]. split; [done|]. simpl. intros Hn. rewrite Hn in E. by injection E as <- <-.
Qed.

(** A created provider is found under the identifier of the answer and under its
    slug, active; slugs stay unique, and the snapshot is that of the tables. *)
Theorem created_provider_is_listed label uuid body s id s' :
  create_provider sql_text now alone uuid (PStatic label) body (Some s) = (Ok id, Some s') ->
  slugs_unique (mt_tables s) -> providers (mk_db (mt_tables s)) !! id = None ->
  synced s' /\ slugs_unique (mt_tables s') /\
  exists p, get_provider id (mt_registry s') = Some p /\ by_slug (cp_slug body) (mt_registry s') = Some p /\
    pv_status p = Providers.Active.
Proof.
  intros Hc Hu Hn. unfold create_provider in Hc. run.
  destruct (upsert_provider now _ _ _ _ _ _ _ _ _ _ _) as [db|] eqn:E; [|done]. simpl in Hc. injection Hc as <- <-.
  apply upsert_provider_lookup in E as (Hslug & row & Ep & Hs & Hactive). specialize (Hactive Hn).
  assert (slugs_unique (mkMarketDb db (mk_models (mt_tables s)))) as Hu'.
  { intros i j r r'. simpl. rewrite Ep. intros [[<- <-]|[Hi Hr]]%lookup_insert_Some [[<- <-]|[Hj Hr']]%lookup_insert_Some Hrs;
      [done|..].
    - symmetry. apply (Hslug j r' Hr'). congruence.
    - apply (Hslug i r Hr). congruence.
    - by apply (Hu i j r r'). }
  split; [done|]. split; [exact Hu'|]. simpl. destruct (snapshot_exact _ Hu') as (Hget & Hby & _).
  exists (provider_of ("prov_" +:+ uuid) row). rewrite Hget. simpl. rewrite Ep, lookup_insert_eq. split; [done|]. split.
  - apply Hby. exists ("prov_" +:+ uuid), row. simpl. rewrite Ep, lookup_insert_eq. done.
  - unfold provider_of. simpl. by rewrite Hactive.
Qed.

(** A disabled provider is offered for no model. *)
Theorem disabled_provider_is_not_offered label id s s' model :
  disable_provider sql_text now alone id (PStatic label) (Some s) = (Ok tt, Some s') ->
  forall p m, (p, m) ∈ lookup_model model (mt_registry s') -> pv_provider_id p <> id.
Proof.
  intros [= <-] p m. unfold lookup_model. intros (x & _ & Hx)%list_elem_of_omap. unfold active_pair in Hx.
  destruct (rg_providers _ !! pm_provider_id x) as [q|] eqn:Eq; [|done]. cbn in Hx. case_bool_decide as Ha; [|done].
  injection Hx as <- <-. simpl in Eq. rewrite map_lookup_imap in Eq.
  destruct (alter _ id (providers (mk_db (mt_tables s))) !! pm_provider_id x) as [row|] eqn:Er; [|done].
  cbn in Eq. injection Eq as <-. simpl. intros Hid. rewrite Hid, lookup_alter_eq in Er.
  destruct (providers _ !! id); [|done]. injection Er as <-. done.
Qed.

(** Paying a provider does not touch the snapshot. *)
Lemma payout_keeps_snapshot label id amount dest s r s' :
  payout_provider sql_text now alone id (PStatic label) amount dest (Some s) = (r, Some s') -> synced s -> synced s'.
Proof.
  unfold payout_provider, synced. run. destruct (get_provider id (mt_registry s)); simpl; [|by intros [= _ <-]].
  destruct (record_provider_payout now id amount dest (mk_db (mt_tables s))) as [db|] eqn:E; simpl;
    [|by intros [= _ <-]].
  intros [= _ <-] ->. simpl. unfold record_provider_payout in E. destruct (negb _); [|done]. destruct (amount <=? _); [|done].
  unfold insert_provider_ledger in E. cbn in E. destruct (has _ _); [|done]. injection E as <-. done.
Qed.

(** An unknown provider is enabled and disabled with an empty success. *)
Theorem unknown_provider_is_enabled label id s :
  providers (mk_db (mt_tables s)) !! id = None ->
  enable_provider sql_text now alone id (PStatic label) (Some s) =
    (Ok tt, Some (mkMarketStore (mt_tables s) (refresh (mt_tables s)))).
Proof.
  intros Hn. unfold enable_provider, set_provider_status. run. unfold set_status.
  rewrite alter_id by (intros r Hr; congruence). by destruct s as [[[] ] ].
Qed.
(** A slug is taken for good: creating draws a new identifier, so the update of the
    statement is never reached and a second request for the slug is an error 500. *)
Theorem taken_slug_is_an_internal_error label uuid body s id row others :
  default "allow" (cp_data_collection body) = "allow" ->
  providers (mk_db (mt_tables s)) !! id = Some row -> prv_slug row = cp_slug body -> id <> "prov_" +:+ uuid ->
  exists e, create_provider sql_text now others uuid (PStatic label) body (Some s) = (Err (Answered e), Some s) /\
    status e = 500.
Proof.
  intros Hd Hrow Hs Hid. unfold create_provider. run. unfold upsert_provider. rewrite Hd, bool_decide_eq_true_2 by (by left).
  replace (unique_for _ _ _ _) with false; [simpl; by eexists|]. symmetry. apply bool_decide_eq_false. intros Hu.
  destruct (Hu id row Hrow) as [E|Hne]; [by apply Hid|apply Hne; by rewrite Hs].
Qed.
End Facts.
